(* ===== verification/_CoqProject ===== *)
-Q . S2P
Prelude.v
Std.v
Lib.v
Codec.v
Abi.v
AbiStruct.v
FsTypes.v
FileSystem.v
Transport.v
TransportProps.v
FuseDev.v
FuseDevProps.v
Instances.v
WireClaims.v
Server.v
ServerProps.v
ServerWire.v
ServerWireProps.v
ServerClaims.v
DirStream.v
ServerData.v
PseudoFs.v
PseudoFsProps.v
PseudoFsClaims.v
PseudoPersist.v
Vfs.v
VfsFs.v
VfsProps.v
VfsMount.v
VfsClaims.v
VfsService.v
ProgLogic.v
Host.v
InodeStore.v
MountFds.v
HostLaws.v
ToyHost.v
Layer.v
OverlayStore.v
Overlay.v
OverlayOps.v
OverlaySync.v
ToyLayer.v
OverlayLaws.v
ToyLayerOk.v
OverlayLogic.v
OverlaySafe.v
OverlaySafeOps.v
OverlaySafeMake.v
OverlaySafeSync.v
OverlayService.v
OverlayUnion.v
OverlayTree.v
OverlaySeen.v
PassthroughNumbers.v
Passthrough.v
PassthroughSync.v
PassthroughProps.v
PassthroughTable.v
PassthroughRequests.v
PassthroughDir.v
PassthroughLedger.v
PassthroughIdentity.v
PassthroughSession.v
PassthroughClaims.v
PassthroughSafety.v
PassthroughHandles.v
PassthroughRace.v
PassthroughAccess.v
XattrMap.v
VirtioFs.v
ServerAsync.v
VfsAsync.v
FileVolatile.v
Session.v
Mpmc.v
Dax.v
AsyncTransfer.v
