(* ===== verification/Prelude.v ===== *)
(** * Verification of fuse-backend-rs

    fuse-backend-rs is a library to write FUSE daemons.  A request arrives as a
    byte buffer; the transport layer turns it into a [Reader] and offers a
    [Writer] for the reply; the server decodes the request, calls a file system
    through the [FileSystem] trait and encodes what it returns.  The library
    brings four file systems: a union ([Vfs]) of mounted backends, the pseudo
    file system that holds the union's mount points, the passthrough file
    system, which exports a directory of the host, and the overlay file system,
    which merges the directories of several layers.  A session mounts the file
    system and hands out the requests of the kernel; under virtiofs the requests
    come from the driver of a guest instead.  The target is Linux, with release
    arithmetic, where unchecked integer operations wrap.  The synchronous server
    is modelled on the transport fusedev; the files [VirtioFs], [Dax],
    [ServerAsync], [VfsAsync], [FileVolatile], [AsyncTransfer] and [Mpmc] model
    what the features virtiofs, vhost-user-fs and async-io add.

    ** How code becomes definitions

    Integers are [Z] with their width written out ([wrap], [signed], [in_u]);
    bytes and byte strings are [list Z]; a Rust structure is a [Record], an enum
    an [Inductive].  A fallible call returns an [outcome]: [Ok], [Err] or
    [Panic], so that absence of panics is a theorem.  Code with state is a
    [prog]: it takes the state, returns the next one and an outcome, and an
    early return through [?] keeps the state reached so far.  What is not part of
    the sources is a parameter with named laws: volatile slices of vm-memory
    ([VolatileSlice]), the FUSE device ([FuseDevice]), the serialiser of saved
    states, the host's system calls ([Host], [FileIo], [SessionHost]), files of
    tokio-uring ([UringIo]), tokio's [Notify], and the memory and descriptor
    chains of a guest ([GuestMemory], [DescriptorChain]).  [Instances],
    [ToyHost] and small examples in the files inhabit them; the theorems are
    evaluated on these inhabitants.  The layers of an overlay are a parameter
    too, [Layer], with the laws [LayerOk], [ReadsKeep] and [LayerView];
    [ToyLayer] inhabits it.  An [await] is the call it waits for, run from start
    to end; the operations of a [join!] run in any order.

    ** Files, from the wire upwards

    - [Prelude], [Std]: outcomes and programs, integers, lists, tactics and the
      hint database [fuse]; errno values, [io::Error], C strings, UTF-8 and
      paths of the standard library.
    - [Lib] is [src/lib.rs].  [Codec], [Abi], [AbiStruct] are
      [src/abi/fuse_abi_linux.rs] and [virtio_fs.rs]: constants, opcodes and the
      wire structures with their byte layout.
    - [FsTypes], [FileSystem]: [src/api/filesystem/mod.rs] and [sync_io.rs].
      The trait is the class [FileSystem]; its methods that take and return
      values are the constructors of [FsOp]; [FileSystemOk] is what the server
      relies on.  [SubFs] in [ProgLogic] turns a file system with an invariant
      into one that keeps these promises.
    - [Transport], [FuseDev]: [src/transport/mod.rs], [src/common/file_buf.rs],
      [src/transport/fusedev/mod.rs]; [TransportProps], [FuseDevProps] and
      [WireClaims] relate them to flat byte sequences and to messages.
    - [Server]: [src/api/server/mod.rs] and [sync_io.rs], every handler and the
      dispatch.  [ServerProps], [ServerWire], [ServerWireProps], [ServerClaims],
      [ServerData] and [DirStream] hold its theorems.
    - [PseudoFs]: [src/api/pseudo_fs.rs]; theorems in [PseudoFsProps],
      [PseudoFsClaims] and [PseudoPersist].
    - [Vfs], [VfsFs]: [src/api/vfs/mod.rs] and [sync_io.rs]; theorems in
      [VfsProps], [VfsMount], [VfsClaims] and [VfsService].
    - [Host], [InodeStore], [MountFds], [Passthrough], [PassthroughSync]:
      [src/passthrough], the host as seen from it, its inode table, mount
      descriptors, state and request handlers.  [HostLaws] states what is
      relied on in the host and adds a record of the calls made on it.
      [PassthroughRace] has [do_lookup] and [forget_one] again, as steps
      that interleave.
    - [ProgLogic], [PassthroughProps]: judgements on programs closed under
      sequencing ([pres], [safe], [wp]) and the tactic [prog_auto] that follows
      the structure of a program.  The other [Passthrough...] files hold
      theorems.
    - [Layer]: [src/api/filesystem/overlay.rs], with the default bodies of the
      trait.  [OverlayStore], [Overlay], [OverlayOps], [OverlaySync]:
      [src/overlayfs], the tables of [inode_store.rs] and the data; real inodes
      and overlay inodes; the operations of [OverlayFs]; the methods of the
      trait.  An [Arc] of an overlay inode is an address in a heap.  Inodes that
      nothing refers to leave the heap at the end of the request, which is when
      their real inodes are forgotten ([collect]); a real inode that goes
      earlier is forgotten at once.  [OverlayLaws] states what is relied on in
      layers and defines the union of their trees, [OverlayLogic] the invariant,
      [OverlaySafe], [OverlaySafeOps], [OverlaySafeMake] and [OverlaySafeSync]
      rules for every function, from which [OverlayService] draws the theorems.
      [OverlayUnion], [OverlayTree] and [OverlaySeen] relate the cached tree to
      the union.
    - [XattrMap]: [src/passthrough/xattrmap.rs], the rules for names of extended
      attributes.
    - [VirtioFs]: [src/transport/virtiofs/mod.rs], reader and writer over the
      memory of a guest.  [Dax]: the mappings of the DAX window, from the handlers
      in [src/api/server/sync_io.rs] to the messages of
      [src/transport/fs_cache_req_handler.rs].
    - [ServerAsync], [VfsAsync]: [src/api/server/async_io.rs], the asynchronous
      writer of [src/transport/fusedev/mod.rs], and [src/api/vfs/async_io.rs].
    - [FileVolatile]: [src/common/file_buf.rs], [file_traits.rs], [async_file.rs],
      file I/O on slices of memory; [AsyncTransfer]: the asynchronous halves of
      [src/transport/mod.rs] and [virtiofs/mod.rs], which move data between
      requests and files.
    - [Session]: [src/transport/fusedev/linux_session.rs], mounting, unmounting
      and waiting for requests.  [Mpmc]: [src/common/mpmc.rs], whose callers
      interleave.

    ** What the theorems show

    - Wire: structures and their bytes determine each other; a split writer
      sends one message; a request's bytes are read in order, whatever the
      slices they lie in.
    - Server: no request panics; at most one reply, with the request's id and
      its true length; for each call of the protocol the server runs that call
      and sends that reply; READ, WRITE, FORGET, INIT and the refusals; what
      READDIR writes, a reader of directory records gets back.
    - Pseudo file system: it refines a finite map from paths to numbers; reading
      its directories through the server, mounting and walking, eviction,
      saving and restoring.
    - Union: the mount table and its index allocation, calls forwarded to the
      right backend with inodes converted both ways, lookups across mount
      points, unmounting with the backend destroyed, negotiation, owners, saving
      and restoring.
    - Passthrough: the table keeps exactly the references the client holds, also
      through directory scans; inode numbers identify host files; handles work
      while they are open; numbers built from host numbers decode again and do
      not collide; a request acts as its caller when it creates something, never
      resolves more than one name at a time, and leaves the thread root; a
      server over it survives every sequence of messages; racing lookups and
      forgets are linearizable and do not deadlock; the parser of directory
      records and ACCESS agree with their references.
    - Overlay: whatever requests come, the lower layers stay as they are, and a
      server over it survives every sequence of messages; lookups and listings
      show the union of the layers; inode numbers are unique and run out only
      when all are taken.
    - Extended attributes: every accepted map is well typed and translates
      without panics; printing and parsing rules; what a [map] rule keeps from
      the client.
    - virtiofs: replies and file contents arrive in the guest's memory, nothing
      else is touched and exactly the written bytes are marked dirty; a
      REMOVEMAPPING request of a guest reaches the monitor, and the monitor's
      answer the guest.
    - Asynchronous code: server and union agree with the synchronous ones but
      for the differences stated; vectored transfers count no byte they did not
      move, in whatever order and however short their pieces complete; what a
      WRITE stored a READ returns; the channel loses no wake-up.
    - Session: no descriptor is lost on any path; [get_request] returns the
      next request, stops when told and ends when unmounted.

    ** Bounds and fuel

    Loops over data recurse on it.  Others carry fuel: [allocate_loop] 257
    rounds, one more than there are indices, and the proof shows that it never
    runs out; [read_exact] one more than the bytes wanted; [readdir_loop] one
    more than the length of the buffer, each record being longer than that;
    [lookup_search] two rounds, since without other threads a second round is
    never taken; [create_upper_dir_at] and [empty_node_directory_at] the
    distance of an address to the ends of the heap, since a parent comes before
    its children.  A [while] loop over a layer, a file or a device ([loop]) has
    2^64 rounds, more than a file has bytes or a directory has entries; where the
    kernel may interrupt a call, it does so a bounded number of times, the
    patience of the hypotheses.  The search for an inode number has 2^56 - 1
    rounds, as in the source; a parser of rules one round per character.  Running out is [Panic], so the
    theorems that exclude panics show that the fuel is enough.  Counters of 64
    bits are assumed not to wrap within a session, in the hypotheses that say
    so.

    ** Not modelled

    - The macOS files, another target.
    - [src/passthrough/async_io.rs], whose methods are [unimplemented!()];
      [async_runtime.rs], which starts tokio; opening and cloning files through
      tokio; [FuseDevTask] of [linux_session.rs], behind a feature that does not
      exist and with types the sources lack.
    - [credentials.rs] of the passthrough file system, which no module declares
      and which calls functions the sources lack.
    - The synchronous server over the virtiofs writer: the handlers are run on
      the writer of fusedev, but for those of DAX mappings, which [Dax] runs on
      both.
    - Threads in the overlay file system: its requests run one after another.
      The order of a [HashMap] is that of the model's maps, and the temporary
      file of copy-up, here a buffer, can always be made.
    - Descriptors closed by [Drop], except those of a session; log output and
      metrics, which the code does not observe. *)

From stdpp Require Export base tactics option list gmap strings.
From Stdlib Require Export ZArith Lia.

#[export] Set Default Goal Selector "!".
#[global] Open Scope Z_scope.

(** ** Outcomes of Rust code

    A call returns [Ok], returns [Err] (the [?] operator propagates it), or
    panics: [unwrap] of [None], a failed [assert!], an index out of range. *)

Inductive outcome (E A : Type) : Type :=
| Ok (a : A)
| Err (e : E)
| Panic.
Arguments Ok {E A} a.
Arguments Err {E A} e.
Arguments Panic {E A}.

Definition is_ok {E A} (o : outcome E A) : bool :=
  match o with Ok _ => true | _ => false end.

Definition outcome_bind {E A B} (o : outcome E A) (k : A -> outcome E B) : outcome E B :=
  match o with Ok a => k a | Err e => Err e | Panic => Panic end.

(** [Result::map] and [Result::map_err]. *)
Definition outcome_map {E A B} (f : A -> B) (o : outcome E A) : outcome E B :=
  match o with Ok a => Ok (f a) | Err e => Err e | Panic => Panic end.

Definition map_err {E F A} (f : E -> F) (o : outcome E A) : outcome F A :=
  match o with Ok a => Ok a | Err e => Err (f e) | Panic => Panic end.

(** [Option::ok_or] and [Option::unwrap]. *)
Definition ok_or {E A} (e : E) (o : option A) : outcome E A :=
  match o with Some a => Ok a | None => Err e end.

Definition unwrap {E A} (o : option A) : outcome E A :=
  match o with Some a => Ok a | None => Panic end.

#[global] Instance outcome_ret E : MRet (outcome E) := fun A => @Ok E A.
#[global] Instance outcome_mbind E : MBind (outcome E) := fun A B k o => outcome_bind o k.

(** ** Programs over a state

    Stateful code threads its state explicitly; an early return through [?]
    keeps the state reached so far. *)

Definition prog (S E A : Type) : Type := S -> S * outcome E A.

Definition prog_bind {S E A B} (m : prog S E A) (k : A -> prog S E B) : prog S E B :=
  fun s => match m s with
           | (s', Ok a) => k a s'
           | (s', Err e) => (s', Err e)
           | (s', Panic) => (s', Panic)
           end.

#[global] Instance prog_ret S E : MRet (prog S E) := fun A a s => (s, Ok a).
#[global] Instance prog_mbind S E : MBind (prog S E) := fun A B k m => prog_bind m k.

Definition fail {S E A} (e : E) : prog S E A := fun s => (s, Err e).
Definition lift {S E A} (o : outcome E A) : prog S E A := fun s => (s, o).
Definition gets {S E A} (f : S -> A) : prog S E A := fun s => (s, Ok (f s)).
Definition modify {S E} (f : S -> S) : prog S E unit := fun s => (f s, Ok tt).

(** [Result::map_err] on the result of a program. *)
Definition prog_map_err {S E E' A} (f : E -> E') (m : prog S E A) : prog S E' A := fun s =>
  let '(s', o) := m s in (s', map_err f o).

(** The result of a program as a value, for code that looks at an error and
    goes on. *)
Definition catch {S E A} (m : prog S E A) : prog S E (E + A) := fun s =>
  match m s with
  | (s', Ok a) => (s', Ok (inr a))
  | (s', Err e) => (s', Ok (inl e))
  | (s', Panic) => (s', Panic)
  end.

(** [m], and [clean] before an error is passed on: what Rust drops on the way
    out of a [?]. *)
Definition or_drop {S E A} (m : prog S E A) (clean : prog S E unit) : prog S E A :=
  r ← catch m;
  match r with
  | inr a => mret a
  | inl e => _ ← clean; fail e
  end.

(** [m], and [clean] whatever [m] returns. *)
Definition finally {S E A} (m : prog S E A) (clean : prog S E unit) : prog S E A :=
  r ← catch m;
  _ ← clean;
  match r with inr a => mret a | inl e => fail e end.

(** At most [p] rounds of a loop: a round gives the next value of the loop's
    variables or the result.  Evaluation stops at the first result. *)
Fixpoint rounds {S E X A} (p : positive) (body : X -> prog S E (X + A)) (x : X) : prog S E (X + A) :=
  let next (q : positive) (r : X + A) : prog S E (X + A) :=
    match r with inl x' => rounds q body x' | inr a => mret (inr a) end in
  match p with
  | xH => body x
  | xO q => r ← rounds q body x; next q r
  | xI q => r ← body x; r ← next q r; next q r
  end.

(** A loop without a bound of its own.  The loops written this way move a
    64-bit offset forward in every round; one that has not ended after 2^64
    rounds does not end, which is [Panic] here. *)
Definition loop {S E X A} (body : X -> prog S E (X + A)) (x : X) : prog S E A :=
  r ← rounds (2 ^ 64) body x;
  match r with inr a => mret a | inl _ => lift Panic end.

(** A program over one half of a pair of states. *)
Definition on_fst {S T E A} (m : prog S E A) : prog (S * T) E A := fun st =>
  let '(s', o) := m st.1 in ((s', st.2), o).
Definition on_snd {S T E A} (m : prog T E A) : prog (S * T) E A := fun st =>
  let '(t', o) := m st.2 in ((st.1, t'), o).

Section prog_facts.
Context {S E A B : Type}.
Implicit Types (m : prog S E A) (k : A -> prog S E B) (s : S).

Lemma prog_bind_ok m k s s' a :
  m s = (s', Ok a) -> (m ≫= k) s = k a s'.
Proof. unfold mbind, prog_mbind, prog_bind. by intros ->. Qed.

Lemma prog_bind_err m k s s' e :
  m s = (s', Err e) -> (m ≫= k) s = (s', Err e).
Proof. unfold mbind, prog_mbind, prog_bind. by intros ->. Qed.

Lemma prog_bind_panic m k s s' :
  m s = (s', Panic) -> (m ≫= k) s = (s', Panic).
Proof. unfold mbind, prog_mbind, prog_bind. by intros ->. Qed.

(** A bind returns [Ok] exactly when both halves do. *)
Lemma prog_bind_inv_ok m k s s2 b :
  (m ≫= k) s = (s2, Ok b) ->
  exists s1 a, m s = (s1, Ok a) /\ k a s1 = (s2, Ok b).
Proof.
  unfold mbind, prog_mbind, prog_bind.
  destruct (m s) as [s1 [a|e|]] eqn:Hm; naive_solver.
Qed.
End prog_facts.

(** ** Machine integers

    A [w]-bit unsigned integer is an element of [0 .. 2^w - 1] in [Z]; Rust's
    [as] casts and release-mode arithmetic are [wrap] and [signed]. *)

Definition wrap (w z : Z) : Z := z mod 2 ^ w.

Definition signed (w z : Z) : Z :=
  let u := wrap w z in if u <? 2 ^ (w - 1) then u else u - 2 ^ w.

Definition in_u (w z : Z) : Prop := 0 <= z < 2 ^ w.

Definition U64_MAX : Z := 2 ^ 64 - 1.
Definition U32_MAX : Z := 2 ^ 32 - 1.
Definition U8_MAX : Z := 255.

Definition checked_add (a b : Z) : option Z :=
  if a + b <=? U64_MAX then Some (a + b) else None.
Definition checked_sub (a b : Z) : option Z :=
  if b <=? a then Some (a - b) else None.
Definition checked_mul (a b : Z) : option Z :=
  if a * b <=? U64_MAX then Some (a * b) else None.
Definition saturating_sub (a b : Z) : Z := Z.max 0 (a - b).

(** [x & m == m], [contains] of a set of flags. *)
Definition has_all (x m : Z) : bool := Z.land x m =? m.

(** [x & m != 0] *)
Definition has_flag (x m : Z) : bool := negb (Z.land x m =? 0).

Lemma wrap_range w z : 0 <= w -> in_u w (wrap w z).
Proof. intros Hw. apply Z.mod_pos_bound. lia. Qed.

Lemma wrap_small w z : in_u w z -> wrap w z = z.
Proof. apply Z.mod_small. Qed.

Lemma signed_wrap w z : 0 < w -> - 2 ^ (w - 1) <= z < 2 ^ (w - 1) -> signed w (wrap w z) = z.
Proof.
  intros Hw Hz. unfold signed, wrap.
  assert (2 ^ w = 2 * 2 ^ (w - 1)) as Hpow.
  { rewrite <- Z.pow_succ_r by lia. f_equal. lia. }
  rewrite Z.mod_mod by lia.
  destruct (Z_lt_le_dec z 0) as [Hneg|Hpos].
  - replace (z mod 2 ^ w) with (z + 2 ^ w).
    + destruct (Z.ltb_spec (z + 2 ^ w) (2 ^ (w - 1))); lia.
    + rewrite <- (Z.mod_small (z + 2 ^ w) (2 ^ w)) by lia.
      rewrite Z.add_mod, Z.mod_same, Z.add_0_r, Z.mod_mod by lia. done.
  - rewrite Z.mod_small by lia. destruct (Z.ltb_spec z (2 ^ (w - 1))); lia.
Qed.

Lemma signed_range w z : 0 < w -> - 2 ^ (w - 1) <= signed w z < 2 ^ (w - 1).
Proof.
  intros Hw. unfold signed.
  pose proof (wrap_range w z ltac:(lia)) as [H1 H2].
  assert (2 ^ w = 2 * 2 ^ (w - 1)) as Hpow.
  { rewrite <- Z.pow_succ_r by lia. f_equal. lia. }
  destruct (Z.ltb_spec (wrap w z) (2 ^ (w - 1))); lia.
Qed.

Lemma signed_le w z : 0 < w -> 0 <= z -> signed w z <= z.
Proof.
  intros Hw Hz. unfold signed, wrap. pose proof (Z.mod_le z (2 ^ w) Hz ltac:(lia)) as Hm.
  destruct (Z.ltb_spec (z mod 2 ^ w) (2 ^ (w - 1))); lia.
Qed.

Lemma wrap_signed w z : 0 < w -> in_u w z -> wrap w (signed w z) = z.
Proof.
  intros Hw Hz. unfold signed. rewrite (wrap_small w z) by done. cbn zeta.
  destruct (Z.ltb_spec z (2 ^ (w - 1))); [by apply wrap_small|].
  unfold wrap. replace (z - 2 ^ w) with (z + (-1) * 2 ^ w) by lia.
  rewrite Z.mod_add by lia. by apply Z.mod_small.
Qed.

(** Packing two bit fields: [(hi << k) | lo]. *)
Lemma bits_above lo k n : 0 <= lo < 2 ^ k -> 0 <= k <= n -> Z.testbit lo n = false.
Proof.
  intros Hlo Hk. rewrite <- (Z.mod_small lo (2 ^ k)) by done.
  apply Z.mod_pow2_bits_high. lia.
Qed.

Lemma land_shiftl_low hi lo k :
  0 <= k -> 0 <= lo < 2 ^ k -> Z.land (Z.shiftl hi k) lo = 0.
Proof.
  intros Hk Hlo. apply Z.bits_inj'. intros n Hn. rewrite Z.land_spec, Z.bits_0.
  destruct (Z_lt_le_dec n k) as [Hlt|Hle].
  - by rewrite Z.shiftl_spec_low.
  - rewrite (bits_above lo k n) by lia. apply andb_false_r.
Qed.

Lemma lor_shiftl_add hi lo k :
  0 <= k -> 0 <= lo < 2 ^ k -> Z.lor (Z.shiftl hi k) lo = hi * 2 ^ k + lo.
Proof.
  intros Hk Hlo. pose proof (land_shiftl_low hi lo k Hk Hlo) as Hdis.
  rewrite <- Z.lxor_lor, <- Z.add_nocarry_lxor, Z.shiftl_mul_pow2 by done. done.
Qed.

(** Masking does not increase a number. *)
Lemma land_le a b : 0 <= b -> Z.land a b <= b.
Proof.
  intros Hb. enough (0 <= b - Z.land a b) by lia.
  rewrite Z.sub_nocarry_ldiff.
  - apply Z.ldiff_nonneg. by left.
  - apply Z.bits_inj'. intros n Hn. rewrite Z.ldiff_spec, Z.land_spec, Z.bits_0.
    by destruct (Z.testbit a n), (Z.testbit b n).
Qed.

(** ** Bytes and lists *)

(** A byte is an integer below 256; a Rust [&[u8]] is a list of them. *)
Abbreviation bytes := (list Z).

Definition byte_ok (b : Z) : bool := (0 <=? b) && (b <? 256).
Definition bytes_ok (l : bytes) : bool := forallb byte_ok l.

Definition zlen {A} (l : list A) : Z := Z.of_nat (length l).

(** Byte-string literals: [bs "abc"] is [b"abc"]. *)
Fixpoint bs (s : string) : bytes :=
  match s with
  | EmptyString => []
  | String c s' => Z.of_N (Ascii.N_of_ascii c) :: bs s'
  end.

Fixpoint beq (l k : bytes) : bool :=
  match l, k with
  | [], [] => true
  | x :: l', y :: k' => (x =? y) && beq l' k'
  | _, _ => false
  end.

(** [Iterator::position], [slice::contains], [slice::starts_with]. *)
Fixpoint position {A} (f : A -> bool) (l : list A) : option nat :=
  match l with
  | [] => None
  | x :: l' => if f x then Some 0%nat else S <$> position f l'
  end.

Definition contains (b : Z) (l : bytes) : bool := existsb (Z.eqb b) l.

Fixpoint starts_with (p l : bytes) : bool :=
  match p, l with
  | [], _ => true
  | x :: p', y :: l' => (x =? y) && starts_with p' l'
  | _ :: _, [] => false
  end.

Section list_facts.
Lemma zlen_nonneg {A} (l : list A) : 0 <= zlen l.
Proof. unfold zlen. lia. Qed.

Lemma zlen_cons {A} (x : A) l : zlen (x :: l) = 1 + zlen l.
Proof. unfold zlen. cbn [length]. lia. Qed.

Lemma zlen_app {A} (l k : list A) : zlen (l ++ k) = zlen l + zlen k.
Proof. unfold zlen. rewrite length_app. lia. Qed.

Lemma zlen_nil_inv {A} (l : list A) : zlen l = 0 -> l = [].
Proof. destruct l; [done|]. unfold zlen. cbn. lia. Qed.

(** [take] and [drop] at an integer position. *)
Lemma take_Z_app {A} (l k : list A) n :
  zlen l <= n -> take (Z.to_nat n) (l ++ k) = l ++ take (Z.to_nat (n - zlen l)) k.
Proof.
  unfold zlen. intros H. rewrite take_app_ge by lia. do 2 f_equal. lia.
Qed.

Lemma drop_Z_app {A} (l k : list A) n :
  zlen l <= n -> drop (Z.to_nat n) (l ++ k) = drop (Z.to_nat (n - zlen l)) k.
Proof.
  unfold zlen. intros H. rewrite drop_app_ge by lia. f_equal. lia.
Qed.

Lemma take_Z_len {A} (l k : list A) n : zlen l = n -> take (Z.to_nat n) (l ++ k) = l.
Proof. unfold zlen. intros H. by rewrite take_app_length' by lia. Qed.

Lemma drop_Z_len {A} (l k : list A) n : zlen l = n -> drop (Z.to_nat n) (l ++ k) = k.
Proof. unfold zlen. intros H. by rewrite drop_app_length' by lia. Qed.

Lemma bytes_ok_app (l k : bytes) : bytes_ok (l ++ k) = bytes_ok l && bytes_ok k.
Proof. apply forallb_app. Qed.

Lemma beq_spec (l k : bytes) : beq l k = true <-> l = k.
Proof.
  revert k. induction l as [|x l IH]; intros [|y k]; cbn; try (split; done).
  rewrite andb_true_iff, Z.eqb_eq, IH. split; [intros [-> ->]; done|].
  intros [= -> ->]. done.
Qed.

Lemma beq_refl (l : bytes) : beq l l = true.
Proof. by apply beq_spec. Qed.

Lemma beq_false (l k : bytes) : beq l k = false <-> l <> k.
Proof. rewrite <- beq_spec. destruct (beq l k); naive_solver. Qed.

Lemma starts_with_app (p l : bytes) : starts_with p (p ++ l) = true.
Proof. induction p; cbn; [done|]. by rewrite Z.eqb_refl. Qed.

Lemma starts_with_spec (p l : bytes) : starts_with p l = true <-> exists t, l = p ++ t.
Proof.
  split; [|intros [t ->]; apply starts_with_app].
  revert l. induction p as [|x p IH]; intros [|y l] H; cbn in H; try done.
  - by exists [].
  - by exists (y :: l).
  - apply andb_true_iff in H as [Hx%Z.eqb_eq Hp]. subst.
    destruct (IH _ Hp) as [t ->]. by exists t.
Qed.

(** [position] finds the first match: it satisfies the test, nothing before
    it does, and it fails only when nothing does. *)
Lemma position_some {A} (f : A -> bool) (l : list A) n :
  position f l = Some n ->
  exists l1 x l2, l = l1 ++ x :: l2 /\ length l1 = n /\ f x = true /\ forallb (fun y => negb (f y)) l1 = true.
Proof.
  revert n. induction l as [|x l IH]; intros n H; cbn in H; [done|].
  destruct (f x) eqn:Hx; simplify_eq.
  - by exists [], x, l.
  - destruct (position f l) as [m|] eqn:Hp; simplify_eq/=.
    destruct (IH _ eq_refl) as (l1 & y & l2 & -> & <- & Hy & Hall).
    exists (x :: l1), y, l2. cbn. by rewrite Hx, Hall.
Qed.

Lemma position_none {A} (f : A -> bool) (l : list A) :
  position f l = None <-> forallb (fun y => negb (f y)) l = true.
Proof.
  induction l as [|x l IH]; cbn; [done|].
  destruct (f x); cbn; [done|]. rewrite <- IH. destruct (position f l); done.
Qed.

Lemma position_app_first {A} (f : A -> bool) (l1 l2 : list A) x :
  forallb (fun y => negb (f y)) l1 = true -> f x = true ->
  position f (l1 ++ x :: l2) = Some (length l1).
Proof.
  intros Hall Hx. induction l1 as [|y l1 IH]; cbn in *; [by rewrite Hx|].
  apply andb_true_iff in Hall as [Hy%negb_true_iff Hl]. by rewrite Hy, IH.
Qed.
End list_facts.

(** ** Automation *)

(** Case analysis on every [match] of the goal and of the hypotheses. *)
Ltac destruct_goal := repeat (case_match; simplify_eq/=).

(** Boolean comparisons to propositions. *)
Ltac zify_bool :=
  repeat match goal with
    | H : (_ <? _) = true |- _ => apply Z.ltb_lt in H
    | H : (_ <? _) = false |- _ => apply Z.ltb_ge in H
    | H : (_ <=? _) = true |- _ => apply Z.leb_le in H
    | H : (_ <=? _) = false |- _ => apply Z.leb_gt in H
    | H : (_ =? _) = true |- _ => apply Z.eqb_eq in H
    | H : (_ =? _) = false |- _ => apply Z.eqb_neq in H
    | H : (_ && _) = true |- _ => apply andb_true_iff in H as [? ?]
    | H : (_ || _) = false |- _ => apply orb_false_iff in H as [? ?]
    | H : negb _ = true |- _ => apply negb_true_iff in H
    | H : negb _ = false |- _ => apply negb_false_iff in H
    end.

Create HintDb fuse.
Create Rewrite HintDb fuse.
#[export] Hint Resolve zlen_nonneg wrap_small beq_refl : fuse.
#[export] Hint Rewrite @zlen_app bytes_ok_app beq_refl : fuse.
