(* ===== verification/Std.v ===== *)
(** * The parts of libc and of the Rust standard library the sources use

    Errno values, [io::Error] and [io::ErrorKind], [CStr], UTF-8 validation,
    [Path::components] and slice splitting, on Linux. *)

From S2P Require Import Prelude.

(** ** Errno values (Linux, x86-64 and aarch64) *)

Definition EPERM : Z := 1.
Definition ENOENT : Z := 2.
Definition EINTR : Z := 4.
Definition EIO : Z := 5.
Definition EBADF : Z := 9.
Definition EAGAIN : Z := 11.
Definition EWOULDBLOCK : Z := EAGAIN.
Definition ENOMEM : Z := 12.
Definition EACCES : Z := 13.
Definition EEXIST : Z := 17.
Definition EXDEV : Z := 18.
Definition ENOTDIR : Z := 20.
Definition EINVAL : Z := 22.
Definition ENOTTY : Z := 25.
Definition EROFS : Z := 30.
Definition ENAMETOOLONG : Z := 36.
Definition ENOSYS : Z := 38.
Definition ENOTEMPTY : Z := 39.
Definition ENODATA : Z := 61.
Definition EPROTO : Z := 71.
Definition EOVERFLOW : Z := 75.
Definition ENOTSUP : Z := 95.

(** The file type bits of [st_mode]. *)
Definition S_IFMT : Z := 0xf000.
Definition S_IFDIR : Z := 0x4000.
Definition S_IFREG : Z := 0x8000.
Definition S_IFIFO : Z := 0x1000.
Definition S_IFCHR : Z := 0x2000.
Definition S_IFBLK : Z := 0x6000.
Definition S_IFLNK : Z := 0xa000.
Definition S_IFSOCK : Z := 0xc000.

(** The entry types of a directory record. *)
Definition DT_UNKNOWN : Z := 0.
Definition DT_FIFO : Z := 1.
Definition DT_CHR : Z := 2.
Definition DT_DIR : Z := 4.
Definition DT_BLK : Z := 6.
Definition DT_REG : Z := 8.
Definition DT_LNK : Z := 10.
Definition DT_SOCK : Z := 12.

(** ** [std::io::Error]

    An error carries an OS code ([from_raw_os_error]) or a kind
    ([Error::new]); the message of the latter is not modelled. *)

Inductive ErrorKind : Set :=
| NotFound | PermissionDenied | AlreadyExists | WouldBlock | Interrupted
| InvalidInput | InvalidData | TimedOut | WriteZero | UnexpectedEof
| Unsupported | OutOfMemory | Other | Uncategorized.

#[global] Instance ErrorKind_eq_dec : EqDecision ErrorKind.
Proof. solve_decision. Defined.

Inductive io_error : Set :=
| Os (code : Z)
| Simple (kind : ErrorKind).

#[global] Instance io_error_eq_dec : EqDecision io_error.
Proof. solve_decision. Defined.

Abbreviation io_result A := (outcome io_error A).

(** [io::Error::raw_os_error] and [io::Error::kind] (the latter on the codes
    whose kind some caller inspects). *)
Definition raw_os_error (e : io_error) : option Z :=
  match e with Os c => Some c | Simple _ => None end.

Definition error_kind (e : io_error) : ErrorKind :=
  match e with
  | Simple k => k
  | Os c => if c =? EINTR then Interrupted
            else if c =? ENOENT then NotFound
            else if (c =? EPERM) || (c =? EACCES) then PermissionDenied
            else if c =? EEXIST then AlreadyExists
            else if c =? EAGAIN then WouldBlock
            else if c =? EINVAL then InvalidInput
            else if c =? ENOMEM then OutOfMemory
            else if c =? ENOSYS then Unsupported
            else Uncategorized
  end.

(** ** [CStr]

    A [&CStr] is its bytes without the terminating nul ([to_bytes]). *)

Abbreviation CStr := (list Z).

Definition to_bytes_with_nul (s : CStr) : bytes := s ++ [0].

Inductive FromBytesWithNulError : Set :=
| InteriorNul (pos : nat)
| NotNulTerminated.

(** [CStr::from_bytes_with_nul]: the first nul must be the last byte. *)
Definition from_bytes_with_nul (b : bytes) : outcome FromBytesWithNulError CStr :=
  match position (Z.eqb 0) b with
  | Some pos => if (S pos =? length b)%nat then Ok (take pos b) else Err (InteriorNul pos)
  | None => Err NotNulTerminated
  end.

(** The bytes of a [CStr] hold no nul. *)
Definition cstr_ok (s : CStr) : bool := forallb (fun c => negb (0 =? c)) s.

Lemma from_bytes_with_nul_ok s :
  cstr_ok s = true -> from_bytes_with_nul (to_bytes_with_nul s) = Ok s.
Proof.
  intros Hs. unfold from_bytes_with_nul, to_bytes_with_nul.
  rewrite (position_app_first _ s [] 0) by done.
  rewrite length_app. cbn. rewrite Nat.add_1_r, Nat.eqb_refl.
  by rewrite take_app_length.
Qed.

(** ** UTF-8 validation ([str::from_utf8]) *)

Definition in_range (lo hi b : Z) : bool := (lo <=? b) && (b <=? hi).

(** Second byte allowed after a three- or four-byte leading byte. *)
Definition utf8_second3 (b0 b1 : Z) : bool :=
  if b0 =? 224 then in_range 160 191 b1
  else if b0 =? 237 then in_range 128 159 b1
  else in_range 128 191 b1.

Definition utf8_second4 (b0 b1 : Z) : bool :=
  if b0 =? 240 then in_range 144 191 b1
  else if b0 =? 244 then in_range 128 143 b1
  else in_range 128 191 b1.

Fixpoint utf8_valid (fuel : nat) (l : bytes) : bool :=
  match fuel with
  | O => match l with [] => true | _ => false end
  | S f =>
    match l with
    | [] => true
    | b0 :: l0 =>
      if b0 <? 128 then utf8_valid f l0
      else if in_range 194 223 b0 then
        match l0 with
        | b1 :: l1 => in_range 128 191 b1 && utf8_valid f l1
        | [] => false
        end
      else if in_range 224 239 b0 then
        match l0 with
        | b1 :: b2 :: l2 =>
            utf8_second3 b0 b1 && in_range 128 191 b2 && utf8_valid f l2
        | _ => false
        end
      else if in_range 240 244 b0 then
        match l0 with
        | b1 :: b2 :: b3 :: l3 =>
            utf8_second4 b0 b1 && in_range 128 191 b2 && in_range 128 191 b3
            && utf8_valid f l3
        | _ => false
        end
      else false
    end
  end.

(** [CStr::to_str]: every step of the scan eats at least one byte, so the
    length is enough fuel. *)
Definition to_str (s : CStr) : outcome unit bytes :=
  if utf8_valid (length s) s then Ok s else Err tt.

(** [String::from_utf8_lossy], [CStr::to_string_lossy]: characters are kept,
    and the longest start of a character that does not go on as one becomes the
    replacement character U+FFFD. *)
Definition REPLACEMENT : bytes := [239; 191; 189].

Fixpoint lossy (fuel : nat) (l : bytes) : bytes :=
  match fuel with
  | O => []
  | S f =>
    match l with
    | [] => []
    | b0 :: l0 =>
      if b0 <? 128 then b0 :: lossy f l0
      else if in_range 194 223 b0 then
        match l0 with
        | b1 :: l1 => if in_range 128 191 b1 then b0 :: b1 :: lossy f l1 else REPLACEMENT ++ lossy f l0
        | [] => REPLACEMENT
        end
      else if in_range 224 239 b0 then
        match l0 with
        | b1 :: l1 =>
          if utf8_second3 b0 b1 then
            match l1 with
            | b2 :: l2 =>
              if in_range 128 191 b2 then b0 :: b1 :: b2 :: lossy f l2 else REPLACEMENT ++ lossy f l1
            | [] => REPLACEMENT
            end
          else REPLACEMENT ++ lossy f l0
        | [] => REPLACEMENT
        end
      else if in_range 240 244 b0 then
        match l0 with
        | b1 :: l1 =>
          if utf8_second4 b0 b1 then
            match l1 with
            | b2 :: l2 =>
              if in_range 128 191 b2 then
                match l2 with
                | b3 :: l3 =>
                  if in_range 128 191 b3 then b0 :: b1 :: b2 :: b3 :: lossy f l3
                  else REPLACEMENT ++ lossy f l2
                | [] => REPLACEMENT
                end
              else REPLACEMENT ++ lossy f l1
            | [] => REPLACEMENT
            end
          else REPLACEMENT ++ lossy f l0
        | [] => REPLACEMENT
        end
      else REPLACEMENT ++ lossy f l0
    end
  end.

Definition from_utf8_lossy (s : bytes) : bytes := lossy (length s) s.

(** [CString::new]: no nul inside. *)
Definition CString_new (s : bytes) : option CStr := if cstr_ok s then Some s else None.

(** ** Splitting and paths *)

(** [slice::split]: [n] separators give [n + 1] pieces. *)
Fixpoint split_on (sep : Z) (l : bytes) : list bytes :=
  match l with
  | [] => [[]]
  | x :: l' =>
    if x =? sep then [] :: split_on sep l'
    else match split_on sep l' with
         | p :: ps => (x :: p) :: ps
         | [] => [[x]]
         end
  end.

Definition SLASH : Z := 47.

Inductive Component : Set :=
| RootDir
| CurDir
| ParentDir
| Normal (name : bytes).

(** A path component between slashes: empty ones and inner ["."] vanish. *)
Definition parse_component (c : bytes) : option Component :=
  if beq c [] then None
  else if beq c (bs ".") then None
  else if beq c (bs "..") then Some ParentDir
  else Some (Normal c).

(** [Path::has_root]. *)
Definition has_root (path : bytes) : bool := starts_with [SLASH] path.

(** [Path::components] on Unix, where no path has a prefix component. *)
Definition components (path : bytes) : list Component :=
  (if has_root path then [RootDir]
   else if beq path (bs ".") || starts_with (bs "./") path then [CurDir]
   else [])
  ++ omap parse_component (split_on SLASH path).

Lemma split_on_app (sep : Z) (l k : bytes) :
  forallb (fun c => negb (c =? sep)) l = true ->
  split_on sep (l ++ sep :: k) = l :: split_on sep k.
Proof.
  induction l as [|x l IH]; cbn; intros H; [by rewrite Z.eqb_refl|].
  apply andb_true_iff in H as [Hx%negb_true_iff Hl]. by rewrite Hx, IH.
Qed.

Lemma split_on_none (sep : Z) (l : bytes) :
  forallb (fun c => negb (c =? sep)) l = true -> split_on sep l = [l].
Proof.
  induction l as [|x l IH]; cbn; intros H; [done|].
  apply andb_true_iff in H as [Hx%negb_true_iff Hl]. by rewrite Hx, IH.
Qed.

Lemma split_on_pieces (sep : Z) (l p : bytes) :
  In p (split_on sep l) -> forallb (fun c => negb (c =? sep)) p = true.
Proof.
  revert p. induction l as [|x l IH]; intros p Hp; cbn in Hp.
  - destruct Hp as [<-|[]]; done.
  - destruct (x =? sep) eqn:Hx.
    + destruct Hp as [<-|Hp]; [done|auto].
    + destruct (split_on sep l) as [|q qs] eqn:Hs.
      * destruct Hp as [<-|[]]. cbn. by rewrite Hx.
      * destruct Hp as [<-|Hp].
        -- cbn. rewrite Hx. cbn. apply IH. by left.
        -- apply IH. by right.
Qed.

(** A nonempty name with no slash, other than ["."] and [".."], is a normal
    component. *)
Definition plain_name (n : bytes) : bool :=
  forallb (fun c => negb (c =? SLASH)) n
  && negb (beq n []) && negb (beq n (bs ".")) && negb (beq n (bs "..")).

(** ["/n1/n2/.../nk"] *)
Definition join_path (names : list bytes) : bytes :=
  match names with
  | [] => [SLASH]
  | _ => concat (map (fun n => SLASH :: n) names)
  end.

Lemma parse_plain n : plain_name n = true -> parse_component n = Some (Normal n).
Proof.
  unfold plain_name, parse_component. intros H. zify_bool.
  by repeat match goal with H : beq _ _ = false |- _ => rewrite H; clear H end.
Qed.

Lemma split_join_tail names :
  forallb plain_name names = true ->
  omap parse_component (split_on SLASH (concat (map (fun n => SLASH :: n) names)))
  = map Normal names.
Proof.
  destruct names as [|n names]; [done|]. revert n.
  induction names as [|m names IH]; intros n H; cbn [forallb] in H;
    apply andb_true_iff in H as [Hn H]; pose proof (parse_plain n Hn) as Hp;
    unfold plain_name in Hn.
  - zify_bool. cbn. rewrite app_nil_r, split_on_none by done. cbn. by rewrite Hp.
  - specialize (IH m H). zify_bool.
    change (concat (map (fun n0 => SLASH :: n0) (n :: m :: names)))
      with (SLASH :: (n ++ (SLASH :: m ++ concat (map (fun n0 => SLASH :: n0) names)))).
    cbn [split_on]. rewrite Z.eqb_refl, split_on_app by done.
    cbn in IH |- *. by rewrite Hp, IH.
Qed.

(** Printing a list of plain names as an absolute path and reading its
    components back gives the names. *)
Lemma components_join names :
  forallb plain_name names = true ->
  components (join_path names) = RootDir :: map Normal names.
Proof.
  intros H. unfold components.
  assert (has_root (join_path names) = true) as ->.
  { destruct names as [|n names]; [done|]. cbn. done. }
  cbn [app]. f_equal. destruct names as [|n names]; [done|].
  by apply (split_join_tail (n :: names)).
Qed.

(** ** UTF-8 and path components *)

(** One encoded character. *)
Definition utf8_char (c : bytes) : bool :=
  match c with
  | [b0] => b0 <? 128
  | [b0; b1] => in_range 194 223 b0 && in_range 128 191 b1
  | [b0; b1; b2] => in_range 224 239 b0 && (utf8_second3 b0 b1 && in_range 128 191 b2)
  | [b0; b1; b2; b3] =>
      in_range 240 244 b0 && (utf8_second4 b0 b1 && in_range 128 191 b2 && in_range 128 191 b3)
  | _ => false
  end.

(** A valid string is a sequence of characters. *)
Lemma utf8_valid_chars fuel l :
  utf8_valid fuel l = true -> exists cs, l = concat cs /\ Forall (fun c => utf8_char c = true) cs.
Proof.
  revert l. induction fuel as [|fuel IH]; intros l H.
  { exists []. by destruct l. }
  assert (forall c l', utf8_char c = true -> utf8_valid fuel l' = true ->
    exists cs, c ++ l' = concat cs /\ Forall (fun c => utf8_char c = true) cs) as Hcons.
  { intros c l' Hc Hl. destruct (IH l' Hl) as (cs & -> & Hcs). exists (c :: cs). auto. }
  destruct l as [|b0 l]; cbn in H; [by exists []|].
  destruct (b0 <? 128) eqn:H0; [by apply (Hcons [b0])|].
  destruct (in_range 194 223 b0) eqn:H1.
  { destruct l as [|b1 l]; [done|]. zify_bool. apply (Hcons [b0; b1]); [|done]. cbn. by rewrite H1, H. }
  destruct (in_range 224 239 b0) eqn:H2.
  { destruct l as [|b1 [|b2 l]]; [done..|]. zify_bool. apply (Hcons [b0; b1; b2]); [|done]. cbn.
    by rewrite H2, H, H4. }
  destruct (in_range 240 244 b0) eqn:H3; [|done].
  destruct l as [|b1 [|b2 [|b3 l]]]; [done..|]. zify_bool. apply (Hcons [b0; b1; b2; b3]); [|done]. cbn.
  by rewrite H3, H, H6, H5.
Qed.

Lemma utf8_chars_valid cs fuel :
  Forall (fun c => utf8_char c = true) cs -> (length (concat cs) <= fuel)%nat ->
  utf8_valid fuel (concat cs) = true.
Proof.
  intros Hcs. revert fuel. induction Hcs as [|c cs Hc Hcs IH]; intros fuel Hf; [by destruct fuel|].
  cbn in Hf. rewrite length_app in Hf. cbn [concat].
  destruct c as [|b0 [|b1 [|b2 [|b3 [|b4 c]]]]]; cbn in Hc; try done;
    (destruct fuel as [|fuel]; cbn in Hf; [lia|]); cbn -[concat]; unfold in_range in *; zify_bool;
    (destruct (Z.ltb_spec b0 128); [first [lia|apply IH; lia]|]); try lia;
    repeat (match goal with |- context [(?a <=? b0) && (b0 <=? ?b)] =>
      destruct (Z.leb_spec a b0), (Z.leb_spec b0 b); cbn [andb]; try lia end);
    rewrite ?IH by lia; rewrite ?andb_true_r, ?andb_true_iff, ?Z.leb_le; split_and?; try done; lia.
Qed.

Lemma to_str_chars s : to_str s = Ok s <-> exists cs, s = concat cs /\ Forall (fun c => utf8_char c = true) cs.
Proof.
  unfold to_str. split.
  - destruct (utf8_valid _ _) eqn:H; [|done]. intros _. by eapply utf8_valid_chars.
  - intros (cs & -> & Hcs). by rewrite utf8_chars_valid.
Qed.

(** A character with a slash in it is the slash. *)
Lemma utf8_char_slash c : utf8_char c = true -> c = [SLASH] \/ forallb (fun b => negb (b =? SLASH)) c = true.
Proof.
  unfold SLASH. destruct c as [|b0 [|b1 [|b2 [|b3 [|b4 c]]]]]; cbn; try done; intros H.
  - destruct (Z.eqb_spec b0 47) as [->|]; auto.
  - right. unfold in_range in *. zify_bool. rewrite !(proj2 (Z.eqb_neq _ _)) by lia. done.
  - right. unfold utf8_second3, in_range in *. zify_bool.
    assert (128 <= b1) by (repeat case_match; zify_bool; lia).
    rewrite !(proj2 (Z.eqb_neq _ _)) by lia. done.
  - right. unfold utf8_second4, in_range in *. zify_bool.
    assert (128 <= b1) by (repeat case_match; zify_bool; lia).
    rewrite !(proj2 (Z.eqb_neq _ _)) by lia. done.
Qed.

Lemma split_on_prefix sep c l :
  forallb (fun b => negb (b =? sep)) c = true ->
  exists p ps, split_on sep l = p :: ps /\ split_on sep (c ++ l) = (c ++ p) :: ps.
Proof.
  assert (exists p ps, split_on sep l = p :: ps) as (p & ps & Hp).
  { destruct l as [|x l]; cbn; [eauto|]. destruct (x =? sep); [eauto|]. destruct (split_on sep l); eauto. }
  intros Hc. exists p, ps. split; [done|]. induction c as [|x c IH]; [done|]. cbn in *.
  apply andb_true_iff in Hc as [Hx%negb_true_iff Hc]. by rewrite Hx, IH.
Qed.

(** The pieces of a UTF-8 path are UTF-8. *)
Lemma split_on_utf8 s : to_str s = Ok s -> Forall (fun p => to_str p = Ok p) (split_on SLASH s).
Proof.
  intros (cs & -> & Hcs)%to_str_chars. induction Hcs as [|c cs Hc Hcs IH]; [by repeat constructor|].
  cbn [concat]. destruct (utf8_char_slash c Hc) as [->|Hns].
  { cbn. constructor; [done|]. apply IH. }
  destruct (split_on_prefix SLASH c (concat cs) Hns) as (p & ps & Hp & ->). rewrite Hp in IH.
  apply Forall_cons in IH as [Hp' Hps]. constructor; [|done].
  apply to_str_chars in Hp' as (ds & -> & Hds). apply to_str_chars. exists (c :: ds). auto.
Qed.
