(* ===== verification/Lib.v ===== *)
(** * Errors and helpers of the crate root ([src/lib.rs])

    The crate's [Error], the transport layer's [Error] it embeds,
    [encode_io_error_kind] and [bytes_to_cstr]. *)

From S2P Require Import Prelude Std.

(** [transport::Error] (with the features [fusedev] and [virtiofs]). *)
Inductive TransportError : Set :=
| DescriptorChainOverflow
| FindMemoryRegion
| InvalidChain
| InvalidParameter
| IoError (e : io_error)
| SplitOutOfBounds (off : Z)
| VolatileMemoryError
| SessionFailure (msg : bytes)
| GuestMemoryError
| ConvertIndirectDescriptor.

(** [Error] of the crate. *)
Inductive Error : Set :=
| DecodeMessage (e : io_error)
| EncodeMessage (e : io_error)
| MissingParameter
| InvalidCString (e : FromBytesWithNulError)
| InvalidHeaderLength
| InvalidXattrSize (size : Z) (len : Z)
| InvalidMessage (e : io_error)
| FailedToWrite (e : io_error)
| FailedToSplitWriter (e : TransportError)
| FailedToRemapID (uid gid : Z).

Abbreviation Result A := (outcome Error A).

Definition encode_io_error_kind (kind : ErrorKind) : Z :=
  match kind with
  | PermissionDenied => Z.lor EPERM EACCES
  | NotFound => ENOENT
  | Interrupted => EINTR
  | AlreadyExists => EEXIST
  | WouldBlock => EWOULDBLOCK
  | _ => EIO
  end.

(** The code the server puts in a reply header (before negation):
    [e.raw_os_error().unwrap_or_else(|| encode_io_error_kind(e.kind()))]. *)
Definition errno_of (e : io_error) : Z :=
  match raw_os_error e with
  | Some c => c
  | None => encode_io_error_kind (error_kind e)
  end.

Definition bytes_to_cstr (buf : bytes) : Result CStr :=
  match position (Z.eqb 0) buf with
  | Some pos => map_err InvalidCString (from_bytes_with_nul (take (S pos) buf))
  | None => map_err InvalidCString (from_bytes_with_nul buf)
  end.

(** A string followed by a nul and anything else decodes to the string. *)
Lemma bytes_to_cstr_app s rest :
  cstr_ok s = true -> bytes_to_cstr (s ++ 0 :: rest) = Ok s.
Proof.
  intros Hs. unfold bytes_to_cstr.
  rewrite (position_app_first _ s rest 0) by done.
  replace (take (S (length s)) (s ++ 0 :: rest)) with (to_bytes_with_nul s).
  - by rewrite from_bytes_with_nul_ok.
  - rewrite (cons_middle 0 s rest), app_assoc, take_app_length'; [done|].
    rewrite length_app. cbn. lia.
Qed.

(** Without a nul there is no string. *)
Lemma bytes_to_cstr_no_nul buf :
  cstr_ok buf = true -> bytes_to_cstr buf = Err (InvalidCString NotNulTerminated).
Proof.
  intros Hb. apply position_none in Hb as Hp.
  unfold bytes_to_cstr, from_bytes_with_nul. by rewrite !Hp.
Qed.

(** Every buffer is one or the other. *)
Lemma first_nul buf :
  cstr_ok buf = true \/ exists s rest, buf = s ++ 0 :: rest /\ cstr_ok s = true.
Proof.
  destruct (position (Z.eqb 0) buf) as [n|] eqn:Hp.
  - right. apply position_some in Hp as (s & x & rest & -> & _ & Hx%Z.eqb_eq & Hs).
    subst x. by exists s, rest.
  - left. by apply position_none.
Qed.

Lemma bytes_to_cstr_inv buf s :
  bytes_to_cstr buf = Ok s -> cstr_ok s = true /\ exists rest, buf = s ++ 0 :: rest.
Proof.
  intros H. destruct (first_nul buf) as [Hb|(s' & rest & -> & Hs)].
  - by rewrite bytes_to_cstr_no_nul in H.
  - rewrite bytes_to_cstr_app in H by done. simplify_eq. eauto.
Qed.

(** [bytes_to_cstr] never panics. *)
Lemma bytes_to_cstr_total buf : bytes_to_cstr buf <> Panic.
Proof.
  destruct (first_nul buf) as [Hb|(s' & rest & -> & Hs)].
  - by rewrite bytes_to_cstr_no_nul.
  - by rewrite bytes_to_cstr_app.
Qed.

(** A buffer decodes to the C string [s] exactly when it is [s], a nul byte
    and anything after it, with no nul inside [s]. *)
Theorem bytes_to_cstr_spec buf s :
  bytes_to_cstr buf = Ok s <-> cstr_ok s = true /\ exists rest, buf = s ++ 0 :: rest.
Proof.
  split; [apply bytes_to_cstr_inv|].
  intros [Hs [rest ->]]. by apply bytes_to_cstr_app.
Qed.
