(* ===== verification/Codec.v ===== *)
(** * Binary layout of the FUSE messages

    The ABI structures are [repr(C)] structures of fixed-width integers with
    explicit padding, read from and written to byte buffers as they are
    ([ByteValued] of vm-memory).  A structure is described by its field widths
    ([layout]); [as_slice] and [from_slice] are the little-endian image of its
    fields.  The class [ByteValuedOk] states that a record and its field list
    determine each other, from which the round trips of every structure
    follow. *)

From S2P Require Import Prelude.

(** ** Little-endian integers *)

Fixpoint le_bytes (n : nat) (z : Z) : bytes :=
  match n with
  | O => []
  | S n' => (z mod 256) :: le_bytes n' (z / 256)
  end.

Fixpoint le_int (l : bytes) : Z :=
  match l with
  | [] => 0
  | b :: l' => b + 256 * le_int l'
  end.

Lemma le_bytes_length n z : length (le_bytes n z) = n.
Proof. revert z. induction n; intros z; cbn; auto. Qed.

Lemma le_bytes_ok n z : bytes_ok (le_bytes n z) = true.
Proof.
  unfold bytes_ok. revert z. induction n as [|n IH]; intros z; cbn; [done|].
  rewrite (IH (z / 256)), andb_true_r. unfold byte_ok.
  pose proof (Z.mod_pos_bound z 256). apply andb_true_iff.
  rewrite Z.leb_le, Z.ltb_lt. lia.
Qed.

Lemma pow_bytes (n : nat) : 2 ^ (8 * Z.of_nat (S n)) = 256 * 2 ^ (8 * Z.of_nat n).
Proof.
  replace (8 * Z.of_nat (S n)) with (8 + 8 * Z.of_nat n) by lia.
  rewrite Z.pow_add_r by lia. done.
Qed.

Lemma le_int_bytes n z : le_int (le_bytes n z) = wrap (8 * Z.of_nat n) z.
Proof.
  revert z. induction n as [|n IH]; intros z.
  - cbn. unfold wrap. cbn. by rewrite Z.mod_1_r.
  - cbn [le_bytes le_int]. rewrite IH. unfold wrap. rewrite pow_bytes.
    rewrite Z.rem_mul_r by lia. done.
Qed.

Lemma le_int_range l : bytes_ok l = true -> in_u (8 * zlen l) (le_int l).
Proof.
  unfold in_u, zlen. induction l as [|b l IH]; intros Hl.
  - cbn. lia.
  - cbn in Hl. apply andb_true_iff in Hl as [Hb Hl]. unfold byte_ok in Hb. zify_bool.
    cbn [le_int length]. rewrite pow_bytes. specialize (IH Hl). lia.
Qed.

Lemma le_bytes_int l : bytes_ok l = true -> le_bytes (length l) (le_int l) = l.
Proof.
  induction l as [|b l IH]; intros Hl; [done|].
  cbn in Hl. apply andb_true_iff in Hl as [Hb Hl]. unfold byte_ok in Hb. zify_bool.
  cbn [le_int length le_bytes]. rewrite (Z.mul_comm 256), Z.mod_add by lia.
  rewrite Z.mod_small, Z.div_add, Z.div_small by lia.
  f_equal. by apply IH.
Qed.

(** ** Fields and layouts *)

Inductive fty : Set :=
| U (n : nat)   (** unsigned, [n] bytes *)
| I (n : nat).  (** signed, [n] bytes *)

Definition fsize (f : fty) : nat := match f with U n | I n => n end.

Definition enc_field (f : fty) (z : Z) : bytes := le_bytes (fsize f) z.

Definition dec_field (f : fty) (b : bytes) : Z :=
  match f with
  | U n => le_int b
  | I n => signed (8 * Z.of_nat n) (le_int b)
  end.

Definition field_ok (f : fty) (z : Z) : bool :=
  match f with
  | U n => (0 <=? z) && (z <? 2 ^ (8 * Z.of_nat n))
  | I n => (0 <? Z.of_nat n) && (- 2 ^ (8 * Z.of_nat n - 1) <=? z) && (z <? 2 ^ (8 * Z.of_nat n - 1))
  end.

Definition fty_ok (f : fty) : bool := match f with U _ => true | I n => (0 <? n)%nat end.

Definition layout_size (ly : list fty) : nat := list_sum (map fsize ly).

Fixpoint encode (ly : list fty) (fs : list Z) : bytes :=
  match ly, fs with
  | f :: ly', z :: fs' => enc_field f z ++ encode ly' fs'
  | _, _ => []
  end.

Fixpoint decode (ly : list fty) (b : bytes) : list Z :=
  match ly with
  | [] => []
  | f :: ly' => dec_field f (take (fsize f) b) :: decode ly' (drop (fsize f) b)
  end.

Fixpoint fields_ok (ly : list fty) (fs : list Z) : bool :=
  match ly, fs with
  | [], [] => true
  | f :: ly', z :: fs' => field_ok f z && fields_ok ly' fs'
  | _, _ => false
  end.

Lemma dec_enc_field f z : field_ok f z = true -> dec_field f (enc_field f z) = z.
Proof.
  unfold enc_field. destruct f as [n|n]; cbn; intros H; zify_bool; rewrite le_int_bytes.
  - by apply wrap_small.
  - apply signed_wrap; lia.
Qed.

Lemma enc_dec_field f b :
  fty_ok f = true -> length b = fsize f -> bytes_ok b = true ->
  enc_field f (dec_field f b) = b /\ field_ok f (dec_field f b) = true.
Proof.
  intros Hf Hlen Hb. pose proof (le_int_range b Hb) as Hr.
  unfold enc_field, zlen in *. rewrite Hlen in Hr.
  destruct f as [n|n]; cbn in *.
  - split; [rewrite <- Hlen; by apply le_bytes_int|].
    destruct Hr. apply andb_true_iff. rewrite Z.leb_le, Z.ltb_lt. lia.
  - assert (0 < n)%nat by (destruct n; [done|lia]). split.
    + rewrite <- Hlen at 1. rewrite <- (le_bytes_int b Hb) at 3.
      enough (forall m x y, wrap (8 * Z.of_nat m) x = wrap (8 * Z.of_nat m) y ->
              le_bytes m x = le_bytes m y) as Hext.
      { apply Hext. rewrite Hlen. rewrite wrap_signed by (unfold in_u in *; lia).
        symmetry. by apply wrap_small. }
      intros m x y E. rewrite <- !le_int_bytes in E.
      pose proof (le_bytes_int _ (le_bytes_ok m x)) as E1.
      pose proof (le_bytes_int _ (le_bytes_ok m y)) as E2.
      rewrite le_bytes_length in E1, E2. congruence.
    + pose proof (signed_range (8 * Z.of_nat n) (le_int b)).
      repeat (apply andb_true_iff; split); rewrite ?Z.ltb_lt, ?Z.leb_le; lia.
Qed.

Lemma encode_length ly fs : length fs = length ly -> length (encode ly fs) = layout_size ly.
Proof.
  revert fs. induction ly as [|f ly IH]; intros [|z fs] H; cbn in *; try done.
  rewrite length_app. unfold enc_field. rewrite le_bytes_length.
  unfold layout_size in *. rewrite (IH fs) by lia. done.
Qed.

Lemma encode_bytes_ok ly fs : bytes_ok (encode ly fs) = true.
Proof.
  revert fs. induction ly as [|f ly IH]; intros [|z fs]; cbn; try done.
  rewrite bytes_ok_app, IH, andb_true_r. apply le_bytes_ok.
Qed.

Lemma decode_length ly b : length (decode ly b) = length ly.
Proof. revert b. induction ly; intros b; cbn; auto. Qed.

Lemma decode_encode ly fs t :
  fields_ok ly fs = true -> decode ly (encode ly fs ++ t) = fs.
Proof.
  revert fs. induction ly as [|f ly IH]; intros [|z fs] H; cbn in *; try done.
  apply andb_true_iff in H as [Hz Hfs]. rewrite <- app_assoc.
  assert (length (enc_field f z) = fsize f) as Hl by apply le_bytes_length.
  rewrite take_app_length' by done. rewrite drop_app_length' by done.
  by rewrite dec_enc_field, IH.
Qed.

Lemma encode_decode ly b :
  forallb fty_ok ly = true -> length b = layout_size ly -> bytes_ok b = true ->
  encode ly (decode ly b) = b /\ fields_ok ly (decode ly b) = true.
Proof.
  revert b. induction ly as [|f ly IH]; intros b Hly Hlen Hb; cbn in *.
  - by destruct b.
  - apply andb_true_iff in Hly as [Hf Hly]. unfold layout_size in *. 
    change (length b = fsize f + list_sum (map fsize ly))%nat in Hlen.
    rewrite <- (take_drop (fsize f) b), bytes_ok_app in Hb.
    apply andb_true_iff in Hb as [Hb1 Hb2].
    destruct (enc_dec_field f (take (fsize f) b)) as [E1 E2]; [done| |done|].
    { rewrite length_take. lia. }
    destruct (IH (drop (fsize f) b)) as [E3 E4]; [done| |done|].
    { rewrite length_drop. lia. }
    rewrite E1, E3, E2, E4. split; [apply take_drop|done].
Qed.

Lemma fields_ok_length ly fs : fields_ok ly fs = true -> length fs = length ly.
Proof.
  revert fs. induction ly as [|f ly IH]; intros [|z fs] H; cbn in *; try done.
  apply andb_true_iff in H as [_ H]. by rewrite (IH fs).
Qed.

(** ** Structures *)

Class ByteValued (T : Type) : Type := {
  bv_layout : list fty;
  bv_fields : T -> list Z;
  bv_of : list Z -> T;
}.
#[global] Hint Mode ByteValued ! : typeclass_instances.
Arguments bv_layout T {_}.

Class ByteValuedOk (T : Type) `{ByteValued T} : Prop := {
  bv_layout_ok : forallb fty_ok (bv_layout T) = true;
  bv_fields_length : forall x : T, length (bv_fields x) = length (bv_layout T);
  bv_of_fields : forall x : T, bv_of (bv_fields x) = x;
  bv_fields_of : forall l, length l = length (bv_layout T) -> bv_fields (bv_of l : T) = l;
}.

Definition size_of (T : Type) `{ByteValued T} : Z := Z.of_nat (layout_size (bv_layout T)).
Definition as_slice {T : Type} `{ByteValued T} (x : T) : bytes := encode (bv_layout T) (bv_fields x).
Definition from_slice {T : Type} `{ByteValued T} (b : bytes) : T := bv_of (decode (bv_layout T) b).

Arguments as_slice : simpl never.
Arguments from_slice : simpl never.
Arguments size_of : simpl never.

(** Every field fits its width. *)
Definition struct_ok {T : Type} `{ByteValued T} (x : T) : bool := fields_ok (bv_layout T) (bv_fields x).

(** The [i]-th field of a field list. *)
Definition fld (l : list Z) (i : nat) : Z := nth i l 0.

(** Instances: [destruct] the record one way, the field list the other. *)
Ltac destruct_records :=
  repeat match goal with
    | x : ?T |- _ => lazymatch T with Z => fail | _ => destruct x end
    end.

Ltac solve_byte_valued :=
  split;
  [ reflexivity
  | intros x; destruct_records; reflexivity
  | intros x; destruct_records; reflexivity
  | intros l Hl; cbn in Hl;
    repeat (destruct l as [|? l]; cbn in Hl; [discriminate Hl|]);
    destruct l; [reflexivity|discriminate Hl] ].

Section byte_valued.
Context {T : Type} `{ByteValuedOk T}.

Lemma as_slice_length (x : T) : zlen (as_slice x) = size_of T.
Proof.
  unfold zlen, size_of, as_slice. by rewrite encode_length by apply bv_fields_length.
Qed.

Lemma as_slice_bytes_ok (x : T) : bytes_ok (as_slice x) = true.
Proof. apply encode_bytes_ok. Qed.

Lemma from_as_slice (x : T) t : struct_ok x = true -> from_slice (as_slice x ++ t) = x.
Proof.
  intros Hx. unfold from_slice, as_slice. rewrite decode_encode by done. apply bv_of_fields.
Qed.

Lemma as_from_slice b :
  zlen b = size_of T -> bytes_ok b = true ->
  as_slice (from_slice b : T) = b /\ struct_ok (from_slice b : T) = true.
Proof.
  intros Hlen Hb. unfold as_slice, from_slice, struct_ok.
  rewrite bv_fields_of by apply decode_length.
  apply encode_decode; [apply bv_layout_ok| |done].
  unfold zlen, size_of in Hlen. lia.
Qed.
End byte_valued.
