(* ===== verification/Abi.v ===== *)
(** * Constants of the FUSE protocol ([src/abi/fuse_abi_linux.rs])

    Versions, flag bits, option sets and opcodes of the Linux ABI. *)

From S2P Require Import Prelude.

(** ** Constants *)

Definition KERNEL_VERSION : Z := 7.
Definition KERNEL_MINOR_VERSION : Z := 33.
Definition KERNEL_MINOR_VERSION_INIT_OUT_SIZE : Z := 5.
Definition KERNEL_MINOR_VERSION_INIT_22_OUT_SIZE : Z := 23.
Definition KERNEL_MINOR_VERSION_LOOKUP_NEGATIVE_ENTRY_ZERO : Z := 4.
Definition ROOT_ID : Z := 1.
Definition FATTR_MODE : Z := 0x1.
Definition FATTR_UID : Z := 0x2.
Definition FATTR_GID : Z := 0x4.
Definition FATTR_SIZE : Z := 0x8.
Definition FATTR_ATIME : Z := 0x10.
Definition FATTR_MTIME : Z := 0x20.
Definition FATTR_FH : Z := 0x40.
Definition FATTR_ATIME_NOW : Z := 0x80.
Definition FATTR_MTIME_NOW : Z := 0x100.
Definition FATTR_LOCKOWNER : Z := 0x200.
Definition FATTR_CTIME : Z := 0x400.
Definition FATTR_KILL_SUIDGID : Z := 0x800.
Definition FOPEN_IN_KILL_SUIDGID : Z := 1.
Definition FOPEN_DIRECT_IO : Z := 1.
Definition FOPEN_KEEP_CACHE : Z := 2.
Definition FOPEN_NONSEEKABLE : Z := 4.
Definition FOPEN_CACHE_DIR : Z := 8.
Definition FOPEN_STREAM : Z := 16.
Definition ASYNC_READ : Z := 0x1.
Definition POSIX_LOCKS : Z := 0x2.
Definition FILE_OPS : Z := 0x4.
Definition ATOMIC_O_TRUNC : Z := 0x8.
Definition EXPORT_SUPPORT : Z := 0x10.
Definition BIG_WRITES : Z := 0x20.
Definition DONT_MASK : Z := 0x40.
Definition SPLICE_WRITE : Z := 0x80.
Definition SPLICE_MOVE : Z := 0x100.
Definition SPLICE_READ : Z := 0x200.
Definition FLOCK_LOCKS : Z := 0x400.
Definition HAS_IOCTL_DIR : Z := 0x800.
Definition AUTO_INVAL_DATA : Z := 0x1000.
Definition DO_READDIRPLUS : Z := 0x2000.
Definition READDIRPLUS_AUTO : Z := 0x4000.
Definition ASYNC_DIO : Z := 0x8000.
Definition WRITEBACK_CACHE : Z := 0x10000.
Definition NO_OPEN_SUPPORT : Z := 0x20000.
Definition PARALLEL_DIROPS : Z := 0x40000.
Definition HANDLE_KILLPRIV : Z := 0x80000.
Definition POSIX_ACL : Z := 0x100000.
Definition ABORT_ERROR : Z := 0x200000.
Definition MAX_PAGES : Z := 0x400000.
Definition CACHE_SYMLINKS : Z := 0x800000.
Definition NO_OPENDIR_SUPPORT : Z := 0x1000000.
Definition EXPLICIT_INVAL_DATA : Z := 0x2000000.
Definition MAP_ALIGNMENT : Z := 0x4000000.
Definition SUBMOUNTS : Z := 0x8000000.
Definition HANDLE_KILLPRIV_V2 : Z := 0x10000000.
Definition INIT_EXT : Z := 0x40000000.
Definition PERFILE_DAX : Z := 0x200000000.
Definition HAS_RESEND : Z := Z.shiftl 1 39.
Definition FD_PASSTHROUGH : Z := 0x8000000000000000.
Definition FUSE_ATTR_DAX : Z := Z.shiftl 1 1.
Definition RELEASE_FLUSH : Z := 1.
Definition RELEASE_FLOCK_UNLOCK : Z := 2.
Definition GETATTR_FH : Z := 1.
Definition LK_FLOCK : Z := 1.
Definition WRITE_CACHE : Z := 1.
Definition WRITE_LOCKOWNER : Z := 2.
Definition WRITE_KILL_PRIV : Z := 4.
Definition READ_LOCKOWNER : Z := 2.
Definition IOCTL_COMPAT : Z := 1.
Definition IOCTL_UNRESTRICTED : Z := 2.
Definition IOCTL_RETRY : Z := 4.
Definition IOCTL_32BIT : Z := 8.
Definition IOCTL_DIR : Z := 16.
Definition IOCTL_COMPAT_X32 : Z := 32.
Definition IOCTL_MAX_IOV : Z := 256.
Definition ATTR_SUBMOUNT : Z := 1.
Definition POLL_SCHEDULE_NOTIFY : Z := 1.
Definition FSYNC_FDATASYNC : Z := 1.
Definition FUSE_MIN_READ_BUFFER : Z := 8192.
Definition FUSE_COMPAT_INIT_OUT_SIZE : Z := 8.
Definition FUSE_COMPAT_22_INIT_OUT_SIZE : Z := 24.

(** ** Option sets

    A [bitflags!] type is its bits; [X_all] is the union of its named flags and
    [from_bits_truncate] keeps those. *)

Definition SetattrValid_all : Z :=
  foldr Z.lor 0
    [FATTR_MODE; FATTR_UID; FATTR_GID; FATTR_SIZE; FATTR_ATIME; FATTR_MTIME;
     FATTR_ATIME_NOW; FATTR_MTIME_NOW; FATTR_CTIME; FATTR_KILL_SUIDGID].

Definition OpenOptions_all : Z :=
  foldr Z.lor 0
    [FOPEN_DIRECT_IO; FOPEN_KEEP_CACHE; FOPEN_NONSEEKABLE; FOPEN_CACHE_DIR; FOPEN_STREAM].

Definition FsOptions_all : Z :=
  foldr Z.lor 0
    [ASYNC_READ; POSIX_LOCKS; FILE_OPS; ATOMIC_O_TRUNC; EXPORT_SUPPORT; BIG_WRITES;
     DONT_MASK; SPLICE_WRITE; SPLICE_MOVE; SPLICE_READ; FLOCK_LOCKS; HAS_IOCTL_DIR;
     AUTO_INVAL_DATA; DO_READDIRPLUS; READDIRPLUS_AUTO; ASYNC_DIO; WRITEBACK_CACHE;
     NO_OPEN_SUPPORT; PARALLEL_DIROPS; HANDLE_KILLPRIV; POSIX_ACL; ABORT_ERROR; MAX_PAGES;
     CACHE_SYMLINKS; NO_OPENDIR_SUPPORT; EXPLICIT_INVAL_DATA; MAP_ALIGNMENT; SUBMOUNTS;
     HANDLE_KILLPRIV_V2; FD_PASSTHROUGH; INIT_EXT; PERFILE_DAX; HAS_RESEND].

Definition IoctlFlags_all : Z :=
  foldr Z.lor 0
    [IOCTL_COMPAT; IOCTL_UNRESTRICTED; IOCTL_RETRY; IOCTL_32BIT; IOCTL_DIR;
     IOCTL_COMPAT_X32; IOCTL_MAX_IOV].

Definition from_bits_truncate (all b : Z) : Z := Z.land b all.
Definition from_bits (all b : Z) : option Z :=
  if Z.land b all =? b then Some b else None.
Definition empty_flags : Z := 0.

(** The names [FsOptions] gives the two zero-message bits. *)
Definition ZERO_MESSAGE_OPEN : Z := NO_OPEN_SUPPORT.
Definition ZERO_MESSAGE_OPENDIR : Z := NO_OPENDIR_SUPPORT.

(** ** Opcodes *)

Inductive Opcode : Set :=
| OpLookup | OpForget | OpGetattr | OpSetattr | OpReadlink | OpSymlink | OpMknod | OpMkdir
| OpUnlink | OpRmdir | OpRename | OpLink | OpOpen | OpRead | OpWrite | OpStatfs | OpRelease
| OpFsync | OpSetxattr | OpGetxattr | OpListxattr | OpRemovexattr | OpFlush | OpInit
| OpOpendir | OpReaddir | OpReleasedir | OpFsyncdir | OpGetlk | OpSetlk | OpSetlkw | OpAccess
| OpCreate | OpInterrupt | OpBmap | OpDestroy | OpIoctl | OpPoll | OpNotifyReply
| OpBatchForget | OpFallocate | OpReaddirplus | OpRename2 | OpLseek | OpCopyFileRange
| OpSetupMapping | OpRemoveMapping | OpMaxOpcode | OpCuseInitBswapReserved
| OpInitBswapReserved.

Definition Opcode_value (op : Opcode) : Z :=
  match op with
  | OpLookup => 1
  | OpForget => 2
  | OpGetattr => 3
  | OpSetattr => 4
  | OpReadlink => 5
  | OpSymlink => 6
  | OpMknod => 8
  | OpMkdir => 9
  | OpUnlink => 10
  | OpRmdir => 11
  | OpRename => 12
  | OpLink => 13
  | OpOpen => 14
  | OpRead => 15
  | OpWrite => 16
  | OpStatfs => 17
  | OpRelease => 18
  | OpFsync => 20
  | OpSetxattr => 21
  | OpGetxattr => 22
  | OpListxattr => 23
  | OpRemovexattr => 24
  | OpFlush => 25
  | OpInit => 26
  | OpOpendir => 27
  | OpReaddir => 28
  | OpReleasedir => 29
  | OpFsyncdir => 30
  | OpGetlk => 31
  | OpSetlk => 32
  | OpSetlkw => 33
  | OpAccess => 34
  | OpCreate => 35
  | OpInterrupt => 36
  | OpBmap => 37
  | OpDestroy => 38
  | OpIoctl => 39
  | OpPoll => 40
  | OpNotifyReply => 41
  | OpBatchForget => 42
  | OpFallocate => 43
  | OpReaddirplus => 44
  | OpRename2 => 45
  | OpLseek => 46
  | OpCopyFileRange => 47
  | OpSetupMapping => 48
  | OpRemoveMapping => 49
  | OpMaxOpcode => 50
  | OpCuseInitBswapReserved => 1048576
  | OpInitBswapReserved => 436207616
  end.

Definition Opcode_values : list Opcode :=
  [OpLookup; OpForget; OpGetattr; OpSetattr; OpReadlink; OpSymlink; OpMknod; OpMkdir;
   OpUnlink; OpRmdir; OpRename; OpLink; OpOpen; OpRead; OpWrite; OpStatfs; OpRelease;
   OpFsync; OpSetxattr; OpGetxattr; OpListxattr; OpRemovexattr; OpFlush; OpInit; OpOpendir;
   OpReaddir; OpReleasedir; OpFsyncdir; OpGetlk; OpSetlk; OpSetlkw; OpAccess; OpCreate;
   OpInterrupt; OpBmap; OpDestroy; OpIoctl; OpPoll; OpNotifyReply; OpBatchForget;
   OpFallocate; OpReaddirplus; OpRename2; OpLseek; OpCopyFileRange; OpSetupMapping;
   OpRemoveMapping; OpMaxOpcode; OpCuseInitBswapReserved; OpInitBswapReserved].

(** [From<u32> for Opcode]: codes from [MaxOpcode] on become [MaxOpcode], the
    others are transmuted; [None] is a transmute of a number that no variant
    has, which Rust leaves undefined. *)
Definition Opcode_from (op : Z) : option Opcode :=
  if Opcode_value OpMaxOpcode <=? op then Some OpMaxOpcode
  else find (fun o => Opcode_value o =? op) Opcode_values.

Inductive NotifyOpcode : Set :=
| NotifyPoll | NotifyInvalInode | NotifyInvalEntry | NotifyStore | NotifyRetrieve
| NotifyDelete | NotifyResend | NotifyCodeMax.

Definition NotifyOpcode_value (op : NotifyOpcode) : Z :=
  match op with
  | NotifyPoll => 1
  | NotifyInvalInode => 2
  | NotifyInvalEntry => 3
  | NotifyStore => 4
  | NotifyRetrieve => 5
  | NotifyDelete => 6
  | NotifyResend => 7
  | NotifyCodeMax => 8
  end.

(** ** Claims *)

(** The conversion of an opcode number.  Numbers of a variant below
    [MaxOpcode] give that variant and numbers from [MaxOpcode] on give
    [MaxOpcode]; 0, 7 and 19 belong to no variant, so that the transmute of
    exactly these three is undefined. *)
Theorem Opcode_from_spec op :
  0 <= op ->
  match Opcode_from op with
  | Some o => if op <? Opcode_value OpMaxOpcode then Opcode_value o = op else o = OpMaxOpcode
  | None => op = 0 \/ op = 7 \/ op = 19
  end /\ (Opcode_from op = None <-> op = 0 \/ op = 7 \/ op = 19).
Proof.
  intros Hop. destruct (Z_lt_le_dec op 50) as [Hlt|Hge].
  - assert (In op (map Z.of_nat (seq 0 50))) as Hin.
    { apply in_map_iff. exists (Z.to_nat op). rewrite in_seq. lia. }
    cbn in Hin.
    repeat (destruct Hin as [<-|Hin]; [vm_compute; repeat split; intros; done || lia|]).
    done.
  - unfold Opcode_from. cbn. destruct (Z.leb_spec 50 op); [|lia].
    destruct (Z.ltb_spec op 50); [lia|]. split; [done|]. split; [done|lia].
Qed.

Lemma Opcode_from_spec_witness : Opcode_from 26 = Some OpInit /\ Opcode_from 19 = None.
Proof.
  split; [|by apply (Opcode_from_spec 19); [lia|right; right]].
  destruct (Opcode_from_spec 26 ltac:(lia)) as [H _].
  destruct (Opcode_from 26) as [o|] eqn:Ho; [|lia]. vm_compute in Ho. by injection Ho as <-.
Defined.
