(* ===== verification/AbiStruct.v ===== *)
(** * Message structures of the FUSE protocol ([src/abi/fuse_abi_linux.rs], [src/abi/virtio_fs.rs])

    A structure is a record of its fields (an array of spare words is its
    words), a [ByteValued] instance that gives the widths in declaration order,
    and a [ByteValuedOk] instance.  Field names carry a prefix per structure,
    Rocq having one name space for projections. *)

From S2P Require Import Prelude Codec.

Record Attr : Set := MkAttr {
  at_ino : Z;
  at_size : Z;
  at_blocks : Z;
  at_atime : Z;
  at_mtime : Z;
  at_ctime : Z;
  at_atimensec : Z;
  at_mtimensec : Z;
  at_ctimensec : Z;
  at_mode : Z;
  at_nlink : Z;
  at_uid : Z;
  at_gid : Z;
  at_rdev : Z;
  at_blksize : Z;
  at_flags : Z;
}.

#[global] Instance Attr_byte_valued : ByteValued Attr := {|
  bv_layout := [U 8; U 8; U 8; U 8; U 8; U 8; U 4; U 4; U 4; U 4; U 4; U 4; U 4; U 4; U 4; U 4];
  bv_fields x := [x.(at_ino); x.(at_size); x.(at_blocks); x.(at_atime); x.(at_mtime);
    x.(at_ctime); x.(at_atimensec); x.(at_mtimensec); x.(at_ctimensec); x.(at_mode);
    x.(at_nlink); x.(at_uid); x.(at_gid); x.(at_rdev); x.(at_blksize); x.(at_flags)];
  bv_of l := {| at_ino := fld l 0; at_size := fld l 1; at_blocks := fld l 2;
    at_atime := fld l 3; at_mtime := fld l 4; at_ctime := fld l 5; at_atimensec := fld l 6;
    at_mtimensec := fld l 7; at_ctimensec := fld l 8; at_mode := fld l 9;
    at_nlink := fld l 10; at_uid := fld l 11; at_gid := fld l 12; at_rdev := fld l 13;
    at_blksize := fld l 14; at_flags := fld l 15 |};
|}.
#[global] Instance Attr_byte_valued_ok : ByteValuedOk Attr.
Proof. solve_byte_valued. Qed.

Record Kstatfs : Set := MkKstatfs {
  ks_blocks : Z;
  ks_bfree : Z;
  ks_bavail : Z;
  ks_files : Z;
  ks_ffree : Z;
  ks_bsize : Z;
  ks_namelen : Z;
  ks_frsize : Z;
  ks_padding : Z;
  ks_spare0 : Z;
  ks_spare1 : Z;
  ks_spare2 : Z;
  ks_spare3 : Z;
  ks_spare4 : Z;
  ks_spare5 : Z;
}.

#[global] Instance Kstatfs_byte_valued : ByteValued Kstatfs := {|
  bv_layout := [U 8; U 8; U 8; U 8; U 8; U 4; U 4; U 4; U 4; U 4; U 4; U 4; U 4; U 4; U 4];
  bv_fields x := [x.(ks_blocks); x.(ks_bfree); x.(ks_bavail); x.(ks_files); x.(ks_ffree);
    x.(ks_bsize); x.(ks_namelen); x.(ks_frsize); x.(ks_padding); x.(ks_spare0); x.(ks_spare1);
    x.(ks_spare2); x.(ks_spare3); x.(ks_spare4); x.(ks_spare5)];
  bv_of l := {| ks_blocks := fld l 0; ks_bfree := fld l 1; ks_bavail := fld l 2;
    ks_files := fld l 3; ks_ffree := fld l 4; ks_bsize := fld l 5; ks_namelen := fld l 6;
    ks_frsize := fld l 7; ks_padding := fld l 8; ks_spare0 := fld l 9; ks_spare1 := fld l 10;
    ks_spare2 := fld l 11; ks_spare3 := fld l 12; ks_spare4 := fld l 13; ks_spare5 := fld l 14 |};
|}.
#[global] Instance Kstatfs_byte_valued_ok : ByteValuedOk Kstatfs.
Proof. solve_byte_valued. Qed.

Record FileLock : Set := MkFileLock {
  fl_start : Z;
  fl_end : Z;
  fl_type : Z;
  fl_pid : Z;
}.

#[global] Instance FileLock_byte_valued : ByteValued FileLock := {|
  bv_layout := [U 8; U 8; U 4; U 4];
  bv_fields x := [x.(fl_start); x.(fl_end); x.(fl_type); x.(fl_pid)];
  bv_of l := {| fl_start := fld l 0; fl_end := fld l 1; fl_type := fld l 2; fl_pid := fld l 3 |};
|}.
#[global] Instance FileLock_byte_valued_ok : ByteValuedOk FileLock.
Proof. solve_byte_valued. Qed.

Record EntryOut : Set := MkEntryOut {
  eo_nodeid : Z;
  eo_generation : Z;
  eo_entry_valid : Z;
  eo_attr_valid : Z;
  eo_entry_valid_nsec : Z;
  eo_attr_valid_nsec : Z;
  eo_attr : Attr;
}.

#[global] Instance EntryOut_byte_valued : ByteValued EntryOut := {|
  bv_layout := [U 8; U 8; U 8; U 8; U 4; U 4] ++ bv_layout Attr;
  bv_fields x := [x.(eo_nodeid); x.(eo_generation); x.(eo_entry_valid); x.(eo_attr_valid);
    x.(eo_entry_valid_nsec); x.(eo_attr_valid_nsec)] ++ bv_fields x.(eo_attr);
  bv_of l := {| eo_nodeid := fld l 0; eo_generation := fld l 1; eo_entry_valid := fld l 2;
    eo_attr_valid := fld l 3; eo_entry_valid_nsec := fld l 4; eo_attr_valid_nsec := fld l 5;
    eo_attr := bv_of (drop 6 l) |};
|}.
#[global] Instance EntryOut_byte_valued_ok : ByteValuedOk EntryOut.
Proof. solve_byte_valued. Qed.

Record ForgetIn : Set := MkForgetIn {
  fg_nlookup : Z;
}.

#[global] Instance ForgetIn_byte_valued : ByteValued ForgetIn := {|
  bv_layout := [U 8];
  bv_fields x := [x.(fg_nlookup)];
  bv_of l := {| fg_nlookup := fld l 0 |};
|}.
#[global] Instance ForgetIn_byte_valued_ok : ByteValuedOk ForgetIn.
Proof. solve_byte_valued. Qed.

Record ForgetOne : Set := MkForgetOne {
  fo_nodeid : Z;
  fo_nlookup : Z;
}.

#[global] Instance ForgetOne_byte_valued : ByteValued ForgetOne := {|
  bv_layout := [U 8; U 8];
  bv_fields x := [x.(fo_nodeid); x.(fo_nlookup)];
  bv_of l := {| fo_nodeid := fld l 0; fo_nlookup := fld l 1 |};
|}.
#[global] Instance ForgetOne_byte_valued_ok : ByteValuedOk ForgetOne.
Proof. solve_byte_valued. Qed.

Record BatchForgetIn : Set := MkBatchForgetIn {
  bf_count : Z;
  bf_dummy : Z;
}.

#[global] Instance BatchForgetIn_byte_valued : ByteValued BatchForgetIn := {|
  bv_layout := [U 4; U 4];
  bv_fields x := [x.(bf_count); x.(bf_dummy)];
  bv_of l := {| bf_count := fld l 0; bf_dummy := fld l 1 |};
|}.
#[global] Instance BatchForgetIn_byte_valued_ok : ByteValuedOk BatchForgetIn.
Proof. solve_byte_valued. Qed.

Record GetattrIn : Set := MkGetattrIn {
  ga_flags : Z;
  ga_dummy : Z;
  ga_fh : Z;
}.

#[global] Instance GetattrIn_byte_valued : ByteValued GetattrIn := {|
  bv_layout := [U 4; U 4; U 8];
  bv_fields x := [x.(ga_flags); x.(ga_dummy); x.(ga_fh)];
  bv_of l := {| ga_flags := fld l 0; ga_dummy := fld l 1; ga_fh := fld l 2 |};
|}.
#[global] Instance GetattrIn_byte_valued_ok : ByteValuedOk GetattrIn.
Proof. solve_byte_valued. Qed.

Record AttrOut : Set := MkAttrOut {
  ao_attr_valid : Z;
  ao_attr_valid_nsec : Z;
  ao_dummy : Z;
  ao_attr : Attr;
}.

#[global] Instance AttrOut_byte_valued : ByteValued AttrOut := {|
  bv_layout := [U 8; U 4; U 4] ++ bv_layout Attr;
  bv_fields x := [x.(ao_attr_valid); x.(ao_attr_valid_nsec);
    x.(ao_dummy)] ++ bv_fields x.(ao_attr);
  bv_of l := {| ao_attr_valid := fld l 0; ao_attr_valid_nsec := fld l 1; ao_dummy := fld l 2;
    ao_attr := bv_of (drop 3 l) |};
|}.
#[global] Instance AttrOut_byte_valued_ok : ByteValuedOk AttrOut.
Proof. solve_byte_valued. Qed.

Record MknodIn : Set := MkMknodIn {
  mn_mode : Z;
  mn_rdev : Z;
  mn_umask : Z;
  mn_padding : Z;
}.

#[global] Instance MknodIn_byte_valued : ByteValued MknodIn := {|
  bv_layout := [U 4; U 4; U 4; U 4];
  bv_fields x := [x.(mn_mode); x.(mn_rdev); x.(mn_umask); x.(mn_padding)];
  bv_of l := {| mn_mode := fld l 0; mn_rdev := fld l 1; mn_umask := fld l 2;
    mn_padding := fld l 3 |};
|}.
#[global] Instance MknodIn_byte_valued_ok : ByteValuedOk MknodIn.
Proof. solve_byte_valued. Qed.

Record MkdirIn : Set := MkMkdirIn {
  md_mode : Z;
  md_umask : Z;
}.

#[global] Instance MkdirIn_byte_valued : ByteValued MkdirIn := {|
  bv_layout := [U 4; U 4];
  bv_fields x := [x.(md_mode); x.(md_umask)];
  bv_of l := {| md_mode := fld l 0; md_umask := fld l 1 |};
|}.
#[global] Instance MkdirIn_byte_valued_ok : ByteValuedOk MkdirIn.
Proof. solve_byte_valued. Qed.

Record RenameIn : Set := MkRenameIn {
  rn_newdir : Z;
}.

#[global] Instance RenameIn_byte_valued : ByteValued RenameIn := {|
  bv_layout := [U 8];
  bv_fields x := [x.(rn_newdir)];
  bv_of l := {| rn_newdir := fld l 0 |};
|}.
#[global] Instance RenameIn_byte_valued_ok : ByteValuedOk RenameIn.
Proof. solve_byte_valued. Qed.

Record Rename2In : Set := MkRename2In {
  rn2_newdir : Z;
  rn2_flags : Z;
  rn2_padding : Z;
}.

#[global] Instance Rename2In_byte_valued : ByteValued Rename2In := {|
  bv_layout := [U 8; U 4; U 4];
  bv_fields x := [x.(rn2_newdir); x.(rn2_flags); x.(rn2_padding)];
  bv_of l := {| rn2_newdir := fld l 0; rn2_flags := fld l 1; rn2_padding := fld l 2 |};
|}.
#[global] Instance Rename2In_byte_valued_ok : ByteValuedOk Rename2In.
Proof. solve_byte_valued. Qed.

Record LinkIn : Set := MkLinkIn {
  ln_oldnodeid : Z;
}.

#[global] Instance LinkIn_byte_valued : ByteValued LinkIn := {|
  bv_layout := [U 8];
  bv_fields x := [x.(ln_oldnodeid)];
  bv_of l := {| ln_oldnodeid := fld l 0 |};
|}.
#[global] Instance LinkIn_byte_valued_ok : ByteValuedOk LinkIn.
Proof. solve_byte_valued. Qed.

Record SetattrIn : Set := MkSetattrIn {
  sa_valid : Z;
  sa_padding : Z;
  sa_fh : Z;
  sa_size : Z;
  sa_lock_owner : Z;
  sa_atime : Z;
  sa_mtime : Z;
  sa_ctime : Z;
  sa_atimensec : Z;
  sa_mtimensec : Z;
  sa_ctimensec : Z;
  sa_mode : Z;
  sa_unused4 : Z;
  sa_uid : Z;
  sa_gid : Z;
  sa_unused5 : Z;
}.

#[global] Instance SetattrIn_byte_valued : ByteValued SetattrIn := {|
  bv_layout := [U 4; U 4; U 8; U 8; U 8; U 8; U 8; U 8; U 4; U 4; U 4; U 4; U 4; U 4; U 4; U 4];
  bv_fields x := [x.(sa_valid); x.(sa_padding); x.(sa_fh); x.(sa_size); x.(sa_lock_owner);
    x.(sa_atime); x.(sa_mtime); x.(sa_ctime); x.(sa_atimensec); x.(sa_mtimensec);
    x.(sa_ctimensec); x.(sa_mode); x.(sa_unused4); x.(sa_uid); x.(sa_gid); x.(sa_unused5)];
  bv_of l := {| sa_valid := fld l 0; sa_padding := fld l 1; sa_fh := fld l 2;
    sa_size := fld l 3; sa_lock_owner := fld l 4; sa_atime := fld l 5; sa_mtime := fld l 6;
    sa_ctime := fld l 7; sa_atimensec := fld l 8; sa_mtimensec := fld l 9;
    sa_ctimensec := fld l 10; sa_mode := fld l 11; sa_unused4 := fld l 12; sa_uid := fld l 13;
    sa_gid := fld l 14; sa_unused5 := fld l 15 |};
|}.
#[global] Instance SetattrIn_byte_valued_ok : ByteValuedOk SetattrIn.
Proof. solve_byte_valued. Qed.

Record OpenIn : Set := MkOpenIn {
  oi_flags : Z;
  oi_fuse_flags : Z;
}.

#[global] Instance OpenIn_byte_valued : ByteValued OpenIn := {|
  bv_layout := [U 4; U 4];
  bv_fields x := [x.(oi_flags); x.(oi_fuse_flags)];
  bv_of l := {| oi_flags := fld l 0; oi_fuse_flags := fld l 1 |};
|}.
#[global] Instance OpenIn_byte_valued_ok : ByteValuedOk OpenIn.
Proof. solve_byte_valued. Qed.

Record CreateIn : Set := MkCreateIn {
  ci_flags : Z;
  ci_mode : Z;
  ci_umask : Z;
  ci_fuse_flags : Z;
}.

#[global] Instance CreateIn_byte_valued : ByteValued CreateIn := {|
  bv_layout := [U 4; U 4; U 4; U 4];
  bv_fields x := [x.(ci_flags); x.(ci_mode); x.(ci_umask); x.(ci_fuse_flags)];
  bv_of l := {| ci_flags := fld l 0; ci_mode := fld l 1; ci_umask := fld l 2;
    ci_fuse_flags := fld l 3 |};
|}.
#[global] Instance CreateIn_byte_valued_ok : ByteValuedOk CreateIn.
Proof. solve_byte_valued. Qed.

Record OpenOut : Set := MkOpenOut {
  oo_fh : Z;
  oo_open_flags : Z;
  oo_passthrough : Z;
}.

#[global] Instance OpenOut_byte_valued : ByteValued OpenOut := {|
  bv_layout := [U 8; U 4; U 4];
  bv_fields x := [x.(oo_fh); x.(oo_open_flags); x.(oo_passthrough)];
  bv_of l := {| oo_fh := fld l 0; oo_open_flags := fld l 1; oo_passthrough := fld l 2 |};
|}.
#[global] Instance OpenOut_byte_valued_ok : ByteValuedOk OpenOut.
Proof. solve_byte_valued. Qed.

Record ReleaseIn : Set := MkReleaseIn {
  ri_fh : Z;
  ri_flags : Z;
  ri_release_flags : Z;
  ri_lock_owner : Z;
}.

#[global] Instance ReleaseIn_byte_valued : ByteValued ReleaseIn := {|
  bv_layout := [U 8; U 4; U 4; U 8];
  bv_fields x := [x.(ri_fh); x.(ri_flags); x.(ri_release_flags); x.(ri_lock_owner)];
  bv_of l := {| ri_fh := fld l 0; ri_flags := fld l 1; ri_release_flags := fld l 2;
    ri_lock_owner := fld l 3 |};
|}.
#[global] Instance ReleaseIn_byte_valued_ok : ByteValuedOk ReleaseIn.
Proof. solve_byte_valued. Qed.

Record FlushIn : Set := MkFlushIn {
  fi_fh : Z;
  fi_unused : Z;
  fi_padding : Z;
  fi_lock_owner : Z;
}.

#[global] Instance FlushIn_byte_valued : ByteValued FlushIn := {|
  bv_layout := [U 8; U 4; U 4; U 8];
  bv_fields x := [x.(fi_fh); x.(fi_unused); x.(fi_padding); x.(fi_lock_owner)];
  bv_of l := {| fi_fh := fld l 0; fi_unused := fld l 1; fi_padding := fld l 2;
    fi_lock_owner := fld l 3 |};
|}.
#[global] Instance FlushIn_byte_valued_ok : ByteValuedOk FlushIn.
Proof. solve_byte_valued. Qed.

Record ReadIn : Set := MkReadIn {
  rd_fh : Z;
  rd_offset : Z;
  rd_size : Z;
  rd_read_flags : Z;
  rd_lock_owner : Z;
  rd_flags : Z;
  rd_padding : Z;
}.

#[global] Instance ReadIn_byte_valued : ByteValued ReadIn := {|
  bv_layout := [U 8; U 8; U 4; U 4; U 8; U 4; U 4];
  bv_fields x := [x.(rd_fh); x.(rd_offset); x.(rd_size); x.(rd_read_flags); x.(rd_lock_owner);
    x.(rd_flags); x.(rd_padding)];
  bv_of l := {| rd_fh := fld l 0; rd_offset := fld l 1; rd_size := fld l 2;
    rd_read_flags := fld l 3; rd_lock_owner := fld l 4; rd_flags := fld l 5;
    rd_padding := fld l 6 |};
|}.
#[global] Instance ReadIn_byte_valued_ok : ByteValuedOk ReadIn.
Proof. solve_byte_valued. Qed.

Record WriteIn : Set := MkWriteIn {
  wi_fh : Z;
  wi_offset : Z;
  wi_size : Z;
  wi_fuse_flags : Z;
  wi_lock_owner : Z;
  wi_flags : Z;
  wi_padding : Z;
}.

#[global] Instance WriteIn_byte_valued : ByteValued WriteIn := {|
  bv_layout := [U 8; U 8; U 4; U 4; U 8; U 4; U 4];
  bv_fields x := [x.(wi_fh); x.(wi_offset); x.(wi_size); x.(wi_fuse_flags); x.(wi_lock_owner);
    x.(wi_flags); x.(wi_padding)];
  bv_of l := {| wi_fh := fld l 0; wi_offset := fld l 1; wi_size := fld l 2;
    wi_fuse_flags := fld l 3; wi_lock_owner := fld l 4; wi_flags := fld l 5;
    wi_padding := fld l 6 |};
|}.
#[global] Instance WriteIn_byte_valued_ok : ByteValuedOk WriteIn.
Proof. solve_byte_valued. Qed.

Record WriteOut : Set := MkWriteOut {
  wo_size : Z;
  wo_padding : Z;
}.

#[global] Instance WriteOut_byte_valued : ByteValued WriteOut := {|
  bv_layout := [U 4; U 4];
  bv_fields x := [x.(wo_size); x.(wo_padding)];
  bv_of l := {| wo_size := fld l 0; wo_padding := fld l 1 |};
|}.
#[global] Instance WriteOut_byte_valued_ok : ByteValuedOk WriteOut.
Proof. solve_byte_valued. Qed.

Record StatfsOut : Set := MkStatfsOut {
  so_st : Kstatfs;
}.

#[global] Instance StatfsOut_byte_valued : ByteValued StatfsOut := {|
  bv_layout := bv_layout Kstatfs;
  bv_fields x := bv_fields x.(so_st);
  bv_of l := {| so_st := bv_of l |};
|}.
#[global] Instance StatfsOut_byte_valued_ok : ByteValuedOk StatfsOut.
Proof. solve_byte_valued. Qed.

Record FsyncIn : Set := MkFsyncIn {
  fs_fh : Z;
  fs_fsync_flags : Z;
  fs_padding : Z;
}.

#[global] Instance FsyncIn_byte_valued : ByteValued FsyncIn := {|
  bv_layout := [U 8; U 4; U 4];
  bv_fields x := [x.(fs_fh); x.(fs_fsync_flags); x.(fs_padding)];
  bv_of l := {| fs_fh := fld l 0; fs_fsync_flags := fld l 1; fs_padding := fld l 2 |};
|}.
#[global] Instance FsyncIn_byte_valued_ok : ByteValuedOk FsyncIn.
Proof. solve_byte_valued. Qed.

Record SetxattrIn : Set := MkSetxattrIn {
  sx_size : Z;
  sx_flags : Z;
}.

#[global] Instance SetxattrIn_byte_valued : ByteValued SetxattrIn := {|
  bv_layout := [U 4; U 4];
  bv_fields x := [x.(sx_size); x.(sx_flags)];
  bv_of l := {| sx_size := fld l 0; sx_flags := fld l 1 |};
|}.
#[global] Instance SetxattrIn_byte_valued_ok : ByteValuedOk SetxattrIn.
Proof. solve_byte_valued. Qed.

Record GetxattrIn : Set := MkGetxattrIn {
  gx_size : Z;
  gx_padding : Z;
}.

#[global] Instance GetxattrIn_byte_valued : ByteValued GetxattrIn := {|
  bv_layout := [U 4; U 4];
  bv_fields x := [x.(gx_size); x.(gx_padding)];
  bv_of l := {| gx_size := fld l 0; gx_padding := fld l 1 |};
|}.
#[global] Instance GetxattrIn_byte_valued_ok : ByteValuedOk GetxattrIn.
Proof. solve_byte_valued. Qed.

Record GetxattrOut : Set := MkGetxattrOut {
  gxo_size : Z;
  gxo_padding : Z;
}.

#[global] Instance GetxattrOut_byte_valued : ByteValued GetxattrOut := {|
  bv_layout := [U 4; U 4];
  bv_fields x := [x.(gxo_size); x.(gxo_padding)];
  bv_of l := {| gxo_size := fld l 0; gxo_padding := fld l 1 |};
|}.
#[global] Instance GetxattrOut_byte_valued_ok : ByteValuedOk GetxattrOut.
Proof. solve_byte_valued. Qed.

Record LkIn : Set := MkLkIn {
  li_fh : Z;
  li_owner : Z;
  li_lk : FileLock;
  li_lk_flags : Z;
  li_padding : Z;
}.

#[global] Instance LkIn_byte_valued : ByteValued LkIn := {|
  bv_layout := [U 8; U 8] ++ bv_layout FileLock ++ [U 4; U 4];
  bv_fields x := [x.(li_fh); x.(li_owner)] ++ bv_fields x.(li_lk) ++ [x.(li_lk_flags);
    x.(li_padding)];
  bv_of l := {| li_fh := fld l 0; li_owner := fld l 1; li_lk := bv_of (take 4 (drop 2 l));
    li_lk_flags := fld l 6; li_padding := fld l 7 |};
|}.
#[global] Instance LkIn_byte_valued_ok : ByteValuedOk LkIn.
Proof. solve_byte_valued. Qed.

Record LkOut : Set := MkLkOut {
  lo_lk : FileLock;
}.

#[global] Instance LkOut_byte_valued : ByteValued LkOut := {|
  bv_layout := bv_layout FileLock;
  bv_fields x := bv_fields x.(lo_lk);
  bv_of l := {| lo_lk := bv_of l |};
|}.
#[global] Instance LkOut_byte_valued_ok : ByteValuedOk LkOut.
Proof. solve_byte_valued. Qed.

Record AccessIn : Set := MkAccessIn {
  ac_mask : Z;
  ac_padding : Z;
}.

#[global] Instance AccessIn_byte_valued : ByteValued AccessIn := {|
  bv_layout := [U 4; U 4];
  bv_fields x := [x.(ac_mask); x.(ac_padding)];
  bv_of l := {| ac_mask := fld l 0; ac_padding := fld l 1 |};
|}.
#[global] Instance AccessIn_byte_valued_ok : ByteValuedOk AccessIn.
Proof. solve_byte_valued. Qed.

Record InitIn : Set := MkInitIn {
  ii_major : Z;
  ii_minor : Z;
  ii_max_readahead : Z;
  ii_flags : Z;
}.

#[global] Instance InitIn_byte_valued : ByteValued InitIn := {|
  bv_layout := [U 4; U 4; U 4; U 4];
  bv_fields x := [x.(ii_major); x.(ii_minor); x.(ii_max_readahead); x.(ii_flags)];
  bv_of l := {| ii_major := fld l 0; ii_minor := fld l 1; ii_max_readahead := fld l 2;
    ii_flags := fld l 3 |};
|}.
#[global] Instance InitIn_byte_valued_ok : ByteValuedOk InitIn.
Proof. solve_byte_valued. Qed.

Record InitIn2 : Set := MkInitIn2 {
  ii2_flags2 : Z;
  ii2_unused0 : Z;
  ii2_unused1 : Z;
  ii2_unused2 : Z;
  ii2_unused3 : Z;
  ii2_unused4 : Z;
  ii2_unused5 : Z;
  ii2_unused6 : Z;
  ii2_unused7 : Z;
  ii2_unused8 : Z;
  ii2_unused9 : Z;
  ii2_unused10 : Z;
}.

#[global] Instance InitIn2_byte_valued : ByteValued InitIn2 := {|
  bv_layout := [U 4; U 4; U 4; U 4; U 4; U 4; U 4; U 4; U 4; U 4; U 4; U 4];
  bv_fields x := [x.(ii2_flags2); x.(ii2_unused0); x.(ii2_unused1); x.(ii2_unused2);
    x.(ii2_unused3); x.(ii2_unused4); x.(ii2_unused5); x.(ii2_unused6); x.(ii2_unused7);
    x.(ii2_unused8); x.(ii2_unused9); x.(ii2_unused10)];
  bv_of l := {| ii2_flags2 := fld l 0; ii2_unused0 := fld l 1; ii2_unused1 := fld l 2;
    ii2_unused2 := fld l 3; ii2_unused3 := fld l 4; ii2_unused4 := fld l 5;
    ii2_unused5 := fld l 6; ii2_unused6 := fld l 7; ii2_unused7 := fld l 8;
    ii2_unused8 := fld l 9; ii2_unused9 := fld l 10; ii2_unused10 := fld l 11 |};
|}.
#[global] Instance InitIn2_byte_valued_ok : ByteValuedOk InitIn2.
Proof. solve_byte_valued. Qed.

Record InitOut : Set := MkInitOut {
  io_major : Z;
  io_minor : Z;
  io_max_readahead : Z;
  io_flags : Z;
  io_max_background : Z;
  io_congestion_threshold : Z;
  io_max_write : Z;
  io_time_gran : Z;
  io_max_pages : Z;
  io_map_alignment : Z;
  io_flags2 : Z;
  io_unused0 : Z;
  io_unused1 : Z;
  io_unused2 : Z;
  io_unused3 : Z;
  io_unused4 : Z;
  io_unused5 : Z;
  io_unused6 : Z;
}.

#[global] Instance InitOut_byte_valued : ByteValued InitOut := {|
  bv_layout := [U 4; U 4; U 4; U 4; U 2; U 2; U 4; U 4; U 2; U 2; U 4; U 4; U 4; U 4; U 4; U 4;
    U 4; U 4];
  bv_fields x := [x.(io_major); x.(io_minor); x.(io_max_readahead); x.(io_flags);
    x.(io_max_background); x.(io_congestion_threshold); x.(io_max_write); x.(io_time_gran);
    x.(io_max_pages); x.(io_map_alignment); x.(io_flags2); x.(io_unused0); x.(io_unused1);
    x.(io_unused2); x.(io_unused3); x.(io_unused4); x.(io_unused5); x.(io_unused6)];
  bv_of l := {| io_major := fld l 0; io_minor := fld l 1; io_max_readahead := fld l 2;
    io_flags := fld l 3; io_max_background := fld l 4; io_congestion_threshold := fld l 5;
    io_max_write := fld l 6; io_time_gran := fld l 7; io_max_pages := fld l 8;
    io_map_alignment := fld l 9; io_flags2 := fld l 10; io_unused0 := fld l 11;
    io_unused1 := fld l 12; io_unused2 := fld l 13; io_unused3 := fld l 14;
    io_unused4 := fld l 15; io_unused5 := fld l 16; io_unused6 := fld l 17 |};
|}.
#[global] Instance InitOut_byte_valued_ok : ByteValuedOk InitOut.
Proof. solve_byte_valued. Qed.

Record InterruptIn : Set := MkInterruptIn {
  int_unique : Z;
}.

#[global] Instance InterruptIn_byte_valued : ByteValued InterruptIn := {|
  bv_layout := [U 8];
  bv_fields x := [x.(int_unique)];
  bv_of l := {| int_unique := fld l 0 |};
|}.
#[global] Instance InterruptIn_byte_valued_ok : ByteValuedOk InterruptIn.
Proof. solve_byte_valued. Qed.

Record BmapIn : Set := MkBmapIn {
  bi_block : Z;
  bi_blocksize : Z;
  bi_padding : Z;
}.

#[global] Instance BmapIn_byte_valued : ByteValued BmapIn := {|
  bv_layout := [U 8; U 4; U 4];
  bv_fields x := [x.(bi_block); x.(bi_blocksize); x.(bi_padding)];
  bv_of l := {| bi_block := fld l 0; bi_blocksize := fld l 1; bi_padding := fld l 2 |};
|}.
#[global] Instance BmapIn_byte_valued_ok : ByteValuedOk BmapIn.
Proof. solve_byte_valued. Qed.

Record BmapOut : Set := MkBmapOut {
  bo_block : Z;
}.

#[global] Instance BmapOut_byte_valued : ByteValued BmapOut := {|
  bv_layout := [U 8];
  bv_fields x := [x.(bo_block)];
  bv_of l := {| bo_block := fld l 0 |};
|}.
#[global] Instance BmapOut_byte_valued_ok : ByteValuedOk BmapOut.
Proof. solve_byte_valued. Qed.

Record IoctlIn : Set := MkIoctlIn {
  ioi_fh : Z;
  ioi_flags : Z;
  ioi_cmd : Z;
  ioi_arg : Z;
  ioi_in_size : Z;
  ioi_out_size : Z;
}.

#[global] Instance IoctlIn_byte_valued : ByteValued IoctlIn := {|
  bv_layout := [U 8; U 4; U 4; U 8; U 4; U 4];
  bv_fields x := [x.(ioi_fh); x.(ioi_flags); x.(ioi_cmd); x.(ioi_arg); x.(ioi_in_size);
    x.(ioi_out_size)];
  bv_of l := {| ioi_fh := fld l 0; ioi_flags := fld l 1; ioi_cmd := fld l 2; ioi_arg := fld l 3;
    ioi_in_size := fld l 4; ioi_out_size := fld l 5 |};
|}.
#[global] Instance IoctlIn_byte_valued_ok : ByteValuedOk IoctlIn.
Proof. solve_byte_valued. Qed.

Record IoctlIovec : Set := MkIoctlIovec {
  iov_base : Z;
  iov_len : Z;
}.

#[global] Instance IoctlIovec_byte_valued : ByteValued IoctlIovec := {|
  bv_layout := [U 8; U 8];
  bv_fields x := [x.(iov_base); x.(iov_len)];
  bv_of l := {| iov_base := fld l 0; iov_len := fld l 1 |};
|}.
#[global] Instance IoctlIovec_byte_valued_ok : ByteValuedOk IoctlIovec.
Proof. solve_byte_valued. Qed.

Record IoctlOut : Set := MkIoctlOut {
  ioo_result : Z;
  ioo_flags : Z;
  ioo_in_iovs : Z;
  ioo_out_iovs : Z;
}.

#[global] Instance IoctlOut_byte_valued : ByteValued IoctlOut := {|
  bv_layout := [I 4; U 4; U 4; U 4];
  bv_fields x := [x.(ioo_result); x.(ioo_flags); x.(ioo_in_iovs); x.(ioo_out_iovs)];
  bv_of l := {| ioo_result := fld l 0; ioo_flags := fld l 1; ioo_in_iovs := fld l 2;
    ioo_out_iovs := fld l 3 |};
|}.
#[global] Instance IoctlOut_byte_valued_ok : ByteValuedOk IoctlOut.
Proof. solve_byte_valued. Qed.

Record PollIn : Set := MkPollIn {
  pi_fh : Z;
  pi_kh : Z;
  pi_flags : Z;
  pi_events : Z;
}.

#[global] Instance PollIn_byte_valued : ByteValued PollIn := {|
  bv_layout := [U 8; U 8; U 4; U 4];
  bv_fields x := [x.(pi_fh); x.(pi_kh); x.(pi_flags); x.(pi_events)];
  bv_of l := {| pi_fh := fld l 0; pi_kh := fld l 1; pi_flags := fld l 2; pi_events := fld l 3 |};
|}.
#[global] Instance PollIn_byte_valued_ok : ByteValuedOk PollIn.
Proof. solve_byte_valued. Qed.

Record PollOut : Set := MkPollOut {
  po_revents : Z;
  po_padding : Z;
}.

#[global] Instance PollOut_byte_valued : ByteValued PollOut := {|
  bv_layout := [U 4; U 4];
  bv_fields x := [x.(po_revents); x.(po_padding)];
  bv_of l := {| po_revents := fld l 0; po_padding := fld l 1 |};
|}.
#[global] Instance PollOut_byte_valued_ok : ByteValuedOk PollOut.
Proof. solve_byte_valued. Qed.

Record NotifyPollWakeupOut : Set := MkNotifyPollWakeupOut {
  npw_kh : Z;
}.

#[global] Instance NotifyPollWakeupOut_byte_valued : ByteValued NotifyPollWakeupOut := {|
  bv_layout := [U 8];
  bv_fields x := [x.(npw_kh)];
  bv_of l := {| npw_kh := fld l 0 |};
|}.
#[global] Instance NotifyPollWakeupOut_byte_valued_ok : ByteValuedOk NotifyPollWakeupOut.
Proof. solve_byte_valued. Qed.

Record FallocateIn : Set := MkFallocateIn {
  fa_fh : Z;
  fa_offset : Z;
  fa_length : Z;
  fa_mode : Z;
  fa_padding : Z;
}.

#[global] Instance FallocateIn_byte_valued : ByteValued FallocateIn := {|
  bv_layout := [U 8; U 8; U 8; U 4; U 4];
  bv_fields x := [x.(fa_fh); x.(fa_offset); x.(fa_length); x.(fa_mode); x.(fa_padding)];
  bv_of l := {| fa_fh := fld l 0; fa_offset := fld l 1; fa_length := fld l 2;
    fa_mode := fld l 3; fa_padding := fld l 4 |};
|}.
#[global] Instance FallocateIn_byte_valued_ok : ByteValuedOk FallocateIn.
Proof. solve_byte_valued. Qed.

Record InHeader : Set := MkInHeader {
  ih_len : Z;
  ih_opcode : Z;
  ih_unique : Z;
  ih_nodeid : Z;
  ih_uid : Z;
  ih_gid : Z;
  ih_pid : Z;
  ih_padding : Z;
}.

#[global] Instance InHeader_byte_valued : ByteValued InHeader := {|
  bv_layout := [U 4; U 4; U 8; U 8; U 4; U 4; U 4; U 4];
  bv_fields x := [x.(ih_len); x.(ih_opcode); x.(ih_unique); x.(ih_nodeid); x.(ih_uid);
    x.(ih_gid); x.(ih_pid); x.(ih_padding)];
  bv_of l := {| ih_len := fld l 0; ih_opcode := fld l 1; ih_unique := fld l 2;
    ih_nodeid := fld l 3; ih_uid := fld l 4; ih_gid := fld l 5; ih_pid := fld l 6;
    ih_padding := fld l 7 |};
|}.
#[global] Instance InHeader_byte_valued_ok : ByteValuedOk InHeader.
Proof. solve_byte_valued. Qed.

Record OutHeader : Set := MkOutHeader {
  oh_len : Z;
  oh_error : Z;
  oh_unique : Z;
}.

#[global] Instance OutHeader_byte_valued : ByteValued OutHeader := {|
  bv_layout := [U 4; I 4; U 8];
  bv_fields x := [x.(oh_len); x.(oh_error); x.(oh_unique)];
  bv_of l := {| oh_len := fld l 0; oh_error := fld l 1; oh_unique := fld l 2 |};
|}.
#[global] Instance OutHeader_byte_valued_ok : ByteValuedOk OutHeader.
Proof. solve_byte_valued. Qed.

Record Dirent : Set := MkDirent {
  de_ino : Z;
  de_off : Z;
  de_namelen : Z;
  de_type : Z;
}.

#[global] Instance Dirent_byte_valued : ByteValued Dirent := {|
  bv_layout := [U 8; U 8; U 4; U 4];
  bv_fields x := [x.(de_ino); x.(de_off); x.(de_namelen); x.(de_type)];
  bv_of l := {| de_ino := fld l 0; de_off := fld l 1; de_namelen := fld l 2; de_type := fld l 3 |};
|}.
#[global] Instance Dirent_byte_valued_ok : ByteValuedOk Dirent.
Proof. solve_byte_valued. Qed.

Record Direntplus : Set := MkDirentplus {
  dp_entry_out : EntryOut;
  dp_dirent : Dirent;
}.

#[global] Instance Direntplus_byte_valued : ByteValued Direntplus := {|
  bv_layout := bv_layout EntryOut ++ bv_layout Dirent;
  bv_fields x := bv_fields x.(dp_entry_out) ++ bv_fields x.(dp_dirent);
  bv_of l := {| dp_entry_out := bv_of (take 22 l); dp_dirent := bv_of (drop 22 l) |};
|}.
#[global] Instance Direntplus_byte_valued_ok : ByteValuedOk Direntplus.
Proof. solve_byte_valued. Qed.

Record NotifyInvalInodeOut : Set := MkNotifyInvalInodeOut {
  nii_ino : Z;
  nii_off : Z;
  nii_len : Z;
}.

#[global] Instance NotifyInvalInodeOut_byte_valued : ByteValued NotifyInvalInodeOut := {|
  bv_layout := [U 8; I 8; I 8];
  bv_fields x := [x.(nii_ino); x.(nii_off); x.(nii_len)];
  bv_of l := {| nii_ino := fld l 0; nii_off := fld l 1; nii_len := fld l 2 |};
|}.
#[global] Instance NotifyInvalInodeOut_byte_valued_ok : ByteValuedOk NotifyInvalInodeOut.
Proof. solve_byte_valued. Qed.

Record NotifyInvalEntryOut : Set := MkNotifyInvalEntryOut {
  nie_parent : Z;
  nie_namelen : Z;
  nie_padding : Z;
}.

#[global] Instance NotifyInvalEntryOut_byte_valued : ByteValued NotifyInvalEntryOut := {|
  bv_layout := [U 8; U 4; U 4];
  bv_fields x := [x.(nie_parent); x.(nie_namelen); x.(nie_padding)];
  bv_of l := {| nie_parent := fld l 0; nie_namelen := fld l 1; nie_padding := fld l 2 |};
|}.
#[global] Instance NotifyInvalEntryOut_byte_valued_ok : ByteValuedOk NotifyInvalEntryOut.
Proof. solve_byte_valued. Qed.

Record NotifyDeleteOut : Set := MkNotifyDeleteOut {
  nd_parent : Z;
  nd_child : Z;
  nd_namelen : Z;
  nd_padding : Z;
}.

#[global] Instance NotifyDeleteOut_byte_valued : ByteValued NotifyDeleteOut := {|
  bv_layout := [U 8; U 8; U 4; U 4];
  bv_fields x := [x.(nd_parent); x.(nd_child); x.(nd_namelen); x.(nd_padding)];
  bv_of l := {| nd_parent := fld l 0; nd_child := fld l 1; nd_namelen := fld l 2;
    nd_padding := fld l 3 |};
|}.
#[global] Instance NotifyDeleteOut_byte_valued_ok : ByteValuedOk NotifyDeleteOut.
Proof. solve_byte_valued. Qed.

Record NotifyStoreOut : Set := MkNotifyStoreOut {
  ns_nodeid : Z;
  ns_offset : Z;
  ns_size : Z;
  ns_padding : Z;
}.

#[global] Instance NotifyStoreOut_byte_valued : ByteValued NotifyStoreOut := {|
  bv_layout := [U 8; U 8; U 4; U 4];
  bv_fields x := [x.(ns_nodeid); x.(ns_offset); x.(ns_size); x.(ns_padding)];
  bv_of l := {| ns_nodeid := fld l 0; ns_offset := fld l 1; ns_size := fld l 2;
    ns_padding := fld l 3 |};
|}.
#[global] Instance NotifyStoreOut_byte_valued_ok : ByteValuedOk NotifyStoreOut.
Proof. solve_byte_valued. Qed.

Record Notify_Retrieve_Out : Set := MkNotify_Retrieve_Out {
  nro_notify_unique : Z;
  nro_nodeid : Z;
  nro_offset : Z;
  nro_size : Z;
  nro_padding : Z;
}.

#[global] Instance Notify_Retrieve_Out_byte_valued : ByteValued Notify_Retrieve_Out := {|
  bv_layout := [U 8; U 8; U 8; U 4; U 4];
  bv_fields x := [x.(nro_notify_unique); x.(nro_nodeid); x.(nro_offset); x.(nro_size);
    x.(nro_padding)];
  bv_of l := {| nro_notify_unique := fld l 0; nro_nodeid := fld l 1; nro_offset := fld l 2;
    nro_size := fld l 3; nro_padding := fld l 4 |};
|}.
#[global] Instance Notify_Retrieve_Out_byte_valued_ok : ByteValuedOk Notify_Retrieve_Out.
Proof. solve_byte_valued. Qed.

Record NotifyRetrieveIn : Set := MkNotifyRetrieveIn {
  nri_dummy1 : Z;
  nri_offset : Z;
  nri_size : Z;
  nri_dummy2 : Z;
  nri_dummy3 : Z;
  nri_dummy4 : Z;
}.

#[global] Instance NotifyRetrieveIn_byte_valued : ByteValued NotifyRetrieveIn := {|
  bv_layout := [U 8; U 8; U 4; U 4; U 8; U 8];
  bv_fields x := [x.(nri_dummy1); x.(nri_offset); x.(nri_size); x.(nri_dummy2); x.(nri_dummy3);
    x.(nri_dummy4)];
  bv_of l := {| nri_dummy1 := fld l 0; nri_offset := fld l 1; nri_size := fld l 2;
    nri_dummy2 := fld l 3; nri_dummy3 := fld l 4; nri_dummy4 := fld l 5 |};
|}.
#[global] Instance NotifyRetrieveIn_byte_valued_ok : ByteValuedOk NotifyRetrieveIn.
Proof. solve_byte_valued. Qed.

Record LseekIn : Set := MkLseekIn {
  ls_fh : Z;
  ls_offset : Z;
  ls_whence : Z;
  ls_padding : Z;
}.

#[global] Instance LseekIn_byte_valued : ByteValued LseekIn := {|
  bv_layout := [U 8; U 8; U 4; U 4];
  bv_fields x := [x.(ls_fh); x.(ls_offset); x.(ls_whence); x.(ls_padding)];
  bv_of l := {| ls_fh := fld l 0; ls_offset := fld l 1; ls_whence := fld l 2;
    ls_padding := fld l 3 |};
|}.
#[global] Instance LseekIn_byte_valued_ok : ByteValuedOk LseekIn.
Proof. solve_byte_valued. Qed.

Record LseekOut : Set := MkLseekOut {
  lso_offset : Z;
}.

#[global] Instance LseekOut_byte_valued : ByteValued LseekOut := {|
  bv_layout := [U 8];
  bv_fields x := [x.(lso_offset)];
  bv_of l := {| lso_offset := fld l 0 |};
|}.
#[global] Instance LseekOut_byte_valued_ok : ByteValuedOk LseekOut.
Proof. solve_byte_valued. Qed.

Record CopyFileRangeIn : Set := MkCopyFileRangeIn {
  cfr_fh_in : Z;
  cfr_offset_in : Z;
  cfr_nodeid_out : Z;
  cfr_fh_out : Z;
  cfr_offset_out : Z;
  cfr_len : Z;
  cfr_flags : Z;
}.

#[global] Instance CopyFileRangeIn_byte_valued : ByteValued CopyFileRangeIn := {|
  bv_layout := [U 8; U 8; U 8; U 8; U 8; U 8; U 8];
  bv_fields x := [x.(cfr_fh_in); x.(cfr_offset_in); x.(cfr_nodeid_out); x.(cfr_fh_out);
    x.(cfr_offset_out); x.(cfr_len); x.(cfr_flags)];
  bv_of l := {| cfr_fh_in := fld l 0; cfr_offset_in := fld l 1; cfr_nodeid_out := fld l 2;
    cfr_fh_out := fld l 3; cfr_offset_out := fld l 4; cfr_len := fld l 5; cfr_flags := fld l 6 |};
|}.
#[global] Instance CopyFileRangeIn_byte_valued_ok : ByteValuedOk CopyFileRangeIn.
Proof. solve_byte_valued. Qed.

Record SetupmappingIn : Set := MkSetupmappingIn {
  sm_fh : Z;
  sm_foffset : Z;
  sm_len : Z;
  sm_flags : Z;
  sm_moffset : Z;
}.

#[global] Instance SetupmappingIn_byte_valued : ByteValued SetupmappingIn := {|
  bv_layout := [U 8; U 8; U 8; U 8; U 8];
  bv_fields x := [x.(sm_fh); x.(sm_foffset); x.(sm_len); x.(sm_flags); x.(sm_moffset)];
  bv_of l := {| sm_fh := fld l 0; sm_foffset := fld l 1; sm_len := fld l 2; sm_flags := fld l 3;
    sm_moffset := fld l 4 |};
|}.
#[global] Instance SetupmappingIn_byte_valued_ok : ByteValuedOk SetupmappingIn.
Proof. solve_byte_valued. Qed.

Record RemovemappingIn : Set := MkRemovemappingIn {
  rm_count : Z;
}.

#[global] Instance RemovemappingIn_byte_valued : ByteValued RemovemappingIn := {|
  bv_layout := [U 4];
  bv_fields x := [x.(rm_count)];
  bv_of l := {| rm_count := fld l 0 |};
|}.
#[global] Instance RemovemappingIn_byte_valued_ok : ByteValuedOk RemovemappingIn.
Proof. solve_byte_valued. Qed.

Record RemovemappingOne : Set := MkRemovemappingOne {
  rmo_moffset : Z;
  rmo_len : Z;
}.

#[global] Instance RemovemappingOne_byte_valued : ByteValued RemovemappingOne := {|
  bv_layout := [U 8; U 8];
  bv_fields x := [x.(rmo_moffset); x.(rmo_len)];
  bv_of l := {| rmo_moffset := fld l 0; rmo_len := fld l 1 |};
|}.
#[global] Instance RemovemappingOne_byte_valued_ok : ByteValuedOk RemovemappingOne.
Proof. solve_byte_valued. Qed.

(** [..Default::default()] and [mem::zeroed()]: every field is zero. *)
Definition zeroed {T : Type} `{ByteValued T} : T := bv_of [].

(** ** [libc::stat64] and [libc::statvfs64] (x86-64 field widths)

    [st_ino], [st_dev], [st_rdev], [st_nlink] are [u64]; [st_mode], [st_uid],
    [st_gid] are [u32]; the others are [i64]. *)

Record stat64 : Set := MkStat64 {
  st_dev : Z;
  st_ino : Z;
  st_nlink : Z;
  st_mode : Z;
  st_uid : Z;
  st_gid : Z;
  st_rdev : Z;
  st_size : Z;
  st_blksize : Z;
  st_blocks : Z;
  st_atime : Z;
  st_atime_nsec : Z;
  st_mtime : Z;
  st_mtime_nsec : Z;
  st_ctime : Z;
  st_ctime_nsec : Z;
}.

Definition stat64_zeroed : stat64 :=
  MkStat64 0 0 0 0 0 0 0 0 0 0 0 0 0 0 0 0.

Record statvfs64 : Set := MkStatvfs64 {
  f_bsize : Z;
  f_frsize : Z;
  f_blocks : Z;
  f_bfree : Z;
  f_bavail : Z;
  f_files : Z;
  f_ffree : Z;
  f_namemax : Z;
}.

Definition statvfs64_zeroed : statvfs64 := MkStatvfs64 0 0 0 0 0 0 0 0.

(** ** Conversions *)

(** [Attr::with_flags] *)
Definition with_flags (st : stat64) (flags : Z) : Attr := {|
  at_ino := st.(st_ino);
  at_size := wrap 64 st.(st_size);
  at_blocks := wrap 64 st.(st_blocks);
  at_atime := wrap 64 st.(st_atime);
  at_mtime := wrap 64 st.(st_mtime);
  at_ctime := wrap 64 st.(st_ctime);
  at_atimensec := wrap 32 st.(st_atime_nsec);
  at_mtimensec := wrap 32 st.(st_mtime_nsec);
  at_ctimensec := wrap 32 st.(st_ctime_nsec);
  at_mode := st.(st_mode);
  at_nlink := wrap 32 st.(st_nlink);
  at_uid := st.(st_uid);
  at_gid := st.(st_gid);
  at_rdev := wrap 32 st.(st_rdev);
  at_blksize := wrap 32 st.(st_blksize);
  at_flags := flags;
|}.

(** [From<stat64> for Attr] *)
Definition Attr_from_stat64 (st : stat64) : Attr := with_flags st 0.

(** [From<Attr> for stat64] *)
Definition stat64_from_Attr (a : Attr) : stat64 := {|
  st_dev := 0;
  st_ino := a.(at_ino);
  st_nlink := a.(at_nlink);
  st_mode := a.(at_mode);
  st_uid := a.(at_uid);
  st_gid := a.(at_gid);
  st_rdev := a.(at_rdev);
  st_size := signed 64 a.(at_size);
  st_blksize := a.(at_blksize);
  st_blocks := signed 64 a.(at_blocks);
  st_atime := signed 64 a.(at_atime);
  st_atime_nsec := a.(at_atimensec);
  st_mtime := signed 64 a.(at_mtime);
  st_mtime_nsec := a.(at_mtimensec);
  st_ctime := signed 64 a.(at_ctime);
  st_ctime_nsec := a.(at_ctimensec);
|}.

(** [From<SetattrIn> for stat64] *)
Definition stat64_from_SetattrIn (s : SetattrIn) : stat64 := {|
  st_dev := 0;
  st_ino := 0;
  st_nlink := 0;
  st_mode := s.(sa_mode);
  st_uid := s.(sa_uid);
  st_gid := s.(sa_gid);
  st_rdev := 0;
  st_size := signed 64 s.(sa_size);
  st_blksize := 0;
  st_blocks := 0;
  st_atime := signed 64 s.(sa_atime);
  st_atime_nsec := s.(sa_atimensec);
  st_mtime := signed 64 s.(sa_mtime);
  st_mtime_nsec := s.(sa_mtimensec);
  st_ctime := signed 64 s.(sa_ctime);
  st_ctime_nsec := s.(sa_ctimensec);
|}.

(** [From<statvfs64> for Kstatfs] *)
Definition Kstatfs_from (st : statvfs64) : Kstatfs := {|
  ks_blocks := st.(f_blocks);
  ks_bfree := st.(f_bfree);
  ks_bavail := st.(f_bavail);
  ks_files := st.(f_files);
  ks_ffree := st.(f_ffree);
  ks_bsize := wrap 32 st.(f_bsize);
  ks_namelen := wrap 32 st.(f_namemax);
  ks_frsize := wrap 32 st.(f_frsize);
  ks_padding := 0;
  ks_spare0 := 0;
  ks_spare1 := 0;
  ks_spare2 := 0;
  ks_spare3 := 0;
  ks_spare4 := 0;
  ks_spare5 := 0;
|}.

Lemma with_flags_fields st flags :
  in_u 64 st.(st_ino) -> in_u 32 st.(st_mode) -> in_u 32 st.(st_uid) ->
  in_u 32 st.(st_gid) -> in_u 32 flags -> struct_ok (with_flags st flags) = true.
Proof.
  intros. unfold struct_ok. cbn.
  repeat match goal with |- context [wrap ?w ?z] =>
    let H := fresh in pose proof (wrap_range w z ltac:(lia)) as H;
    let n := fresh "v" in set (n := wrap w z) in *; clearbody n end.
  unfold in_u in *. cbn in *.
  repeat (apply andb_true_iff; split); rewrite ?Z.leb_le, ?Z.ltb_lt; lia.
Qed.

(** An attribute survives the trip through [stat64] except for its flags,
    which are the second argument of [with_flags]. *)
Lemma with_flags_from_attr a :
  struct_ok a = true -> with_flags (stat64_from_Attr a) a.(at_flags) = a.
Proof.
  destruct a. unfold struct_ok, with_flags. cbn. intros H. zify_bool.
  f_equal; first [apply wrap_signed; unfold in_u; lia | apply wrap_small; unfold in_u; lia].
Qed.
