(* ===== verification/FsTypes.v ===== *)
(** * Values exchanged with a file system ([src/api/filesystem/mod.rs])

    [Entry], [DirEntry], [FileLock], [IoctlData], the xattr replies and
    [Context], with their conversions from and to the wire structures. *)

From S2P Require Import Prelude Std Codec Abi AbiStruct.

(** [std::time::Duration]: whole seconds and nanoseconds below 10^9. *)
Record Duration : Set := MkDuration {
  as_secs : Z;
  subsec_nanos : Z;
}.

Definition Duration_default : Duration := MkDuration 0 0.

Definition duration_ok (d : Duration) : Prop :=
  in_u 64 d.(as_secs) /\ 0 <= d.(subsec_nanos) < 1000000000.

Record Entry : Set := MkEntry {
  en_inode : Z;
  en_generation : Z;
  en_attr : stat64;
  en_attr_flags : Z;
  en_attr_timeout : Duration;
  en_entry_timeout : Duration;
}.

(** [From<Entry> for fuse::EntryOut] *)
Definition EntryOut_from (entry : Entry) : EntryOut := {|
  eo_nodeid := entry.(en_inode);
  eo_generation := entry.(en_generation);
  eo_entry_valid := entry.(en_entry_timeout).(as_secs);
  eo_attr_valid := entry.(en_attr_timeout).(as_secs);
  eo_entry_valid_nsec := entry.(en_entry_timeout).(subsec_nanos);
  eo_attr_valid_nsec := entry.(en_attr_timeout).(subsec_nanos);
  eo_attr := with_flags entry.(en_attr) entry.(en_attr_flags);
|}.

Definition Entry_default : Entry := {|
  en_inode := 0;
  en_generation := 0;
  en_attr := stat64_zeroed;
  en_attr_flags := 0;
  en_attr_timeout := Duration_default;
  en_entry_timeout := Duration_default;
|}.

Record DirEntry : Set := MkDirEntry {
  d_ino : Z;
  d_offset : Z;
  d_type : Z;
  d_name : bytes;
}.

(** [FileLock] of the API (the wire structure is [AbiStruct.FileLock]). *)
Record FileLock : Set := MkFileLock {
  lk_start : Z;
  lk_end : Z;
  lk_lock_type : Z;
  lk_pid : Z;
}.

(** [From<fuse::FileLock> for FileLock] and back. *)
Definition FileLock_from_fuse (l : AbiStruct.FileLock) : FileLock := {|
  lk_start := l.(fl_start);
  lk_end := l.(fl_end);
  lk_lock_type := l.(fl_type);
  lk_pid := l.(fl_pid);
|}.

Definition FileLock_to_fuse (l : FileLock) : AbiStruct.FileLock := {|
  fl_start := l.(lk_start);
  fl_end := l.(lk_end);
  fl_type := l.(lk_lock_type);
  fl_pid := l.(lk_pid);
|}.

Record IoctlData : Set := MkIoctlData {
  ioctl_result : Z;
  ioctl_data : option bytes;
}.

Inductive GetxattrReply : Set :=
| GxValue (value : bytes)
| GxCount (count : Z).

Inductive ListxattrReply : Set :=
| LxNames (names : bytes)
| LxCount (count : Z).

Record Context : Set := MkContext {
  cx_uid : Z;
  cx_gid : Z;
  cx_pid : Z;
}.

Definition Context_new : Context := MkContext 0 0 0.

(** [From<&fuse::InHeader> for Context] *)
Definition Context_from (source : InHeader) : Context := {|
  cx_uid := source.(ih_uid);
  cx_gid := source.(ih_gid);
  cx_pid := signed 32 source.(ih_pid);
|}.

(** The fields of an entry are in the ranges of their Rust types. *)
Definition entry_ok (e : Entry) : Prop :=
  in_u 64 e.(en_inode) /\ in_u 64 e.(en_generation) /\ in_u 32 e.(en_attr_flags) /\
  in_u 64 e.(en_attr).(st_ino) /\ in_u 32 e.(en_attr).(st_mode) /\
  in_u 32 e.(en_attr).(st_uid) /\ in_u 32 e.(en_attr).(st_gid) /\
  duration_ok e.(en_attr_timeout) /\ duration_ok e.(en_entry_timeout).

Lemma FileLock_from_to l : FileLock_from_fuse (FileLock_to_fuse l) = l.
Proof. by destruct l. Qed.

Lemma EntryOut_from_ok e : entry_ok e -> struct_ok (EntryOut_from e) = true.
Proof.
  intros (? & ? & ? & ? & ? & ? & ? & [? ?] & [? ?]).
  assert (struct_ok (with_flags e.(en_attr) e.(en_attr_flags)) = true) as Ha
    by by apply with_flags_fields.
  unfold struct_ok in *. cbn -[bv_fields bv_layout] in *.
  unfold bv_layout, bv_fields at 1, EntryOut_byte_valued.
  unfold in_u in *. cbn [app fields_ok field_ok EntryOut_from eo_nodeid eo_generation eo_entry_valid
    eo_attr_valid eo_entry_valid_nsec eo_attr_valid_nsec eo_attr].
  rewrite !andb_true_iff, !Z.leb_le, !Z.ltb_lt.
  repeat split; try (cbn; lia). apply Ha.
Qed.
