(* ===== verification/FileSystem.v ===== *)
(** * The [FileSystem] trait ([src/api/filesystem/sync_io.rs])

    The interface between the server and a file system.  The methods that
    take values and return a value are the constructors of [FsOp], indexed by
    the type of their result; the ones that work on a buffer or call back are
    methods of the class.  [default_op] and its companions are the trait's
    default bodies.  [Inode] and [Handle] convert from and to [u64] and are
    integers here; methods of the [virtiofs] feature are left out. *)

From S2P Require Import Prelude Std Abi AbiStruct FsTypes.

Inductive FsOp : Set -> Type :=
| op_init (capable : Z) : FsOp Z
| op_destroy : FsOp unit
| op_lookup (ctx : Context) (parent : Z) (name : CStr) : FsOp Entry
| op_forget (ctx : Context) (inode count : Z) : FsOp unit
| op_batch_forget (ctx : Context) (requests : list (Z * Z)) : FsOp unit
| op_getattr (ctx : Context) (inode : Z) (handle : option Z) : FsOp (stat64 * Duration)
| op_setattr (ctx : Context) (inode : Z) (attr : stat64) (handle : option Z) (valid : Z)
    : FsOp (stat64 * Duration)
| op_readlink (ctx : Context) (inode : Z) : FsOp bytes
| op_symlink (ctx : Context) (linkname : CStr) (parent : Z) (name : CStr) : FsOp Entry
| op_mknod (ctx : Context) (inode : Z) (name : CStr) (mode rdev umask : Z) : FsOp Entry
| op_mkdir (ctx : Context) (parent : Z) (name : CStr) (mode umask : Z) : FsOp Entry
| op_unlink (ctx : Context) (parent : Z) (name : CStr) : FsOp unit
| op_rmdir (ctx : Context) (parent : Z) (name : CStr) : FsOp unit
| op_rename (ctx : Context) (olddir : Z) (oldname : CStr) (newdir : Z) (newname : CStr) (flags : Z)
    : FsOp unit
| op_link (ctx : Context) (inode newparent : Z) (newname : CStr) : FsOp Entry
| op_open (ctx : Context) (inode flags fuse_flags : Z) : FsOp (option Z * Z * option Z)
| op_create (ctx : Context) (parent : Z) (name : CStr) (args : CreateIn)
    : FsOp (Entry * option Z * Z * option Z)
| op_flush (ctx : Context) (inode handle lock_owner : Z) : FsOp unit
| op_fsync (ctx : Context) (inode : Z) (datasync : bool) (handle : Z) : FsOp unit
| op_fallocate (ctx : Context) (inode handle mode offset length : Z) : FsOp unit
| op_release (ctx : Context) (inode flags handle : Z) (flush flock_release : bool)
    (lock_owner : option Z) : FsOp unit
| op_statfs (ctx : Context) (inode : Z) : FsOp statvfs64
| op_setxattr (ctx : Context) (inode : Z) (name : CStr) (value : bytes) (flags : Z) : FsOp unit
| op_getxattr (ctx : Context) (inode : Z) (name : CStr) (size : Z) : FsOp GetxattrReply
| op_listxattr (ctx : Context) (inode size : Z) : FsOp ListxattrReply
| op_removexattr (ctx : Context) (inode : Z) (name : CStr) : FsOp unit
| op_opendir (ctx : Context) (inode flags : Z) : FsOp (option Z * Z)
| op_fsyncdir (ctx : Context) (inode : Z) (datasync : bool) (handle : Z) : FsOp unit
| op_releasedir (ctx : Context) (inode flags handle : Z) : FsOp unit
| op_access (ctx : Context) (inode mask : Z) : FsOp unit
| op_lseek (ctx : Context) (inode handle offset whence : Z) : FsOp Z
| op_getlk (ctx : Context) (inode handle owner : Z) (lock : FileLock) (flags : Z) : FsOp FileLock
| op_setlk (ctx : Context) (inode handle owner : Z) (lock : FileLock) (flags : Z) : FsOp unit
| op_setlkw (ctx : Context) (inode handle owner : Z) (lock : FileLock) (flags : Z) : FsOp unit
| op_ioctl (ctx : Context) (inode handle flags cmd : Z) (data : IoctlData) (out_size : Z)
    : FsOp IoctlData
| op_bmap (ctx : Context) (inode block blocksize : Z) : FsOp Z
| op_poll (ctx : Context) (inode handle khandle flags events : Z) : FsOp Z
| op_notify_reply : FsOp unit.

(** A directory callback: [FnMut(DirEntry) -> io::Result<usize>] over the
    state [X] it captures. *)
Abbreviation add_entry_t X := (DirEntry -> prog X io_error Z).
Abbreviation add_entry_plus_t X := (DirEntry -> Entry -> prog X io_error Z).

(** [read] gets the number of bytes the reply can take and gives back the bytes
    it put in the reply; [write] gets the bytes left in the request. *)
Class FileSystem (F : Type) : Type := {
  fs_op : forall A : Set, FsOp A -> prog F io_error A;
  fs_read : forall (ctx : Context) (inode handle available size offset : Z)
    (lock_owner : option Z) (flags : Z), F -> F * (bytes * io_result Z);
  fs_write : forall (ctx : Context) (inode handle : Z) (data : bytes) (size offset : Z)
    (lock_owner : option Z) (delayed_write : bool) (flags fuse_flags : Z), prog F io_error Z;
  fs_readdir : forall (X : Type) (ctx : Context) (inode handle size offset : Z)
    (add_entry : add_entry_t X), prog (F * X) io_error unit;
  fs_readdirplus : forall (X : Type) (ctx : Context) (inode handle size offset : Z)
    (add_entry : add_entry_plus_t X), prog (F * X) io_error unit;
  fs_id_remap : prog (F * Context) io_error unit;
}.
#[global] Hint Mode FileSystem ! : typeclass_instances.
Arguments fs_op {F _ A}.
Arguments fs_readdir {F _ X}.
Arguments fs_readdirplus {F _ X}.

(** ** Default bodies *)

Definition default_statfs : statvfs64 := {|
  f_bsize := 512;
  f_frsize := 0;
  f_blocks := 0;
  f_bfree := 0;
  f_bavail := 0;
  f_files := 0;
  f_ffree := 0;
  f_namemax := 255;
|}.

(** [batch_forget] calls the implementor's [forget] on each pair. *)
Fixpoint default_batch_forget {F} (forget : Context -> Z -> Z -> prog F io_error unit)
    (ctx : Context) (requests : list (Z * Z)) : prog F io_error unit :=
  match requests with
  | [] => mret tt
  | (inode, count) :: requests' =>
    _ ← forget ctx inode count;
    default_batch_forget forget ctx requests'
  end.

Definition default_op {F} (forget : Context -> Z -> Z -> prog F io_error unit)
    (A : Set) (op : FsOp A) : prog F io_error A :=
  match op in FsOp A return prog F io_error A with
  | op_init capable => mret empty_flags
  | op_destroy => mret tt
  | op_forget ctx inode count => mret tt
  | op_batch_forget ctx requests => default_batch_forget forget ctx requests
  | op_open ctx inode flags fuse_flags => mret (None, empty_flags, None)
  | op_statfs ctx inode => mret default_statfs
  | op_opendir ctx inode flags => mret (None, empty_flags)
  | op_ioctl ctx inode handle flags cmd data out_size => fail (Os ENOTTY)
  | _ => fail (Os ENOSYS)
  end.

Definition default_read {F} (ctx : Context) (inode handle available size offset : Z)
    (lock_owner : option Z) (flags : Z) (f : F) : F * (bytes * io_result Z) :=
  (f, ([], Err (Os ENOSYS))).

Definition default_write {F} (ctx : Context) (inode handle : Z) (data : bytes) (size offset : Z)
    (lock_owner : option Z) (delayed_write : bool) (flags fuse_flags : Z) : prog F io_error Z :=
  fail (Os ENOSYS).

Definition default_readdir {F X} (ctx : Context) (inode handle size offset : Z)
    (add_entry : add_entry_t X) : prog (F * X) io_error unit := fail (Os ENOSYS).

Definition default_readdirplus {F X} (ctx : Context) (inode handle size offset : Z)
    (add_entry : add_entry_plus_t X) : prog (F * X) io_error unit := fail (Os ENOSYS).

Definition default_id_remap {F} : prog (F * Context) io_error unit := mret tt.

(** ** What the server relies on

    No method panics; [read] fits the space it is given and returns the number
    of bytes it wrote; a directory scan touches the state of the callback only
    through the callback. *)

Definition no_panic {S E A} (m : prog S E A) : Prop := forall s, (m s).2 <> Panic.

(** [m] reaches its callback state only through [step], so it keeps every
    property that [step] keeps. *)
Definition keeps {F X B} (step : B -> prog X io_error Z) (m : prog (F * X) io_error unit) : Prop :=
  forall (P : X -> Prop),
    (forall b x, P x -> P (step b x).1 /\ (step b x).2 <> Panic) ->
    forall f x, P x -> P (m (f, x)).1.2 /\ (m (f, x)).2 <> Panic.

Class FileSystemOk (F : Type) `{FileSystem F} : Prop := {
  fs_op_no_panic : forall (A : Set) (op : FsOp A), no_panic (S := F) (fs_op op);
  fs_read_ok : forall ctx inode handle available size offset lock_owner flags (f : F),
    0 <= available ->
    let '(_, (data, res)) := fs_read ctx inode handle available size offset lock_owner flags f in
    zlen data <= available /\
    match res with Ok n => n = zlen data | Err _ => True | Panic => False end;
  fs_write_no_panic : forall ctx inode handle data size offset lock_owner delayed flags fuse_flags,
    no_panic (S := F) (fs_write ctx inode handle data size offset lock_owner delayed flags fuse_flags);
  fs_readdir_keeps : forall X ctx inode handle size offset (add_entry : add_entry_t X),
    keeps (F := F) add_entry (fs_readdir ctx inode handle size offset add_entry);
  fs_readdirplus_keeps : forall X ctx inode handle size offset (add_entry : add_entry_plus_t X),
    keeps (F := F) (fun de => add_entry de.1 de.2) (fs_readdirplus ctx inode handle size offset add_entry);
  fs_id_remap_no_panic : no_panic (S := F * Context) fs_id_remap;
}.

(** ** Lemmas on the defaults *)

Lemma no_panic_mret {S E A} (a : A) : no_panic (mret a : prog S E A).
Proof. by intros s. Qed.

Lemma no_panic_fail {S E A} (e : E) : no_panic (fail e : prog S E A).
Proof. by intros s. Qed.

Lemma no_panic_bind {S E A B} (m : prog S E A) (k : A -> prog S E B) :
  no_panic m -> (forall a, no_panic (k a)) -> no_panic (m ≫= k).
Proof.
  intros Hm Hk s. specialize (Hm s). unfold mbind, prog_mbind, prog_bind.
  destruct (m s) as [s' [a|e|]]; cbn in *; [apply Hk|done|done].
Qed.

#[export] Hint Resolve no_panic_mret no_panic_fail no_panic_bind : fuse.

Lemma default_batch_forget_no_panic {F} (forget : Context -> Z -> Z -> prog F io_error unit) ctx reqs :
  (forall i c, no_panic (forget ctx i c)) -> no_panic (default_batch_forget forget ctx reqs).
Proof.
  intros Hf. induction reqs as [|[i c] reqs IH]; cbn; auto with fuse.
Qed.

Lemma default_op_no_panic {F} (forget : Context -> Z -> Z -> prog F io_error unit) (A : Set) (op : FsOp A) :
  (forall ctx i c, no_panic (forget ctx i c)) -> no_panic (default_op forget A op).
Proof.
  intros Hf. destruct op; cbn; auto with fuse. by apply default_batch_forget_no_panic.
Qed.
