(* ===== verification/Transport.v ===== *)
(** * Request buffers and the reader ([src/transport/mod.rs], [src/common/file_buf.rs])

    [IoBuffers] is a queue of volatile slices (memory of vm-memory, an
    interface here) with the operations the reader and the virtio writer are
    made of; [Reader] decodes a request from it.  Each operation is related to
    the flat sequence of addresses the queue stands for. *)

From S2P Require Import Prelude Std Codec Lib.

(** ** Volatile slices

    [VolatileSlice] of vm-memory: a pointer and a length; [subslice] and
    [offset] fail out of bounds. *)

Class VolatileSlice (V : Type) : Type := {
  vs_ptr : V -> Z;
  vs_len : V -> Z;
  vs_subslice : V -> Z -> Z -> option V;
  vs_offset : V -> Z -> option V;
}.
#[global] Hint Mode VolatileSlice ! : typeclass_instances.

Class VolatileSliceOk (V : Type) `{VolatileSlice V} : Prop := {
  vs_len_nonneg : forall v : V, 0 <= vs_len v;
  vs_subslice_ok : forall (v : V) off n,
    0 <= off -> 0 <= n -> off + n <= vs_len v ->
    exists v', vs_subslice v off n = Some v' /\ vs_ptr v' = vs_ptr v + off /\ vs_len v' = n;
  vs_offset_ok : forall (v : V) n,
    0 <= n <= vs_len v ->
    exists v', vs_offset v n = Some v' /\ vs_ptr v' = vs_ptr v + n /\ vs_len v' = vs_len v - n;
}.

(** [FileVolatileSlice]: the pointer and length handed to file I/O. *)
Record FileVolatileSlice : Set := MkFileVolatileSlice {
  fvs_addr : Z;
  fvs_size : Z;
}.

Definition from_raw_ptr (addr size : Z) : FileVolatileSlice := MkFileVolatileSlice addr size.

Definition from_volatile_slice {V} `{VolatileSlice V} (s : V) : FileVolatileSlice :=
  from_raw_ptr (vs_ptr s) (vs_len s).

(** ** [IoBuffers] *)

Record IoBuffers (V : Type) : Type := MkIoBuffers {
  buffers : list V;
  bytes_consumed : Z;
}.
Arguments MkIoBuffers {V}.
Arguments buffers {V}.
Arguments bytes_consumed {V}.

Section io_buffers.
Context {V : Type} `{VS : VolatileSlice V}.

Definition IoBuffers_default : IoBuffers V := MkIoBuffers [] 0.

Definition IoBuffers_available_bytes (b : IoBuffers V) : Z :=
  foldl (fun count buf => wrap 64 (count + vs_len buf)) 0 b.(buffers).

(** The loop shared by [allocate_file_volatile_slice] and [mark_dirty]: the
    slices that cover the first [rem] bytes, the last one truncated. *)
Fixpoint local_bufs (bufs : list V) (rem : Z) : io_result (list V) :=
  match bufs with
  | [] => Ok []
  | buf :: bufs' =>
    if rem =? 0 then Ok []
    else
      local_buf ← (if rem <? vs_len buf then unwrap (vs_subslice buf 0 rem) else Ok buf);
      rest ← local_bufs bufs' (rem - vs_len local_buf);
      Ok (local_buf :: rest)
  end.

Definition allocate_file_volatile_slice (b : IoBuffers V) (count : Z) : io_result (list FileVolatileSlice) :=
  outcome_map (map from_volatile_slice) (local_bufs b.(buffers) count).

(** [mark : ptr -> len -> X -> X] is [bitmap().mark_dirty] of one slice. *)
Definition mark_dirty {X} (mark : Z -> Z -> X -> X) (b : IoBuffers V) (count : Z) (x : X) : io_result X :=
  outcome_map (foldl (fun x v => mark (vs_ptr v) (vs_len v) x) x) (local_bufs b.(buffers) count).

Fixpoint pop_used (bufs : list V) (rem : Z) : io_result (list V) :=
  match bufs with
  | [] => Ok []
  | buf :: bufs' =>
    if rem <? vs_len buf then
      buf' ← unwrap (vs_offset buf rem);
      Ok (buf' :: bufs')
    else pop_used bufs' (rem - vs_len buf)
  end.

Definition mark_used (n : Z) : prog (IoBuffers V) io_error unit := fun b =>
  match checked_add b.(bytes_consumed) n with
  | None => (b, Err (Simple InvalidData))
  | Some total_bytes_consumed =>
    match pop_used b.(buffers) n with
    | Ok bufs => (MkIoBuffers bufs total_bytes_consumed, Ok tt)
    | Err e => (b, Err e)
    | Panic => (b, Panic)
    end
  end.

(** [consume]: [f] works on the slices of at most [count] bytes and on a state
    [X] of its own, and says how many bytes it used. *)
Definition consume {X} (mark : option (Z -> Z -> X -> X)) (count : Z)
    (f : list FileVolatileSlice -> prog X io_error Z) : prog (IoBuffers V * X) io_error Z :=
  fun '(b, x) =>
    match allocate_file_volatile_slice b count with
    | Ok [] => ((b, x), Ok 0)
    | Ok bufs =>
      match f bufs x with
      | (x1, Ok n) =>
        match match mark with
              | Some m => mark_dirty m b n x1
              | None => Ok x1
              end with
        | Ok x2 =>
          let '(b', r) := mark_used n b in ((b', x2), outcome_map (fun _ => n) r)
        | Err e => ((b, x1), Err e)
        | Panic => ((b, x1), Panic)
        end
      | (x1, Err e) => ((b, x1), Err e)
      | (x1, Panic) => ((b, x1), Panic)
      end
    | Err e => ((b, x), Err e)
    | Panic => ((b, x), Panic)
    end.

Definition consume_for_read {X} (count : Z) (f : list FileVolatileSlice -> prog X io_error Z)
  : prog (IoBuffers V * X) io_error Z := consume None count f.

(** The closure of [split_at]: the index of the slice that holds byte [rem],
    and what is left of [rem] there (or after all slices). *)
Fixpoint split_position (bufs : list V) (rem : Z) : option nat * Z :=
  match bufs with
  | [] => (None, rem)
  | buf :: bufs' =>
    if rem <? vs_len buf then (Some 0%nat, rem)
    else let '(pos, r) := split_position bufs' (rem - vs_len buf) in (S <$> pos, r)
  end.

Definition IoBuffers_split_at (offset : Z) : prog (IoBuffers V) TransportError (IoBuffers V) := fun b =>
  let '(pos, rem) := split_position b.(buffers) offset in
  match pos with
  | Some at_ =>
    let self := take at_ b.(buffers) in
    let other := drop at_ b.(buffers) in
    if 0 <? rem then
      match other with
      | [] => (MkIoBuffers self b.(bytes_consumed), Panic)
      | front :: other' =>
        match vs_subslice front 0 rem with
        | None => (MkIoBuffers self b.(bytes_consumed), Err VolatileMemoryError)
        | Some head =>
          let self' := self ++ [head] in
          match vs_offset front rem with
          | None => (MkIoBuffers self' b.(bytes_consumed), Err VolatileMemoryError)
          | Some tail =>
            (MkIoBuffers self' b.(bytes_consumed), Ok (MkIoBuffers (tail :: other') 0))
          end
        end
      end
    else (MkIoBuffers self b.(bytes_consumed), Ok (MkIoBuffers other 0))
  | None =>
    if rem =? 0 then (b, Ok (MkIoBuffers [] 0)) else (b, Err (SplitOutOfBounds offset))
  end.

End io_buffers.

(** ** [Reader]

    [mem] is the memory the slices point into; it does not change while a
    request is decoded. *)

Record Reader (V : Type) : Type := MkReader {
  r_buffers : IoBuffers V;
}.
Arguments MkReader {V}.
Arguments r_buffers {V}.

(** The bytes behind a slice. *)
Definition load (mem : Z -> Z) (s : FileVolatileSlice) : bytes :=
  map mem (seqZ s.(fvs_addr) s.(fvs_size)).

(** The copy loop of [Reader::read]: [rem] bytes of the destination are left. *)
Fixpoint copy_out (mem : Z -> Z) (bufs : list FileVolatileSlice) (rem : Z) : bytes :=
  match bufs with
  | [] => []
  | buf :: bufs' =>
    let copy_len := Z.min rem buf.(fvs_size) in
    load mem (from_raw_ptr buf.(fvs_addr) copy_len) ++ copy_out mem bufs' (rem - copy_len)
  end.

Section reader.
Context {V : Type} `{VS : VolatileSlice V}.

Definition Reader_default : Reader V := MkReader IoBuffers_default.

(** Run an operation of the buffers that has a state of its own. *)
Definition with_buffers {X A} (m : prog (IoBuffers V * X) io_error A) (r : Reader V) (x : X)
  : Reader V * X * io_result A :=
  let '((b, x'), o) := m (r.(r_buffers), x) in (MkReader b, x', o).

Definition Reader_available_bytes (r : Reader V) : Z := IoBuffers_available_bytes r.(r_buffers).
Definition Reader_bytes_read (r : Reader V) : Z := r.(r_buffers).(bytes_consumed).

Definition Reader_split_at (offset : Z) : prog (Reader V) TransportError (Reader V) := fun r =>
  let '(b, o) := IoBuffers_split_at offset r.(r_buffers) in (MkReader b, outcome_map MkReader o).

(** [Reader::read_to] and [Reader::read_to_at]: [write_vectored] is the
    destination's [write_vectored_volatile] (resp. [_at_volatile] at [off]). *)
Definition Reader_read_to {X} (write_vectored : list FileVolatileSlice -> prog X io_error Z)
    (count : Z) : Reader V -> X -> Reader V * X * io_result Z :=
  with_buffers (consume_for_read count write_vectored).

Definition Reader_read_to_at {X} (write_vectored_at : Z -> list FileVolatileSlice -> prog X io_error Z)
    (count off : Z) : Reader V -> X -> Reader V * X * io_result Z :=
  with_buffers (consume_for_read count (write_vectored_at off)).

Context (mem : Z -> Z).

(** [io::Read::read] into a buffer of [n] bytes; the bytes copied are the
    result, their number is what Rust returns. *)
Definition Reader_read (n : Z) : prog (Reader V) io_error bytes := fun r =>
  let '(r', out, o) :=
    with_buffers (consume_for_read n (fun bufs _ => let l := copy_out mem bufs n in (l, Ok (zlen l))))
                 r [] in
  (r', outcome_map (fun _ => out) o).

(** [io::Read::read_exact] of the standard library. *)
Fixpoint read_exact_loop (fuel : nat) (n : Z) : prog (Reader V) io_error bytes :=
  if n =? 0 then mret []
  else match fuel with
  | O => fail (Simple UnexpectedEof)
  | S fuel' => fun r =>
    match Reader_read n r with
    | (r', Ok []) => (r', Err (Simple UnexpectedEof))
    | (r', Ok l) => (rest ← read_exact_loop fuel' (n - zlen l); mret (l ++ rest)) r'
    | (r', Err e) =>
      match error_kind e with
      | Interrupted => read_exact_loop fuel' n r'
      | _ => (r', Err e)
      end
    | (r', Panic) => (r', Panic)
    end
  end.

(** Each round that goes on copies at least one byte (reading memory is never
    interrupted), so [n + 1] rounds are enough. *)
Definition read_exact (n : Z) : prog (Reader V) io_error bytes :=
  read_exact_loop (S (Z.to_nat n)) n.

Definition read_obj (T : Type) `{ByteValued T} : prog (Reader V) io_error T :=
  buf ← read_exact (size_of T);
  mret (from_slice buf).

End reader.
