(* ===== verification/TransportProps.v ===== *)
(** * The request buffers as a flat byte stream

    [flat] is the sequence of addresses a queue of slices stands for.
    Allocation takes a prefix of it, consuming drops one, splitting cuts it;
    the reader returns exactly the bytes at those addresses, in order. *)

From S2P Require Import Prelude Std Codec Lib Transport.

Section flat.
Context {V : Type} {VS : VolatileSlice V} {VO : VolatileSliceOk V}.

Definition span (v : V) : list Z := seqZ (vs_ptr v) (vs_len v).
Definition flat (bufs : list V) : list Z := concat (map span bufs).
Definition fspan (s : FileVolatileSlice) : list Z := seqZ s.(fvs_addr) s.(fvs_size).
Definition fflat (bufs : list FileVolatileSlice) : list Z := concat (map fspan bufs).

Lemma zlen_span v : zlen (span v) = vs_len v.
Proof. unfold span, zlen. rewrite length_seqZ. pose proof (vs_len_nonneg v). lia. Qed.

Lemma zlen_flat_cons v bufs : zlen (flat (v :: bufs)) = vs_len v + zlen (flat bufs).
Proof. unfold flat. cbn. by rewrite zlen_app, zlen_span. Qed.

Lemma fflat_map bufs : fflat (map from_volatile_slice bufs) = flat bufs.
Proof. induction bufs as [|v bufs IH]; [done|]. cbn. by f_equal. Qed.

Lemma span_split v n v1 v2 :
  0 <= n <= vs_len v ->
  vs_ptr v1 = vs_ptr v + 0 -> vs_len v1 = n ->
  vs_ptr v2 = vs_ptr v + n -> vs_len v2 = vs_len v - n ->
  span v = span v1 ++ span v2.
Proof.
  intros Hn Hp1 Hl1 Hp2 Hl2. unfold span. rewrite Hp1, Hl1, Hp2, Hl2, Z.add_0_r.
  rewrite <- seqZ_app by lia. f_equal. lia.
Qed.

(** Both halves of a slice cut inside its bounds. *)
Lemma slice_cut v n :
  0 <= n <= vs_len v ->
  exists v1 v2, vs_subslice v 0 n = Some v1 /\ vs_offset v n = Some v2 /\
    zlen (span v1) = n /\ span v = span v1 ++ span v2.
Proof.
  intros Hn. destruct (vs_subslice_ok v 0 n) as (v1 & H1 & Hp1 & Hl1); [lia..|].
  destruct (vs_offset_ok v n) as (v2 & H2 & Hp2 & Hl2); [lia|].
  exists v1, v2. rewrite zlen_span. split_and!; try done. by apply (span_split v n).
Qed.

(** The slices handed out for [rem] bytes are the first [rem] bytes, and
    [subslice] never fails. *)
Lemma local_bufs_spec bufs rem :
  0 <= rem ->
  exists ls, local_bufs bufs rem = Ok ls /\ flat ls = take (Z.to_nat rem) (flat bufs).
Proof.
  revert rem. induction bufs as [|v bufs IH]; intros rem Hrem; cbn [local_bufs].
  { exists []. unfold flat. cbn. by rewrite take_nil. }
  destruct (Z.eqb_spec rem 0) as [->|Hnz]; [by exists []|].
  destruct (Z.ltb_spec rem (vs_len v)) as [Hlt|Hge].
  - destruct (slice_cut v rem) as (v1 & v2 & Hs & _ & Hl & Hspan); [lia|].
    rewrite Hs. cbn. rewrite zlen_span in Hl.
    destruct (IH (rem - vs_len v1)) as (ls & Hls & Hflat); [lia|].
    rewrite Hls. exists (v1 :: ls). split; [done|].
    unfold flat in *. cbn. rewrite Hspan, <- app_assoc, take_Z_len by (by rewrite zlen_span).
    rewrite Hflat, Hl, Z.sub_diag. cbn. by rewrite take_0, app_nil_r.
  - cbn. destruct (IH (rem - vs_len v)) as (ls & Hls & Hflat); [lia|].
    rewrite Hls. exists (v :: ls). split; [done|].
    unfold flat in *. cbn. rewrite take_Z_app by (rewrite zlen_span; lia).
    by rewrite zlen_span, Hflat.
Qed.

Lemma pop_used_spec bufs rem :
  0 <= rem ->
  exists bufs', pop_used bufs rem = Ok bufs' /\ flat bufs' = drop (Z.to_nat rem) (flat bufs).
Proof.
  revert rem. induction bufs as [|v bufs IH]; intros rem Hrem; cbn [pop_used].
  { exists []. unfold flat. cbn. by rewrite drop_nil. }
  destruct (Z.ltb_spec rem (vs_len v)) as [Hlt|Hge].
  - destruct (slice_cut v rem) as (v1 & v2 & _ & Ho & Hl & Hspan); [lia|].
    rewrite Ho. exists (v2 :: bufs). split; [done|].
    unfold flat. cbn. by rewrite Hspan, <- app_assoc, drop_Z_len.
  - destruct (IH (rem - vs_len v)) as (bufs' & Hp & Hflat); [lia|].
    exists bufs'. split; [done|]. rewrite Hflat. unfold flat. cbn.
    rewrite drop_Z_app by (rewrite zlen_span; lia). by rewrite zlen_span.
Qed.

Lemma allocate_spec b count :
  0 <= count ->
  exists ls, allocate_file_volatile_slice b count = Ok ls /\
    fflat ls = take (Z.to_nat count) (flat b.(buffers)).
Proof.
  intros Hc. unfold allocate_file_volatile_slice.
  destruct (local_bufs_spec b.(buffers) count Hc) as (ls & -> & Hflat).
  exists (map from_volatile_slice ls). by rewrite fflat_map.
Qed.

Lemma mark_used_spec b n :
  0 <= n -> b.(bytes_consumed) + n <= U64_MAX ->
  exists bufs', mark_used n b = (MkIoBuffers bufs' (b.(bytes_consumed) + n), Ok tt) /\
    flat bufs' = drop (Z.to_nat n) (flat b.(buffers)).
Proof.
  intros Hn Hu. unfold mark_used, checked_add.
  destruct (Z.leb_spec (b.(bytes_consumed) + n) U64_MAX); [|lia].
  destruct (pop_used_spec b.(buffers) n Hn) as (bufs' & -> & Hflat). by exists bufs'.
Qed.

(** ** Consuming *)

(** What a closure given to [consume] promises: it uses no more bytes than it
    is given. *)
Definition consumer_ok {X} (f : list FileVolatileSlice -> prog X io_error Z) : Prop :=
  forall bufs x, match f bufs x with
                 | (_, Ok n) => 0 <= n <= zlen (fflat bufs)
                 | _ => True
                 end.

Definition buffers_ok (b : IoBuffers V) : Prop :=
  0 <= b.(bytes_consumed) /\ b.(bytes_consumed) + zlen (flat b.(buffers)) <= U64_MAX.

Lemma consume_cases {X} b (x : X) count f :
  0 <= count -> buffers_ok b -> consumer_ok f ->
  exists bufs, fflat bufs = take (Z.to_nat count) (flat b.(buffers)) /\
  match consume_for_read count f (b, x) with
  | ((b', x'), Ok n) =>
      flat b'.(buffers) = drop (Z.to_nat n) (flat b.(buffers)) /\
      b'.(bytes_consumed) = b.(bytes_consumed) + n /\
      if bool_decide (bufs = []) then n = 0 /\ x' = x else f bufs x = (x', Ok n)
  | ((b', x'), Err e) => b' = b /\ f bufs x = (x', Err e)
  | ((b', x'), Panic) => b' = b /\ f bufs x = (x', Panic)
  end.
Proof.
  intros Hc [Hb0 Hb] Hf. unfold consume_for_read, consume.
  destruct (allocate_spec b count Hc) as (bufs & Hal & Hflat). rewrite Hal.
  exists bufs. split; [done|]. destruct bufs as [|s bufs].
  { rewrite bool_decide_true by done. rewrite drop_0. split_and!; [done|lia|done|done]. }
  specialize (Hf (s :: bufs) x). destruct (f (s :: bufs) x) as [x' [n|e|]] eqn:E; [|done|done].
  assert (n <= zlen (flat b.(buffers))).
  { rewrite Hflat in Hf. unfold zlen in *. rewrite length_take in Hf. lia. }
  destruct (mark_used_spec b n) as (bufs' & -> & Hdrop); [lia..|].
  rewrite bool_decide_false by done. by split_and!.
Qed.

Lemma available_bytes_flat b : buffers_ok b -> IoBuffers_available_bytes b = zlen (flat b.(buffers)).
Proof.
  intros [H0 Hb]. unfold IoBuffers_available_bytes.
  assert (zlen (flat b.(buffers)) <= U64_MAX) as Hle by lia. clear H0 Hb.
  enough (forall acc, 0 <= acc -> acc + zlen (flat b.(buffers)) <= U64_MAX ->
    foldl (fun count buf => wrap 64 (count + vs_len buf)) acc b.(buffers)
    = acc + zlen (flat b.(buffers))) as Hgen by (apply (Hgen 0); lia).
  clear Hle. induction b.(buffers) as [|v bufs IH]; intros acc Hacc Hle; cbn [foldl].
  - change (zlen (flat [])) with 0. lia.
  - rewrite zlen_flat_cons in *. pose proof (vs_len_nonneg v). pose proof (zlen_nonneg (flat bufs)).
    rewrite wrap_small by (unfold in_u, U64_MAX in *; lia). rewrite IH by lia. lia.
Qed.

(** ** Splitting *)

Lemma split_position_spec bufs off :
  0 <= off ->
  match split_position bufs off with
  | (Some at_, rem) =>
      exists v, bufs !! at_ = Some v /\ 0 <= rem < vs_len v /\ off = zlen (flat (take at_ bufs)) + rem
  | (None, rem) => 0 <= rem /\ off = zlen (flat bufs) + rem
  end.
Proof.
  revert off. induction bufs as [|v bufs IH]; intros off Hoff; cbn [split_position].
  { split; [done|]. change (zlen (flat [])) with 0. lia. }
  destruct (Z.ltb_spec off (vs_len v)) as [Hlt|Hge].
  { exists v. split_and!; [done|lia|lia|]. change (zlen (flat (take 0 (v :: bufs)))) with 0. lia. }
  assert (0 <= off - vs_len v) as Hr by lia. specialize (IH _ Hr).
  destruct (split_position bufs (off - vs_len v)) as [[at_|] rem]; cbn [fmap option_fmap option_map].
  - destruct IH as (w & Hat & Hrem & Hoff'). exists w. split_and!; [done|lia..|].
    cbn [take]. rewrite zlen_flat_cons. lia.
  - rewrite zlen_flat_cons. lia.
Qed.

Lemma flat_app b1 b2 : flat (b1 ++ b2) = flat b1 ++ flat b2.
Proof. unfold flat. by rewrite map_app, concat_app. Qed.

Lemma flat_middle bufs (i : nat) v :
  bufs !! i = Some v -> flat bufs = flat (take i bufs) ++ span v ++ flat (drop (S i) bufs).
Proof. intros Hi. rewrite <- (take_drop_middle _ _ _ Hi) at 1. by rewrite flat_app. Qed.

Lemma split_at_in_bounds b off :
  0 <= off <= zlen (flat b.(buffers)) ->
  exists b1 b2, IoBuffers_split_at off b = (b1, Ok b2) /\
    flat b1.(buffers) = take (Z.to_nat off) (flat b.(buffers)) /\
    flat b2.(buffers) = drop (Z.to_nat off) (flat b.(buffers)) /\
    b1.(bytes_consumed) = b.(bytes_consumed) /\ b2.(bytes_consumed) = 0.
Proof.
  intros [Hoff Hle]. unfold IoBuffers_split_at.
  pose proof (split_position_spec b.(buffers) off Hoff) as Hpos.
  destruct (split_position b.(buffers) off) as [[at_|] rem].
  - destruct Hpos as (v & Hat & Hrem & Hoff'). rewrite (drop_S _ v at_ Hat).
    rewrite (flat_middle _ _ _ Hat). destruct (Z.ltb_spec 0 rem) as [Hpos|Hz].
    + destruct (slice_cut v rem) as (v1 & v2 & Hs & Ho & Hl & Hspan); [lia|].
      rewrite Hs, Ho. eexists _, _. split; [done|]. cbn [buffers bytes_consumed].
      change (flat (v2 :: drop (S at_) b.(buffers))) with (span v2 ++ flat (drop (S at_) b.(buffers))).
      rewrite flat_app, Hspan. change (flat [v1]) with (span v1 ++ []).
      rewrite app_nil_r, <- (app_assoc (span v1)), (app_assoc _ (span v1)).
      rewrite take_Z_len, drop_Z_len by (rewrite zlen_app; lia). done.
    + eexists _, _. split; [done|]. cbn [buffers bytes_consumed].
      rewrite take_Z_len, drop_Z_len by lia. done.
  - destruct Hpos as [Hr ->]. assert (rem = 0) as -> by lia. cbn.
    eexists _, _. split; [done|]. cbn. unfold zlen in *.
    rewrite take_ge, drop_ge by lia. done.
Qed.

Lemma split_at_out_of_bounds b off :
  zlen (flat b.(buffers)) < off -> IoBuffers_split_at off b = (b, Err (SplitOutOfBounds off)).
Proof.
  intros Hlt. unfold IoBuffers_split_at.
  pose proof (zlen_nonneg (flat b.(buffers))). assert (0 <= off) as Hoff by lia.
  pose proof (split_position_spec b.(buffers) off Hoff) as Hpos.
  destruct (split_position b.(buffers) off) as [[at_|] rem].
  - destruct Hpos as (v & Hat & Hrem & ->). exfalso.
    rewrite (flat_middle _ _ _ Hat), !zlen_app, zlen_span in Hlt.
    pose proof (zlen_nonneg (flat (drop (S at_) b.(buffers)))). lia.
  - destruct Hpos as [Hr ->]. destruct (Z.eqb_spec rem 0); [lia|done].
Qed.

End flat.

(** ** The reader *)

Section reader_facts.
Context {V : Type} {VS : VolatileSlice V} {VO : VolatileSliceOk V} (mem : Z -> Z).

(** The bytes a reader has left. *)
Definition content (r : Reader V) : bytes := map mem (flat r.(r_buffers).(buffers)).

Definition reader_ok (r : Reader V) : Prop := buffers_ok r.(r_buffers).

Lemma zlen_content r : zlen (content r) = zlen (flat r.(r_buffers).(buffers)).
Proof. unfold content, zlen. by rewrite length_map. Qed.

Lemma copy_out_all bufs rem :
  zlen (fflat bufs) <= rem -> Forall (fun s => 0 <= s.(fvs_size)) bufs ->
  copy_out mem bufs rem = map mem (fflat bufs).
Proof.
  revert rem. induction bufs as [|s bufs IH]; intros rem Hle Hpos; [done|].
  apply Forall_cons in Hpos as [Hs Hpos].
  assert (zlen (fspan s) = s.(fvs_size)) as Hl
    by (unfold fspan, zlen; rewrite length_seqZ; lia).
  unfold fflat in Hle. cbn in Hle. rewrite zlen_app, Hl in Hle. fold (fflat bufs) in Hle.
  pose proof (zlen_nonneg (fflat bufs)). cbn [copy_out]. rewrite Z.min_r by lia.
  unfold fflat. cbn. rewrite map_app. fold (fflat bufs). f_equal. apply IH; [lia|done].
Qed.

Lemma allocated_sizes (b : IoBuffers V) count bufs :
  allocate_file_volatile_slice b count = Ok bufs -> Forall (fun s => 0 <= s.(fvs_size)) bufs.
Proof.
  unfold allocate_file_volatile_slice. destruct (local_bufs b.(buffers) count); intros [= <-].
  apply List.Forall_forall. intros s (v & <- & _)%in_map_iff. apply vs_len_nonneg.
Qed.

(** One [read] returns as many of the asked bytes as there are, in order. *)
Lemma Reader_read_spec n r :
  0 <= n -> reader_ok r ->
  exists r', Reader_read mem n r = (r', Ok (take (Z.to_nat n) (content r))) /\
    content r' = drop (Z.to_nat n) (content r) /\ reader_ok r' /\
    Reader_bytes_read r' = Reader_bytes_read r + zlen (take (Z.to_nat n) (content r)).
Proof.
  intros Hn [Hr0 Hr]. unfold Reader_read, with_buffers, consume_for_read, consume.
  destruct (allocate_spec r.(r_buffers) n Hn) as (bufs & Hal & Hflat).
  pose proof (allocated_sizes _ _ _ Hal) as Hpos. rewrite Hal.
  assert (take (Z.to_nat n) (content r) = map mem (fflat bufs)) as Htake
    by (unfold content; by rewrite Hflat, <- firstn_map).
  assert (zlen (fflat bufs) <= n) as Hle
    by (rewrite Hflat; unfold zlen; rewrite length_take; lia).
  assert (zlen (map mem (fflat bufs)) = zlen (fflat bufs)) as Hml by (unfold zlen; by rewrite length_map).
  rewrite Htake. destruct bufs as [|s bufs].
  { destruct r as [b]. exists (MkReader b). cbn in *. split_and!; try done; [|change (zlen (A := Z) []) with 0; lia].
    unfold content in *. cbn in *. rewrite <- (take_drop (Z.to_nat n) (map mem _)) at 1.
    by rewrite Htake. }
  rewrite (copy_out_all _ n Hle Hpos), Hml.
  assert (zlen (fflat (s :: bufs)) <= zlen (flat r.(r_buffers).(buffers))).
  { rewrite Hflat. unfold zlen. rewrite length_take. lia. }
  pose proof (zlen_nonneg (fflat (s :: bufs))).
  destruct (mark_used_spec r.(r_buffers) (zlen (fflat (s :: bufs)))) as (bufs' & Hmu & Hdrop); [lia..|].
  rewrite Hmu. eexists. split; [done|]. unfold content, reader_ok, buffers_ok, Reader_bytes_read.
  cbn [r_buffers buffers bytes_consumed]. rewrite Hdrop, skipn_map. split_and!; [ |lia| |lia].
  - f_equal. rewrite Hflat. unfold zlen. rewrite Nat2Z.id, length_take.
    destruct (decide (Z.to_nat n <= length (flat r.(r_buffers).(buffers)))%nat).
    + f_equal. lia.
    + rewrite !drop_ge by lia. done.
  - unfold zlen in *. rewrite length_drop. lia.
Qed.

Lemma read_exact_loop_spec fuel n r :
  0 <= n < Z.of_nat fuel -> reader_ok r ->
  exists r', reader_ok r' /\ content r' = drop (Z.to_nat n) (content r) /\
    read_exact_loop mem fuel n r =
      (r', if n <=? zlen (content r) then Ok (take (Z.to_nat n) (content r))
           else Err (Simple UnexpectedEof)).
Proof.
  revert n r. induction fuel as [|fuel IH]; intros n r Hn Hr; [lia|].
  cbn [read_exact_loop]. destruct (Z.eqb_spec n 0) as [->|Hnz].
  { exists r. pose proof (zlen_nonneg (content r)). destruct (Z.leb_spec 0 (zlen (content r))); [done|lia]. }
  destruct (Reader_read_spec n r ltac:(lia) Hr) as (r1 & -> & Hc1 & Hr1 & _).
  destruct (take (Z.to_nat n) (content r)) as [|x l] eqn:Htake.
  - assert (content r = []) as Hnil.
    { destruct (content r); [done|]. destruct (Z.to_nat n) eqn:E; [lia|done]. }
    exists r1. rewrite Hc1, Hnil, drop_nil. change (zlen (A := Z) []) with 0.
    destruct (Z.leb_spec n 0); [lia|done].
  - assert (length (x :: l) = Nat.min (Z.to_nat n) (length (content r))) as Hl
      by by rewrite <- Htake, length_take.
    assert (0 < zlen (x :: l) <= n) as Hxl by (unfold zlen; cbn in *; lia).
    destruct (IH (n - zlen (x :: l)) r1) as (r2 & Hr2 & Hc2 & Hread); [lia|done|].
    exists r2. unfold mbind, prog_mbind, prog_bind. rewrite Hread.
    rewrite Hc2, Hc1, drop_drop. unfold zlen in *. rewrite length_drop.
    destruct (Z.leb_spec n (Z.of_nat (length (content r)))) as [Hle|Hgt].
    + replace (Z.to_nat (n - Z.of_nat (length (x :: l)))) with 0%nat by lia.
      rewrite Nat.add_0_r, (proj2 (Z.leb_le _ _)) by lia.
      unfold mret, prog_ret. by rewrite take_0, app_nil_r.
    + rewrite (proj2 (Z.leb_gt _ _)) by lia. rewrite !drop_ge by lia. done.
Qed.

(** [read_exact] returns the next [n] bytes, or fails at the end of the request
    having consumed all of it. *)
Lemma read_exact_spec n r :
  0 <= n -> reader_ok r ->
  exists r', reader_ok r' /\ content r' = drop (Z.to_nat n) (content r) /\
    read_exact mem n r =
      (r', if n <=? zlen (content r) then Ok (take (Z.to_nat n) (content r))
           else Err (Simple UnexpectedEof)).
Proof. intros Hn Hr. apply read_exact_loop_spec; [lia|done]. Qed.

Lemma read_obj_spec (T : Type) `{ByteValued T} r :
  reader_ok r ->
  exists r', reader_ok r' /\ content r' = drop (Z.to_nat (size_of T)) (content r) /\
    read_obj mem T r =
      (r', if size_of T <=? zlen (content r)
           then Ok (from_slice (take (Z.to_nat (size_of T)) (content r)))
           else Err (Simple UnexpectedEof)).
Proof.
  intros Hr. assert (0 <= size_of T) as Hs by (unfold size_of; lia).
  destruct (read_exact_spec (size_of T) r Hs Hr) as (r' & Hr' & Hc & He).
  exists r'. split_and!; [done..|]. unfold read_obj, mbind, prog_mbind, prog_bind.
  rewrite He. by destruct (size_of T <=? zlen (content r)).
Qed.

End reader_facts.
