(* ===== verification/FuseDev.v ===== *)
(** * The reply writer ([src/transport/fusedev/mod.rs], [Writer] of [src/transport/mod.rs])

    A [FuseDevWriter] appends to a fixed buffer.  Unbuffered, it submits each
    write to [/dev/fuse]; once split, both halves only collect bytes and a
    [commit] submits them in one [writev].  The device is an interface: the
    state is the sequence of messages submitted so far and the kernel's answer
    to each is a function of the history. *)

From S2P Require Import Prelude Std Lib Codec Transport.

(** ** The device *)

(** Messages submitted with [write] or [writev], oldest first. *)
Abbreviation Dev := (list bytes).

(** The answer of the kernel to a message: an errno or the bytes it took. *)
Class FuseDevice : Type := {
  dev_answer : Dev -> bytes -> Z + Z;
}.

(** The kernel takes a reply in one piece or refuses it. *)
Class FuseDeviceOk `{FuseDevice} : Prop := {
  dev_answer_whole : forall log msg n, dev_answer log msg = inr n -> n = zlen msg;
}.

Definition dev_write `{FuseDevice} (data : bytes) : prog Dev Z Z := fun log =>
  (log ++ [data], match dev_answer log data with inl e => Err e | inr n => Ok n end).

(** ** [FuseDevWriter]

    [fw_mem] is the memory of the buffer, as long as its capacity; the first
    [fw_len] bytes are the contents of the vector. *)

Record FuseDevWriter : Set := MkFuseDevWriter {
  fw_buffered : bool;
  fw_mem : bytes;
  fw_len : Z;
}.

Definition fw_capacity (w : FuseDevWriter) : Z := zlen w.(fw_mem).

(** [Vec::as_slice]. *)
Definition fw_slice (w : FuseDevWriter) : bytes := take (Z.to_nat w.(fw_len)) w.(fw_mem).

(** Overwrite the memory after the contents. *)
Definition fw_store (w : FuseDevWriter) (data : bytes) : bytes :=
  take (Z.to_nat w.(fw_len)) w.(fw_mem) ++ data
  ++ drop (Z.to_nat (w.(fw_len) + zlen data)) w.(fw_mem).

(** [Vec::extend_from_slice] within the capacity. *)
Definition extend_from_slice (data : bytes) (w : FuseDevWriter) : FuseDevWriter :=
  MkFuseDevWriter w.(fw_buffered) (fw_store w data) (w.(fw_len) + zlen data).

Definition FuseDevWriter_new (data_buf : bytes) : FuseDevWriter :=
  MkFuseDevWriter false data_buf 0.

Definition FuseDevWriter_split_at (offset : Z) : prog FuseDevWriter TransportError FuseDevWriter :=
  fun w =>
    if fw_capacity w <? offset then (w, Err (SplitOutOfBounds offset))
    else
      let '(len1, len2) :=
        if offset <? w.(fw_len) then (offset, w.(fw_len) - offset) else (w.(fw_len), 0) in
      (MkFuseDevWriter true (take (Z.to_nat offset) w.(fw_mem)) len1,
       Ok (MkFuseDevWriter true (drop (Z.to_nat offset) w.(fw_mem)) len2)).

Definition FuseDevWriter_bytes_written (w : FuseDevWriter) : Z := w.(fw_len).
Definition FuseDevWriter_available_bytes (w : FuseDevWriter) : Z := fw_capacity w - w.(fw_len).

(** [Vec::set_len]: the memory is left as it is. *)
Definition account_written (count : Z) (w : FuseDevWriter) : FuseDevWriter :=
  MkFuseDevWriter w.(fw_buffered) w.(fw_mem) (w.(fw_len) + count).

Definition check_available_space (w : FuseDevWriter) (sz : Z) : io_result unit :=
  if w.(fw_buffered) || (w.(fw_len) =? 0) then
    if FuseDevWriter_available_bytes w <? sz then Err (Simple InvalidData) else Ok tt
  else Panic.

Section writer.
Context {DEV : FuseDevice}.

(** Operations that may reach the device run on the writer and the device. *)
Abbreviation wprog := (prog (FuseDevWriter * Dev)).

Definition on_dev {E A} (m : prog Dev E A) : wprog E A := fun '(w, d) =>
  let '(d', o) := m d in ((w, d'), o).

Definition do_write (data : bytes) : wprog io_error Z := fun s =>
  let '(s', o) := on_dev (dev_write data) s in
  (s', map_err (fun _ => Simple Other) o).

(** [Write::write] *)
Definition FuseDevWriter_write (data : bytes) : wprog io_error Z :=
  _ ← (fun s => (s, check_available_space s.1 (zlen data)));
  buffered ← gets (fun s => s.1.(fw_buffered));
  if (buffered : bool) then
    _ ← modify (fun s => (extend_from_slice data s.1, s.2));
    mret (zlen data)
  else
    x ← do_write data;
    _ ← modify (fun s => (account_written x s.1, s.2));
    mret x.

(** [Write::write_vectored]: the buffered fold over the nonempty slices. *)
Definition extend_all (bufs : list bytes) : wprog io_error Z := fun '(w, d) =>
  let '(count, w') :=
    foldl (fun '(acc, w) b => (acc + zlen b, extend_from_slice b w)) (0, w)
          (List.filter (fun b => negb (beq b [])) bufs) in
  ((w', d), Ok count).

Definition FuseDevWriter_write_vectored (bufs : list bytes) : wprog io_error Z :=
  _ ← (fun s => (s, check_available_space s.1 (foldl (fun acc x => acc + zlen x) 0 bufs)));
  buffered ← gets (fun s => s.1.(fw_buffered));
  if (buffered : bool) then extend_all bufs
  else
    match bufs with
    | [] => mret 0
    | _ =>
      x ← do_write (concat bufs);
      _ ← modify (fun s => (account_written x s.1, s.2));
      mret x
    end.

(** [Write::write_all] of the standard library; [write] takes everything or
    fails, so a round per byte is more than enough. *)
Fixpoint write_all_loop (fuel : nat) (data : bytes) : wprog io_error unit :=
  match data with
  | [] => mret tt
  | _ =>
    match fuel with
    | O => fail (Simple WriteZero)
    | S fuel' => fun s =>
      match FuseDevWriter_write data s with
      | (s', Ok n) =>
        if n =? 0 then (s', Err (Simple WriteZero))
        else write_all_loop fuel' (drop (Z.to_nat n) data) s'
      | (s', Err e) =>
        match error_kind e with
        | Interrupted => write_all_loop fuel' data s'
        | _ => (s', Err e)
        end
      | (s', Panic) => (s', Panic)
      end
    end
  end.

Definition FuseDevWriter_write_all (data : bytes) : wprog io_error unit :=
  write_all_loop (length data) data.

Definition FuseDevWriter_write_obj {T} `{ByteValued T} (val : T) : wprog io_error unit :=
  FuseDevWriter_write_all (as_slice val).

Definition FuseDevWriter_flush : wprog io_error unit := fail (Simple Other).

(** [commit]: [other] is the contents of the other half, empty when there is
    none. *)
Definition FuseDevWriter_commit (other : bytes) : wprog io_error Z := fun s =>
  let w := s.1 in
  if negb w.(fw_buffered) then (s, Ok 0)
  else
    let b := fw_slice w in
    match b, other with
    | [], [] => (s, Ok 0)
    | _, _ => let '(s', o) := on_dev (dev_write (b ++ other)) s in (s', map_err Os o)
    end.

(** [write_from_at]: [read_at] is the file's [read_vectored_at_volatile] at the
    offset, into a buffer of [count] bytes; it gives the bytes read. *)
Definition FuseDevWriter_write_from_at {X} (read_at : Z -> prog X io_error bytes) (count : Z)
  : prog (X * (FuseDevWriter * Dev)) io_error Z := fun '(x, (w, d)) =>
  match check_available_space w count with
  | Err e => ((x, (w, d)), Err e)
  | Panic => ((x, (w, d)), Panic)
  | Ok _ =>
    match read_at count x with
    | (x', Err e) => ((x', (w, d)), Err e)
    | (x', Panic) => ((x', (w, d)), Panic)
    | (x', Ok data) =>
      let w' := extend_from_slice data w in
      if w.(fw_buffered) then ((x', (w', d)), Ok (zlen data))
      else let '(s', o) := do_write (take (length data) w'.(fw_mem)) (w', d) in ((x', s'), o)
    end
  end.

(** ** [Writer] *)

Inductive Writer : Set :=
| WFuseDev (w : FuseDevWriter)
| WNoop.

Abbreviation Wprog := (prog (Writer * Dev)).

(** Dispatch to the device writer, or the answer of the no-op writer. *)
Definition on_fusedev {E A} (m : wprog E A) (noop : outcome E A) : Wprog E A := fun '(w, d) =>
  match w with
  | WFuseDev fw => let '((fw', d'), o) := m (fw, d) in ((WFuseDev fw', d'), o)
  | WNoop => ((w, d), noop)
  end.

Definition Writer_write (data : bytes) : Wprog io_error Z :=
  on_fusedev (FuseDevWriter_write data) (Err (Os EINVAL)).

Definition Writer_write_vectored (bufs : list bytes) : Wprog io_error Z :=
  on_fusedev (FuseDevWriter_write_vectored bufs) (Err (Os EINVAL)).

(** The standard [write_all] over [Writer::write]; on the no-op writer its
    first [write] fails unless there is nothing to write. *)
Definition Writer_write_all (data : bytes) : Wprog io_error unit :=
  on_fusedev (FuseDevWriter_write_all data)
             (match data with [] => Ok tt | _ => Err (Os EINVAL) end).

Definition Writer_flush : Wprog io_error unit := on_fusedev FuseDevWriter_flush (Ok tt).

Definition Writer_commit (other : option Writer) : Wprog io_error Z :=
  on_fusedev (FuseDevWriter_commit
                (match other with Some (WFuseDev w) => fw_slice w | _ => [] end)) (Ok 0).

Definition Writer_split_at (offset : Z) : prog Writer TransportError Writer := fun w =>
  match w with
  | WFuseDev fw =>
    let '(fw', o) := FuseDevWriter_split_at offset fw in (WFuseDev fw', outcome_map WFuseDev o)
  | WNoop => (w, Err InvalidParameter)
  end.

Definition Writer_available_bytes (w : Writer) : Z :=
  match w with WFuseDev fw => FuseDevWriter_available_bytes fw | WNoop => 0 end.

Definition Writer_bytes_written (w : Writer) : Z :=
  match w with WFuseDev fw => FuseDevWriter_bytes_written fw | WNoop => 0 end.

Definition Writer_write_from_at {X} (read_at : Z -> prog X io_error bytes) (count : Z)
  : prog (X * (Writer * Dev)) io_error Z := fun '(x, (w, d)) =>
  match w with
  | WFuseDev fw =>
    let '((x', (fw', d')), o) := FuseDevWriter_write_from_at read_at count (x, (fw, d)) in
    ((x', (WFuseDev fw', d')), o)
  | WNoop => ((x, (w, d)), Err (Os EINVAL))
  end.

(** [Reader::from_fuse_buffer]: one slice over the request buffer. *)
Definition from_fuse_buffer {V} (buf : V) : Reader V := MkReader (MkIoBuffers [buf] 0).

End writer.
