(* ===== verification/FuseDevProps.v ===== *)
(** * What the reply writer sends

    A buffered writer only collects bytes; a fresh unbuffered one submits what
    it is given in one message.  From these come the one-message discipline of
    split writers and of the notifications. *)

From S2P Require Import Prelude Std Codec Lib Transport FuseDev.

Definition writer_ok (w : FuseDevWriter) : Prop := 0 <= w.(fw_len) <= fw_capacity w.

Lemma fw_slice_length w : writer_ok w -> zlen (fw_slice w) = w.(fw_len).
Proof.
  intros [H1 H2]. unfold fw_slice, zlen, fw_capacity, zlen in *. rewrite length_take. lia.
Qed.

Lemma fw_store_length w data :
  writer_ok w -> zlen data <= FuseDevWriter_available_bytes w -> zlen (fw_store w data) = fw_capacity w.
Proof.
  unfold writer_ok, FuseDevWriter_available_bytes, fw_store, fw_capacity, zlen. intros Hw Hd.
  rewrite !length_app, length_take, length_drop. lia.
Qed.

Lemma extend_ok w data :
  writer_ok w -> zlen data <= FuseDevWriter_available_bytes w ->
  writer_ok (extend_from_slice data w) /\
  fw_capacity (extend_from_slice data w) = fw_capacity w /\
  fw_slice (extend_from_slice data w) = fw_slice w ++ data.
Proof.
  intros Hw Hd. pose proof (fw_store_length w data Hw Hd) as Hs.
  assert (fw_capacity (extend_from_slice data w) = fw_capacity w) as Hc by done.
  split_and!; [ |done| ].
  - unfold writer_ok in *. rewrite Hc. unfold FuseDevWriter_available_bytes in Hd. cbn.
    pose proof (zlen_nonneg data). lia.
  - unfold fw_slice at 1. cbn. unfold fw_store. rewrite app_assoc. apply take_Z_len.
    rewrite zlen_app. f_equal. by apply fw_slice_length.
Qed.

Lemma extend_nil w : writer_ok w -> extend_from_slice [] w = w.
Proof.
  intros Hw. destruct w as [b m l]. unfold extend_from_slice, fw_store. cbn.
  change (zlen (A := Z) []) with 0. by rewrite Z.add_0_r, take_drop.
Qed.

Lemma extend_extend w d1 d2 :
  writer_ok w -> zlen (d1 ++ d2) <= FuseDevWriter_available_bytes w ->
  extend_from_slice d2 (extend_from_slice d1 w) = extend_from_slice (d1 ++ d2) w.
Proof.
  intros Hw Hd. rewrite zlen_app in Hd. pose proof (zlen_nonneg d2). pose proof (zlen_nonneg d1).
  destruct (extend_ok w d1 Hw ltac:(lia)) as (_ & _ & Hs). unfold fw_slice in Hs. cbn in Hs.
  unfold extend_from_slice at 1 3. unfold fw_store at 1 2. cbn [fw_buffered fw_mem fw_len extend_from_slice].
  rewrite Hs, zlen_app, Z.add_assoc, <- !app_assoc. do 3 f_equal.
  unfold fw_store, writer_ok, FuseDevWriter_available_bytes, fw_capacity, zlen in *.
  rewrite app_assoc, drop_app_ge by (rewrite length_app, length_take; lia).
  rewrite drop_drop, length_app, length_take. do 2 f_equal. lia.
Qed.

Section writes.
Context {DEV : FuseDevice}.

(** ** Buffered writers *)

Lemma write_buffered w d data :
  w.(fw_buffered) = true ->
  FuseDevWriter_write data (w, d) =
    if FuseDevWriter_available_bytes w <? zlen data then ((w, d), Err (Simple InvalidData))
    else ((extend_from_slice data w, d), Ok (zlen data)).
Proof.
  intros Hb. unfold FuseDevWriter_write, mbind, prog_mbind, prog_bind, check_available_space. cbn.
  rewrite Hb. cbn. by destruct (FuseDevWriter_available_bytes w <? zlen data).
Qed.

Lemma write_all_buffered w d data :
  w.(fw_buffered) = true -> writer_ok w ->
  FuseDevWriter_write_all data (w, d) =
    if FuseDevWriter_available_bytes w <? zlen data then ((w, d), Err (Simple InvalidData))
    else ((extend_from_slice data w, d), Ok tt).
Proof.
  intros Hb Hw. destruct data as [|x data].
  { cbn. change (zlen (A := Z) []) with 0. unfold writer_ok, FuseDevWriter_available_bytes in *.
    destruct (Z.ltb_spec (fw_capacity w - fw_len w) 0); [lia|]. by rewrite extend_nil. }
  unfold FuseDevWriter_write_all. cbn [length write_all_loop]. rewrite write_buffered by done.
  destruct (FuseDevWriter_available_bytes w <? zlen (x :: data)); [done|].
  assert ((zlen (x :: data) =? 0) = false) as -> by (apply Z.eqb_neq; unfold zlen; cbn; lia).
  rewrite drop_ge by (unfold zlen; lia). by destruct (length data).
Qed.

(** ** Fresh writers *)

Definition fresh (w : FuseDevWriter) : Prop := w.(fw_buffered) = false /\ w.(fw_len) = 0.

Lemma write_fresh w d data :
  fresh w ->
  FuseDevWriter_write data (w, d) =
    if fw_capacity w <? zlen data then ((w, d), Err (Simple InvalidData))
    else match dev_answer d data with
         | inl _ => ((w, d ++ [data]), Err (Simple Other))
         | inr n => ((account_written n w, d ++ [data]), Ok n)
         end.
Proof.
  intros [Hb Hl]. unfold FuseDevWriter_write, mbind, prog_mbind, prog_bind, check_available_space,
    FuseDevWriter_available_bytes. cbn.
  rewrite Hb, Hl, Z.sub_0_r. cbn. destruct (fw_capacity w <? zlen data); [done|].
  unfold do_write, on_dev, dev_write. by destruct (dev_answer d data).
Qed.

Lemma write_vectored_fresh w d bufs :
  fresh w -> bufs <> [] ->
  FuseDevWriter_write_vectored bufs (w, d) =
    if fw_capacity w <? zlen (concat bufs) then ((w, d), Err (Simple InvalidData))
    else match dev_answer d (concat bufs) with
         | inl _ => ((w, d ++ [concat bufs]), Err (Simple Other))
         | inr n => ((account_written n w, d ++ [concat bufs]), Ok n)
         end.
Proof.
  intros [Hb Hl] Hne.
  assert (forall acc, foldl (fun a x => a + zlen x) acc bufs = acc + zlen (concat bufs)) as Hsum.
  { clear. induction bufs as [|b bufs IH]; intros acc; cbn.
    - change (zlen (A := Z) []) with 0. lia.
    - rewrite IH, zlen_app. lia. }
  unfold FuseDevWriter_write_vectored, mbind, prog_mbind, prog_bind, check_available_space,
    FuseDevWriter_available_bytes. cbn.
  rewrite Hsum, Hb, Hl, Z.sub_0_r, Z.add_0_l. cbn.
  destruct (fw_capacity w <? zlen (concat bufs)); [done|]. destruct bufs as [|b bufs]; [done|].
  unfold do_write, on_dev, dev_write. by destruct (dev_answer d (concat (b :: bufs))).
Qed.

Lemma write_all_fresh `{!FuseDeviceOk} w d data :
  fresh w -> data <> [] ->
  FuseDevWriter_write_all data (w, d) =
    if fw_capacity w <? zlen data then ((w, d), Err (Simple InvalidData))
    else match dev_answer d data with
         | inl _ => ((w, d ++ [data]), Err (Simple Other))
         | inr n => ((account_written n w, d ++ [data]), Ok tt)
         end.
Proof.
  intros Hf Hne. destruct data as [|x data]; [done|].
  unfold FuseDevWriter_write_all. cbn [length write_all_loop]. rewrite write_fresh by done.
  destruct (fw_capacity w <? zlen (x :: data)); [done|].
  destruct (dev_answer d (x :: data)) as [e|n] eqn:Ha; [done|].
  apply dev_answer_whole in Ha as ->.
  assert ((zlen (x :: data) =? 0) = false) as -> by (apply Z.eqb_neq; unfold zlen; cbn; lia).
  rewrite drop_ge by (unfold zlen; lia). by destruct (length data).
Qed.

(** ** Splitting and committing *)

Lemma split_fresh w off :
  w.(fw_len) = 0 -> 0 <= off ->
  FuseDevWriter_split_at off w =
    if fw_capacity w <? off then (w, Err (SplitOutOfBounds off))
    else (MkFuseDevWriter true (take (Z.to_nat off) w.(fw_mem)) 0,
          Ok (MkFuseDevWriter true (drop (Z.to_nat off) w.(fw_mem)) 0)).
Proof.
  intros Hl Ho. unfold FuseDevWriter_split_at. rewrite Hl.
  destruct (fw_capacity w <? off); [done|]. destruct (Z.ltb_spec off 0); [lia|done].
Qed.

Lemma commit_buffered w d other :
  w.(fw_buffered) = true -> fw_slice w <> [] ->
  FuseDevWriter_commit other (w, d) =
    ((w, d ++ [fw_slice w ++ other]),
     match dev_answer d (fw_slice w ++ other) with inl e => Err (Os e) | inr n => Ok n end).
Proof.
  intros Hb Hne. unfold FuseDevWriter_commit. cbn. rewrite Hb. cbn.
  destruct (fw_slice w) as [|x l]; [done|]. unfold on_dev, dev_write.
  by destruct (dev_answer d ((x :: l) ++ other)).
Qed.

End writes.
