(* ===== verification/Instances.v ===== *)
(** * Concrete instances of the interfaces

    The smallest inhabitants of the interfaces the development is
    parameterised by, on which its theorems are evaluated: a slice that is a
    pointer and a length, a device that takes every message, and the file
    system that overrides no method of the trait. *)

From S2P Require Import Prelude Std Lib FsTypes FileSystem Transport FuseDev.

(** ** Slices *)

Record RawSlice : Set := MkRawSlice {
  raw_ptr : Z;
  raw_len : nat;
}.

#[global] Instance RawSlice_volatile : VolatileSlice RawSlice := {|
  vs_ptr := raw_ptr;
  vs_len s := Z.of_nat s.(raw_len);
  vs_subslice s off n :=
    if (0 <=? off) && (0 <=? n) && (off + n <=? Z.of_nat s.(raw_len))
    then Some (MkRawSlice (s.(raw_ptr) + off) (Z.to_nat n)) else None;
  vs_offset s n :=
    if (0 <=? n) && (n <=? Z.of_nat s.(raw_len))
    then Some (MkRawSlice (s.(raw_ptr) + n) (Z.to_nat (Z.of_nat s.(raw_len) - n))) else None;
|}.

#[global] Instance RawSlice_volatile_ok : VolatileSliceOk RawSlice.
Proof.
  split; cbn.
  - intros v. lia.
  - intros v off n Ho Hn Hle. exists (MkRawSlice (v.(raw_ptr) + off) (Z.to_nat n)).
    rewrite !(proj2 (Z.leb_le _ _)) by lia. cbn. split_and!; [done|done|lia].
  - intros v n Hn. exists (MkRawSlice (v.(raw_ptr) + n) (Z.to_nat (Z.of_nat v.(raw_len) - n))).
    rewrite !(proj2 (Z.leb_le _ _)) by lia. cbn. split_and!; [done|done|lia].
Qed.

(** ** Memory and requests *)

(** A memory that holds [l] at address zero. *)
Definition mem_of (l : bytes) : Z -> Z := fun a => nth (Z.to_nat a) l 0.

Definition reader_of (l : bytes) : Reader RawSlice := from_fuse_buffer (MkRawSlice 0 (length l)).

(** ** The device that takes every message *)

Definition accepting_device : FuseDevice := {| dev_answer log msg := inr (zlen msg) |}.

Lemma accepting_device_ok : FuseDeviceOk (H := accepting_device).
Proof. split. by intros log msg n [= <-]. Qed.

(** ** The file system of default methods *)

Record NullFs : Set := MkNullFs {}.

Definition null_forget (ctx : Context) (inode count : Z) : prog NullFs io_error unit := mret tt.

#[global] Instance NullFs_filesystem : FileSystem NullFs := {|
  fs_op := default_op null_forget;
  fs_read := default_read;
  fs_write := default_write;
  fs_readdir := @default_readdir NullFs;
  fs_readdirplus := @default_readdirplus NullFs;
  fs_id_remap := default_id_remap;
|}.

#[global] Instance NullFs_filesystem_ok : FileSystemOk NullFs.
Proof.
  split; cbn.
  - intros A op. apply default_op_no_panic. intros. apply no_panic_mret.
  - intros. split; [|done]. change (zlen (A := Z) []) with 0. lia.
  - by intros.
  - intros X ctx inode handle size offset add P HP f x Hx. done.
  - intros X ctx inode handle size offset add P HP f x Hx. done.
  - by intros s.
Qed.
