(* ===== verification/WireClaims.v ===== *)
(** * What the bottom layers guarantee

    The buffers a request is read from and the writer a reply is sent with. *)

From S2P Require Import Prelude Std Lib Codec Abi AbiStruct Transport TransportProps FuseDev FuseDevProps Instances.

(** ** Claims *)

(** Splitting a request.  At an offset within the bytes that are left, the
    buffers are cut into the bytes before and the bytes after it, in order and
    without loss, whatever slices they are made of; at an offset beyond, the
    split is refused and nothing changes. *)
Theorem split_at_partition {V : Type} `{VolatileSliceOk V} (b : IoBuffers V) off :
  0 <= off ->
  match IoBuffers_split_at off b with
  | (b1, Ok b2) =>
      off <= zlen (flat b.(buffers)) /\
      flat b1.(buffers) = take (Z.to_nat off) (flat b.(buffers)) /\
      flat b2.(buffers) = drop (Z.to_nat off) (flat b.(buffers)) /\
      b1.(bytes_consumed) = b.(bytes_consumed) /\ b2.(bytes_consumed) = 0
  | (b1, Err e) => zlen (flat b.(buffers)) < off /\ b1 = b /\ e = SplitOutOfBounds off
  | (_, Panic) => False
  end.
Proof.
  intros Hoff. destruct (Z_lt_le_dec (zlen (flat b.(buffers))) off) as [Hlt|Hle].
  - by rewrite split_at_out_of_bounds.
  - by destruct (split_at_in_bounds b off) as (b1 & b2 & -> & Hs).
Qed.

Lemma split_at_partition_witness :
  let b := MkIoBuffers [MkRawSlice 100 4; MkRawSlice 200 0; MkRawSlice 300 4] 0 in
  match IoBuffers_split_at 6 b with
  | (b1, Ok b2) => flat b1.(buffers) = [100; 101; 102; 103; 300; 301] /\ flat b2.(buffers) = [302; 303]
  | _ => False
  end.
Proof.
  pose proof (split_at_partition (MkIoBuffers [MkRawSlice 100 4; MkRawSlice 200 0; MkRawSlice 300 4] 0) 6 ltac:(lia)) as H.
  cbv zeta. destruct (IoBuffers_split_at 6 _) as [b1 [b2|e|]] eqn:Hs; [|by vm_compute in Hs|done].
  destruct H as (_ & -> & -> & _). by vm_compute.
Defined.

(** Decoding a request.  A structure at the front of the bytes that are
    left is read whole, whatever slices it is spread over, and the bytes after
    it stay; when there are too few bytes the read fails with [UnexpectedEof]. *)
Theorem read_obj_correct {V T : Type} `{VolatileSliceOk V} `{ByteValuedOk T} mem (r : Reader V) :
  reader_ok r ->
  (forall (x : T) rest, content mem r = as_slice x ++ rest -> struct_ok x = true ->
     exists r', read_obj mem T r = (r', Ok x) /\ content mem r' = rest /\ reader_ok r') /\
  (zlen (content mem r) < size_of T -> (read_obj mem T r).2 = Err (Simple UnexpectedEof)).
Proof.
  intros Hr. destruct (read_obj_spec mem T r Hr) as (r' & Hok & Hc & Hread). rewrite Hread.
  split; [|by intros Hlt; rewrite (proj2 (Z.leb_gt _ _)) by lia].
  intros x rest Hcont Hx. exists r'. rewrite Hcont in *. pose proof (as_slice_length x) as Hlen.
  rewrite <- Hlen in *. pose proof (zlen_nonneg rest). rewrite zlen_app.
  rewrite (proj2 (Z.leb_le _ _)) by lia. unfold zlen in *. rewrite Nat2Z.id in *.
  rewrite take_app_length. rewrite drop_app_length in Hc. split_and!; [|done|done].
  do 2 f_equal. rewrite <- (app_nil_r (as_slice x)). by apply from_as_slice.
Qed.

Definition example_forget : ForgetIn := {| fg_nlookup := 7 |}.

Lemma read_obj_correct_witness :
  exists r', read_obj (mem_of (as_slice example_forget)) ForgetIn
    (MkReader (MkIoBuffers [MkRawSlice 0 3; MkRawSlice 3 5] 0)) = (r', Ok example_forget).
Proof.
  destruct (read_obj_correct (T := ForgetIn) (mem_of (as_slice example_forget))
    (MkReader (MkIoBuffers [MkRawSlice 0 3; MkRawSlice 3 5] 0))) as [H _]; [done|].
  destruct (H example_forget []) as (r' & Hr & _); [by vm_compute..|]. by exists r'.
Defined.

(** A reply goes out as one message.  A writer split into a part for the
    header and a part for the body sends nothing while the two are written;
    [commit] then submits the header and the body in a single message. *)
Theorem split_commit_one_message `{DEV : FuseDevice} (w : FuseDevWriter) d off head body :
  fresh w -> 0 <= off <= fw_capacity w -> head <> [] ->
  zlen head <= off -> zlen body <= fw_capacity w - off ->
  exists w1 w2 w1' w2',
    FuseDevWriter_split_at off w = (w1, Ok w2) /\
    FuseDevWriter_write_all body (w2, d) = ((w2', d), Ok tt) /\
    FuseDevWriter_write_all head (w1, d) = ((w1', d), Ok tt) /\
    FuseDevWriter_commit (fw_slice w2') (w1', d) =
      ((w1', d ++ [head ++ body]),
       match dev_answer d (head ++ body) with inl e => Err (Os e) | inr n => Ok n end).
Proof.
  intros [_ Hlen] Hoff Hne Hhead Hbody. unfold fw_capacity, zlen in *.
  set (w1 := MkFuseDevWriter true (take (Z.to_nat off) w.(fw_mem)) 0).
  set (w2 := MkFuseDevWriter true (drop (Z.to_nat off) w.(fw_mem)) 0).
  assert (fw_capacity w1 = off) as Hc1 by (unfold fw_capacity, zlen; cbn; rewrite length_take; lia).
  assert (fw_capacity w2 = Z.of_nat (length w.(fw_mem)) - off) as Hc2
    by (unfold fw_capacity, zlen; cbn; rewrite length_drop; lia).
  assert (writer_ok w1 /\ writer_ok w2) as [Hok1 Hok2] by (unfold writer_ok; rewrite Hc1, Hc2; cbn; lia).
  assert (zlen head <= FuseDevWriter_available_bytes w1) as Ha1
    by (unfold FuseDevWriter_available_bytes, zlen; rewrite Hc1; cbn; lia).
  assert (zlen body <= FuseDevWriter_available_bytes w2) as Ha2
    by (unfold FuseDevWriter_available_bytes, zlen; rewrite Hc2; cbn; lia).
  destruct (extend_ok w1 head Hok1 Ha1) as (_ & _ & Hs1). destruct (extend_ok w2 body Hok2 Ha2) as (_ & _ & Hs2).
  change (fw_slice w1) with (@nil Z) in Hs1. change (fw_slice w2) with (@nil Z) in Hs2.
  exists w1, w2, (extend_from_slice head w1), (extend_from_slice body w2). split_and!.
  - rewrite split_fresh by (done || lia). by rewrite (proj2 (Z.ltb_ge _ _)) by (unfold fw_capacity, zlen; lia).
  - by rewrite write_all_buffered, (proj2 (Z.ltb_ge _ _)) by (done || lia).
  - by rewrite write_all_buffered, (proj2 (Z.ltb_ge _ _)) by (done || lia).
  - rewrite commit_buffered by (done || by rewrite Hs1). by rewrite Hs1, Hs2.
Qed.

Lemma split_commit_one_message_witness :
  exists w1 w1' w2, FuseDevWriter_split_at 2 (FuseDevWriter_new [0; 0; 0; 0]) = (w1, Ok w2) /\
    FuseDevWriter_commit (DEV := accepting_device) [3] (w1', []) = ((w1', [[1; 2; 3]]), Ok 3).
Proof.
  destruct (split_commit_one_message (DEV := accepting_device) (FuseDevWriter_new [0; 0; 0; 0]) [] 2 [1; 2] [3])
    as (w1 & w2 & w1' & w2' & H1 & H2 & _ & H4); [done|by vm_compute|done|by vm_compute|by vm_compute|].
  exists w1, w1', w2. split; [done|]. injection H1 as <- <-. vm_compute in H2. injection H2 as <-. exact H4.
Defined.
