(* ===== verification/Server.v ===== *)
(** * The FUSE server ([src/api/server/mod.rs], [src/api/server/sync_io.rs])

    [handle_message] decodes one request from the reader, calls the file
    system and sends the reply through the writer.  A handler runs on the
    [world]: the server (file system and negotiated version), the request's
    [SrvContext] and the device.  Early returns through [?] keep the world
    reached so far.  Metrics hooks and log output have no effect on it. *)

From S2P Require Import Prelude Std Codec Abi AbiStruct Lib FsTypes FileSystem Transport FuseDev.

Definition MAX_BUFFER_SIZE : Z := Z.shiftl 1 20.
Definition MIN_READ_BUFFER : Z := 8192.
Definition BUFFER_HEADER_SIZE : Z := 0x1000.
Definition DIRENT_PADDING : bytes := [0; 0; 0; 0; 0; 0; 0; 0].
Definition MAX_REQ_PAGES : Z := 256.
Definition U16_MAX : Z := 65535.

Record ServerVersion : Set := MkServerVersion {
  v_major : Z;
  v_minor : Z;
}.

Record Server (F : Type) : Type := MkServer {
  sv_fs : F;
  sv_vers : ServerVersion;
}.
Arguments MkServer {F}.
Arguments sv_fs {F}.
Arguments sv_vers {F}.

Definition Server_new {F} (fs : F) : Server F :=
  MkServer fs (MkServerVersion KERNEL_VERSION KERNEL_MINOR_VERSION).

Record SrvContext (V : Type) : Type := MkSrvContext {
  sc_in_header : InHeader;
  sc_context : Context;
  sc_r : Reader V;
  sc_w : Writer;
}.
Arguments MkSrvContext {V}.
Arguments sc_in_header {V}.
Arguments sc_context {V}.
Arguments sc_r {V}.
Arguments sc_w {V}.

Definition SrvContext_new {V} (in_header : InHeader) (r : Reader V) (w : Writer) : SrvContext V :=
  MkSrvContext in_header (Context_from in_header) r w.

Record world (F V : Type) : Type := MkWorld {
  w_srv : Server F;
  w_ctx : SrvContext V;
  w_dev : Dev;
}.
Arguments MkWorld {F V}.
Arguments w_srv {F V}.
Arguments w_ctx {F V}.
Arguments w_dev {F V}.

(** ** Notifications

    Messages the server sends on its own, composed in a split-off writer. *)

Section notify.
Context {DEV : FuseDevice}.

Definition with_buffer_writer {A} (w : FuseDevWriter) (m : prog (FuseDevWriter * Dev) Error A)
  : prog Dev Error A := fun dev =>
  match FuseDevWriter_split_at 0 w with
  | (_, Ok buffer_writer) => let '((_, dev'), o) := m (buffer_writer, dev) in (dev', o)
  | (_, Err e) => (dev, Err (FailedToSplitWriter e))
  | (_, Panic) => (dev, Panic)
  end.

Definition notify_inval_entry (w : FuseDevWriter) (parent : Z) (name : CStr) : prog Dev Error Z :=
  let name_with_null := to_bytes_with_nul name in
  let header := {|
    oh_len := wrap 32 (wrap 32 (size_of OutHeader) + wrap 32 (size_of NotifyInvalEntryOut)
                       + wrap 32 (zlen name_with_null));
    oh_error := NotifyOpcode_value NotifyInvalEntry;
    oh_unique := 0 |} in
  let entry := {|
    nie_parent := parent;
    nie_namelen := wrap 32 (zlen name_with_null - 1);
    nie_padding := 0 |} in
  with_buffer_writer w (
    _ ← prog_map_err FailedToWrite (FuseDevWriter_write_obj header);
    _ ← prog_map_err FailedToWrite (FuseDevWriter_write_obj entry);
    _ ← prog_map_err FailedToWrite (FuseDevWriter_write name_with_null);
    prog_map_err InvalidMessage (FuseDevWriter_commit [])).

(** The length of the header is left at its default, zero. *)
Definition notify_resend (w : FuseDevWriter) : prog Dev Error unit :=
  let header := {|
    oh_len := 0;
    oh_error := NotifyOpcode_value NotifyResend;
    oh_unique := 0 |} in
  with_buffer_writer w (
    _ ← prog_map_err FailedToWrite (FuseDevWriter_write_obj header);
    _ ← prog_map_err InvalidMessage (FuseDevWriter_commit []);
    mret tt).

End notify.

(** ** [ServerUtil] *)

Definition extract_two_cstrs (buf : bytes) : Result (CStr * CStr) :=
  match position (Z.eqb 0) buf with
  | Some pos =>
    first ← map_err InvalidCString (from_bytes_with_nul (take (S pos) buf));
    if (S pos <? length buf)%nat then
      second ← bytes_to_cstr (drop (S pos) buf);
      Ok (first, second)
    else Err (DecodeMessage (Os EINVAL))
  | None => Err (DecodeMessage (Os EINVAL))
  end.

Section server.
Context {F V : Type} {FS : FileSystem F} {VS : VolatileSlice V} {DEV : FuseDevice}.
(** The memory the request was read into, and the page size of the host. *)
Context (mem : Z -> Z) (pagesize : Z).

Abbreviation srv := (prog (world F V) Error).

(** ** Access to the parts of the world *)

Definition on_reader {A} (m : prog (Reader V) io_error A) : srv A := fun s =>
  let c := s.(w_ctx) in
  let '(r', o) := m c.(sc_r) in
  (MkWorld s.(w_srv) (MkSrvContext c.(sc_in_header) c.(sc_context) r' c.(sc_w)) s.(w_dev),
   map_err DecodeMessage o).

Definition on_writer {A} (err : io_error -> Error) (m : prog (Writer * Dev) io_error A) : srv A := fun s =>
  let c := s.(w_ctx) in
  let '((w', d'), o) := m (c.(sc_w), s.(w_dev)) in
  (MkWorld s.(w_srv) (MkSrvContext c.(sc_in_header) c.(sc_context) c.(sc_r) w') d', map_err err o).

Definition set_fs (f : F) (s : world F V) : world F V :=
  MkWorld (MkServer f s.(w_srv).(sv_vers)) s.(w_ctx) s.(w_dev).

Definition set_vers (v : ServerVersion) (s : world F V) : world F V :=
  MkWorld (MkServer s.(w_srv).(sv_fs) v) s.(w_ctx) s.(w_dev).

Definition set_writer (w : Writer) (s : world F V) : world F V :=
  let c := s.(w_ctx) in
  MkWorld s.(w_srv) (MkSrvContext c.(sc_in_header) c.(sc_context) c.(sc_r) w) s.(w_dev).

(** Call the file system and match on its result. *)
Definition fs_match {A B} (m : prog F io_error A) (ok : A -> srv B) (err : io_error -> srv B) : srv B :=
  fun s =>
    let '(f', o) := m s.(w_srv).(sv_fs) in
    match o with
    | Ok a => ok a (set_fs f' s)
    | Err e => err e (set_fs f' s)
    | Panic => (set_fs f' s, Panic)
    end.

Definition get_context : srv Context := gets (fun s => s.(w_ctx).(sc_context)).
Definition get_header : srv InHeader := gets (fun s => s.(w_ctx).(sc_in_header)).
Definition unique : srv Z := gets (fun s => s.(w_ctx).(sc_in_header).(ih_unique)).
Definition nodeid : srv Z := gets (fun s => s.(w_ctx).(sc_in_header).(ih_nodeid)).

Definition r_read_obj (T : Type) `{ByteValued T} : srv T := on_reader (read_obj mem T).

Definition get_message_body (sub_hdr_sz : Z) : srv bytes :=
  in_header ← get_header;
  len ← lift (ok_or InvalidHeaderLength
    (checked_sub in_header.(ih_len) (size_of InHeader) ≫= fun l => checked_sub l sub_hdr_sz));
  on_reader (read_exact mem len).

(** ** Replies *)

Definition out_header (len error unique : Z) : OutHeader :=
  {| oh_len := wrap 32 len; oh_error := error; oh_unique := unique |}.

(** [reply_ok]: [out] is the [as_slice] of the optional structure. *)
Definition reply_ok (out data : option bytes) : srv Z :=
  let data2 := default [] out in
  let data3 := default [] data in
  let len := size_of OutHeader + zlen data2 + zlen data3 in
  u ← unique;
  let header := as_slice (out_header len 0 u) in
  _ ← match data2, data3 with
      | [], [] => on_writer EncodeMessage (Writer_write header)
      | [], _ => on_writer EncodeMessage (Writer_write_vectored [header; data3])
      | _, [] => on_writer EncodeMessage (Writer_write_vectored [header; data2])
      | _, _ => on_writer EncodeMessage (Writer_write_vectored [header; data2; data3])
      end;
  gets (fun s => Writer_bytes_written s.(w_ctx).(sc_w)).

(** [do_reply_error]; the [explicit] flag only selects the log level. *)
Definition do_reply_error (err : io_error) (explicit : bool) : srv Z :=
  u ← unique;
  let header := out_header (size_of OutHeader) (- errno_of err) u in
  _ ← on_writer EncodeMessage (Writer_write_all (as_slice header));
  _ ← on_writer EncodeMessage (Writer_commit None);
  gets (fun s => Writer_bytes_written s.(w_ctx).(sc_w)).

Definition reply_error (err : io_error) : srv Z := do_reply_error err false.
Definition reply_error_explicit (err : io_error) : srv Z := do_reply_error err true.

(** [Result<()>] and [Result<T>] handlers share these tails. *)
Definition reply_unit (_ : unit) : srv Z := reply_ok None None.

Definition reply_struct {T} `{ByteValued T} (out : T) : srv Z := reply_ok (Some (as_slice out)) None.

Definition AttrOut_of (st : stat64) (timeout : Duration) : AttrOut := {|
  ao_attr_valid := timeout.(as_secs);
  ao_attr_valid_nsec := timeout.(subsec_nanos);
  ao_dummy := 0;
  ao_attr := Attr_from_stat64 st;
|}.

Definition handle_attr_result (m : prog F io_error (stat64 * Duration)) : srv Z :=
  fs_match m (fun '(st, timeout) => reply_struct (AttrOut_of st timeout)) reply_error.

(** [bytes_to_cstr(..).map_err(|e| { reply_error_explicit(EINVAL); e })?]: the
    outcome of the reply is ignored. *)
Definition name_of (buf : bytes) : srv CStr :=
  match bytes_to_cstr buf with
  | Ok name => mret name
  | Err e => fun s =>
    let '(s', o) := reply_error_explicit (Os EINVAL) s in
    (s', match o with Panic => Panic | _ => Err e end)
  | Panic => lift Panic
  end.

(** ** Handlers *)

Definition lookup : srv Z :=
  buf ← get_message_body 0;
  name ← name_of buf;
  version ← gets (fun s => s.(w_srv).(sv_vers));
  ctx ← get_context;
  parent ← nodeid;
  fs_match (fs_op (op_lookup ctx parent name))
    (fun entry =>
       if (version.(v_minor) <? KERNEL_MINOR_VERSION_LOOKUP_NEGATIVE_ENTRY_ZERO)
          && (entry.(en_inode) =? 0)
       then reply_error (Os ENOENT)
       else reply_struct (EntryOut_from entry))
    reply_error.

Definition forget : srv Z :=
  i ← r_read_obj ForgetIn;
  ctx ← get_context;
  inode ← nodeid;
  fs_match (fs_op (op_forget ctx inode i.(fg_nlookup))) (fun _ => mret 0) (fun _ => mret 0).

Definition getattr : srv Z :=
  i ← r_read_obj GetattrIn;
  let handle := if has_flag i.(ga_flags) GETATTR_FH then Some i.(ga_fh) else None in
  ctx ← get_context;
  inode ← nodeid;
  handle_attr_result (fs_op (op_getattr ctx inode handle)).

Definition setattr : srv Z :=
  setattr_in ← r_read_obj SetattrIn;
  let handle := if has_flag setattr_in.(sa_valid) FATTR_FH then Some setattr_in.(sa_fh) else None in
  let valid := from_bits_truncate SetattrValid_all setattr_in.(sa_valid) in
  let st := stat64_from_SetattrIn setattr_in in
  ctx ← get_context;
  inode ← nodeid;
  handle_attr_result (fs_op (op_setattr ctx inode st handle valid)).

Definition readlink : srv Z :=
  ctx ← get_context;
  inode ← nodeid;
  fs_match (fs_op (op_readlink ctx inode)) (fun linkname => reply_ok None (Some linkname)) reply_error.

(** [ctx.reply_ok(Some(EntryOut::from(entry)), None)] *)
Definition reply_entry (entry : Entry) : srv Z := reply_struct (EntryOut_from entry).

Definition symlink : srv Z :=
  buf ← get_message_body 0;
  '(name, linkname) ← lift (extract_two_cstrs buf);
  ctx ← get_context;
  parent ← nodeid;
  fs_match (fs_op (op_symlink ctx linkname parent name)) reply_entry reply_error.

Definition mknod : srv Z :=
  i ← r_read_obj MknodIn;
  buf ← get_message_body (size_of MknodIn);
  name ← name_of buf;
  ctx ← get_context;
  inode ← nodeid;
  fs_match (fs_op (op_mknod ctx inode name i.(mn_mode) i.(mn_rdev) i.(mn_umask)))
    reply_entry reply_error.

Definition mkdir : srv Z :=
  i ← r_read_obj MkdirIn;
  buf ← get_message_body (size_of MkdirIn);
  name ← name_of buf;
  ctx ← get_context;
  parent ← nodeid;
  fs_match (fs_op (op_mkdir ctx parent name i.(md_mode) i.(md_umask))) reply_entry reply_error.

Definition unlink : srv Z :=
  buf ← get_message_body 0;
  name ← name_of buf;
  ctx ← get_context;
  parent ← nodeid;
  fs_match (fs_op (op_unlink ctx parent name)) reply_unit reply_error.

Definition rmdir : srv Z :=
  buf ← get_message_body 0;
  name ← name_of buf;
  ctx ← get_context;
  parent ← nodeid;
  fs_match (fs_op (op_rmdir ctx parent name)) reply_unit reply_error.

Definition do_rename (msg_size newdir flags : Z) : srv Z :=
  buf ← get_message_body msg_size;
  '(oldname, newname) ← lift (extract_two_cstrs buf);
  ctx ← get_context;
  olddir ← nodeid;
  fs_match (fs_op (op_rename ctx olddir oldname newdir newname flags)) reply_unit reply_error.

Definition rename : srv Z :=
  i ← r_read_obj RenameIn;
  do_rename (size_of RenameIn) i.(rn_newdir) 0.

(** [libc::RENAME_NOREPLACE], [RENAME_EXCHANGE], [RENAME_WHITEOUT] are 1, 2, 4. *)
Definition rename2 : srv Z :=
  i ← r_read_obj Rename2In;
  let flags := Z.land i.(rn2_flags) (Z.lor (Z.lor 2 1) 4) in
  do_rename (size_of Rename2In) i.(rn2_newdir) flags.

Definition link : srv Z :=
  i ← r_read_obj LinkIn;
  buf ← get_message_body (size_of LinkIn);
  name ← name_of buf;
  ctx ← get_context;
  newparent ← nodeid;
  fs_match (fs_op (op_link ctx i.(ln_oldnodeid) newparent name)) reply_entry reply_error.

Definition OpenOut_of (handle : option Z) (opts : Z) (passthrough : option Z) : OpenOut :=
  {| oo_fh := default 0 handle; oo_open_flags := opts; oo_passthrough := default 0 passthrough |}.

Definition open : srv Z :=
  i ← r_read_obj OpenIn;
  ctx ← get_context;
  inode ← nodeid;
  fs_match (fs_op (op_open ctx inode i.(oi_flags) i.(oi_fuse_flags)))
    (fun '(handle, opts, passthrough) => reply_struct (OpenOut_of handle opts passthrough))
    reply_error.

(** Split the reply buffer after the header; the rest is for the payload. *)
Definition split_header : srv Writer := fun s =>
  match Writer_split_at (size_of OutHeader) s.(w_ctx).(sc_w) with
  | (w', Ok w2) => (set_writer w' s, Ok w2)
  | (w', Err _) => (set_writer w' s, Err InvalidHeaderLength)
  | (w', Panic) => (set_writer w' s, Panic)
  end.

(** Write the header in front of a payload collected in [w2] and send both. *)
Definition reply_split (w2 : Writer) (count : Z) : srv Z :=
  u ← unique;
  let out := out_header (size_of OutHeader + count) 0 u in
  _ ← on_writer EncodeMessage (Writer_write_all (as_slice out));
  _ ← on_writer EncodeMessage (Writer_commit (Some w2));
  mret out.(oh_len).

(** What the file system wrote through the [ZcWriter]. *)
Definition zc_append (data : bytes) (w : Writer) : Writer :=
  match w with WFuseDev fw => WFuseDev (extend_from_slice data fw) | WNoop => WNoop end.

(** The call to [fs.read] and the reply to its result. *)
Definition read_reply (i : ReadIn) (owner : option Z) (ctx : Context) (inode : Z) (data_writer : Writer)
  : srv Z := fun s =>
  let '(f', (data, res)) :=
    fs_read ctx inode i.(rd_fh) (Writer_available_bytes data_writer) i.(rd_size) i.(rd_offset)
            owner i.(rd_flags) s.(w_srv).(sv_fs) in
  let s' := set_fs f' s in
  match res with
  | Ok count => reply_split (zc_append data data_writer) count s'
  | Err e => reply_error e s'
  | Panic => (s', Panic)
  end.

Definition read : srv Z :=
  i ← r_read_obj ReadIn;
  let owner := if has_flag i.(rd_read_flags) READ_LOCKOWNER then Some i.(rd_lock_owner) else None in
  data_writer ← split_header;
  ctx ← get_context;
  inode ← nodeid;
  read_reply i owner ctx inode data_writer.

(** [take_reader] leaves an empty reader behind. *)
Definition take_reader : srv (Reader V) := fun s =>
  let c := s.(w_ctx) in
  (MkWorld s.(w_srv) (MkSrvContext c.(sc_in_header) c.(sc_context) Reader_default c.(sc_w)) s.(w_dev),
   Ok c.(sc_r)).

(** The bytes a reader still holds, what [ZcReader] gives the file system. *)
Definition reader_bytes (r : Reader V) : bytes :=
  concat (map (fun v => load mem (from_volatile_slice v)) r.(r_buffers).(buffers)).

Definition write : srv Z :=
  i ← r_read_obj WriteIn;
  let owner := if has_flag i.(wi_fuse_flags) WRITE_LOCKOWNER then Some i.(wi_lock_owner) else None in
  let delayed_write := has_flag i.(wi_fuse_flags) WRITE_CACHE in
  data_reader ← take_reader;
  ctx ← get_context;
  inode ← nodeid;
  fs_match (fs_write ctx inode i.(wi_fh) (reader_bytes data_reader) i.(wi_size) i.(wi_offset) owner
                     delayed_write i.(wi_flags) i.(wi_fuse_flags))
    (fun count => reply_struct {| wo_size := wrap 32 count; wo_padding := 0 |})
    reply_error.

Definition statfs : srv Z :=
  ctx ← get_context;
  inode ← nodeid;
  fs_match (fs_op (op_statfs ctx inode)) (fun st => reply_struct (Kstatfs_from st)) reply_error.

Definition release : srv Z :=
  i ← r_read_obj ReleaseIn;
  let flush := has_flag i.(ri_release_flags) RELEASE_FLUSH in
  let flock_release := has_flag i.(ri_release_flags) RELEASE_FLOCK_UNLOCK in
  let lock_owner := if flush || flock_release then Some i.(ri_lock_owner) else None in
  ctx ← get_context;
  inode ← nodeid;
  fs_match (fs_op (op_release ctx inode i.(ri_flags) i.(ri_fh) flush flock_release lock_owner))
    reply_unit reply_error.

Definition fsync : srv Z :=
  i ← r_read_obj FsyncIn;
  let datasync := has_flag i.(fs_fsync_flags) 0x1 in
  ctx ← get_context;
  inode ← nodeid;
  fs_match (fs_op (op_fsync ctx inode datasync i.(fs_fh))) reply_unit reply_error.

Definition setxattr : srv Z :=
  i ← r_read_obj SetxattrIn;
  buf ← get_message_body (size_of SetxattrIn);
  split_pos ← lift (ok_or MissingParameter (S <$> position (Z.eqb 0) buf));
  let name := take split_pos buf in
  let value := drop split_pos buf in
  if negb (i.(sx_size) =? wrap 32 (zlen value)) then fail (InvalidXattrSize i.(sx_size) (zlen value))
  else
    name ← name_of name;
    ctx ← get_context;
    inode ← nodeid;
    fs_match (fs_op (op_setxattr ctx inode name value i.(sx_flags))) reply_unit reply_error.

Definition getxattr : srv Z :=
  i ← r_read_obj GetxattrIn;
  buf ← get_message_body (size_of GetxattrIn);
  name ← name_of buf;
  ctx ← get_context;
  inode ← nodeid;
  fs_match (fs_op (op_getxattr ctx inode name i.(gx_size)))
    (fun reply => match reply with
                  | GxValue val => reply_ok None (Some val)
                  | GxCount count => reply_struct {| gxo_size := count; gxo_padding := 0 |}
                  end)
    reply_error.

Definition listxattr : srv Z :=
  i ← r_read_obj GetxattrIn;
  ctx ← get_context;
  inode ← nodeid;
  fs_match (fs_op (op_listxattr ctx inode i.(gx_size)))
    (fun reply => match reply with
                  | LxNames val => reply_ok None (Some val)
                  | LxCount count => reply_struct {| gxo_size := count; gxo_padding := 0 |}
                  end)
    reply_error.

Definition removexattr : srv Z :=
  buf ← get_message_body 0;
  name ← name_of buf;
  ctx ← get_context;
  inode ← nodeid;
  fs_match (fs_op (op_removexattr ctx inode name)) reply_unit reply_error.

Definition flush : srv Z :=
  i ← r_read_obj FlushIn;
  ctx ← get_context;
  inode ← nodeid;
  fs_match (fs_op (op_flush ctx inode i.(fi_fh) i.(fi_lock_owner))) reply_unit reply_error.

(** The [InitOut] of a successful negotiation. *)
Definition InitOut_of (enabled max_readahead : Z) : InitOut :=
  let max_write :=
    if has_all enabled MAX_PAGES || has_all enabled BIG_WRITES
    then wrap 32 (MAX_REQ_PAGES * wrap 32 pagesize)
    else MIN_READ_BUFFER - BUFFER_HEADER_SIZE in
  {| io_major := KERNEL_VERSION;
     io_minor := KERNEL_MINOR_VERSION;
     io_max_readahead := max_readahead;
     io_flags := wrap 32 enabled;
     io_max_background := U16_MAX;
     io_congestion_threshold := U16_MAX / 4 * 3;
     io_max_write := max_write;
     io_time_gran := 1;
     io_max_pages := if has_all enabled MAX_PAGES then MAX_REQ_PAGES else 0;
     io_map_alignment := 0;
     io_flags2 := wrap 32 (Z.shiftr enabled 32);
     io_unused0 := 0; io_unused1 := 0; io_unused2 := 0; io_unused3 := 0;
     io_unused4 := 0; io_unused5 := 0; io_unused6 := 0 |}.

Definition init : srv Z :=
  i ← r_read_obj InitIn;
  if i.(ii_major) <? KERNEL_VERSION then reply_error_explicit (Os EPROTO)
  else if KERNEL_VERSION <? i.(ii_major) then
    reply_struct (bv_of [KERNEL_VERSION; KERNEL_MINOR_VERSION] : InitOut)
  else
    flags ← (if has_flag i.(ii_flags) INIT_EXT then
               i2 ← r_read_obj InitIn2;
               mret (Z.lor i.(ii_flags) (Z.shiftl i2.(ii2_flags2) 32))
             else mret i.(ii_flags));
    let capable := from_bits_truncate FsOptions_all flags in
    fs_match (fs_op (op_init capable))
      (fun want =>
         let enabled := Z.land capable want in
         let out := as_slice (InitOut_of enabled i.(ii_max_readahead)) in
         _ ← modify (set_vers (MkServerVersion i.(ii_major) i.(ii_minor)));
         if i.(ii_minor) <? KERNEL_MINOR_VERSION_INIT_OUT_SIZE then
           reply_ok (Some (take (Z.to_nat FUSE_COMPAT_INIT_OUT_SIZE) out)) None
         else if i.(ii_minor) <? KERNEL_MINOR_VERSION_INIT_22_OUT_SIZE then
           reply_ok (Some (take (Z.to_nat FUSE_COMPAT_22_INIT_OUT_SIZE) out)) None
         else reply_ok (Some out) None)
      reply_error.

Definition opendir : srv Z :=
  i ← r_read_obj OpenIn;
  ctx ← get_context;
  inode ← nodeid;
  fs_match (fs_op (op_opendir ctx inode i.(oi_flags)))
    (fun '(handle, opts) => reply_struct (OpenOut_of handle opts None)) reply_error.

(** [add_dirent] over the cursor; the padding is at most seven bytes. *)
Definition add_dirent (max : Z) (d : DirEntry) (entry : option Entry) : prog (Writer * Dev) io_error Z :=
  if U32_MAX <? zlen d.(d_name) then fail (Os EOVERFLOW)
  else
    dirent_len ← lift (ok_or (Os EOVERFLOW) (checked_add (size_of Dirent) (zlen d.(d_name))));
    padded_dirent_len ← lift (ok_or (Os EOVERFLOW)
      ((fun l => Z.land l (Z.lnot 7)) <$> checked_add dirent_len 7));
    total_len ← lift (match entry with
                      | Some _ => ok_or (Os EOVERFLOW) (checked_add padded_dirent_len (size_of EntryOut))
                      | None => Ok padded_dirent_len
                      end);
    written ← gets (fun s => Writer_bytes_written s.1);
    if saturating_sub max written <? total_len then mret 0
    else
      _ ← match entry with
          | Some e => Writer_write_all (as_slice (EntryOut_from e))
          | None => mret tt
          end;
      let dirent := {| de_ino := d.(d_ino); de_off := d.(d_offset);
                       de_namelen := wrap 32 (zlen d.(d_name)); de_type := d.(d_type) |} in
      _ ← Writer_write_all (as_slice dirent);
      _ ← Writer_write_all d.(d_name);
      let padding := padded_dirent_len - dirent_len in
      _ ← (if 0 <? padding then Writer_write_all (take (Z.to_nat padding) DIRENT_PADDING) else mret tt);
      mret total_len.

(** The directory scan, with the cursor as the state of the callback. *)
Definition readdir_scan (plus : bool) (i : ReadIn) (ctx : Context) (inode : Z)
  : prog (F * (Writer * Dev)) io_error unit :=
  if plus then
    fs_readdirplus ctx inode i.(rd_fh) i.(rd_size) i.(rd_offset)
      (fun d e => add_dirent i.(rd_size) d (Some e))
  else
    fs_readdir ctx inode i.(rd_fh) i.(rd_size) i.(rd_offset)
      (fun d => add_dirent i.(rd_size) d None).

Definition readdir_reply (plus : bool) (i : ReadIn) (ctx : Context) (inode : Z) (cursor : Writer)
  : srv Z := fun s =>
  let '((f', (cursor', dev')), res) :=
    readdir_scan plus i ctx inode (s.(w_srv).(sv_fs), (cursor, s.(w_dev))) in
  let s' := MkWorld (MkServer f' s.(w_srv).(sv_vers)) s.(w_ctx) dev' in
  match res with
  | Err e => reply_error_explicit e s'
  | Ok _ => reply_split cursor' (Writer_bytes_written cursor') s'
  | Panic => (s', Panic)
  end.

Definition do_readdir (plus : bool) : srv Z :=
  i ← r_read_obj ReadIn;
  available_bytes ← gets (fun s => Writer_available_bytes s.(w_ctx).(sc_w));
  if available_bytes <? i.(rd_size) then reply_error_explicit (Os ENOMEM)
  else
    cursor ← split_header;
    ctx ← get_context;
    inode ← nodeid;
    readdir_reply plus i ctx inode cursor.

Definition readdir : srv Z := do_readdir false.
Definition readdirplus : srv Z := do_readdir true.

Definition releasedir : srv Z :=
  i ← r_read_obj ReleaseIn;
  ctx ← get_context;
  inode ← nodeid;
  fs_match (fs_op (op_releasedir ctx inode i.(ri_flags) i.(ri_fh))) reply_unit reply_error.

Definition fsyncdir : srv Z :=
  i ← r_read_obj FsyncIn;
  let datasync := has_flag i.(fs_fsync_flags) 0x1 in
  ctx ← get_context;
  inode ← nodeid;
  fs_match (fs_op (op_fsyncdir ctx inode datasync i.(fs_fh))) reply_unit reply_error.

Definition getlk : srv Z :=
  i ← r_read_obj LkIn;
  ctx ← get_context;
  inode ← nodeid;
  fs_match (fs_op (op_getlk ctx inode i.(li_fh) i.(li_owner) (FileLock_from_fuse i.(li_lk)) i.(li_lk_flags)))
    (fun l => reply_struct {| lo_lk := FileLock_to_fuse l |}) reply_error.

Definition setlk : srv Z :=
  i ← r_read_obj LkIn;
  ctx ← get_context;
  inode ← nodeid;
  fs_match (fs_op (op_setlk ctx inode i.(li_fh) i.(li_owner) (FileLock_from_fuse i.(li_lk)) i.(li_lk_flags)))
    reply_unit reply_error.

(** Calls [fs.setlk], as the source does. *)
Definition setlkw : srv Z :=
  i ← r_read_obj LkIn;
  ctx ← get_context;
  inode ← nodeid;
  fs_match (fs_op (op_setlk ctx inode i.(li_fh) i.(li_owner) (FileLock_from_fuse i.(li_lk)) i.(li_lk_flags)))
    reply_unit reply_error.

Definition access : srv Z :=
  i ← r_read_obj AccessIn;
  ctx ← get_context;
  inode ← nodeid;
  fs_match (fs_op (op_access ctx inode i.(ac_mask))) reply_unit reply_error.

(** [attr: entry.attr.into()] leaves the attribute flags at zero. *)
Definition create_entry_out (entry : Entry) : EntryOut := {|
  eo_nodeid := entry.(en_inode);
  eo_generation := entry.(en_generation);
  eo_entry_valid := entry.(en_entry_timeout).(as_secs);
  eo_attr_valid := entry.(en_attr_timeout).(as_secs);
  eo_entry_valid_nsec := entry.(en_entry_timeout).(subsec_nanos);
  eo_attr_valid_nsec := entry.(en_attr_timeout).(subsec_nanos);
  eo_attr := Attr_from_stat64 entry.(en_attr);
|}.

Definition create : srv Z :=
  args ← r_read_obj CreateIn;
  buf ← get_message_body (size_of CreateIn);
  name ← name_of buf;
  ctx ← get_context;
  parent ← nodeid;
  fs_match (fs_op (op_create ctx parent name args))
    (fun '(entry, handle, opts, passthrough) =>
       reply_ok (Some (as_slice (create_entry_out entry)))
                (Some (as_slice (OpenOut_of handle opts passthrough))))
    reply_error.

Definition interrupt : srv unit := mret tt.

Definition bmap : srv Z :=
  i ← r_read_obj BmapIn;
  ctx ← get_context;
  inode ← nodeid;
  fs_match (fs_op (op_bmap ctx inode i.(bi_block) i.(bi_blocksize)))
    (fun block => reply_struct {| bo_block := block |}) reply_error.

(** A failed reply is only logged. *)
Definition destroy : srv unit :=
  let reply : srv unit := fun s =>
    let '(s', o) := reply_ok None None s in
    (s', match o with Panic => Panic | _ => Ok tt end) in
  fs_match (fs_op op_destroy) (fun _ => reply) (fun _ => reply).

Definition ioctl : srv Z :=
  i ← r_read_obj IoctlIn;
  avail ← gets (fun s => Reader_available_bytes s.(w_ctx).(sc_r));
  if avail <? i.(ioi_in_size) then reply_error (Os ENOTTY)
  else
    data ← (if 0 <? i.(ioi_in_size) then
              data ← on_reader (Reader_read mem i.(ioi_in_size));
              mret (match data with [] => None | _ => Some data end)
            else mret None);
    ctx ← get_context;
    inode ← nodeid;
    fs_match (fs_op (op_ioctl ctx inode i.(ioi_fh) i.(ioi_flags) i.(ioi_cmd)
                              {| ioctl_result := 0; ioctl_data := data |} i.(ioi_out_size)))
      (fun res => reply_ok (Some (as_slice {| ioo_result := res.(ioctl_result); ioo_flags := 0;
                                              ioo_in_iovs := 0; ioo_out_iovs := 0 |}))
                           res.(ioctl_data))
      reply_error.

Definition poll : srv Z :=
  i ← r_read_obj PollIn;
  ctx ← get_context;
  inode ← nodeid;
  fs_match (fs_op (op_poll ctx inode i.(pi_fh) i.(pi_kh) i.(pi_flags) i.(pi_events)))
    (fun revents => reply_struct {| po_revents := revents; po_padding := 0 |}) reply_error.

Definition notify_reply : srv Z :=
  fs_match (fs_op op_notify_reply) (fun _ => mret 0) reply_error.

Fixpoint read_forgets (n : nat) : srv (list (Z * Z)) :=
  match n with
  | O => mret []
  | S n' =>
    f ← r_read_obj ForgetOne;
    rest ← read_forgets n';
    mret ((f.(fo_nodeid), f.(fo_nlookup)) :: rest)
  end.

Definition batch_forget : srv Z :=
  i ← r_read_obj BatchForgetIn;
  let limit := MAX_BUFFER_SIZE + BUFFER_HEADER_SIZE - size_of BatchForgetIn - size_of InHeader in
  match checked_mul i.(bf_count) (size_of ForgetOne) with
  | None => fail (InvalidMessage (Os EOVERFLOW))
  | Some size =>
    if limit <? size then fail (InvalidMessage (Os EOVERFLOW))
    else
      requests ← read_forgets (Z.to_nat i.(bf_count));
      ctx ← get_context;
      fs_match (fs_op (op_batch_forget ctx requests)) (fun _ => mret 0) (fun _ => mret 0)
  end.

Definition fallocate : srv Z :=
  i ← r_read_obj FallocateIn;
  ctx ← get_context;
  inode ← nodeid;
  fs_match (fs_op (op_fallocate ctx inode i.(fa_fh) i.(fa_mode) i.(fa_offset) i.(fa_length)))
    reply_unit reply_error.

Definition lseek : srv Z :=
  i ← r_read_obj LseekIn;
  ctx ← get_context;
  inode ← nodeid;
  fs_match (fs_op (op_lseek ctx inode i.(ls_fh) i.(ls_offset) i.(ls_whence)))
    (fun offset => reply_struct {| lso_offset := offset |}) reply_error.

(** ** Dispatch *)

Definition dispatch (opcode : Z) : srv Z :=
  let is_op op := opcode =? Opcode_value op in
  if is_op OpLookup then lookup
  else if is_op OpForget then forget
  else if is_op OpGetattr then getattr
  else if is_op OpSetattr then setattr
  else if is_op OpReadlink then readlink
  else if is_op OpSymlink then symlink
  else if is_op OpMknod then mknod
  else if is_op OpMkdir then mkdir
  else if is_op OpUnlink then unlink
  else if is_op OpRmdir then rmdir
  else if is_op OpRename then rename
  else if is_op OpLink then link
  else if is_op OpOpen then open
  else if is_op OpRead then read
  else if is_op OpWrite then write
  else if is_op OpStatfs then statfs
  else if is_op OpRelease then release
  else if is_op OpFsync then fsync
  else if is_op OpSetxattr then setxattr
  else if is_op OpGetxattr then getxattr
  else if is_op OpListxattr then listxattr
  else if is_op OpRemovexattr then removexattr
  else if is_op OpFlush then flush
  else if is_op OpInit then init
  else if is_op OpOpendir then opendir
  else if is_op OpReaddir then readdir
  else if is_op OpReleasedir then releasedir
  else if is_op OpFsyncdir then fsyncdir
  else if is_op OpGetlk then getlk
  else if is_op OpSetlk then setlk
  else if is_op OpSetlkw then setlkw
  else if is_op OpAccess then access
  else if is_op OpCreate then create
  else if is_op OpBmap then bmap
  else if is_op OpIoctl then ioctl
  else if is_op OpPoll then poll
  else if is_op OpNotifyReply then notify_reply
  else if is_op OpBatchForget then batch_forget
  else if is_op OpFallocate then fallocate
  else if is_op OpReaddirplus then readdirplus
  else if is_op OpRename2 then rename2
  else if is_op OpLseek then lseek
  else if is_op OpInterrupt then _ ← interrupt; mret 0
  else if is_op OpDestroy then _ ← destroy; mret 0
  else reply_error (Os ENOSYS).

(** The checks after the context is made: ids are remapped, then the length
    announced by the header is bounded. *)
Definition id_remap : srv unit := fun s =>
  let c := s.(w_ctx) in
  let '((f', ctx'), o) := fs_id_remap (s.(w_srv).(sv_fs), c.(sc_context)) in
  (MkWorld (MkServer f' s.(w_srv).(sv_vers))
           (MkSrvContext c.(sc_in_header) ctx' c.(sc_r) c.(sc_w)) s.(w_dev),
   map_err (fun _ => FailedToRemapID ctx'.(cx_uid) ctx'.(cx_gid)) o).

Definition handle_request : srv Z :=
  _ ← id_remap;
  in_header ← get_header;
  if MAX_BUFFER_SIZE + BUFFER_HEADER_SIZE <? in_header.(ih_len) then
    if (in_header.(ih_opcode) =? Opcode_value OpForget)
       || (in_header.(ih_opcode) =? Opcode_value OpBatchForget)
    then fail (InvalidMessage (Os EOVERFLOW))
    else reply_error_explicit (Os ENOMEM)
  else dispatch in_header.(ih_opcode).

(** [handle_message] on the server and the device. *)
Definition handle_message (r : Reader V) (w : Writer) : prog (Server F * Dev) Error Z :=
  fun '(srv, dev) =>
    match read_obj mem InHeader r with
    | (r', Ok in_header) =>
      let '(s', o) := handle_request (MkWorld srv (SrvContext_new in_header r' w) dev) in
      ((s'.(w_srv), s'.(w_dev)), o)
    | (_, Err e) => ((srv, dev), Err (DecodeMessage e))
    | (_, Panic) => ((srv, dev), Panic)
    end.

End server.
