(* ===== verification/ServerProps.v ===== *)
(** * Reply discipline of the server

    Whatever the request, the file system and the kernel's answers, a request
    makes the server submit at most one message to the device; its header
    carries the request's unique id and the true length of the message; and no
    path panics.  The proof follows the handlers: [quiet] programs leave the
    device alone, [framed] ones end in one reply. *)

From S2P Require Import Prelude Std Codec Abi AbiStruct Lib FsTypes FileSystem.
From S2P Require Import Transport TransportProps FuseDev FuseDevProps Server.

(** A reply message: a header with the length of the whole message and the
    unique id of the request, then the payload, empty in error replies. *)
Definition reply_frame (u : Z) (msg : bytes) : Prop :=
  in_u 32 (zlen msg) /\
  exists err payload,
    msg = as_slice {| oh_len := zlen msg; oh_error := err; oh_unique := u |} ++ payload /\
    (err = 0 \/ payload = []).

(** One reply of [n] bytes was submitted. *)
Definition replied (u n : Z) (d d' : Dev) : Prop :=
  exists msg, d' = d ++ [msg] /\ reply_frame u msg /\ zlen msg = n.

(** At most one was. *)
Definition answered (u : Z) (d d' : Dev) : Prop := d' = d \/ exists n, replied u n d d'.

Section framing.
Context {F V : Type} {FS : FileSystem F} {FSO : FileSystemOk F}.
Context {VS : VolatileSlice V} {VO : VolatileSliceOk V} {DEV : FuseDevice} {DO : FuseDeviceOk}.
Context (mem : Z -> Z) (pagesize : Z).

Abbreviation srv := (prog (world F V) Error).

Definition unique_of (s : world F V) : Z := s.(w_ctx).(sc_in_header).(ih_unique).

(** The writer of a request before any reply, small enough for the [u32]
    length of a header. *)
Definition fresh_writer (w : Writer) : Prop :=
  match w with
  | WFuseDev fw => fresh fw /\ fw_capacity fw <= U32_MAX
  | WNoop => True
  end.

Definition ready (s : world F V) : Prop :=
  reader_ok s.(w_ctx).(sc_r) /\ fresh_writer s.(w_ctx).(sc_w).

(** The writer after [split_header]: room for a header, [cap2] bytes behind. *)
Definition split_ready (cap2 : Z) (s : world F V) : Prop :=
  exists fw, s.(w_ctx).(sc_w) = WFuseDev fw /\ fw.(fw_buffered) = true /\ fw.(fw_len) = 0 /\
    fw_capacity fw = size_of OutHeader /\ size_of OutHeader + cap2 <= U32_MAX.

(** The other half: [n] bytes collected, [cap2] at most. *)
Definition half_writer (cap2 : Z) (w : Writer) : Prop :=
  exists fw, w = WFuseDev fw /\ fw.(fw_buffered) = true /\ writer_ok fw /\ fw_capacity fw = cap2.

(** How a program ends: it keeps the request's header and does not panic; if it
    fails, at most one reply is out; if it succeeds, [post] holds. *)
Definition ends {A} (post : A -> world F V -> world F V -> Prop) (s : world F V)
    (r : world F V * Result A) : Prop :=
  r.1.(w_ctx).(sc_in_header) = s.(w_ctx).(sc_in_header) /\
  match r.2 with
  | Ok a => post a s r.1
  | Err _ => answered (unique_of s) s.(w_dev) r.1.(w_dev)
  | Panic => False
  end.

Definition runs {A} (P : world F V -> Prop) (m : srv A) (post : A -> world F V -> world F V -> Prop) : Prop :=
  forall s, P s -> ends post s (m s).

Definition quiet {A} (P : world F V -> Prop) (m : srv A) (Q : A -> world F V -> Prop) : Prop :=
  runs P m (fun a s s' => s'.(w_dev) = s.(w_dev) /\ Q a s').

Definition framed (P : world F V -> Prop) (m : srv Z) : Prop :=
  runs P m (fun n s s' => replied (unique_of s) n s.(w_dev) s'.(w_dev)).

(** No reply on success. *)
Definition silent (P : world F V -> Prop) (m : srv Z) : Prop :=
  runs P m (fun n s s' => n = 0 /\ s'.(w_dev) = s.(w_dev)).

Definition maybe_framed (P : world F V -> Prop) (m : srv Z) : Prop :=
  runs P m (fun n s s' => answered (unique_of s) s.(w_dev) s'.(w_dev)).

(** ** Composition *)

(** A postcondition that sees only the device and the unique id of the state it
    starts from. *)
Definition local_post {A} (post : A -> world F V -> world F V -> Prop) : Prop :=
  forall a s s1 s2, s1.(w_dev) = s.(w_dev) -> unique_of s1 = unique_of s -> post a s1 s2 -> post a s s2.

Lemma ends_local {A} (post : A -> world F V -> world F V -> Prop) s s1 r :
  local_post post -> s1.(w_dev) = s.(w_dev) ->
  s1.(w_ctx).(sc_in_header) = s.(w_ctx).(sc_in_header) -> ends post s1 r -> ends post s r.
Proof.
  intros Hpost Hd Hh [Hr He]. assert (unique_of s1 = unique_of s) as Hu by (unfold unique_of; by rewrite Hh).
  split; [congruence|]. destruct r as [s2 [a|e|]]; cbn in *; [|by rewrite <- Hu, <- Hd|done].
  by apply (Hpost a s s1).
Qed.

Lemma runs_bind {A B} P (m : srv A) (k : A -> srv B) Q post :
  local_post post -> quiet P m Q -> (forall a, runs (Q a) (k a) post) -> runs P (m ≫= k) post.
Proof.
  intros Hpost Hm Hk s Hs. destruct (Hm s Hs) as [Hh Ho]. unfold mbind, prog_mbind, prog_bind.
  destruct (m s) as [s1 [a|e|]]; cbn in *; [|done|done].
  destruct Ho as [Hd HQ]. by eapply (ends_local post s s1); [..|apply Hk].
Qed.

Lemma framed_bind {A} P (m : srv A) (k : A -> srv Z) Q :
  quiet P m Q -> (forall a, framed (Q a) (k a)) -> framed P (m ≫= k).
Proof. apply runs_bind. intros n s s1 s2 -> ->. done. Qed.

Lemma silent_bind {A} P (m : srv A) (k : A -> srv Z) Q :
  quiet P m Q -> (forall a, silent (Q a) (k a)) -> silent P (m ≫= k).
Proof. apply runs_bind. intros n s s1 s2 -> _. done. Qed.

Lemma maybe_framed_bind {A} P (m : srv A) (k : A -> srv Z) Q :
  quiet P m Q -> (forall a, maybe_framed (Q a) (k a)) -> maybe_framed P (m ≫= k).
Proof. apply runs_bind. intros n s s1 s2 -> ->. done. Qed.

Lemma quiet_bind {A B} P (m : srv A) (k : A -> srv B) Q R :
  quiet P m Q -> (forall a, quiet (Q a) (k a) R) -> quiet P (m ≫= k) R.
Proof. apply runs_bind. intros b s s1 s2 -> _. done. Qed.

Lemma quiet_mret {A} (P : world F V -> Prop) (a : A) (Q : A -> world F V -> Prop) :
  (forall s, P s -> Q a s) -> quiet P (mret a) Q.
Proof. intros H s Hs. split; [done|]. by split; [|apply H]. Qed.

Lemma quiet_gets {A} (P : world F V -> Prop) (f : world F V -> A) : quiet P (gets f) (fun _ => P).
Proof. intros s Hs. done. Qed.

Lemma runs_pure {A} (phi : Prop) P (m : srv A) post :
  (phi -> runs P m post) -> runs (fun s => phi /\ P s) m post.
Proof. intros H s [Hphi Hs]. by apply H. Qed.

Lemma quiet_lift {A} (P : world F V -> Prop) (o : Result A) :
  o <> Panic -> quiet P (lift o) (fun a s => o = Ok a /\ P s).
Proof. intros Ho s Hs. split; [done|]. destruct o; [done|by left|done]. Qed.

Lemma runs_fail {A} P (e : Error) post : runs P (fail e : srv A) post.
Proof. intros s Hs. split; [done|]. by left. Qed.

(** ** Reading the request *)

Lemma quiet_on_reader {A} (m : prog (Reader V) io_error A) :
  (forall r, reader_ok r -> reader_ok (m r).1 /\ (m r).2 <> Panic) ->
  quiet ready (on_reader m : srv A) (fun _ => ready).
Proof.
  intros Hm s [Hr Hw]. unfold on_reader. specialize (Hm _ Hr).
  destruct (m s.(w_ctx).(sc_r)) as [r' o]. destruct Hm as [Hr' Ho]. cbn in *.
  split; [done|]. destruct o; cbn; [by split|by left|done].
Qed.

Lemma quiet_read_obj (T : Type) `{ByteValued T} : quiet ready (r_read_obj mem T : srv T) (fun _ => ready).
Proof.
  apply quiet_on_reader. intros r Hr.
  destruct (read_obj_spec mem T r Hr) as (r' & Hr' & _ & ->). split; [done|].
  cbn. by destruct (size_of T <=? zlen (content mem r)).
Qed.

Lemma quiet_read_exact n : 0 <= n -> quiet ready (on_reader (read_exact mem n) : srv bytes) (fun _ => ready).
Proof.
  intros Hn. apply quiet_on_reader. intros r Hr.
  destruct (read_exact_spec mem n r Hn Hr) as (r' & Hr' & _ & ->). split; [done|].
  cbn. by destruct (n <=? zlen (content mem r)).
Qed.

Lemma checked_sub_nonneg a b c : checked_sub a b = Some c -> 0 <= c.
Proof. unfold checked_sub. destruct (Z.leb_spec b a); intros [= <-]. lia. Qed.

Lemma quiet_get_message_body n : quiet ready (get_message_body mem n : srv bytes) (fun _ => ready).
Proof.
  eapply quiet_bind; [apply quiet_gets|]. intros h.
  eapply quiet_bind; [apply quiet_lift; by destruct (checked_sub _ _ ≫= _)|]. intros len.
  apply runs_pure. intros Hlen. apply quiet_read_exact.
  destruct (checked_sub (ih_len h) (size_of InHeader)) as [l|]; cbn in Hlen; [|done].
  destruct (checked_sub l n) eqn:E; simplify_eq/=. by eapply checked_sub_nonneg.
Qed.

(** ** Calling the file system *)

Lemma runs_fs_match {A B} (P : world F V -> Prop) (m : prog F io_error A) (ok : A -> srv B) err post :
  no_panic m -> (forall f s, P s -> P (set_fs f s)) -> local_post post ->
  (forall a, runs P (ok a) post) -> (forall e, runs P (err e) post) ->
  runs P (fs_match m ok err) post.
Proof.
  intros Hm HP Hpost Hok Herr s Hs. unfold fs_match. specialize (Hm s.(w_srv).(sv_fs)).
  destruct (m s.(w_srv).(sv_fs)) as [f' [a|e|]]; cbn in Hm; [| |done].
  all: eapply (ends_local post s (set_fs f' s)); [done..|].
  - by apply Hok, HP.
  - by apply Herr, HP.
Qed.

(** ** Replies *)

Lemma frame_ok u err payload :
  in_u 32 (size_of OutHeader + zlen payload) -> err = 0 \/ payload = [] ->
  reply_frame u (as_slice (out_header (size_of OutHeader + zlen payload) err u) ++ payload) /\
  zlen (as_slice (out_header (size_of OutHeader + zlen payload) err u) ++ payload)
    = size_of OutHeader + zlen payload.
Proof.
  intros Hlen Herr.
  assert (zlen (as_slice (out_header (size_of OutHeader + zlen payload) err u) ++ payload)
          = size_of OutHeader + zlen payload) as Hz by by rewrite zlen_app, as_slice_length.
  split; [|done]. split; [by rewrite Hz|]. exists err, payload. split; [|done].
  rewrite Hz. unfold out_header. by rewrite wrap_small.
Qed.

(** [m] submits [msg] as one message when the writer is fresh. *)
Definition submits {A} (msg : bytes) (m : prog (Writer * Dev) io_error A) : Prop :=
  (exists ok : Z -> A, forall fw d, fresh fw ->
     m (WFuseDev fw, d) =
       if fw_capacity fw <? zlen msg then ((WFuseDev fw, d), Err (Simple InvalidData))
       else match dev_answer d msg with
            | inl _ => ((WFuseDev fw, d ++ [msg]), Err (Simple Other))
            | inr n => ((WFuseDev (account_written n fw), d ++ [msg]), Ok (ok n))
            end) /\
  (exists e, forall d, m (WNoop, d) = ((WNoop, d), Err e)).

Lemma submits_write msg : submits msg (Writer_write msg).
Proof.
  split; [|by eexists]. exists (fun n => n). intros fw d Hf. cbn. rewrite write_fresh by done.
  by repeat case_match; simplify_eq.
Qed.

Lemma submits_write_vectored bufs : bufs <> [] -> submits (concat bufs) (Writer_write_vectored bufs).
Proof.
  intros Hne. split; [|by eexists]. exists (fun n => n). intros fw d Hf. cbn.
  rewrite write_vectored_fresh by done. by repeat case_match; simplify_eq.
Qed.

Lemma submits_write_all msg : msg <> [] -> submits msg (Writer_write_all msg).
Proof.
  intros Hne. split.
  - exists (fun _ => tt). intros fw d Hf. cbn. rewrite write_all_fresh by done.
    by repeat case_match; simplify_eq.
  - exists (Os EINVAL). intros d. cbn. by destruct msg.
Qed.

(** The state after a fresh writer has submitted a reply. *)
Definition sent (s s' : world F V) : Prop :=
  exists fw, s'.(w_ctx).(sc_w) = WFuseDev fw /\ fw.(fw_buffered) = false /\
    replied (unique_of s) fw.(fw_len) s.(w_dev) s'.(w_dev).

Lemma submit_reply {A} (m : prog (Writer * Dev) io_error A) err payload s :
  ready s -> err = 0 \/ payload = [] ->
  submits (as_slice (out_header (size_of OutHeader + zlen payload) err (unique_of s)) ++ payload) m ->
  ends (fun _ s s' => sent s s') s (on_writer EncodeMessage m s).
Proof.
  intros [_ Hw] Herr [[ok Hm] [e0 Hnoop]]. unfold on_writer.
  destruct (s.(w_ctx).(sc_w)) as [fw|]; [|rewrite Hnoop; by split; [|left]].
  destruct Hw as [[Hb Hl] Hcap]. rewrite Hm by done. set (msg := as_slice _ ++ payload) in *.
  destruct (Z.ltb_spec (fw_capacity fw) (zlen msg)) as [Hlt|Hge]; [by split; [|left]|].
  destruct (frame_ok (unique_of s) err payload) as [Hfr Hlen]; [|done|fold msg in Hfr, Hlen].
  { unfold msg in Hge. rewrite zlen_app, as_slice_length in Hge. unfold U32_MAX in *.
    pose proof (zlen_nonneg payload). unfold in_u, size_of in *. lia. }
  destruct (dev_answer s.(w_dev) msg) as [e|n] eqn:Ha; (split; [done|]).
  - right. eexists. by exists msg.
  - apply dev_answer_whole in Ha as ->. eexists. split_and!; [done|done|].
    exists msg. split_and!; [done|done|]. cbn. lia.
Qed.

Lemma framed_sent (P : world F V -> Prop) {A} (m1 : srv A) (k : A -> srv Z) :
  runs P m1 (fun _ s s' => sent s s') ->
  (forall a s fw, s.(w_ctx).(sc_w) = WFuseDev fw -> fw.(fw_buffered) = false ->
     k a s = (s, Ok fw.(fw_len))) ->
  framed P (m1 ≫= k).
Proof.
  intros Hm Hk s Hs. destruct (Hm s Hs) as [Hh Ho]. unfold mbind, prog_mbind, prog_bind.
  destruct (m1 s) as [s1 [a|e|]]; cbn in *; [|done|done].
  destruct Ho as (fw & Hw & Hb & Hrep). by rewrite (Hk a s1 fw Hw Hb).
Qed.

Lemma quiet_unique (P : world F V -> Prop) : quiet P (unique : srv Z) (fun u s => u = unique_of s /\ P s).
Proof. intros s Hs. done. Qed.

Lemma framed_reply_ok out data : framed ready (reply_ok out data).
Proof.
  unfold reply_ok. set (d2 := default [] out). set (d3 := default [] data).
  eapply framed_bind; [apply quiet_unique|]. intros u. apply framed_sent.
  - intros s [-> Hs]. set (h := as_slice (out_header _ 0 _)).
    assert (h = as_slice (out_header (size_of OutHeader + zlen (d2 ++ d3)) 0 (unique_of s))) as Hh
      by (unfold h; by rewrite zlen_app, Z.add_assoc).
    destruct d2 as [|x2 d2'], d3 as [|x3 d3']; eapply (submit_reply _ 0); try done; try (by left);
      rewrite <- Hh.
    + rewrite app_nil_r. apply submits_write.
    + rewrite <- (app_nil_r (x3 :: d3')) at 1. by apply (submits_write_vectored [h; x3 :: d3']).
    + by apply (submits_write_vectored [h; x2 :: d2']).
    + rewrite <- (app_nil_r (x3 :: d3')) at 1.
      by apply (submits_write_vectored [h; x2 :: d2'; x3 :: d3']).
  - intros _ s fw Hw Hb. unfold gets. by rewrite Hw.
Qed.

Lemma as_slice_nonempty (h : OutHeader) : as_slice h <> [].
Proof. by destruct h. Qed.

Lemma framed_reply_error e explicit : framed ready (do_reply_error e explicit).
Proof.
  eapply framed_bind; [apply quiet_unique|]. intros u. apply framed_sent.
  - intros s [-> Hs]. eapply (submit_reply _ (- errno_of e) []); [done|by right|].
    rewrite app_nil_r. change (size_of OutHeader + zlen []) with (size_of OutHeader).
    apply submits_write_all, as_slice_nonempty.
  - intros _ s fw Hw Hb. unfold mbind, prog_mbind, prog_bind, on_writer, gets. rewrite Hw. cbn.
    unfold FuseDevWriter_commit. cbn. rewrite Hb. cbn. destruct s as [sv [? ? ? ?] d]. cbn in *. by subst.
Qed.

(** ** Replies with a split writer *)

Definition other_bytes (other : option Writer) : bytes :=
  match other with Some (WFuseDev w) => fw_slice w | _ => [] end.

(** Header and payload leave as one message on [commit]. *)
Lemma split_send cap2 err other s :
  split_ready cap2 s -> zlen (other_bytes other) <= cap2 -> err = 0 \/ other_bytes other = [] ->
  let len := size_of OutHeader + zlen (other_bytes other) in
  ends (fun _ s s' => replied (unique_of s) len s.(w_dev) s'.(w_dev) /\
                      Writer_bytes_written s'.(w_ctx).(sc_w) = size_of OutHeader) s
    ((_ ← on_writer EncodeMessage (Writer_write_all (as_slice (out_header len err (unique_of s))));
      on_writer EncodeMessage (Writer_commit other)) s).
Proof.
  intros (fw & Hw & Hb & Hl & Hc & Hcap) Hle Herr len.
  set (h := as_slice (out_header len err (unique_of s))).
  assert (zlen h = size_of OutHeader) as Hh by apply as_slice_length.
  assert (writer_ok fw) as Hok by (unfold writer_ok; rewrite Hl, Hc; by vm_compute).
  assert (zlen h <= FuseDevWriter_available_bytes fw) as Hav
    by (unfold FuseDevWriter_available_bytes; lia).
  destruct (extend_ok fw h Hok Hav) as (Hok' & Hc' & Hs').
  assert (fw_slice fw = []) as Hnil by (unfold fw_slice; rewrite Hl; apply take_0).
  rewrite Hnil, app_nil_l in Hs'.
  unfold mbind, prog_mbind, prog_bind, on_writer at 1. rewrite Hw. cbn [Writer_write_all on_fusedev].
  rewrite write_all_buffered by done.
  destruct (Z.ltb_spec (FuseDevWriter_available_bytes fw) (zlen h)); [lia|]. cbn [map_err].
  unfold on_writer. cbn [w_ctx sc_w w_dev w_srv sc_in_header sc_context sc_r Writer_commit on_fusedev].
  fold (other_bytes other). rewrite commit_buffered; [|done|rewrite Hs'; apply as_slice_nonempty].
  rewrite Hs'. destruct (frame_ok (unique_of s) err (other_bytes other)) as [Hfr Hlen]; [|done|].
  { pose proof (zlen_nonneg (other_bytes other)). unfold in_u, U32_MAX, size_of in *. lia. }
  destruct (dev_answer s.(w_dev) (h ++ other_bytes other)); (split; [done|]); cbn.
  - right. eexists. by exists (h ++ other_bytes other).
  - split; [by exists (h ++ other_bytes other)|]. unfold FuseDevWriter_bytes_written. cbn. lia.
Qed.

Lemma framed_split_error cap2 e explicit : 0 <= cap2 -> framed (split_ready cap2) (do_reply_error e explicit).
Proof.
  intros Hc. eapply framed_bind; [apply quiet_unique|]. intros u s [-> Hs].
  pose proof (split_send cap2 (- errno_of e) None s Hs Hc (or_intror eq_refl)) as Hsend.
  cbn [other_bytes] in Hsend. change (size_of OutHeader + zlen []) with (size_of OutHeader) in Hsend.
  unfold mbind, prog_mbind, prog_bind in *.
  destruct (on_writer EncodeMessage (Writer_write_all _) s) as [s1 [[]|e1|]]; [|done|done].
  destruct (on_writer EncodeMessage (Writer_commit None) s1) as [s2 [n|e2|]]; [|done|done].
  destruct Hsend as (Hh & Hrep & Hbw). split; [done|]. cbn -[Writer_bytes_written] in *. by rewrite Hbw.
Qed.

Lemma framed_reply_split cap2 fw :
  fw.(fw_buffered) = true -> writer_ok fw -> fw_capacity fw <= cap2 ->
  framed (split_ready cap2) (reply_split (WFuseDev fw) fw.(fw_len)).
Proof.
  intros Hb Hok Hc. eapply framed_bind; [apply quiet_unique|]. intros u s [-> Hs].
  assert (zlen (fw_slice fw) = fw.(fw_len)) as Hl by by apply fw_slice_length.
  assert (zlen (other_bytes (Some (WFuseDev fw))) <= cap2) as Hle
    by (cbn; rewrite Hl; unfold writer_ok in Hok; lia).
  pose proof (split_send cap2 0 _ s Hs Hle (or_introl eq_refl)) as Hsend.
  cbn [other_bytes] in *. rewrite Hl in *. cbv zeta in Hsend.
  unfold mbind, prog_mbind, prog_bind in *.
  destruct (on_writer EncodeMessage (Writer_write_all _) s) as [s1 [[]|e1|]]; [|done|done].
  destruct (on_writer EncodeMessage (Writer_commit _) s1) as [s2 [n|e2|]]; [|done|done].
  destruct Hsend as (Hh & Hrep & _). split; [done|]. cbn. rewrite wrap_small; [done|].
  destruct Hs as (fw1 & _ & _ & _ & _ & Hcap). unfold writer_ok, in_u, U32_MAX, size_of in *. lia.
Qed.

(** The state and the second half after [split_header]. *)
Definition has_split (w2 : Writer) (s : world F V) : Prop :=
  exists fw2, w2 = WFuseDev fw2 /\ fw2.(fw_buffered) = true /\ fw2.(fw_len) = 0 /\
    split_ready (fw_capacity fw2) s.

Lemma quiet_split_header : quiet ready (split_header : srv Writer) has_split.
Proof.
  intros s [_ Hw]. unfold split_header. destruct (s.(w_ctx).(sc_w)) as [fw|] eqn:Ew; [|by split; [|left]].
  destruct Hw as [[Hb Hl] Hcap]. cbn. rewrite split_fresh by done.
  destruct (Z.ltb_spec (fw_capacity fw) (size_of OutHeader)); [by split; [|left]|].
  split; [done|]. split; [done|]. eexists. split_and!; [done..|].
  eexists. split_and!; [done..| |]; unfold fw_capacity, zlen in *; cbn.
  - rewrite length_take. unfold size_of in *. lia.
  - rewrite length_drop. unfold size_of in *. lia.
Qed.

Lemma quiet_name_of buf : quiet ready (name_of buf : srv CStr) (fun _ => ready).
Proof.
  unfold name_of. pose proof (bytes_to_cstr_total buf).
  destruct (bytes_to_cstr buf) as [name|e|]; [by apply quiet_mret| |done].
  intros s Hs. destruct (framed_reply_error (Os EINVAL) true s Hs) as [Hh Ho].
  unfold reply_error_explicit. destruct (do_reply_error (Os EINVAL) true s) as [s' [n|e'|]];
    cbn in *; (split; [done|]); [right; by exists n|done|done].
Qed.

Lemma framed_read_reply i owner ctx inode w2 : framed (has_split w2) (read_reply i owner ctx inode w2).
Proof.
  intros s (fw2 & -> & Hb & Hl & Hs). unfold read_reply. cbn [Writer_available_bytes].
  assert (FuseDevWriter_available_bytes fw2 = fw_capacity fw2) as Hav
    by (unfold FuseDevWriter_available_bytes; lia).
  assert (0 <= fw_capacity fw2) as Hnn by apply zlen_nonneg.
  pose proof (fs_read_ok ctx inode i.(rd_fh) (FuseDevWriter_available_bytes fw2) i.(rd_size)
    i.(rd_offset) owner i.(rd_flags) s.(w_srv).(sv_fs) ltac:(lia)) as Hread.
  destruct (fs_read _ _ _ _ _ _ _ _ _) as [f' [data res]]. destruct Hread as [Hlen Hres].
  assert (split_ready (fw_capacity fw2) (set_fs f' s)) as Hs' by done.
  assert (writer_ok fw2) as Hok by (unfold writer_ok; lia).
  destruct res as [n|e|]; [| |done].
  - subst n. destruct (extend_ok fw2 data Hok Hlen) as (Hok' & Hc' & _).
    apply (ends_local _ s (set_fs f' s)); [intros ? ? ? ? -> ->; done|done..|].
    replace (zlen data) with ((extend_from_slice data fw2).(fw_len)) by (cbn; lia).
    apply (framed_reply_split (fw_capacity fw2)); [done..|lia|done].
  - apply (ends_local _ s (set_fs f' s)); [intros ? ? ? ? -> ->; done|done..|].
    by apply (framed_split_error (fw_capacity fw2)).
Qed.

(** ** Directory entries *)

(** [m] keeps the second half well formed and the device untouched. *)
Definition fills {A} (cap2 : Z) (d : Dev) (m : prog (Writer * Dev) io_error A) : Prop :=
  forall w, half_writer cap2 w -> half_writer cap2 (m (w, d)).1.1 /\ (m (w, d)).1.2 = d /\ (m (w, d)).2 <> Panic.

Lemma fills_bind {A B} cap2 d (m : prog (Writer * Dev) io_error A) (k : A -> prog (Writer * Dev) io_error B) :
  fills cap2 d m -> (forall a, fills cap2 d (k a)) -> fills cap2 d (m ≫= k).
Proof.
  intros Hm Hk w Hw. specialize (Hm w Hw). unfold mbind, prog_mbind, prog_bind.
  destruct (m (w, d)) as [[w1 d1] [a|e|]]; cbn in *; destruct Hm as (H1 & -> & H3); [|done|done].
  by apply Hk.
Qed.

Lemma fills_lift {A} cap2 d (o : io_result A) : o <> Panic -> fills cap2 d (lift o).
Proof. intros Ho w Hw. done. Qed.

Lemma fills_write_all cap2 d data : fills cap2 d (Writer_write_all data).
Proof.
  intros w (fw & -> & Hb & Hok & Hc). cbn. rewrite write_all_buffered by done.
  destruct (Z.ltb_spec (FuseDevWriter_available_bytes fw) (zlen data)) as [Hlt|Hge]; cbn.
  - split_and!; [by exists fw|done|done].
  - destruct (extend_ok fw data Hok Hge) as (Hok' & Hc' & _). split_and!; [|done|done].
    eexists. split_and!; [done|done|done|]. by rewrite Hc'.
Qed.

Lemma fills_add_dirent cap2 d max de entry : fills cap2 d (add_dirent max de entry).
Proof.
  unfold add_dirent. destruct (U32_MAX <? zlen (d_name de)); [by intros w Hw|].
  apply fills_bind; [apply fills_lift; by destruct (checked_add _ _)|]. intros dirent_len.
  apply fills_bind; [apply fills_lift; by destruct (_ <$> checked_add _ _)|]. intros padded.
  apply fills_bind; [apply fills_lift; destruct entry; [by destruct (checked_add _ _)|done]|]. intros total.
  apply fills_bind; [by intros w Hw|]. intros written.
  destruct (saturating_sub max written <? total); [by intros w Hw|].
  apply fills_bind; [destruct entry; [apply fills_write_all|by intros w Hw]|]. intros _.
  apply fills_bind; [apply fills_write_all|]. intros _.
  apply fills_bind; [apply fills_write_all|]. intros _.
  apply fills_bind; [|by intros _ w Hw]. destruct (0 <? padded - dirent_len);
    [apply fills_write_all|by intros w Hw].
Qed.

Lemma readdir_scan_fills plus i ctx inode cap2 (f : F) w d :
  half_writer cap2 w ->
  let '((_, (w', d')), o) := readdir_scan plus i ctx inode (f, (w, d)) in
  half_writer cap2 w' /\ d' = d /\ o <> Panic.
Proof.
  intros Hw. set (P := fun x : Writer * Dev => half_writer cap2 x.1 /\ x.2 = d).
  assert (P ((readdir_scan plus i ctx inode (f, (w, d))).1.2) /\
          (readdir_scan plus i ctx inode (f, (w, d))).2 <> Panic) as [[H1 H2] H3].
  { unfold readdir_scan. destruct plus.
    - apply (fs_readdirplus_keeps _ ctx inode _ _ _ _ P); [|done].
      intros [de e] [w1 d1] [Hw1 Hd1]. cbn in *. subst d1.
      by destruct (fills_add_dirent cap2 d i.(rd_size) de (Some e) w1 Hw1) as (? & ? & ?).
    - apply (fs_readdir_keeps _ ctx inode _ _ _ _ P); [|done].
      intros de [w1 d1] [Hw1 Hd1]. cbn in *. subst d1.
      by destruct (fills_add_dirent cap2 d i.(rd_size) de None w1 Hw1) as (? & ? & ?). }
  by destruct (readdir_scan plus i ctx inode (f, (w, d))) as [[f' [w' d']] o].
Qed.

Lemma framed_readdir_reply plus i ctx inode w2 : framed (has_split w2) (readdir_reply plus i ctx inode w2).
Proof.
  intros s (fw2 & -> & Hb & Hl & Hs). unfold readdir_reply.
  assert (half_writer (fw_capacity fw2) (WFuseDev fw2)) as Hhalf.
  { exists fw2. split_and!; try done. unfold writer_ok. rewrite Hl. pose proof (zlen_nonneg fw2.(fw_mem)).
    unfold fw_capacity. lia. }
  pose proof (readdir_scan_fills plus i ctx inode _ s.(w_srv).(sv_fs) _ s.(w_dev) Hhalf) as Hscan.
  destruct (readdir_scan _ _ _ _ _) as [[f' [w' d']] o]. destruct Hscan as (Hw' & -> & Ho).
  assert (split_ready (fw_capacity fw2) (set_fs f' s)) as Hs' by done.
  destruct o as [u|e|]; [| |done];
    (apply (ends_local _ s (set_fs f' s)); [intros ? ? ? ? -> ->; done|done..|]).
  - destruct Hw' as (fw' & -> & Hb' & Hok' & Hc'). cbn [Writer_bytes_written].
    apply (framed_reply_split (fw_capacity fw2)); [done..|lia|done].
  - apply (framed_split_error (fw_capacity fw2)); [apply zlen_nonneg|done].
Qed.

(** ** Handlers *)

Lemma ready_set_fs f s : ready s -> ready (set_fs f s).
Proof. done. Qed.

Lemma local_replied :
  local_post (fun (n : Z) (s s' : world F V) => replied (unique_of s) n s.(w_dev) s'.(w_dev)).
Proof. intros n s s1 s2 -> ->. done. Qed.

Lemma local_answered :
  local_post (fun (_ : Z) (s s' : world F V) => answered (unique_of s) s.(w_dev) s'.(w_dev)).
Proof. intros n s s1 s2 -> ->. done. Qed.

Lemma local_silent : local_post (fun (n : Z) (s s' : world F V) => n = 0 /\ s'.(w_dev) = s.(w_dev)).
Proof. intros n s s1 s2 -> _. done. Qed.

Lemma framed_fs_op {A : Set} (op : FsOp A) (ok : A -> srv Z) err :
  (forall a, framed ready (ok a)) -> (forall e, framed ready (err e)) ->
  framed ready (fs_match (fs_op op) ok err).
Proof. apply runs_fs_match; [apply fs_op_no_panic|apply ready_set_fs|apply local_replied]. Qed.

Lemma silent_fs_op {A : Set} (op : FsOp A) (ok : A -> srv Z) err :
  (forall a, silent ready (ok a)) -> (forall e, silent ready (err e)) ->
  silent ready (fs_match (fs_op op) ok err).
Proof. apply runs_fs_match; [apply fs_op_no_panic|apply ready_set_fs|apply local_silent]. Qed.

Lemma quiet_take_reader : quiet ready (take_reader : srv (Reader V)) (fun _ => ready).
Proof.
  intros s [Hr Hw]. split; [done|]. split; [done|]. split; [|done].
  unfold reader_ok, buffers_ok. cbn. unfold flat, U64_MAX. cbn. split; [done|]. change (zlen (A := Z) []) with 0. lia.
Qed.

Lemma quiet_Reader_read n : 0 <= n -> quiet ready (on_reader (Reader_read mem n) : srv bytes) (fun _ => ready).
Proof.
  intros Hn. apply quiet_on_reader. intros r Hr.
  by destruct (Reader_read_spec mem n r Hn Hr) as (r' & -> & _ & Hr' & _).
Qed.

Lemma extract_two_cstrs_total buf : extract_two_cstrs buf <> Panic.
Proof.
  unfold extract_two_cstrs, mbind, outcome_mbind, outcome_bind, map_err, from_bytes_with_nul.
  repeat case_match; try done; simplify_eq;
    exfalso; by eapply bytes_to_cstr_total.
Qed.

Lemma framed_fs_write ctx inode fh data size offset owner delayed flags fuse_flags (ok : Z -> srv Z) err :
  (forall a, framed ready (ok a)) -> (forall e, framed ready (err e)) ->
  framed ready (fs_match (fs_write ctx inode fh data size offset owner delayed flags fuse_flags) ok err).
Proof. apply runs_fs_match; [apply fs_write_no_panic|apply ready_set_fs|apply local_replied]. Qed.

Lemma quiet_extract buf :
  quiet ready (lift (extract_two_cstrs buf) : srv (CStr * CStr)) (fun _ => ready).
Proof.
  intros s Hs. destruct (quiet_lift ready _ (extract_two_cstrs_total buf) s Hs) as [Hh Ho].
  split; [done|]. destruct (lift _ s) as [s' [a|e|]]; cbn in *; by destruct_and?.
Qed.

(** Run through a handler: reads of the request and accessors are quiet, a
    call to the file system or a reply ends it. *)
Ltac quiet_step :=
  first [ apply quiet_read_obj | apply quiet_get_message_body | apply quiet_name_of
        | apply quiet_extract | apply quiet_take_reader | apply quiet_split_header | apply quiet_gets ].

Ltac reply_step :=
  first [ apply framed_reply_ok | apply framed_reply_error
        | apply framed_read_reply | apply framed_readdir_reply ].

Ltac framed_auto :=
  repeat first
    [ reply_step
    | apply framed_fs_op; intros
    | apply framed_fs_write; intros
    | eapply framed_bind; [quiet_step|intros ?]
    | apply runs_fail
    | progress cbv zeta
    | match goal with
      | |- framed _ (match ?x with _ => _ end) => destruct x
      | |- runs _ (match ?x with _ => _ end) _ => destruct x
      end ].

Lemma framed_setxattr : framed ready (setxattr mem).
Proof.
  unfold setxattr. framed_auto.
  eapply framed_bind; [apply quiet_lift; by destruct (_ <$> position _ _)|]. intros pos.
  apply runs_pure. intros _. framed_auto.
Qed.

Lemma framed_init : framed ready (init mem pagesize).
Proof.
  unfold init. framed_auto. eapply (framed_bind _ _ _ (fun _ => ready)).
  { case_match; [|by apply quiet_mret]. eapply quiet_bind; [apply quiet_read_obj|]. intros i2.
    by apply quiet_mret. }
  intros flags. apply framed_fs_op; [|intros; apply framed_reply_error]. intros want.
  eapply (framed_bind _ _ _ (fun _ => ready)); [intros s Hs; done|]. intros _. framed_auto.
Qed.

Lemma framed_ioctl : framed ready (ioctl mem).
Proof.
  unfold ioctl. framed_auto. eapply (framed_bind _ _ _ (fun _ => ready)); [|intros data; framed_auto].
  destruct (Z.ltb_spec 0 (ioi_in_size a)); [|by apply quiet_mret].
  eapply quiet_bind; [apply quiet_Reader_read; lia|]. intros l. by apply quiet_mret.
Qed.

Lemma silent_mret : silent ready (mret 0).
Proof. intros s Hs. done. Qed.

Lemma silent_forget : silent ready (forget mem).
Proof.
  unfold forget. repeat (eapply silent_bind; [quiet_step|intros ?]).
  apply silent_fs_op; intros; apply silent_mret.
Qed.

Lemma quiet_read_forgets n : quiet ready (read_forgets mem n : srv (list (Z * Z))) (fun _ => ready).
Proof.
  induction n as [|n IH]; cbn [read_forgets]; [by apply quiet_mret|].
  eapply quiet_bind; [apply quiet_read_obj|]. intros f.
  eapply quiet_bind; [apply IH|]. intros rest. by apply quiet_mret.
Qed.

Lemma silent_batch_forget : silent ready (batch_forget mem).
Proof.
  unfold batch_forget. eapply silent_bind; [quiet_step|intros i].
  destruct (checked_mul _ _) as [size|]; [|apply runs_fail]. cbv zeta.
  case_match; [apply runs_fail|]. eapply silent_bind; [apply quiet_read_forgets|intros reqs].
  eapply silent_bind; [quiet_step|intros ctx]. apply silent_fs_op; intros; apply silent_mret.
Qed.

Lemma maybe_framed_of_framed P m : framed P m -> maybe_framed P m.
Proof.
  intros Hm s Hs. destruct (Hm s Hs) as [Hh Ho]. split; [done|].
  destruct (m s) as [s' [n|e|]]; cbn in *; [right; by exists n|done|done].
Qed.

Lemma maybe_framed_notify_reply : maybe_framed ready notify_reply.
Proof.
  apply runs_fs_match; [apply fs_op_no_panic|apply ready_set_fs|apply local_answered| |].
  - intros _ s Hs. split; [done|]. by left.
  - intros e. apply maybe_framed_of_framed, framed_reply_error.
Qed.

Lemma maybe_framed_destroy : maybe_framed ready (_ ← destroy; mret 0).
Proof.
  assert (maybe_framed ready (_ ← ((fun s : world F V => let '(s', o) := reply_ok None None s in
            (s', match o with Panic => Panic | _ => Ok tt end)) : srv unit); mret 0)) as Hreply.
  { intros s Hs. destruct (framed_reply_ok None None s Hs) as [Hh Ho].
    unfold mbind, prog_mbind, prog_bind. destruct (reply_ok None None s) as [s' [n|e|]]; cbn in *;
      (split; [done|]); [right; by exists n|done|done]. }
  intros s Hs. unfold destroy, fs_match, mbind, prog_mbind, prog_bind.
  pose proof (fs_op_no_panic unit op_destroy s.(w_srv).(sv_fs)) as Hnp.
  destruct (fs_op op_destroy s.(w_srv).(sv_fs)) as [f' [a|e|]]; cbn in Hnp; [| |done].
  all: apply (ends_local _ s (set_fs f' s)); [apply local_answered|done..|].
  all: apply (Hreply (set_fs f' s)), Hs.
Qed.

(** Requests that have no reply, and those that may have none. *)
Definition never_replies (opcode : Z) : bool :=
  (opcode =? Opcode_value OpForget) || (opcode =? Opcode_value OpBatchForget)
  || (opcode =? Opcode_value OpInterrupt).

Definition may_not_reply (opcode : Z) : bool :=
  (opcode =? Opcode_value OpNotifyReply) || (opcode =? Opcode_value OpDestroy).

Definition outcome_post (opcode n : Z) (u : Z) (d d' : Dev) : Prop :=
  if never_replies opcode then n = 0 /\ d' = d
  else if may_not_reply opcode then answered u d d'
  else replied u n d d'.

Lemma dispatch_outcome opcode :
  runs ready (dispatch mem pagesize opcode)
    (fun n s s' => outcome_post opcode n (unique_of s) s.(w_dev) s'.(w_dev)).
Proof.
  unfold dispatch.
  repeat match goal with |- runs _ (if ?b then _ else _) _ =>
    let E := fresh "E" in destruct b eqn:E; [apply Z.eqb_eq in E; subst opcode|] end.
  all: match goal with
       | |- runs _ (forget _) _ => apply silent_forget
       | |- runs _ (batch_forget _) _ => apply silent_batch_forget
       | |- runs _ (_ ← interrupt; _) _ => by intros s Hs
       | |- runs _ notify_reply _ => apply maybe_framed_notify_reply
       | |- runs _ (_ ← destroy; _) _ => apply maybe_framed_destroy
       | |- runs _ (setxattr _) _ => apply framed_setxattr
       | |- runs _ (init _ _) _ => apply framed_init
       | |- runs _ (ioctl _) _ => apply framed_ioctl
       | |- runs _ (reply_error _) _ => idtac
       | |- runs _ ?m (fun n s s' => _) =>
         change (framed ready m); eapply framed_bind; [quiet_step|intros ?]; framed_auto
       end.
  unfold outcome_post, never_replies, may_not_reply.
  repeat match goal with E : (opcode =? _) = false |- _ => rewrite E; clear E end.
  apply framed_reply_error.
Qed.

(** ** One message *)

Definition oversized (h : InHeader) : bool := MAX_BUFFER_SIZE + BUFFER_HEADER_SIZE <? h.(ih_len).

Lemma quiet_id_remap : quiet ready (id_remap : srv unit) (fun _ => ready).
Proof.
  intros s Hs. unfold id_remap.
  pose proof (fs_id_remap_no_panic (s.(w_srv).(sv_fs), s.(w_ctx).(sc_context))) as Hnp.
  destruct (fs_id_remap _) as [[f' ctx'] [a|e|]]; cbn in Hnp; [by split|by split; [|left]|done].
Qed.

Lemma handle_request_outcome h :
  runs (fun s => s.(w_ctx).(sc_in_header) = h /\ ready s) (handle_request mem pagesize)
    (fun n s s' => if oversized h then replied (unique_of s) n s.(w_dev) s'.(w_dev)
                   else outcome_post h.(ih_opcode) n (unique_of s) s.(w_dev) s'.(w_dev)).
Proof.
  intros s [Hh Hs]. destruct (quiet_id_remap s Hs) as [Hh1 Ho].
  unfold handle_request, mbind, prog_mbind, prog_bind.
  destruct (id_remap s) as [s1 [[]|e|]]; cbn in *; [|by split|done].
  destruct Ho as [Hd Hs1]. apply (ends_local _ s s1); [|done..|].
  { unfold outcome_post, answered. intros n s2 s3 s4 -> ->. done. }
  rewrite Hh1, Hh. fold (oversized h). destruct (oversized h).
  - case_match; [apply (runs_fail ready); apply Hs1|by apply framed_reply_error].
  - by apply dispatch_outcome.
Qed.

End framing.
