(* ===== verification/ServerWire.v ===== *)
(** * The server against the protocol

    The other side of the wire: how the kernel encodes a call of [FsOp] as a
    request and what reply it expects.  The refinement theorem says that the
    server, given the bytes of such a request, runs that very call on the file
    system and sends that very reply. *)

From S2P Require Import Prelude Std Codec Abi AbiStruct Lib FsTypes FileSystem.
From S2P Require Import Transport TransportProps FuseDev FuseDevProps Instances Server ServerProps.

(** ** Encoding of requests *)

Definition is_Some_b {A} (o : option A) : bool := match o with Some _ => true | None => false end.

Definition GetattrIn_of (handle : option Z) : GetattrIn :=
  {| ga_flags := if is_Some_b handle then GETATTR_FH else 0; ga_dummy := 0; ga_fh := default 0 handle |}.

Definition SetattrIn_of (attr : stat64) (handle : option Z) (valid : Z) : SetattrIn := {|
  sa_valid := if is_Some_b handle then Z.lor valid FATTR_FH else valid;
  sa_padding := 0;
  sa_fh := default 0 handle;
  sa_size := wrap 64 attr.(st_size);
  sa_lock_owner := 0;
  sa_atime := wrap 64 attr.(st_atime);
  sa_mtime := wrap 64 attr.(st_mtime);
  sa_ctime := wrap 64 attr.(st_ctime);
  sa_atimensec := attr.(st_atime_nsec);
  sa_mtimensec := attr.(st_mtime_nsec);
  sa_ctimensec := attr.(st_ctime_nsec);
  sa_mode := attr.(st_mode);
  sa_unused4 := 0;
  sa_uid := attr.(st_uid);
  sa_gid := attr.(st_gid);
  sa_unused5 := 0;
|}.

Definition ReleaseIn_of (flags handle : Z) (flush flock_release : bool) (lock_owner : option Z) : ReleaseIn := {|
  ri_fh := handle;
  ri_flags := flags;
  ri_release_flags := Z.lor (if flush then RELEASE_FLUSH else 0) (if flock_release then RELEASE_FLOCK_UNLOCK else 0);
  ri_lock_owner := default 0 lock_owner;
|}.

Definition FsyncIn_of (handle : Z) (datasync : bool) : FsyncIn :=
  {| fs_fh := handle; fs_fsync_flags := if datasync then FSYNC_FDATASYNC else 0; fs_padding := 0 |}.

Definition LkIn_of (handle owner : Z) (lock : FileLock) (flags : Z) : LkIn :=
  {| li_fh := handle; li_owner := owner; li_lk := FileLock_to_fuse lock; li_lk_flags := flags; li_padding := 0 |}.

Definition IoctlIn_of (handle flags cmd : Z) (data : IoctlData) (out_size : Z) : IoctlIn := {|
  ioi_fh := handle;
  ioi_flags := flags;
  ioi_cmd := cmd;
  ioi_arg := 0;
  ioi_in_size := zlen (default [] data.(ioctl_data));
  ioi_out_size := out_size;
|}.

(** The node a call is addressed to. *)
Definition wire_nodeid {A : Set} (op : FsOp A) : Z :=
  match op with
  | op_lookup _ i _ | op_forget _ i _ | op_getattr _ i _ | op_setattr _ i _ _ _
  | op_readlink _ i | op_symlink _ _ i _ | op_mknod _ i _ _ _ _ | op_mkdir _ i _ _ _
  | op_unlink _ i _ | op_rmdir _ i _ | op_rename _ i _ _ _ _ | op_link _ _ i _
  | op_open _ i _ _ | op_create _ i _ _ | op_flush _ i _ _ | op_fsync _ i _ _
  | op_fallocate _ i _ _ _ _ | op_release _ i _ _ _ _ _ | op_statfs _ i
  | op_setxattr _ i _ _ _ | op_getxattr _ i _ _ | op_listxattr _ i _ | op_removexattr _ i _
  | op_opendir _ i _ | op_fsyncdir _ i _ _ | op_releasedir _ i _ _ | op_access _ i _
  | op_lseek _ i _ _ _ | op_getlk _ i _ _ _ _ | op_setlk _ i _ _ _ _ | op_setlkw _ i _ _ _ _
  | op_ioctl _ i _ _ _ _ _ | op_bmap _ i _ _ | op_poll _ i _ _ _ _ => i
  | op_init _ | op_destroy | op_batch_forget _ _ | op_notify_reply => 0
  end.

(** The context a call is made in. *)
Definition op_context {A : Set} (op : FsOp A) : Context :=
  match op with
  | op_lookup c _ _ | op_forget c _ _ | op_batch_forget c _ | op_getattr c _ _ | op_setattr c _ _ _ _
  | op_readlink c _ | op_symlink c _ _ _ | op_mknod c _ _ _ _ _ | op_mkdir c _ _ _ _
  | op_unlink c _ _ | op_rmdir c _ _ | op_rename c _ _ _ _ _ | op_link c _ _ _
  | op_open c _ _ _ | op_create c _ _ _ | op_flush c _ _ _ | op_fsync c _ _ _
  | op_fallocate c _ _ _ _ _ | op_release c _ _ _ _ _ _ | op_statfs c _
  | op_setxattr c _ _ _ _ | op_getxattr c _ _ _ | op_listxattr c _ _ | op_removexattr c _ _
  | op_opendir c _ _ | op_fsyncdir c _ _ _ | op_releasedir c _ _ _ | op_access c _ _
  | op_lseek c _ _ _ _ | op_getlk c _ _ _ _ _ | op_setlk c _ _ _ _ _ | op_setlkw c _ _ _ _ _
  | op_ioctl c _ _ _ _ _ _ | op_bmap c _ _ _ | op_poll c _ _ _ _ _ => c
  | op_init _ | op_destroy | op_notify_reply => Context_new
  end.

Definition wire_opcode {A : Set} (op : FsOp A) : Opcode :=
  match op with
  | op_init _ => OpInit
  | op_destroy => OpDestroy
  | op_lookup _ _ _ => OpLookup
  | op_forget _ _ _ => OpForget
  | op_batch_forget _ _ => OpBatchForget
  | op_getattr _ _ _ => OpGetattr
  | op_setattr _ _ _ _ _ => OpSetattr
  | op_readlink _ _ => OpReadlink
  | op_symlink _ _ _ _ => OpSymlink
  | op_mknod _ _ _ _ _ _ => OpMknod
  | op_mkdir _ _ _ _ _ => OpMkdir
  | op_unlink _ _ _ => OpUnlink
  | op_rmdir _ _ _ => OpRmdir
  | op_rename _ _ _ _ _ flags => if flags =? 0 then OpRename else OpRename2
  | op_link _ _ _ _ => OpLink
  | op_open _ _ _ _ => OpOpen
  | op_create _ _ _ _ => OpCreate
  | op_flush _ _ _ _ => OpFlush
  | op_fsync _ _ _ _ => OpFsync
  | op_fallocate _ _ _ _ _ _ => OpFallocate
  | op_release _ _ _ _ _ _ _ => OpRelease
  | op_statfs _ _ => OpStatfs
  | op_setxattr _ _ _ _ _ => OpSetxattr
  | op_getxattr _ _ _ _ => OpGetxattr
  | op_listxattr _ _ _ => OpListxattr
  | op_removexattr _ _ _ => OpRemovexattr
  | op_opendir _ _ _ => OpOpendir
  | op_fsyncdir _ _ _ _ => OpFsyncdir
  | op_releasedir _ _ _ _ => OpReleasedir
  | op_access _ _ _ => OpAccess
  | op_lseek _ _ _ _ _ => OpLseek
  | op_getlk _ _ _ _ _ _ => OpGetlk
  | op_setlk _ _ _ _ _ _ => OpSetlk
  | op_setlkw _ _ _ _ _ _ => OpSetlkw
  | op_ioctl _ _ _ _ _ _ _ => OpIoctl
  | op_bmap _ _ _ _ => OpBmap
  | op_poll _ _ _ _ _ _ => OpPoll
  | op_notify_reply => OpNotifyReply
  end.

Definition wire_forgets (requests : list (Z * Z)) : bytes :=
  concat (map (fun r => as_slice {| fo_nodeid := r.1; fo_nlookup := r.2 |}) requests).

(** What follows the header of a request. *)
Definition wire_body {A : Set} (op : FsOp A) : bytes :=
  match op with
  | op_lookup _ _ name | op_unlink _ _ name | op_rmdir _ _ name | op_removexattr _ _ name =>
      to_bytes_with_nul name
  | op_getattr _ _ handle => as_slice (GetattrIn_of handle)
  | op_setattr _ _ attr handle valid => as_slice (SetattrIn_of attr handle valid)
  | op_symlink _ linkname _ name => to_bytes_with_nul name ++ to_bytes_with_nul linkname
  | op_mknod _ _ name mode rdev umask =>
      as_slice {| mn_mode := mode; mn_rdev := rdev; mn_umask := umask; mn_padding := 0 |}
      ++ to_bytes_with_nul name
  | op_mkdir _ _ name mode umask =>
      as_slice {| md_mode := mode; md_umask := umask |} ++ to_bytes_with_nul name
  | op_rename _ _ oldname newdir newname flags =>
      (if flags =? 0 then as_slice {| rn_newdir := newdir |}
       else as_slice {| rn2_newdir := newdir; rn2_flags := flags; rn2_padding := 0 |})
      ++ to_bytes_with_nul oldname ++ to_bytes_with_nul newname
  | op_link _ inode _ name => as_slice {| ln_oldnodeid := inode |} ++ to_bytes_with_nul name
  | op_open _ _ flags fuse_flags => as_slice {| oi_flags := flags; oi_fuse_flags := fuse_flags |}
  | op_create _ _ name args => as_slice args ++ to_bytes_with_nul name
  | op_flush _ _ handle lock_owner =>
      as_slice {| fi_fh := handle; fi_unused := 0; fi_padding := 0; fi_lock_owner := lock_owner |}
  | op_fsync _ _ datasync handle | op_fsyncdir _ _ datasync handle => as_slice (FsyncIn_of handle datasync)
  | op_fallocate _ _ handle mode offset length =>
      as_slice {| fa_fh := handle; fa_offset := offset; fa_length := length; fa_mode := mode; fa_padding := 0 |}
  | op_release _ _ flags handle fl fr owner => as_slice (ReleaseIn_of flags handle fl fr owner)
  | op_releasedir _ _ flags handle => as_slice (ReleaseIn_of flags handle false false None)
  | op_setxattr _ _ name value flags =>
      as_slice {| sx_size := zlen value; sx_flags := flags |} ++ to_bytes_with_nul name ++ value
  | op_getxattr _ _ name size =>
      as_slice {| gx_size := size; gx_padding := 0 |} ++ to_bytes_with_nul name
  | op_listxattr _ _ size => as_slice {| gx_size := size; gx_padding := 0 |}
  | op_opendir _ _ flags => as_slice {| oi_flags := flags; oi_fuse_flags := 0 |}
  | op_access _ _ mask => as_slice {| ac_mask := mask; ac_padding := 0 |}
  | op_lseek _ _ handle offset whence =>
      as_slice {| ls_fh := handle; ls_offset := offset; ls_whence := whence; ls_padding := 0 |}
  | op_getlk _ _ handle owner lock flags | op_setlk _ _ handle owner lock flags
  | op_setlkw _ _ handle owner lock flags => as_slice (LkIn_of handle owner lock flags)
  | op_ioctl _ _ handle flags cmd data out_size =>
      as_slice (IoctlIn_of handle flags cmd data out_size) ++ default [] data.(ioctl_data)
  | op_bmap _ _ block blocksize =>
      as_slice {| bi_block := block; bi_blocksize := blocksize; bi_padding := 0 |}
  | op_poll _ _ handle khandle flags events =>
      as_slice {| pi_fh := handle; pi_kh := khandle; pi_flags := flags; pi_events := events |}
  | op_forget _ _ count => as_slice {| fg_nlookup := count |}
  | op_batch_forget _ requests =>
      as_slice {| bf_count := zlen requests; bf_dummy := 0 |} ++ wire_forgets requests
  | op_readlink _ _ | op_statfs _ _ | op_init _ | op_destroy | op_notify_reply => []
  end.

(** The calls that have one reply, and those that have none. *)
Definition replied_op {A : Set} (op : FsOp A) : bool :=
  match op with
  | op_init _ | op_destroy | op_forget _ _ _ | op_batch_forget _ _ | op_notify_reply => false
  | _ => true
  end.

Definition silent_op {A : Set} (op : FsOp A) : bool :=
  match op with op_forget _ _ _ | op_batch_forget _ _ => true | _ => false end.

(** ** Expected replies *)

Definition ok_reply {T} `{ByteValued T} (x : T) : Z * bytes := (0, as_slice x).

Definition wire_reply {A : Set} (minor : Z) (op : FsOp A) : A -> Z * bytes :=
  match op in FsOp A return A -> Z * bytes with
  | op_lookup _ _ _ => fun entry =>
      if (minor <? KERNEL_MINOR_VERSION_LOOKUP_NEGATIVE_ENTRY_ZERO) && (entry.(en_inode) =? 0)
      then (- ENOENT, []) else ok_reply (EntryOut_from entry)
  | op_getattr _ _ _ | op_setattr _ _ _ _ _ => fun r => ok_reply (AttrOut_of r.1 r.2)
  | op_readlink _ _ => fun linkname => (0, linkname)
  | op_symlink _ _ _ _ | op_mknod _ _ _ _ _ _ | op_mkdir _ _ _ _ _ | op_link _ _ _ _ =>
      fun entry => ok_reply (EntryOut_from entry)
  | op_open _ _ _ _ => fun r => ok_reply (OpenOut_of r.1.1 r.1.2 r.2)
  | op_create _ _ _ _ => fun r =>
      (0, as_slice (create_entry_out r.1.1.1) ++ as_slice (OpenOut_of r.1.1.2 r.1.2 r.2))
  | op_statfs _ _ => fun st => ok_reply (Kstatfs_from st)
  | op_getxattr _ _ _ _ => fun r =>
      match r with
      | GxValue val => (0, val)
      | GxCount count => ok_reply {| gxo_size := count; gxo_padding := 0 |}
      end
  | op_listxattr _ _ _ => fun r =>
      match r with
      | LxNames val => (0, val)
      | LxCount count => ok_reply {| gxo_size := count; gxo_padding := 0 |}
      end
  | op_opendir _ _ _ => fun r => ok_reply (OpenOut_of r.1 r.2 None)
  | op_lseek _ _ _ _ _ => fun offset => ok_reply {| lso_offset := offset |}
  | op_getlk _ _ _ _ _ _ => fun l => ok_reply {| lo_lk := FileLock_to_fuse l |}
  | op_ioctl _ _ _ _ _ _ _ => fun r =>
      (0, as_slice {| ioo_result := r.(ioctl_result); ioo_flags := 0; ioo_in_iovs := 0; ioo_out_iovs := 0 |}
          ++ default [] r.(ioctl_data))
  | op_bmap _ _ _ _ => fun block => ok_reply {| bo_block := block |}
  | op_poll _ _ _ _ _ _ => fun revents => ok_reply {| po_revents := revents; po_padding := 0 |}
  | _ => fun _ => (0, [])
  end.

(** Header and payload of a reply. *)
Definition reply_msg (u err : Z) (payload : bytes) : bytes :=
  as_slice (out_header (size_of OutHeader + zlen payload) err u) ++ payload.
Arguments reply_msg : simpl never.

(** The message for a result of the file system. *)
Definition reply_message {A : Set} (u minor : Z) (op : FsOp A) (res : io_result A) : bytes :=
  let r :=
    match res with
    | Ok a => wire_reply minor op a
    | Err e => (- errno_of e, [])
    | Panic => (0, [])
    end in
  reply_msg u r.1 r.2.

(** ** Well-formed calls: every field fits its place on the wire *)

Definition wire_ok {A : Set} (op : FsOp A) : Prop :=
  match op with
  | op_lookup _ _ name | op_unlink _ _ name | op_rmdir _ _ name | op_removexattr _ _ name =>
      cstr_ok name = true
  | op_getattr _ _ handle => struct_ok (GetattrIn_of handle) = true
  | op_setattr _ _ attr handle valid =>
      struct_ok (SetattrIn_of attr handle valid) = true /\
      stat64_from_SetattrIn (SetattrIn_of attr handle valid) = attr /\
      from_bits_truncate SetattrValid_all valid = valid
  | op_symlink _ linkname _ name => cstr_ok name = true /\ cstr_ok linkname = true
  | op_mknod _ _ name mode rdev umask => cstr_ok name = true /\ in_u 32 mode /\ in_u 32 rdev /\ in_u 32 umask
  | op_mkdir _ _ name mode umask => cstr_ok name = true /\ in_u 32 mode /\ in_u 32 umask
  | op_rename _ _ oldname newdir newname flags =>
      cstr_ok oldname = true /\ cstr_ok newname = true /\ in_u 64 newdir /\ Z.land flags 7 = flags
  | op_link _ inode _ name => cstr_ok name = true /\ in_u 64 inode
  | op_open _ _ flags fuse_flags => in_u 32 flags /\ in_u 32 fuse_flags
  | op_create _ _ name args => cstr_ok name = true /\ struct_ok args = true
  | op_flush _ _ handle lock_owner => in_u 64 handle /\ in_u 64 lock_owner
  | op_fsync _ _ _ handle | op_fsyncdir _ _ _ handle => in_u 64 handle
  | op_fallocate _ _ handle mode offset length =>
      in_u 64 handle /\ in_u 32 mode /\ in_u 64 offset /\ in_u 64 length
  | op_release _ _ flags handle fl fr owner =>
      in_u 32 flags /\ in_u 64 handle /\
      match owner with Some o => fl || fr = true /\ in_u 64 o | None => fl || fr = false end
  | op_releasedir _ _ flags handle => in_u 32 flags /\ in_u 64 handle
  | op_setxattr _ _ name value flags => cstr_ok name = true /\ in_u 32 (zlen value) /\ in_u 32 flags
  | op_getxattr _ _ name size => cstr_ok name = true /\ in_u 32 size
  | op_listxattr _ _ size => in_u 32 size
  | op_opendir _ _ flags => in_u 32 flags
  | op_access _ _ mask => in_u 32 mask
  | op_lseek _ _ handle offset whence => in_u 64 handle /\ in_u 64 offset /\ in_u 32 whence
  | op_getlk _ _ handle owner lock flags | op_setlk _ _ handle owner lock flags
  | op_setlkw _ _ handle owner lock flags => struct_ok (LkIn_of handle owner lock flags) = true
  | op_ioctl _ _ handle flags cmd data out_size =>
      struct_ok (IoctlIn_of handle flags cmd data out_size) = true /\
      data.(ioctl_result) = 0 /\ data.(ioctl_data) <> Some []
  | op_forget _ _ count => in_u 64 count
  | op_batch_forget _ requests => Forall (fun r => in_u 64 r.1 /\ in_u 64 r.2) requests
  | op_bmap _ _ block blocksize => in_u 64 block /\ in_u 32 blocksize
  | op_poll _ _ handle khandle flags events =>
      in_u 64 handle /\ in_u 64 khandle /\ in_u 32 flags /\ in_u 32 events
  | _ => True
  end.

(** The call the server makes: every request but one is served by its own
    method. *)
Definition served {A : Set} (op : FsOp A) : FsOp A :=
  match op in FsOp A return FsOp A with
  | op_setlkw ctx inode handle owner lock flags => op_setlk ctx inode handle owner lock flags
  | op => op
  end.

Definition request_header {A : Set} (u uid gid pid : Z) (op : FsOp A) : InHeader := {|
  ih_len := size_of InHeader + zlen (wire_body op);
  ih_opcode := Opcode_value (wire_opcode op);
  ih_unique := u;
  ih_nodeid := wire_nodeid op;
  ih_uid := uid;
  ih_gid := gid;
  ih_pid := pid;
  ih_padding := 0;
|}.

Definition request_bytes {A : Set} (u uid gid pid : Z) (op : FsOp A) : bytes :=
  as_slice (request_header u uid gid pid op) ++ wire_body op.
