(* ===== verification/ServerWireProps.v ===== *)
(** * The server refines the protocol

    For every well-formed call with a reply, the bytes of its request make
    [handle_message] run the call on the file system and submit exactly the
    expected reply. *)

From S2P Require Import Prelude Std Codec Abi AbiStruct Lib FsTypes FileSystem.
From S2P Require Import Transport TransportProps FuseDev FuseDevProps Instances Server ServerProps ServerWire.

(** The fields of a structure are in range. *)
Ltac solve_struct_ok :=
  unfold struct_ok; cbn; unfold in_u in *; cbn in *; repeat case_match;
  repeat (apply andb_true_iff; split); rewrite ?Z.leb_le, ?Z.ltb_lt;
  first [lia | by vm_compute].

Section wire.
Context {F V : Type} {FS : FileSystem F}.
Context {VS : VolatileSlice V} {VO : VolatileSliceOk V} {DEV : FuseDevice} {DO : FuseDeviceOk}.
Context (mem : Z -> Z) (pagesize : Z).

Abbreviation srv := (prog (world F V) Error).

(** A request in progress: header [h], context [ctx], file system [f], version
    [v], reply buffer [fw], device [d], and [l] left to read. *)
Definition at_request (h : InHeader) (ctx : Context) (f : F) (v : ServerVersion) (fw : FuseDevWriter)
    (d : Dev) (l : bytes) (s : world F V) : Prop :=
  s.(w_srv) = MkServer f v /\ s.(w_dev) = d /\ s.(w_ctx).(sc_in_header) = h /\
  s.(w_ctx).(sc_context) = ctx /\ s.(w_ctx).(sc_w) = WFuseDev fw /\
  reader_ok s.(w_ctx).(sc_r) /\ content mem s.(w_ctx).(sc_r) = l.

(** From there, [m] ends with the file system [f'] and one more message. *)
Definition does (P : world F V -> Prop) (m : srv Z) (f' : F) (v : ServerVersion) (d : Dev) (msg : bytes) : Prop :=
  forall s, P s -> (m s).1.(w_srv) = MkServer f' v /\ (m s).1.(w_dev) = d ++ [msg].

(** [m] returns [a] and leads from [P] to [Q]. *)
Definition yields {A} (P : world F V -> Prop) (m : srv A) (a : A) (Q : world F V -> Prop) : Prop :=
  forall s, P s -> exists s', m s = (s', Ok a) /\ Q s'.

Context (h : InHeader) (ctx : Context) (v : ServerVersion) (fw : FuseDevWriter) (d : Dev).
Context (f' : F) (msg : bytes).

Abbreviation here f l := (at_request h ctx f v fw d l).
Abbreviation done_by P m := (does P m f' v d msg).

Lemma does_bind {A} P Q (m : srv A) (k : A -> srv Z) a :
  yields P m a Q -> done_by Q (k a) -> done_by P (m ≫= k).
Proof.
  intros Hm Hk s Hs. destruct (Hm s Hs) as (s' & Hms & HQ).
  rewrite (prog_bind_ok _ _ _ _ _ Hms). by apply Hk.
Qed.

Lemma yields_bind {A B} P Q R (m : srv A) (k : A -> srv B) a b :
  yields P m a Q -> yields Q (k a) b R -> yields P (m ≫= k) b R.
Proof.
  intros Hm Hk s Hs. destruct (Hm s Hs) as (s' & Hms & HQ).
  rewrite (prog_bind_ok _ _ _ _ _ Hms). by apply Hk.
Qed.

Lemma yields_read_obj {T} `{ByteValuedOk T} (x : T) f l :
  struct_ok x = true -> yields (here f (as_slice x ++ l)) (r_read_obj mem T) x (here f l).
Proof.
  intros Hx s (Hsv & Hd & Hh & Hc & Hw & Hr & Hl).
  destruct (read_obj_spec mem T _ Hr) as (r' & Hr' & Hcont & Hread).
  pose proof (as_slice_length x) as Hlen. unfold r_read_obj, on_reader. rewrite Hread, Hl.
  rewrite (proj2 (Z.leb_le _ _)) by (rewrite zlen_app, Hlen; pose proof (zlen_nonneg l); lia).
  rewrite take_Z_len by done. rewrite <- (app_nil_r (as_slice x)), from_as_slice by done.
  eexists. split; [done|]. split_and!; try done. cbn. by rewrite Hcont, Hl, drop_Z_len.
Qed.

Lemma does_read_obj {T} `{ByteValuedOk T} (x : T) f l (k : T -> srv Z) :
  struct_ok x = true -> done_by (here f l) (k x) -> done_by (here f (as_slice x ++ l)) (r_read_obj mem T ≫= k).
Proof. intros Hx. by apply does_bind, yields_read_obj. Qed.

Lemma does_body f n l (k : bytes -> srv Z) :
  h.(ih_len) = size_of InHeader + n + zlen l -> 0 <= n ->
  done_by (here f []) (k l) -> done_by (here f l) (get_message_body mem n ≫= k).
Proof.
  intros Hlen Hn. apply does_bind. intros s (Hsv & Hd & Hh & Hc & Hw & Hr & Hl).
  pose proof (zlen_nonneg l) as Hnn. assert (0 <= size_of InHeader) by (unfold size_of; lia).
  unfold get_message_body, mbind, prog_mbind, prog_bind, get_header, gets, lift.
  rewrite Hh, Hlen. unfold checked_sub, option_bind, ok_or.
  rewrite (proj2 (Z.leb_le (size_of InHeader) _)) by lia.
  rewrite (proj2 (Z.leb_le n _)) by lia.
  replace (size_of InHeader + n + zlen l - size_of InHeader - n) with (zlen l) by lia.
  destruct (read_exact_spec mem (zlen l) _ Hnn Hr) as (r' & Hr' & Hcont & Hread).
  unfold on_reader. rewrite Hread, Hl. rewrite (proj2 (Z.leb_le _ _)) by lia.
  unfold zlen at 1. rewrite Nat2Z.id, take_ge by lia.
  eexists. split; [done|]. split_and!; try done. cbn. rewrite Hcont, Hl.
  unfold zlen. by rewrite Nat2Z.id, drop_all.
Qed.

Lemma does_name P name (k : CStr -> srv Z) :
  cstr_ok name = true -> done_by P (k name) -> done_by P (name_of (to_bytes_with_nul name) ≫= k).
Proof.
  intros Hn. apply does_bind. intros s Hs. exists s. split; [|done].
  unfold name_of, to_bytes_with_nul. by rewrite bytes_to_cstr_app.
Qed.

Lemma does_lift {A} P (a : A) (k : A -> srv Z) : done_by P (k a) -> done_by P (lift (Ok a) ≫= k).
Proof. apply does_bind. intros s Hs. by exists s. Qed.

Lemma yields_context f l : yields (here f l) get_context ctx (here f l).
Proof.
  intros s Hs. exists s. split; [|done]. unfold get_context, gets. by destruct Hs as (_ & _ & _ & -> & _).
Qed.

Lemma yields_nodeid f l : yields (here f l) nodeid h.(ih_nodeid) (here f l).
Proof.
  intros s Hs. exists s. split; [|done]. unfold nodeid, gets. by destruct Hs as (_ & _ & -> & _).
Qed.

Lemma does_context f l (k : Context -> srv Z) :
  done_by (here f l) (k ctx) -> done_by (here f l) (get_context ≫= k).
Proof. apply does_bind, yields_context. Qed.

Lemma does_nodeid f l (k : Z -> srv Z) :
  done_by (here f l) (k h.(ih_nodeid)) -> done_by (here f l) (nodeid ≫= k).
Proof. apply does_bind, yields_nodeid. Qed.

Lemma does_version f l (k : ServerVersion -> srv Z) :
  done_by (here f l) (k v) -> done_by (here f l) (gets (fun s => s.(w_srv).(sv_vers)) ≫= k).
Proof.
  apply does_bind. intros s Hs. exists s. split; [|done].
  destruct Hs as (Hsv & _). unfold gets. by rewrite Hsv.
Qed.

Lemma does_fs {A} f l (m : prog F io_error A) res (ok : A -> srv Z) err :
  m f = (f', res) -> res <> Panic ->
  match res with
  | Ok a => done_by (here f' l) (ok a)
  | Err e => done_by (here f' l) (err e)
  | Panic => True
  end -> done_by (here f l) (fs_match m ok err).
Proof.
  intros Hm Hres Hk s Hs. unfold fs_match. destruct Hs as (Hsv & Hs). rewrite Hsv. cbn. rewrite Hm.
  assert (here f' l (set_fs f' s)) as Hs' by (unfold at_request; cbn; by rewrite Hsv).
  destruct res; [by apply Hk|by apply Hk|done].
Qed.

(** ** Replies *)

Context (Hfresh : fresh fw) (Hcap : fw_capacity fw <= U32_MAX) (Hfit : zlen msg <= fw_capacity fw).

Lemma does_submit {A} l (m : prog (Writer * Dev) io_error A) (k : A -> srv Z) :
  submits msg m ->
  (forall a s w, s.(w_ctx).(sc_w) = WFuseDev w -> w.(fw_buffered) = false -> (k a s).1 = s) ->
  done_by (here f' l) (on_writer EncodeMessage m ≫= k).
Proof.
  intros [[ok Hm] _] Hk s (Hsv & Hd & Hh & Hc & Hw & _).
  unfold mbind, prog_mbind, prog_bind, on_writer. rewrite Hw, Hd, Hm by done.
  destruct (Z.ltb_spec (fw_capacity fw) (zlen msg)); [lia|].
  destruct (dev_answer d msg) as [e|n]; cbn; [done|].
  rewrite (Hk _ _ (account_written n fw)); [done|done|]. apply Hfresh.
Qed.

Lemma does_reply_ok l out data :
  msg = reply_msg h.(ih_unique) 0 (default [] out ++ default [] data) ->
  done_by (here f' l) (reply_ok out data).
Proof.
  unfold reply_msg. intros Hmsg. unfold reply_ok. apply (does_bind _ (here f' l) _ _ h.(ih_unique)).
  { intros s Hs. exists s. split; [|done]. unfold unique, gets. by destruct Hs as (_ & _ & -> & _). }
  set (d2 := default [] out) in *. set (d3 := default [] data) in *.
  rewrite zlen_app, Z.add_assoc in Hmsg. set (hd := as_slice (out_header _ _ _)) in *. cbv zeta. fold hd.
  destruct d2 as [|x2 d2'], d3 as [|x3 d3']; (apply does_submit; [rewrite Hmsg|by intros]).
  - rewrite !app_nil_r. apply submits_write.
  - rewrite <- (app_nil_r (x3 :: d3')) at 1. by apply (submits_write_vectored [hd; x3 :: d3']).
  - by apply (submits_write_vectored [hd; x2 :: d2']).
  - rewrite <- (app_nil_r (x3 :: d3')) at 1. by apply (submits_write_vectored [hd; x2 :: d2'; x3 :: d3']).
Qed.

Lemma does_reply_struct {T} `{ByteValued T} l (x : T) :
  msg = reply_msg h.(ih_unique) 0 (as_slice x) ->
  done_by (here f' l) (reply_struct x).
Proof. intros Hmsg. apply does_reply_ok. cbn. by rewrite app_nil_r. Qed.

Lemma does_reply_error l e explicit :
  msg = reply_msg h.(ih_unique) (- errno_of e) [] ->
  done_by (here f' l) (do_reply_error e explicit).
Proof.
  unfold reply_msg. intros Hmsg. unfold do_reply_error. apply (does_bind _ (here f' l) _ _ h.(ih_unique)).
  { intros s Hs. exists s. split; [|done]. unfold unique, gets. by destruct Hs as (_ & _ & -> & _). }
  change (size_of OutHeader + zlen []) with (size_of OutHeader) in Hmsg. rewrite app_nil_r in Hmsg.
  apply does_submit; [rewrite Hmsg; apply submits_write_all, as_slice_nonempty|].
  intros _ s w Hw Hb. unfold mbind, prog_mbind, prog_bind, on_writer. rewrite Hw. cbn.
  unfold FuseDevWriter_commit. cbn. rewrite Hb. cbn. destruct s as [sv [? ? ? ?] dv]. cbn in *. by subst.
Qed.

(** ** One call *)

(** What a header must say for the call [op]. *)
Definition header_for {A : Set} (op : FsOp A) : Prop :=
  h.(ih_opcode) = Opcode_value (wire_opcode op) /\ h.(ih_nodeid) = wire_nodeid op /\
  h.(ih_len) = size_of InHeader + zlen (wire_body op).

Lemma does_read_last {T} `{ByteValuedOk T} (x : T) f (k : T -> srv Z) :
  struct_ok x = true -> done_by (here f []) (k x) -> done_by (here f (as_slice x)) (r_read_obj mem T ≫= k).
Proof. intros Hx Hk. rewrite <- (app_nil_r (as_slice x)). by apply does_read_obj. Qed.

Lemma zlen_with_nul name : zlen (to_bytes_with_nul name) = zlen name + 1.
Proof. unfold to_bytes_with_nul. by rewrite zlen_app. Qed.

Ltac solve_len Hlen :=
  rewrite Hlen, ?zlen_app, ?as_slice_length, ?zlen_with_nul; lia.

(** Follow a handler step by step along the request. *)
Ltac serve_step Hlen :=
  first
    [ apply does_context | apply does_nodeid | apply does_version
    | apply does_name; [assumption|]
    | apply does_body; [solve_len Hlen|unfold size_of; lia|]
    | apply does_read_last; [first [assumption|solve_struct_ok]|]
    | apply does_read_obj; [first [assumption|solve_struct_ok]|] ].

Ltac serve_reply :=
  first
    [ apply does_reply_error; assumption
    | apply does_reply_struct; assumption
    | apply does_reply_ok; cbn [default from_option]; rewrite ?app_nil_r; assumption ].

(** The call and the replies to its results. *)
Ltac serve_call Hfs Hres Hmsg :=
  unfold reply_message in Hmsg; cbn [wire_reply ok_reply] in Hmsg;
  eapply does_fs; [exact Hfs|exact Hres|];
  repeat (case_match; simpl in Hmsg); try done; try serve_reply.

Ltac serve Hlen Hnode Hfs Hres Hmsg :=
  repeat serve_step Hlen; rewrite ?Hnode; serve_call Hfs Hres Hmsg.

Lemma setattr_decode attr handle valid :
  from_bits_truncate SetattrValid_all valid = valid ->
  (if has_flag (sa_valid (SetattrIn_of attr handle valid)) FATTR_FH
   then Some (sa_fh (SetattrIn_of attr handle valid)) else None) = handle /\
  from_bits_truncate SetattrValid_all (sa_valid (SetattrIn_of attr handle valid)) = valid.
Proof.
  unfold from_bits_truncate, has_flag. intros Hv. destruct handle as [fh|]; cbn [SetattrIn_of sa_valid sa_fh is_Some_b].
  - rewrite !Z.land_lor_distr_l, Hv, Z.land_diag. change (Z.land FATTR_FH SetattrValid_all) with 0.
    rewrite Z.lor_0_r. split; [|done].
    destruct (Z.eqb_spec (Z.lor (Z.land valid FATTR_FH) FATTR_FH) 0) as [E|E]; [|done].
    apply Z.lor_eq_0_iff in E as [_ E]. discriminate E.
  - split; [|done]. rewrite <- Hv, <- Z.land_assoc. change (Z.land SetattrValid_all FATTR_FH) with 0.
    by rewrite Z.land_0_r.
Qed.

Lemma extract_two_ok s1 s2 :
  cstr_ok s1 = true -> cstr_ok s2 = true ->
  extract_two_cstrs (to_bytes_with_nul s1 ++ to_bytes_with_nul s2) = Ok (s1, s2).
Proof.
  intros H1 H2.
  replace (to_bytes_with_nul s1 ++ to_bytes_with_nul s2) with (s1 ++ 0 :: to_bytes_with_nul s2)
    by (unfold to_bytes_with_nul; by rewrite <- app_assoc).
  unfold extract_two_cstrs.
  rewrite (position_app_first _ s1 _ 0) by done.
  assert (take (S (length s1)) (s1 ++ 0 :: to_bytes_with_nul s2) = to_bytes_with_nul s1) as ->.
  { rewrite (cons_middle 0 s1), app_assoc, take_app_length'; [done|]. rewrite length_app. cbn. lia. }
  rewrite from_bytes_with_nul_ok by done. unfold mbind, outcome_mbind, outcome_bind, map_err.
  assert (drop (S (length s1)) (s1 ++ 0 :: to_bytes_with_nul s2) = to_bytes_with_nul s2) as ->.
  { rewrite (cons_middle 0 s1), app_assoc, drop_app_length'; [done|]. rewrite length_app. cbn. lia. }
  rewrite (proj2 (Nat.ltb_lt _ _)).
  - unfold to_bytes_with_nul. by rewrite bytes_to_cstr_app.
  - unfold to_bytes_with_nul. rewrite !length_app. cbn. rewrite length_app. cbn. lia.
Qed.

Lemma land_7_u32 z : in_u 32 (Z.land z 7).
Proof.
  change 7 with (Z.ones 3). rewrite Z.land_ones by lia. unfold in_u.
  pose proof (Z.mod_pos_bound z (2 ^ 3)). lia.
Qed.

(** The handlers whose body is more than a structure and a name. *)

(** The pairs of a BATCH_FORGET. *)
Lemma yields_read_forgets f reqs :
  Forall (fun r => in_u 64 r.1 /\ in_u 64 r.2) reqs ->
  yields (here f (wire_forgets reqs)) (read_forgets mem (length reqs)) reqs (here f []).
Proof.
  induction reqs as [|[i c] reqs IH]; intros Hr; cbn [length read_forgets].
  { intros s Hs. by exists s. }
  apply Forall_cons in Hr as [[Hi Hc] Hr]. unfold wire_forgets. cbn [map concat fst snd].
  fold (wire_forgets reqs). eapply yields_bind; [apply yields_read_obj; cbn in *; solve_struct_ok|].
  eapply yields_bind; [by apply IH|]. intros s Hs. by exists s.
Qed.

Lemma does_rename f n c i oldname newdir newname flags res :
  let op := op_rename c i oldname newdir newname flags in
  c = ctx -> h.(ih_nodeid) = i -> cstr_ok oldname = true -> cstr_ok newname = true -> 0 <= n ->
  h.(ih_len) = size_of InHeader + n + zlen (to_bytes_with_nul oldname ++ to_bytes_with_nul newname) ->
  fs_op op f = (f', res) -> res <> Panic -> msg = reply_message h.(ih_unique) v.(v_minor) op res ->
  done_by (here f (to_bytes_with_nul oldname ++ to_bytes_with_nul newname)) (do_rename mem n newdir flags).
Proof.
  intros op -> <- Ho Hn Hpos Hlen Hfs Hres Hmsg. unfold do_rename. apply does_body; [done..|].
  rewrite extract_two_ok by done. apply does_lift, does_context, does_nodeid. serve_call Hfs Hres Hmsg.
Qed.

Lemma does_setxattr f c i name value flags res :
  let op := op_setxattr c i name value flags in
  c = ctx -> h.(ih_nodeid) = i -> cstr_ok name = true -> in_u 32 (zlen value) -> in_u 32 flags ->
  h.(ih_len) = size_of InHeader + zlen (wire_body op) ->
  fs_op op f = (f', res) -> res <> Panic -> msg = reply_message h.(ih_unique) v.(v_minor) op res ->
  done_by (here f (wire_body op)) (setxattr mem).
Proof.
  intros op -> <- Hn Hv Hf Hlen Hfs Hres Hmsg. unfold setxattr, op in *. cbn [wire_body] in *.
  serve_step Hlen. serve_step Hlen. cbn [sx_size sx_flags].
  replace (to_bytes_with_nul name ++ value) with (name ++ 0 :: value)
    by (unfold to_bytes_with_nul; by rewrite <- app_assoc).
  rewrite (position_app_first _ name value 0) by done. apply does_lift. cbv zeta.
  assert (take (S (length name)) (name ++ 0 :: value) = to_bytes_with_nul name) as ->.
  { rewrite (cons_middle 0 name), app_assoc, take_app_length'; [done|]. rewrite length_app. cbn. lia. }
  assert (drop (S (length name)) (name ++ 0 :: value) = value) as ->.
  { rewrite (cons_middle 0 name), app_assoc, drop_app_length'; [done|]. rewrite length_app. cbn. lia. }
  rewrite wrap_small, Z.eqb_refl by done. cbn [negb]. apply does_name; [done|].
  apply does_context, does_nodeid. serve_call Hfs Hres Hmsg.
Qed.

Lemma does_ioctl f c i handle flags cmd data out_size res :
  let op := op_ioctl c i handle flags cmd data out_size in
  c = ctx -> h.(ih_nodeid) = i -> wire_ok op ->
  fs_op op f = (f', res) -> res <> Panic -> msg = reply_message h.(ih_unique) v.(v_minor) op res ->
  done_by (here f (wire_body op)) (ioctl mem).
Proof.
  intros op -> <- (Hs & Hz & Hd) Hfs Hres Hmsg. unfold ioctl, op in *. cbn [wire_body] in *.
  apply does_read_obj; [done|]. cbn [ioi_in_size IoctlIn_of].
  set (l := default [] data.(ioctl_data)) in *.
  apply (does_bind _ (here f l) _ _ (zlen l)).
  { intros s Hs'. exists s. split; [|done]. destruct Hs' as (_ & _ & _ & _ & _ & Hr & Hl).
    unfold gets, Reader_available_bytes. by rewrite available_bytes_flat, <- (zlen_content mem), Hl. }
  rewrite Z.ltb_irrefl. apply (does_bind _ (here f []) _ _ data.(ioctl_data)).
  { intros s (Hsv & Hdv & Hh & Hc & Hw & Hr & Hl). destruct data as [rz [l'|]]; cbn in *; subst l.
    - destruct (Z.ltb_spec 0 (zlen l')) as [Hpos|Hz']; [|by destruct l'].
      destruct (Reader_read_spec mem (zlen l') _ ltac:(lia) Hr) as (r' & Hread & Hcont & Hr' & _).
      unfold mbind, prog_mbind, prog_bind, on_reader. rewrite Hread, Hl. unfold zlen at 1.
      rewrite Nat2Z.id, take_ge by lia. cbn. destruct l' as [|x l']; [done|].
      eexists. split; [done|]. split_and!; try done. cbn. rewrite Hcont, Hl.
      unfold zlen. by rewrite Nat2Z.id, drop_all.
    - by exists s. }
  apply does_context, does_nodeid. cbn [ioi_fh ioi_flags ioi_cmd ioi_out_size IoctlIn_of].
  replace (MkIoctlData 0 data.(ioctl_data)) with data by (destruct data; cbn in *; by subst).
  serve_call Hfs Hres Hmsg.
Qed.

Lemma dispatch_serves {A : Set} (op : FsOp A) f res :
  replied_op op = true -> header_for op -> wire_ok op -> op_context op = ctx ->
  fs_op (served op) f = (f', res) -> res <> Panic ->
  msg = reply_message h.(ih_unique) v.(v_minor) op res ->
  done_by (here f (wire_body op)) (dispatch mem pagesize h.(ih_opcode)).
Proof.
  intros Hr (Hop & Hnode & Hlen) Hwf Hctx Hfs Hres Hmsg. rewrite Hop.
  destruct op; try discriminate Hr; clear Hr; cbn [wire_opcode wire_nodeid wire_ok op_context served] in *;
    cbn [wire_body] in *; subst ctx0; destruct_and?.
  all: unfold dispatch; cbn [Opcode_value]; try (cbn [Z.eqb Pos.eqb]).
  - (* lookup *) serve Hlen Hnode Hfs Hres Hmsg.
  - (* getattr *) destruct handle; serve Hlen Hnode Hfs Hres Hmsg.
  - (* setattr *)
    destruct (setattr_decode attr handle valid ltac:(assumption)) as [Hd1 Hd2].
    repeat serve_step Hlen. rewrite Hnode, Hd1, Hd2.
    replace (stat64_from_SetattrIn _) with attr by done. serve_call Hfs Hres Hmsg.
  - (* readlink *) serve Hlen Hnode Hfs Hres Hmsg.
  - (* symlink *)
    serve_step Hlen. rewrite extract_two_ok by done. apply does_lift. serve Hlen Hnode Hfs Hres Hmsg.
  - (* mknod *) serve Hlen Hnode Hfs Hres Hmsg.
  - (* mkdir *) serve Hlen Hnode Hfs Hres Hmsg.
  - (* unlink *) serve Hlen Hnode Hfs Hres Hmsg.
  - (* rmdir *) serve Hlen Hnode Hfs Hres Hmsg.
  - (* rename *)
    destruct (Z.eqb_spec flags 0) as [->|Hf]; cbn [Opcode_value Z.eqb Pos.eqb].
    + serve_step Hlen. eapply does_rename; try done. solve_len Hlen.
    + assert (in_u 32 flags) by (replace flags with (Z.land flags 7) by done; apply land_7_u32).
      serve_step Hlen. cbn [rn2_flags rn2_newdir]. replace (Z.land _ _) with flags by done.
      eapply does_rename; try done. solve_len Hlen.
  - (* link *) serve Hlen Hnode Hfs Hres Hmsg.
  - (* open *) serve Hlen Hnode Hfs Hres Hmsg.
  - (* create *) serve Hlen Hnode Hfs Hres Hmsg.
  - (* flush *) serve Hlen Hnode Hfs Hres Hmsg.
  - (* fsync *) destruct datasync; serve Hlen Hnode Hfs Hres Hmsg.
  - (* fallocate *) serve Hlen Hnode Hfs Hres Hmsg.
  - (* release *)
    destruct flush, flock_release, lock_owner as [o|]; destruct_and?; try done;
      serve Hlen Hnode Hfs Hres Hmsg.
  - (* statfs *) serve Hlen Hnode Hfs Hres Hmsg.
  - (* setxattr *)
    by eapply does_setxattr.
  - (* getxattr *) serve Hlen Hnode Hfs Hres Hmsg.
  - (* listxattr *) serve Hlen Hnode Hfs Hres Hmsg.
  - (* removexattr *) serve Hlen Hnode Hfs Hres Hmsg.
  - (* opendir *) serve Hlen Hnode Hfs Hres Hmsg.
  - (* fsyncdir *) destruct datasync; serve Hlen Hnode Hfs Hres Hmsg.
  - (* releasedir *) serve Hlen Hnode Hfs Hres Hmsg.
  - (* access *) serve Hlen Hnode Hfs Hres Hmsg.
  - (* lseek *) serve Hlen Hnode Hfs Hres Hmsg.
  - (* getlk *)
    repeat serve_step Hlen. rewrite Hnode. cbn [li_lk LkIn_of]. rewrite FileLock_from_to.
    serve_call Hfs Hres Hmsg.
  - (* setlk *)
    repeat serve_step Hlen. rewrite Hnode. cbn [li_lk LkIn_of]. rewrite FileLock_from_to.
    serve_call Hfs Hres Hmsg.
  - (* setlkw *)
    repeat serve_step Hlen. rewrite Hnode. cbn [li_lk LkIn_of]. rewrite FileLock_from_to.
    serve_call Hfs Hres Hmsg.
  - (* ioctl *)
    by eapply does_ioctl.
  - (* bmap *) serve Hlen Hnode Hfs Hres Hmsg.
  - (* poll *) serve Hlen Hnode Hfs Hres Hmsg.
Qed.

(** ** Calls without a reply *)

(** The request is over, nothing was sent. *)
Definition served_silently (s : world F V) : Prop := s.(w_srv) = MkServer f' v /\ s.(w_dev) = d.

Lemma yields_forget_call {A : Set} (op : FsOp A) f l res :
  fs_op op f = (f', res) -> res <> Panic ->
  yields (here f l) (fs_match (fs_op op) (fun _ => mret 0) (fun _ => mret 0)) 0 served_silently.
Proof.
  intros Hfs Hres s (Hsv & Hd & _). unfold fs_match. rewrite Hsv. cbn. rewrite Hfs.
  destruct res; [| |done]; (eexists; split; [done|]; unfold served_silently; cbn; by rewrite Hsv).
Qed.

Lemma zlen_wire_forgets reqs : zlen (wire_forgets reqs) = 16 * zlen reqs.
Proof.
  unfold wire_forgets. induction reqs as [|r reqs IH]; cbn [map concat]; [done|].
  rewrite zlen_app, as_slice_length, IH. change (size_of ForgetOne) with 16.
  unfold zlen. cbn [length]. lia.
Qed.

Lemma dispatch_forgets {A : Set} (op : FsOp A) f res :
  silent_op op = true -> header_for op -> wire_ok op -> op_context op = ctx -> oversized h = false ->
  fs_op op f = (f', res) -> res <> Panic ->
  yields (here f (wire_body op)) (dispatch mem pagesize h.(ih_opcode)) 0 served_silently.
Proof.
  intros Hsil (Hop & Hnode & Hlen) Hwf Hctx Hover Hfs Hres. rewrite Hop.
  destruct op; try discriminate Hsil; cbn [wire_opcode wire_nodeid wire_ok op_context] in *;
    cbn [wire_body] in *; subst ctx0; unfold dispatch; cbn [Opcode_value Z.eqb Pos.eqb].
  - unfold forget. rewrite <- (app_nil_r (as_slice _)).
    eapply yields_bind; [apply yields_read_obj; solve_struct_ok|].
    eapply yields_bind; [apply yields_context|]. eapply yields_bind; [apply yields_nodeid|].
    rewrite Hnode. by eapply yields_forget_call.
  - rewrite zlen_app, as_slice_length, zlen_wire_forgets in Hlen.
    unfold oversized in Hover. apply Z.ltb_ge in Hover. rewrite Hlen in Hover.
    pose proof (zlen_nonneg requests) as Hnn.
    assert (40 + (8 + 16 * zlen requests) <= 1052672) as Hb by exact Hover.
    unfold batch_forget. eapply yields_bind; [apply yields_read_obj|].
    { unfold struct_ok. cbn. rewrite !andb_true_iff, !Z.leb_le, !Z.ltb_lt. cbn. lia. }
    cbn [bf_count]. unfold checked_mul. change (size_of ForgetOne) with 16.
    change (MAX_BUFFER_SIZE + BUFFER_HEADER_SIZE - size_of BatchForgetIn - size_of InHeader) with 1052624.
    rewrite (proj2 (Z.leb_le _ _)) by (unfold U64_MAX; lia). rewrite (proj2 (Z.ltb_ge _ _)) by lia.
    replace (Z.to_nat (zlen requests)) with (length requests) by (unfold zlen; lia).
    eapply yields_bind; [by apply yields_read_forgets|]. eapply yields_bind; [apply yields_context|].
    by eapply yields_forget_call.
Qed.

End wire.
