(* ===== verification/ServerClaims.v ===== *)
(** * What the server guarantees

    The theorems on whole messages: the discipline of replies, the refinement
    of the protocol, the requests without reply, the negotiation, the
    directory stream and the notifications. *)

From S2P Require Import Prelude Std Codec Abi AbiStruct Lib FsTypes FileSystem.
From S2P Require Import Transport TransportProps FuseDev FuseDevProps Instances.
From S2P Require Import Server ServerProps ServerWire ServerWireProps.

(** ** The whole exchange *)

Section exchange.
Context {F V : Type} {FS : FileSystem F}.
Context {VS : VolatileSlice V} {VO : VolatileSliceOk V} {DEV : FuseDevice} {DO : FuseDeviceOk}.
Context (mem : Z -> Z) (pagesize : Z).

Lemma header_read h body (r : Reader V) :
  struct_ok h = true -> reader_ok r -> content mem r = as_slice h ++ body ->
  exists r', read_obj mem InHeader r = (r', Ok h) /\ reader_ok r' /\ content mem r' = body.
Proof.
  intros Hs Hr Hc. destruct (read_obj_spec mem InHeader r Hr) as (r' & Hr' & Hcont & Hread).
  pose proof (as_slice_length h) as Hlen.
  exists r'. rewrite Hread, Hcont, Hc. rewrite take_Z_len, drop_Z_len by done.
  rewrite (proj2 (Z.leb_le _ _)).
  - by rewrite <- (app_nil_r (as_slice h)), from_as_slice.
  - rewrite zlen_app, Hlen. pose proof (zlen_nonneg body). lia.
Qed.

(** After the header, the context and the length check: the handler of the
    opcode, on the rest of the request. *)
Lemma handle_message_dispatch h body (r : Reader V) fw (f f1 : F) v dev ctx :
  struct_ok h = true -> oversized h = false -> reader_ok r -> content mem r = as_slice h ++ body ->
  fs_id_remap (f, Context_from h) = ((f1, ctx), Ok tt) ->
  exists s1 : world F V, at_request mem h ctx f1 v fw dev body s1 /\
    handle_message mem pagesize r (WFuseDev fw) (MkServer f v, dev) =
      let '(s', o) := dispatch mem pagesize h.(ih_opcode) s1 in ((s'.(w_srv), s'.(w_dev)), o).
Proof.
  intros Hs Hover Hr Hc Hremap. unfold handle_message.
  destruct (header_read h body r Hs Hr Hc) as (r' & -> & Hr' & Hc').
  exists (MkWorld (MkServer f1 v) (MkSrvContext h ctx r' (WFuseDev fw)) dev). split; [done|].
  unfold handle_request, mbind, prog_mbind, prog_bind, id_remap. cbn. rewrite Hremap. cbn.
  unfold oversized in Hover. by rewrite Hover.
Qed.

(** The header of a request, as [read_obj] decodes it. *)
Definition header_of (r : Reader V) : InHeader :=
  from_slice (take (Z.to_nat (size_of InHeader)) (content mem r)).

End exchange.

(** One message, from the first byte read to the reply. *)
Lemma message_discipline {F V : Type} `{FSO : FileSystemOk F} `{VO : VolatileSliceOk V}
    `{DO : FuseDeviceOk} mem pagesize (r : Reader V) w (srv : Server F) dev :
  reader_ok r -> fresh_writer w ->
  let h := header_of mem r in
  match handle_message mem pagesize r w (srv, dev) with
  | ((_, dev'), Ok n) =>
      if oversized h then replied h.(ih_unique) n dev dev'
      else outcome_post h.(ih_opcode) n h.(ih_unique) dev dev'
  | ((_, dev'), Err _) => answered h.(ih_unique) dev dev'
  | ((_, _), Panic) => False
  end.
Proof.
  intros Hr Hw h. unfold handle_message.
  destruct (read_obj_spec mem InHeader r Hr) as (r' & Hr' & _ & ->).
  destruct (size_of InHeader <=? zlen (content mem r)); [|by left]. fold (header_of mem r). fold h.
  pose proof (handle_request_outcome mem pagesize h (MkWorld srv (SrvContext_new h r' w) dev)) as Hend.
  specialize (Hend (conj eq_refl (conj Hr' Hw))). destruct Hend as [_ Hend].
  by destruct (handle_request _ _ _) as [s' [n|e|]].
Qed.

(** ** Sequences of messages

    Each message comes with the memory it lies in and a buffer for its
    reply. *)

Record Message (V : Type) : Type := MkMessage {
  ms_mem : Z -> Z;
  ms_reader : Reader V;
  ms_writer : Writer;
}.
Arguments ms_mem {V}.
Arguments ms_reader {V}.
Arguments ms_writer {V}.

Definition message_ok {V} `{VolatileSlice V} (m : Message V) : Prop :=
  reader_ok m.(ms_reader) /\ fresh_writer m.(ms_writer).

(** The id a message carries. *)
Definition message_unique {V} `{VolatileSlice V} (m : Message V) : Z := (header_of m.(ms_mem) m.(ms_reader)).(ih_unique).

Fixpoint serve_messages {F V : Type} `{FileSystem F} `{VolatileSlice V} `{FuseDevice} (pagesize : Z)
    (msgs : list (Message V)) (s : Server F * Dev) : (Server F * Dev) * list (outcome Error Z) :=
  match msgs with
  | [] => (s, [])
  | m :: msgs' =>
    let '(s1, o) := handle_message m.(ms_mem) pagesize m.(ms_reader) m.(ms_writer) s in
    let '(s2, os) := serve_messages pagesize msgs' s1 in (s2, o :: os)
  end.

(** At most one reply per message, with its id. *)
Definition replies_ok {V} `{VolatileSlice V} (m : Message V) (replies : list bytes) : Prop :=
  zlen replies <= 1 /\ Forall (reply_frame (message_unique m)) replies.

Lemma answered_replies {V} `{VolatileSlice V} (m : Message V) d d' :
  answered (message_unique m) d d' -> exists rs, d' = d ++ rs /\ replies_ok m rs.
Proof.
  intros [->|(n & msg & -> & Hf & _)]; [exists []|exists [msg]]; rewrite ?app_nil_r; split; try done.
  split; [done|by apply Forall_singleton].
Qed.

Lemma serve_messages_ok {F V : Type} `{FSO : FileSystemOk F} `{VO : VolatileSliceOk V}
    `{DO : FuseDeviceOk} pagesize (msgs : list (Message V)) (srv : Server F) dev :
  Forall message_ok msgs ->
  let '((_, dev'), os) := serve_messages pagesize msgs (srv, dev) in
  Forall (fun o => o <> Panic) os /\
  exists replies, dev' = dev ++ concat replies /\ Forall2 replies_ok msgs replies.
Proof.
  revert srv dev. induction msgs as [|m msgs IH]; intros srv dev Hok; cbn [serve_messages].
  { split; [done|]. exists []. by rewrite app_nil_r. }
  apply Forall_cons in Hok as [[Hr Hw] Hok].
  pose proof (message_discipline m.(ms_mem) pagesize m.(ms_reader) m.(ms_writer) srv dev Hr Hw) as Hd.
  cbv zeta in Hd. destruct (handle_message _ _ _ _ _) as [[srv1 dev1] o]. specialize (IH srv1 dev1 Hok).
  destruct (serve_messages pagesize msgs (srv1, dev1)) as [[srv2 dev2] os].
  assert (o <> Panic /\ answered (message_unique m) dev dev1) as [Hp Ha].
  { destruct o as [n|e|]; [|done|done]. split; [done|]. unfold message_unique.
    destruct (oversized _); [by right; exists n|]. unfold outcome_post in Hd.
    destruct (never_replies _); [left; apply Hd|]. destruct (may_not_reply _); [done|by right; exists n]. }
  apply answered_replies in Ha as (rs & -> & Hrs). destruct IH as [Hos (replies & -> & Hall)].
  cbn. split; [by constructor|]. exists (rs :: replies). cbn. rewrite app_assoc. split; [done|by constructor].
Qed.

(** C1: whatever bytes arrive, whatever the file system answers and whether the
    kernel takes the replies or not, handling a request never panics and
    submits at most one message to the device.  That message starts with a
    header that carries the request's unique id and the exact length of the
    message, and has no payload if it reports an error.  When the call
    succeeds, FORGET, BATCH_FORGET and INTERRUPT have sent nothing, and every
    other request except NOTIFY_REPLY and DESTROY has sent exactly one message
    of the length that is returned. *)
Theorem handle_message_discipline {F V : Type} `{FSO : FileSystemOk F} `{VO : VolatileSliceOk V}
    `{DO : FuseDeviceOk} mem pagesize (r : Reader V) w (srv : Server F) dev :
  reader_ok r -> fresh_writer w ->
  let h := header_of mem r in
  match handle_message mem pagesize r w (srv, dev) with
  | ((_, dev'), Ok n) =>
      if oversized h then replied h.(ih_unique) n dev dev'
      else outcome_post h.(ih_opcode) n h.(ih_unique) dev dev'
  | ((_, dev'), Err _) => answered h.(ih_unique) dev dev'
  | ((_, _), Panic) => False
  end.
Proof. apply message_discipline. Qed.

(** A LOOKUP of ["a"] under the root, from user 0. *)
Definition example_op : FsOp Entry := op_lookup (MkContext 0 0 1) 1 (bs "a").
Definition example_request : bytes := request_bytes 42 0 0 1 example_op.
Definition example_writer : FuseDevWriter := FuseDevWriter_new (repeat 0 4096).

Lemma example_reader_ok (l : bytes) : zlen l <= U64_MAX -> reader_ok (reader_of l).
Proof.
  intros Hl. unfold reader_ok, buffers_ok, reader_of, from_fuse_buffer. cbn [r_buffers bytes_consumed buffers].
  rewrite zlen_flat_cons. change (zlen (flat [])) with 0. cbn. unfold zlen in Hl. lia.
Qed.

Lemma handle_message_discipline_witness :
  let h := header_of (mem_of example_request) (reader_of example_request) in
  match handle_message (FS := NullFs_filesystem) (DEV := accepting_device) (mem_of example_request) 4096
          (reader_of example_request) (WFuseDev example_writer) (Server_new (MkNullFs), []) with
  | ((_, dev'), Ok n) =>
      if oversized h then replied h.(ih_unique) n [] dev'
      else outcome_post h.(ih_opcode) n h.(ih_unique) [] dev'
  | ((_, dev'), Err _) => answered h.(ih_unique) [] dev'
  | ((_, _), Panic) => False
  end.
Proof.
  apply (handle_message_discipline (DO := accepting_device_ok)).
  - apply example_reader_ok. by vm_compute.
  - by vm_compute.
Defined.

(** C2: the server refines the protocol.  For every well-formed call that has a
    reply (lookup, getattr, setattr, readlink, symlink, mknod, mkdir, unlink,
    rmdir, rename, link, open, create, flush, fsync, fallocate, release,
    statfs, the four xattr calls, opendir, fsyncdir, releasedir, access, lseek,
    the lock calls, ioctl, bmap and poll), the bytes of its request make the
    server run that call on the file system, with the remapped ids of the
    caller, and submit exactly the reply that encodes the result; SETLKW alone
    is served by another method than its own. *)
Theorem handle_message_serves {F V : Type} `{FS : FileSystem F} `{VO : VolatileSliceOk V}
    `{DO : FuseDeviceOk} mem pagesize {A : Set} (op : FsOp A) u uid gid pid
    (r : Reader V) fw (f f1 f2 : F) v dev ctx res :
  replied_op op = true -> wire_ok op -> op_context op = ctx ->
  struct_ok (request_header u uid gid pid op) = true ->
  oversized (request_header u uid gid pid op) = false ->
  reader_ok r -> content mem r = request_bytes u uid gid pid op ->
  fresh fw -> zlen (reply_message u v.(v_minor) op res) <= fw_capacity fw ->
  fs_id_remap (f, MkContext uid gid (signed 32 pid)) = ((f1, ctx), Ok tt) ->
  fs_op (served op) f1 = (f2, res) -> res <> Panic ->
  (handle_message mem pagesize r (WFuseDev fw) (MkServer f v, dev)).1 =
    (MkServer f2 v, dev ++ [reply_message u v.(v_minor) op res]).
Proof.
  intros Hrop Hwf Hctx Hs Hover Hr Hc Hfresh Hfit Hremap Hfs Hres.
  destruct (handle_message_dispatch mem pagesize (request_header u uid gid pid op) (wire_body op) r fw f f1 v dev ctx)
    as (s1 & Hs1 & ->); try done.
  destruct (dispatch_serves mem pagesize (request_header u uid gid pid op) ctx v fw dev f2 _ Hfresh Hfit op f1 res Hrop) with (s := s1)
    as [H1 H2]; try done.
  by destruct (dispatch mem pagesize _ s1) as [s' o]; cbn in *; rewrite H1, H2.
Qed.

Lemma handle_message_serves_witness :
  (handle_message (FS := NullFs_filesystem) (DEV := accepting_device) (mem_of example_request) 4096
     (reader_of example_request) (WFuseDev example_writer) (Server_new (MkNullFs), [])).1
  = (Server_new (MkNullFs), [reply_message 42 KERNEL_MINOR_VERSION example_op (Err (Os ENOSYS))]).
Proof.
  apply (handle_message_serves (DO := accepting_device_ok) _ _ example_op 42 0 0 1 _ _ MkNullFs MkNullFs MkNullFs
           (MkServerVersion KERNEL_VERSION KERNEL_MINOR_VERSION) [] (MkContext 0 0 1) (Err (Os ENOSYS))).
  6: apply example_reader_ok; by vm_compute.
  all: by vm_compute.
Defined.

(** FORGET and BATCH_FORGET.  The bytes of a well-formed request make the
    server call the file system once, with exactly the pairs of node ids and
    counts of the request in their order, send nothing and return zero. *)
Theorem handle_message_forgets {F V : Type} `{FS : FileSystem F} `{VO : VolatileSliceOk V}
    `{DO : FuseDeviceOk} mem pagesize {A : Set} (op : FsOp A) u uid gid pid
    (r : Reader V) fw (f f1 f2 : F) v dev ctx res :
  silent_op op = true -> wire_ok op -> op_context op = ctx ->
  struct_ok (request_header u uid gid pid op) = true ->
  oversized (request_header u uid gid pid op) = false ->
  reader_ok r -> content mem r = request_bytes u uid gid pid op ->
  fs_id_remap (f, MkContext uid gid (signed 32 pid)) = ((f1, ctx), Ok tt) ->
  fs_op op f1 = (f2, res) -> res <> Panic ->
  handle_message mem pagesize r (WFuseDev fw) (MkServer f v, dev) = ((MkServer f2 v, dev), Ok 0).
Proof.
  intros Hsil Hwf Hctx Hs Hover Hr Hc Hremap Hfs Hres.
  destruct (handle_message_dispatch mem pagesize (request_header u uid gid pid op) (wire_body op) r fw f f1 v dev ctx)
    as (s1 & Hs1 & ->); try done.
  destruct (dispatch_forgets mem pagesize (request_header u uid gid pid op) ctx v fw dev f2 op f1 res Hsil) with (s := s1)
    as (s2 & -> & H1 & H2); try done.
  by rewrite H1, H2.
Qed.

Definition example_forgets : FsOp unit := op_batch_forget (MkContext 0 0 1) [(5, 1); (6, 2)].

Lemma handle_message_forgets_witness :
  handle_message (FS := NullFs_filesystem) (DEV := accepting_device)
    (mem_of (request_bytes 42 0 0 1 example_forgets)) 4096
    (reader_of (request_bytes 42 0 0 1 example_forgets)) (WFuseDev example_writer) (Server_new (MkNullFs), [])
  = ((Server_new (MkNullFs), []), Ok 0).
Proof.
  apply (handle_message_forgets (DO := accepting_device_ok) _ _ example_forgets 42 0 0 1 _ _ MkNullFs MkNullFs
           MkNullFs (MkServerVersion KERNEL_VERSION KERNEL_MINOR_VERSION) [] (MkContext 0 0 1) (Ok tt)).
  2: repeat constructor; by vm_compute.
  5: apply example_reader_ok; by vm_compute.
  all: by vm_compute.
Defined.

(** The two-string body of SYMLINK and RENAME decodes to [a] and [b]
    exactly when it is [a], a nul, [b], a nul and anything after. *)
Theorem extract_two_cstrs_spec buf a b :
  extract_two_cstrs buf = Ok (a, b) <->
  cstr_ok a = true /\ cstr_ok b = true /\ exists rest, buf = a ++ 0 :: b ++ 0 :: rest.
Proof.
  split.
  - unfold extract_two_cstrs. destruct (position (Z.eqb 0) buf) as [pos|] eqn:Hp; [|done].
    apply position_some in Hp as (l1 & x & l2 & -> & <- & Hx%Z.eqb_eq & Hl1). subst x.
    rewrite (take_app_ge l1 _ (S (length l1))), (drop_app_ge l1 _ (S (length l1))) by lia.
    replace (S (length l1) - length l1)%nat with 1%nat by lia. cbn [take drop]. rewrite take_0.
    fold (to_bytes_with_nul l1). rewrite from_bytes_with_nul_ok by done.
    unfold mbind, outcome_mbind, outcome_bind, map_err. rewrite drop_0.
    destruct (_ <? _)%nat; [|done]. destruct (bytes_to_cstr l2) as [s2|e|] eqn:H2; [|done|done].
    intros [= -> ->]. apply bytes_to_cstr_inv in H2 as [Hb [rest ->]]. eauto.
  - intros (Ha & Hb & rest & ->). unfold extract_two_cstrs.
    rewrite (position_app_first _ a _ 0) by done.
    rewrite (take_app_ge a _ (S (length a))), (drop_app_ge a _ (S (length a))) by lia.
    replace (S (length a) - length a)%nat with 1%nat by lia. cbn [take drop]. rewrite take_0.
    fold (to_bytes_with_nul a). rewrite from_bytes_with_nul_ok by done.
    unfold mbind, outcome_mbind, outcome_bind, map_err. rewrite drop_0, bytes_to_cstr_app by done.
    rewrite (proj2 (Nat.ltb_lt _ _)); [done|]. rewrite !length_app. cbn. rewrite length_app. cbn. lia.
Qed.

(** ** Negotiation *)

(** The flags of an INIT request: the low word, and the high word of the
    extension when the request has one. *)
Definition init_flags (i : InitIn) (i2 : InitIn2) : Z :=
  if has_flag i.(ii_flags) INIT_EXT then Z.lor i.(ii_flags) (Z.shiftl i2.(ii2_flags2) 32)
  else i.(ii_flags).

Definition init_body (i : InitIn) (i2 : InitIn2) : bytes :=
  as_slice i ++ (if has_flag i.(ii_flags) INIT_EXT then as_slice i2 else []).

(** The part of [InitOut] a client of the given minor version understands. *)
Definition init_payload (pagesize minor enabled readahead : Z) : bytes :=
  let out := as_slice (InitOut_of pagesize enabled readahead) in
  if minor <? KERNEL_MINOR_VERSION_INIT_OUT_SIZE then take (Z.to_nat FUSE_COMPAT_INIT_OUT_SIZE) out
  else if minor <? KERNEL_MINOR_VERSION_INIT_22_OUT_SIZE then take (Z.to_nat FUSE_COMPAT_22_INIT_OUT_SIZE) out
  else out.

Lemma does_init {F V : Type} `{FS : FileSystem F} `{VO : VolatileSliceOk V} `{DO : FuseDeviceOk}
    mem pagesize h ctx v fw d (f f2 : F) i i2 want :
  let capable := from_bits_truncate FsOptions_all (init_flags i i2) in
  let msg := reply_msg h.(ih_unique) 0 (init_payload pagesize i.(ii_minor) (Z.land capable want) i.(ii_max_readahead)) in
  struct_ok i = true -> struct_ok i2 = true -> i.(ii_major) = KERNEL_VERSION ->
  fresh fw -> zlen msg <= fw_capacity fw -> fs_op (op_init capable) f = (f2, Ok want) ->
  does (V := V) (at_request mem h ctx f v fw d (init_body i i2)) (init mem pagesize) f2
       (MkServerVersion KERNEL_VERSION i.(ii_minor)) d msg.
Proof.
  intros capable msg Hi Hi2 Hmaj Hfresh Hfit Hfs. unfold init, init_body.
  set (v' := MkServerVersion KERNEL_VERSION i.(ii_minor)).
  intros s Hs.
  destruct (yields_read_obj mem h ctx v fw d i f _ Hi s Hs) as (s1 & Hrd & Hs1).
  rewrite (prog_bind_ok _ _ _ _ _ Hrd). rewrite Hmaj, Z.ltb_irrefl.
  assert (exists s2, at_request mem h ctx f v fw d [] s2 /\
    (if has_flag i.(ii_flags) INIT_EXT then
       x ← r_read_obj mem InitIn2; mret (Z.lor i.(ii_flags) (Z.shiftl x.(ii2_flags2) 32))
     else mret i.(ii_flags)) s1 = (s2, Ok (init_flags i i2))) as (s2 & Hs2 & Hfl).
  { unfold init_flags. destruct (has_flag i.(ii_flags) INIT_EXT); [|by exists s1].
    rewrite <- (app_nil_r (as_slice i2)) in Hs1.
    destruct (yields_read_obj mem h ctx v fw d i2 f [] Hi2 s1 Hs1) as (s2 & Hrd2 & Hs2).
    exists s2. split; [done|]. by rewrite (prog_bind_ok _ _ _ _ _ Hrd2). }
  rewrite (prog_bind_ok _ _ _ _ _ Hfl). fold capable. unfold fs_match.
  destruct Hs2 as (Hsv & Hs2). rewrite Hsv. cbn [sv_fs]. rewrite Hfs.
  set (s3 := set_vers v' (set_fs f2 s2)).
  assert (at_request mem h ctx f2 v' fw d [] s3) as Hs3 by done.
  cbv zeta. rewrite (prog_bind_ok _ _ _ s3 tt) by done.
  unfold msg, init_payload. destruct (i.(ii_minor) <? KERNEL_MINOR_VERSION_INIT_OUT_SIZE) eqn:E1;
    [|destruct (i.(ii_minor) <? KERNEL_MINOR_VERSION_INIT_22_OUT_SIZE) eqn:E2];
    refine (does_reply_ok mem h ctx v' fw d f2 _ Hfresh _ [] _ None _ s3 Hs3);
    unfold msg, init_payload in Hfit; rewrite ?E1, ?E2 in Hfit; cbn [default from_option]; by rewrite ?app_nil_r.
Qed.

(** C26: INIT.  A request with the supported major version makes the file system
    choose among the capabilities the client has (both words of the flags when
    the extension is announced, unknown bits dropped); the reply grants the
    capabilities both sides have, in the layout of the client's minor version,
    and that version is recorded. *)
Theorem handle_message_init {F V : Type} `{FS : FileSystem F} `{VO : VolatileSliceOk V} `{DO : FuseDeviceOk}
    mem pagesize (r : Reader V) h fw v dev (f f1 f2 : F) ctx i i2 want :
  let capable := from_bits_truncate FsOptions_all (init_flags i i2) in
  let msg := reply_msg h.(ih_unique) 0
               (init_payload pagesize i.(ii_minor) (Z.land capable want) i.(ii_max_readahead)) in
  h.(ih_opcode) = Opcode_value OpInit -> struct_ok h = true -> oversized h = false ->
  reader_ok r -> content mem r = as_slice h ++ init_body i i2 ->
  struct_ok i = true -> struct_ok i2 = true -> i.(ii_major) = KERNEL_VERSION ->
  fresh fw -> zlen msg <= fw_capacity fw ->
  fs_id_remap (f, Context_from h) = ((f1, ctx), Ok tt) ->
  fs_op (op_init capable) f1 = (f2, Ok want) ->
  (handle_message mem pagesize r (WFuseDev fw) (MkServer f v, dev)).1 =
    (MkServer f2 (MkServerVersion KERNEL_VERSION i.(ii_minor)), dev ++ [msg]).
Proof.
  intros capable msg Hop Hh Hover Hr Hc Hi Hi2 Hmaj Hfresh Hfit Hremap Hfs.
  destruct (handle_message_dispatch mem pagesize h (init_body i i2) r fw f f1 v dev ctx)
    as (s1 & Hs1 & ->); try done.
  rewrite Hop. change (dispatch mem pagesize (Opcode_value OpInit)) with (init mem pagesize (F := F) (V := V)).
  destruct (does_init mem pagesize h ctx v fw dev f1 f2 i i2 want Hi Hi2 Hmaj Hfresh Hfit Hfs s1 Hs1)
    as [H1 H2].
  by destruct (init mem pagesize s1) as [s' o]; cbn in *; rewrite H1, H2.
Qed.

Definition example_init_header : InHeader := {|
  ih_len := 56; ih_opcode := Opcode_value OpInit; ih_unique := 1; ih_nodeid := 0;
  ih_uid := 0; ih_gid := 0; ih_pid := 0; ih_padding := 0 |}.
Definition example_init_in : InitIn :=
  {| ii_major := 7; ii_minor := 31; ii_max_readahead := 131072; ii_flags := BIG_WRITES |}.
Definition example_init_request : bytes := as_slice example_init_header ++ init_body example_init_in zeroed.

Lemma handle_message_init_witness :
  (handle_message (FS := NullFs_filesystem) (DEV := accepting_device) (mem_of example_init_request) 4096
     (reader_of example_init_request) (WFuseDev example_writer) (Server_new (MkNullFs), [])).1
  = (MkServer MkNullFs (MkServerVersion 7 31),
     [reply_msg 1 0 (init_payload 4096 31 0 131072)]).
Proof.
  apply (handle_message_init (DO := accepting_device_ok) (mem_of example_init_request) 4096 _ example_init_header
           example_writer _ [] MkNullFs MkNullFs MkNullFs Context_new example_init_in zeroed 0).
  4: apply example_reader_ok; by vm_compute.
  all: by vm_compute.
Defined.

(** The capabilities of an INIT reply.  The two flag words together are the
    granted set, every granted capability was both offered by the client and
    wanted by the file system, and is one the protocol defines. *)
Theorem init_grants pagesize flags want readahead :
  let capable := from_bits_truncate FsOptions_all flags in
  let enabled := Z.land capable want in
  let out := InitOut_of pagesize enabled readahead in
  Z.lor out.(io_flags) (Z.shiftl out.(io_flags2) 32) = enabled /\
  Z.land enabled flags = enabled /\ Z.land enabled want = enabled /\
  Z.land enabled FsOptions_all = enabled.
Proof.
  intros capable enabled out. unfold from_bits_truncate in capable.
  assert (Z.land enabled FsOptions_all = enabled) as Hall.
  { unfold enabled, capable. rewrite <- !Z.land_assoc, (Z.land_comm want FsOptions_all).
    by rewrite (Z.land_assoc FsOptions_all FsOptions_all), Z.land_diag. }
  assert (0 <= enabled) as Hpos.
  { rewrite <- Hall. apply Z.land_nonneg. right. by vm_compute. }
  split_and!; [| | |done].
  - unfold out. cbn. unfold wrap. rewrite (Z.mod_small (Z.shiftr enabled 32)).
    + rewrite Z.lor_comm, lor_shiftl_add by (try apply Z.mod_pos_bound; lia).
      rewrite Z.shiftr_div_pow2 by lia. rewrite Z.mul_comm, <- Z.div_mod by lia. done.
    + rewrite Z.shiftr_div_pow2 by lia. split; [apply Z.div_pos; lia|].
      apply Z.div_lt_upper_bound; [lia|]. rewrite <- Hall.
      assert (Z.land enabled FsOptions_all <= FsOptions_all) as Hle by (apply land_le; by vm_compute).
      assert (FsOptions_all < 2 ^ 32 * 2 ^ 32) by (by vm_compute). lia.
  - unfold enabled, capable. rewrite (Z.land_comm flags), <- !Z.land_assoc, (Z.land_comm want flags).
    by rewrite (Z.land_assoc flags flags), Z.land_diag.
  - unfold enabled. by rewrite <- Z.land_assoc, Z.land_diag.
Qed.

(** A WRITE of the negotiated size fits the server's own limit on requests
    exactly on hosts whose pages have at most 4096 bytes: with 64 KiB pages the
    reply to INIT announces 16 MiB, and a request of that size is refused. *)
Theorem init_max_write_fits pagesize enabled readahead :
  0 < pagesize < 2 ^ 24 -> has_all enabled BIG_WRITES = true ->
  let max_write := (InitOut_of pagesize enabled readahead).(io_max_write) in
  max_write = 256 * pagesize /\
  (max_write + BUFFER_HEADER_SIZE <= MAX_BUFFER_SIZE + BUFFER_HEADER_SIZE <-> pagesize <= 4096).
Proof.
  intros Hp He max_write. assert (max_write = 256 * pagesize) as ->.
  { unfold max_write, InitOut_of. cbn [io_max_write]. rewrite He, orb_true_r.
    unfold MAX_REQ_PAGES. rewrite !wrap_small; unfold in_u; [done|lia|]. rewrite wrap_small; unfold in_u; lia. }
  split; [done|]. change MAX_BUFFER_SIZE with 1048576. lia.
Qed.

Lemma init_max_write_fits_witness :
  (InitOut_of 65536 BIG_WRITES 0).(io_max_write) = 16777216 /\
  ((InitOut_of 65536 BIG_WRITES 0).(io_max_write) + BUFFER_HEADER_SIZE <= MAX_BUFFER_SIZE + BUFFER_HEADER_SIZE
   <-> 65536 <= 4096).
Proof. apply (init_max_write_fits 65536 BIG_WRITES 0); [lia|by vm_compute]. Defined.

(** ** Requests longer than the server accepts *)

(** C35: a request whose header announces more than the largest buffer is not
    passed on: the file system sees nothing but the id remapping; FORGET and
    BATCH_FORGET end in an error without a reply, any other request is answered
    with ENOMEM. *)
Theorem handle_message_oversized {F V : Type} `{FS : FileSystem F} `{VO : VolatileSliceOk V} `{DO : FuseDeviceOk}
    mem pagesize (r : Reader V) h body fw v dev (f f1 : F) ctx :
  struct_ok h = true -> oversized h = true -> reader_ok r -> content mem r = as_slice h ++ body ->
  fresh fw -> size_of OutHeader <= fw_capacity fw ->
  fs_id_remap (f, Context_from h) = ((f1, ctx), Ok tt) ->
  let res := handle_message mem pagesize r (WFuseDev fw) (MkServer f v, dev) in
  if (h.(ih_opcode) =? Opcode_value OpForget) || (h.(ih_opcode) =? Opcode_value OpBatchForget)
  then res = ((MkServer f1 v, dev), Err (InvalidMessage (Os EOVERFLOW)))
  else res.1 = (MkServer f1 v, dev ++ [reply_msg h.(ih_unique) (- ENOMEM) []]).
Proof.
  intros Hh Hover Hr Hc Hfresh Hfit Hremap res. unfold res, handle_message.
  destruct (header_read mem h body r Hh Hr Hc) as (r' & -> & Hr' & Hc').
  unfold handle_request, mbind, prog_mbind, prog_bind, id_remap.
  cbn -[oversized]. rewrite Hremap. cbn. unfold oversized in Hover. rewrite Hover.
  destruct (_ || _); [done|].
  set (s1 := MkWorld (MkServer f1 v) (MkSrvContext h ctx r' (WFuseDev fw)) dev).
  destruct (does_reply_error mem h ctx v fw dev f1 (reply_msg h.(ih_unique) (- ENOMEM) []) Hfresh Hfit
              body (Os ENOMEM) true eq_refl s1) as [H1 H2]; [done|].
  unfold reply_error_explicit. by destruct (do_reply_error (Os ENOMEM) true s1) as [s' o]; cbn in *; rewrite H1, H2.
Qed.

Definition example_big_header : InHeader := {|
  ih_len := 16777216; ih_opcode := Opcode_value OpWrite; ih_unique := 9; ih_nodeid := 1;
  ih_uid := 0; ih_gid := 0; ih_pid := 0; ih_padding := 0 |}.

Lemma handle_message_oversized_witness :
  (handle_message (FS := NullFs_filesystem) (DEV := accepting_device) (mem_of (as_slice example_big_header)) 65536
     (reader_of (as_slice example_big_header)) (WFuseDev example_writer) (Server_new (MkNullFs), [])).1
  = (Server_new (MkNullFs), [reply_msg 9 (- ENOMEM) []]).
Proof.
  apply (handle_message_oversized (DO := accepting_device_ok) (mem_of (as_slice example_big_header)) 65536 _
           example_big_header [] example_writer _ [] MkNullFs MkNullFs (MkContext 0 0 0)).
  3: apply example_reader_ok; by vm_compute.
  all: by vm_compute.
Defined.

(** ** Blocking locks *)

(** A file system where a lock is held by another owner: a blocking request
    waits and gets it, a non-blocking one is refused. *)
Record LockFs : Set := MkLockFs {}.

#[global] Instance LockFs_filesystem : FileSystem LockFs := {|
  fs_op A op :=
    match op in FsOp A return prog LockFs io_error A with
    | op_setlk _ _ _ _ _ _ => fail (Os EAGAIN)
    | op_setlkw _ _ _ _ _ _ => mret tt
    | op => default_op (fun _ _ _ => mret tt) _ op
    end;
  fs_read := default_read;
  fs_write := default_write;
  fs_readdir := @default_readdir LockFs;
  fs_readdirplus := @default_readdirplus LockFs;
  fs_id_remap := default_id_remap;
|}.

Definition example_setlkw : FsOp unit :=
  op_setlkw (MkContext 0 0 1) 1 7 3 {| lk_start := 0; lk_end := 10; lk_lock_type := 1; lk_pid := 4 |} 0.

(** A blocking lock request is served by the non-blocking method: on a file
    system that grants the blocking call and refuses the other, SETLKW is
    answered with EAGAIN. *)
Theorem setlkw_refused :
  fs_op example_setlkw (MkLockFs) = (MkLockFs, Ok tt) /\
  (handle_message (FS := LockFs_filesystem) (DEV := accepting_device)
     (mem_of (request_bytes 42 0 0 1 example_setlkw)) 4096 (reader_of (request_bytes 42 0 0 1 example_setlkw))
     (WFuseDev example_writer) (Server_new (MkLockFs), [])).1
  = (Server_new (MkLockFs), [reply_msg 42 (- EAGAIN) []]).
Proof. by vm_compute. Qed.

(** ** Notifications *)

Section notifications.
Context {DEV : FuseDevice}.

Lemma buffer_writer_ok w :
  fresh w ->
  exists bw, FuseDevWriter_split_at 0 w = (MkFuseDevWriter true [] 0, Ok bw) /\ bw.(fw_buffered) = true /\
    writer_ok bw /\ FuseDevWriter_available_bytes bw = fw_capacity w /\ fw_slice bw = [].
Proof.
  intros [_ Hl]. rewrite split_fresh by done. pose proof (zlen_nonneg w.(fw_mem)).
  destruct (Z.ltb_spec (fw_capacity w) 0); [unfold fw_capacity in *; lia|].
  eexists. split; [done|]. unfold writer_ok, FuseDevWriter_available_bytes, fw_capacity, fw_slice. cbn.
  rewrite drop_0, take_0. split_and!; try done; lia.
Qed.

(** A write that fits, in front of the rest of a notification. *)
Lemma write_all_then {A} (data : bytes) (k : unit -> prog (FuseDevWriter * Dev) Error A) w d :
  w.(fw_buffered) = true -> writer_ok w -> zlen data <= FuseDevWriter_available_bytes w ->
  (prog_map_err FailedToWrite (FuseDevWriter_write_all data) ≫= k) (w, d) = k tt (extend_from_slice data w, d).
Proof.
  intros Hb Hok Hle. apply prog_bind_ok. unfold prog_map_err. rewrite write_all_buffered by done.
  destruct (Z.ltb_spec (FuseDevWriter_available_bytes w) (zlen data)); [lia|done].
Qed.

Definition dev_result (d : Dev) (msg : bytes) : Result Z :=
  match dev_answer d msg with inl e => Err (InvalidMessage (Os e)) | inr n => Ok n end.

Lemma commit_all w d :
  w.(fw_buffered) = true -> fw_slice w <> [] ->
  prog_map_err InvalidMessage (FuseDevWriter_commit []) (w, d) =
    ((w, d ++ [fw_slice w]), dev_result d (fw_slice w)).
Proof.
  intros Hb Hne. unfold prog_map_err, dev_result. rewrite commit_buffered by done. rewrite app_nil_r.
  by destruct (dev_answer d (fw_slice w)).
Qed.

End notifications.

(** The message that invalidates the entry [name] of [parent]. *)
Definition inval_entry_msg (parent : Z) (name : CStr) : bytes :=
  as_slice {| oh_len := 33 + zlen name; oh_error := NotifyOpcode_value NotifyInvalEntry; oh_unique := 0 |}
  ++ as_slice {| nie_parent := parent; nie_namelen := zlen name; nie_padding := 0 |}
  ++ to_bytes_with_nul name.

(** [notify_inval_entry] composes one message of 33 bytes and the name,
    whose header announces exactly that length, and submits it in one piece;
    the result is the kernel's answer. *)
Theorem notify_inval_entry_sends `{DEV : FuseDevice} w parent name d :
  fresh w -> 33 + zlen name <= fw_capacity w -> 33 + zlen name <= U32_MAX ->
  notify_inval_entry w parent name d =
    (d ++ [inval_entry_msg parent name], dev_result d (inval_entry_msg parent name)) /\
  zlen (inval_entry_msg parent name) = 33 + zlen name.
Proof.
  intros Hw Hcap Hu. pose proof (zlen_nonneg name) as Hnn.
  assert (zlen (inval_entry_msg parent name) = 33 + zlen name) as Hlen.
  { unfold inval_entry_msg. rewrite !zlen_app, !as_slice_length, zlen_with_nul.
    change (size_of OutHeader) with 16. change (size_of NotifyInvalEntryOut) with 16. lia. }
  split; [|done]. unfold notify_inval_entry, with_buffer_writer.
  destruct (buffer_writer_ok w Hw) as (bw & -> & Hb & Hok & Hav & Hnil).
  rewrite zlen_with_nul. change (wrap 32 (size_of OutHeader)) with 16.
  change (wrap 32 (size_of NotifyInvalEntryOut)) with 16.
  rewrite (wrap_small 32 (zlen name + 1)) by (unfold in_u, U32_MAX in *; lia).
  rewrite (wrap_small 32 (16 + 16 + (zlen name + 1))) by (unfold in_u, U32_MAX in *; lia).
  replace (16 + 16 + (zlen name + 1)) with (33 + zlen name) by lia.
  rewrite (wrap_small 32 (zlen name + 1 - 1)) by (unfold in_u, U32_MAX in *; lia).
  replace (zlen name + 1 - 1) with (zlen name) by lia.
  unfold inval_entry_msg in *. set (a := as_slice {| oh_len := _ |}) in *. set (b := as_slice {| nie_parent := _ |}) in *.
  rewrite !zlen_app, zlen_with_nul in Hlen. pose proof (zlen_nonneg a). pose proof (zlen_nonneg b).
  unfold FuseDevWriter_write_obj. fold a b. rewrite write_all_then by (try done; lia).
  destruct (extend_ok bw a Hok) as (Hok1 & Hc1 & Hs1); [lia|].
  assert (FuseDevWriter_available_bytes (extend_from_slice a bw) = fw_capacity w - zlen a) as Hav1
    by (unfold FuseDevWriter_available_bytes in *; rewrite Hc1; cbn; lia).
  rewrite write_all_then by (try done; lia).
  destruct (extend_ok _ b Hok1) as (Hok2 & Hc2 & Hs2); [lia|].
  set (w2 := extend_from_slice b _) in *.
  assert (FuseDevWriter_available_bytes w2 = fw_capacity w - zlen a - zlen b) as Hav2
    by (unfold FuseDevWriter_available_bytes in *; rewrite Hc2; cbn in *; lia).
  destruct (extend_ok w2 (to_bytes_with_nul name) Hok2) as (Hok3 & Hc3 & Hs3); [rewrite zlen_with_nul; lia|].
  rewrite (prog_bind_ok _ _ _ (extend_from_slice (to_bytes_with_nul name) w2, d) (zlen name + 1)).
  - rewrite commit_all; [|done|rewrite Hs3; by destruct (fw_slice w2), name].
    by rewrite Hs3, Hs2, Hs1, Hnil, <- app_assoc.
  - unfold prog_map_err. rewrite write_buffered by done. rewrite zlen_with_nul.
    destruct (Z.ltb_spec (FuseDevWriter_available_bytes w2) (zlen name + 1)); [lia|done].
Qed.

Lemma notify_inval_entry_sends_witness :
  (notify_inval_entry (DEV := accepting_device) example_writer 1 [97; 98] []).1 = [inval_entry_msg 1 [97; 98]].
Proof.
  destruct (notify_inval_entry_sends (DEV := accepting_device) example_writer 1 [97; 98] []) as [H _];
    [by vm_compute..|].
  by rewrite H.
Defined.

(** The message [notify_resend] sends. *)
Definition resend_msg : bytes :=
  as_slice {| oh_len := 0; oh_error := NotifyOpcode_value NotifyResend; oh_unique := 0 |}.

(** [notify_resend] submits one message of 16 bytes whose header
    announces the length 0, where every other message of the server announces
    the number of bytes it is made of. *)
Theorem notify_resend_length `{DEV : FuseDevice} w d :
  fresh w -> 16 <= fw_capacity w ->
  (notify_resend w d).1 = d ++ [resend_msg] /\
  zlen resend_msg = 16 /\ (from_slice resend_msg).(oh_len) = 0.
Proof.
  intros Hw Hcap. split; [|done]. unfold notify_resend, with_buffer_writer.
  destruct (buffer_writer_ok w Hw) as (bw & -> & Hb & Hok & Hav & Hnil).
  unfold FuseDevWriter_write_obj. fold resend_msg.
  assert (zlen resend_msg = 16) as Hlen by done.
  rewrite write_all_then by (try done; lia).
  destruct (extend_ok bw resend_msg Hok) as (_ & _ & Hs); [lia|].
  set (w' := extend_from_slice resend_msg bw) in *.
  assert (fw_slice w' = resend_msg) as Hs' by (by rewrite Hs, Hnil).
  unfold mbind, prog_mbind, prog_bind. rewrite commit_all; [|done|by rewrite Hs']. rewrite Hs'.
  by destruct (dev_result d resend_msg).
Qed.

Lemma notify_resend_length_witness :
  (notify_resend (DEV := accepting_device) example_writer []).1 = [resend_msg].
Proof.
  apply (notify_resend_length (DEV := accepting_device) example_writer []); by vm_compute.
Defined.
