(* ===== verification/DirStream.v ===== *)
(** * Directory streams

    What [add_dirent] of [src/api/server/sync_io.rs] writes into the reply of
    READDIR and READDIRPLUS: the records, how many of a directory's entries
    fit, and that a reader of the stream gets the entries back. *)

From S2P Require Import Prelude Std Lib Codec Abi AbiStruct FsTypes FileSystem Transport FuseDev FuseDevProps.
From S2P Require Import Instances Server.

(** Lengths rounded up to a multiple of eight. *)
Definition pad8 (n : Z) : Z := (n + 7) / 8 * 8.

Definition Dirent_of (d : DirEntry) : Dirent := {|
  de_ino := d.(d_ino);
  de_off := d.(d_offset);
  de_namelen := zlen d.(d_name);
  de_type := d.(d_type) |}.

(** The record of an entry: the attributes with READDIRPLUS, the fixed part,
    the name and zero bytes up to the next multiple of eight. *)
Definition record_bytes (x : DirEntry * option Entry) : bytes :=
  match x.2 with Some e => as_slice (EntryOut_from e) | None => [] end
  ++ as_slice (Dirent_of x.1) ++ x.1.(d_name)
  ++ repeat 0 (Z.to_nat (pad8 (size_of Dirent + zlen x.1.(d_name)) - (size_of Dirent + zlen x.1.(d_name)))).

(** The entries that fit in [room] bytes: the longest such prefix. *)
Fixpoint fitting (room : Z) (l : list (DirEntry * option Entry)) : list (DirEntry * option Entry) :=
  match l with
  | [] => []
  | x :: l' =>
    if zlen (record_bytes x) <=? room then x :: fitting (room - zlen (record_bytes x)) l' else []
  end.

(** A directory scan that offers its entries in order until one is refused. *)
Fixpoint scan_entries {B X} (add : B -> prog X io_error Z) (l : list B) : prog X io_error unit :=
  match l with
  | [] => mret tt
  | x :: l' => n ← add x; if n =? 0 then mret tt else scan_entries add l'
  end.

(** Reading a stream the way the kernel does. *)
Fixpoint parse_stream (plus : bool) (fuel : nat) (b : bytes) : option (list (option EntryOut * Dirent * bytes)) :=
  match b, fuel with
  | [], _ => Some []
  | _, O => None
  | _, S fuel' =>
    let '(e, b1) :=
      if plus then (Some (from_slice b : EntryOut), drop (Z.to_nat (size_of EntryOut)) b) else (None, b) in
    let de := from_slice b1 : Dirent in
    let len := pad8 (size_of Dirent + de.(de_namelen)) in
    if zlen b1 <? len then None
    else
      rest ← parse_stream plus fuel' (drop (Z.to_nat len) b1);
      Some ((e, de, take (Z.to_nat de.(de_namelen)) (drop (Z.to_nat (size_of Dirent)) b1)) :: rest)
  end.

Definition record_image (x : DirEntry * option Entry) : option EntryOut * Dirent * bytes :=
  (EntryOut_from <$> x.2, Dirent_of x.1, x.1.(d_name)).

(** The values of an entry are in the ranges of their Rust types. *)
Definition dirent_ok (plus : bool) (x : DirEntry * option Entry) : Prop :=
  in_u 64 x.1.(d_ino) /\ in_u 64 x.1.(d_offset) /\ in_u 32 x.1.(d_type) /\ zlen x.1.(d_name) <= U32_MAX /\
  match x.2 with Some e => plus = true /\ entry_ok e | None => plus = false end.

(** ** Records *)

Lemma pad8_spec n : n <= pad8 n < n + 8 /\ pad8 n mod 8 = 0.
Proof.
  unfold pad8. split; [|by rewrite Z.mod_mul].
  pose proof (Z.div_mod (n + 7) 8 ltac:(done)). pose proof (Z.mod_pos_bound (n + 7) 8 ltac:(done)). lia.
Qed.

Lemma pad8_land n : Z.land (n + 7) (Z.lnot 7) = pad8 n.
Proof.
  rewrite <- Z.ldiff_land. change 7 with (Z.ones 3) at 2.
  rewrite Z.ldiff_ones_r, Z.shiftl_mul_pow2, Z.shiftr_div_pow2 by done. done.
Qed.

Lemma padding_bytes n : 0 <= n < 8 -> take (Z.to_nat n) DIRENT_PADDING = repeat 0 (Z.to_nat n).
Proof.
  intros H. change DIRENT_PADDING with (repeat 0 8 : bytes).
  replace 8%nat with (Z.to_nat n + (8 - Z.to_nat n))%nat by lia.
  rewrite repeat_app. apply take_app_length'. by rewrite repeat_length.
Qed.

Lemma zlen_repeat {A} (a : A) n : zlen (repeat a n) = Z.of_nat n.
Proof. unfold zlen. by rewrite repeat_length. Qed.

Lemma record_length x :
  zlen (record_bytes x) =
    match x.2 with Some _ => size_of EntryOut | None => 0 end + pad8 (size_of Dirent + zlen x.1.(d_name)).
Proof.
  unfold record_bytes. rewrite !zlen_app, zlen_repeat, !as_slice_length.
  pose proof (pad8_spec (size_of Dirent + zlen x.1.(d_name))) as [[H1 H2] _].
  destruct x.2; [rewrite as_slice_length|change (zlen (A := Z) []) with 0]; lia.
Qed.

Lemma record_pos x : 0 < zlen (record_bytes x).
Proof.
  rewrite record_length. pose proof (pad8_spec (size_of Dirent + zlen x.1.(d_name))) as [[H1 _] _].
  pose proof (zlen_nonneg x.1.(d_name)). change (size_of Dirent) with 24 in *.
  change (size_of EntryOut) with 128. destruct x.2; lia.
Qed.

(** What fits never exceeds the room. *)
Lemma fitting_le room l : 0 <= room -> zlen (concat (map record_bytes (fitting room l))) <= room.
Proof.
  revert room. induction l as [|x l IH]; intros r Hr; cbn; [done|].
  destruct (Z.leb_spec (zlen (record_bytes x)) r); cbn; [|done]. rewrite zlen_app.
  specialize (IH (r - zlen (record_bytes x))). lia.
Qed.

Lemma Forall_fitting (P : DirEntry * option Entry -> Prop) room l : Forall P l -> Forall P (fitting room l).
Proof.
  intros Hl. revert room. induction Hl as [|x l Hx Hl IH]; intros room; cbn; [done|].
  destruct (_ <=? _); [by constructor|done].
Qed.

Lemma fitting_length room l : (length (fitting room l) <= length l)%nat.
Proof.
  revert room. induction l as [|x l IH]; intros room; cbn; [done|].
  destruct (_ <=? _); cbn; [specialize (IH (room - zlen (record_bytes x))); lia|lia].
Qed.

(** ** [add_dirent] *)

Section add_dirent.
Context {DEV : FuseDevice}.

(** Consecutive [write_all]s to the cursor. *)
Fixpoint write_each (chunks : list bytes) : prog (Writer * Dev) io_error unit :=
  match chunks with
  | [] => mret tt
  | c :: chunks' => _ ← Writer_write_all c; write_each chunks'
  end.

Lemma write_each_fits chunks w d :
  w.(fw_buffered) = true -> writer_ok w -> zlen (concat chunks) <= FuseDevWriter_available_bytes w ->
  write_each chunks (WFuseDev w, d) = ((WFuseDev (extend_from_slice (concat chunks) w), d), Ok tt).
Proof.
  revert w. induction chunks as [|c chunks IH]; intros w Hb Hok Hle; cbn [concat] in *.
  { by rewrite extend_nil. }
  rewrite zlen_app in Hle. pose proof (zlen_nonneg c). pose proof (zlen_nonneg (concat chunks)).
  cbn [write_each]. erewrite prog_bind_ok.
  2:{ cbn. rewrite write_all_buffered by done.
      destruct (Z.ltb_spec (FuseDevWriter_available_bytes w) (zlen c)); [lia|done]. }
  destruct (extend_ok w c Hok) as (Hok' & Hc & _); [lia|].
  rewrite IH; [|done..|unfold FuseDevWriter_available_bytes in *; rewrite Hc; cbn; lia].
  rewrite extend_extend; [done|done|]. rewrite zlen_app. lia.
Qed.

Lemma write_each_full chunks w d :
  w.(fw_buffered) = true -> writer_ok w -> FuseDevWriter_available_bytes w < zlen (concat chunks) ->
  exists w', write_each chunks (WFuseDev w, d) = ((WFuseDev w', d), Err (Simple InvalidData)).
Proof.
  revert w. induction chunks as [|c chunks IH]; intros w Hb Hok Hle; cbn [concat] in *.
  { change (zlen (A := Z) []) with 0 in Hle. unfold writer_ok, FuseDevWriter_available_bytes in *. lia. }
  rewrite zlen_app in Hle. cbn [write_each].
  destruct (Z_lt_le_dec (FuseDevWriter_available_bytes w) (zlen c)) as [Hlt|Hge].
  - exists w. apply prog_bind_err. cbn. rewrite write_all_buffered by done.
    destruct (Z.ltb_spec (FuseDevWriter_available_bytes w) (zlen c)); [done|lia].
  - destruct (extend_ok w c Hok) as (Hok' & Hc & _); [lia|].
    destruct (IH (extend_from_slice c w)) as [w' Hw'];
      [done..|unfold FuseDevWriter_available_bytes in *; rewrite Hc; cbn; lia|].
    exists w'. rewrite <- Hw'. erewrite prog_bind_ok; [done|]. cbn. rewrite write_all_buffered by done.
    destruct (Z.ltb_spec (FuseDevWriter_available_bytes w) (zlen c)); [lia|done].
Qed.

Definition record_chunks (x : DirEntry * option Entry) : list bytes :=
  match x.2 with Some e => [as_slice (EntryOut_from e)] | None => [] end ++
  let n := size_of Dirent + zlen x.1.(d_name) in
  as_slice (Dirent_of x.1) :: x.1.(d_name) ::
  (if 0 <? pad8 n - n then [repeat 0 (Z.to_nat (pad8 n - n))] else []).

Lemma concat_record_chunks x : concat (record_chunks x) = record_bytes x.
Proof.
  unfold record_chunks, record_bytes. rewrite concat_app. cbn [concat app].
  set (n := pad8 _ - _). f_equal; [by destruct x.2; cbn; rewrite ?app_nil_r|]. do 2 f_equal.
  destruct (Z.ltb_spec 0 n); cbn; [by rewrite app_nil_r|]. by replace (Z.to_nat n) with 0%nat by lia.
Qed.

(** [add_dirent] is the space check followed by the chunks of the record. *)
Lemma add_dirent_chunks max x w d :
  zlen x.1.(d_name) <= U32_MAX ->
  add_dirent max x.1 x.2 (WFuseDev w, d) =
    if saturating_sub max w.(fw_len) <? zlen (record_bytes x) then ((WFuseDev w, d), Ok 0)
    else (_ ← write_each (record_chunks x); mret (zlen (record_bytes x))) (WFuseDev w, d).
Proof.
  intros Hn. destruct x as [de entry]. rewrite record_length. cbn [fst snd] in *.
  pose proof (zlen_nonneg de.(d_name)) as Hnn. set (n := zlen de.(d_name)) in *.
  pose proof (pad8_spec (24 + n)) as [[Hp1 Hp2] _].
  unfold add_dirent. fold n. destruct (Z.ltb_spec U32_MAX n); [lia|].
  change (size_of Dirent) with 24. change (size_of EntryOut) with 128.
  assert (checked_add 24 n = Some (24 + n)) as Hc1
    by (unfold checked_add; destruct (Z.leb_spec (24 + n) U64_MAX); [done|unfold U32_MAX, U64_MAX in *; lia]).
  assert (checked_add (24 + n) 7 = Some (24 + n + 7)) as Hc2
    by (unfold checked_add; destruct (Z.leb_spec (24 + n + 7) U64_MAX); [done|unfold U32_MAX, U64_MAX in *; lia]).
  assert (checked_add (pad8 (24 + n)) 128 = Some (pad8 (24 + n) + 128)) as Hc3
    by (unfold checked_add; destruct (Z.leb_spec (pad8 (24 + n) + 128) U64_MAX);
        [done|unfold U32_MAX, U64_MAX in *; lia]).
  rewrite Hc1. unfold ok_or, lift, gets. erewrite prog_bind_ok by done. rewrite Hc2. cbn [fmap option_fmap option_map].
  rewrite pad8_land. erewrite prog_bind_ok by done. rewrite Hc3.
  rewrite (prog_bind_ok _ _ _ (WFuseDev w, d) (match entry with Some _ => 128 | None => 0 end + pad8 (24 + n)))
    by (by destruct entry; rewrite ?(Z.add_comm (pad8 _))).
  erewrite prog_bind_ok by done. cbn [fst Writer_bytes_written].
  unfold FuseDevWriter_bytes_written, record_chunks, Dirent_of. cbn [fst snd]. fold n.
  rewrite (wrap_small 32 n) by (unfold in_u, U32_MAX in *; lia).
  change (size_of Dirent) with 24. rewrite padding_bytes by lia.
  destruct (saturating_sub _ _ <? _); [done|].
  destruct entry as [e|]; cbn [app]; destruct (0 <? pad8 (24 + n) - (24 + n)); cbn [write_each];
    unfold mbind, prog_mbind, prog_bind; cbn [mret prog_ret];
    repeat match goal with
      |- context [match Writer_write_all ?a ?s with _ => _ end] =>
        destruct (Writer_write_all a s) as [? [[]|?|]]; [|done|done]
      end; done.
Qed.

Lemma add_dirent_taken max x w d :
  w.(fw_buffered) = true -> writer_ok w -> zlen x.1.(d_name) <= U32_MAX ->
  zlen (record_bytes x) <= max - w.(fw_len) -> max <= fw_capacity w ->
  add_dirent max x.1 x.2 (WFuseDev w, d) =
    ((WFuseDev (extend_from_slice (record_bytes x) w), d), Ok (zlen (record_bytes x))).
Proof.
  intros Hb Hok Hn Hfit Hmax. rewrite add_dirent_chunks by done. pose proof (record_pos x).
  destruct (Z.ltb_spec (saturating_sub max (fw_len w)) (zlen (record_bytes x)));
    [unfold saturating_sub in *; lia|].
  erewrite prog_bind_ok by (apply write_each_fits; [done..|];
    rewrite concat_record_chunks; unfold FuseDevWriter_available_bytes; lia).
  by rewrite concat_record_chunks.
Qed.

Lemma add_dirent_refused max x w d :
  zlen x.1.(d_name) <= U32_MAX -> max - w.(fw_len) < zlen (record_bytes x) ->
  add_dirent max x.1 x.2 (WFuseDev w, d) = ((WFuseDev w, d), Ok 0).
Proof.
  intros Hn Hfit. rewrite add_dirent_chunks by done. pose proof (record_pos x).
  destruct (Z.ltb_spec (saturating_sub max (fw_len w)) (zlen (record_bytes x)));
    [done|unfold saturating_sub in *; lia].
Qed.

(** A scan over the entries fills the cursor with the records that fit. *)
Lemma scan_fills max l w d :
  w.(fw_buffered) = true -> writer_ok w -> max <= fw_capacity w ->
  Forall (fun x => zlen x.1.(d_name) <= U32_MAX) l ->
  scan_entries (fun x => add_dirent max x.1 x.2) l (WFuseDev w, d) =
    ((WFuseDev (extend_from_slice (concat (map record_bytes (fitting (max - w.(fw_len)) l))) w), d), Ok tt).
Proof.
  intros Hb. revert w Hb. induction l as [|x l IH]; intros w Hb Hok Hmax Hl; cbn [scan_entries fitting].
  { cbn. by rewrite extend_nil. }
  apply Forall_cons in Hl as [Hx Hl].
  destruct (Z.leb_spec (zlen (record_bytes x)) (max - fw_len w)).
  2:{ erewrite prog_bind_ok by by apply add_dirent_refused. cbn. by rewrite extend_nil. }
  erewrite prog_bind_ok by by apply add_dirent_taken.
  pose proof (record_pos x). destruct (Z.eqb_spec (zlen (record_bytes x)) 0); [lia|].
  assert (zlen (record_bytes x) <= FuseDevWriter_available_bytes w) as Hav
    by (unfold FuseDevWriter_available_bytes; lia).
  destruct (extend_ok w _ Hok Hav) as (Hok' & Hc & _).
  rewrite IH; [|done..|by rewrite Hc|done]. cbn [map concat extend_from_slice fw_len] in *.
  rewrite Z.sub_add_distr, extend_extend; [done|done|].
  rewrite zlen_app. pose proof (fitting_le (max - fw_len w - zlen (record_bytes x)) l).
  unfold FuseDevWriter_available_bytes. lia.
Qed.

End add_dirent.

(** ** Reading a stream back *)

Lemma Dirent_of_ok plus x : dirent_ok plus x -> struct_ok (Dirent_of x.1) = true.
Proof.
  intros (H1 & H2 & H3 & H4 & _). pose proof (zlen_nonneg x.1.(d_name)).
  unfold struct_ok. cbn. unfold in_u, U32_MAX in *.
  rewrite !andb_true_iff, !Z.leb_le, !Z.ltb_lt. lia.
Qed.

Lemma parse_record plus fuel x b :
  dirent_ok plus x ->
  parse_stream plus (S fuel) (record_bytes x ++ b) =
    (rest ← parse_stream plus fuel b; Some (record_image x :: rest)).
Proof.
  intros Hx. pose proof (Dirent_of_ok plus x Hx) as Hde. pose proof (record_pos x) as Hpos.
  destruct x as [de entry]. destruct Hx as (_ & _ & _ & Hn & He). cbn [fst snd] in *.
  unfold record_image. cbn [fst snd].
  set (n := size_of Dirent + zlen de.(d_name)).
  pose proof (pad8_spec n) as [[Hp1 Hp2] _].
  set (tail := as_slice (Dirent_of de) ++ d_name de ++ repeat 0 (Z.to_nat (pad8 n - n))).
  assert (record_bytes (de, entry) =
    match entry with Some e => as_slice (EntryOut_from e) | None => [] end ++ tail) as Hrec by done.
  assert (zlen tail = pad8 n) as Htail.
  { unfold tail. rewrite !zlen_app, zlen_repeat, as_slice_length. lia. }
  assert (forall e, (let de' := from_slice (tail ++ b) : Dirent in
    let len := pad8 (size_of Dirent + de'.(de_namelen)) in
    if zlen (tail ++ b) <? len then None
    else
      rest ← parse_stream plus fuel (drop (Z.to_nat len) (tail ++ b));
      Some ((e, de', take (Z.to_nat de'.(de_namelen)) (drop (Z.to_nat (size_of Dirent)) (tail ++ b))) :: rest)) =
    (rest ← parse_stream plus fuel b; Some ((e, Dirent_of de, d_name de) :: rest))) as Hbody.
  { intros e. assert (from_slice (tail ++ b) = Dirent_of de) as ->
      by (unfold tail; rewrite <- app_assoc; by apply from_as_slice).
    cbv zeta. cbn [Dirent_of de_namelen]. fold n. rewrite (zlen_app tail b), Htail.
    pose proof (zlen_nonneg b). destruct (Z.ltb_spec (pad8 n + zlen b) (pad8 n)); [lia|].
    rewrite (drop_Z_len tail b (pad8 n)) by done. unfold tail.
    rewrite <- !app_assoc, drop_Z_len by apply as_slice_length.
    by rewrite take_Z_len. }
  rewrite Hrec, <- app_assoc. destruct entry as [e|].
  - destruct He as [-> He]. destruct (as_slice (EntryOut_from e) ++ tail ++ b) as [|y t] eqn:Hb.
    { apply (f_equal zlen) in Hb. rewrite Hrec, zlen_app in Hpos. rewrite !zlen_app in Hb.
      pose proof (zlen_nonneg b). change (zlen (A := Z) []) with 0 in Hb. lia. }
    cbn [parse_stream]. rewrite <- Hb, from_as_slice by by apply EntryOut_from_ok.
    rewrite drop_Z_len by apply as_slice_length. apply Hbody.
  - subst plus. rewrite app_nil_l. destruct (tail ++ b) as [|y t] eqn:Hb.
    { apply (f_equal zlen) in Hb. rewrite Hrec, zlen_app in Hpos. rewrite zlen_app in Hb.
      pose proof (zlen_nonneg b). change (zlen (A := Z) []) with 0 in *. lia. }
    cbn [parse_stream]. rewrite <- Hb in *. apply Hbody.
Qed.

Lemma parse_records plus fuel l :
  Forall (dirent_ok plus) l -> (length l <= fuel)%nat ->
  parse_stream plus fuel (concat (map record_bytes l)) = Some (map record_image l).
Proof.
  revert fuel. induction l as [|x l IH]; intros fuel Hl Hf; cbn [map concat]; [by destruct fuel|].
  apply Forall_cons in Hl as [Hx Hl]. destruct fuel as [|fuel]; cbn in Hf; [lia|].
  rewrite parse_record by done. by rewrite IH by (done || lia).
Qed.

(** ** Claims *)

(** [add_dirent] on every branch.  An entry whose name is longer than a
    [u32] can say is refused with EOVERFLOW; one that would take the stream
    beyond the size the client asked for is left out and 0 returned; one the
    cursor has no room for is an error; otherwise exactly the record is
    appended, a multiple of eight bytes, and its length returned. *)
Theorem add_dirent_spec `{DEV : FuseDevice} max x w d :
  w.(fw_buffered) = true -> writer_ok w ->
  let record := record_bytes x in
  zlen record mod 8 = 0 /\
  if U32_MAX <? zlen x.1.(d_name) then
    add_dirent max x.1 x.2 (WFuseDev w, d) = ((WFuseDev w, d), Err (Os EOVERFLOW))
  else if max - w.(fw_len) <? zlen record then
    add_dirent max x.1 x.2 (WFuseDev w, d) = ((WFuseDev w, d), Ok 0)
  else if FuseDevWriter_available_bytes w <? zlen record then
    exists w', add_dirent max x.1 x.2 (WFuseDev w, d) = ((WFuseDev w', d), Err (Simple InvalidData))
  else
    exists w', add_dirent max x.1 x.2 (WFuseDev w, d) = ((WFuseDev w', d), Ok (zlen record)) /\
      fw_slice w' = fw_slice w ++ record /\ writer_ok w' /\ w'.(fw_buffered) = true.
Proof.
  intros Hb Hok record. split.
  { unfold record. rewrite record_length. pose proof (pad8_spec (size_of Dirent + zlen x.1.(d_name))) as [_ H].
    rewrite Z.add_mod, H by done. by destruct x.2. }
  destruct (Z.ltb_spec U32_MAX (zlen x.1.(d_name))) as [Hlong|Hn].
  { unfold add_dirent. by destruct (Z.ltb_spec U32_MAX (zlen x.1.(d_name))); [|lia]. }
  destruct (Z.ltb_spec (max - fw_len w) (zlen record)) as [Hlt|Hfit]; [by apply add_dirent_refused|].
  rewrite add_dirent_chunks by done. pose proof (record_pos x).
  destruct (Z.ltb_spec (saturating_sub max (fw_len w)) (zlen (record_bytes x)));
    [unfold saturating_sub, record in *; lia|].
  destruct (Z.ltb_spec (FuseDevWriter_available_bytes w) (zlen record)) as [Hfull|Hroom].
  - destruct (write_each_full (record_chunks x) w d) as [w' Hw']; [done..|by rewrite concat_record_chunks|].
    exists w'. by erewrite prog_bind_err.
  - destruct (extend_ok w record Hok Hroom) as (Hok' & _ & Hs).
    exists (extend_from_slice record w). split; [|done].
    erewrite prog_bind_ok by (by apply write_each_fits; rewrite ?concat_record_chunks).
    by rewrite concat_record_chunks.
Qed.

Definition example_cursor : FuseDevWriter := MkFuseDevWriter true (repeat 0 128) 0.

Lemma add_dirent_spec_witness :
  (add_dirent (DEV := accepting_device) 64 (MkDirEntry 7 1 4 [97; 98]) None (WFuseDev example_cursor, [])).2 = Ok 32.
Proof.
  assert (writer_ok example_cursor) as Hok by done.
  destruct (add_dirent_spec (DEV := accepting_device) 64 (MkDirEntry 7 1 4 [97; 98], None)
    example_cursor [] eq_refl Hok) as [_ (w' & H & _)].
  exact (f_equal snd H).
Defined.

(** C27: a directory scan offered to [add_dirent] entry by entry ends well, and
    reading the bytes it left in the reply gives back, in order, exactly the
    longest prefix of the entries whose records fit in the size the client
    asked for. *)
Theorem readdir_stream_roundtrip `{DEV : FuseDevice} plus max l w d :
  w.(fw_buffered) = true -> w.(fw_len) = 0 -> max <= fw_capacity w -> 0 <= max ->
  Forall (dirent_ok plus) l ->
  exists w', scan_entries (fun x => add_dirent max x.1 x.2) l (WFuseDev w, d) = ((WFuseDev w', d), Ok tt) /\
    zlen (fw_slice w') <= max /\
    parse_stream plus (length l) (fw_slice w') = Some (map record_image (fitting max l)).
Proof.
  intros Hb Hl Hmax H0 Hall.
  assert (writer_ok w) as Hok by (unfold writer_ok; lia).
  eexists. split.
  { apply scan_fills; [done..|]. apply (Forall_impl _ _ _ Hall). intros x Hx. apply Hx. }
  rewrite Hl, Z.sub_0_r. pose proof (fitting_le max l H0) as Hle.
  edestruct (extend_ok w (concat (map record_bytes (fitting max l))) Hok) as (_ & _ & ->);
    [unfold FuseDevWriter_available_bytes; lia|].
  assert (fw_slice w = []) as -> by (unfold fw_slice; by rewrite Hl).
  split; [done|]. apply parse_records; [by apply Forall_fitting|apply fitting_length].
Qed.

Definition example_entries : list (DirEntry * option Entry) :=
  [(MkDirEntry 7 1 4 [97; 98], None); (MkDirEntry 8 2 4 [99], None); (MkDirEntry 9 3 4 [100], None)].

(** Two of the three records fit in 80 bytes. *)
Lemma readdir_stream_roundtrip_witness :
  exists w', scan_entries (fun x => add_dirent (DEV := accepting_device) 80 x.1 x.2) example_entries
    (WFuseDev example_cursor, []) = ((WFuseDev w', []), Ok tt) /\
    parse_stream false 3 (fw_slice w') = Some (map record_image (take 2 example_entries)).
Proof.
  destruct (readdir_stream_roundtrip (DEV := accepting_device) false 80 example_entries example_cursor [])
    as (w' & H1 & _ & H2); [done..|by repeat constructor|].
  by exists w'.
Defined.
