(* ===== verification/ServerData.v ===== *)
(** * The data path of the server

    READ, WRITE, READDIR and READDIRPLUS: the payload goes through a split
    reply writer or is handed over as the rest of the request.  These are the
    handlers the calls of [ServerWire] do not cover. *)

From S2P Require Import Prelude Std Lib Codec Abi AbiStruct FsTypes FileSystem.
From S2P Require Import Transport TransportProps FuseDev FuseDevProps Instances.
From S2P Require Import Server ServerProps ServerWire ServerWireProps ServerClaims DirStream.

(** The lock owner of READ and WRITE, when the flag announces one. *)
Definition read_owner (i : ReadIn) : option Z :=
  if has_flag i.(rd_read_flags) READ_LOCKOWNER then Some i.(rd_lock_owner) else None.

Definition write_owner (i : WriteIn) : option Z :=
  if has_flag i.(wi_fuse_flags) WRITE_LOCKOWNER then Some i.(wi_lock_owner) else None.

(** The reply to a READ. *)
Definition read_message (u : Z) (data : bytes) (res : io_result Z) : bytes :=
  match res with
  | Err e => reply_msg u (- errno_of e) []
  | _ => reply_msg u 0 data
  end.

(** The reply to a WRITE. *)
Definition write_message (u : Z) (res : io_result Z) : bytes :=
  match res with
  | Ok count => reply_msg u 0 (as_slice {| wo_size := wrap 32 count; wo_padding := 0 |})
  | Err e => reply_msg u (- errno_of e) []
  | Panic => []
  end.

Section data.
Context {F V : Type} {FS : FileSystem F}.
Context {VS : VolatileSlice V} {VO : VolatileSliceOk V} {DEV : FuseDevice} {DO : FuseDeviceOk}.
Context (mem : Z -> Z).

(** [ZcReader] hands over the bytes of the request that are left. *)
Lemma reader_bytes_content (r : Reader V) : reader_bytes mem r = content mem r.
Proof.
  unfold reader_bytes, content, flat. destruct r as [[bufs ?]]. cbn.
  induction bufs as [|v bufs IH]; [done|]. cbn. by rewrite map_app, IH.
Qed.

Context (h : InHeader) (ctx : Context) (v : ServerVersion) (d : Dev).

(** A request in progress after [split_header]: [cap2] bytes for the payload. *)
Definition split_request (f : F) (cap2 : Z) (s : world F V) : Prop :=
  s.(w_srv) = MkServer f v /\ s.(w_dev) = d /\ s.(w_ctx).(sc_in_header) = h /\
  s.(w_ctx).(sc_context) = ctx /\ split_ready cap2 s.

Lemma yields_split f l fw :
  fresh fw -> fw_capacity fw <= U32_MAX -> size_of OutHeader <= fw_capacity fw ->
  yields (at_request mem h ctx f v fw d l) split_header
    (WFuseDev (MkFuseDevWriter true (drop (Z.to_nat (size_of OutHeader)) fw.(fw_mem)) 0))
    (split_request f (fw_capacity fw - size_of OutHeader)).
Proof.
  intros [Hb Hl] Hcap Hroom s (Hsv & Hd & Hh & Hc & Hw & _). unfold split_header. rewrite Hw. cbn.
  rewrite split_fresh by done. destruct (Z.ltb_spec (fw_capacity fw) (size_of OutHeader)); [lia|].
  eexists. split; [done|]. split_and!; try done. eexists. split_and!; [done..| |].
  - unfold fw_capacity, zlen in *. cbn. rewrite length_take. unfold size_of in *. lia.
  - lia.
Qed.

(** Header and collected payload leave as one message on [commit]. *)
Lemma does_split_send f cap2 hd other (k : Z -> prog (world F V) Error Z) :
  zlen hd = size_of OutHeader -> (forall n s, (k n s).1 = s) ->
  does (split_request f cap2)
    (_ ← on_writer EncodeMessage (Writer_write_all hd); on_writer EncodeMessage (Writer_commit other) ≫= k)
    f v d (hd ++ other_bytes other).
Proof.
  intros Hhd Hk s (Hsv & Hd & Hh & _ & (fw & Hw & Hfb & Hfl & Hfc & Hcap)).
  assert (writer_ok fw) as Hwok by (unfold writer_ok; rewrite Hfl, Hfc; by vm_compute).
  assert (zlen hd <= FuseDevWriter_available_bytes fw) as Hav by (unfold FuseDevWriter_available_bytes; lia).
  destruct (extend_ok fw hd Hwok Hav) as (_ & _ & Hs).
  assert (fw_slice fw = []) as Hnil by (unfold fw_slice; rewrite Hfl; apply take_0).
  rewrite Hnil, app_nil_l in Hs.
  set (m := _ ≫= _). enough (exists c, (m s).1 = MkWorld s.(w_srv) c (d ++ [hd ++ other_bytes other]))
    as (c & ->) by (by rewrite Hsv). subst m.
  unfold mbind, prog_mbind, prog_bind, on_writer at 1. rewrite Hw. cbn [Writer_write_all on_fusedev].
  rewrite write_all_buffered by done.
  destruct (Z.ltb_spec (FuseDevWriter_available_bytes fw) (zlen hd)); [lia|]. cbn [map_err].
  unfold on_writer. cbn [w_ctx sc_w w_dev w_srv sc_in_header sc_context sc_r Writer_commit on_fusedev].
  fold (other_bytes other). rewrite commit_buffered; [|done|].
  - rewrite Hs, Hd. destruct (dev_answer d (hd ++ other_bytes other)); cbn [map_err];
      rewrite ?Hk; by eexists.
  - rewrite Hs. intros ->. unfold size_of in Hhd. by vm_compute in Hhd.
Qed.

(** Reading a field of the request in progress. *)
Lemma does_gets {A} P (g : world F V -> A) a (k : A -> prog (world F V) Error Z) f' msg :
  (forall s, P s -> g s = a) -> does P (k a) f' v d msg -> does P (gets g ≫= k) f' v d msg.
Proof.
  intros Hg Hk s Hs. unfold gets, mbind, prog_mbind, prog_bind. rewrite (Hg s Hs). by apply Hk.
Qed.

Lemma does_reply_split f cap2 w2 :
  writer_ok w2 ->
  does (split_request f cap2) (reply_split (WFuseDev w2) w2.(fw_len)) f v d
    (reply_msg h.(ih_unique) 0 (fw_slice w2)).
Proof.
  intros Hok. apply (does_gets _ _ h.(ih_unique)); [by intros s (_ & _ & -> & _)|]. unfold reply_msg. rewrite fw_slice_length by done.
  apply (does_split_send f cap2 _ (Some (WFuseDev w2))); [apply as_slice_length|done].
Qed.

Lemma does_split_error f cap2 e explicit :
  does (split_request f cap2) (do_reply_error e explicit) f v d (reply_msg h.(ih_unique) (- errno_of e) []).
Proof.
  apply (does_gets _ _ h.(ih_unique)); [by intros s (_ & _ & -> & _)|]. unfold reply_msg. change (size_of OutHeader + zlen []) with (size_of OutHeader).
  apply (does_split_send f cap2 _ None); [apply as_slice_length|done].
Qed.

(** ** READ *)

Lemma does_read (f f' : F) fw i data res :
  struct_ok i = true -> fresh fw -> fw_capacity fw <= U32_MAX -> size_of OutHeader <= fw_capacity fw ->
  fs_read ctx h.(ih_nodeid) i.(rd_fh) (fw_capacity fw - size_of OutHeader) i.(rd_size) i.(rd_offset)
    (read_owner i) i.(rd_flags) f = (f', (data, res)) ->
  zlen data <= fw_capacity fw - size_of OutHeader ->
  match res with Ok n => n = zlen data | Err _ => True | Panic => False end ->
  does (V := V) (at_request mem h ctx f v fw d (as_slice i)) (read mem) f' v d
    (read_message h.(ih_unique) data res).
Proof.
  intros Hi Hfresh Hcap Hroom Hread Hlen Hres. rewrite <- (app_nil_r (as_slice i)).
  apply does_read_obj; [apply _|done|]. cbv zeta.
  eapply does_bind; [by apply yields_split|].
  apply (does_gets _ _ ctx); [by intros s (_ & _ & _ & -> & _)|].
  apply (does_gets _ _ h.(ih_nodeid)); [by intros s (_ & _ & -> & _)|].
  intros s (Hsv & Hs). unfold read_reply. set (w2 := MkFuseDevWriter true _ 0).
  assert (fw_capacity w2 = fw_capacity fw - size_of OutHeader) as Hc2.
  { unfold fw_capacity, zlen, w2 in *. cbn [fw_mem]. rewrite length_drop. unfold size_of in *. lia. }
  assert (FuseDevWriter_available_bytes w2 = fw_capacity fw - size_of OutHeader) as Hav.
  { unfold FuseDevWriter_available_bytes. rewrite Hc2. unfold w2. cbn [fw_len]. lia. }
  cbn [Writer_available_bytes]. fold (read_owner i). rewrite Hav, Hsv. cbn [sv_fs]. rewrite Hread.
  assert (split_request f' (fw_capacity fw - size_of OutHeader) (set_fs f' s)) as Hs'.
  { split; [cbn; by rewrite Hsv|done]. }
  assert (writer_ok w2) as Hok by (unfold writer_ok; rewrite Hc2; unfold w2; cbn [fw_len]; lia).
  destruct res as [n|e|]; [subst n| |done].
  - destruct (extend_ok w2 data Hok) as (Hok' & _ & Hsl); [lia|].
    assert (fw_slice w2 = []) as Hnil by (unfold fw_slice, w2; apply take_0).
    pose proof (does_reply_split f' _ _ Hok' _ Hs') as Hd. rewrite Hsl, Hnil, app_nil_l in Hd.
    cbn [extend_from_slice fw_len] in Hd. by replace (fw_len w2 + zlen data) with (zlen data) in Hd.
  - exact (does_split_error f' _ e false _ Hs').
Qed.

(** ** WRITE *)

Lemma does_write (f f' : F) fw i data res :
  struct_ok i = true -> fresh fw -> fw_capacity fw <= U32_MAX -> size_of OutHeader + size_of WriteOut <= fw_capacity fw ->
  fs_write ctx h.(ih_nodeid) i.(wi_fh) data i.(wi_size) i.(wi_offset) (write_owner i)
    (has_flag i.(wi_fuse_flags) WRITE_CACHE) i.(wi_flags) i.(wi_fuse_flags) f = (f', res) ->
  res <> Panic ->
  does (V := V) (at_request mem h ctx f v fw d (as_slice i ++ data)) (write mem) f' v d
    (write_message h.(ih_unique) res).
Proof.
  intros Hi Hfresh Hcap Hroom Hwr Hres. apply does_read_obj; [apply _|done|]. cbv zeta.
  intros s (Hsv & Hd & Hh & Hc & Hw & Hr & Hl). set (s1 := (take_reader s).1).
  assert (at_request mem h ctx f v fw d [] s1) as Hs1 by done.
  rewrite (prog_bind_ok _ _ s s1 (sc_r (w_ctx s))) by done.
  rewrite reader_bytes_content, Hl. fold (write_owner i). clearbody s1.
  refine (does_context mem h ctx v fw d f' _ f [] _ _ s1 Hs1).
  refine (does_nodeid mem h ctx v fw d f' _ f [] _ _). refine (does_fs mem h ctx v fw d f' _ f [] _ res _ _ Hwr Hres _).
  destruct res as [n|e|]; [| |done]; unfold write_message.
  - apply does_reply_struct; [done| |done]. unfold reply_msg. rewrite zlen_app, !as_slice_length. lia.
  - unfold reply_error. apply does_reply_error; [done| |done]. unfold reply_msg. rewrite zlen_app, as_slice_length.
    change (zlen (A := Z) []) with 0. change (size_of WriteOut) with 8 in Hroom. lia.
Qed.

(** ** READDIR and READDIRPLUS *)

(** The file system offers the entries [l] in order, until one is refused. *)
Definition scans (plus : bool) (i : ReadIn) (inode : Z) (l : list (DirEntry * option Entry)) (f f' : F) : Prop :=
  forall x : Writer * Dev,
    readdir_scan plus i ctx inode (f, x) =
      let '(x', o) := scan_entries (fun e => add_dirent i.(rd_size) e.1 e.2) l x in ((f', x'), o).

Lemma does_readdir plus (f f' : F) fw i l :
  struct_ok i = true -> fresh fw -> fw_capacity fw <= U32_MAX -> 0 <= i.(rd_size) ->
  size_of OutHeader + i.(rd_size) <= fw_capacity fw ->
  scans plus i h.(ih_nodeid) l f f' -> Forall (fun x => zlen x.1.(d_name) <= U32_MAX) l ->
  does (V := V) (at_request mem h ctx f v fw d (as_slice i)) (do_readdir mem plus) f' v d
    (reply_msg h.(ih_unique) 0 (concat (map record_bytes (fitting i.(rd_size) l)))).
Proof.
  intros Hi Hfresh Hcap Hsz Hroom Hscan Hl. rewrite <- (app_nil_r (as_slice i)).
  assert (0 <= size_of OutHeader) as H16 by done.
  apply does_read_obj; [apply _|done|].
  apply (does_gets _ _ (fw_capacity fw)).
  { intros s (_ & _ & _ & _ & -> & _). cbn. unfold FuseDevWriter_available_bytes. rewrite (proj2 Hfresh). lia. }
  destruct (Z.ltb_spec (fw_capacity fw) i.(rd_size)); [lia|].
  eapply does_bind; [apply yields_split; [done..|lia]|].
  apply (does_gets _ _ ctx); [by intros s (_ & _ & _ & -> & _)|].
  apply (does_gets _ _ h.(ih_nodeid)); [by intros s (_ & _ & -> & _)|].
  intros s (Hsv & Hdev & Hs). unfold readdir_reply. set (w2 := MkFuseDevWriter true _ 0).
  assert (fw_capacity w2 = fw_capacity fw - size_of OutHeader) as Hc2.
  { unfold fw_capacity, zlen, w2 in *. cbn [fw_mem]. rewrite length_drop. unfold size_of in *. lia. }
  assert (writer_ok w2) as Hok by (unfold writer_ok; rewrite Hc2; unfold w2; cbn [fw_len]; lia).
  rewrite Hsv, Hdev. cbn [sv_fs sv_vers]. rewrite Hscan, scan_fills; [|done..|lia|done].
  change (fw_len w2) with 0. rewrite Z.sub_0_r. set (data := concat _).
  assert (zlen data <= i.(rd_size)) as Hfit by by apply fitting_le.
  set (s' := MkWorld _ _ _).
  assert (split_request f' (fw_capacity fw - size_of OutHeader) s') as Hs' by done.
  destruct (extend_ok w2 data Hok) as (Hok' & _ & Hsl).
  { unfold FuseDevWriter_available_bytes. rewrite Hc2. change (fw_len w2) with 0. lia. }
  assert (fw_slice w2 = []) as Hnil by (unfold fw_slice, w2; apply take_0).
  pose proof (does_reply_split f' _ _ Hok' _ Hs') as Hd. by rewrite Hsl, Hnil, app_nil_l in Hd.
Qed.

End data.

(** ** Claims *)

(** From the end of a handler to the end of the request. *)
Lemma handle_message_does {F V : Type} `{FS : FileSystem F} `{VO : VolatileSliceOk V} `{DO : FuseDeviceOk}
    mem pagesize (r : Reader V) h body fw v dev (f f1 f' : F) ctx msg :
  struct_ok h = true -> oversized h = false -> reader_ok r -> content mem r = as_slice h ++ body ->
  fs_id_remap (f, Context_from h) = ((f1, ctx), Ok tt) ->
  does (V := V) (at_request mem h ctx f1 v fw dev body) (dispatch mem pagesize h.(ih_opcode)) f' v dev msg ->
  (handle_message mem pagesize r (WFuseDev fw) (MkServer f v, dev)).1 = (MkServer f' v, dev ++ [msg]).
Proof.
  intros Hh Hover Hr Hc Hremap Hdoes.
  destruct (handle_message_dispatch mem pagesize h body r fw f f1 v dev ctx) as (s1 & Hs1 & ->); try done.
  destruct (Hdoes s1 Hs1) as [H1 H2]. by destruct (dispatch _ _ _ _) as [s' o]; cbn in *; rewrite H1, H2.
Qed.

(** C33: READ.  The file system is asked once, with the fields of the request
    and the space the reply leaves; what it wrote goes back behind a header in
    a single message, and an error goes back as an error without data. *)
Theorem handle_message_read {F V : Type} `{FSO : FileSystemOk F} `{VO : VolatileSliceOk V} `{DO : FuseDeviceOk}
    mem pagesize (r : Reader V) h fw v dev (f f1 f2 : F) ctx i data res :
  h.(ih_opcode) = Opcode_value OpRead -> struct_ok h = true -> oversized h = false ->
  reader_ok r -> content mem r = as_slice h ++ as_slice i -> struct_ok i = true ->
  fresh fw -> fw_capacity fw <= U32_MAX -> size_of OutHeader <= fw_capacity fw ->
  fs_id_remap (f, Context_from h) = ((f1, ctx), Ok tt) ->
  fs_read ctx h.(ih_nodeid) i.(rd_fh) (fw_capacity fw - size_of OutHeader) i.(rd_size) i.(rd_offset)
    (read_owner i) i.(rd_flags) f1 = (f2, (data, res)) ->
  (handle_message mem pagesize r (WFuseDev fw) (MkServer f v, dev)).1 =
    (MkServer f2 v, dev ++ [read_message h.(ih_unique) data res]).
Proof.
  intros Hop Hh Hover Hr Hc Hi Hfresh Hcap Hroom Hremap Hread.
  eapply handle_message_does; [done..|]. rewrite Hop.
  assert (0 <= fw_capacity fw - size_of OutHeader) as Hnn by lia.
  pose proof (fs_read_ok ctx h.(ih_nodeid) i.(rd_fh) _ i.(rd_size) i.(rd_offset)
    (read_owner i) i.(rd_flags) f1 Hnn) as Hok. rewrite Hread in Hok. destruct Hok as [Hlen Hres].
  by apply (does_read mem h ctx v dev f1 f2).
Qed.

(** C34: WRITE.  The file system gets the bytes that follow the request's fixed
    part, all of them and unchanged, with its fields; the reply carries the
    count it returned or its error. *)
Theorem handle_message_write {F V : Type} `{FSO : FileSystemOk F} `{VO : VolatileSliceOk V} `{DO : FuseDeviceOk}
    mem pagesize (r : Reader V) h fw v dev (f f1 f2 : F) ctx i data res :
  h.(ih_opcode) = Opcode_value OpWrite -> struct_ok h = true -> oversized h = false ->
  reader_ok r -> content mem r = as_slice h ++ as_slice i ++ data -> struct_ok i = true ->
  fresh fw -> fw_capacity fw <= U32_MAX -> size_of OutHeader + size_of WriteOut <= fw_capacity fw ->
  fs_id_remap (f, Context_from h) = ((f1, ctx), Ok tt) ->
  fs_write ctx h.(ih_nodeid) i.(wi_fh) data i.(wi_size) i.(wi_offset) (write_owner i)
    (has_flag i.(wi_fuse_flags) WRITE_CACHE) i.(wi_flags) i.(wi_fuse_flags) f1 = (f2, res) ->
  (handle_message mem pagesize r (WFuseDev fw) (MkServer f v, dev)).1 =
    (MkServer f2 v, dev ++ [write_message h.(ih_unique) res]).
Proof.
  intros Hop Hh Hover Hr Hc Hi Hfresh Hcap Hroom Hremap Hwr.
  eapply handle_message_does; [done..|]. rewrite Hop.
  pose proof (fs_write_no_panic ctx h.(ih_nodeid) i.(wi_fh) data i.(wi_size) i.(wi_offset) (write_owner i)
    (has_flag i.(wi_fuse_flags) WRITE_CACHE) i.(wi_flags) i.(wi_fuse_flags) f1) as Hnp.
  rewrite Hwr in Hnp. by apply (does_write mem h ctx v dev f1 f2).
Qed.

(** ** A file system of one file, for the witnesses *)

Record FileFs : Type := MkFileFs { file_content : bytes }.

Definition file_forget (ctx : Context) (inode count : Z) : prog FileFs io_error unit := mret tt.

Definition file_read (ctx : Context) (inode handle available size offset : Z) (lock_owner : option Z)
    (flags : Z) (f : FileFs) : FileFs * (bytes * io_result Z) :=
  let data := take (Z.to_nat (Z.min available size)) (drop (Z.to_nat offset) f.(file_content)) in
  (f, (data, Ok (zlen data))).

Definition file_write (ctx : Context) (inode handle : Z) (data : bytes) (size offset : Z)
    (lock_owner : option Z) (delayed_write : bool) (flags fuse_flags : Z) : prog FileFs io_error Z := fun f =>
  (MkFileFs (take (Z.to_nat offset) f.(file_content) ++ data ++
             drop (Z.to_nat offset + length data) f.(file_content)), Ok (zlen data)).

#[global] Instance FileFs_filesystem : FileSystem FileFs := {|
  fs_op := default_op file_forget;
  fs_read := file_read;
  fs_write := file_write;
  fs_readdir := @default_readdir FileFs;
  fs_readdirplus := @default_readdirplus FileFs;
  fs_id_remap := default_id_remap;
|}.

#[global] Instance FileFs_filesystem_ok : FileSystemOk FileFs.
Proof.
  split; cbn.
  - intros A op. apply default_op_no_panic. intros. apply no_panic_mret.
  - intros. split; [|done]. unfold zlen. rewrite length_take. lia.
  - by intros.
  - intros X ctx inode handle size offset add P HP f x Hx. done.
  - intros X ctx inode handle size offset add P HP f x Hx. done.
  - by intros s.
Qed.

Definition example_header (op : Opcode) (len nodeid : Z) : InHeader := {|
  ih_len := len; ih_opcode := Opcode_value op; ih_unique := 9; ih_nodeid := nodeid;
  ih_uid := 0; ih_gid := 0; ih_pid := 0; ih_padding := 0 |}.

Definition example_read_in : ReadIn := {|
  rd_fh := 3; rd_offset := 1; rd_size := 4; rd_read_flags := 0; rd_lock_owner := 0; rd_flags := 0; rd_padding := 0 |}.

Definition example_read_request : bytes := as_slice (example_header OpRead 80 5) ++ as_slice example_read_in.

Lemma handle_message_read_witness :
  (handle_message (F := FileFs) (DEV := accepting_device) (mem_of example_read_request) 4096
     (reader_of example_read_request) (WFuseDev example_writer) (Server_new (MkFileFs (bs "abcdefgh")), [])).1
  = (Server_new (MkFileFs (bs "abcdefgh")), [reply_msg 9 0 (bs "bcde")]).
Proof.
  apply (handle_message_read (DO := accepting_device_ok) (mem_of example_read_request) 4096 _
           (example_header OpRead 80 5) example_writer _ [] _ (MkFileFs (bs "abcdefgh")) _ Context_new
           example_read_in (bs "bcde") (Ok 4)).
  4: apply example_reader_ok; by vm_compute.
  all: by vm_compute.
Defined.

Definition example_write_in : WriteIn := {|
  wi_fh := 3; wi_offset := 1; wi_size := 2; wi_fuse_flags := 0; wi_lock_owner := 0; wi_flags := 0; wi_padding := 0 |}.

Definition example_write_request : bytes :=
  as_slice (example_header OpWrite 82 5) ++ as_slice example_write_in ++ bs "XY".

Lemma handle_message_write_witness :
  (handle_message (F := FileFs) (DEV := accepting_device) (mem_of example_write_request) 4096
     (reader_of example_write_request) (WFuseDev example_writer) (Server_new (MkFileFs (bs "abcdefgh")), [])).1
  = (Server_new (MkFileFs (bs "aXYdefgh")), [write_message 9 (Ok 2)]).
Proof.
  apply (handle_message_write (DO := accepting_device_ok) (mem_of example_write_request) 4096 _
           (example_header OpWrite 82 5) example_writer _ [] _ (MkFileFs (bs "abcdefgh")) _ Context_new
           example_write_in (bs "XY") (Ok 2)).
  4: apply example_reader_ok; by vm_compute.
  all: by vm_compute.
Defined.
