(* ===== verification/PseudoFs.v ===== *)
(** * The pseudo file system ([src/api/pseudo_fs.rs])

    A tree of directories that carries the mount points.  An
    [Arc<PseudoInode>] is a location of [ps_heap]: the inode table and the
    children lists share the nodes, and a change of a node's children is seen
    through every one of its references.  The methods are given as they run
    when nothing else does. *)

From stdpp Require Import sorting.
From S2P Require Import Prelude Std Abi AbiStruct FsTypes FileSystem.

Definition PSEUDOFS_NEXT_INODE : Z := 2.
Definition PSEUDOFS_DEFAULT_ATTR_TIMEOUT : Z := 2 ^ 32.
Definition PSEUDOFS_DEFAULT_ENTRY_TIMEOUT : Z := PSEUDOFS_DEFAULT_ATTR_TIMEOUT.

(** The address of an [Arc]. *)
Abbreviation Loc := Z.

Record PseudoInode : Set := MkPseudoInode {
  pi_ino : Z;
  pi_parent : Z;
  pi_children : list Loc;
  pi_name : bytes;
}.

Definition PseudoInode_new (ino parent : Z) (name : bytes) : PseudoInode := MkPseudoInode ino parent [] name.

(** [ps_alloc] is the next free address. *)
Record PseudoFs : Type := MkPseudoFs {
  ps_next_inode : Z;
  ps_root_inode : Loc;
  ps_inodes : gmap Z Loc;
  ps_heap : gmap Loc PseudoInode;
  ps_alloc : Loc;
}.

Definition with_inodes (m : gmap Z Loc) (fs : PseudoFs) : PseudoFs :=
  MkPseudoFs fs.(ps_next_inode) fs.(ps_root_inode) m fs.(ps_heap) fs.(ps_alloc).

Definition with_heap (h : gmap Loc PseudoInode) (fs : PseudoFs) : PseudoFs :=
  MkPseudoFs fs.(ps_next_inode) fs.(ps_root_inode) fs.(ps_inodes) h fs.(ps_alloc).

Definition with_next_inode (n : Z) (fs : PseudoFs) : PseudoFs :=
  MkPseudoFs n fs.(ps_root_inode) fs.(ps_inodes) fs.(ps_heap) fs.(ps_alloc).

(** Reading through an [Arc]; every address in use is allocated. *)
Definition deref (fs : PseudoFs) (l : Loc) : PseudoInode :=
  default (PseudoInode_new 0 0 []) (fs.(ps_heap) !! l).

(** [Arc::new] *)
Definition alloc (n : PseudoInode) (fs : PseudoFs) : PseudoFs * Loc :=
  (MkPseudoFs fs.(ps_next_inode) fs.(ps_root_inode) fs.(ps_inodes)
     (<[fs.(ps_alloc) := n]> fs.(ps_heap)) (fs.(ps_alloc) + 1), fs.(ps_alloc)).

(** [children.store] *)
Definition store_children (l : Loc) (children : list Loc) (fs : PseudoFs) : PseudoFs :=
  let n := deref fs l in
  with_heap (<[l := MkPseudoInode n.(pi_ino) n.(pi_parent) children n.(pi_name)]> fs.(ps_heap)) fs.

(** Methods of [PseudoInode]. *)

Definition insert_child (l child : Loc) (fs : PseudoFs) : PseudoFs :=
  store_children l ((deref fs l).(pi_children) ++ [child]) fs.

Definition remove_child (l child : Loc) : prog PseudoFs io_error unit := fun fs =>
  let children := (deref fs l).(pi_children) in
  let name := (deref fs child).(pi_name) in
  match position (fun x => beq (deref fs x).(pi_name) name) children with
  | Some pos => (store_children l (take pos children ++ drop (S pos) children) fs, Ok tt)
  | None => (fs, Panic)
  end.

(** ** [impl PseudoFs] *)

Definition insert_inode (l : Loc) (fs : PseudoFs) : PseudoFs :=
  with_inodes (<[(deref fs l).(pi_ino) := l]> fs.(ps_inodes)) fs.

Definition PseudoFs_new : PseudoFs :=
  let '(fs, root) := alloc (PseudoInode_new ROOT_ID ROOT_ID (bs "/")) (MkPseudoFs 0 0 ∅ ∅ 0) in
  insert_inode root (MkPseudoFs PSEUDOFS_NEXT_INODE root ∅ fs.(ps_heap) fs.(ps_alloc)).

(** [next_inode.fetch_add] wraps. *)
Definition new_inode (parent : Z) (name : bytes) (fs : PseudoFs) : PseudoFs * Loc :=
  let ino := fs.(ps_next_inode) in
  alloc (PseudoInode_new ino parent name) (with_next_inode (wrap 64 (ino + 1)) fs).

Definition create_inode (name : bytes) (parent : Loc) (fs : PseudoFs) : PseudoFs * Loc :=
  let '(fs1, inode) := new_inode (deref fs parent).(pi_ino) name fs in
  (insert_child parent inode (insert_inode inode fs1), inode).

Definition remove_inode (l : Loc) (fs : PseudoFs) : PseudoFs :=
  with_inodes (delete (deref fs l).(pi_ino) fs.(ps_inodes)) fs.

(** The scan of the children for a name. *)
Definition find_child (fs : PseudoFs) (l : Loc) (name : bytes) : option Loc :=
  match position (fun c => beq (deref fs c).(pi_name) name) (deref fs l).(pi_children) with
  | Some pos => (deref fs l).(pi_children) !! pos
  | None => None
  end.

(** The loop of [mount], with the snapshot [inodes] of the inode table it
    works on; the second search is the one with the lock held. *)
Fixpoint mount_walk (cs : list Component) (inodes : gmap Z Loc) (inode : Loc)
    : prog PseudoFs io_error Loc :=
  match cs with
  | [] => mret inode
  | RootDir :: cs' => mount_walk cs' inodes inode
  | CurDir :: cs' => mount_walk cs' inodes inode
  | ParentDir :: cs' => fun fs =>
    match inodes !! (deref fs inode).(pi_parent) with
    | Some p => mount_walk cs' inodes p fs
    | None => (fs, Panic)
    end
  | Normal path :: cs' => fun fs =>
    match to_str path with
    | Ok name =>
      match find_child fs inode name with
      | Some child =>
        match inodes !! (deref fs child).(pi_ino) with
        | Some i => mount_walk cs' inodes i fs
        | None => (fs, Panic)
        end
      | None =>
        match find_child fs inode name with
        | Some child =>
          match inodes !! (deref fs child).(pi_ino) with
          | Some i => mount_walk cs' inodes i fs
          | None => (fs, Panic)
          end
        | None =>
          let '(fs1, new_node) := create_inode name inode fs in
          match fs1.(ps_inodes) !! (deref fs1 new_node).(pi_ino) with
          | Some i => mount_walk cs' fs1.(ps_inodes) i fs1
          | None => (fs1, Panic)
          end
        end
      end
    | _ => (fs, Panic)
    end
  end.

Definition mount (mountpoint : bytes) : prog PseudoFs io_error Z := fun fs =>
  if negb (has_root mountpoint) then (fs, Err (Os EINVAL))
  else
    let '(fs', o) := mount_walk (components mountpoint) fs.(ps_inodes) fs.(ps_root_inode) fs in
    (fs', outcome_map (fun i => (deref fs' i).(pi_ino)) o).

Fixpoint path_walk_loop (fs : PseudoFs) (cs : list Component) (inode : Loc) : io_result (option Z) :=
  match cs with
  | [] => Ok (Some (deref fs inode).(pi_ino))
  | RootDir :: cs' => path_walk_loop fs cs' inode
  | CurDir :: cs' => path_walk_loop fs cs' inode
  | ParentDir :: cs' =>
    i ← unwrap (fs.(ps_inodes) !! (deref fs inode).(pi_parent));
    path_walk_loop fs cs' i
  | Normal path :: cs' =>
    match to_str path with
    | Ok name =>
      match find_child fs inode name with
      | Some child =>
        i ← unwrap (fs.(ps_inodes) !! (deref fs child).(pi_ino));
        path_walk_loop fs cs' i
      | None =>
        match find_child fs inode name with
        | Some child =>
          i ← unwrap (fs.(ps_inodes) !! (deref fs child).(pi_ino));
          path_walk_loop fs cs' i
        | None => Ok None
        end
      end
    | _ => Err (Os EINVAL)
    end
  end.

Definition path_walk (mountpoint : bytes) (fs : PseudoFs) : io_result (option Z) :=
  if negb (has_root mountpoint) then Err (Os EINVAL)
  else path_walk_loop fs (components mountpoint) fs.(ps_root_inode).

Definition get_parent_inode (ino : Z) (fs : PseudoFs) : option Z :=
  (fun l => (deref fs l).(pi_parent)) <$> fs.(ps_inodes) !! ino.

Definition evict_inode (ino : Z) : prog PseudoFs io_error unit := fun fs =>
  match fs.(ps_inodes) !! ino with
  | None => (fs, Panic)
  | Some inode =>
    if ino =? (deref fs inode).(pi_parent) then (fs, Ok tt)
    else
      match fs.(ps_inodes) !! (deref fs inode).(pi_parent) with
      | None => (fs, Panic)
      | Some parent => (_ ← remove_child parent inode; modify (remove_inode inode)) fs
      end
  end.

Definition S_IRWXU : Z := 0x1c0.
Definition S_IRWXG : Z := 0x38.
Definition S_IRWXO : Z := 0x7.

(** [SystemTime::now()] in seconds since the epoch, as the call reads it. *)
Class Clock : Set := { now_secs : Z }.

Section pseudo_fs.
Context {CK : Clock}.

(** [duration_since(UNIX_EPOCH).unwrap()] panics before 1970. *)
Definition get_entry (ino : Z) : io_result Entry :=
  if now_secs <? 0 then Panic
  else
    let attr := {| at_ino := ino; at_size := 0; at_blocks := 0;
                   at_atime := now_secs; at_mtime := now_secs; at_ctime := now_secs;
                   at_atimensec := 0; at_mtimensec := 0; at_ctimensec := 0;
                   at_mode := Z.lor (Z.lor (Z.lor S_IFDIR S_IRWXU) S_IRWXG) S_IRWXO;
                   at_nlink := 0; at_uid := 0; at_gid := 0; at_rdev := 0;
                   at_blksize := 4096; at_flags := 0 |} in
    Ok {| en_inode := ino;
          en_generation := 0;
          en_attr := stat64_from_Attr attr;
          en_attr_flags := 0;
          en_attr_timeout := MkDuration PSEUDOFS_DEFAULT_ATTR_TIMEOUT 0;
          en_entry_timeout := MkDuration PSEUDOFS_DEFAULT_ENTRY_TIMEOUT 0 |}.

Fixpoint do_readdir_loop {X} (fs : PseudoFs) (next : Z) (children : list Loc) (add_entry : add_entry_t X)
    : prog X io_error unit :=
  match children with
  | [] => mret tt
  | child :: children' =>
    n ← add_entry {| d_ino := (deref fs child).(pi_ino); d_offset := next; d_type := 0;
                     d_name := (deref fs child).(pi_name) |};
    if n =? 0 then mret tt else do_readdir_loop fs (wrap 64 (next + 1)) children' add_entry
  end.

Definition do_readdir {X} (fs : PseudoFs) (parent size offset : Z) (add_entry : add_entry_t X)
    : prog X io_error unit :=
  if size =? 0 then mret tt
  else
    match fs.(ps_inodes) !! parent with
    | None => fail (Os ENOENT)
    | Some inode =>
      let next := wrap 64 (offset + 1) in
      let children := (deref fs inode).(pi_children) in
      if zlen children <=? offset then mret tt
      else do_readdir_loop fs next (drop (Z.to_nat offset) children) add_entry
    end.

(** ** [impl FileSystem for PseudoFs] *)

Definition PseudoFs_lookup (parent : Z) (name : CStr) (fs : PseudoFs) : io_result Entry :=
  match fs.(ps_inodes) !! parent with
  | None => Err (Os ENOENT)
  | Some pinode =>
    match to_str name with
    | Ok child_name =>
      let ino :=
        if beq child_name (bs ".") then (deref fs pinode).(pi_ino)
        else if beq child_name (bs "..") then (deref fs pinode).(pi_parent)
        else match find_child fs pinode child_name with
             | Some child => (deref fs child).(pi_ino)
             | None => 0
             end in
      if ino =? 0 then Err (Os ENOENT) else get_entry ino
    | _ => Err (Os EINVAL)
    end
  end.

Definition PseudoFs_getattr (inode : Z) (fs : PseudoFs) : io_result (stat64 * Duration) :=
  match fs.(ps_inodes) !! inode with
  | None => Err (Os ENOENT)
  | Some l => entry ← get_entry (deref fs l).(pi_ino); Ok (entry.(en_attr), entry.(en_attr_timeout))
  end.

(** A read-only method of a shared reference. *)
Definition reads {S E A} (f : S -> outcome E A) : prog S E A := fun s => (s, f s).

Definition PseudoFs_forget (ctx : Context) (inode count : Z) : prog PseudoFs io_error unit := mret tt.

Definition PseudoFs_op (A : Set) (op : FsOp A) : prog PseudoFs io_error A :=
  match op in FsOp A return prog PseudoFs io_error A with
  | op_lookup ctx parent name => reads (PseudoFs_lookup parent name)
  | op_getattr ctx inode handle => reads (PseudoFs_getattr inode)
  | op_access ctx inode mask => mret tt
  | op => default_op PseudoFs_forget _ op
  end.

(** A scan over the callback's state alone. *)
Definition on_callback {X A} (m : PseudoFs -> prog X io_error A) : prog (PseudoFs * X) io_error A :=
  fun s => let '(x', o) := m s.1 s.2 in ((s.1, x'), o).

Definition PseudoFs_readdir {X} (ctx : Context) (inode handle size offset : Z) (add_entry : add_entry_t X)
    : prog (PseudoFs * X) io_error unit :=
  on_callback (fun fs => do_readdir fs inode size offset add_entry).

Definition PseudoFs_readdirplus {X} (ctx : Context) (inode handle size offset : Z)
    (add_entry : add_entry_plus_t X) : prog (PseudoFs * X) io_error unit :=
  on_callback (fun fs => do_readdir fs inode size offset
    (fun dir_entry => entry ← lift (get_entry dir_entry.(d_ino)); add_entry dir_entry entry)).

#[global] Instance PseudoFs_filesystem : FileSystem PseudoFs := {|
  fs_op := PseudoFs_op;
  fs_read := default_read;
  fs_write := default_write;
  fs_readdir := @PseudoFs_readdir;
  fs_readdirplus := @PseudoFs_readdirplus;
  fs_id_remap := default_id_remap;
|}.

End pseudo_fs.

(** ** [persist] *)

Record PseudoInodeState : Set := MkPseudoInodeState {
  pis_ino : Z;
  pis_parent : Z;
  pis_name : bytes;
}.

Record PseudoFsState : Set := MkPseudoFsState {
  pss_next_inode : Z;
  pss_inodes : list PseudoInodeState;
}.

(** [HashMap::values] visits the entries in an order of its own. *)
Class HashOrder : Type := { hash_values : gmap Z Loc -> list Loc }.

Class HashOrderOk `{HashOrder} : Prop := {
  hash_values_perm : forall m, hash_values m ≡ₚ (map_to_list m).*2;
}.

(** [dbs_snapshot::Snapshot]: [save] and [load] of a state. *)
Class Snapshot (T : Type) : Type := {
  snapshot_save : T -> option bytes;
  snapshot_load : bytes -> option T;
}.

Class SnapshotOk (T : Type) `{Snapshot T} : Prop := {
  snapshot_load_save : forall x b, snapshot_save x = Some b -> snapshot_load b = Some x;
}.

Definition inode_state (n : PseudoInode) : PseudoInodeState :=
  MkPseudoInodeState n.(pi_ino) n.(pi_parent) n.(pi_name).

Definition save_to_state `{HashOrder} (fs : PseudoFs) : PseudoFsState := {|
  pss_next_inode := fs.(ps_next_inode);
  pss_inodes :=
    map inode_state
      (List.filter (fun n => negb (n.(pi_ino) =? ROOT_ID)) (map (deref fs) (hash_values fs.(ps_inodes))));
|}.

Definition save_to_bytes `{HashOrder, Snapshot PseudoFsState} (fs : PseudoFs) : io_result bytes :=
  ok_or (Simple Other) (snapshot_save (save_to_state fs)).

(** All the inodes of the state, as new nodes without children. *)
Fixpoint restore_inodes (l : list PseudoInodeState) (inode_map : gmap Z Loc) (fs : PseudoFs)
    : PseudoFs * gmap Z Loc :=
  match l with
  | [] => (fs, inode_map)
  | s :: l' =>
    let '(fs1, inode) := alloc (PseudoInode_new s.(pis_ino) s.(pis_parent) s.(pis_name)) fs in
    restore_inodes l' (<[(deref fs1 inode).(pi_ino) := inode]> inode_map) fs1
  end.

Fixpoint connect_inodes (l : list PseudoInodeState) (inode_map : gmap Z Loc) : prog PseudoFs io_error unit :=
  match l with
  | [] => mret tt
  | s :: l' => fun fs =>
    match inode_map !! s.(pis_ino) with
    | None => (fs, Err (Simple InvalidData))
    | Some inode =>
      match inode_map !! (deref fs inode).(pi_parent) with
      | None => (fs, Err (Simple InvalidData))
      | Some parent => connect_inodes l' inode_map (insert_child parent inode fs)
      end
    end
  end.

(** [sort_by] on the inode number. *)
Definition ino_le (a b : PseudoInodeState) : Prop := a.(pis_ino) <= b.(pis_ino).

#[global] Instance ino_le_dec a b : Decision (ino_le a b).
Proof. apply Z_le_dec. Defined.

Definition restore_from_state (state : PseudoFsState) : prog PseudoFs io_error unit := fun fs =>
  let '(fs1, m) := restore_inodes state.(pss_inodes) ∅ fs in
  let inode_map := <[(deref fs1 fs1.(ps_root_inode)).(pi_ino) := fs1.(ps_root_inode)]> m in
  (_ ← connect_inodes (merge_sort ino_le state.(pss_inodes)) inode_map;
   _ ← modify (with_inodes inode_map);
   modify (with_next_inode state.(pss_next_inode))) fs1.

Definition restore_from_bytes `{Snapshot PseudoFsState} (buf : bytes) : prog PseudoFs io_error unit :=
  state ← lift (ok_or (Simple Other) (snapshot_load buf));
  restore_from_state state.
