(* ===== verification/PseudoFsProps.v ===== *)
(** * The directory tree of the pseudo file system

    The invariant of [PseudoFs], that its operations keep it, and their
    refinement of a finite map from paths to inode numbers. *)

From stdpp Require Import sorting.
From S2P Require Import Prelude Std Abi AbiStruct FsTypes FileSystem PseudoFs.

(** ** The invariant *)

(** Directory names: what [Path::components] calls normal, in UTF-8. *)
Definition dir_name (n : bytes) : Prop := plain_name n = true /\ to_str n = Ok n.

Definition names_of (fs : PseudoFs) (l : Loc) : list bytes :=
  (fun c => (deref fs c).(pi_name)) <$> (deref fs l).(pi_children).

Definition inos_of (fs : PseudoFs) (l : Loc) : list Z :=
  (fun c => (deref fs c).(pi_ino)) <$> (deref fs l).(pi_children).

Record ps_ok (fs : PseudoFs) : Prop := {
  ok_root : fs.(ps_inodes) !! ROOT_ID = Some fs.(ps_root_inode);
  ok_root_parent : (deref fs fs.(ps_root_inode)).(pi_parent) = ROOT_ID;
  ok_root_name : (deref fs fs.(ps_root_inode)).(pi_name) = bs "/";
  ok_ino : forall ino l, fs.(ps_inodes) !! ino = Some l -> (deref fs l).(pi_ino) = ino;
  ok_range : forall ino l, fs.(ps_inodes) !! ino = Some l -> ROOT_ID <= ino < fs.(ps_next_inode);
  ok_next : fs.(ps_next_inode) <= U64_MAX;
  ok_alloc : forall l, is_Some (fs.(ps_heap) !! l) -> l < fs.(ps_alloc);
  ok_heap : forall ino l, fs.(ps_inodes) !! ino = Some l -> is_Some (fs.(ps_heap) !! l);
  (** every node but the root is a child of its parent *)
  ok_parent : forall ino l, fs.(ps_inodes) !! ino = Some l -> ino <> ROOT_ID ->
    exists lp, fs.(ps_inodes) !! (deref fs l).(pi_parent) = Some lp /\ l ∈ (deref fs lp).(pi_children);
  (** children are in the table, point back, and are younger *)
  ok_child : forall ino l c, fs.(ps_inodes) !! ino = Some l -> c ∈ (deref fs l).(pi_children) ->
    fs.(ps_inodes) !! (deref fs c).(pi_ino) = Some c /\ (deref fs c).(pi_parent) = ino /\
    ino < (deref fs c).(pi_ino) /\ dir_name (deref fs c).(pi_name);
  ok_names : forall ino l, fs.(ps_inodes) !! ino = Some l -> NoDup (names_of fs l);
  ok_order : forall ino l, fs.(ps_inodes) !! ino = Some l -> StronglySorted Z.lt (inos_of fs l);
}.

(** ** The tree as a map from paths *)

(** The node at a path below [l]. *)
Fixpoint walk (fs : PseudoFs) (l : Loc) (path : list bytes) : option Loc :=
  match path with
  | [] => Some l
  | n :: path' => c ← find_child fs l n; walk fs c path'
  end.

Definition node_at (fs : PseudoFs) (path : list bytes) : option Loc := walk fs fs.(ps_root_inode) path.

Definition ino_at (fs : PseudoFs) (path : list bytes) : option Z :=
  (fun l => (deref fs l).(pi_ino)) <$> node_at fs path.

(** What the component promises: directories are a finite map from absolute
    paths to inode numbers, and a counter gives the next number. *)
Record Dirs : Type := MkDirs {
  dirs_next : Z;
  dirs_map : gmap (list bytes) Z;
}.

Definition represents (fs : PseudoFs) (d : Dirs) : Prop :=
  d.(dirs_next) = fs.(ps_next_inode) /\ forall p, d.(dirs_map) !! p = ino_at fs p.

(** One component of a path, from the directory [cur]; creating the directory
    when it is missing, or failing. *)
Definition spec_step (d : Dirs) (cur : list bytes) (c : Component) : Dirs * list bytes :=
  match c with
  | RootDir | CurDir => (d, cur)
  | ParentDir => (d, removelast cur)
  | Normal n =>
    let p := cur ++ [n] in
    match d.(dirs_map) !! p with
    | Some _ => (d, p)
    | None => (MkDirs (d.(dirs_next) + 1) (<[p := d.(dirs_next)]> d.(dirs_map)), p)
    end
  end.

Fixpoint spec_mount (d : Dirs) (cur : list bytes) (cs : list Component) : Dirs * list bytes :=
  match cs with
  | [] => (d, cur)
  | c :: cs' => let '(d', cur') := spec_step d cur c in spec_mount d' cur' cs'
  end.

Fixpoint spec_walk (d : Dirs) (cur : list bytes) (cs : list Component) : option Z :=
  match cs with
  | [] => d.(dirs_map) !! cur
  | RootDir :: cs' | CurDir :: cs' => spec_walk d cur cs'
  | ParentDir :: cs' => spec_walk d (removelast cur) cs'
  | Normal n :: cs' =>
    match d.(dirs_map) !! (cur ++ [n]) with
    | Some _ => spec_walk d (cur ++ [n]) cs'
    | None => None
    end
  end.

(** ** Searching the children *)

Section find_child.
Context (fs : PseudoFs) (l : Loc).

Lemma find_child_some n c :
  find_child fs l n = Some c -> c ∈ (deref fs l).(pi_children) /\ (deref fs c).(pi_name) = n.
Proof.
  unfold find_child. destruct (position _ _) as [pos|] eqn:Hp; [|done]. intros Hc.
  apply position_some in Hp as (l1 & x & l2 & Hl & <- & Hx & _). rewrite Hl in Hc.
  rewrite lookup_app_r, Nat.sub_diag in Hc by lia. injection Hc as ->.
  split; [|by apply beq_spec]. rewrite Hl. set_solver.
Qed.

Lemma find_child_none n : find_child fs l n = None <-> n ∉ names_of fs l.
Proof.
  unfold find_child, names_of. destruct (position _ _) as [pos|] eqn:Hp.
  - apply position_some in Hp as (l1 & x & l2 & Hl & <- & Hx & _). rewrite Hl.
    rewrite lookup_app_r, Nat.sub_diag by lia. split; [done|]. intros Hn. destruct Hn.
    apply list_elem_of_fmap. exists x. apply beq_spec in Hx. split; [done|set_solver].
  - split; [intros _|done]. apply position_none in Hp. rewrite forallb_forall in Hp.
    intros (c & -> & Hc)%list_elem_of_fmap. apply list_elem_of_In, Hp in Hc. by rewrite beq_refl in Hc.
Qed.

Lemma find_child_in n c :
  NoDup (names_of fs l) -> c ∈ (deref fs l).(pi_children) -> (deref fs c).(pi_name) = n ->
  find_child fs l n = Some c.
Proof.
  intros Hnd Hc Hn. destruct (find_child fs l n) as [c'|] eqn:Hf.
  - apply find_child_some in Hf as [Hc' Hn']. unfold names_of in Hnd. f_equal.
    apply list_elem_of_lookup in Hc as [i Hi], Hc' as [j Hj].
    assert (i = j) as ->; [|by rewrite Hi in Hj; injection Hj].
    eapply (NoDup_lookup _ i j n Hnd); rewrite list_lookup_fmap.
    + by rewrite Hi; cbn; rewrite Hn.
    + by rewrite Hj; cbn; rewrite Hn'.
  - apply find_child_none in Hf. destruct Hf. apply list_elem_of_fmap. by exists c.
Qed.

End find_child.

Lemma walk_snoc fs l p n : walk fs l (p ++ [n]) = (c ← walk fs l p; find_child fs c n).
Proof.
  revert l. induction p as [|m p IH]; intros l; cbn.
  - by destruct (find_child fs l n).
  - destruct (find_child fs l m); [apply IH|done].
Qed.

Lemma node_at_snoc fs p n : node_at fs (p ++ [n]) = (c ← node_at fs p; find_child fs c n).
Proof. apply walk_snoc. Qed.

(** ** Paths of a well-formed tree *)

Section paths.
Context (fs : PseudoFs) (Hok : ps_ok fs).

Lemma child_in_table ino l c :
  fs.(ps_inodes) !! ino = Some l -> c ∈ (deref fs l).(pi_children) ->
  fs.(ps_inodes) !! (deref fs c).(pi_ino) = Some c.
Proof. intros Hl Hc. by apply (ok_child _ Hok ino l). Qed.

Lemma node_in_table p l : node_at fs p = Some l -> fs.(ps_inodes) !! (deref fs l).(pi_ino) = Some l.
Proof.
  revert l. induction p as [|n p IH] using rev_ind; intros l Hl.
  - injection Hl as <-. rewrite (ok_ino _ Hok ROOT_ID); apply (ok_root _ Hok).
  - rewrite node_at_snoc in Hl. apply bind_Some in Hl as (lp & Hlp & Hc).
    apply find_child_some in Hc as [Hc _]. by eapply child_in_table, Hc; apply IH.
Qed.

Lemma node_parent p n l :
  node_at fs (p ++ [n]) = Some l ->
  exists lp, node_at fs p = Some lp /\ find_child fs lp n = Some l /\
    fs.(ps_inodes) !! (deref fs l).(pi_parent) = Some lp /\
    (deref fs l).(pi_name) = n /\ (deref fs l).(pi_ino) <> ROOT_ID.
Proof.
  intros Hl. rewrite node_at_snoc in Hl. apply bind_Some in Hl as (lp & Hlp & Hf).
  exists lp. split; [done|]. split; [done|]. pose proof (node_in_table p lp Hlp) as Ht.
  apply find_child_some in Hf as [Hc Hn]. destruct (ok_child _ Hok _ _ _ Ht Hc) as (_ & -> & Hlt & _).
  pose proof (ok_range _ Hok _ _ Ht). split_and!; [done|done|lia].
Qed.

(** A node has one path. *)
Lemma node_at_inj p q l : node_at fs p = Some l -> node_at fs q = Some l -> p = q.
Proof.
  assert (forall p n, node_at fs (p ++ [n]) <> Some fs.(ps_root_inode)) as Hroot.
  { intros p' n Hn. apply node_parent in Hn as (lp & _ & _ & _ & _ & Hne). destruct Hne.
    apply (ok_ino _ Hok), (ok_root _ Hok). }
  revert q l. induction p as [|n p IH] using rev_ind; intros q l Hp Hq.
  - injection Hp as <-. destruct q as [|m q] using rev_ind; [done|]. by destruct (Hroot q m).
  - destruct q as [|m q _] using rev_ind; [injection Hq as <-; by destruct (Hroot p n)|].
    apply node_parent in Hp as (lp & Hlp & _ & Hpar & <- & _), Hq as (lq & Hlq & _ & Hpar' & <- & _).
    rewrite Hpar in Hpar'. injection Hpar' as <-. by rewrite (IH q lp).
Qed.

(** Every inode of the table is on a path. *)
Lemma node_reachable ino l : fs.(ps_inodes) !! ino = Some l -> exists p, node_at fs p = Some l.
Proof.
  intros Hl. pose proof (ok_range _ Hok _ _ Hl) as [Hr _]. revert l Hl.
  apply (Z_lt_induction (fun ino => forall l, fs.(ps_inodes) !! ino = Some l -> exists p, node_at fs p = Some l));
    [|unfold ROOT_ID in Hr; lia].
  clear ino Hr. intros ino IH l Hl. destruct (decide (ino = ROOT_ID)) as [->|Hne].
  { exists []. unfold node_at. cbn. rewrite <- Hl. symmetry. apply (ok_root _ Hok). }
  destruct (ok_parent _ Hok _ _ Hl Hne) as (lp & Hlp & Hc).
  destruct (ok_child _ Hok _ _ _ Hlp Hc) as (_ & _ & Hlt & _). pose proof (ok_range _ Hok _ _ Hlp) as Hr.
  rewrite (ok_ino _ Hok _ _ Hl) in Hlt. unfold ROOT_ID in Hr.
  destruct (IH (deref fs l).(pi_parent) ltac:(lia) lp Hlp) as [p Hp].
  exists (p ++ [(deref fs l).(pi_name)]). rewrite node_at_snoc, Hp. cbn.
  apply find_child_in; [by apply (ok_names _ Hok _ _ Hlp)|done|done].
Qed.

(** [..] *)
Lemma node_removelast p l :
  node_at fs p = Some l ->
  exists lp, fs.(ps_inodes) !! (deref fs l).(pi_parent) = Some lp /\ node_at fs (removelast p) = Some lp.
Proof.
  destruct p as [|n p _] using rev_ind.
  - intros [= <-]. exists fs.(ps_root_inode). rewrite (ok_root_parent _ Hok). split; [apply (ok_root _ Hok)|done].
  - intros (lp & Hlp & _ & Hpar & _)%node_parent. exists lp. by rewrite removelast_last.
Qed.

Lemma ino_at_node p l : node_at fs p = Some l -> ino_at fs p = Some (deref fs l).(pi_ino).
Proof. unfold ino_at. by intros ->. Qed.

End paths.

(** ** Creating a directory *)

Section create.
Context (fs : PseudoFs) (Hok : ps_ok fs) (lp : Loc) (n : bytes).
Context (Hlp : fs.(ps_inodes) !! (deref fs lp).(pi_ino) = Some lp).
Context (Hnew : n ∉ names_of fs lp) (Hn : dir_name n).
Context (Hroom : fs.(ps_next_inode) < U64_MAX).

Let fs' := (create_inode n lp fs).1.
Let new := fs.(ps_alloc).
Let ino := (deref fs lp).(pi_ino).

Lemma lp_not_new : lp <> new.
Proof. intros ->. apply (ok_heap _ Hok), (ok_alloc _ Hok) in Hlp. unfold new in Hlp. lia. Qed.

Lemma next_pos : 2 <= fs.(ps_next_inode).
Proof. pose proof (ok_range _ Hok _ _ (ok_root _ Hok)). unfold ROOT_ID in *. lia. Qed.

Lemma create_eq :
  fs' = MkPseudoFs (fs.(ps_next_inode) + 1) fs.(ps_root_inode) (<[fs.(ps_next_inode) := new]> fs.(ps_inodes))
    (<[lp := MkPseudoInode ino (deref fs lp).(pi_parent) ((deref fs lp).(pi_children) ++ [new]) (deref fs lp).(pi_name)]>
       (<[new := PseudoInode_new fs.(ps_next_inode) ino n]> fs.(ps_heap))) (fs.(ps_alloc) + 1) /\
  (create_inode n lp fs).2 = new.
Proof.
  pose proof lp_not_new. pose proof next_pos.
  unfold fs', create_inode, new_inode, alloc, insert_child, store_children, insert_inode, with_inodes, with_heap.
  cbn. unfold deref. cbn.
  rewrite !lookup_insert_eq, !lookup_insert_ne by (unfold new in *; done). cbn.
  rewrite wrap_small by (unfold in_u, U64_MAX in *; lia). done.
Qed.

Lemma create_deref x :
  deref fs' x =
    if decide (x = lp)
    then MkPseudoInode ino (deref fs lp).(pi_parent) ((deref fs lp).(pi_children) ++ [new]) (deref fs lp).(pi_name)
    else if decide (x = new) then PseudoInode_new fs.(ps_next_inode) ino n else deref fs x.
Proof.
  destruct create_eq as [-> _]. unfold deref. cbn.
  destruct (decide (x = lp)) as [->|]; [by rewrite lookup_insert_eq|]. rewrite lookup_insert_ne by done.
  destruct (decide (x = new)) as [->|]; [by rewrite lookup_insert_eq|]. by rewrite lookup_insert_ne.
Qed.

(** Nodes of the old table keep everything but, for [lp], the new child. *)
Lemma create_fields x i :
  fs.(ps_inodes) !! i = Some x ->
  (deref fs' x).(pi_ino) = (deref fs x).(pi_ino) /\ (deref fs' x).(pi_parent) = (deref fs x).(pi_parent) /\
  (deref fs' x).(pi_name) = (deref fs x).(pi_name) /\
  (deref fs' x).(pi_children) = (deref fs x).(pi_children) ++ (if decide (x = lp) then [new] else []).
Proof.
  intros Hx. rewrite create_deref.
  assert (x <> new) as Hne.
  { intros ->. apply (ok_heap _ Hok), (ok_alloc _ Hok) in Hx. unfold new in Hx. lia. }
  destruct (decide (x = lp)) as [->|]; [done|]. destruct (decide (x = new)); [done|]. by rewrite app_nil_r.
Qed.

Lemma create_new_node : deref fs' new = PseudoInode_new fs.(ps_next_inode) ino n.
Proof.
  rewrite create_deref. pose proof lp_not_new.
  destruct (decide (new = lp)); [congruence|]. by destruct (decide (new = new)).
Qed.

Lemma create_names x i :
  fs.(ps_inodes) !! i = Some x -> names_of fs' x = names_of fs x ++ (if decide (x = lp) then [n] else []).
Proof.
  intros Hx. unfold names_of. destruct (create_fields x i Hx) as (_ & _ & _ & ->). rewrite fmap_app. f_equal.
  - apply list_fmap_ext. intros j c Hc%list_elem_of_lookup_2.
    by eapply create_fields, (ok_child _ Hok i x).
  - destruct (decide (x = lp)); [|done]. by rewrite list_fmap_singleton, create_new_node.
Qed.

Lemma create_inos x i :
  fs.(ps_inodes) !! i = Some x ->
  inos_of fs' x = inos_of fs x ++ (if decide (x = lp) then [fs.(ps_next_inode)] else []).
Proof.
  intros Hx. unfold inos_of. destruct (create_fields x i Hx) as (_ & _ & _ & ->). rewrite fmap_app. f_equal.
  - apply list_fmap_ext. intros j c Hc%list_elem_of_lookup_2.
    by eapply create_fields, (ok_child _ Hok i x).
  - destruct (decide (x = lp)); [|done]. by rewrite list_fmap_singleton, create_new_node.
Qed.

Lemma create_table i x :
  fs'.(ps_inodes) !! i = Some x -> (i = fs.(ps_next_inode) /\ x = new) \/ fs.(ps_inodes) !! i = Some x.
Proof.
  destruct create_eq as [-> _]. cbn [ps_inodes]. intros [[<- <-]|[_ Hx]]%lookup_insert_Some; auto.
Qed.

Lemma create_table_old i x : fs.(ps_inodes) !! i = Some x -> fs'.(ps_inodes) !! i = Some x.
Proof.
  intros Hx. pose proof (ok_range _ Hok _ _ Hx). destruct create_eq as [-> _]. cbn [ps_inodes].
  rewrite lookup_insert_ne by lia. done.
Qed.

Lemma create_table_new : fs'.(ps_inodes) !! fs.(ps_next_inode) = Some new.
Proof. destruct create_eq as [-> _]. cbn [ps_inodes]. apply lookup_insert_eq. Qed.

Lemma create_names_NoDup i x : fs.(ps_inodes) !! i = Some x -> NoDup (names_of fs' x).
Proof.
  intros Hx. rewrite (create_names x i) by done. apply NoDup_app. pose proof (ok_names _ Hok _ _ Hx).
  destruct (decide (x = lp)) as [->|]; [|split_and!; [done|set_solver|constructor]].
  split_and!; [done|set_solver|apply NoDup_singleton].
Qed.

Lemma create_order i x : fs.(ps_inodes) !! i = Some x -> StronglySorted Z.lt (inos_of fs' x).
Proof.
  intros Hx. rewrite (create_inos x i) by done. pose proof (ok_order _ Hok _ _ Hx) as Hs.
  destruct (decide (x = lp)) as [->|]; [|by rewrite app_nil_r].
  apply StronglySorted_app_2; [|done|repeat constructor].
  intros a b (c & -> & Hc)%list_elem_of_fmap ->%list_elem_of_singleton.
  by eapply (ok_range _ Hok), (ok_child _ Hok i lp).
Qed.

(** The children of an old node of the new tree. *)
Lemma create_child i x c :
  fs.(ps_inodes) !! i = Some x -> c ∈ (deref fs' x).(pi_children) ->
  (c = new /\ x = lp) \/ c ∈ (deref fs x).(pi_children).
Proof.
  intros Hx Hc. destruct (create_fields x i Hx) as (_ & _ & _ & Hch). rewrite Hch in Hc.
  apply elem_of_app in Hc as [Hc|Hc]; [by right|]. destruct (decide (x = lp)); set_solver.
Qed.

Lemma create_ok : ps_ok fs'.
Proof.
  pose proof next_pos as Hnp. destruct create_eq as [Heq _].
  assert (fs'.(ps_root_inode) = fs.(ps_root_inode)) as Hroot by by rewrite Heq.
  assert (fs'.(ps_next_inode) = fs.(ps_next_inode) + 1) as Hnext by by rewrite Heq.
  split.
  - rewrite Hroot. apply create_table_old, (ok_root _ Hok).
  - rewrite Hroot. destruct (create_fields _ _ (ok_root _ Hok)) as (_ & -> & _). apply (ok_root_parent _ Hok).
  - rewrite Hroot. destruct (create_fields _ _ (ok_root _ Hok)) as (_ & _ & -> & _). apply (ok_root_name _ Hok).
  - intros i x [[-> ->]|Hx]%create_table; [by rewrite create_new_node|].
    destruct (create_fields x i Hx) as (-> & _). by apply (ok_ino _ Hok).
  - intros i x [[-> ->]|Hx]%create_table; rewrite Hnext; [unfold ROOT_ID; lia|].
    pose proof (ok_range _ Hok _ _ Hx). lia.
  - rewrite Hnext. lia.
  - intros x. rewrite Heq. cbn [ps_heap ps_alloc]. rewrite !lookup_insert_is_Some. intros [<-|[_ [<-|[_ Hx]]]].
    + pose proof (ok_alloc _ Hok lp (ok_heap _ Hok _ _ Hlp)). lia.
    + unfold new. lia.
    + pose proof (ok_alloc _ Hok x Hx). lia.
  - intros i x Hx. rewrite Heq. cbn [ps_heap]. rewrite !lookup_insert_is_Some'.
    destruct (create_table i x Hx) as [[_ ->]|Hx']; [by auto|]. right. right. by eapply (ok_heap _ Hok).
  - intros i x Hx Hne. destruct (create_table i x Hx) as [[-> ->]|Hx'].
    + exists lp. rewrite create_new_node. split; [by apply create_table_old|].
      destruct (create_fields lp _ Hlp) as (_ & _ & _ & ->). rewrite decide_True by done. set_solver.
    + destruct (ok_parent _ Hok _ _ Hx' Hne) as (lq & Hlq & Hc). exists lq.
      destruct (create_fields x i Hx') as (_ & -> & _). split; [by apply create_table_old|].
      destruct (create_fields lq _ Hlq) as (_ & _ & _ & ->). set_solver.
  - intros i x c [[-> ->]|Hx]%create_table Hc; [rewrite create_new_node in Hc; set_solver|].
    destruct (create_child i x c Hx Hc) as [[-> ->]|Hold].
    + rewrite create_new_node. cbn [PseudoInode_new pi_ino pi_parent pi_name].
      assert (ino = i) as Hi by by apply (ok_ino _ Hok).
      pose proof (ok_range _ Hok _ _ Hx). split_and!; [apply create_table_new|done|lia|done].
    + destruct (ok_child _ Hok _ _ _ Hx Hold) as (Ht & Hp & Hlt & Hd).
      destruct (create_fields c _ Ht) as (-> & -> & -> & _). split_and!; [by apply create_table_old|done..].
  - intros i x [[-> ->]|Hx]%create_table; [|by eapply create_names_NoDup].
    unfold names_of. rewrite create_new_node. constructor.
  - intros i x [[-> ->]|Hx]%create_table; [|by eapply create_order].
    unfold inos_of. rewrite create_new_node. constructor.
Qed.

Lemma create_find x i m :
  fs.(ps_inodes) !! i = Some x ->
  find_child fs' x m = if decide (x = lp /\ m = n) then Some new else find_child fs x m.
Proof.
  intros Hx. destruct (create_fields x i Hx) as (_ & _ & _ & Hch).
  destruct (decide (x = lp /\ m = n)) as [[-> ->]|Hne].
  { apply find_child_in; [by eapply create_names_NoDup| |by rewrite create_new_node].
    rewrite Hch, decide_True by done. set_solver. }
  destruct (find_child fs x m) as [c|] eqn:Hf.
  - apply find_child_some in Hf as [Hc Hm]. apply find_child_in; [by eapply create_names_NoDup| |].
    + rewrite Hch. set_solver.
    + destruct (create_fields c (deref fs c).(pi_ino)) as (_ & _ & -> & _); [|done].
      by apply (ok_child _ Hok i x).
  - apply find_child_none in Hf. apply find_child_none. rewrite (create_names x i) by done.
    destruct (decide (x = lp)) as [->|]; [|by rewrite app_nil_r].
    intros [H| ->%list_elem_of_singleton]%elem_of_app; [done|]. by destruct Hne.
Qed.

(** The paths of the new tree: the old ones, and one more. *)
Lemma create_node_at cur q :
  node_at fs cur = Some lp ->
  node_at fs' q = if decide (q = cur ++ [n]) then Some new else node_at fs q.
Proof.
  intros Hcur. assert (fs'.(ps_root_inode) = fs.(ps_root_inode)) as Hroot by by destruct create_eq as [-> _].
  assert (node_at fs (cur ++ [n]) = None) as Hnone
    by (rewrite node_at_snoc, Hcur; by apply find_child_none).
  induction q as [|m q IH] using rev_ind.
  { rewrite decide_False by (by destruct cur). unfold node_at. cbn [walk]. by rewrite Hroot. }
  rewrite !node_at_snoc, IH. destruct (decide (q = cur ++ [n])) as [->|Hq].
  { rewrite Hnone. cbn [mbind option_bind]. rewrite decide_False.
    - apply find_child_none. unfold names_of. rewrite create_new_node. set_solver.
    - intros H%(f_equal length). rewrite !length_app in H. cbn in H. lia. }
  destruct (node_at fs q) as [x|] eqn:Hx; cbn [mbind option_bind].
  - rewrite (create_find x (deref fs x).(pi_ino)) by by eapply node_in_table.
    destruct (decide (x = lp /\ m = n)) as [[-> ->]|Hne].
    + by rewrite (node_at_inj fs Hok q cur lp), decide_True.
    + rewrite decide_False; [done|]. intros [-> ->]%app_inj_tail. destruct Hne. split; [|done]. congruence.
  - rewrite decide_False; [done|]. intros [-> ->]%app_inj_tail. congruence.
Qed.

Lemma create_ino_at cur q :
  node_at fs cur = Some lp ->
  ino_at fs' q = if decide (q = cur ++ [n]) then Some fs.(ps_next_inode) else ino_at fs q.
Proof.
  intros Hcur. unfold ino_at. rewrite (create_node_at cur q Hcur).
  destruct (decide (q = cur ++ [n])); [cbn [fmap option_fmap option_map]; by rewrite create_new_node|].
  destruct (node_at fs q) as [x|] eqn:Hx; [|done]. cbn [fmap option_fmap option_map]. f_equal.
  by eapply create_fields, node_in_table.
Qed.

End create.

(** ** [mount] and [path_walk] *)

(** The components of a UTF-8 path are UTF-8 names. *)
Definition component_ok (c : Component) : Prop := match c with Normal n => dir_name n | _ => True end.

(** The number of directories a path can create. *)
Definition normals (cs : list Component) : Z :=
  zlen (List.filter (fun c => match c with Normal _ => true | _ => false end) cs).

Lemma represents_node fs d p : represents fs d -> is_Some (d.(dirs_map) !! p) <-> is_Some (node_at fs p).
Proof. intros [_ ->]. unfold ino_at. by rewrite fmap_is_Some. Qed.

Lemma mount_walk_refines cs fs d cur l :
  ps_ok fs -> represents fs d -> node_at fs cur = Some l -> Forall component_ok cs ->
  fs.(ps_next_inode) + normals cs <= U64_MAX ->
  let '(d', cur') := spec_mount d cur cs in
  exists fs' l', mount_walk cs fs.(ps_inodes) l fs = (fs', Ok l') /\
    ps_ok fs' /\ represents fs' d' /\ node_at fs' cur' = Some l'.
Proof.
  revert fs d cur l. induction cs as [|c cs IH]; intros fs d cur l Hok Hrep Hl Hcs Hnum.
  { by exists fs, l. }
  apply Forall_cons in Hcs as [Hc Hcs].
  destruct c as [| | |n]; cbn [spec_mount spec_step mount_walk] in *; [by apply IH|by apply IH| |].
  { destruct (node_removelast fs Hok cur l Hl) as (lp & -> & Hlp). by apply IH. }
  assert (normals (Normal n :: cs) = 1 + normals cs) as Hnn by (unfold normals, zlen; cbn; lia).
  pose proof (zlen_nonneg (List.filter (fun c => match c with Normal _ => true | _ => false end) cs)) as Hge.
  change (0 <= normals cs) in Hge.
  pose proof (node_in_table fs Hok cur l Hl) as Ht. destruct Hc as [Hplain Hstr]. rewrite Hstr.
  pose proof (represents_node fs d (cur ++ [n]) Hrep) as Hiff. rewrite node_at_snoc, Hl in Hiff. cbn in Hiff.
  destruct (find_child fs l n) as [c|] eqn:Hf.
  - assert (node_at fs (cur ++ [n]) = Some c) as Hcn by by rewrite node_at_snoc, Hl.
    rewrite (node_in_table fs Hok _ c Hcn).
    destruct (d.(dirs_map) !! (cur ++ [n])); [|destruct Hiff as [_ Hiff]; by destruct Hiff].
    apply IH; [done..|lia].
  - apply find_child_none in Hf as Hnew.
    destruct (d.(dirs_map) !! (cur ++ [n])) eqn:Hd; [destruct Hiff as [Hiff _]; by destruct Hiff|].
    assert (fs.(ps_next_inode) < U64_MAX) as Hroom by lia.
    destruct (create_inode n l fs) as [fs1 new] eqn:Hcr.
    pose proof (create_eq fs Hok l n Ht Hnew Hroom) as [Heq Heq2].
    pose proof (create_ok fs Hok l n Ht Hnew (conj Hplain Hstr) Hroom) as Hok1.
    pose proof (fun q => create_node_at fs Hok l n Ht Hnew (conj Hplain Hstr) Hroom cur q Hl) as Hnode.
    pose proof (fun q => create_ino_at fs Hok l n Ht Hnew (conj Hplain Hstr) Hroom cur q Hl) as Hino.
    rewrite Hcr in *. cbn [fst snd] in *.
    assert (node_at fs1 (cur ++ [n]) = Some new) as Hn1 by (rewrite Hnode, decide_True by done; by rewrite Heq2).
    rewrite (node_in_table fs1 Hok1 _ _ Hn1). apply IH; [done| |done|done|].
    + split; [rewrite (proj1 Hrep); by rewrite Heq|]. intros p. cbn [dirs_map]. rewrite Hino, (proj1 Hrep).
      destruct (decide (p = cur ++ [n])) as [->|]; [apply lookup_insert_eq|].
      rewrite lookup_insert_ne by done. apply (proj2 Hrep).
    + rewrite Heq. cbn [ps_next_inode]. lia.
Qed.

Lemma path_walk_refines cs fs d cur l :
  ps_ok fs -> represents fs d -> node_at fs cur = Some l -> Forall component_ok cs ->
  path_walk_loop fs cs l = Ok (spec_walk d cur cs).
Proof.
  intros Hok Hrep. revert cur l. induction cs as [|c cs IH]; intros cur l Hl Hcs.
  { cbn. by rewrite (proj2 Hrep), (ino_at_node fs cur l Hl). }
  apply Forall_cons in Hcs as [Hc Hcs]. destruct c as [| | |n]; cbn; [by apply IH|by apply IH| |].
  { destruct (node_removelast fs Hok cur l Hl) as (lp & -> & Hlp). cbn. by apply IH. }
  destruct Hc as [_ ->]. pose proof (represents_node fs d (cur ++ [n]) Hrep) as Hiff.
  rewrite node_at_snoc, Hl in Hiff. cbn in Hiff. destruct (find_child fs l n) as [c|] eqn:Hf.
  - assert (node_at fs (cur ++ [n]) = Some c) as Hcn by by rewrite node_at_snoc, Hl.
    rewrite (node_in_table fs Hok _ c Hcn). cbn.
    destruct (d.(dirs_map) !! (cur ++ [n])); [by apply IH|destruct Hiff as [_ Hiff]; by destruct Hiff].
  - destruct (d.(dirs_map) !! (cur ++ [n])) eqn:Hd; [destruct Hiff as [Hiff _]; by destruct Hiff|done].
Qed.

Lemma components_ok path : to_str path = Ok path -> Forall component_ok (components path).
Proof.
  intros Hu. unfold components. apply Forall_app. split.
  { destruct (has_root path); [by repeat constructor|]. destruct (_ || _); by repeat constructor. }
  apply split_on_utf8 in Hu.
  assert (Forall (fun p => forallb (fun b => negb (b =? SLASH)) p = true) (split_on SLASH path)) as Hs.
  { apply Forall_forall. intros p Hp%list_elem_of_In. by eapply split_on_pieces. }
  induction (split_on SLASH path) as [|p ps IH]; [constructor|].
  apply Forall_cons in Hu as [Hp Hu], Hs as [Hps Hs]. cbn [omap list_omap].
  destruct (parse_component p) as [c|] eqn:Hc; [|by apply IH]. constructor; [|by apply IH].
  unfold parse_component in Hc. destruct (beq p []) eqn:H1; [done|]. destruct (beq p (bs ".")) eqn:H2; [done|].
  destruct (beq p (bs "..")) eqn:H3; injection Hc as <-; [done|]. split; [|done].
  unfold plain_name. by rewrite Hps, H1, H2, H3.
Qed.

(** Walking what is there leaves the tree as it is. *)
Lemma mount_walk_existing fs cs l ino :
  path_walk_loop fs cs l = Ok (Some ino) ->
  exists l', mount_walk cs fs.(ps_inodes) l fs = (fs, Ok l') /\ (deref fs l').(pi_ino) = ino.
Proof.
  revert l. induction cs as [|[| | |n] cs IH]; intros l H; cbn in *; [|by apply IH|by apply IH| |].
  - injection H as <-. eauto.
  - destruct (fs.(ps_inodes) !! _) as [i|]; [|done]. by apply IH.
  - destruct (to_str n) as [name| |]; [|done|done].
    destruct (find_child fs l name) as [c|]; [|done].
    destruct (fs.(ps_inodes) !! _) as [i|]; [|done]. by apply IH.
Qed.

(** ** The specification *)

Definition dirs_sub (d d' : Dirs) : Prop := d.(dirs_map) ⊆ d'.(dirs_map).

Lemma spec_step_sub d cur c : dirs_sub d (spec_step d cur c).1.
Proof.
  unfold dirs_sub. destruct c; cbn; try reflexivity.
  destruct (dirs_map d !! _) eqn:H; [reflexivity|]. by apply insert_subseteq.
Qed.

Lemma spec_mount_sub d cur cs : dirs_sub d (spec_mount d cur cs).1.
Proof.
  revert d cur. induction cs as [|c cs IH]; intros d cur; cbn; [unfold dirs_sub; reflexivity|].
  pose proof (spec_step_sub d cur c) as Hs. destruct (spec_step d cur c) as [d' cur'].
  specialize (IH d' cur'). unfold dirs_sub in *. cbn in *. by etransitivity.
Qed.

(** Once mounted, a path walks to the directory it was mounted on. *)
Lemma spec_walk_mounted d d2 cur cs :
  dirs_sub (spec_mount d cur cs).1 d2 ->
  spec_walk d2 cur cs = d2.(dirs_map) !! (spec_mount d cur cs).2.
Proof.
  revert d cur. induction cs as [|c cs IH]; intros d cur Hsub; [done|]. cbn in *.
  destruct c as [| | |n]; cbn in *; try by apply IH.
  destruct (d.(dirs_map) !! (cur ++ [n])) as [i|] eqn:Hd; cbn in *.
  - assert (d2.(dirs_map) !! (cur ++ [n]) = Some i) as ->; [|by apply IH].
    eapply lookup_weaken; [done|]. etransitivity; [apply (spec_mount_sub d (cur ++ [n]) cs)|done].
  - set (d1 := MkDirs _ _) in *.
    assert (d2.(dirs_map) !! (cur ++ [n]) = Some d.(dirs_next)) as ->; [|by apply IH].
    eapply lookup_weaken; [|etransitivity; [apply (spec_mount_sub d1 (cur ++ [n]) cs)|done]].
    apply lookup_insert_eq.
Qed.

(** [mount] against the specification. *)
Lemma mount_spec fs d path :
  ps_ok fs -> represents fs d -> to_str path = Ok path -> has_root path = true ->
  fs.(ps_next_inode) + normals (components path) <= U64_MAX ->
  let '(d', cur) := spec_mount d [] (components path) in
  exists fs' ino, mount path fs = (fs', Ok ino) /\ ps_ok fs' /\ represents fs' d' /\
    d'.(dirs_map) !! cur = Some ino.
Proof.
  intros Hok Hrep Hu Hr Hnum. unfold mount. rewrite Hr. cbn [negb].
  pose proof (mount_walk_refines (components path) fs d [] fs.(ps_root_inode) Hok Hrep eq_refl
    (components_ok path Hu) Hnum) as H.
  destruct (spec_mount d [] (components path)) as [d' cur].
  destruct H as (fs' & l & -> & Hok' & Hrep' & Hl). exists fs', (deref fs' l).(pi_ino).
  split_and!; [done..|]. by rewrite (proj2 Hrep'), (ino_at_node fs' cur l Hl).
Qed.

Lemma path_walk_spec fs d path :
  ps_ok fs -> represents fs d -> to_str path = Ok path ->
  path_walk path fs =
    if has_root path then Ok (spec_walk d [] (components path)) else Err (Os EINVAL).
Proof.
  intros Hok Hrep Hu. unfold path_walk. destruct (has_root path); cbn [negb]; [|done].
  by apply path_walk_refines; [..|apply components_ok].
Qed.

(** An inode is in the table exactly when some path has it. *)
Lemma in_table_iff fs d ino :
  ps_ok fs -> represents fs d -> is_Some (fs.(ps_inodes) !! ino) <-> exists p, d.(dirs_map) !! p = Some ino.
Proof.
  intros Hok Hrep. split.
  - intros [l Hl]. destruct (node_reachable fs Hok ino l Hl) as [p Hp]. exists p.
    by rewrite (proj2 Hrep), (ino_at_node fs p l Hp), (ok_ino _ Hok _ _ Hl).
  - intros [p Hp]. rewrite (proj2 Hrep) in Hp. unfold ino_at in Hp.
    destruct (node_at fs p) as [l|] eqn:Hl; [|done]. injection Hp as <-.
    by rewrite (node_in_table fs Hok p l Hl).
Qed.

(** ** A new tree *)

Definition Dirs_new : Dirs := MkDirs 2 {[ [] := ROOT_ID ]}.

Lemma PseudoFs_new_ok : ps_ok PseudoFs_new.
Proof.
  split; try done.
  - intros ino l. unfold PseudoFs_new. cbn. by intros [<- <-]%lookup_singleton_Some.
  - intros ino l. unfold PseudoFs_new. cbn. by intros [<- <-]%lookup_singleton_Some.
  - intros l. unfold PseudoFs_new. cbn. intros [n [<- _]%lookup_singleton_Some]. done.
  - intros ino l. unfold PseudoFs_new. cbn. intros [<- <-]%lookup_singleton_Some. by eexists.
  - intros ino l. unfold PseudoFs_new. cbn. by intros [<- <-]%lookup_singleton_Some.
  - intros ino l c. unfold PseudoFs_new. cbn. intros [<- <-]%lookup_singleton_Some. cbn. set_solver.
  - intros ino l. unfold PseudoFs_new. cbn. intros [<- <-]%lookup_singleton_Some. constructor.
  - intros ino l. unfold PseudoFs_new. cbn. intros [<- <-]%lookup_singleton_Some. constructor.
Qed.

Lemma PseudoFs_new_represents : represents PseudoFs_new Dirs_new.
Proof.
  split; [done|]. intros p. unfold Dirs_new. cbn [dirs_map]. destruct p as [|n p]; [done|].
  rewrite lookup_singleton_ne by done. done.
Qed.

(** ** Removing an empty directory *)

Lemma StronglySorted_sublist {A} (R : A -> A -> Prop) (k1 k2 : list A) :
  k1 `sublist_of` k2 -> StronglySorted R k2 -> StronglySorted R k1.
Proof.
  induction 1 as [|x k1 k2 Hs IH|x k1 k2 Hs IH]; [done| |]; intros [H1 H2]%StronglySorted_cons; [|by auto].
  apply StronglySorted_cons. split; [|by auto]. rewrite Forall_forall in *. eauto using elem_of_sublist.
Qed.

Section evict.
Context (fs : PseudoFs) (Hok : ps_ok fs) (ino : Z) (l lp : Loc) (l1 l2 : list Loc).
Context (Hl : fs.(ps_inodes) !! ino = Some l) (Hne : ino <> ROOT_ID).
Context (Hleaf : (deref fs l).(pi_children) = []).
Context (Hlp : fs.(ps_inodes) !! (deref fs l).(pi_parent) = Some lp).
Context (Hch : (deref fs lp).(pi_children) = l1 ++ l :: l2).

Let fs' := (evict_inode ino fs).1.

Lemma evict_not_in : (l ∉ l1) /\ (l ∉ l2).
Proof.
  pose proof (ok_names _ Hok _ _ Hlp) as Hnd. unfold names_of in Hnd. rewrite Hch in Hnd.
  apply NoDup_fmap_1, NoDup_app in Hnd as (_ & H1 & H2). apply NoDup_cons in H2 as [H2 _].
  split; [intros Hin; apply (H1 l Hin); set_solver|done].
Qed.

Lemma evict_lp_ne : lp <> l.
Proof using Hok Hl Hne Hlp Hch.
  clear Hleaf.
  intros Heq. assert (l ∈ (deref fs lp).(pi_children)) as Hc by (rewrite Hch; set_solver).
  destruct (ok_child _ Hok _ _ _ Hlp Hc) as (_ & _ & Hlt & _).
  pose proof (ok_ino _ Hok _ _ Hlp) as Hi. rewrite Heq in Hi. lia.
Qed.

Lemma evict_eq :
  fs' = MkPseudoFs fs.(ps_next_inode) fs.(ps_root_inode) (delete ino fs.(ps_inodes))
    (<[lp := MkPseudoInode (deref fs lp).(pi_ino) (deref fs lp).(pi_parent) (l1 ++ l2) (deref fs lp).(pi_name)]>
       fs.(ps_heap)) fs.(ps_alloc) /\
  (evict_inode ino fs).2 = Ok tt.
Proof using Hok Hl Hne Hlp Hch.
  clear Hleaf. unfold fs', evict_inode. rewrite Hl.
  destruct (Z.eqb_spec ino (deref fs l).(pi_parent)) as [He|_].
  { destruct (ok_parent _ Hok _ _ Hl Hne) as (lq & Hlq & Hc).
    destruct (ok_child _ Hok _ _ _ Hlq Hc) as (_ & _ & Hlt & _). rewrite (ok_ino _ Hok _ _ Hl) in Hlt. lia. }
  rewrite Hlp. unfold remove_child, modify, mbind, prog_mbind, prog_bind. rewrite Hch.
  rewrite position_app_first; [|apply forallb_forall|apply beq_refl].
  2:{ intros c Hc%list_elem_of_In. apply negb_true_iff, beq_false. intros Heq.
      pose proof (ok_names _ Hok _ _ Hlp) as Hnd. unfold names_of in Hnd. rewrite Hch, fmap_app in Hnd.
      apply NoDup_app in Hnd as (_ & Hnd & _). apply (Hnd (deref fs c).(pi_name)).
      - apply list_elem_of_fmap. by exists c.
      - rewrite Heq. set_solver. }
  rewrite take_app_length, (drop_app_ge l1) by lia. replace (S (length l1) - length l1)%nat with 1%nat by lia.
  unfold remove_inode, with_inodes, store_children, with_heap. cbn [fst snd drop ps_next_inode ps_root_inode ps_inodes ps_heap ps_alloc].
  rewrite drop_0. split; [|done]. f_equal. f_equal. unfold deref at 1. cbn [ps_heap].
  rewrite lookup_insert_ne by apply evict_lp_ne. by apply (ok_ino _ Hok).
Qed.

Lemma evict_deref x :
  (deref fs' x).(pi_ino) = (deref fs x).(pi_ino) /\ (deref fs' x).(pi_parent) = (deref fs x).(pi_parent) /\
  (deref fs' x).(pi_name) = (deref fs x).(pi_name) /\
  (deref fs' x).(pi_children) = if decide (x = lp) then l1 ++ l2 else (deref fs x).(pi_children).
Proof using Hok Hl Hne Hlp Hch.
  clear Hleaf. assert (deref fs' x = if decide (x = lp)
    then MkPseudoInode (deref fs lp).(pi_ino) (deref fs lp).(pi_parent) (l1 ++ l2) (deref fs lp).(pi_name)
    else deref fs x) as ->.
  { destruct evict_eq as [-> _]. unfold deref at 1. cbn [ps_heap].
    destruct (decide (x = lp)) as [->|]; [by rewrite lookup_insert_eq|by rewrite lookup_insert_ne]. }
  by destruct (decide (x = lp)) as [->|].
Qed.

Lemma evict_table i x : fs'.(ps_inodes) !! i = Some x -> fs.(ps_inodes) !! i = Some x /\ i <> ino.
Proof. destruct evict_eq as [-> _]. cbn [ps_inodes]. intros [? ?]%lookup_delete_Some. done. Qed.

Lemma evict_table_old i x : fs.(ps_inodes) !! i = Some x -> i <> ino -> fs'.(ps_inodes) !! i = Some x.
Proof. intros Hx Hi. destruct evict_eq as [-> _]. cbn [ps_inodes]. by rewrite lookup_delete_ne. Qed.

(** The children lists lose [l] and nothing else. *)
Lemma evict_children x i :
  fs.(ps_inodes) !! i = Some x ->
  ((deref fs' x).(pi_children) `sublist_of` (deref fs x).(pi_children)) /\
  forall c, c ∈ (deref fs x).(pi_children) -> c <> l -> c ∈ (deref fs' x).(pi_children).
Proof.
  intros Hx. destruct (evict_deref x) as (_ & _ & _ & ->).
  destruct (decide (x = lp)) as [->|]; [|done]. rewrite Hch. split; [|set_solver].
  apply sublist_app; [done|]. by constructor.
Qed.

Lemma evict_child_ne x i c : fs.(ps_inodes) !! i = Some x -> i <> ino -> c ∈ (deref fs' x).(pi_children) -> c <> l.
Proof.
  intros Hx Hi Hc ->. destruct evict_not_in. destruct (evict_deref x) as (_ & _ & _ & Hch').
  rewrite Hch' in Hc. destruct (decide (x = lp)) as [->|Hxl]; [set_solver|].
  destruct (ok_child _ Hok _ _ _ Hx Hc) as (_ & Hp & _). rewrite Hp in Hlp. congruence.
Qed.

Lemma evict_ok : ps_ok fs'.
Proof.
  destruct evict_eq as [Heq _].
  assert (fs'.(ps_root_inode) = fs.(ps_root_inode)) as Hroot by by rewrite Heq.
  assert (fs'.(ps_next_inode) = fs.(ps_next_inode)) as Hnext by by rewrite Heq.
  split.
  - rewrite Hroot. by apply evict_table_old; [apply (ok_root _ Hok)|].
  - rewrite Hroot. destruct (evict_deref fs.(ps_root_inode)) as (_ & -> & _). apply (ok_root_parent _ Hok).
  - rewrite Hroot. destruct (evict_deref fs.(ps_root_inode)) as (_ & _ & -> & _). apply (ok_root_name _ Hok).
  - intros i x [Hx _]%evict_table. destruct (evict_deref x) as (-> & _). by apply (ok_ino _ Hok).
  - intros i x [Hx _]%evict_table. rewrite Hnext. by eapply (ok_range _ Hok).
  - rewrite Hnext. apply (ok_next _ Hok).
  - intros x. rewrite Heq. cbn [ps_heap ps_alloc]. rewrite lookup_insert_is_Some'. intros [<-|Hx]; apply (ok_alloc _ Hok); [|done].
    by eapply (ok_heap _ Hok).
  - intros i x [Hx _]%evict_table. rewrite Heq. cbn [ps_heap]. rewrite lookup_insert_is_Some'. right.
    by eapply (ok_heap _ Hok).
  - intros i x [Hx Hi]%evict_table Hir. destruct (evict_deref x) as (_ & -> & _).
    destruct (ok_parent _ Hok _ _ Hx Hir) as (lq & Hlq & Hc). exists lq. split.
    + apply evict_table_old; [done|]. intros Hp. assert (lq = l) as -> by congruence.
      rewrite Hleaf in Hc. set_solver.
    + eapply (evict_children lq); [done..|]. intros ->. apply Hi.
      rewrite <- (ok_ino _ Hok _ _ Hx). by apply (ok_ino _ Hok).
  - intros i x c [Hx Hi]%evict_table Hc. pose proof (evict_child_ne x i c Hx Hi Hc) as Hcl.
    destruct (evict_children x i Hx) as [Hsub _].
    destruct (ok_child _ Hok _ _ _ Hx (elem_of_sublist _ _ _ Hc Hsub)) as (Ht & Hp & Hlt & Hd).
    destruct (evict_deref c) as (-> & -> & -> & _). split_and!; [|done..].
    apply evict_table_old; [done|]. congruence.
  - intros i x [Hx _]%evict_table. pose proof (ok_names _ Hok _ _ Hx) as Hnd.
    eapply sublist_NoDup; [done|]. unfold names_of. destruct (evict_children x i Hx) as [Hsub _].
    rewrite (list_fmap_ext _ (fun c => (deref fs c).(pi_name))) by (intros; apply evict_deref).
    by apply fmap_sublist.
  - intros i x [Hx _]%evict_table. pose proof (ok_order _ Hok _ _ Hx) as Hs. unfold inos_of in *.
    destruct (evict_children x i Hx) as [Hsub _].
    rewrite (list_fmap_ext _ (fun c => (deref fs c).(pi_ino))) by (intros; apply evict_deref).
    eapply StronglySorted_sublist; [|done]. by apply fmap_sublist.
Qed.

Lemma evict_find x i m :
  fs.(ps_inodes) !! i = Some x -> i <> ino ->
  find_child fs' x m = if decide (x = lp /\ m = (deref fs l).(pi_name)) then None else find_child fs x m.
Proof.
  intros Hx Hi. destruct (decide (x = lp /\ m = (deref fs l).(pi_name))) as [[-> ->]|Hxm].
  - destruct (find_child fs' lp _) as [c|] eqn:Hf; [|done]. apply find_child_some in Hf as [Hc Hn].
    destruct (evict_children lp i Hx) as [Hsub _].
    pose proof (evict_child_ne lp i c Hx Hi Hc) as Hcl. destruct Hcl.
    destruct (evict_deref c) as (_ & _ & Hn' & _). rewrite Hn' in Hn.
    pose proof (ok_names _ Hok _ _ Hx) as Hnd.
    assert (l ∈ (deref fs lp).(pi_children)) as Hlin by (rewrite Hch; set_solver).
    pose proof (find_child_in fs lp _ l Hnd Hlin eq_refl) as H1.
    pose proof (find_child_in fs lp _ c Hnd (elem_of_sublist _ _ _ Hc Hsub) Hn) as H2. congruence.
  - destruct (find_child fs x m) as [c|] eqn:Hf.
    + apply find_child_some in Hf as [Hc Hn].
      assert (c <> l) as Hcl.
      { intros ->. apply Hxm. split; [|done].
        destruct (ok_child _ Hok _ _ _ Hx Hc) as (_ & Hp & _). congruence. }
      destruct (evict_children x i Hx) as [_ Hkeep].
      apply find_child_in; [|by apply Hkeep|by destruct (evict_deref c) as (_ & _ & -> & _)].
      eapply (ok_names _ evict_ok), evict_table_old; done.
    + apply find_child_none in Hf. apply find_child_none. intros Hin. apply Hf. unfold names_of in *.
      apply list_elem_of_fmap in Hin as (c & -> & Hc). apply list_elem_of_fmap. exists c.
      destruct (evict_deref c) as (_ & _ & -> & _). split; [done|].
      destruct (evict_children x i Hx) as [Hsub _]. by eapply elem_of_sublist.
Qed.

Lemma evict_node_at p q :
  node_at fs p = Some l -> node_at fs' q = if decide (q = p) then None else node_at fs q.
Proof.
  intros Hp. assert (fs'.(ps_root_inode) = fs.(ps_root_inode)) as Hroot by by destruct evict_eq as [-> _].
  assert (forall q x, node_at fs q = Some x -> q <> p -> (deref fs x).(pi_ino) <> ino) as Hino.
  { intros q' x Hx Hqp Hi. destruct Hqp. apply (node_at_inj fs Hok q' p x Hx). rewrite Hp. f_equal.
    pose proof (node_in_table fs Hok q' x Hx) as Ht. rewrite Hi in Ht. congruence. }
  induction q as [|m q IH] using rev_ind.
  { rewrite decide_False; [unfold node_at; cbn [walk]; by rewrite Hroot|]. intros <-.
    injection Hp as Hp. apply Hne. rewrite <- (ok_ino _ Hok _ _ Hl), <- Hp.
    apply (ok_ino _ Hok), (ok_root _ Hok). }
  rewrite !node_at_snoc, IH. destruct (decide (q = p)) as [->|Hq].
  { rewrite Hp. cbn [mbind option_bind].
    assert (find_child fs l m = None) as -> by (apply find_child_none; unfold names_of; rewrite Hleaf; set_solver).
    by destruct (decide (p ++ [m] = p)). }
  destruct (node_at fs q) as [x|] eqn:Hx; cbn [mbind option_bind]; [|by destruct (decide _)].
  pose proof (node_in_table fs Hok q x Hx) as Ht.
  rewrite (evict_find x _ m Ht (Hino q x Hx Hq)).
  destruct (decide (q ++ [m] = p)) as [<-|Hqm].
  - apply node_parent in Hp as (lq & Hlq & _ & Hpar & Hn & _); [|done].
    rewrite decide_True; [done|]. split; [congruence|done].
  - rewrite decide_False; [done|]. intros [-> ->]. apply Hqm.
    apply (node_at_inj fs Hok _ _ l); [|done]. rewrite node_at_snoc, Hx. cbn.
    apply find_child_in; [by eapply (ok_names _ Hok)|rewrite Hch; set_solver|done].
Qed.

Lemma evict_ino_at p q :
  node_at fs p = Some l -> ino_at fs' q = if decide (q = p) then None else ino_at fs q.
Proof.
  intros Hp. unfold ino_at. rewrite (evict_node_at p q Hp). destruct (decide (q = p)); [done|].
  destruct (node_at fs q) as [x|]; [|done]. cbn [fmap option_fmap option_map]. f_equal. apply evict_deref.
Qed.

End evict.

(** Evicting an empty directory removes its path. *)
Lemma evict_leaf fs d p ino :
  ps_ok fs -> represents fs d -> d.(dirs_map) !! p = Some ino -> p <> [] ->
  (forall n, d.(dirs_map) !! (p ++ [n]) = None) ->
  exists fs', evict_inode ino fs = (fs', Ok tt) /\ ps_ok fs' /\
    represents fs' (MkDirs d.(dirs_next) (delete p d.(dirs_map))).
Proof.
  intros Hok Hrep Hp Hpn Hleaf. rewrite (proj2 Hrep) in Hp. unfold ino_at in Hp.
  destruct (node_at fs p) as [l|] eqn:Hl; [|done]. injection Hp as <-.
  pose proof (node_in_table fs Hok p l Hl) as Ht.
  destruct p as [|n p _] using rev_ind; [done|].
  destruct (node_parent fs Hok p n l Hl) as (lp & Hlp & Hf & Hpar & Hn & Hne).
  apply find_child_some in Hf as [Hc _]. apply list_elem_of_split in Hc as (l1 & l2 & Hch).
  assert ((deref fs l).(pi_children) = []) as Hnil.
  { destruct (deref fs l).(pi_children) as [|c cs] eqn:Hcs; [done|]. exfalso.
    specialize (Hleaf (deref fs c).(pi_name)). rewrite (proj2 Hrep) in Hleaf. unfold ino_at in Hleaf.
    rewrite node_at_snoc, Hl in Hleaf. cbn [mbind option_bind] in Hleaf.
    rewrite (find_child_in fs l _ c) in Hleaf;
      [done|by eapply (ok_names _ Hok)|rewrite Hcs; set_solver|done]. }
  exists (evict_inode (deref fs l).(pi_ino) fs).1.
  destruct (evict_eq fs Hok _ l lp l1 l2 Ht Hne Hpar Hch) as [Heq Hres].
  split_and!.
  - rewrite <- Hres. by destruct (evict_inode _ fs).
  - by eapply (evict_ok fs Hok _ l lp l1 l2).
  - split; [rewrite Heq; apply (proj1 Hrep)|]. intros q. cbn [dirs_map].
    rewrite (evict_ino_at fs Hok _ l lp l1 l2 Ht Hne Hnil Hpar Hch (p ++ [n]) q Hl).
    destruct (decide (q = p ++ [n])) as [->|]; [apply lookup_delete_eq|].
    rewrite lookup_delete_ne by done. apply (proj2 Hrep).
Qed.

(** Evicting a directory with a subdirectory leaves the latter in the table
    without a parent. *)
Lemma evict_orphan fs d p n ino c :
  ps_ok fs -> represents fs d -> d.(dirs_map) !! p = Some ino -> p <> [] ->
  d.(dirs_map) !! (p ++ [n]) = Some c ->
  exists fs', evict_inode ino fs = (fs', Ok tt) /\ is_Some (fs'.(ps_inodes) !! c) /\
    get_parent_inode c fs' = Some ino /\ fs'.(ps_inodes) !! ino = None.
Proof.
  intros Hok Hrep Hp Hpn Hc. rewrite (proj2 Hrep) in Hp, Hc. unfold ino_at in Hp, Hc.
  destruct (node_at fs p) as [l|] eqn:Hl; [|done]. injection Hp as <-.
  destruct (node_at fs (p ++ [n])) as [lc|] eqn:Hlc; [|done]. injection Hc as <-.
  pose proof (node_in_table fs Hok p l Hl) as Ht. pose proof (node_in_table fs Hok _ lc Hlc) as Htc.
  rewrite node_at_snoc, Hl in Hlc. apply find_child_some in Hlc as [Hcin _].
  destruct (ok_child _ Hok _ _ _ Ht Hcin) as (_ & Hpar & Hlt & _).
  destruct p as [|m p _] using rev_ind; [done|].
  destruct (node_parent fs Hok p m l Hl) as (lp & _ & Hf & Hlp & _ & Hne).
  apply find_child_some in Hf as [Hin _]. apply list_elem_of_split in Hin as (l1 & l2 & Hch).
  destruct (evict_eq fs Hok _ l lp l1 l2 Ht Hne Hlp Hch) as [Heq Hres].
  destruct (evict_deref fs Hok _ l lp l1 l2 Ht Hne Hlp Hch lc) as (_ & Hpar' & _).
  assert ((evict_inode (deref fs l).(pi_ino) fs).1.(ps_inodes) !! (deref fs lc).(pi_ino) = Some lc) as Ht'.
  { rewrite Heq. cbn [ps_inodes]. rewrite lookup_delete_ne by lia. done. }
  exists (evict_inode (deref fs l).(pi_ino) fs).1. split_and!.
  - rewrite <- Hres. by destruct (evict_inode _ fs).
  - by rewrite Ht'.
  - unfold get_parent_inode. rewrite Ht'. cbn [fmap option_fmap option_map]. by rewrite Hpar', Hpar.
  - rewrite Heq. apply lookup_delete_eq.
Qed.

(** ** An example: ["/a"] and ["/a/b"], with inodes 2 and 3 *)

Definition example_tree : PseudoFs := (mount (bs "/a/b") PseudoFs_new).1.
Definition example_dirs : Dirs := (spec_mount Dirs_new [] (components (bs "/a/b"))).1.

Lemma example_tree_ok : ps_ok example_tree /\ represents example_tree example_dirs.
Proof.
  pose proof (mount_walk_refines (components (bs "/a/b")) PseudoFs_new Dirs_new [] 0 PseudoFs_new_ok
    PseudoFs_new_represents eq_refl) as H.
  destruct (spec_mount Dirs_new [] (components (bs "/a/b"))) as [d' cur] eqn:Hd.
  destruct H as (fs' & l & Heq & Hok & Hrep & _); [by apply components_ok|by vm_compute|].
  unfold example_tree, example_dirs, mount. rewrite Hd.
  change (negb (has_root (bs "/a/b"))) with false. cbn iota.
  change (ps_root_inode PseudoFs_new) with 0. by rewrite Heq.
Qed.
