(* ===== verification/PseudoFsClaims.v ===== *)
(** * What the pseudo file system guarantees

    It is a [FileSystem] the server can run on, its paths behave as a finite
    map, and its directories are read through the server as they were made. *)

From stdpp Require Import sorting.
From S2P Require Import Prelude Std Lib Codec Abi AbiStruct FsTypes FileSystem.
From S2P Require Import Transport TransportProps FuseDev FuseDevProps Instances.
From S2P Require Import Server ServerProps ServerWire ServerWireProps ServerClaims DirStream ServerData.
From S2P Require Import PseudoFs PseudoFsProps.

(** ** The interface to the server *)

Section filesystem.
Context {CK : Clock} (Hclock : 0 <= now_secs).

Lemma get_entry_total ino : exists e, get_entry ino = Ok e /\ e.(en_inode) = ino.
Proof. unfold get_entry. destruct (Z.ltb_spec now_secs 0); [lia|]. by eexists. Qed.

Lemma PseudoFs_lookup_total parent name fs : PseudoFs_lookup parent name fs <> Panic.
Proof.
  unfold PseudoFs_lookup. destruct (_ !! _); [|done]. destruct (to_str name); [|done|done].
  cbv zeta. destruct (_ =? 0); [done|]. by edestruct get_entry_total as (e & -> & _).
Qed.

Lemma PseudoFs_getattr_total inode fs : PseudoFs_getattr inode fs <> Panic.
Proof.
  unfold PseudoFs_getattr. destruct (_ !! _); [|done]. by edestruct get_entry_total as (e & -> & _).
Qed.

Lemma do_readdir_loop_keeps {X} (add : add_entry_t X) (P : X -> Prop) fs next children x :
  (forall b x, P x -> P (add b x).1 /\ (add b x).2 <> Panic) -> P x ->
  P (do_readdir_loop fs next children add x).1 /\ (do_readdir_loop fs next children add x).2 <> Panic.
Proof.
  intros HP. revert next x. induction children as [|c cs IH]; intros next x Hx; [done|].
  cbn [do_readdir_loop]. unfold mbind, prog_mbind, prog_bind.
  set (b := MkDirEntry _ _ _ _). destruct (HP b x Hx) as [H1 H2].
  destruct (add b x) as [x' [n|e|]]; cbn in *; [|done|done]. destruct (n =? 0); [done|]. by apply IH.
Qed.

Lemma do_readdir_keeps {X} (add : add_entry_t X) (P : X -> Prop) fs parent size offset x :
  (forall b x, P x -> P (add b x).1 /\ (add b x).2 <> Panic) -> P x ->
  P (do_readdir fs parent size offset add x).1 /\ (do_readdir fs parent size offset add x).2 <> Panic.
Proof.
  intros HP Hx. unfold do_readdir. destruct (size =? 0); [done|]. destruct (_ !! _); [|done].
  cbv zeta. destruct (_ <=? _); [done|]. by apply do_readdir_loop_keeps.
Qed.

#[local] Instance PseudoFs_filesystem_ok : FileSystemOk PseudoFs.
Proof.
  split; cbn.
  - intros A op fs. destruct op; try (apply default_op_no_panic; intros; apply no_panic_mret).
    + apply PseudoFs_lookup_total.
    + apply PseudoFs_getattr_total.
    + done.
  - intros. split; [|done]. change (zlen (A := Z) []) with 0. lia.
  - by intros.
  - intros X ctx inode handle size offset add P HP fs x Hx. unfold PseudoFs_readdir, on_callback. cbn.
    pose proof (do_readdir_keeps add P fs inode size offset x HP Hx) as H.
    by destruct (do_readdir fs inode size offset add x).
  - intros X ctx inode handle size offset add P HP fs x Hx. unfold PseudoFs_readdirplus, on_callback. cbn.
    set (add' := fun d : DirEntry => _).
    assert (forall b x, P x -> P (add' b x).1 /\ (add' b x).2 <> Panic) as HP'.
    { intros b y Hy. unfold add', mbind, prog_mbind, prog_bind, lift.
      destruct (get_entry_total b.(d_ino)) as (e & -> & _). by apply (HP (b, e)). }
    pose proof (do_readdir_keeps add' P fs inode size offset x HP' Hx) as H.
    by destruct (do_readdir fs inode size offset add' x).
  - by intros s.
Qed.

End filesystem.

(** ** Directories as lists of entries *)

(** The entries a scan offers from [next] on. *)
Fixpoint entries_from (fs : PseudoFs) (next : Z) (children : list Loc) : list DirEntry :=
  match children with
  | [] => []
  | c :: cs =>
    {| d_ino := (deref fs c).(pi_ino); d_offset := next; d_type := 0; d_name := (deref fs c).(pi_name) |}
    :: entries_from fs (wrap 64 (next + 1)) cs
  end.

Definition dir_listing (fs : PseudoFs) (l : Loc) (offset : Z) : list DirEntry :=
  entries_from fs (wrap 64 (offset + 1)) (drop (Z.to_nat offset) (deref fs l).(pi_children)).

Lemma do_readdir_loop_scan {X} (add : add_entry_t X) fs next children x :
  do_readdir_loop fs next children add x = scan_entries add (entries_from fs next children) x.
Proof.
  revert next x. induction children as [|c cs IH]; intros next x; [done|]. cbn.
  unfold mbind, prog_mbind, prog_bind. destruct (add _ x) as [x' [n|e|]]; [|done|done].
  destruct (n =? 0); [done|apply IH].
Qed.

Lemma do_readdir_scan {X} (add : add_entry_t X) fs parent l size offset x :
  fs.(ps_inodes) !! parent = Some l -> 0 < size -> 0 <= offset ->
  do_readdir fs parent size offset add x = scan_entries add (dir_listing fs l offset) x.
Proof.
  intros Hl Hs Ho. unfold do_readdir. rewrite (proj2 (Z.eqb_neq _ _)) by lia. rewrite Hl. cbv zeta.
  unfold dir_listing. destruct (Z.leb_spec (zlen (deref fs l).(pi_children)) offset) as [Hle|_].
  - rewrite drop_ge; [done|]. unfold zlen in Hle. lia.
  - apply do_readdir_loop_scan.
Qed.

(** The entries of READDIR, and with their attributes those of READDIRPLUS. *)
Lemma scan_entries_map {B C X} (g : B -> C) (add : C -> prog X io_error Z) (add' : B -> prog X io_error Z) l x :
  (forall b x, add' b x = add (g b) x) -> scan_entries add' l x = scan_entries add (map g l) x.
Proof.
  intros Hadd. revert x. induction l as [|b l IH]; intros x; [done|]. cbn.
  unfold mbind, prog_mbind, prog_bind. rewrite Hadd. destruct (add (g b) x) as [x' [n|e|]]; [|done|done].
  destruct (n =? 0); [done|apply IH].
Qed.

Section listing.
Context {CK : Clock}.

Definition entry_of (plus : bool) (d : DirEntry) : DirEntry * option Entry :=
  (d, if plus then match get_entry d.(d_ino) with Ok e => Some e | _ => None end else None).

Definition listing (plus : bool) (fs : PseudoFs) (l : Loc) (offset : Z) : list (DirEntry * option Entry) :=
  map (entry_of plus) (dir_listing fs l offset).

Lemma PseudoFs_scans `{DEV : FuseDevice} plus ctx i inode fs l :
  0 <= now_secs -> fs.(ps_inodes) !! inode = Some l -> 0 < i.(rd_size) -> 0 <= i.(rd_offset) ->
  scans ctx plus i inode (listing plus fs l i.(rd_offset)) fs fs.
Proof.
  intros Hclock Hl Hs Ho x. unfold readdir_scan, listing. destruct plus; cbn [fs_readdirplus fs_readdir PseudoFs_filesystem];
    unfold PseudoFs_readdirplus, PseudoFs_readdir, on_callback; cbn [fst snd];
    rewrite (do_readdir_scan _ _ _ l) by done.
  - erewrite (scan_entries_map (entry_of true)); [done|]. intros b y.
    unfold entry_of, mbind, prog_mbind, prog_bind, lift.
    by destruct (get_entry_total Hclock b.(d_ino)) as (e & -> & _).
  - by erewrite (scan_entries_map (entry_of false)).
Qed.

(** Everything a listing offers fits its place in the stream. *)
Lemma listing_ok plus fs inode l offset :
  0 <= now_secs -> ps_ok fs -> fs.(ps_inodes) !! inode = Some l ->
  Forall (fun n => zlen n <= U32_MAX) (names_of fs l) ->
  Forall (dirent_ok plus) (listing plus fs l offset).
Proof.
  intros Hclock Hok Hl Hn. unfold listing, dir_listing.
  assert (Forall (fun c => in_u 64 (deref fs c).(pi_ino) /\ zlen (deref fs c).(pi_name) <= U32_MAX)
    (drop (Z.to_nat offset) (deref fs l).(pi_children))) as Hall.
  { apply Forall_drop, Forall_forall. intros c Hc. split.
    - destruct (ok_child _ Hok _ _ _ Hl Hc) as (Ht & _). pose proof (ok_range _ Hok _ _ Ht).
      pose proof (ok_next _ Hok). unfold in_u, U64_MAX, ROOT_ID in *. lia.
    - rewrite Forall_forall in Hn. apply Hn, list_elem_of_fmap. by exists c. }
  generalize (wrap_range 64 (offset + 1) ltac:(done)). generalize (wrap 64 (offset + 1)).
  induction Hall as [|c cs [Hi Hz] _ IH]; intros next Hnext; [constructor|]. cbn [entries_from map].
  constructor; [|by apply IH, wrap_range].
  unfold dirent_ok, entry_of. cbn [fst snd d_ino d_offset d_type d_name]. split_and!; [done..|].
  destruct plus; [|done]. unfold get_entry. destruct (Z.ltb_spec now_secs 0); [lia|]. split; [done|].
  by unfold entry_ok, duration_ok, in_u.
Qed.

End listing.

(** ** Claims *)

(** C17: [mount] refines the specification of directories: an absolute path
    walks from the root, creating each missing directory under the next inode
    number and reusing the ones that exist; the inode returned is the one of
    the directory the path names, and the tree stays well formed.  A path
    without root is EINVAL and changes nothing. *)
Theorem mount_refines fs d path :
  ps_ok fs -> represents fs d -> to_str path = Ok path ->
  fs.(ps_next_inode) + normals (components path) <= U64_MAX ->
  if has_root path then
    let '(d', cur) := spec_mount d [] (components path) in
    exists fs' ino, mount path fs = (fs', Ok ino) /\ ps_ok fs' /\ represents fs' d' /\
      d'.(dirs_map) !! cur = Some ino
  else mount path fs = (fs, Err (Os EINVAL)).
Proof.
  intros Hok Hrep Hu Hnum. destruct (has_root path) eqn:Hr; [by apply mount_spec|].
  unfold mount. by rewrite Hr.
Qed.

Lemma mount_refines_witness :
  let '(d', cur) := spec_mount Dirs_new [] (components (bs "/a/./b/../c")) in
  cur = [bs "a"; bs "c"] /\
  exists fs' ino, mount (bs "/a/./b/../c") PseudoFs_new = (fs', Ok ino) /\ ps_ok fs' /\ represents fs' d' /\
    d'.(dirs_map) !! cur = Some ino.
Proof.
  split; [by vm_compute|].
  apply (mount_refines PseudoFs_new Dirs_new (bs "/a/./b/../c") PseudoFs_new_ok PseudoFs_new_represents);
    by vm_compute.
Defined.

(** [path_walk] finds the directory a path names in the specification, or
    nothing as soon as a component is missing; it never panics on a
    well-formed tree. *)
Theorem path_walk_correct fs d path :
  ps_ok fs -> represents fs d -> to_str path = Ok path ->
  path_walk path fs =
    if has_root path then Ok (spec_walk d [] (components path)) else Err (Os EINVAL).
Proof. apply path_walk_spec. Qed.

Lemma path_walk_correct_witness :
  path_walk (bs "/..") PseudoFs_new = Ok (Some 1) /\ path_walk (bs "/a") PseudoFs_new = Ok None.
Proof.
  split; (rewrite (path_walk_correct PseudoFs_new Dirs_new _ PseudoFs_new_ok PseudoFs_new_represents);
    [by vm_compute|by vm_compute]).
Defined.

(** Mounting and walking agree: after [mount] returned an inode for a
    path, [path_walk] of the same path gives that inode, and mounting the path
    again gives it too and leaves the tree exactly as it is. *)
Theorem mount_then_walk fs d path fs' ino :
  ps_ok fs -> represents fs d -> to_str path = Ok path ->
  fs.(ps_next_inode) + normals (components path) <= U64_MAX ->
  mount path fs = (fs', Ok ino) ->
  path_walk path fs' = Ok (Some ino) /\ mount path fs' = (fs', Ok ino).
Proof.
  intros Hok Hrep Hu Hnum Hm. unfold mount in Hm. unfold path_walk, mount.
  destruct (has_root path); cbn [negb] in *; [|done].
  pose proof (components_ok path Hu) as Hcs.
  pose proof (mount_walk_refines _ fs d [] fs.(ps_root_inode) Hok Hrep eq_refl Hcs Hnum) as H.
  pose proof (spec_walk_mounted d (spec_mount d [] (components path)).1 [] (components path)) as Hw.
  destruct (spec_mount d [] (components path)) as [d' cur]. cbn [fst snd] in Hw.
  destruct H as (fs1 & l & Heq & Hok' & Hrep' & Hl). rewrite Heq in Hm. injection Hm as -> <-.
  assert (path_walk_loop fs' (components path) fs'.(ps_root_inode) = Ok (Some (deref fs' l).(pi_ino))) as Hpw.
  { rewrite (path_walk_refines _ fs' d' []) by done. rewrite Hw by (unfold dirs_sub; reflexivity).
    by rewrite (proj2 Hrep'), (ino_at_node fs' cur l Hl). }
  split; [done|]. destruct (mount_walk_existing _ _ _ _ Hpw) as (l' & -> & Hl'). cbn. by rewrite Hl'.
Qed.

Lemma mount_then_walk_witness :
  let '(fs', _) := mount (bs "/a/b") PseudoFs_new in
  path_walk (bs "/a/b") fs' = Ok (Some 3) /\ mount (bs "/a/b") fs' = (fs', Ok 3).
Proof.
  apply (mount_then_walk PseudoFs_new Dirs_new (bs "/a/b") _ 3 PseudoFs_new_ok PseudoFs_new_represents);
    by vm_compute.
Defined.

(** The directory a name designates below the directory [p]. *)
Definition spec_lookup (d : Dirs) (p : list bytes) (name : bytes) : option Z :=
  if beq name (bs ".") then d.(dirs_map) !! p
  else if beq name (bs "..") then d.(dirs_map) !! removelast p
  else d.(dirs_map) !! (p ++ [name]).

Lemma lookup_spec `{CK : Clock} fs d p ino name :
  ps_ok fs -> represents fs d -> d.(dirs_map) !! p = Some ino ->
  PseudoFs_lookup ino name fs =
    match to_str name with
    | Ok n => match spec_lookup d p n with Some i => get_entry i | None => Err (Os ENOENT) end
    | _ => Err (Os EINVAL)
    end.
Proof.
  intros Hok Hrep Hp. rewrite (proj2 Hrep) in Hp. unfold ino_at in Hp.
  destruct (node_at fs p) as [l|] eqn:Hl; [|done]. injection Hp as <-.
  pose proof (node_in_table fs Hok p l Hl) as Ht. pose proof (ok_range _ Hok _ _ Ht) as Hr.
  unfold PseudoFs_lookup. rewrite Ht. destruct (to_str name) as [n| |]; [|done|done].
  unfold spec_lookup. rewrite !(proj2 Hrep). unfold ROOT_ID in Hr.
  destruct (beq n (bs ".")).
  { rewrite (ino_at_node fs p l Hl). cbv zeta. by rewrite (proj2 (Z.eqb_neq _ _)) by lia. }
  destruct (beq n (bs "..")).
  { destruct (node_removelast fs Hok p l Hl) as (lp & Hlp & Hpar). rewrite (ino_at_node fs _ lp Hpar).
    pose proof (ok_range _ Hok _ _ Hlp) as Hr'. unfold ROOT_ID in Hr'. cbv zeta.
    rewrite (proj2 (Z.eqb_neq _ _)) by lia. by rewrite (ok_ino _ Hok _ _ Hlp). }
  unfold ino_at. rewrite node_at_snoc, Hl. cbn [mbind option_bind].
  destruct (find_child fs l n) as [c|] eqn:Hf; [|done]. cbn. apply find_child_some in Hf as [Hc _].
  destruct (ok_child _ Hok _ _ _ Ht Hc) as (_ & _ & Hlt & _). by rewrite (proj2 (Z.eqb_neq _ _)) by lia.
Qed.

(** LOOKUP in a pseudo directory finds what the specification has below
    it, the directory itself for ["."] and its parent for [".."], is ENOENT for
    any other name and EINVAL for one that is not UTF-8. *)
Theorem PseudoFs_lookup_correct `{CK : Clock} fs d p ino name :
  ps_ok fs -> represents fs d -> d.(dirs_map) !! p = Some ino ->
  PseudoFs_lookup ino name fs =
    match to_str name with
    | Ok n => match spec_lookup d p n with Some i => get_entry i | None => Err (Os ENOENT) end
    | _ => Err (Os EINVAL)
    end.
Proof. apply lookup_spec. Qed.

Definition example_clock : Clock := {| now_secs := 1700000000 |}.

Lemma PseudoFs_lookup_correct_witness :
  PseudoFs_lookup (CK := example_clock) 2 (bs "b") example_tree = get_entry (CK := example_clock) 3.
Proof.
  destruct example_tree_ok as [Hok Hrep].
  rewrite (PseudoFs_lookup_correct (CK := example_clock) example_tree example_dirs [bs "a"] 2 (bs "b") Hok Hrep);
    by vm_compute.
Defined.

(** READDIR and READDIRPLUS of a pseudo directory, through the server.  The
    reply is one message; its payload is at most the size the client asked
    for, and reading it as a stream gives the children in creation order from
    the requested offset on, each with the offset of its successor, as many as
    fit. *)
Theorem pseudo_readdir {V : Type} `{CK : Clock} `{VO : VolatileSliceOk V} `{DO : FuseDeviceOk}
    mem pagesize (r : Reader V) h fw v dev fs l (plus : bool) i :
  h.(ih_opcode) = Opcode_value (if plus then OpReaddirplus else OpReaddir) ->
  struct_ok h = true -> oversized h = false ->
  reader_ok r -> content mem r = as_slice h ++ as_slice i -> struct_ok i = true ->
  fresh fw -> fw_capacity fw <= U32_MAX -> size_of OutHeader + i.(rd_size) <= fw_capacity fw ->
  0 < i.(rd_size) -> 0 <= i.(rd_offset) -> 0 <= now_secs ->
  ps_ok fs -> fs.(ps_inodes) !! h.(ih_nodeid) = Some l ->
  Forall (fun n => zlen n <= U32_MAX) (names_of fs l) ->
  let offered := listing plus fs l i.(rd_offset) in
  exists payload,
    (handle_message mem pagesize r (WFuseDev fw) (MkServer fs v, dev)).1 =
      (MkServer fs v, dev ++ [reply_msg h.(ih_unique) 0 payload]) /\
    zlen payload <= i.(rd_size) /\
    parse_stream plus (length offered) payload = Some (map record_image (fitting i.(rd_size) offered)).
Proof.
  intros Hop Hh Hover Hr Hc Hi Hfresh Hcap Hroom Hsz Hoff Hclock Hok Hl Hn offered.
  pose proof (listing_ok plus fs _ l i.(rd_offset) Hclock Hok Hl Hn) as Hall. fold offered in Hall.
  assert (0 <= i.(rd_size)) as Hsz0 by lia.
  exists (concat (map record_bytes (fitting i.(rd_size) offered))). split_and!.
  - eapply handle_message_does; [done..|]. rewrite Hop.
    assert (dispatch mem pagesize (Opcode_value (if plus then OpReaddirplus else OpReaddir)) =
            (Server.do_readdir mem plus : prog (world PseudoFs V) Error Z)) as -> by by destruct plus.
    apply does_readdir; [done..|by apply PseudoFs_scans|].
    apply (Forall_impl _ _ _ Hall). intros x Hx. apply Hx.
  - by apply fitting_le.
  - apply parse_records.
    + by apply Forall_fitting.
    + apply fitting_length.
Qed.

Definition example_readdir_in : ReadIn := {|
  rd_fh := 0; rd_offset := 0; rd_size := 100; rd_read_flags := 0; rd_lock_owner := 0; rd_flags := 0; rd_padding := 0 |}.

Definition example_readdir_request : bytes := as_slice (example_header OpReaddir 80 1) ++ as_slice example_readdir_in.

Lemma pseudo_readdir_witness :
  exists payload,
    (handle_message (FS := PseudoFs_filesystem (CK := example_clock)) (DEV := accepting_device)
       (mem_of example_readdir_request) 4096 (reader_of example_readdir_request)
       (WFuseDev example_writer) (Server_new example_tree, [])).1 =
      (Server_new example_tree, [reply_msg 9 0 payload]) /\
    parse_stream false 1 payload =
      Some [(None, {| de_ino := 2; de_off := 1; de_namelen := 1; de_type := 0 |}, bs "a")].
Proof.
  destruct (pseudo_readdir (CK := example_clock) (DO := accepting_device_ok) (mem_of example_readdir_request) 4096
    (reader_of example_readdir_request) (example_header OpReaddir 80 1) example_writer (sv_vers (Server_new example_tree))
    [] example_tree 0 false example_readdir_in) as (payload & H1 & _ & H2).
  4: apply example_reader_ok; by vm_compute.
  12: apply example_tree_ok.
  13: by (assert (names_of example_tree 0 = [bs "a"]) as -> by by vm_compute); repeat constructor.
  1-12: by vm_compute.
  assert (length (listing (CK := example_clock) false example_tree 0 0) = 1%nat) as Hlen by by vm_compute.
  change (rd_offset example_readdir_in) with 0 in H2. rewrite Hlen in H2.
  exists payload. split; [exact H1|]. rewrite H2. by vm_compute.
Defined.

(** Evicting an empty directory other than the root takes exactly its path
    out of the specification. *)
Theorem evict_inode_leaf fs d p ino :
  ps_ok fs -> represents fs d -> d.(dirs_map) !! p = Some ino -> p <> [] ->
  (forall n, d.(dirs_map) !! (p ++ [n]) = None) ->
  exists fs', evict_inode ino fs = (fs', Ok tt) /\ ps_ok fs' /\
    represents fs' (MkDirs d.(dirs_next) (delete p d.(dirs_map))).
Proof. apply evict_leaf. Qed.

(** [example_dirs] without its keys. *)
Lemma example_dirs_leaf n : example_dirs.(dirs_map) !! ([bs "a"; bs "b"] ++ [n]) = None.
Proof.
  change (dirs_map example_dirs) with
    (<[ [bs "a"; bs "b"] := 3 ]> (<[ [bs "a"] := 2 ]> ({[ [] := 1 ]} : gmap (list bytes) Z))).
  by rewrite !lookup_insert_ne, lookup_singleton_ne.
Qed.

Lemma evict_inode_leaf_witness :
  exists fs', evict_inode 3 example_tree = (fs', Ok tt) /\ ps_ok fs' /\
    represents fs' (MkDirs 4 (delete [bs "a"; bs "b"] example_dirs.(dirs_map))).
Proof.
  destruct example_tree_ok as [Hok Hrep].
  apply (evict_inode_leaf example_tree example_dirs [bs "a"; bs "b"] 3 Hok Hrep); [by vm_compute|done|].
  apply example_dirs_leaf.
Defined.

(** Evicting a directory that still has a subdirectory succeeds and breaks
    the tree: the subdirectory stays in the inode table, its parent is gone,
    and evicting it panics. *)
Theorem evict_inode_orphans fs d p n ino c :
  ps_ok fs -> represents fs d -> d.(dirs_map) !! p = Some ino -> p <> [] ->
  d.(dirs_map) !! (p ++ [n]) = Some c ->
  exists fs', evict_inode ino fs = (fs', Ok tt) /\ get_parent_inode c fs' = Some ino /\
    get_parent_inode ino fs' = None /\ (evict_inode c fs').2 = Panic.
Proof.
  intros Hok Hrep Hp Hpn Hc. destruct (evict_orphan fs d p n ino c) as (fs' & Hev & [lc Hlc] & Hpar & Hnone); try done.
  exists fs'. split_and!; [done..| |].
  - unfold get_parent_inode. by rewrite Hnone.
  - unfold evict_inode. rewrite Hlc. unfold get_parent_inode in Hpar. rewrite Hlc in Hpar.
    injection Hpar as Hpar. rewrite Hpar, Hnone. destruct (Z.eqb_spec c ino) as [->|]; [|done]. congruence.
Qed.

Lemma evict_inode_orphans_witness :
  exists fs', evict_inode 2 example_tree = (fs', Ok tt) /\ get_parent_inode 3 fs' = Some 2 /\
    get_parent_inode 2 fs' = None /\ (evict_inode 3 fs').2 = Panic.
Proof.
  destruct example_tree_ok as [Hok Hrep].
  apply (evict_inode_orphans example_tree example_dirs [bs "a"] (bs "b") 2 3 Hok Hrep); by vm_compute.
Defined.
