(* ===== verification/PseudoPersist.v ===== *)
(** * Saving and restoring the pseudo file system ([persist] of [src/api/pseudo_fs.rs])

    Restoring a saved state into a new [PseudoFs] rebuilds the same tree:
    inode numbers, parents, names, and the order of the children. *)

From stdpp Require Import sorting.
From S2P Require Import Prelude Std Abi AbiStruct FsTypes FileSystem PseudoFs PseudoFsProps.

(** What can be seen of a tree: for each inode its parent, its name and the
    inodes of its children in order. *)
Definition tree_of (fs : PseudoFs) : gmap Z (Z * bytes * list Z) :=
  (fun l => ((deref fs l).(pi_parent), (deref fs l).(pi_name), inos_of fs l)) <$> fs.(ps_inodes).

Lemma tree_lookup fs ino l :
  fs.(ps_inodes) !! ino = Some l ->
  tree_of fs !! ino = Some ((deref fs l).(pi_parent), (deref fs l).(pi_name), inos_of fs l).
Proof. intros Hl. unfold tree_of. by rewrite lookup_fmap, Hl. Qed.

Lemma tree_lookup_inv fs ino x :
  tree_of fs !! ino = Some x ->
  exists l, fs.(ps_inodes) !! ino = Some l /\ x = ((deref fs l).(pi_parent), (deref fs l).(pi_name), inos_of fs l).
Proof. unfold tree_of. rewrite lookup_fmap. intros (l & Hl & ->)%fmap_Some. eauto. Qed.

(** ** Two well-formed trees that look the same *)

Section same_tree.
Context (fs fs' : PseudoFs) (Hok : ps_ok fs) (Htree : tree_of fs' = tree_of fs).
Context (Hnext : fs'.(ps_next_inode) = fs.(ps_next_inode)).
Context (Hroot' : fs'.(ps_inodes) !! ROOT_ID = Some fs'.(ps_root_inode)).
Context (Hino' : forall ino l, fs'.(ps_inodes) !! ino = Some l -> (deref fs' l).(pi_ino) = ino).
Context (Halloc' : forall l, is_Some (fs'.(ps_heap) !! l) -> l < fs'.(ps_alloc)).
Context (Hheap' : forall ino l, fs'.(ps_inodes) !! ino = Some l -> is_Some (fs'.(ps_heap) !! l)).
Context (Hchild' : forall ino l c, fs'.(ps_inodes) !! ino = Some l -> c ∈ (deref fs' l).(pi_children) ->
  fs'.(ps_inodes) !! (deref fs' c).(pi_ino) = Some c).

(** The node of [fs] with the same number. *)
Lemma same_node ino l' :
  fs'.(ps_inodes) !! ino = Some l' ->
  exists l, fs.(ps_inodes) !! ino = Some l /\ (deref fs' l').(pi_parent) = (deref fs l).(pi_parent) /\
    (deref fs' l').(pi_name) = (deref fs l).(pi_name) /\ inos_of fs' l' = inos_of fs l.
Proof.
  intros Hl'. pose proof (tree_lookup _ _ _ Hl') as Ht. rewrite Htree in Ht.
  apply tree_lookup_inv in Ht as (l & Hl & [= -> -> ->]). eauto.
Qed.

Lemma same_node_back ino l :
  fs.(ps_inodes) !! ino = Some l ->
  exists l', fs'.(ps_inodes) !! ino = Some l' /\ inos_of fs' l' = inos_of fs l.
Proof.
  intros Hl. pose proof (tree_lookup _ _ _ Hl) as Ht. rewrite <- Htree in Ht.
  apply tree_lookup_inv in Ht as (l' & Hl' & [= _ _ ->]). eauto.
Qed.

(** Children with the same number have the same name. *)
Lemma same_child ino l' c' :
  fs'.(ps_inodes) !! ino = Some l' -> c' ∈ (deref fs' l').(pi_children) ->
  exists l c, fs.(ps_inodes) !! ino = Some l /\ c ∈ (deref fs l).(pi_children) /\
    fs.(ps_inodes) !! (deref fs' c').(pi_ino) = Some c /\ (deref fs c).(pi_ino) = (deref fs' c').(pi_ino) /\
    (deref fs' c').(pi_parent) = (deref fs c).(pi_parent) /\ (deref fs' c').(pi_name) = (deref fs c).(pi_name).
Proof.
  intros Hl' Hc'. destruct (same_node ino l' Hl') as (l & Hl & _ & _ & Hinos).
  assert ((deref fs' c').(pi_ino) ∈ inos_of fs l) as Hin.
  { rewrite <- Hinos. apply list_elem_of_fmap. by exists c'. }
  apply list_elem_of_fmap in Hin as (c & Hci & Hc).
  destruct (ok_child _ Hok _ _ _ Hl Hc) as (Htc & _).
  destruct (same_node _ _ (Hchild' _ _ _ Hl' Hc')) as (c2 & Htc2 & Hpar & Hname & _).
  rewrite Hci, Htc in Htc2. injection Htc2 as <-.
  exists l, c. rewrite Hci. split_and!; done.
Qed.

Lemma same_names ino l' l :
  fs'.(ps_inodes) !! ino = Some l' -> fs.(ps_inodes) !! ino = Some l -> names_of fs' l' = names_of fs l.
Proof.
  intros Hl' Hl. destruct (same_node ino l' Hl') as (l0 & Hl0 & _ & _ & Hinos).
  assert (l0 = l) as -> by congruence. unfold names_of, inos_of in *.
  apply list_eq. intros i. rewrite !list_lookup_fmap.
  pose proof (f_equal (fun k => k !! i) Hinos) as Hi. cbn in Hi. rewrite !list_lookup_fmap in Hi.
  destruct ((deref fs' l').(pi_children) !! i) as [c'|] eqn:Hc', ((deref fs l).(pi_children) !! i) as [c|] eqn:Hc;
    cbn in *; try done. injection Hi as Hi. f_equal.
  apply list_elem_of_lookup_2 in Hc' as Hin', Hc as Hin.
  destruct (same_child ino l' c' Hl' Hin') as (_ & c2 & _ & _ & Ht2 & _ & _ & ->).
  destruct (ok_child _ Hok _ _ _ Hl Hin) as (Htc & _). congruence.
Qed.

Lemma same_tree_ok : ps_ok fs'.
Proof.
  destruct (same_node _ _ Hroot') as (lr & Hlr & Hpar & Hname & _). rewrite (ok_root _ Hok) in Hlr.
  injection Hlr as <-. split; try done.
  - by rewrite Hpar, (ok_root_parent _ Hok).
  - by rewrite Hname, (ok_root_name _ Hok).
  - intros ino l' Hl'. destruct (same_node _ _ Hl') as (l & Hl & _). rewrite Hnext. by eapply (ok_range _ Hok).
  - rewrite Hnext. apply (ok_next _ Hok).
  - intros ino l' Hl' Hne. destruct (same_node _ _ Hl') as (l & Hl & -> & _ & _).
    destruct (ok_parent _ Hok _ _ Hl Hne) as (lp & Hlp & Hc).
    destruct (same_node_back _ _ Hlp) as (lp' & Hlp' & Hinos). exists lp'. split; [done|].
    assert (ino ∈ inos_of fs' lp') as (c & Hci & Hcin)%list_elem_of_fmap.
    { rewrite Hinos. apply list_elem_of_fmap. exists l. by rewrite (ok_ino _ Hok _ _ Hl). }
    pose proof (Hchild' _ _ _ Hlp' Hcin) as Htc. rewrite <- Hci, Hl' in Htc. by injection Htc as ->.
  - intros ino l' c' Hl' Hc'. split; [by eapply Hchild'|].
    destruct (same_child ino l' c' Hl' Hc') as (l & c & Hl & Hc & _ & Hi & -> & ->).
    rewrite <- Hi. apply (ok_child _ Hok _ _ _ Hl Hc).
  - intros ino l' Hl'. destruct (same_node _ _ Hl') as (l & Hl & _).
    rewrite (same_names ino l' l) by done. by eapply (ok_names _ Hok).
  - intros ino l' Hl'. destruct (same_node _ _ Hl') as (l & Hl & _ & _ & ->). by eapply (ok_order _ Hok).
Qed.

(** The same paths lead to the same inodes. *)
Lemma same_tree_paths p : ino_at fs' p = ino_at fs p.
Proof.
  pose proof same_tree_ok as Hok'.
  induction p as [|n p IH] using rev_ind.
  { unfold ino_at, node_at. cbn. f_equal.
    rewrite (ok_ino _ Hok _ _ (ok_root _ Hok)). by apply (ok_ino _ Hok'). }
  unfold ino_at in *. rewrite !node_at_snoc.
  destruct (node_at fs' p) as [l'|] eqn:Hl', (node_at fs p) as [l|] eqn:Hl; cbn in *; try done.
  injection IH as IH. pose proof (node_in_table _ Hok' _ _ Hl') as Ht'. pose proof (node_in_table _ Hok _ _ Hl) as Ht.
  rewrite IH in Ht'.
  destruct (find_child fs' l' n) as [c'|] eqn:Hc'.
  - apply find_child_some in Hc' as [Hin Hn].
    destruct (same_child _ l' c' Ht' Hin) as (l2 & c & Hl2 & Hcin & _ & Hci & _ & Hcn).
    rewrite (find_child_in fs l n c); [cbn; by rewrite Hci|by eapply (ok_names _ Hok)|congruence|congruence].
  - apply find_child_none in Hc'. rewrite (same_names _ l' l Ht' Ht) in Hc'.
    by apply find_child_none in Hc' as ->.
Qed.

End same_tree.

(** ** Rebuilding the nodes *)

Lemma restore_inodes_spec l m fs fs1 m1 :
  restore_inodes l m fs = (fs1, m1) -> NoDup (pis_ino <$> l) ->
  (forall x, is_Some (fs.(ps_heap) !! x) -> x < fs.(ps_alloc)) ->
  fs1.(ps_root_inode) = fs.(ps_root_inode) /\
  (forall x, x < fs.(ps_alloc) -> fs1.(ps_heap) !! x = fs.(ps_heap) !! x) /\
  (forall x, is_Some (fs1.(ps_heap) !! x) -> x < fs1.(ps_alloc)) /\
  fs.(ps_alloc) <= fs1.(ps_alloc) /\
  (forall i, i ∉ pis_ino <$> l -> m1 !! i = m !! i) /\
  (forall s, s ∈ l -> exists x, m1 !! s.(pis_ino) = Some x /\ fs.(ps_alloc) <= x /\
     fs1.(ps_heap) !! x = Some (PseudoInode_new s.(pis_ino) s.(pis_parent) s.(pis_name))).
Proof.
  revert m fs. induction l as [|s l IH]; intros m fs Hr Hnd Hal; cbn [restore_inodes] in Hr.
  { injection Hr as <- <-. split_and!; try done. intros s Hs. set_solver. }
  unfold alloc in Hr. set (fs0 := MkPseudoFs _ _ _ _ _) in Hr. rewrite fmap_cons in Hnd.
  apply NoDup_cons in Hnd as [Hs Hnd].
  assert ((deref fs0 fs.(ps_alloc)).(pi_ino) = s.(pis_ino)) as Hi
    by (unfold deref, fs0; cbn [ps_heap]; by rewrite lookup_insert_eq).
  rewrite Hi in Hr.
  destruct (IH _ _ Hr Hnd) as (Hroot & Hold & Hal1 & Hmono & Hm & Hnew).
  { intros x. unfold fs0. cbn [ps_heap ps_alloc]. rewrite lookup_insert_is_Some'.
    intros [<-|Hx]; [lia|]. pose proof (Hal x Hx). lia. }
  cbn [fs0 ps_alloc ps_heap] in *. split_and!; try done.
  - intros x Hx. rewrite Hold by (cbn; lia). cbn. rewrite lookup_insert_ne by lia. done.
  - lia.
  - intros i Hi'. rewrite fmap_cons, not_elem_of_cons in Hi'. destruct Hi' as [Hi1 Hi2].
    rewrite Hm by done. by rewrite lookup_insert_ne.
  - intros s' [->|Hs']%elem_of_cons.
    + exists fs.(ps_alloc). split_and!; [|lia|].
      * rewrite Hm by done. apply lookup_insert_eq.
      * rewrite Hold by (cbn; lia). cbn. apply lookup_insert_eq.
    + destruct (Hnew s' Hs') as (x & Hx1 & Hx2 & Hx3). exists x. split_and!; [done|lia|done].
Qed.

(** ** Connecting them *)

(** The children [connect_inodes] gives to the node [x]. *)
Definition connected (m : gmap Z Loc) (l : list PseudoInodeState) (x : Loc) : list Loc :=
  omap (fun s => if decide (m !! s.(pis_parent) = Some x) then m !! s.(pis_ino) else None) l.

Lemma insert_child_deref fs l c x :
  (deref (insert_child l c fs) x).(pi_ino) = (deref fs x).(pi_ino) /\
  (deref (insert_child l c fs) x).(pi_parent) = (deref fs x).(pi_parent) /\
  (deref (insert_child l c fs) x).(pi_name) = (deref fs x).(pi_name) /\
  (deref (insert_child l c fs) x).(pi_children) = (deref fs x).(pi_children) ++ (if decide (l = x) then [c] else []).
Proof.
  assert (deref (insert_child l c fs) x = if decide (l = x)
    then MkPseudoInode (deref fs x).(pi_ino) (deref fs x).(pi_parent) ((deref fs x).(pi_children) ++ [c]) (deref fs x).(pi_name)
    else deref fs x) as ->.
  { unfold insert_child, store_children, with_heap, deref at 1. cbn [ps_heap].
    destruct (decide (l = x)) as [->|]; [by rewrite lookup_insert_eq|by rewrite lookup_insert_ne]. }
  destruct (decide (l = x)); [done|]. by rewrite app_nil_r.
Qed.

Lemma connect_inodes_spec l m fs :
  (forall s, s ∈ l -> exists x p, m !! s.(pis_ino) = Some x /\ (deref fs x).(pi_parent) = s.(pis_parent) /\
     m !! s.(pis_parent) = Some p /\ is_Some (fs.(ps_heap) !! p)) ->
  exists fs', connect_inodes l m fs = (fs', Ok tt) /\
    fs'.(ps_root_inode) = fs.(ps_root_inode) /\ fs'.(ps_alloc) = fs.(ps_alloc) /\
    (forall x, is_Some (fs'.(ps_heap) !! x) <-> is_Some (fs.(ps_heap) !! x)) /\
    forall x, (deref fs' x).(pi_ino) = (deref fs x).(pi_ino) /\ (deref fs' x).(pi_parent) = (deref fs x).(pi_parent) /\
      (deref fs' x).(pi_name) = (deref fs x).(pi_name) /\
      (deref fs' x).(pi_children) = (deref fs x).(pi_children) ++ connected m l x.
Proof.
  revert fs. induction l as [|s l IH]; intros fs Hl.
  { exists fs. split_and!; try done. intros x. unfold connected. cbn. by rewrite app_nil_r. }
  destruct (Hl s) as (c & p & Hc & Hpar & Hp & Hheap); [set_solver|].
  cbn [connect_inodes]. rewrite Hc, Hpar, Hp.
  destruct (IH (insert_child p c fs)) as (fs' & -> & Hr & Ha & Hh & Hd).
  { intros s' Hs'. destruct (Hl s') as (x & p' & Hx & Hpx & Hp' & Hh'); [set_solver|]. exists x, p'.
    destruct (insert_child_deref fs p c x) as (_ & -> & _). split_and!; try done.
    unfold insert_child, store_children, with_heap. cbn [ps_heap]. rewrite lookup_insert_is_Some'. auto. }
  exists fs'. split_and!; try done.
  - intros x. rewrite Hh. unfold insert_child, store_children, with_heap. cbn [ps_heap].
    rewrite lookup_insert_is_Some'. naive_solver.
  - intros x. destruct (Hd x) as (-> & -> & -> & ->).
    destruct (insert_child_deref fs p c x) as (-> & -> & -> & ->). split_and!; try done.
    unfold connected. cbn [omap list_omap]. rewrite Hc, Hp, <- app_assoc. f_equal.
    destruct (decide (p = x)) as [->|Hne]; [by rewrite decide_True|]. rewrite decide_False by congruence. done.
Qed.

(** ** Sorted lists of inode numbers *)

#[global] Instance ino_le_trans : Transitive ino_le.
Proof. intros a b c. unfold ino_le. lia. Qed.

#[global] Instance ino_le_total : Total ino_le.
Proof. intros a b. unfold ino_le. lia. Qed.

Lemma sorted_lt_NoDup (l : list Z) : StronglySorted Z.lt l -> NoDup l.
Proof.
  induction l as [|x l IH]; intros Hs; [constructor|]. apply StronglySorted_cons in Hs as [Hx Hs].
  constructor; [|by apply IH]. intros Hin. rewrite Forall_forall in Hx. specialize (Hx x Hin). lia.
Qed.

(** Two sorted lists with the same elements are equal. *)
Lemma sorted_lt_eq (l k : list Z) :
  StronglySorted Z.lt l -> StronglySorted Z.lt k -> (forall x, x ∈ l <-> x ∈ k) -> l = k.
Proof.
  intros Hl Hk Hlk. assert (AntiSymm (=) Z.lt) by (intros x y; lia).
  apply (StronglySorted_unique Z.lt); [done..|].
  apply NoDup_Permutation; [by apply sorted_lt_NoDup..|done].
Qed.

Lemma sort_strict (l : list PseudoInodeState) :
  NoDup (pis_ino <$> l) -> StronglySorted Z.lt (pis_ino <$> merge_sort ino_le l).
Proof.
  intros Hnd. assert (NoDup (pis_ino <$> merge_sort ino_le l)) as Hnd' by by rewrite merge_sort_Permutation.
  pose proof (StronglySorted_merge_sort ino_le l) as Hs. clear Hnd. revert Hs Hnd'.
  induction (merge_sort ino_le l) as [|s k IH]; [constructor|]. rewrite fmap_cons.
  intros [Hs Hk]%StronglySorted_cons [Hn Hnd]%NoDup_cons. apply StronglySorted_cons. split; [|by apply IH].
  apply Forall_forall. intros x Hx. destruct (decide (x = s.(pis_ino))) as [->|Hne]; [done|].
  apply list_elem_of_fmap in Hx as (s' & -> & Hs'). rewrite Forall_forall in Hs. specialize (Hs s' Hs').
  unfold ino_le in Hs. lia.
Qed.

(** The numbers of the saved children of [i]. *)
Definition kids (i : Z) (l : list PseudoInodeState) : list Z :=
  omap (fun s => if decide (s.(pis_parent) = i) then Some s.(pis_ino) else None) l.

Lemma kids_sublist i l : kids i l `sublist_of` (pis_ino <$> l).
Proof.
  induction l as [|s l IH]; [constructor|]. unfold kids in *. cbn. by destruct (decide _); constructor.
Qed.

Lemma elem_of_kids i l k : k ∈ kids i l <-> exists s, s ∈ l /\ s.(pis_parent) = i /\ s.(pis_ino) = k.
Proof.
  unfold kids. rewrite list_elem_of_omap. split.
  - intros (s & Hs & Hk). destruct (decide _); simplify_eq. eauto.
  - intros (s & Hs & Hp & <-). exists s. by rewrite decide_True.
Qed.

(** ** The saved state *)

Section save.
Context `{HO : HashOrderOk} (fs : PseudoFs) (Hok : ps_ok fs).

Lemma elem_of_saved s :
  s ∈ (save_to_state fs).(pss_inodes) <->
  exists ino l, fs.(ps_inodes) !! ino = Some l /\ ino <> ROOT_ID /\ s = inode_state (deref fs l).
Proof.
  unfold save_to_state. cbn [pss_inodes]. rewrite list_elem_of_In, in_map_iff. split.
  - intros (n & <- & Hn). apply filter_In in Hn as [Hn Hne]. apply in_map_iff in Hn as (l & <- & Hl).
    apply list_elem_of_In in Hl. rewrite hash_values_perm in Hl.
    apply list_elem_of_fmap in Hl as ([ino l'] & -> & Hl). apply elem_of_map_to_list in Hl. cbn in Hne |- *.
    exists ino, l'. split_and!; [done| |done]. rewrite (ok_ino _ Hok _ _ Hl) in Hne. by zify_bool.
  - intros (ino & l & Hl & Hne & ->). exists (deref fs l). split; [done|]. apply filter_In. split.
    + apply in_map, list_elem_of_In. rewrite hash_values_perm. apply list_elem_of_fmap. exists (ino, l).
      split; [done|]. by apply elem_of_map_to_list.
    + rewrite (ok_ino _ Hok _ _ Hl). apply negb_true_iff. by apply Z.eqb_neq.
Qed.

Lemma saved_NoDup : NoDup (pis_ino <$> (save_to_state fs).(pss_inodes)).
Proof.
  unfold save_to_state. cbn [pss_inodes].
  assert (forall l : list PseudoInode, pis_ino <$> map inode_state l = pi_ino <$> l) as ->.
  { intros l. induction l; cbn; [done|]. by f_equal. }
  assert (forall (f : PseudoInode -> bool) l, NoDup (pi_ino <$> l) -> NoDup (pi_ino <$> List.filter f l)) as Hf.
  { intros f l Hnd. eapply sublist_NoDup; [done|]. apply fmap_sublist.
    clear. induction l as [|x l IH]; cbn; [constructor|]. destruct (f x); by constructor. }
  apply Hf. clear Hf.
  assert (pi_ino <$> map (deref fs) (hash_values fs.(ps_inodes)) ≡ₚ (map_to_list fs.(ps_inodes)).*1) as ->.
  2: apply NoDup_fst_map_to_list.
  change (pi_ino <$> (deref fs <$> hash_values fs.(ps_inodes)) ≡ₚ (map_to_list fs.(ps_inodes)).*1).
  rewrite hash_values_perm, <- !list_fmap_compose. apply reflexive_eq.
  apply list_fmap_ext. intros i [ino l] Hi%list_elem_of_lookup_2. apply elem_of_map_to_list in Hi. cbn.
  by apply (ok_ino _ Hok).
Qed.

End save.

(** ** Restoring it *)

Section restore.
Context `{HO : HashOrderOk} (fs : PseudoFs) (Hok : ps_ok fs).

Let saved := (save_to_state fs).(pss_inodes).
Let r1 := restore_inodes saved ∅ PseudoFs_new.
Let M := <[ROOT_ID := 0]> r1.2.

Lemma restored_root : r1.1.(ps_root_inode) = 0 /\ r1.1.(ps_heap) !! 0 = Some (PseudoInode_new ROOT_ID ROOT_ID (bs "/")) /\
  (forall x, is_Some (r1.1.(ps_heap) !! x) -> x < r1.1.(ps_alloc)).
Proof.
  destruct (restore_inodes_spec saved ∅ PseudoFs_new r1.1 r1.2) as (Hr & Hold & Hal & _);
    [apply surjective_pairing|by apply saved_NoDup|apply (ok_alloc _ PseudoFs_new_ok)|].
  split_and!; [done|by rewrite Hold|done].
Qed.

(** The new table and the saved one have the same numbers, parents and names. *)
Lemma restored_node i x :
  M !! i = Some x ->
  exists l, fs.(ps_inodes) !! i = Some l /\
    r1.1.(ps_heap) !! x = Some (PseudoInode_new i (deref fs l).(pi_parent) (deref fs l).(pi_name)).
Proof.
  destruct (restore_inodes_spec saved ∅ PseudoFs_new r1.1 r1.2) as (_ & _ & _ & _ & Hm & Hnew);
    [apply surjective_pairing|by apply saved_NoDup|apply (ok_alloc _ PseudoFs_new_ok)|].
  unfold M. intros [[<- <-]|[Hi Hx]]%lookup_insert_Some.
  { exists fs.(ps_root_inode). split; [apply (ok_root _ Hok)|].
    rewrite (ok_root_parent _ Hok), (ok_root_name _ Hok). apply restored_root. }
  destruct (decide (i ∈ pis_ino <$> saved)) as [(s & -> & Hs)%list_elem_of_fmap|Hn].
  - destruct (Hnew s Hs) as (y & Hy & _ & Hheap). assert (y = x) as -> by congruence.
    apply elem_of_saved in Hs as (ino & l & Hl & _ & ->); [|done]. exists l. cbn in *.
    by rewrite (ok_ino _ Hok _ _ Hl) in *.
  - rewrite Hm in Hx by done. by rewrite lookup_empty in Hx.
Qed.

Lemma restored_back i l : fs.(ps_inodes) !! i = Some l -> exists x, M !! i = Some x.
Proof.
  destruct (restore_inodes_spec saved ∅ PseudoFs_new r1.1 r1.2) as (_ & _ & _ & _ & _ & Hnew);
    [apply surjective_pairing|by apply saved_NoDup|apply (ok_alloc _ PseudoFs_new_ok)|].
  intros Hl. unfold M. destruct (decide (i = ROOT_ID)) as [->|Hne]; [exists 0; apply lookup_insert_eq|].
  destruct (Hnew (inode_state (deref fs l))) as (x & Hx & _).
  { apply elem_of_saved; [done|]. eauto. }
  exists x. cbn in Hx. rewrite (ok_ino _ Hok _ _ Hl) in Hx. by rewrite lookup_insert_ne.
Qed.

Lemma restored_inj i j x : M !! i = Some x -> M !! j = Some x -> i = j.
Proof. intros (? & _ & Hi)%restored_node (? & _ & Hj)%restored_node. rewrite Hi in Hj. by injection Hj. Qed.

Lemma restored_deref i x l :
  M !! i = Some x -> fs.(ps_inodes) !! i = Some l ->
  deref r1.1 x = PseudoInode_new i (deref fs l).(pi_parent) (deref fs l).(pi_name).
Proof.
  intros (l' & Hl' & Hx)%restored_node Hl. unfold deref at 1. rewrite Hx. cbn.
  assert (l' = l) as -> by congruence. done.
Qed.

(** The children of a restored node are the saved ones, in order. *)
Lemma connected_kids i x l :
  M !! i = Some x -> incl l saved ->
  Forall2 (fun c k => M !! k = Some c) (connected M l x) (kids i l).
Proof.
  intros Hx. induction l as [|s l IH]; intros Hl; [constructor|]. unfold connected, kids in *.
  cbn [omap list_omap].
  assert (Forall2 (fun c k => M !! k = Some c)
    (omap (fun s => if decide (M !! s.(pis_parent) = Some x) then M !! s.(pis_ino) else None) l)
    (omap (fun s => if decide (s.(pis_parent) = i) then Some s.(pis_ino) else None) l)) as IH'
    by (apply IH; intros y Hy; apply Hl; by right).
  destruct (decide (s.(pis_parent) = i)) as [Hp|Hp].
  - rewrite decide_True by by rewrite Hp. assert (s ∈ saved) as Hs by (apply list_elem_of_In, Hl; by left).
    apply elem_of_saved in Hs as (ino & ls & Hls & _ & ->); [|done].
    cbn [inode_state pis_ino]. rewrite (ok_ino _ Hok _ _ Hls). destruct (restored_back _ _ Hls) as [c Hc]. rewrite Hc. by constructor.
  - rewrite decide_False; [done|]. intros Hx'. apply Hp. by eapply restored_inj.
Qed.

(** The saved children of a node are its children. *)
Lemma saved_kids i l : fs.(ps_inodes) !! i = Some l -> kids i (merge_sort ino_le saved) = inos_of fs l.
Proof.
  intros Hl. apply sorted_lt_eq.
  - eapply StronglySorted_sublist; [apply kids_sublist|]. by apply sort_strict, saved_NoDup.
  - by eapply (ok_order _ Hok).
  - intros k. rewrite elem_of_kids. split.
    + intros (s & Hs & Hp & Hk). rewrite merge_sort_Permutation in Hs.
      apply elem_of_saved in Hs as (ino & lc & Hlc & Hne & ->); [|done]. cbn in *. subst i k.
      destruct (ok_parent _ Hok _ _ Hlc Hne) as (lp & Hlp & Hin). rewrite Hl in Hlp. injection Hlp as ->.
      apply list_elem_of_fmap. by exists lc.
    + intros (c & -> & Hc)%list_elem_of_fmap. exists (inode_state (deref fs c)).
      destruct (ok_child _ Hok _ _ _ Hl Hc) as (Ht & Hp & Hlt & _). split_and!; [|done|done].
      rewrite merge_sort_Permutation. apply elem_of_saved; [done|].
      exists (deref fs c).(pi_ino), c. split_and!; [done| |done].
      pose proof (ok_range _ Hok _ _ Hl). lia.
Qed.

Let r2 := connect_inodes (merge_sort ino_le saved) M r1.1.
Let fs' := with_next_inode fs.(ps_next_inode) (with_inodes M r2.1).

Lemma restored_connect :
  r2.2 = Ok tt /\ r2.1.(ps_root_inode) = 0 /\ r2.1.(ps_alloc) = r1.1.(ps_alloc) /\
  (forall x, is_Some (r2.1.(ps_heap) !! x) <-> is_Some (r1.1.(ps_heap) !! x)) /\
  forall x, (deref fs' x).(pi_ino) = (deref r1.1 x).(pi_ino) /\
    (deref fs' x).(pi_parent) = (deref r1.1 x).(pi_parent) /\ (deref fs' x).(pi_name) = (deref r1.1 x).(pi_name) /\
    (deref fs' x).(pi_children) = (deref r1.1 x).(pi_children) ++ connected M (merge_sort ino_le saved) x.
Proof.
  destruct restored_root as (Hroot & Hroot0 & Hal).
  destruct (connect_inodes_spec (merge_sort ino_le saved) M r1.1) as (fs2 & Hconn & Hr2 & Ha2 & Hh2 & Hd2).
  { intros s Hs. rewrite merge_sort_Permutation in Hs.
    apply elem_of_saved in Hs as (ino & l & Hl & Hne & ->); [|done].
    cbn [inode_state pis_ino pis_parent]. rewrite (ok_ino _ Hok _ _ Hl).
    destruct (restored_back _ _ Hl) as [x Hx]. destruct (ok_parent _ Hok _ _ Hl Hne) as (lp & Hlp & _).
    destruct (restored_back _ _ Hlp) as [p Hp]. exists x, p. rewrite (restored_deref _ _ _ Hx Hl).
    destruct (restored_node _ _ Hp) as (l' & _ & Hheap). split_and!; [done..|by rewrite Hheap]. }
  fold r2 in Hconn. unfold fs'. rewrite Hconn. cbn [fst snd]. by rewrite <- Hroot.
Qed.

Lemma restored_fields i x l :
  M !! i = Some x -> fs.(ps_inodes) !! i = Some l ->
  inos_of fs' x = inos_of fs l /\ (deref fs' x).(pi_parent) = (deref fs l).(pi_parent) /\
  (deref fs' x).(pi_name) = (deref fs l).(pi_name) /\ (deref fs' x).(pi_ino) = i /\
  (forall c, c ∈ (deref fs' x).(pi_children) -> M !! (deref fs' c).(pi_ino) = Some c).
Proof.
  intros Hx Hl. destruct restored_connect as (_ & _ & _ & _ & Hd). destruct (Hd x) as (Hi & Hp & Hn & Hc).
  rewrite (restored_deref i x l Hx Hl) in *.
  assert (Forall2 (fun c k => M !! k = Some c) (connected M (merge_sort ino_le saved) x)
    (kids i (merge_sort ino_le saved))) as Hall.
  { apply connected_kids; [done|]. intros s Hs%list_elem_of_In. apply list_elem_of_In.
    by rewrite merge_sort_Permutation in Hs. }
  assert (forall c k, M !! k = Some c -> (deref fs' c).(pi_ino) = k) as Hck.
  { intros c k Hck. destruct (restored_node _ _ Hck) as (lk & Hlk & _). destruct (Hd c) as (-> & _).
    by rewrite (restored_deref k c lk Hck Hlk). }
  cbn [PseudoInode_new pi_ino pi_parent pi_name pi_children app] in *. split_and!; [|done..|].
  - rewrite <- (saved_kids i l Hl). unfold inos_of. rewrite Hc. clear Hc.
    induction Hall as [|c k cs ks Hm _ IH]; [done|]. cbn [fmap list_fmap]. f_equal; [by apply Hck|done].
  - intros c Hin. rewrite Hc in Hin. apply list_elem_of_lookup in Hin as [j Hj].
    destruct (Forall2_lookup_l _ _ _ _ _ Hall Hj) as (k & _ & Hk).
    by rewrite (Hck c k Hk).
Qed.

Lemma restored_tree : tree_of fs' = tree_of fs.
Proof.
  apply map_eq. intros i. unfold tree_of. rewrite !lookup_fmap. change (ps_inodes fs') with M.
  destruct (M !! i) as [x|] eqn:Hx.
  - destruct (restored_node _ _ Hx) as (l & Hl & _). rewrite Hl. cbn [fmap option_fmap option_map].
    by destruct (restored_fields i x l Hx Hl) as (-> & -> & -> & _).
  - destruct (fs.(ps_inodes) !! i) as [l|] eqn:Hl; [|done]. destruct (restored_back _ _ Hl). congruence.
Qed.

Lemma restored_ok : ps_ok fs'.
Proof.
  destruct restored_root as (Hroot & Hroot0 & Hal). destruct restored_connect as (_ & Hr & Ha & Hh & _).
  assert (forall i x, M !! i = Some x -> is_Some (r2.1.(ps_heap) !! x)) as Hheap.
  { intros i x (l & _ & Hl)%restored_node. apply Hh. by rewrite Hl. }
  apply (same_tree_ok fs fs' Hok restored_tree); [done| | | | |];
    change (ps_inodes fs') with M; change (ps_heap fs') with r2.1.(ps_heap);
    change (ps_alloc fs') with r2.1.(ps_alloc); change (ps_root_inode fs') with r2.1.(ps_root_inode).
  - rewrite Hr. apply lookup_insert_eq.
  - intros i x Hx. destruct (restored_node _ _ Hx) as (l & Hl & _). by apply (restored_fields i x l).
  - intros x Hx. rewrite Ha. by apply Hal, Hh.
  - done.
  - intros i x c Hx Hc. destruct (restored_node _ _ Hx) as (l & Hl & _).
    by apply (restored_fields i x l Hx Hl).
Qed.

Lemma restore_saved : restore_from_state (save_to_state fs) PseudoFs_new = (fs', Ok tt).
Proof.
  destruct restored_root as (Hroot & Hroot0 & _). destruct restored_connect as (Hres & _).
  unfold restore_from_state. fold saved. fold r1. rewrite (surjective_pairing r1).
  assert ((deref r1.1 r1.1.(ps_root_inode)).(pi_ino) = ROOT_ID) as ->
    by (unfold deref; by rewrite Hroot, Hroot0).
  rewrite Hroot. fold M. rewrite (prog_bind_ok _ _ _ r2.1 tt); [done|].
  rewrite <- Hres. apply surjective_pairing.
Qed.

End restore.

Lemma restore_saved_bytes `{HO : HashOrderOk} `{SO : SnapshotOk PseudoFsState} fs d buf :
  ps_ok fs -> represents fs d -> save_to_bytes fs = Ok buf ->
  exists fs', restore_from_bytes buf PseudoFs_new = (fs', Ok tt) /\
    ps_ok fs' /\ tree_of fs' = tree_of fs /\ represents fs' d.
Proof.
  intros Hok Hrep Hsave. unfold save_to_bytes in Hsave.
  destruct (snapshot_save (save_to_state fs)) as [b|] eqn:Hb; [|done]. injection Hsave as ->.
  apply snapshot_load_save in Hb. eexists. split_and!.
  - unfold restore_from_bytes. rewrite Hb. erewrite prog_bind_ok by done. by apply restore_saved.
  - by apply restored_ok.
  - by apply restored_tree.
  - split; [apply (proj1 Hrep)|]. intros p. rewrite (proj2 Hrep). symmetry.
    pose proof (restored_ok fs Hok) as Hok'.
    apply same_tree_paths; [done|by apply restored_tree|done|apply (ok_root _ Hok')|apply (ok_ino _ Hok')|
      apply (ok_alloc _ Hok')|apply (ok_heap _ Hok')|apply (child_in_table _ Hok')].
Qed.

(** ** Claims *)

(** C28: saving the pseudo file system and restoring the bytes into a new one
    gives the same tree whatever the order in which the hash map yields its
    entries: the same inode numbers, parents, names and orders of children, the
    same counter, hence the same inode for every path. *)
Theorem save_restore `{HO : HashOrderOk} `{SO : SnapshotOk PseudoFsState} fs d buf :
  ps_ok fs -> represents fs d -> save_to_bytes fs = Ok buf ->
  exists fs', restore_from_bytes buf PseudoFs_new = (fs', Ok tt) /\
    ps_ok fs' /\ tree_of fs' = tree_of fs /\ represents fs' d.
Proof. apply restore_saved_bytes. Qed.

(** ** An order and a snapshot format, for the witness *)

Definition list_order : HashOrder := {| hash_values m := (map_to_list m).*2 |}.

Lemma list_order_ok : HashOrderOk (H := list_order).
Proof. by split. Qed.

(** A state as a number, and the number as its binary digits. *)
Definition state_tuple (s : PseudoFsState) : Z * list (Z * Z * bytes) :=
  (s.(pss_next_inode), map (fun n => (n.(pis_ino), n.(pis_parent), n.(pis_name))) s.(pss_inodes)).

Definition state_of_tuple (t : Z * list (Z * Z * bytes)) : PseudoFsState :=
  MkPseudoFsState t.1 (map (fun '(i, p, n) => MkPseudoInodeState i p n) t.2).

Fixpoint digits (p : positive) : bytes :=
  match p with xH => [] | xO p' => 0 :: digits p' | xI p' => 1 :: digits p' end.

Fixpoint of_digits (l : bytes) : positive :=
  match l with [] => xH | d :: l' => if d =? 0 then xO (of_digits l') else xI (of_digits l') end.

Lemma of_digits_digits p : of_digits (digits p) = p.
Proof. induction p as [p IH|p IH|]; cbn; by rewrite ?IH. Qed.

Definition digit_snapshot_of {T A} `{Countable A} (to : T -> A) (from : A -> T) : Snapshot T := {|
  snapshot_save s := Some (digits (encode (to s)));
  snapshot_load b := from <$> decode (of_digits b);
|}.

Lemma digit_snapshot_of_ok {T A} `{Countable A} (to : T -> A) (from : A -> T) :
  (forall x, from (to x) = x) -> SnapshotOk T (H := digit_snapshot_of to from).
Proof. intros Hx. split. intros x b [= <-]. cbn. rewrite of_digits_digits, decode_encode. cbn. by rewrite Hx. Qed.

Definition digit_snapshot : Snapshot PseudoFsState := digit_snapshot_of state_tuple state_of_tuple.

Lemma digit_snapshot_ok : SnapshotOk PseudoFsState (H := digit_snapshot).
Proof.
  apply digit_snapshot_of_ok. intros [next l]. unfold state_of_tuple, state_tuple. cbn. f_equal.
  rewrite map_map. induction l as [|[] l IH]; cbn; [done|by rewrite IH].
Qed.

Lemma save_restore_witness :
  exists buf fs', save_to_bytes (H := list_order) (H0 := digit_snapshot) example_tree = Ok buf /\
    restore_from_bytes (H := digit_snapshot) buf PseudoFs_new = (fs', Ok tt) /\
    tree_of fs' = tree_of example_tree.
Proof.
  destruct example_tree_ok as [Hok Hrep]. eexists.
  destruct (save_restore (HO := list_order_ok) (SO := digit_snapshot_ok) example_tree _ _ Hok Hrep eq_refl)
    as (fs' & Hr & _ & Ht & _).
  exists fs'. split; [reflexivity|]. by split.
Defined.
