(* ===== verification/Vfs.v ===== *)
(** * The union file system ([src/api/vfs/mod.rs], [src/api/vfs/sync_io.rs])

    [Vfs] mounts backend file systems on the directories of a [PseudoFs].  A
    backend is an instance of [BackendFileSystem]; the boxed trait objects of
    one [Vfs] are the values of one type [B], which a sum type makes as
    heterogeneous as needed.  The vector of 256 optional super blocks, always
    indexed by a [u8], is a map from indices.  [mount] and its companions run
    one at a time (the source holds a mutex); the message of an error is not
    modelled. *)

From S2P Require Import Prelude Std Lib Codec Abi AbiStruct FsTypes FileSystem PseudoFs.

Definition VFS_MAX_INO : Z := 0xffffffffffffff.
Definition VFS_INDEX_SHIFT : Z := 56.
Definition VFS_PSEUDO_FS_IDX : Z := 0.
Definition MAX_VFS_INDEX : Z := 256.
Definition CURRENT_DIR_CSTR : bytes := [46; 0].
Definition PARENT_DIR_CSTR : bytes := [46; 46; 0].
Definition SLASH_ASCII : Z := 47.

Inductive VfsError : Set :=
| VUnsupported
| VMount (e : io_error)
| VRestoreMount (e : io_error)
| VInodeIndex
| VFsIndex (e : io_error)
| VPathWalk (e : io_error)
| VNotFound
| VInitialize
| VPersist.

(** ** Names *)

Definition is_dot_or_dotdot (name : CStr) : bool :=
  let b := to_bytes_with_nul name in
  starts_with CURRENT_DIR_CSTR b || starts_with PARENT_DIR_CSTR b.

Definition is_safe_path_component (name : CStr) : bool :=
  if contains SLASH_ASCII (to_bytes_with_nul name) then false else negb (is_dot_or_dotdot name).

Definition validate_path_component (name : CStr) : io_result unit :=
  if is_safe_path_component name then Ok tt else Err (Os EINVAL).

(** ** [VfsInode]: an index in the high byte, a backend inode below *)

Definition VfsInode_new {E} (fs_idx ino : Z) : outcome E Z :=
  if Z.land ino (Z.lxor (2 ^ 64 - 1) VFS_MAX_INO) =? 0
  then Ok (Z.lor (wrap 64 (Z.shiftl fs_idx VFS_INDEX_SHIFT)) ino)
  else Panic.

Definition VfsInode_fs_idx (i : Z) : Z := wrap 8 (Z.shiftr i VFS_INDEX_SHIFT).
Definition VfsInode_is_pseudo_fs (i : Z) : bool := wrap 8 (Z.shiftr i VFS_INDEX_SHIFT) =? VFS_PSEUDO_FS_IDX.
Definition VfsInode_ino (i : Z) : Z := Z.land i VFS_MAX_INO.

(** ** Options *)

Record VfsOptions : Set := MkVfsOptions {
  no_readdir : bool;
  seal_size : bool;
  in_opts : Z;
  out_opts : Z;
  vo_id_mapping : Z * Z * Z;
  no_open : bool;
  no_opendir : bool;
  no_writeback : bool;
  killpriv_v2 : bool;
}.

Definition VfsOptions_default : VfsOptions := {|
  no_open := true;
  no_opendir := true;
  no_writeback := false;
  no_readdir := false;
  seal_size := false;
  killpriv_v2 := false;
  in_opts := empty_flags;
  out_opts := foldr Z.lor 0 [ASYNC_READ; PARALLEL_DIROPS; BIG_WRITES; ASYNC_DIO; AUTO_INVAL_DATA;
    HAS_IOCTL_DIR; WRITEBACK_CACHE; ZERO_MESSAGE_OPEN; MAX_PAGES; ATOMIC_O_TRUNC; CACHE_SYMLINKS;
    DO_READDIRPLUS; READDIRPLUS_AUTO; EXPLICIT_INVAL_DATA; ZERO_MESSAGE_OPENDIR; HANDLE_KILLPRIV_V2;
    PERFILE_DAX];
  vo_id_mapping := (0, 0, 0);
|}.

(** ** Backends *)

Class BackendFileSystem (B : Type) : Type := {
  be_fs :: FileSystem B;
  be_mount : prog B io_error (Entry * Z);
}.
#[global] Hint Mode BackendFileSystem ! : typeclass_instances.

Record MountPointData : Set := MkMountPointData {
  mp_fs_idx : Z;
  mp_ino : Z;
  mp_root_entry : Entry;
  mp_path : bytes;
}.

(** [released] is not a field of the source: it keeps the backends that were
    destroyed and given up, each in its last state. *)
Record Vfs (B : Type) : Type := MkVfs {
  next_super : Z;
  root : PseudoFs;
  mountpoints : gmap Z MountPointData;
  superblocks : gmap Z B;
  opts : VfsOptions;
  initialized : bool;
  remove_pseudo_root : bool;
  id_mapping : option (Z * Z * Z);
  released : list B;
}.
Arguments MkVfs {B}.
Arguments next_super {B}.
Arguments root {B}.
Arguments mountpoints {B}.
Arguments superblocks {B}.
Arguments opts {B}.
Arguments initialized {B}.
Arguments remove_pseudo_root {B}.
Arguments id_mapping {B}.
Arguments released {B}.

Section vfs.
Context {B : Type} {BE : BackendFileSystem B} {CK : Clock}.

Definition with_next_super (n : Z) (v : Vfs B) : Vfs B :=
  MkVfs n v.(root) v.(mountpoints) v.(superblocks) v.(opts) v.(initialized) v.(remove_pseudo_root) v.(id_mapping) v.(released).
Definition with_root (r : PseudoFs) (v : Vfs B) : Vfs B :=
  MkVfs v.(next_super) r v.(mountpoints) v.(superblocks) v.(opts) v.(initialized) v.(remove_pseudo_root) v.(id_mapping) v.(released).
Definition with_mountpoints (m : gmap Z MountPointData) (v : Vfs B) : Vfs B :=
  MkVfs v.(next_super) v.(root) m v.(superblocks) v.(opts) v.(initialized) v.(remove_pseudo_root) v.(id_mapping) v.(released).
Definition with_superblocks (s : gmap Z B) (v : Vfs B) : Vfs B :=
  MkVfs v.(next_super) v.(root) v.(mountpoints) s v.(opts) v.(initialized) v.(remove_pseudo_root) v.(id_mapping) v.(released).
Definition with_opts (o : VfsOptions) (v : Vfs B) : Vfs B :=
  MkVfs v.(next_super) v.(root) v.(mountpoints) v.(superblocks) o v.(initialized) v.(remove_pseudo_root) v.(id_mapping) v.(released).
Definition with_initialized (b : bool) (v : Vfs B) : Vfs B :=
  MkVfs v.(next_super) v.(root) v.(mountpoints) v.(superblocks) v.(opts) b v.(remove_pseudo_root) v.(id_mapping) v.(released).

Definition release (fs : B) (v : Vfs B) : Vfs B :=
  MkVfs v.(next_super) v.(root) v.(mountpoints) v.(superblocks) v.(opts) v.(initialized) v.(remove_pseudo_root) v.(id_mapping)
    (v.(released) ++ [fs]).

Definition Vfs_new (o : VfsOptions) : Vfs B := {|
  next_super := VFS_PSEUDO_FS_IDX + 1;
  root := PseudoFs_new;
  mountpoints := ∅;
  superblocks := ∅;
  opts := o;
  initialized := false;
  remove_pseudo_root := false;
  id_mapping := if o.(vo_id_mapping).2 =? 0 then None else Some o.(vo_id_mapping);
  released := [];
|}.

Definition set_remove_pseudo_root (v : Vfs B) : Vfs B :=
  MkVfs v.(next_super) v.(root) v.(mountpoints) v.(superblocks) v.(opts) v.(initialized) true v.(id_mapping) v.(released).

(** ** Inode and owner conversion *)

Definition convert_inode (fs_idx inode : Z) : io_result Z :=
  if inode =? 0 then Ok inode
  else if VFS_MAX_INO <? inode then Err (Simple Other)
  else Ok (Z.lor (wrap 64 (Z.shiftl fs_idx VFS_INDEX_SHIFT)) inode).

(** [if id >= from && id < from + range { id += to - from }] on [u32]. *)
Definition shift_id (from to range id : Z) : Z :=
  if (from <=? id) && (id <? wrap 32 (from + range)) then wrap 32 (id + wrap 32 (to - from)) else id.

Definition set_owner (uid gid : Z) (st : stat64) : stat64 :=
  {| st_dev := st.(st_dev); st_ino := st.(st_ino); st_nlink := st.(st_nlink); st_mode := st.(st_mode);
     st_uid := uid; st_gid := gid; st_rdev := st.(st_rdev); st_size := st.(st_size);
     st_blksize := st.(st_blksize); st_blocks := st.(st_blocks);
     st_atime := st.(st_atime); st_atime_nsec := st.(st_atime_nsec);
     st_mtime := st.(st_mtime); st_mtime_nsec := st.(st_mtime_nsec);
     st_ctime := st.(st_ctime); st_ctime_nsec := st.(st_ctime_nsec) |}.

Definition set_ino (ino : Z) (st : stat64) : stat64 :=
  {| st_dev := st.(st_dev); st_ino := ino; st_nlink := st.(st_nlink); st_mode := st.(st_mode);
     st_uid := st.(st_uid); st_gid := st.(st_gid); st_rdev := st.(st_rdev); st_size := st.(st_size);
     st_blksize := st.(st_blksize); st_blocks := st.(st_blocks);
     st_atime := st.(st_atime); st_atime_nsec := st.(st_atime_nsec);
     st_mtime := st.(st_mtime); st_mtime_nsec := st.(st_mtime_nsec);
     st_ctime := st.(st_ctime); st_ctime_nsec := st.(st_ctime_nsec) |}.

Definition set_entry (ino : Z) (attr : stat64) (e : Entry) : Entry :=
  {| en_inode := ino; en_generation := e.(en_generation); en_attr := attr;
     en_attr_flags := e.(en_attr_flags); en_attr_timeout := e.(en_attr_timeout);
     en_entry_timeout := e.(en_entry_timeout) |}.

(** The new value of [*entry]. *)
Definition convert_entry (v : Vfs B) (fs_idx inode : Z) (entry : Entry) : io_result Entry :=
  ino ← convert_inode fs_idx inode;
  let attr := set_ino ino entry.(en_attr) in
  let attr :=
    match v.(id_mapping) with
    | Some (internal_id, external_id, range) =>
        set_owner (shift_id internal_id external_id range attr.(st_uid))
                  (shift_id internal_id external_id range attr.(st_gid)) attr
    | None => attr
    end in
  Ok (set_entry ino attr entry).

Definition remap_attr_id (v : Vfs B) (map_internal_to_external : bool) (attr : stat64) : stat64 :=
  match v.(id_mapping) with
  | Some (internal_id, external_id, range) =>
      if map_internal_to_external
      then set_owner (shift_id internal_id external_id range attr.(st_uid))
                     (shift_id internal_id external_id range attr.(st_gid)) attr
      else set_owner (shift_id external_id internal_id range attr.(st_uid))
                     (shift_id external_id internal_id range attr.(st_gid)) attr
  | None => attr
  end.

(** ** File system indices *)

(** The loop of [allocate_fs_idx]; [next_super] is an [AtomicU8]. *)
Fixpoint allocate_loop (fuel : nat) (start : Z) (found : bool) : prog (Vfs B) io_error Z := fun v =>
  match fuel with
  | O => (v, Panic)
  | S fuel' =>
    let index := v.(next_super) in
    let v' := with_next_super (wrap 8 (index + 1)) v in
    if (index =? start) && found then (v', Err (Simple Other))
    else
      let found' := found || (index =? start) in
      if index =? VFS_PSEUDO_FS_IDX then allocate_loop fuel' start found' v'
      else match v.(superblocks) !! index with
           | Some _ => allocate_loop fuel' start found' v'
           | None => (v', Ok index)
           end
  end.

(** One turn of the counter, and the step that sees it complete. *)
Definition allocate_fs_idx : prog (Vfs B) io_error Z := fun v => allocate_loop 257 v.(next_super) false v.

Definition get_fs_by_idx (v : Vfs B) (fs_idx : Z) : io_result B :=
  match v.(superblocks) !! fs_idx with Some fs => Ok fs | None => Err (Os ENOENT) end.

(** [Either<&PseudoFs, ArcBackFs>]; a backend is designated by its index. *)
Inductive EitherFs : Set := PseudoLeft | BackRight (idx : Z).

Definition get_real_rootfs (v : Vfs B) (inode : Z) : io_result (EitherFs * Z) :=
  if VfsInode_is_pseudo_fs inode then
    match (if VfsInode_ino inode =? ROOT_ID then v.(mountpoints) !! VfsInode_ino inode else None) with
    | Some mnt =>
        _ ← get_fs_by_idx v mnt.(mp_fs_idx);
        i ← VfsInode_new mnt.(mp_fs_idx) mnt.(mp_ino);
        Ok (BackRight mnt.(mp_fs_idx), i)
    | None => Ok (PseudoLeft, inode)
    end
  else
    _ ← get_fs_by_idx v (VfsInode_fs_idx inode);
    Ok (BackRight (VfsInode_fs_idx inode), inode).

(** ** Mounting *)

Definition on_root {A} (m : prog PseudoFs io_error A) : prog (Vfs B) io_error A := fun v =>
  let '(r, o) := m v.(root) in (with_root r v, o).

(** What [insert_mount_locked] does once the directory [inode] is there. *)
Definition insert_mount_at (fs : B) (entry : Entry) (fs_idx : Z) (path : bytes) (inode : Z)
    : prog (Vfs B) io_error unit := fun v =>
  let real_root_ino := entry.(en_inode) in
  match convert_entry v fs_idx entry.(en_inode) entry with
  | Ok entry' =>
    let sb := match v.(mountpoints) !! inode with
              | Some mnt => delete mnt.(mp_fs_idx) v.(superblocks)
              | None => v.(superblocks)
              end in
    let mnt := MkMountPointData fs_idx real_root_ino entry' path in
    (with_mountpoints (<[inode := mnt]> v.(mountpoints)) (with_superblocks (<[fs_idx := fs]> sb) v), Ok tt)
  | Err e => (v, Err e)
  | Panic => (v, Panic)
  end.

Definition insert_mount_locked (fs : B) (entry : Entry) (fs_idx : Z) (path : bytes) : prog (Vfs B) io_error unit :=
  inode ← on_root (PseudoFs.mount path);
  insert_mount_at fs entry fs_idx path inode.

(** The backend handed to [mount] is dropped when the call fails. *)
Definition mount (fs : B) (path : bytes) : prog (Vfs B) VfsError Z := fun v =>
  match be_mount fs with
  | (_, Err e) => (v, Err (VMount e))
  | (_, Panic) => (v, Panic)
  | (fs, Ok (entry, ino)) =>
    if VFS_MAX_INO <? ino then
      match fs_op op_destroy fs with
      | (_, Panic) => (v, Panic)
      | (fs, _) => (release fs v, Err VInodeIndex)
      end
    else
      let '(fs, o) :=
        if v.(initialized) then
          let '(fs, o) := fs_op (op_init v.(opts).(out_opts)) fs in
          (fs, match o with Ok _ => Ok tt | Err _ => Err VInitialize | Panic => Panic end)
        else (fs, Ok tt) in
      (_ ← lift o;
       index ← prog_map_err VFsIndex allocate_fs_idx;
       _ ← prog_map_err VMount (insert_mount_locked fs entry index path);
       mret index) v
  end.

Definition restore_mount (fs : B) (fs_idx : Z) (path : bytes) : prog (Vfs B) io_error unit := fun v =>
  match be_mount fs with
  | (_, Err e) => (v, Err e)
  | (_, Panic) => (v, Panic)
  | (fs, Ok (entry, ino)) =>
    if VFS_MAX_INO <? ino then (v, Err (Simple Other))
    else insert_mount_locked fs entry fs_idx path v
  end.

(** [superblocks[fs_idx].take()] and [destroy]. *)
Definition drop_superblock {A} (fs_idx : Z) (a : A) : prog (Vfs B) VfsError A := fun v =>
  match v.(superblocks) !! fs_idx with
  | Some fs =>
    match fs_op op_destroy fs with
    | (_, Panic) => (v, Panic)
    | (fs, _) => (release fs (with_superblocks (delete fs_idx v.(superblocks)) v), Ok a)
    end
  | None => (v, Ok a)
  end.

(** [evict_inode] has no error to return. *)
Definition umount (path : bytes) : prog (Vfs B) VfsError (Z * Z) :=
  walked ← gets (fun v : Vfs B => path_walk path v.(root));
  o ← lift (map_err VPathWalk walked);
  inode ← lift (ok_or VNotFound o);
  p ← gets (fun v : Vfs B => get_parent_inode inode v.(root));
  parent ← lift (ok_or VNotFound p);
  mnt ← gets (fun v : Vfs B => v.(mountpoints) !! inode);
  x ← lift (ok_or VNotFound mnt);
  rm ← gets (fun v : Vfs B => v.(remove_pseudo_root));
  _ ← (if (rm : bool) then prog_map_err VMount (on_root (evict_inode inode)) else mret tt);
  _ ← modify (fun v => with_mountpoints (delete inode v.(mountpoints)) v);
  drop_superblock x.(mp_fs_idx) (inode, parent).

(** The backend returned, by its index. *)
Definition get_rootfs (path : bytes) (v : Vfs B) : outcome VfsError (option Z) :=
  o ← map_err VPathWalk (path_walk path v.(root));
  match o with
  | None => Ok None
  | Some inode =>
    match v.(mountpoints) !! inode with
    | Some mnt => map_err (fun _ => VNotFound) (_ ← get_fs_by_idx v mnt.(mp_fs_idx); Ok (Some mnt.(mp_fs_idx)))
    | None => Ok None
    end
  end.

Definition lookup_pseudo (v : Vfs B) (idata : Z) (name : CStr) : io_result Entry :=
  entry ← PseudoFs_lookup (VfsInode_ino idata) name v.(root);
  match v.(mountpoints) !! entry.(en_inode) with
  | Some mnt => convert_entry v mnt.(mp_fs_idx) mnt.(mp_ino) mnt.(mp_root_entry)
  | None => convert_entry v (VfsInode_fs_idx idata) entry.(en_inode) entry
  end.

End vfs.
