(* ===== verification/VfsFs.v ===== *)
(** * [impl FileSystem for Vfs] ([src/api/vfs/sync_io.rs])

    Every method finds the file system of its inode and calls the same method
    there with the inode number that file system knows; inodes and owners in
    the answer are converted on the way back. *)

From S2P Require Import Prelude Std Lib Codec Abi AbiStruct FsTypes FileSystem PseudoFs Vfs.

Section vfs_fs.
Context {B : Type} {BE : BackendFileSystem B} {CK : Clock}.

Abbreviation vprog := (prog (Vfs B) io_error).

(** ** Reaching a file system *)

(** A call on the file system [get_real_rootfs] returned. *)
Definition on_fs {A : Set} (e : EitherFs) (op : FsOp A) : vprog A := fun v =>
  match e with
  | PseudoLeft => let '(r, o) := fs_op op v.(root) in (with_root r v, o)
  | BackRight idx =>
    match v.(superblocks) !! idx with
    | Some b => let '(b', o) := fs_op op b in (with_superblocks (<[idx := b']> v.(superblocks)) v, o)
    | None => (v, Panic)
    end
  end.

Definition with_real {A} (inode : Z) (k : EitherFs -> Z -> vprog A) : vprog A := fun v =>
  match get_real_rootfs v inode with
  | Ok (e, idata) => k e idata v
  | Err e => (v, Err e)
  | Panic => (v, Panic)
  end.

(** The same call on either side. *)
Definition forward {A : Set} (inode : Z) (op : Z -> FsOp A) : vprog A :=
  with_real inode (fun e idata => on_fs e (op (VfsInode_ino idata))).

(** [self.convert_entry] on an entry of the backend behind [idata]. *)
Definition converted (idata : Z) (entry : Entry) : vprog Entry := fun v =>
  (v, convert_entry v (VfsInode_fs_idx idata) entry.(en_inode) entry).

(** A call that makes an entry: the backend's are converted. *)
Definition forward_entry (inode : Z) (op : Z -> FsOp Entry) : vprog Entry :=
  with_real inode (fun e idata =>
    match e with
    | PseudoLeft => on_fs e (op (VfsInode_ino idata))
    | BackRight _ => entry ← on_fs e (op (VfsInode_ino idata)); converted idata entry
    end).

Definition validated {A} (name : CStr) (m : vprog A) : vprog A :=
  match validate_path_component name with Ok _ => m | Err e => fail e | Panic => lift Panic end.

(** The attributes of a backend's inode, as the client sees them. *)
Definition external_attr (idata : Z) (r : stat64 * Duration) : vprog (stat64 * Duration) := fun v =>
  (v, Ok (remap_attr_id v true (set_ino idata r.1), r.2)).

(** ** [init] and [destroy] *)

Definition remove_flag (flags x : Z) : Z := Z.ldiff flags x.

Definition negotiate (o : VfsOptions) (client : Z) : VfsOptions :=
  let no_open' := if o.(no_open) then has_flag client ZERO_MESSAGE_OPEN else o.(no_open) in
  let out := if o.(no_open) then remove_flag o.(out_opts) ATOMIC_O_TRUNC
             else remove_flag o.(out_opts) ZERO_MESSAGE_OPEN in
  let no_opendir' := if o.(no_opendir) then has_flag client ZERO_MESSAGE_OPENDIR else o.(no_opendir) in
  let out := if o.(no_opendir) then out else remove_flag out ZERO_MESSAGE_OPENDIR in
  let out := if o.(no_writeback) then remove_flag out WRITEBACK_CACHE else out in
  let out := if negb o.(killpriv_v2) then remove_flag out HANDLE_KILLPRIV_V2 else out in
  {| no_readdir := o.(no_readdir); seal_size := o.(seal_size);
     in_opts := client; out_opts := Z.land out client; vo_id_mapping := o.(vo_id_mapping);
     no_open := no_open'; no_opendir := no_opendir'; no_writeback := o.(no_writeback);
     killpriv_v2 := o.(killpriv_v2) |}.

(** [for fs in superblocks.iter().flatten()], in the order of the indices. *)
Fixpoint each_super (idxs : list Z) (op : FsOp Z) : vprog unit :=
  match idxs with
  | [] => mret tt
  | idx :: idxs' => fun v =>
    match v.(superblocks) !! idx with
    | Some _ => (_ ← on_fs (BackRight idx) op; each_super idxs' op) v
    | None => each_super idxs' op v
    end
  end.

Fixpoint destroy_each (idxs : list Z) : vprog unit :=
  match idxs with
  | [] => mret tt
  | idx :: idxs' => fun v =>
    match v.(superblocks) !! idx with
    | Some _ => (_ ← on_fs (BackRight idx) op_destroy; destroy_each idxs') v
    | None => destroy_each idxs' v
    end
  end.

Definition all_indices : list Z := seqZ 0 MAX_VFS_INDEX.

Definition vfs_init (client : Z) : vprog Z := fun v =>
  if v.(initialized) then (v, Err (Os EINVAL))
  else
    let n_opts := negotiate v.(opts) client in
    (_ ← modify (with_opts n_opts);
     _ ← each_super all_indices (op_init n_opts.(out_opts));
     _ ← modify (with_initialized true);
     mret n_opts.(out_opts)) v.

Definition vfs_destroy : vprog unit := fun v =>
  if v.(initialized) then
    (_ ← destroy_each all_indices; modify (with_initialized false)) v
  else (v, Ok tt).

(** ** Names and attributes *)

Definition vfs_lookup (ctx : Context) (parent : Z) (name : CStr) : vprog Entry :=
  if contains SLASH_ASCII (to_bytes_with_nul name) then fail (Os EINVAL)
  else with_real parent (fun e idata =>
    match e with
    | PseudoLeft => fun v => (v, lookup_pseudo v idata name)
    | BackRight _ =>
      entry ← on_fs e (op_lookup ctx (VfsInode_ino idata) name);
      converted idata entry
    end).

Definition vfs_forget (ctx : Context) (inode count : Z) : vprog unit := fun v =>
  match get_real_rootfs v inode with
  | Ok (e, idata) => on_fs e (op_forget ctx (VfsInode_ino idata) count) v
  | Err _ => (v, Ok tt)
  | Panic => (v, Panic)
  end.

Definition vfs_getattr (ctx : Context) (inode : Z) (handle : option Z) : vprog (stat64 * Duration) :=
  with_real inode (fun e idata =>
    match e with
    | PseudoLeft => on_fs e (op_getattr ctx (VfsInode_ino idata) handle)
    | BackRight _ => r ← on_fs e (op_getattr ctx (VfsInode_ino idata) handle); external_attr idata r
    end).

Definition vfs_setattr (ctx : Context) (inode : Z) (attr : stat64) (handle : option Z) (valid : Z)
    : vprog (stat64 * Duration) :=
  with_real inode (fun e idata =>
    match e with
    | PseudoLeft => on_fs e (op_setattr ctx (VfsInode_ino idata) attr handle valid)
    | BackRight _ => fun v =>
      (r ← on_fs e (op_setattr ctx (VfsInode_ino idata) (remap_attr_id v false attr) handle valid);
       external_attr idata r) v
    end).

Definition vfs_readlink (ctx : Context) (inode : Z) : vprog bytes :=
  forward inode (op_readlink ctx).

Definition vfs_symlink (ctx : Context) (linkname : CStr) (parent : Z) (name : CStr) : vprog Entry :=
  validated name (forward_entry parent (fun i => op_symlink ctx linkname i name)).

Definition vfs_mknod (ctx : Context) (inode : Z) (name : CStr) (mode rdev umask : Z) : vprog Entry :=
  validated name (forward_entry inode (fun i => op_mknod ctx i name mode rdev umask)).

Definition vfs_mkdir (ctx : Context) (parent : Z) (name : CStr) (mode umask : Z) : vprog Entry :=
  validated name (forward_entry parent (fun i => op_mkdir ctx i name mode umask)).

Definition vfs_unlink (ctx : Context) (parent : Z) (name : CStr) : vprog unit :=
  validated name (forward parent (fun i => op_unlink ctx i name)).

Definition vfs_rmdir (ctx : Context) (parent : Z) (name : CStr) : vprog unit :=
  validated name (forward parent (fun i => op_rmdir ctx i name)).

(** Two inodes of one file system. *)
Definition with_both {A} (old new : Z) (k : EitherFs -> Z -> Z -> vprog A) : vprog A :=
  with_real old (fun e idata_old => with_real new (fun _ idata_new =>
    if VfsInode_fs_idx idata_old =? VfsInode_fs_idx idata_new then k e idata_old idata_new
    else fail (Os EINVAL))).

Definition vfs_rename (ctx : Context) (olddir : Z) (oldname : CStr) (newdir : Z) (newname : CStr) (flags : Z)
    : vprog unit :=
  validated oldname (validated newname (with_both olddir newdir (fun e o n =>
    on_fs e (op_rename ctx (VfsInode_ino o) oldname (VfsInode_ino n) newname flags)))).

Definition vfs_link (ctx : Context) (inode newparent : Z) (newname : CStr) : vprog Entry :=
  validated newname (with_both inode newparent (fun e o n =>
    match e with
    | PseudoLeft => on_fs e (op_link ctx (VfsInode_ino o) (VfsInode_ino n) newname)
    | BackRight _ =>
      entry ← on_fs e (op_link ctx (VfsInode_ino o) (VfsInode_ino n) newname);
      converted n entry
    end)).

(** ** Files *)

Definition vfs_open (ctx : Context) (inode flags fuse_flags : Z) : vprog (option Z * Z * option Z) := fun v =>
  if v.(opts).(no_open) then (v, Err (Os ENOSYS))
  else forward inode (fun i => op_open ctx i flags fuse_flags) v.

Definition vfs_create (ctx : Context) (parent : Z) (name : CStr) (args : CreateIn)
    : vprog (Entry * option Z * Z * option Z) :=
  validated name (with_real parent (fun e idata =>
    match e with
    | PseudoLeft => on_fs e (op_create ctx (VfsInode_ino idata) name args)
    | BackRight _ =>
      r ← on_fs e (op_create ctx (VfsInode_ino idata) name args);
      let '(a, b, c, d) := r in
      a' ← converted idata a;
      mret (a', b, c, d)
    end)).

Definition vfs_flush (ctx : Context) (inode handle lock_owner : Z) : vprog unit :=
  forward inode (fun i => op_flush ctx i handle lock_owner).

Definition vfs_fsync (ctx : Context) (inode : Z) (datasync : bool) (handle : Z) : vprog unit :=
  forward inode (fun i => op_fsync ctx i datasync handle).

Definition vfs_fallocate (ctx : Context) (inode handle mode offset length : Z) : vprog unit :=
  forward inode (fun i => op_fallocate ctx i handle mode offset length).

Definition vfs_release (ctx : Context) (inode flags handle : Z) (flush flock_release : bool)
    (lock_owner : option Z) : vprog unit :=
  forward inode (fun i => op_release ctx i flags handle flush flock_release lock_owner).

Definition vfs_statfs (ctx : Context) (inode : Z) : vprog statvfs64 :=
  forward inode (op_statfs ctx).

Definition vfs_setxattr (ctx : Context) (inode : Z) (name : CStr) (value : bytes) (flags : Z) : vprog unit :=
  validated name (forward inode (fun i => op_setxattr ctx i name value flags)).

Definition vfs_getxattr (ctx : Context) (inode : Z) (name : CStr) (size : Z) : vprog GetxattrReply :=
  validated name (forward inode (fun i => op_getxattr ctx i name size)).

Definition vfs_listxattr (ctx : Context) (inode size : Z) : vprog ListxattrReply :=
  forward inode (fun i => op_listxattr ctx i size).

Definition vfs_removexattr (ctx : Context) (inode : Z) (name : CStr) : vprog unit :=
  validated name (forward inode (fun i => op_removexattr ctx i name)).

Definition vfs_opendir (ctx : Context) (inode flags : Z) : vprog (option Z * Z) := fun v =>
  if v.(opts).(no_opendir) then (v, Err (Os ENOSYS))
  else forward inode (fun i => op_opendir ctx i flags) v.

Definition vfs_fsyncdir (ctx : Context) (inode : Z) (datasync : bool) (handle : Z) : vprog unit :=
  forward inode (fun i => op_fsyncdir ctx i datasync handle).

Definition vfs_releasedir (ctx : Context) (inode flags handle : Z) : vprog unit :=
  forward inode (fun i => op_releasedir ctx i flags handle).

Definition vfs_access (ctx : Context) (inode mask : Z) : vprog unit :=
  forward inode (fun i => op_access ctx i mask).

(** The methods [Vfs] does not define are the trait's. *)
Definition vfs_op (A : Set) (op : FsOp A) : vprog A :=
  match op in FsOp A return vprog A with
  | op_init o => vfs_init o
  | op_destroy => vfs_destroy
  | op_lookup ctx parent name => vfs_lookup ctx parent name
  | op_forget ctx inode count => vfs_forget ctx inode count
  | op_getattr ctx inode handle => vfs_getattr ctx inode handle
  | op_setattr ctx inode attr handle valid => vfs_setattr ctx inode attr handle valid
  | op_readlink ctx inode => vfs_readlink ctx inode
  | op_symlink ctx linkname parent name => vfs_symlink ctx linkname parent name
  | op_mknod ctx inode name mode rdev umask => vfs_mknod ctx inode name mode rdev umask
  | op_mkdir ctx parent name mode umask => vfs_mkdir ctx parent name mode umask
  | op_unlink ctx parent name => vfs_unlink ctx parent name
  | op_rmdir ctx parent name => vfs_rmdir ctx parent name
  | op_rename ctx olddir oldname newdir newname flags => vfs_rename ctx olddir oldname newdir newname flags
  | op_link ctx inode newparent newname => vfs_link ctx inode newparent newname
  | op_open ctx inode flags fuse_flags => vfs_open ctx inode flags fuse_flags
  | op_create ctx parent name args => vfs_create ctx parent name args
  | op_flush ctx inode handle lock_owner => vfs_flush ctx inode handle lock_owner
  | op_fsync ctx inode datasync handle => vfs_fsync ctx inode datasync handle
  | op_fallocate ctx inode handle mode offset length => vfs_fallocate ctx inode handle mode offset length
  | op_release ctx inode flags handle flush flock_release lock_owner =>
      vfs_release ctx inode flags handle flush flock_release lock_owner
  | op_statfs ctx inode => vfs_statfs ctx inode
  | op_setxattr ctx inode name value flags => vfs_setxattr ctx inode name value flags
  | op_getxattr ctx inode name size => vfs_getxattr ctx inode name size
  | op_listxattr ctx inode size => vfs_listxattr ctx inode size
  | op_removexattr ctx inode name => vfs_removexattr ctx inode name
  | op_opendir ctx inode flags => vfs_opendir ctx inode flags
  | op_fsyncdir ctx inode datasync handle => vfs_fsyncdir ctx inode datasync handle
  | op_releasedir ctx inode flags handle => vfs_releasedir ctx inode flags handle
  | op_access ctx inode mask => vfs_access ctx inode mask
  | op => default_op vfs_forget _ op
  end.

(** ** Data and directories *)

Definition vfs_read (ctx : Context) (inode handle available size offset : Z) (lock_owner : option Z)
    (flags : Z) (v : Vfs B) : Vfs B * (bytes * io_result Z) :=
  match get_real_rootfs v inode with
  | Ok (PseudoLeft, idata) =>
    let '(r, res) := fs_read ctx (VfsInode_ino idata) handle available size offset lock_owner flags v.(root) in
    (with_root r v, res)
  | Ok (BackRight idx, idata) =>
    match v.(superblocks) !! idx with
    | Some b =>
      let '(b', res) := fs_read ctx (VfsInode_ino idata) handle available size offset lock_owner flags b in
      (with_superblocks (<[idx := b']> v.(superblocks)) v, res)
    | None => (v, ([], Panic))
    end
  | Err e => (v, ([], Err e))
  | Panic => (v, ([], Panic))
  end.

Definition vfs_write (ctx : Context) (inode handle : Z) (data : bytes) (size offset : Z)
    (lock_owner : option Z) (delayed_write : bool) (flags fuse_flags : Z) : vprog Z :=
  with_real inode (fun e idata v =>
    match e with
    | PseudoLeft =>
      let '(r, o) := fs_write ctx (VfsInode_ino idata) handle data size offset lock_owner delayed_write
                       flags fuse_flags v.(root) in
      (with_root r v, o)
    | BackRight idx =>
      match v.(superblocks) !! idx with
      | Some b =>
        let '(b', o) := fs_write ctx (VfsInode_ino idata) handle data size offset lock_owner delayed_write
                          flags fuse_flags b in
        (with_superblocks (<[idx := b']> v.(superblocks)) v, o)
      | None => (v, Panic)
      end
    end).

Definition set_d_ino (ino : Z) (d : DirEntry) : DirEntry :=
  MkDirEntry ino d.(d_offset) d.(d_type) d.(d_name).

(** The closures around [add_entry]. *)
Definition readdir_pseudo_entry {X} (v : Vfs B) (idata : Z) (add_entry : add_entry_t X) : add_entry_t X :=
  fun dir_entry =>
    ino ← lift (match v.(mountpoints) !! dir_entry.(d_ino) with
                | Some mnt => convert_inode mnt.(mp_fs_idx) mnt.(mp_ino)
                | None => convert_inode (VfsInode_fs_idx idata) dir_entry.(d_ino)
                end);
    add_entry (set_d_ino ino dir_entry).

Definition readdir_backend_entry {X} (idata : Z) (add_entry : add_entry_t X) : add_entry_t X :=
  fun dir_entry =>
    new_ino ← lift (convert_inode (VfsInode_fs_idx idata) dir_entry.(d_ino));
    add_entry (set_d_ino new_ino dir_entry).

Definition readdirplus_pseudo_entry {X} (v : Vfs B) (idata : Z) (add_entry : add_entry_plus_t X)
    : add_entry_plus_t X :=
  fun dir_entry entry =>
    match v.(mountpoints) !! dir_entry.(d_ino) with
    | Some mnt =>
      ino ← lift (convert_inode mnt.(mp_fs_idx) mnt.(mp_ino));
      let entry := mnt.(mp_root_entry) in
      add_entry (set_d_ino ino dir_entry) (set_entry entry.(en_inode) (set_ino entry.(en_inode) entry.(en_attr)) entry)
    | None =>
      ino ← lift (convert_inode (VfsInode_fs_idx idata) dir_entry.(d_ino));
      add_entry (set_d_ino ino dir_entry) (set_entry ino (set_ino ino entry.(en_attr)) entry)
    end.

Definition readdirplus_backend_entry {X} (v : Vfs B) (idata : Z) (add_entry : add_entry_plus_t X)
    : add_entry_plus_t X :=
  fun dir_entry entry =>
    ino ← lift (convert_inode (VfsInode_fs_idx idata) entry.(en_inode));
    add_entry (set_d_ino ino dir_entry) (set_entry ino (remap_attr_id v true (set_ino ino entry.(en_attr))) entry).

Definition vfs_readdir {X} (ctx : Context) (inode handle size offset : Z) (add_entry : add_entry_t X)
    : prog (Vfs B * X) io_error unit := fun s =>
  let '(v, x) := s in
  match get_real_rootfs v inode with
  | Ok (PseudoLeft, idata) =>
    let '((r, x'), o) := fs_readdir ctx (VfsInode_ino idata) handle size offset
                           (readdir_pseudo_entry v idata add_entry) (v.(root), x) in
    ((with_root r v, x'), o)
  | Ok (BackRight idx, idata) =>
    match v.(superblocks) !! idx with
    | Some b =>
      let '((b', x'), o) := fs_readdir ctx (VfsInode_ino idata) handle size offset
                              (readdir_backend_entry idata add_entry) (b, x) in
      ((with_superblocks (<[idx := b']> v.(superblocks)) v, x'), o)
    | None => (s, Panic)
    end
  | Err e => (s, Err e)
  | Panic => (s, Panic)
  end.

Definition vfs_readdirplus {X} (ctx : Context) (inode handle size offset : Z) (add_entry : add_entry_plus_t X)
    : prog (Vfs B * X) io_error unit := fun s =>
  let '(v, x) := s in
  match get_real_rootfs v inode with
  | Ok (PseudoLeft, idata) =>
    let '((r, x'), o) := fs_readdirplus ctx (VfsInode_ino idata) handle size offset
                           (readdirplus_pseudo_entry v idata add_entry) (v.(root), x) in
    ((with_root r v, x'), o)
  | Ok (BackRight idx, idata) =>
    match v.(superblocks) !! idx with
    | Some b =>
      let '((b', x'), o) := fs_readdirplus ctx (VfsInode_ino idata) handle size offset
                              (readdirplus_backend_entry v idata add_entry) (b, x) in
      ((with_superblocks (<[idx := b']> v.(superblocks)) v, x'), o)
    | None => (s, Panic)
    end
  | Err e => (s, Err e)
  | Panic => (s, Panic)
  end.

(** External ids to internal ids. *)
Definition vfs_id_remap : prog (Vfs B * Context) io_error unit := fun s =>
  let '(v, ctx) := s in
  match v.(id_mapping) with
  | Some (internal_id, external_id, range) =>
    ((v, MkContext (shift_id external_id internal_id range ctx.(cx_uid))
                   (shift_id external_id internal_id range ctx.(cx_gid)) ctx.(cx_pid)), Ok tt)
  | None => ((v, ctx), Ok tt)
  end.

#[global] Instance Vfs_filesystem : FileSystem (Vfs B) := {|
  fs_op := vfs_op;
  fs_read := vfs_read;
  fs_write := vfs_write;
  fs_readdir := @vfs_readdir;
  fs_readdirplus := @vfs_readdirplus;
  fs_id_remap := vfs_id_remap;
|}.

End vfs_fs.

(** ** [persist] *)

Record VfsOptionsState : Set := MkVfsOptionsState {
  vos_in_opts : Z;
  vos_out_opts : Z;
  vos_no_readdir : bool;
  vos_seal_size : bool;
  vos_id_mapping_internal : Z;
  vos_id_mapping_external : Z;
  vos_id_mapping_range : Z;
  vos_no_open : bool;
  vos_no_opendir : bool;
  vos_no_writeback : bool;
  vos_killpriv_v2 : bool;
}.

Record VfsState : Set := MkVfsState {
  vs_options : VfsOptionsState;
  vs_root : bytes;
  vs_next_super : Z;
}.

Definition VfsOptions_save (o : VfsOptions) : VfsOptionsState := {|
  vos_in_opts := o.(in_opts);
  vos_out_opts := o.(out_opts);
  vos_no_readdir := o.(no_readdir);
  vos_seal_size := o.(seal_size);
  vos_id_mapping_internal := o.(vo_id_mapping).1.1;
  vos_id_mapping_external := o.(vo_id_mapping).1.2;
  vos_id_mapping_range := o.(vo_id_mapping).2;
  vos_no_open := o.(no_open);
  vos_no_opendir := o.(no_opendir);
  vos_no_writeback := o.(no_writeback);
  vos_killpriv_v2 := o.(killpriv_v2);
|}.

Definition VfsOptions_restore (s : VfsOptionsState) : outcome VfsError VfsOptions :=
  i ← ok_or VPersist (from_bits FsOptions_all s.(vos_in_opts));
  o ← ok_or VPersist (from_bits FsOptions_all s.(vos_out_opts));
  Ok {| in_opts := i;
        out_opts := o;
        no_readdir := s.(vos_no_readdir);
        seal_size := s.(vos_seal_size);
        vo_id_mapping := (s.(vos_id_mapping_internal), s.(vos_id_mapping_external), s.(vos_id_mapping_range));
        no_open := s.(vos_no_open);
        no_opendir := s.(vos_no_opendir);
        no_writeback := s.(vos_no_writeback);
        killpriv_v2 := s.(vos_killpriv_v2) |}.

Section vfs_persist.
Context {B : Type} {HO : HashOrder} {SP : Snapshot PseudoFsState} {SV : Snapshot VfsState}.

Definition vfs_save_to_bytes (v : Vfs B) : outcome VfsError bytes :=
  root_state ← map_err (fun _ => VPersist) (save_to_bytes v.(root));
  ok_or VPersist (snapshot_save {|
    vs_options := VfsOptions_save v.(opts);
    vs_root := root_state;
    vs_next_super := v.(next_super) |}).

Definition vfs_restore_from_bytes (buf : bytes) : prog (Vfs B) VfsError unit :=
  state ← lift (ok_or VPersist (snapshot_load buf));
  o ← lift (VfsOptions_restore state.(vs_options));
  _ ← modify (with_initialized (negb (o.(in_opts) =? 0)));
  _ ← modify (with_opts o);
  _ ← modify (with_next_super state.(vs_next_super));
  prog_map_err (fun _ => VPersist) (on_root (restore_from_bytes state.(vs_root))).

End vfs_persist.
