(* ===== verification/VfsProps.v ===== *)
(** * Facts on the union file system

    Inode numbers and the mount table, and the specification of the forwarding
    methods. *)

From stdpp Require Import sorting.
From S2P Require Import Prelude Std Lib Codec Abi AbiStruct FsTypes FileSystem PseudoFs PseudoFsProps Vfs VfsFs.

(** ** Inode numbers *)

Lemma pack_inode idx ino :
  in_u 8 idx -> 0 <= ino <= VFS_MAX_INO ->
  Z.lor (wrap 64 (Z.shiftl idx VFS_INDEX_SHIFT)) ino = idx * 2 ^ 56 + ino.
Proof.
  unfold in_u, VFS_MAX_INO, VFS_INDEX_SHIFT. intros Hidx Hino.
  rewrite wrap_small by (unfold in_u; rewrite Z.shiftl_mul_pow2 by done; lia).
  apply lor_shiftl_add; lia.
Qed.

Lemma VfsInode_parts idx ino :
  in_u 8 idx -> 0 <= ino <= VFS_MAX_INO ->
  VfsInode_fs_idx (idx * 2 ^ 56 + ino) = idx /\ VfsInode_ino (idx * 2 ^ 56 + ino) = ino.
Proof.
  unfold in_u, VfsInode_fs_idx, VfsInode_ino, VFS_INDEX_SHIFT, VFS_MAX_INO. intros Hidx Hino. split.
  - rewrite Z.shiftr_div_pow2 by done. rewrite Z.div_add_l by done. rewrite Z.div_small by lia.
    rewrite Z.add_0_r. by apply wrap_small.
  - change 0xffffffffffffff with (Z.ones 56). rewrite Z.land_ones by done.
    rewrite Z.add_comm, Z.mod_add by done. apply Z.mod_small. lia.
Qed.

Lemma VfsInode_new_ok {E} idx ino :
  in_u 8 idx -> 0 <= ino <= VFS_MAX_INO -> VfsInode_new (E := E) idx ino = Ok (idx * 2 ^ 56 + ino).
Proof.
  intros Hidx Hino. unfold VfsInode_new. rewrite pack_inode by done.
  assert (Z.land ino (Z.lxor (2 ^ 64 - 1) VFS_MAX_INO) = 0) as ->; [|done].
  change (Z.lxor (2 ^ 64 - 1) VFS_MAX_INO) with (Z.shiftl 255 56). rewrite Z.land_comm.
  unfold VFS_MAX_INO in Hino. apply land_shiftl_low; lia.
Qed.

Lemma convert_inode_ok idx ino :
  in_u 8 idx -> 0 < ino <= VFS_MAX_INO -> convert_inode idx ino = Ok (idx * 2 ^ 56 + ino).
Proof.
  intros Hidx Hino. unfold convert_inode. rewrite (proj2 (Z.eqb_neq _ _)) by lia.
  rewrite (proj2 (Z.ltb_ge _ _)) by lia. by rewrite pack_inode by (done || lia).
Qed.

(** ** Indices *)

Section alloc.
Context {B : Type}.

(** [index] cannot be handed out. *)
Definition taken (v : Vfs B) (index : Z) : Prop :=
  index = VFS_PSEUDO_FS_IDX \/ is_Some (v.(superblocks) !! index).

Lemma wrap8_round i start : in_u 8 i -> wrap 8 (start + wrap 8 (i - start)) = i.
Proof.
  intros Hi. unfold wrap. rewrite Z.add_mod_idemp_r by done.
  replace (start + (i - start)) with i by lia. by apply Z.mod_small.
Qed.

Lemma wrap8_eq start k : in_u 8 start -> 0 <= k < 256 -> (wrap 8 (start + k) =? start) = (k =? 0).
Proof.
  intros Hs Hk. unfold wrap, in_u in *. change (2 ^ 8) with 256 in *.
  destruct (Z.eqb_spec k 0) as [->|Hne].
  { rewrite Z.add_0_r, Z.mod_small by lia. apply Z.eqb_refl. }
  apply Z.eqb_neq. destruct (Z_lt_le_dec (start + k) 256).
  - rewrite Z.mod_small by lia. lia.
  - replace (start + k) with ((start + k - 256) + 1 * 256) by lia. rewrite Z.mod_add, Z.mod_small by lia. lia.
Qed.

Lemma wrap8_next start k : wrap 8 (wrap 8 (start + k) + 1) = wrap 8 (start + (k + 1)).
Proof. unfold wrap. rewrite Z.add_mod_idemp_l by done. f_equal. lia. Qed.

(** After [k] rounds the counter has moved by [k] and everything it passed was
    taken. *)
Lemma allocate_loop_spec (v : Vfs B) (start k : Z) fuel :
  in_u 8 start -> 0 <= k <= 256 -> k + Z.of_nat fuel = 257 ->
  (forall j, 0 <= j < k -> taken v (wrap 8 (start + j))) ->
  match allocate_loop fuel start (0 <? k) (with_next_super (wrap 8 (start + k)) v) with
  | (v', Ok idx) => 1 <= idx <= 255 /\ v.(superblocks) !! idx = None /\ v' = with_next_super (wrap 8 (idx + 1)) v
  | (v', Err e) =>
      e = Simple Other /\ v' = with_next_super (wrap 8 (start + 1)) v /\ forall i, 1 <= i <= 255 -> taken v i
  | (_, Panic) => False
  end.
Proof.
  intros Hs. revert k. induction fuel as [|fuel IH]; intros k Hk Hfuel Hseen; [lia|].
  cbn [allocate_loop]. cbn [with_next_super next_super superblocks].
  destruct (Z.eq_dec k 256) as [->|Hk256].
  { assert (wrap 8 (start + 256) = start) as Hw.
    { unfold wrap. change 256 with (1 * 2 ^ 8). rewrite Z.mod_add by done. by apply Z.mod_small. }
    rewrite Hw, Z.eqb_refl. cbn [andb Z.ltb Z.compare]. split_and!; [done..|]. intros i Hi.
    rewrite <- (wrap8_round i start) by (unfold in_u; lia). apply Hseen.
    pose proof (wrap_range 8 (i - start) ltac:(done)). unfold in_u in *. lia. }
  rewrite (wrap8_eq start k) by (done || lia).
  assert (((k =? 0) && (0 <? k)) = false) as -> by (destruct (Z.eqb_spec k 0), (Z.ltb_spec 0 k); done || lia).
  assert (((0 <? k) || (k =? 0)) = (0 <? k + 1)) as ->
    by (destruct (Z.eqb_spec k 0), (Z.ltb_spec 0 k), (Z.ltb_spec 0 (k + 1)); done || lia).
  rewrite wrap8_next. change (with_next_super (wrap 8 (start + (k + 1))) (with_next_super (wrap 8 (start + k)) v))
    with (with_next_super (wrap 8 (start + (k + 1))) v).
  assert (taken v (wrap 8 (start + k)) -> forall j, 0 <= j < k + 1 -> taken v (wrap 8 (start + j))) as Hstep.
  { intros Ht j Hj. destruct (Z.eq_dec j k) as [->|]; [done|]. apply Hseen. lia. }
  destruct (Z.eqb_spec (wrap 8 (start + k)) VFS_PSEUDO_FS_IDX) as [H0|H0].
  { apply IH; [lia|lia|]. apply Hstep. by left. }
  destruct (v.(superblocks) !! wrap 8 (start + k)) eqn:Hsb.
  { apply IH; [lia|lia|]. apply Hstep. right. by rewrite Hsb. }
  split_and!; [..|done|].
  - pose proof (wrap_range 8 (start + k) ltac:(done)). unfold in_u, VFS_PSEUDO_FS_IDX in *. lia.
  - pose proof (wrap_range 8 (start + k) ltac:(done)). unfold in_u in *. lia.
  - by rewrite wrap8_next.
Qed.

Lemma allocate_fs_idx_cases (v : Vfs B) :
  in_u 8 v.(next_super) ->
  match allocate_fs_idx v with
  | (v', Ok idx) => 1 <= idx <= 255 /\ v.(superblocks) !! idx = None /\ v' = with_next_super (wrap 8 (idx + 1)) v
  | (v', Err e) =>
      e = Simple Other /\ v' = with_next_super (wrap 8 (v.(next_super) + 1)) v /\
      forall i, 1 <= i <= 255 -> is_Some (v.(superblocks) !! i)
  | (_, Panic) => False
  end.
Proof.
  intros Hs. pose proof (allocate_loop_spec v v.(next_super) 0 257 Hs) as H.
  rewrite Z.add_0_r, (wrap_small 8 v.(next_super)) in H by done. unfold allocate_fs_idx.
  assert (with_next_super v.(next_super) v = v) as Hv by by destruct v. rewrite Hv in H.
  specialize (H ltac:(lia) ltac:(lia) ltac:(lia)). change (0 <? 0) with false in H.
  destruct (allocate_loop 257 v.(next_super) false v) as [v' [idx|e|]]; [done| |done].
  destruct H as (-> & -> & H). split_and!; [done..|]. intros i Hi. destruct (H i Hi) as [->|]; [|done].
  unfold VFS_PSEUDO_FS_IDX in Hi. lia.
Qed.

End alloc.

(** * Calls reach the backend of their inode

    The specification of the forwarding methods of [Vfs]: which calls reach a
    backend, as which call, and what happens to the answer. *)

(** The inodes a call names. *)
Definition op_inodes {A : Set} (op : FsOp A) : list Z :=
  match op with
  | op_lookup _ i _ | op_forget _ i _ | op_getattr _ i _ | op_setattr _ i _ _ _ | op_readlink _ i
  | op_symlink _ _ i _ | op_mknod _ i _ _ _ _ | op_mkdir _ i _ _ _ | op_unlink _ i _ | op_rmdir _ i _
  | op_open _ i _ _ | op_create _ i _ _ | op_flush _ i _ _ | op_fsync _ i _ _ | op_fallocate _ i _ _ _ _
  | op_release _ i _ _ _ _ _ | op_statfs _ i | op_setxattr _ i _ _ _ | op_getxattr _ i _ _
  | op_listxattr _ i _ | op_removexattr _ i _ | op_opendir _ i _ | op_fsyncdir _ i _ _
  | op_releasedir _ i _ _ | op_access _ i _ => [i]
  | op_rename _ i _ j _ _ | op_link _ i j _ => [i; j]
  | _ => []
  end.

Section forward.
Context {B : Type} {BE : BackendFileSystem B} {CK : Clock}.

(** The calls that reach the backend: their names pass the checks, and the
    zero-message options do not answer in its place. *)
Definition forwarded (v : Vfs B) {A : Set} (op : FsOp A) : bool :=
  match op with
  | op_lookup _ _ name => negb (contains SLASH_ASCII (to_bytes_with_nul name))
  | op_symlink _ _ _ name | op_mknod _ _ name _ _ _ | op_mkdir _ _ name _ _ | op_unlink _ _ name
  | op_rmdir _ _ name | op_link _ _ _ name | op_create _ _ name _ | op_setxattr _ _ name _ _
  | op_getxattr _ _ name _ | op_removexattr _ _ name => is_safe_path_component name
  | op_rename _ _ oldname _ newname _ => is_safe_path_component oldname && is_safe_path_component newname
  | op_open _ _ _ _ => negb v.(opts).(no_open)
  | op_opendir _ _ _ => negb v.(opts).(no_opendir)
  | op_forget _ _ _ | op_getattr _ _ _ | op_setattr _ _ _ _ _ | op_readlink _ _ | op_flush _ _ _ _
  | op_fsync _ _ _ _ | op_fallocate _ _ _ _ _ _ | op_release _ _ _ _ _ _ _ | op_statfs _ _
  | op_listxattr _ _ _ | op_fsyncdir _ _ _ _ | op_releasedir _ _ _ _ | op_access _ _ _ => true
  | _ => false
  end.

(** The call the backend sees: its own inode numbers, internal owners. *)
Definition backend_op (v : Vfs B) {A : Set} (op : FsOp A) : FsOp A :=
  match op in FsOp A return FsOp A with
  | op_lookup ctx i name => op_lookup ctx (VfsInode_ino i) name
  | op_forget ctx i count => op_forget ctx (VfsInode_ino i) count
  | op_getattr ctx i handle => op_getattr ctx (VfsInode_ino i) handle
  | op_setattr ctx i attr handle valid => op_setattr ctx (VfsInode_ino i) (remap_attr_id v false attr) handle valid
  | op_readlink ctx i => op_readlink ctx (VfsInode_ino i)
  | op_symlink ctx linkname i name => op_symlink ctx linkname (VfsInode_ino i) name
  | op_mknod ctx i name mode rdev umask => op_mknod ctx (VfsInode_ino i) name mode rdev umask
  | op_mkdir ctx i name mode umask => op_mkdir ctx (VfsInode_ino i) name mode umask
  | op_unlink ctx i name => op_unlink ctx (VfsInode_ino i) name
  | op_rmdir ctx i name => op_rmdir ctx (VfsInode_ino i) name
  | op_rename ctx i oldname j newname flags =>
      op_rename ctx (VfsInode_ino i) oldname (VfsInode_ino j) newname flags
  | op_link ctx i j newname => op_link ctx (VfsInode_ino i) (VfsInode_ino j) newname
  | op_open ctx i flags fuse_flags => op_open ctx (VfsInode_ino i) flags fuse_flags
  | op_create ctx i name args => op_create ctx (VfsInode_ino i) name args
  | op_flush ctx i handle owner => op_flush ctx (VfsInode_ino i) handle owner
  | op_fsync ctx i datasync handle => op_fsync ctx (VfsInode_ino i) datasync handle
  | op_fallocate ctx i handle mode offset length => op_fallocate ctx (VfsInode_ino i) handle mode offset length
  | op_release ctx i flags handle flush flock owner => op_release ctx (VfsInode_ino i) flags handle flush flock owner
  | op_statfs ctx i => op_statfs ctx (VfsInode_ino i)
  | op_setxattr ctx i name value flags => op_setxattr ctx (VfsInode_ino i) name value flags
  | op_getxattr ctx i name size => op_getxattr ctx (VfsInode_ino i) name size
  | op_listxattr ctx i size => op_listxattr ctx (VfsInode_ino i) size
  | op_removexattr ctx i name => op_removexattr ctx (VfsInode_ino i) name
  | op_opendir ctx i flags => op_opendir ctx (VfsInode_ino i) flags
  | op_fsyncdir ctx i datasync handle => op_fsyncdir ctx (VfsInode_ino i) datasync handle
  | op_releasedir ctx i flags handle => op_releasedir ctx (VfsInode_ino i) flags handle
  | op_access ctx i mask => op_access ctx (VfsInode_ino i) mask
  | op => op
  end.

(** What the client gets for the backend's result: entries under the index of
    the backend, attributes under the inode asked for, external owners. *)
Definition answer (v : Vfs B) {A : Set} (op : FsOp A) : A -> io_result A :=
  match op in FsOp A return A -> io_result A with
  | op_lookup _ i _ | op_symlink _ _ i _ | op_mknod _ i _ _ _ _ | op_mkdir _ i _ _ _ | op_link _ _ i _ =>
      fun e => convert_entry v (VfsInode_fs_idx i) e.(en_inode) e
  | op_create _ i _ _ => fun '(a, b, c, d) =>
      a' ← convert_entry v (VfsInode_fs_idx i) a.(en_inode) a; Ok (a', b, c, d)
  | op_getattr _ i _ | op_setattr _ i _ _ _ => fun r => Ok (remap_attr_id v true (set_ino i r.1), r.2)
  | _ => fun r => Ok r
  end.

Lemma real_rootfs_backend (v : Vfs B) inode idx b :
  VfsInode_fs_idx inode = idx -> idx <> VFS_PSEUDO_FS_IDX -> v.(superblocks) !! idx = Some b ->
  get_real_rootfs v inode = Ok (BackRight idx, inode).
Proof.
  intros Hidx Hne Hb. unfold get_real_rootfs, VfsInode_is_pseudo_fs. fold (VfsInode_fs_idx inode).
  rewrite Hidx, (proj2 (Z.eqb_neq _ _)) by done. unfold get_fs_by_idx. by rewrite Hb.
Qed.

Lemma validated_safe {A} name (m : prog (Vfs B) io_error A) : is_safe_path_component name = true -> validated name m = m.
Proof. intros H. unfold validated, validate_path_component. by rewrite H. Qed.

Lemma vfs_forward {A : Set} (op : FsOp A) (v : Vfs B) idx b :
  forwarded v op = true -> Forall (fun i => VfsInode_fs_idx i = idx) (op_inodes op) ->
  idx <> VFS_PSEUDO_FS_IDX -> v.(superblocks) !! idx = Some b ->
  vfs_op A op v =
    let '(b', o) := fs_op (backend_op v op) b in
    (with_superblocks (<[idx := b']> v.(superblocks)) v, outcome_bind o (answer v op)).
Proof.
  intros Hfw Hin Hne Hb.
  assert (forall i, VfsInode_fs_idx i = idx -> get_real_rootfs v i = Ok (BackRight idx, i)) as Hreal
    by (intros i Hi; by eapply real_rootfs_backend).
  destruct op; try discriminate; cbn [op_inodes] in Hin; apply Forall_cons in Hin as [Hi Hin];
    cbn [forwarded] in Hfw;
    try (apply Forall_cons in Hin as [Hj _]);
    cbn [vfs_op backend_op answer];
    unfold vfs_lookup, vfs_forget, vfs_getattr, vfs_setattr, vfs_readlink, vfs_symlink, vfs_mknod, vfs_mkdir,
      vfs_unlink, vfs_rmdir, vfs_rename, vfs_link, vfs_open, vfs_create, vfs_flush, vfs_fsync, vfs_fallocate,
      vfs_release, vfs_statfs, vfs_setxattr, vfs_getxattr, vfs_listxattr, vfs_removexattr, vfs_opendir,
      vfs_fsyncdir, vfs_releasedir, vfs_access;
    zify_bool; rewrite ?Hfw; rewrite ?validated_safe by done;
    unfold forward, forward_entry, with_both, with_real; rewrite ?Hreal by done;
    rewrite ?Hi, ?Hj, ?Z.eqb_refl;
    unfold on_fs, mbind, prog_mbind, prog_bind, converted, external_attr; rewrite Hb;
    destruct (fs_op _ b) as [b' [r|e|]]; rewrite ?Hi, ?Hj; try done.
  (* create *)
  destruct r as [[[a ?] ?] ?]. cbn -[convert_entry VfsInode_fs_idx]. rewrite ?Hi.
  change (convert_entry (with_superblocks _ v) idx) with (convert_entry v idx).
  by destruct (convert_entry v idx (en_inode a) a).
Qed.

End forward.
