(* ===== verification/VfsMount.v ===== *)
(** * Mount points

    The invariant that ties the mount points of [Vfs] to its super blocks and
    to the directories of the pseudo file system, and that [mount] and
    [umount] keep it. *)

From stdpp Require Import sorting.
From S2P Require Import Prelude Std Lib Codec Abi AbiStruct FsTypes FileSystem PseudoFs PseudoFsProps Vfs VfsFs VfsProps.

Section mounts.
Context {B : Type} {BE : BackendFileSystem B} {CK : Clock}.

Record vfs_ok (v : Vfs B) (d : Dirs) : Prop := {
  vok_root : ps_ok v.(root);
  vok_dirs : represents v.(root) d;
  vok_next : in_u 8 v.(next_super);
  (** a mount point is on a directory and has a backend *)
  vok_mount : forall ino mnt, v.(mountpoints) !! ino = Some mnt ->
    1 <= mnt.(mp_fs_idx) <= 255 /\ is_Some (v.(superblocks) !! mnt.(mp_fs_idx)) /\
    0 <= mnt.(mp_ino) <= VFS_MAX_INO /\ exists p, d.(dirs_map) !! p = Some ino;
  (** no backend is mounted twice *)
  vok_unique : forall i j mi mj, v.(mountpoints) !! i = Some mi -> v.(mountpoints) !! j = Some mj ->
    mi.(mp_fs_idx) = mj.(mp_fs_idx) -> i = j;
  (** no backend without a mount point *)
  vok_owned : forall idx b, v.(superblocks) !! idx = Some b ->
    exists ino mnt, v.(mountpoints) !! ino = Some mnt /\ mnt.(mp_fs_idx) = idx;
}.

Lemma vfs_new_ok o : vfs_ok (Vfs_new o) Dirs_new.
Proof.
  split; cbn; try done; [apply PseudoFs_new_ok|apply PseudoFs_new_represents].
Qed.

Lemma vfs_ok_next v d n : in_u 8 n -> vfs_ok v d -> vfs_ok (with_next_super n v) d.
Proof. intros Hn [H1 H2 H3 H4 H5 H6]. by split. Qed.

Lemma release_ok b v d : vfs_ok v d -> vfs_ok (release b v) d.
Proof. intros [H1 H2 H3 H4 H5 H6]. by split. Qed.

(** The super blocks without the one mounted on [inode]. *)
Definition evicted (v : Vfs B) (inode : Z) : gmap Z B :=
  match v.(mountpoints) !! inode with
  | Some mnt => delete mnt.(mp_fs_idx) v.(superblocks)
  | None => v.(superblocks)
  end.

Lemma evicted_some (v : Vfs B) inode i b :
  evicted v inode !! i = Some b <->
  v.(superblocks) !! i = Some b /\ forall m, v.(mountpoints) !! inode = Some m -> m.(mp_fs_idx) <> i.
Proof.
  unfold evicted. destruct (v.(mountpoints) !! inode) as [m|].
  - rewrite lookup_delete_Some. naive_solver.
  - naive_solver.
Qed.

(** Replacing what is mounted on a directory by a new backend. *)
Lemma insert_mount_ok v d d' r inode fs fs_idx entry path entry' :
  vfs_ok v d -> ps_ok r -> represents r d' -> dirs_sub d d' -> (exists p, d'.(dirs_map) !! p = Some inode) ->
  1 <= fs_idx <= 255 -> v.(superblocks) !! fs_idx = None -> 0 <= entry.(en_inode) <= VFS_MAX_INO ->
  convert_entry v fs_idx entry.(en_inode) entry = Ok entry' ->
  exists v', insert_mount_at fs entry fs_idx path inode (with_root r v) = (v', Ok tt) /\ vfs_ok v' d' /\
    v'.(root) = r /\
    v'.(mountpoints) = <[inode := MkMountPointData fs_idx entry.(en_inode) entry' path]> v.(mountpoints) /\
    v'.(superblocks) = <[fs_idx := fs]> (evicted v inode).
Proof.
  intros [Hroot Hdirs Hnext Hmnt Huniq Hown] Hr Hrep Hsub Hp Hidx Hfree Hino Hconv.
  unfold insert_mount_at. change (convert_entry (with_root r v)) with (convert_entry v). rewrite Hconv.
  set (mnt := MkMountPointData _ _ _ _). cbn [with_root mountpoints superblocks]. fold (evicted v inode).
  eexists. split_and!; [done| |done..].
  assert (forall i m, v.(mountpoints) !! i = Some m -> m.(mp_fs_idx) <> fs_idx) as Hfresh.
  { intros i m Hm Heq. destruct (Hmnt i m Hm) as (_ & [b Hb] & _). congruence. }
  split; cbn [root next_super mountpoints superblocks with_root with_mountpoints with_superblocks]; try done.
  - intros i m [[<- <-]|[Hi Hm]]%lookup_insert_Some.
    + split_and!; cbn; [lia..|by rewrite lookup_insert_eq|lia|lia|done].
    + destruct (Hmnt i m Hm) as (Hrange & [b Hb] & Hino' & [p Hpd]). split_and!; [lia..| |lia|lia|].
      * rewrite lookup_insert_ne by (intros Heq; by eapply Hfresh). exists b. apply evicted_some. split; [done|].
        intros m' Hm' Heq. apply Hi. by eapply Huniq.
      * exists p. by eapply lookup_weaken.
  - intros i j mi mj [[<- <-]|[Hi Hmi]]%lookup_insert_Some [[<- <-]|[Hj Hmj]]%lookup_insert_Some Heq;
      [done|..|by eapply Huniq].
    + symmetry in Heq. by destruct (Hfresh j mj Hmj).
    + by destruct (Hfresh i mi Hmi).
  - intros idx b [[<- <-]|[Hi Hb]]%lookup_insert_Some.
    + exists inode, mnt. split; [apply lookup_insert_eq|done].
    + apply evicted_some in Hb as [Hb Hne]. destruct (Hown idx b Hb) as (i & m & Hm & <-).
      exists i, m. split; [|done]. rewrite lookup_insert_ne; [done|]. intros <-. by eapply Hne.
Qed.

Lemma convert_entry_total (v : Vfs B) fs_idx e :
  e.(en_inode) <= VFS_MAX_INO -> exists e', convert_entry v fs_idx e.(en_inode) e = Ok e'.
Proof.
  intros He. unfold convert_entry, convert_inode. destruct (_ =? 0); [by eexists|].
  rewrite (proj2 (Z.ltb_ge _ _)) by lia. by eexists.
Qed.

(** A backend that can be mounted: [mount] answers, the inode range fits, and
    [init] answers when the client is already there. *)
Definition mountable (v : Vfs B) (fs fs' : B) (entry : Entry) : Prop :=
  exists fs1 max, be_mount fs = (fs1, Ok (entry, max)) /\ max <= VFS_MAX_INO /\
    0 <= entry.(en_inode) <= VFS_MAX_INO /\
    (if v.(initialized) then exists w, fs_op (op_init v.(opts).(out_opts)) fs1 = (fs', Ok w) else fs' = fs1).

Lemma vfs_mount_spec v d fs fs' entry path :
  vfs_ok v d -> mountable v fs fs' entry -> to_str path = Ok path -> has_root path = true ->
  v.(root).(ps_next_inode) + normals (components path) <= U64_MAX ->
  (exists i, 1 <= i <= 255 /\ v.(superblocks) !! i = None) ->
  let '(d', cur) := spec_mount d [] (components path) in
  exists v' idx inode, mount fs path v = (v', Ok idx) /\ vfs_ok v' d' /\
    d'.(dirs_map) !! cur = Some inode /\ v.(superblocks) !! idx = None /\ 1 <= idx <= 255 /\
    v'.(superblocks) = <[idx := fs']> (evicted v inode) /\
    exists mnt, v'.(mountpoints) = <[inode := mnt]> v.(mountpoints) /\ mnt.(mp_fs_idx) = idx /\
      mnt.(mp_ino) = entry.(en_inode).
Proof.
  intros Hok (fs1 & max & Hbe & Hmax & Hino & Hinit) Hu Hr Hnum (i & Hi & Hfree).
  pose proof (mount_spec v.(root) d path (vok_root _ _ Hok) (vok_dirs _ _ Hok) Hu Hr Hnum) as Hm.
  pose proof (spec_mount_sub d [] (components path)) as Hsub.
  destruct (spec_mount d [] (components path)) as [d' cur]. cbn [fst] in Hsub.
  destruct Hm as (r & inode & Hm & Hrok & Hrep & Hcur).
  pose proof (allocate_fs_idx_cases v (vok_next _ _ Hok)) as Halloc.
  destruct (allocate_fs_idx v) as [va [idx|e|]] eqn:Ha; [| |done].
  2:{ destruct Halloc as (_ & _ & Hall). destruct (Hall i Hi). congruence. }
  destruct Halloc as (Hidx & Hidxf & ->).
  assert (in_u 8 (wrap 8 (idx + 1))) as Hn by by apply wrap_range.
  destruct (convert_entry_total (with_next_super (wrap 8 (idx + 1)) v) idx entry) as [entry' Hconv]; [lia|].
  destruct (insert_mount_ok (with_next_super (wrap 8 (idx + 1)) v) d d' r inode fs' idx entry path entry')
    as (v' & Hins & Hok' & Hroot & Hmp & Hsb); [by apply vfs_ok_next|done..|by exists cur|done|done|done|done|].
  exists v', idx, inode. split_and!; [|done..|lia|lia|done|by eexists].
  unfold mount. rewrite Hbe. rewrite (proj2 (Z.ltb_ge _ _)) by lia.
  assert ((if v.(initialized) then
      let '(fs, o) := fs_op (op_init v.(opts).(out_opts)) fs1 in
      (fs, match o with Ok _ => Ok tt | Err _ => Err VInitialize | Panic => Panic end)
    else (fs1, Ok tt)) = (fs', Ok tt)) as ->.
  { destruct v.(initialized); [by destruct Hinit as [w ->]|by rewrite Hinit]. }
  erewrite prog_bind_ok by done. unfold prog_map_err. erewrite prog_bind_ok by by rewrite Ha.
  erewrite prog_bind_ok; [done|]. unfold insert_mount_locked.
  erewrite (prog_bind_ok _ _ _ (with_root r _)) by (unfold on_root; cbn; by rewrite Hm). by rewrite Hins.
Qed.

(** ** What is mounted on a path *)

Lemma get_rootfs_spec v d path :
  vfs_ok v d -> to_str path = Ok path -> has_root path = true ->
  get_rootfs path v = Ok (ino ← spec_walk d [] (components path); mp_fs_idx <$> v.(mountpoints) !! ino).
Proof.
  intros Hok Hu Hr. unfold get_rootfs.
  rewrite (path_walk_spec _ d) by first [done|apply (vok_root _ _ Hok)|apply (vok_dirs _ _ Hok)]. rewrite Hr.
  cbn [map_err mbind outcome_mbind outcome_bind]. destruct (spec_walk d [] (components path)) as [ino|]; [|done]. cbn.
  destruct (v.(mountpoints) !! ino) as [mnt|] eqn:Hm; [|done].
  destruct (vok_mount _ _ Hok _ _ Hm) as (_ & [b Hb] & _). unfold get_fs_by_idx. by rewrite Hb.
Qed.

(** Taking a mount point and its backend away. *)
Lemma unmount_ok v d inode mnt :
  vfs_ok v d -> v.(mountpoints) !! inode = Some mnt ->
  vfs_ok (with_superblocks (delete mnt.(mp_fs_idx) v.(superblocks))
           (with_mountpoints (delete inode v.(mountpoints)) v)) d.
Proof.
  intros [Hroot Hdirs Hnext Hmnt Huniq Hown] Hm.
  split; cbn [root next_super mountpoints superblocks with_mountpoints with_superblocks]; try done.
  - intros i m [Hi Hmi]%lookup_delete_Some. destruct (Hmnt i m Hmi) as (Hr & Hb & Hino & Hp).
    split_and!; [lia..| |lia|lia|done]. rewrite lookup_delete_ne; [done|]. intros Heq. apply Hi.
    by eapply Huniq.
  - intros i j mi mj [_ Hi]%lookup_delete_Some [_ Hj]%lookup_delete_Some. by apply Huniq.
  - intros idx b [Hi Hb]%lookup_delete_Some. destruct (Hown idx b Hb) as (j & mj & Hj & <-).
    exists j, mj. split; [|done]. rewrite lookup_delete_ne; [done|]. intros ->. by rewrite Hm in Hj; injection Hj as ->.
Qed.

(** The directory of a mount point can go when it is empty. *)
Lemma evict_mount_ok v d p inode r :
  vfs_ok v d -> d.(dirs_map) !! p = Some inode -> v.(mountpoints) !! inode = None ->
  ps_ok r -> represents r (MkDirs d.(dirs_next) (delete p d.(dirs_map))) ->
  vfs_ok (with_root r v) (MkDirs d.(dirs_next) (delete p d.(dirs_map))).
Proof.
  intros [Hroot Hdirs Hnext Hmnt Huniq Hown] Hp Hnone Hr Hrep. split; cbn [root with_root next_super]; try done.
  intros i m Hm. destruct (Hmnt i m Hm) as (Hrange & Hb & Hino & [q Hq]). split_and!; try done; try lia.
  exists q. cbn. rewrite lookup_delete_ne; [done|]. intros <-.
  cbn in Hm. congruence.
Qed.

(** The directories after [umount]: the option decides whether the one of the
    mount point stays. *)
Definition umounted (v : Vfs B) (d : Dirs) (p : list bytes) : Dirs :=
  if v.(remove_pseudo_root) then MkDirs d.(dirs_next) (delete p d.(dirs_map)) else d.

Lemma vfs_umount_spec v d path p inode mnt b :
  vfs_ok v d -> to_str path = Ok path -> has_root path = true ->
  spec_walk d [] (components path) = Some inode -> d.(dirs_map) !! p = Some inode ->
  v.(mountpoints) !! inode = Some mnt -> v.(superblocks) !! mnt.(mp_fs_idx) = Some b ->
  (fs_op op_destroy b).2 <> Panic ->
  (v.(remove_pseudo_root) = true -> p <> [] /\ forall n, d.(dirs_map) !! (p ++ [n]) = None) ->
  exists v' parent, umount path v = (v', Ok (inode, parent)) /\ get_parent_inode inode v.(root) = Some parent /\
    vfs_ok v' (umounted v d p) /\
    v'.(mountpoints) = delete inode v.(mountpoints) /\
    v'.(superblocks) = delete mnt.(mp_fs_idx) v.(superblocks) /\
    v'.(released) = v.(released) ++ [(fs_op op_destroy b).1].
Proof.
  intros Hok Hu Hr Hwalk Hp Hm Hb Hdestroy Hleaf.
  assert (exists parent, get_parent_inode inode v.(root) = Some parent) as [parent Hparent].
  { destruct (proj2 (in_table_iff v.(root) d inode (vok_root _ _ Hok) (vok_dirs _ _ Hok))) as [l Hl]; [by exists p|].
    unfold get_parent_inode. rewrite Hl. by eexists. }
  assert (exists r, (if v.(remove_pseudo_root) then prog_map_err VMount (on_root (evict_inode inode)) else mret tt) v
      = (with_root r v, Ok tt) /\ ps_ok r /\ represents r (umounted v d p)) as (r & Hev & Hrok & Hrep).
  { unfold umounted. destruct v.(remove_pseudo_root) eqn:Hrm.
    - destruct (Hleaf eq_refl) as [Hpn Hl].
      destruct (evict_leaf v.(root) d p inode (vok_root _ _ Hok) (vok_dirs _ _ Hok) Hp Hpn Hl)
        as (r & He & Hrok & Hrep). exists r. unfold prog_map_err, on_root. by rewrite He.
    - exists v.(root). split_and!; [by destruct v|apply (vok_root _ _ Hok)|apply (vok_dirs _ _ Hok)]. }
  set (v1 := with_superblocks (delete mnt.(mp_fs_idx) v.(superblocks))
               (with_mountpoints (delete inode v.(mountpoints)) v)).
  exists (with_root r (release (fs_op op_destroy b).1 v1)), parent. split_and!; [|done| |done..].
  - unfold umount. erewrite prog_bind_ok by done.
    rewrite (path_walk_spec _ d) by first [done|apply (vok_root _ _ Hok)|apply (vok_dirs _ _ Hok)].
    rewrite Hr, Hwalk. cbn [map_err].
    erewrite prog_bind_ok by done. cbn [ok_or]. erewrite prog_bind_ok by done.
    erewrite prog_bind_ok by done. rewrite Hparent. erewrite prog_bind_ok by done.
    erewrite prog_bind_ok by done. rewrite Hm. erewrite prog_bind_ok by done.
    erewrite prog_bind_ok by done. rewrite (prog_bind_ok _ _ _ _ _ Hev).
    erewrite prog_bind_ok by done. unfold drop_superblock. cbn [superblocks with_mountpoints with_root].
    rewrite Hb. by destruct (fs_op op_destroy b) as [b' [[]|e|]].
  - apply (release_ok _ (with_root r v1)). pose proof (unmount_ok v d inode mnt Hok Hm) as Hok1. fold v1 in Hok1.
    unfold umounted in *. destruct v.(remove_pseudo_root) eqn:Hrm.
    + eapply evict_mount_ok; [done..| |done|done]. apply lookup_delete_eq.
    + by destruct Hok1; split.
Qed.

End mounts.
