(* ===== verification/VfsClaims.v ===== *)
(** * What the union file system guarantees

    Inode numbers, indices, mount points, forwarding, owner mapping,
    negotiation and persistence. *)

From stdpp Require Import sorting.
From S2P Require Import Prelude Std Lib Codec Abi AbiStruct FsTypes FileSystem PseudoFs PseudoFsProps PseudoPersist.
From S2P Require Import Vfs VfsFs VfsProps VfsMount.

(** ** A backend for the witnesses *)

(** It remembers the [init]s and [forget]s it got; everything belongs to
    [toy_uid], and a lookup finds the next inode. *)
Record ToyFs : Type := MkToyFs {
  toy_uid : Z;
  toy_inits : list Z;
  toy_forgets : list (Z * Z);
}.

Definition toy_entry (f : ToyFs) (ino : Z) : Entry := {|
  en_inode := ino; en_generation := 0;
  en_attr := set_owner f.(toy_uid) f.(toy_uid) (set_ino ino stat64_zeroed);
  en_attr_flags := 0; en_attr_timeout := Duration_default; en_entry_timeout := Duration_default |}.

Definition toy_forget (ctx : Context) (inode count : Z) : prog ToyFs io_error unit := fun f =>
  (MkToyFs f.(toy_uid) f.(toy_inits) (f.(toy_forgets) ++ [(inode, count)]), Ok tt).

Definition toy_op (A : Set) (op : FsOp A) : prog ToyFs io_error A :=
  match op in FsOp A return prog ToyFs io_error A with
  | op_init o => fun f => (MkToyFs f.(toy_uid) (f.(toy_inits) ++ [o]) f.(toy_forgets), Ok o)
  | op_forget ctx inode count => toy_forget ctx inode count
  | op_lookup ctx parent name => fun f => (f, Ok (toy_entry f (parent + 1)))
  | op_getattr ctx inode handle => fun f => (f, Ok (en_attr (toy_entry f inode), Duration_default))
  | op => default_op toy_forget _ op
  end.

#[global] Instance ToyFs_filesystem : FileSystem ToyFs := {|
  fs_op := toy_op;
  fs_read := default_read;
  fs_write := default_write;
  fs_readdir := @default_readdir ToyFs;
  fs_readdirplus := @default_readdirplus ToyFs;
  fs_id_remap := default_id_remap;
|}.

#[global] Instance ToyFs_backend : BackendFileSystem ToyFs := {|
  be_mount f := (f, Ok (toy_entry f 1, 100));
|}.

#[local] Instance vfs_clock : Clock := {| now_secs := 1700000000 |}.

Definition toy (uid : Z) : ToyFs := MkToyFs uid [] [].

(** A backend on ["/a"]. *)
Definition toy_vfs (o : VfsOptions) (uid : Z) : Vfs ToyFs := (mount (toy uid) (bs "/a") (Vfs_new o)).1.
Definition example_vfs : Vfs ToyFs := toy_vfs VfsOptions_default 0.
Definition example_vfs_dirs : Dirs := (spec_mount Dirs_new [] (components (bs "/a"))).1.

Lemma toy_mountable uid (v : Vfs ToyFs) :
  v.(initialized) = false -> mountable v (toy uid) (toy uid) (toy_entry (toy uid) 1).
Proof. intros Hi. exists (toy uid), 100. by rewrite Hi. Qed.

Lemma toy_vfs_ok o uid : vfs_ok (toy_vfs o uid) example_vfs_dirs.
Proof.
  pose proof (vfs_mount_spec (Vfs_new o) Dirs_new (toy uid) (toy uid) (toy_entry (toy uid) 1) (bs "/a")
    (vfs_new_ok _) (toy_mountable uid (Vfs_new o) eq_refl) eq_refl eq_refl) as H.
  unfold toy_vfs, example_vfs_dirs.
  destruct (spec_mount Dirs_new [] (components (bs "/a"))) as [d' cur].
  destruct H as (v' & idx & inode & -> & Hok & _); [by vm_compute|by exists 1|done].
Qed.

Lemma example_vfs_ok : vfs_ok example_vfs example_vfs_dirs.
Proof. apply toy_vfs_ok. Qed.

(** ** Claims *)

(** C39: VFS inode numbers.  The index of a file system and an inode number of
    up to 56 bits go into one 64-bit number and come back out of it, so
    different backends and different inodes never collide; index 0 is the
    pseudo file system; 0 stays 0, and larger inode numbers are refused. *)
Theorem convert_inode_roundtrip idx ino :
  in_u 8 idx -> in_u 64 ino ->
  match convert_inode idx ino with
  | Ok i =>
      in_u 64 i /\ ino <= VFS_MAX_INO /\
      (ino = 0 /\ i = 0 \/
       VfsInode_fs_idx i = idx /\ VfsInode_ino i = ino /\ VfsInode_is_pseudo_fs i = (idx =? 0) /\
       VfsInode_new (E := io_error) idx ino = Ok i)
  | Err _ => VFS_MAX_INO < ino
  | Panic => False
  end.
Proof.
  intros Hidx [Hi0 Hi1]. destruct (Z.eq_dec ino 0) as [->|Hne]; [by split_and!; try left|].
  destruct (Z_lt_le_dec VFS_MAX_INO ino) as [Hlt|Hle].
  { unfold convert_inode. rewrite (proj2 (Z.eqb_neq _ _)), (proj2 (Z.ltb_lt _ _)) by lia. done. }
  rewrite convert_inode_ok by (done || lia). destruct (VfsInode_parts idx ino) as [Hp1 Hp2]; [done|lia|].
  split_and!; [unfold in_u, VFS_MAX_INO in *; lia..|]. right. split_and!; [done..| |by apply VfsInode_new_ok].
  unfold VfsInode_is_pseudo_fs. fold (VfsInode_fs_idx (idx * 2 ^ 56 + ino)). by rewrite Hp1.
Qed.

Lemma convert_inode_roundtrip_witness :
  convert_inode 3 7 = Ok 0x300000000000007 /\ VfsInode_fs_idx 0x300000000000007 = 3.
Proof.
  pose proof (convert_inode_roundtrip 3 7 ltac:(done) ltac:(done)) as H.
  destruct (convert_inode 3 7) as [i|e|] eqn:Hc; [|done|done].
  vm_compute in Hc. injection Hc as <-. destruct H as (_ & _ & [[H _]|[H _]]); done.
Defined.

(** [allocate_fs_idx] terminates and gives out an index between 1 and 255
    that has no super block, and fails only when all 255 are in use. *)
Theorem allocate_fs_idx_spec {B} (v : Vfs B) :
  in_u 8 v.(next_super) ->
  match allocate_fs_idx v with
  | (v', Ok idx) => 1 <= idx <= 255 /\ v.(superblocks) !! idx = None /\ v' = with_next_super (wrap 8 (idx + 1)) v
  | (v', Err e) =>
      e = Simple Other /\ v' = with_next_super (wrap 8 (v.(next_super) + 1)) v /\
      forall i, 1 <= i <= 255 -> is_Some (v.(superblocks) !! i)
  | (_, Panic) => False
  end.
Proof. apply allocate_fs_idx_cases. Qed.

Lemma allocate_fs_idx_spec_witness :
  match allocate_fs_idx (with_next_super 255 example_vfs) with
  | (_, Ok idx) => idx = 255 | _ => False
  end.
Proof.
  pose proof (allocate_fs_idx_spec (with_next_super 255 example_vfs) ltac:(by vm_compute)) as H.
  destruct (allocate_fs_idx (with_next_super 255 example_vfs)) as [v' [idx|e|]] eqn:Ha; [|done|done].
  vm_compute in Ha. by injection Ha as _ <-.
Defined.

(** C3: [mount] keeps the mount points consistent: it makes the directory,
    gives the backend an unused index, and from then on the path leads to it;
    a file system that was mounted there loses its index, every other one
    keeps its own. *)
Theorem vfs_mount_correct {B : Type} `{BE : BackendFileSystem B} (v : Vfs B) d fs fs' entry path :
  vfs_ok v d -> mountable v fs fs' entry -> to_str path = Ok path -> has_root path = true ->
  v.(root).(ps_next_inode) + normals (components path) <= U64_MAX ->
  (exists i, 1 <= i <= 255 /\ v.(superblocks) !! i = None) ->
  exists v' d' idx, mount fs path v = (v', Ok idx) /\ vfs_ok v' d' /\ dirs_sub d d' /\
    1 <= idx <= 255 /\ v.(superblocks) !! idx = None /\ v'.(superblocks) !! idx = Some fs' /\
    get_rootfs path v' = Ok (Some idx) /\
    (forall j b, v.(superblocks) !! j = Some b ->
       v'.(superblocks) !! j = Some b \/
       v'.(superblocks) !! j = None /\
       exists ino, (mp_fs_idx <$> v.(mountpoints) !! ino) = Some j /\
         (mp_fs_idx <$> v'.(mountpoints) !! ino) = Some idx).
Proof.
  intros Hok Hmt Hu Hr Hnum Hfree.
  pose proof (vfs_mount_spec v d fs fs' entry path Hok Hmt Hu Hr Hnum Hfree) as H.
  pose proof (spec_mount_sub d [] (components path)) as Hsub.
  pose proof (fun d2 => spec_walk_mounted d d2 [] (components path)) as Hwalk.
  destruct (spec_mount d [] (components path)) as [d' cur]. cbn [fst snd] in *.
  destruct H as (v' & idx & inode & Hm & Hok' & Hcur & Hidxf & Hidx & Hsb & mnt & Hmp & Hmi & _).
  exists v', d', idx. split_and!; [done..|lia|lia|done| | |].
  - rewrite Hsb. apply lookup_insert_eq.
  - rewrite (get_rootfs_spec v' d' path) by done. rewrite Hwalk by (unfold dirs_sub; reflexivity).
    rewrite Hcur. cbn. rewrite Hmp, lookup_insert_eq. cbn. by rewrite Hmi.
  - intros j b Hj. rewrite Hsb. assert (idx <> j) as Hne by congruence. rewrite lookup_insert_ne by done.
    destruct (evicted v inode !! j) as [b'|] eqn:He.
    { left. apply evicted_some in He as [He _]. congruence. }
    right. split; [done|]. unfold evicted in He. destruct (v.(mountpoints) !! inode) as [m|] eqn:Hmm; [|congruence].
    apply lookup_delete_None in He as [He|He]; [|congruence]. exists inode.
    rewrite Hmm, Hmp, lookup_insert_eq. cbn. by rewrite He, Hmi.
Qed.

Lemma vfs_mount_correct_witness :
  exists v' idx, mount (toy 7) (bs "/b/c") example_vfs = (v', Ok idx) /\
    get_rootfs (bs "/b/c") v' = Ok (Some idx) /\ v'.(superblocks) !! idx = Some (toy 7).
Proof.
  destruct (vfs_mount_correct example_vfs example_vfs_dirs (toy 7) (toy 7) (toy_entry (toy 7) 1) (bs "/b/c")
    example_vfs_ok) as (v' & d' & idx & H1 & _ & _ & _ & _ & H2 & H3 & _).
  - apply toy_mountable. by vm_compute.
  - by vm_compute.
  - by vm_compute.
  - by vm_compute.
  - exists 9. split; [lia|by vm_compute].
  - by exists v', idx.
Defined.

(** C32: [umount] takes back what [mount] put on a path: the mount point and
    its backend go, the backend is given up in the state in which its method
    [destroy] left it, whether that succeeds or fails, the inode of the directory
    and its parent are returned, and the rest stays consistent.  With the option
    to remove pseudo directories, the directory, which must be empty and not the
    root, goes too. *)
Theorem vfs_umount_correct {B : Type} `{BE : BackendFileSystem B} (v : Vfs B) d path p inode mnt b :
  vfs_ok v d -> to_str path = Ok path -> has_root path = true ->
  spec_walk d [] (components path) = Some inode -> d.(dirs_map) !! p = Some inode ->
  v.(mountpoints) !! inode = Some mnt -> v.(superblocks) !! mnt.(mp_fs_idx) = Some b ->
  (fs_op op_destroy b).2 <> Panic ->
  (v.(remove_pseudo_root) = true -> p <> [] /\ forall n, d.(dirs_map) !! (p ++ [n]) = None) ->
  exists v' parent, umount path v = (v', Ok (inode, parent)) /\ get_parent_inode inode v.(root) = Some parent /\
    vfs_ok v' (umounted v d p) /\
    v'.(mountpoints) = delete inode v.(mountpoints) /\
    v'.(superblocks) = delete mnt.(mp_fs_idx) v.(superblocks) /\
    v'.(released) = v.(released) ++ [(fs_op op_destroy b).1].
Proof. apply vfs_umount_spec. Qed.

Lemma vfs_umount_correct_witness :
  exists v' parent, umount (bs "/a") example_vfs = (v', Ok (2, parent)) /\ v'.(superblocks) = delete 1 example_vfs.(superblocks) /\
    v'.(released) = [(fs_op op_destroy (toy 0)).1].
Proof.
  destruct (vfs_umount_correct example_vfs example_vfs_dirs (bs "/a") [bs "a"] 2
    (MkMountPointData 1 1 (set_entry 0x100000000000001 (set_ino 0x100000000000001 stat64_zeroed) (toy_entry (toy 0) 1)) (bs "/a"))
    (toy 0) example_vfs_ok) as (v' & parent & H1 & _ & _ & _ & H2 & H3); [by vm_compute..|].
  by exists v', parent.
Defined.

(** C4: forwarding.  A call on an inode of a mounted backend that passes the
    checks of [Vfs] runs exactly one call on that backend, the same one with
    the backend's own inode numbers and internal owners, and touches nothing
    else; inodes in the answer get the index of the backend, and owners are
    mapped back. *)
Theorem vfs_forwards {B : Type} `{BE : BackendFileSystem B} `{CK : Clock} {A : Set} (op : FsOp A) (v : Vfs B) idx b :
  forwarded v op = true -> Forall (fun i => VfsInode_fs_idx i = idx) (op_inodes op) ->
  idx <> VFS_PSEUDO_FS_IDX -> v.(superblocks) !! idx = Some b ->
  vfs_op A op v =
    let '(b', o) := fs_op (backend_op v op) b in
    (with_superblocks (<[idx := b']> v.(superblocks)) v, outcome_bind o (answer v op)).
Proof. apply vfs_forward. Qed.

Lemma vfs_forwards_witness :
  vfs_op unit (op_forget Context_new 0x100000000000005 2) example_vfs =
    (with_superblocks (<[1 := MkToyFs 0 [] [(5, 2)]]> example_vfs.(superblocks)) example_vfs, Ok tt).
Proof.
  rewrite (vfs_forwards (op_forget Context_new 0x100000000000005 2) example_vfs 1 (toy 0));
    [done|by vm_compute|by repeat constructor|done|by vm_compute].
Defined.
