(* ===== verification/VfsService.v ===== *)
(** * What the union file system answers

    Names, lookups across mount points, owners, negotiation and persistence. *)

From stdpp Require Import sorting.
From S2P Require Import Prelude Std Lib Codec Abi AbiStruct FsTypes FileSystem PseudoFs PseudoFsProps PseudoFsClaims.
From S2P Require Import PseudoPersist Vfs VfsFs VfsProps VfsMount VfsClaims.

(** ** Names *)

Lemma starts_with_nul t s :
  cstr_ok t = true -> cstr_ok s = true -> starts_with (t ++ [0]) (s ++ [0]) = true <-> s = t.
Proof.
  unfold cstr_ok. revert s.
  induction t as [|c t IH]; intros [|x s] Ht Hs; cbn [forallb app starts_with] in *; [done| | |];
    rewrite ?andb_true_iff, ?negb_true_iff, ?Z.eqb_neq in Ht; rewrite ?andb_true_iff, ?negb_true_iff, ?Z.eqb_neq in Hs.
  - split; [|done]. by rewrite (proj2 (Z.eqb_neq 0 x)) by tauto.
  - split; [|done]. by rewrite (proj2 (Z.eqb_neq c 0)) by naive_solver.
  - rewrite andb_true_iff, Z.eqb_eq, IH by tauto. naive_solver.
Qed.

Lemma contains_elem b l : contains b l = true <-> b ∈ l.
Proof.
  unfold contains. rewrite existsb_exists. split.
  - intros (x & Hx & <-%Z.eqb_eq). by apply list_elem_of_In.
  - intros H%list_elem_of_In. exists b. split; [done|apply Z.eqb_refl].
Qed.

(** ** Owners *)

Definition set_ids (uid gid : Z) (ctx : Context) : Context := MkContext uid gid ctx.(cx_pid).

Lemma shift_id_roundtrip from to range id :
  0 <= from -> 0 <= to -> from + range < 2 ^ 32 -> to + range < 2 ^ 32 -> from <= id < from + range ->
  to <= shift_id from to range id < to + range /\ shift_id to from range (shift_id from to range id) = id.
Proof.
  intros Hf Ht Hfr Htr Hid.
  assert (forall a b i, 0 <= a -> 0 <= b -> a + range < 2 ^ 32 -> b + range < 2 ^ 32 -> a <= i < a + range ->
    shift_id a b range i = i + (b - a)) as Hshift.
  { intros a b i Ha Hb Har Hbr Hi. unfold shift_id. rewrite (wrap_small 32 (a + range)) by (unfold in_u; lia).
    rewrite (proj2 (Z.leb_le _ _)), (proj2 (Z.ltb_lt _ _)) by lia. cbn [andb]. unfold wrap.
    rewrite Z.add_mod_idemp_r by done. rewrite Z.mod_small by lia. lia. }
  rewrite (Hshift from to) by done. rewrite (Hshift to from) by lia. lia.
Qed.

(** ** Initialisation *)

Section init.
Context {B : Type} {BE : BackendFileSystem B}.

(** A backend after a call. *)
Definition after_op {A : Set} (op : FsOp A) (b : B) : B := (fs_op op b).1.

Definition op_succeeds {A : Set} (op : FsOp A) (b : B) : Prop := exists a, (fs_op op b).2 = Ok a.

Lemma each_super_spec {CK : Clock} op idxs (v : Vfs B) :
  NoDup idxs -> (forall i b, i ∈ idxs -> v.(superblocks) !! i = Some b -> op_succeeds op b) ->
  exists sb, each_super idxs op v = (with_superblocks sb v, Ok tt) /\
    forall i, sb !! i = if decide (i ∈ idxs) then after_op op <$> v.(superblocks) !! i else v.(superblocks) !! i.
Proof.
  intros Hnd. revert v. induction Hnd as [|idx idxs Hnin Hnd IH]; intros v Hall.
  { exists v.(superblocks). split; [by destruct v|]. intros i. by rewrite decide_False by by apply not_elem_of_nil. }
  assert (forall i, i <> idx -> (i ∈ idx :: idxs <-> i ∈ idxs)) as Hin by set_solver.
  cbn [each_super]. destruct (v.(superblocks) !! idx) as [b|] eqn:Hb.
  - destruct (Hall idx b) as [a Ha]; [by left|done|].
    destruct (IH (with_superblocks (<[idx := after_op op b]> v.(superblocks)) v)) as (sb & Hrun & Hsb).
    { cbn [superblocks with_superblocks]. intros i b' Hi [[<- <-]|[_ Hl]]%lookup_insert_Some; [done|]. apply (Hall i); [by right|done]. }
    exists sb. split.
    + erewrite prog_bind_ok; [exact Hrun|]. unfold on_fs. rewrite Hb. unfold after_op.
      destruct (fs_op op b) as [b' o]. cbn in Ha. by rewrite Ha.
    + intros i. rewrite Hsb. cbn [superblocks with_superblocks]. destruct (decide (i = idx)) as [->|Hne].
      * rewrite decide_False, decide_True, lookup_insert_eq, Hb by (done || by left). done.
      * rewrite lookup_insert_ne by done. by rewrite (decide_ext (i ∈ idx :: idxs) (i ∈ idxs)) by by apply Hin.
  - destruct (IH v) as (sb & Hrun & Hsb).
    { intros i b' Hi Hl. apply (Hall i); [by right|done]. }
    exists sb. split; [done|]. intros i. rewrite Hsb. destruct (decide (i = idx)) as [->|Hne].
    + rewrite decide_False, decide_True by (done || by left). by rewrite Hb.
    + by rewrite (decide_ext (i ∈ idx :: idxs) (i ∈ idxs)) by by apply Hin.
Qed.

End init.

(** ** Claims *)

(** [validate_path_component] accepts exactly the names without a slash
    that are neither ["."] nor [".."]; the others are [EINVAL]. *)
Theorem validate_path_component_spec name :
  cstr_ok name = true ->
  match validate_path_component name with
  | Ok _ => (SLASH_ASCII ∉ name) /\ name <> bs "." /\ name <> bs ".."
  | Err e => e = Os EINVAL /\ (SLASH_ASCII ∈ name \/ name = bs "." \/ name = bs "..")
  | Panic => False
  end.
Proof.
  intros Hn. unfold validate_path_component, is_safe_path_component, is_dot_or_dotdot, to_bytes_with_nul.
  pose proof (starts_with_nul (bs ".") name eq_refl Hn) as Hdot.
  pose proof (starts_with_nul (bs "..") name eq_refl Hn) as Hddot.
  change (bs "." ++ [0]) with CURRENT_DIR_CSTR in Hdot. change (bs ".." ++ [0]) with PARENT_DIR_CSTR in Hddot.
  assert (contains SLASH_ASCII (name ++ [0]) = true <-> SLASH_ASCII ∈ name) as Hslash.
  { rewrite contains_elem, elem_of_app, list_elem_of_singleton. unfold SLASH_ASCII. intuition lia. }
  destruct (contains _ _); cbn [negb]; [split; [done|left; by apply Hslash]|].
  destruct (starts_with CURRENT_DIR_CSTR _); cbn [orb negb]; [split; [done|]; right; left; by apply Hdot|].
  destruct (starts_with PARENT_DIR_CSTR _); cbn [negb]; [split; [done|]; right; right; by apply Hddot|].
  split_and!; [by intros ?%Hslash|by intros ?%Hdot|by intros ?%Hddot].
Qed.

Lemma validate_path_component_spec_witness : validate_path_component (bs "..x") = Ok tt.
Proof.
  pose proof (validate_path_component_spec (bs "..x") eq_refl) as H.
  destruct (validate_path_component (bs "..x")) as [[]|e|] eqn:Hv; [done| |done].
  vm_compute in Hv. discriminate.
Defined.

(** Owners.  With a mapping of [range] owners that fits [u32], an owner of
    the backend's range is shown to the client as one of the client's range,
    and when the client sends it back, as the owner of a request or in a
    SETATTR, it is the backend's owner again. *)
Theorem owner_roundtrip {B : Type} (v : Vfs B) internal external range st ctx :
  v.(id_mapping) = Some (internal, external, range) -> 0 <= internal -> 0 <= external ->
  internal + range < 2 ^ 32 -> external + range < 2 ^ 32 ->
  internal <= st.(st_uid) < internal + range -> internal <= st.(st_gid) < internal + range ->
  let seen := remap_attr_id v true st in
  external <= seen.(st_uid) < external + range /\ external <= seen.(st_gid) < external + range /\
  remap_attr_id v false seen = st /\
  vfs_id_remap (v, set_ids seen.(st_uid) seen.(st_gid) ctx) = ((v, set_ids st.(st_uid) st.(st_gid) ctx), Ok tt).
Proof.
  intros Hm Hi He Hir Her Hu Hg. unfold remap_attr_id, vfs_id_remap. rewrite Hm. cbn.
  destruct (shift_id_roundtrip internal external range st.(st_uid)) as [Hu1 ->]; [done..|].
  destruct (shift_id_roundtrip internal external range st.(st_gid)) as [Hg1 ->]; [done..|].
  split_and!; try lia; [by destruct st|done].
Qed.

Lemma owner_roundtrip_witness :
  let v := MkVfs (B := ToyFs) 1 PseudoFs_new ∅ ∅ VfsOptions_default false false (Some (1000, 0, 65536)) [] in
  vfs_id_remap (v, set_ids 500 500 Context_new) = ((v, set_ids 1500 1500 Context_new), Ok tt).
Proof.
  pose proof (owner_roundtrip
    (MkVfs (B := ToyFs) 1 PseudoFs_new ∅ ∅ VfsOptions_default false false (Some (1000, 0, 65536)) [])
    1000 0 65536 (set_owner 1500 1500 stat64_zeroed) Context_new eq_refl ltac:(lia) ltac:(lia) ltac:(lia) ltac:(lia)
    ltac:(cbn; lia) ltac:(cbn; lia)) as (_ & _ & _ & H).
  exact H.
Defined.

(** ** Lookups in the pseudo file system *)

Lemma convert_entry_inode {B} (v : Vfs B) idx ino e :
  in_u 8 idx -> 0 < ino <= VFS_MAX_INO ->
  exists e', convert_entry v idx ino e = Ok e' /\
    e'.(en_inode) = idx * 2 ^ 56 + ino /\ e'.(en_attr).(st_ino) = idx * 2 ^ 56 + ino.
Proof.
  intros Hidx Hino. unfold convert_entry. rewrite convert_inode_ok by done. cbn [mbind outcome_mbind outcome_bind].
  eexists. split_and!; [done|done|]. by destruct (v.(id_mapping)) as [[[] ?]|].
Qed.

(** What LOOKUP of a name in a pseudo directory comes down to. *)
Lemma vfs_lookup_pseudo {B : Type} `{BE : BackendFileSystem B} `{CK : Clock}
    (v : Vfs B) d ctx p parent name n ino :
  vfs_ok v d -> 0 <= now_secs -> d.(dirs_map) !! p = Some parent -> parent <= VFS_MAX_INO ->
  (parent = ROOT_ID -> v.(mountpoints) !! parent = None) ->
  to_str name = Ok n -> contains SLASH_ASCII (to_bytes_with_nul name) = false ->
  spec_lookup d p n = Some ino ->
  exists e0, vfs_lookup ctx parent name v =
    (v, match v.(mountpoints) !! ino with
        | Some mnt => convert_entry v mnt.(mp_fs_idx) mnt.(mp_ino) mnt.(mp_root_entry)
        | None => convert_entry v 0 ino e0
        end).
Proof.
  intros Hok Hclock Hp Hmax Hroot Hn Hslash Hino.
  assert (0 < parent) as Hpos.
  { destruct (proj2 (in_table_iff v.(root) d parent (vok_root _ _ Hok) (vok_dirs _ _ Hok))) as [l Hl]; [by exists p|].
    pose proof (ok_range _ (vok_root _ _ Hok) _ _ Hl). unfold ROOT_ID in *. lia. }
  destruct (VfsInode_parts 0 parent) as [Hp0 Hp1]; [done|lia|]. rewrite Z.mul_0_l, Z.add_0_l in Hp0, Hp1.
  assert (get_real_rootfs v parent = Ok (PseudoLeft, parent)) as Hreal.
  { unfold get_real_rootfs, VfsInode_is_pseudo_fs. fold (VfsInode_fs_idx parent). rewrite Hp0, Hp1.
    change (0 =? VFS_PSEUDO_FS_IDX) with true. cbn iota.
    destruct (Z.eqb_spec parent ROOT_ID) as [Heq|]; [by rewrite Hroot|done]. }
  assert (exists e0, get_entry ino = Ok e0 /\ e0.(en_inode) = ino) as (e0 & He0 & He0i).
  { unfold get_entry. rewrite (proj2 (Z.ltb_ge _ _)) by lia. by eexists. }
  exists e0. unfold vfs_lookup. rewrite Hslash. unfold with_real. rewrite Hreal. f_equal.
  unfold lookup_pseudo. rewrite Hp1, (lookup_spec v.(root) d p parent name (vok_root _ _ Hok) (vok_dirs _ _ Hok) Hp).
  rewrite Hn, Hino, He0. cbn [mbind outcome_mbind outcome_bind]. rewrite He0i. by rewrite Hp0.
Qed.

(** LOOKUP in a directory of the pseudo file system.  The name of a
    directory with nothing mounted on it gives that directory; the name of a
    mount point gives the root of its backend, under the backend's index, so
    that calls on the answered inode reach the backend with its own number.
    Nothing changes. *)
Theorem lookup_crosses_mount {B : Type} `{BE : BackendFileSystem B} `{CK : Clock}
    (v : Vfs B) d ctx p parent name n ino :
  vfs_ok v d -> 0 <= now_secs -> d.(dirs_map) !! p = Some parent -> parent <= VFS_MAX_INO ->
  (parent = ROOT_ID -> v.(mountpoints) !! parent = None) ->
  to_str name = Ok n -> contains SLASH_ASCII (to_bytes_with_nul name) = false ->
  spec_lookup d p n = Some ino -> 0 < ino <= VFS_MAX_INO ->
  (forall mnt, v.(mountpoints) !! ino = Some mnt -> 0 < mnt.(mp_ino)) ->
  exists e, vfs_lookup ctx parent name v = (v, Ok e) /\ e.(en_attr).(st_ino) = e.(en_inode) /\
    match v.(mountpoints) !! ino with
    | None => e.(en_inode) = ino
    | Some mnt =>
        get_real_rootfs v e.(en_inode) = Ok (BackRight mnt.(mp_fs_idx), e.(en_inode)) /\
        VfsInode_ino e.(en_inode) = mnt.(mp_ino)
    end.
Proof.
  intros Hok Hclock Hp Hmax Hroot Hn Hslash Hino Hrange Hmpino.
  destruct (vfs_lookup_pseudo v d ctx p parent name n ino) as [e0 ->]; [done..|].
  destruct (v.(mountpoints) !! ino) as [mnt|] eqn:Hm.
  - destruct (vok_mount _ _ Hok _ _ Hm) as (Hidx & [b Hb] & Hmi & _). specialize (Hmpino mnt eq_refl).
    assert (in_u 8 mnt.(mp_fs_idx)) as Hu8 by (unfold in_u; lia).
    destruct (convert_entry_inode v mnt.(mp_fs_idx) mnt.(mp_ino) mnt.(mp_root_entry)) as (e & -> & He1 & He2); [done|lia|].
    destruct (VfsInode_parts mnt.(mp_fs_idx) mnt.(mp_ino)) as [Hq0 Hq1]; [done|lia|].
    exists e. rewrite He2, He1. split_and!; [done..| |done].
    eapply real_rootfs_backend; [done| |done]. unfold VFS_PSEUDO_FS_IDX. lia.
  - destruct (convert_entry_inode v 0 ino e0) as (e & He & He1 & He2); [done|lia|]. rewrite He.
    exists e. rewrite He2, He1. split_and!; [done..|lia].
Qed.

Lemma lookup_crosses_mount_witness :
  exists e, vfs_lookup (CK := vfs_clock) Context_new 1 (bs "a") example_vfs = (example_vfs, Ok e) /\
    VfsInode_ino e.(en_inode) = 1.
Proof.
  destruct (lookup_crosses_mount (CK := vfs_clock) example_vfs example_vfs_dirs Context_new [] 1 (bs "a") (bs "a") 2
    example_vfs_ok) as (e & H1 & _ & H2).
  - done.
  - by vm_compute.
  - done.
  - intros _. by vm_compute.
  - by vm_compute.
  - done.
  - by vm_compute.
  - done.
  - intros mnt Hm. vm_compute in Hm. by injection Hm as <-.
  - exists e. split; [exact H1|]. clear H1.
    destruct (example_vfs.(mountpoints) !! 2) as [mnt|] eqn:Hm; vm_compute in Hm; [|discriminate].
    injection Hm as <-. apply H2.
Defined.

(** INIT.  The options granted are options the client offered and the
    server wants; every mounted backend is initialised once, with the options
    granted; the rest of the file system stays as it is, and a second INIT is
    refused. *)
Theorem vfs_init_correct {B : Type} `{BE : BackendFileSystem B} `{CK : Clock} (v : Vfs B) d client :
  vfs_ok v d -> v.(initialized) = false ->
  let o := negotiate v.(opts) client in
  (forall i b, v.(superblocks) !! i = Some b -> op_succeeds (op_init o.(out_opts)) b) ->
  let v' := with_initialized true (with_superblocks (after_op (op_init o.(out_opts)) <$> v.(superblocks)) (with_opts o v)) in
  vfs_init client v = (v', Ok o.(out_opts)) /\ vfs_ok v' d /\ vfs_init client v' = (v', Err (Os EINVAL)) /\
  Z.land o.(out_opts) client = o.(out_opts) /\ Z.land o.(out_opts) v.(opts).(out_opts) = o.(out_opts).
Proof.
  intros Hok Hinit o Hall v'.
  assert (forall i b, v.(superblocks) !! i = Some b -> i ∈ all_indices) as Hin.
  { intros i b Hb. destruct (vok_owned _ _ Hok i b Hb) as (ino & mnt & Hm & <-).
    destruct (vok_mount _ _ Hok _ _ Hm) as (Hr & _). apply elem_of_seqZ. unfold MAX_VFS_INDEX. lia. }
  split_and!.
  - unfold vfs_init. rewrite Hinit. fold o. erewrite prog_bind_ok by done.
    destruct (each_super_spec (op_init o.(out_opts)) all_indices (with_opts o v)) as (sb & Hrun & Hsb).
    { apply NoDup_seqZ. } { intros i b _. apply Hall. }
    erewrite prog_bind_ok by exact Hrun. erewrite prog_bind_ok by done. unfold v'.
    assert (sb = after_op (op_init o.(out_opts)) <$> v.(superblocks)) as ->; [|done].
    apply map_eq. intros i. rewrite Hsb, lookup_fmap. cbn [superblocks with_opts].
    destruct (decide (i ∈ all_indices)) as [|Hni]; [done|].
    destruct (v.(superblocks) !! i) eqn:Hb; [|done]. by destruct (Hni (Hin i _ Hb)).
  - destruct Hok as [H1 H2 H3 H4 H5 H6]. split; try done.
    + intros i m Hm. destruct (H4 i m Hm) as (Hr & [b Hb] & Hi' & Hp). split_and!; [lia|lia| |lia|lia|done].
      cbn. rewrite lookup_fmap, Hb. by eexists.
    + cbn. intros i b. rewrite lookup_fmap. intros [b0 [Hb0 _]]%fmap_Some. by eapply H6.
  - done.
  - unfold o, negotiate. cbn [out_opts]. by rewrite <- Z.land_assoc, Z.land_diag.
  - apply Z.bits_inj'. intros n _. unfold o, negotiate, remove_flag. cbn [out_opts].
    destruct v.(opts).(no_open), v.(opts).(no_opendir), v.(opts).(no_writeback), v.(opts).(killpriv_v2);
      cbn [negb]; rewrite !Z.land_spec, ?Z.ldiff_spec;
      by destruct (Z.testbit v.(opts).(out_opts) n); rewrite ?andb_true_r, ?andb_false_r.
Qed.

Lemma vfs_init_correct_witness :
  vfs_init (CK := vfs_clock) ASYNC_READ example_vfs =
    (with_initialized true (with_superblocks {[1 := MkToyFs 0 [ASYNC_READ] []]}
       (with_opts (negotiate VfsOptions_default ASYNC_READ) example_vfs)), Ok ASYNC_READ).
Proof.
  destruct (vfs_init_correct (CK := vfs_clock) example_vfs example_vfs_dirs ASYNC_READ example_vfs_ok eq_refl)
    as (H & _); [|exact H].
  intros i b. unfold op_succeeds. by eexists.
Defined.

Lemma convert_entry_owner {B} (v : Vfs B) internal external range idx ino e e' :
  v.(id_mapping) = Some (internal, external, range) -> convert_entry v idx ino e = Ok e' ->
  e'.(en_attr).(st_uid) = shift_id internal external range e.(en_attr).(st_uid).
Proof.
  intros Hm. unfold convert_entry. rewrite Hm. destruct (convert_inode idx ino); [|done|done].
  cbn [mbind outcome_mbind outcome_bind]. by intros [= <-].
Qed.

(** The root of a backend has one owner, and yet two are reported: [mount]
    stores the root's entry with its owner mapped, and LOOKUP of the mount point
    maps it again, while GETATTR on the inode it returns maps it once. *)
Theorem lookup_owner_mapped_twice {B : Type} `{BE : BackendFileSystem B} `{CK : Clock}
    (v : Vfs B) d ctx p parent name n ino mnt b b' t entry internal external range :
  vfs_ok v d -> 0 <= now_secs -> d.(dirs_map) !! p = Some parent -> parent <= VFS_MAX_INO ->
  (parent = ROOT_ID -> v.(mountpoints) !! parent = None) ->
  to_str name = Ok n -> contains SLASH_ASCII (to_bytes_with_nul name) = false ->
  spec_lookup d p n = Some ino -> v.(mountpoints) !! ino = Some mnt -> 0 < mnt.(mp_ino) ->
  convert_entry v mnt.(mp_fs_idx) mnt.(mp_ino) entry = Ok mnt.(mp_root_entry) ->
  v.(superblocks) !! mnt.(mp_fs_idx) = Some b ->
  fs_op (op_getattr ctx mnt.(mp_ino) None) b = (b', Ok (entry.(en_attr), t)) ->
  v.(id_mapping) = Some (internal, external, range) ->
  let map_owner := shift_id internal external range in
  exists e st,
    vfs_lookup ctx parent name v = (v, Ok e) /\
    (vfs_getattr ctx e.(en_inode) None v).2 = Ok (st, t) /\
    st.(st_uid) = map_owner entry.(en_attr).(st_uid) /\
    e.(en_attr).(st_uid) = map_owner (map_owner entry.(en_attr).(st_uid)).
Proof.
  intros Hok Hclock Hp Hmax Hroot Hn Hslash Hino Hm Hpos Hconv Hb Hget Hid map_owner.
  destruct (vfs_lookup_pseudo v d ctx p parent name n ino) as [e0 ->]; [done..|]. rewrite Hm.
  destruct (vok_mount _ _ Hok _ _ Hm) as (Hidx & _ & Hmi & _).
  destruct (VfsInode_parts mnt.(mp_fs_idx) mnt.(mp_ino)) as [Hq0 Hq1]; [unfold in_u; lia|lia|].
  destruct (convert_entry_inode v mnt.(mp_fs_idx) mnt.(mp_ino) mnt.(mp_root_entry)) as (e & He & He1 & _);
    [unfold in_u; lia|lia|].
  rewrite He. eexists e, _. split_and!; [done| |cbn|].
  - unfold vfs_getattr, with_real. rewrite He1.
    erewrite real_rootfs_backend by (done || unfold VFS_PSEUDO_FS_IDX; lia).
    rewrite Hq1. unfold on_fs, mbind, prog_mbind, prog_bind. rewrite Hb, Hget. cbn. reflexivity.
  - unfold remap_attr_id. cbn. by rewrite Hid.
  - rewrite (convert_entry_owner v internal external range _ _ _ _ Hid He).
    by rewrite (convert_entry_owner v internal external range _ _ _ _ Hid Hconv).
Qed.

Definition mapped_options : VfsOptions := MkVfsOptions false false 0 0 (0, 1000, 2000) true true false false.

Lemma lookup_owner_mapped_twice_witness :
  exists e st t, let v := toy_vfs mapped_options 5 in
    vfs_lookup (CK := vfs_clock) Context_new 1 (bs "a") v = (v, Ok e) /\
    (vfs_getattr (CK := vfs_clock) Context_new e.(en_inode) None v).2 = Ok (st, t) /\
    st.(st_uid) = 1005 /\ e.(en_attr).(st_uid) = 2005.
Proof.
  destruct ((toy_vfs mapped_options 5).(mountpoints) !! 2) as [mnt|] eqn:Hm; vm_compute in Hm; [|discriminate].
  destruct (lookup_owner_mapped_twice (CK := vfs_clock) (toy_vfs mapped_options 5) example_vfs_dirs Context_new [] 1
    (bs "a") (bs "a") 2 mnt (toy 5) (toy 5) Duration_default (toy_entry (toy 5) 1) 0 1000 2000 (toy_vfs_ok _ _))
    as (e & st & H1 & H2 & H3 & H4).
  - done.
  - by vm_compute.
  - done.
  - intros _. by vm_compute.
  - by vm_compute.
  - done.
  - by vm_compute.
  - rewrite <- Hm. by vm_compute.
  - by injection Hm as <-.
  - injection Hm as <-. by vm_compute.
  - injection Hm as <-. by vm_compute.
  - injection Hm as <-. by vm_compute.
  - by vm_compute.
  - exists e, st, Duration_default. split_and!; [exact H1|exact H2|rewrite H3|rewrite H4]; by vm_compute.
Defined.

(** ** Persistence *)

(** C38: [save_to_bytes] and [restore_from_bytes] into a new file system give
    back the options, the next index and every directory of the pseudo file
    system with its inode, with nothing mounted; the client's INIT is
    remembered.  The mapping of owners in use is the one the new file system
    was made with, even where the options restored have another. *)
Theorem vfs_save_restore {B : Type} `{HO : HashOrderOk} `{SP : SnapshotOk PseudoFsState} `{SV : SnapshotOk VfsState}
    (v : Vfs B) d buf o :
  vfs_ok v d -> vfs_save_to_bytes v = Ok buf ->
  from_bits FsOptions_all v.(opts).(in_opts) = Some v.(opts).(in_opts) ->
  from_bits FsOptions_all v.(opts).(out_opts) = Some v.(opts).(out_opts) ->
  exists v', vfs_restore_from_bytes buf (Vfs_new o) = (v', Ok tt) /\ vfs_ok (B := B) v' d /\
    v'.(opts) = v.(opts) /\ v'.(next_super) = v.(next_super) /\ v'.(mountpoints) = ∅ /\ v'.(superblocks) = ∅ /\
    v'.(initialized) = negb (v.(opts).(in_opts) =? 0) /\
    v'.(id_mapping) = (if o.(vo_id_mapping).2 =? 0 then None else Some o.(vo_id_mapping)).
Proof.
  intros Hok Hsave Hin Hout. unfold vfs_save_to_bytes in Hsave.
  destruct (save_to_bytes v.(root)) as [rb|e|] eqn:Hr; [|done|done]. cbn in Hsave.
  destruct (snapshot_save _) as [b|] eqn:Hs; [|done]. injection Hsave as ->. apply snapshot_load_save in Hs.
  destruct (restore_saved_bytes v.(root) d rb (vok_root _ _ Hok) (vok_dirs _ _ Hok) Hr) as (r & Hrr & Hrok & _ & Hrep).
  assert (VfsOptions_restore (VfsOptions_save v.(opts)) = Ok v.(opts)) as Ho.
  { unfold VfsOptions_restore, VfsOptions_save. cbn [vos_in_opts vos_out_opts]. rewrite Hin, Hout.
    by destruct v.(opts) as [? ? ? ? [[] ?]]. }
  eexists. split.
  - unfold vfs_restore_from_bytes. rewrite Hs. erewrite prog_bind_ok by done. cbn [vs_options]. rewrite Ho.
    erewrite prog_bind_ok by done. erewrite prog_bind_ok by done. erewrite prog_bind_ok by done.
    erewrite prog_bind_ok by done. cbn [vs_root vs_next_super]. unfold prog_map_err, on_root.
    cbn [root with_next_super with_opts with_initialized Vfs_new]. rewrite Hrr. done.
  - split_and!; [|done..]. split; try done. apply (vok_next _ _ Hok).
Qed.

Definition vfs_state_tuple (s : VfsState) : (Z * Z * bool * bool * (Z * Z * Z) * (bool * bool * bool * bool)) * bytes * Z :=
  let o := s.(vs_options) in
  ((o.(vos_in_opts), o.(vos_out_opts), o.(vos_no_readdir), o.(vos_seal_size),
    (o.(vos_id_mapping_internal), o.(vos_id_mapping_external), o.(vos_id_mapping_range)),
    (o.(vos_no_open), o.(vos_no_opendir), o.(vos_no_writeback), o.(vos_killpriv_v2))), s.(vs_root), s.(vs_next_super)).

Definition vfs_state_of_tuple (t : (Z * Z * bool * bool * (Z * Z * Z) * (bool * bool * bool * bool)) * bytes * Z) : VfsState :=
  let '((i, o, r, s, (a, b, c), (p, q, w, k)), root, next) := t in
  MkVfsState (MkVfsOptionsState i o r s a b c p q w k) root next.

Definition vfs_snapshot : Snapshot VfsState := digit_snapshot_of vfs_state_tuple vfs_state_of_tuple.

Lemma vfs_snapshot_ok : SnapshotOk VfsState (H := vfs_snapshot).
Proof. apply digit_snapshot_of_ok. by intros [[] ? ?]. Qed.

(** Saved with a mapping of owners, restored without one. *)
Lemma vfs_save_restore_witness :
  exists buf v', vfs_save_to_bytes (HO := list_order) (SP := digit_snapshot) (SV := vfs_snapshot)
      (toy_vfs mapped_options 5) = Ok buf /\
    vfs_restore_from_bytes (B := ToyFs) (SP := digit_snapshot) (SV := vfs_snapshot) buf (Vfs_new VfsOptions_default)
      = (v', Ok tt) /\
    v'.(opts).(vo_id_mapping) = (0, 1000, 2000) /\ v'.(id_mapping) = None.
Proof.
  eexists.
  destruct (vfs_save_restore (HO := list_order_ok) (SP := digit_snapshot_ok) (SV := vfs_snapshot_ok)
    (toy_vfs mapped_options 5) example_vfs_dirs _ VfsOptions_default (toy_vfs_ok _ _) eq_refl eq_refl eq_refl)
    as (v' & Hr & _ & Ho & _ & _ & _ & _ & Hm).
  exists v'. split_and!; [reflexivity|exact Hr|by rewrite Ho|by rewrite Hm].
Defined.
