(* ===== verification/ProgLogic.v ===== *)
(** * Reasoning about programs

    Two judgements on stateful programs, closed under sequencing: [pres R m],
    every run of [m] moves the state along the preorder [R], whatever it
    returns; and [safe I m], from a state in [I] the program ends in [I] and
    does not panic.  The last part makes a file system of the states in an
    invariant its methods keep. *)

From stdpp Require Import prelude.
From S2P Require Import Prelude Std Abi AbiStruct FsTypes FileSystem.

Definition pres {S E A} (R : relation S) (m : prog S E A) : Prop := forall s, R s (m s).1.

Definition safe {S E A} (I : S -> Prop) (m : prog S E A) : Prop :=
  forall s, I s -> I (m s).1 /\ (m s).2 <> Panic.

Section pres.
Context {S E : Type} (R : relation S) `{PO : !PreOrder R}.

Lemma pres_mret {A} (a : A) : pres R (mret a : prog S E A).
Proof. by intros s. Qed.

Lemma pres_fail {A} (e : E) : pres R (fail e : prog S E A).
Proof. by intros s. Qed.

Lemma pres_lift {A} (o : outcome E A) : pres R (lift o : prog S E A).
Proof. by intros s. Qed.

Lemma pres_gets {A} (f : S -> A) : pres R (gets f : prog S E A).
Proof. by intros s. Qed.

Lemma pres_modify (f : S -> S) : (forall s, R s (f s)) -> pres R (modify f : prog S E unit).
Proof. by intros H s. Qed.

Lemma pres_bind {A B} (m : prog S E A) (k : A -> prog S E B) :
  pres R m -> (forall a, pres R (k a)) -> pres R (m ≫= k).
Proof.
  intros Hm Hk s. specialize (Hm s). unfold mbind, prog_mbind, prog_bind.
  destruct (m s) as [s' [a|e|]]; cbn in *; [|done..]. etrans; [done|apply Hk].
Qed.

Lemma pres_map_err {E' A} (f : E' -> E) (m : prog S E' A) : pres R m -> pres R (prog_map_err f m).
Proof. intros Hm s. specialize (Hm s). unfold prog_map_err. by destruct (m s). Qed.
End pres.

(** A relation on one half of a pair of states. *)
Definition fst_rel {S T} (R : relation S) : relation (S * T) := fun w w' => R w.1 w'.1.
Definition snd_rel {S T} (R : relation T) : relation (S * T) := fun w w' => R w.2 w'.2.

#[global] Instance fst_rel_preorder {S T} (R : relation S) `{!PreOrder R} : PreOrder (@fst_rel S T R).
Proof. split; [by intros w; unfold fst_rel|]. intros w1 w2 w3. unfold fst_rel. by etrans. Qed.

#[global] Instance snd_rel_preorder {S T} (R : relation T) `{!PreOrder R} : PreOrder (@snd_rel S T R).
Proof. split; [by intros w; unfold snd_rel|]. intros w1 w2 w3. unfold snd_rel. by etrans. Qed.

Section lenses.
Context {S T E : Type}.

Lemma pres_fst_fst {A} (R : relation S) (m : prog S E A) : pres R m -> pres (fst_rel (T := T) R) (on_fst m).
Proof. intros Hm [s t]. specialize (Hm s). unfold on_fst. cbn. by destruct (m s). Qed.

Lemma pres_snd_snd {A} (R : relation T) (m : prog T E A) : pres R m -> pres (snd_rel (S := S) R) (on_snd m).
Proof. intros Hm [s t]. specialize (Hm t). unfold on_snd. cbn. by destruct (m t). Qed.

Lemma pres_fst_snd {A} (R : relation S) `{!PreOrder R} (m : prog T E A) : pres (fst_rel (T := T) R) (on_snd m).
Proof. intros [s t]. unfold on_snd, fst_rel. cbn. by destruct (m t). Qed.

Lemma pres_snd_fst {A} (R : relation T) `{!PreOrder R} (m : prog S E A) : pres (snd_rel (S := S) R) (on_fst m).
Proof. intros [s t]. unfold on_fst, snd_rel. cbn. by destruct (m s). Qed.

Lemma on_fst_ok {A} (m : prog S E A) s (t : T) s' o : m s = (s', o) -> on_fst m (s, t) = ((s', t), o).
Proof. intros Hm. unfold on_fst. cbn. by rewrite Hm. Qed.

Lemma on_snd_ok {A} (m : prog T E A) (s : S) t t' o : m t = (t', o) -> on_snd m (s, t) = ((s, t'), o).
Proof. intros Hm. unfold on_snd. cbn. by rewrite Hm. Qed.

Lemma no_panic_on_fst {A} (m : prog S E A) : no_panic m -> no_panic (on_fst (T := T) m).
Proof. intros Hm [s t]. specialize (Hm s). unfold on_fst. cbn. by destruct (m s). Qed.

Lemma no_panic_on_snd {A} (m : prog T E A) : no_panic m -> no_panic (on_snd (S := S) m).
Proof. intros Hm [s t]. specialize (Hm t). unfold on_snd. cbn. by destruct (m t). Qed.
End lenses.

Section safe.
Context {S E : Type} (I : S -> Prop).

Lemma safe_mret {A} (a : A) : safe I (mret a : prog S E A).
Proof. by intros s. Qed.

Lemma safe_fail {A} (e : E) : safe I (fail e : prog S E A).
Proof. by intros s. Qed.

Lemma safe_lift {A} (o : outcome E A) : o <> Panic -> safe I (lift o : prog S E A).
Proof. by intros H s. Qed.

Lemma safe_modify (f : S -> S) : (forall s, I s -> I (f s)) -> safe I (modify f : prog S E unit).
Proof. intros H s Hs. by split; [apply H|]. Qed.

Lemma safe_bind {A B} (m : prog S E A) (k : A -> prog S E B) :
  safe I m -> (forall a, safe I (k a)) -> safe I (m ≫= k).
Proof.
  intros Hm Hk s Hs. specialize (Hm s Hs) as [HI Hp]. unfold mbind, prog_mbind, prog_bind.
  destruct (m s) as [s' [a|e|]]; cbn in *; [by apply Hk|done|done].
Qed.

(** What was read from the state still holds of it. *)
Lemma safe_gets {A B} (f : S -> A) (k : A -> prog S E B) :
  (forall s, I s -> I (k (f s) s).1 /\ (k (f s) s).2 <> Panic) -> safe I (gets f ≫= k).
Proof. intros Hk s Hs. by apply Hk. Qed.

Lemma safe_frame {A} (m : prog S E A) : (forall s, I s -> I (m s).1) -> no_panic m -> safe I m.
Proof. intros HI Hp s Hs. split; [by apply HI|apply Hp]. Qed.
End safe.

Lemma safe_on_fst {S T E A} (I : S -> Prop) (m : prog S E A) :
  safe I m -> safe (fun st : S * T => I st.1) (on_fst m).
Proof. intros Hm [s t] Hs. specialize (Hm s Hs). unfold on_fst. cbn. by destruct (m s). Qed.

Lemma safe_on_snd {S T E A} (I : S -> Prop) (m : prog T E A) :
  no_panic m -> safe (fun st : S * T => I st.1) (on_snd m).
Proof. intros Hm [s t] Hs. specialize (Hm t). unfold on_snd. cbn in *. by destruct (m t). Qed.

#[export] Hint Resolve pres_mret pres_fail pres_lift pres_gets pres_bind pres_map_err
  pres_fst_fst pres_snd_snd pres_fst_snd pres_snd_fst : fuse.
#[export] Hint Resolve no_panic_on_fst no_panic_on_snd safe_mret safe_fail safe_bind
  safe_on_fst safe_on_snd : fuse.

(** ** Runs with a result

    [wp G J m Q s]: started in [s], the program does not panic, ends in a
    state in [G] that [J] relates to [s], and a result it returns satisfies [Q]
    there. *)

Definition wp {S E A} (G : S -> Prop) (J : relation S) (m : prog S E A) (Q : A -> S -> Prop) (s : S) : Prop :=
  G (m s).1 /\ J s (m s).1 /\
  match (m s).2 with Ok a => Q a (m s).1 | Err _ => True | Panic => False end.

Section wp.
Context {S E : Type} (G : S -> Prop) (J : relation S) `{PO : !PreOrder J}.

Lemma wp_mret {A} (a : A) (Q : A -> S -> Prop) s : G s -> Q a s -> wp G J (mret a : prog S E A) Q s.
Proof. by unfold wp. Qed.

Lemma wp_fail {A} (e : E) (Q : A -> S -> Prop) s : G s -> wp G J (fail e : prog S E A) Q s.
Proof. by unfold wp. Qed.

Lemma wp_lift {A} (o : outcome E A) (Q : A -> S -> Prop) s :
  G s -> match o with Ok a => Q a s | Err _ => True | Panic => False end ->
  wp G J (lift o : prog S E A) Q s.
Proof. by unfold wp. Qed.

Lemma wp_gets {A} (f : S -> A) s : G s -> wp G J (gets f : prog S E A) (fun a s' => s' = s /\ a = f s) s.
Proof. by unfold wp. Qed.

Lemma wp_modify (f : S -> S) s :
  G (f s) -> J s (f s) -> wp G J (modify f : prog S E unit) (fun _ s' => s' = f s) s.
Proof. by unfold wp. Qed.

Lemma wp_mono {A} (m : prog S E A) (Q Q' : A -> S -> Prop) s :
  wp G J m Q s -> (forall a s', G s' -> J s s' -> Q a s' -> Q' a s') -> wp G J m Q' s.
Proof. intros (HG & HJ & Hm) HQ. split_and!; [done..|]. destruct (m s).2; auto. Qed.

Lemma wp_bind {A B} (m : prog S E A) (k : A -> prog S E B) Q Q' s :
  wp G J m Q s -> (forall a s', G s' -> J s s' -> Q a s' -> wp G J (k a) Q' s') -> wp G J (m ≫= k) Q' s.
Proof.
  intros (HG & HJ & Hm) Hk. unfold wp, mbind, prog_mbind, prog_bind.
  destruct (m s) as [s' [a|e|]]; cbn in *; [|done..].
  destruct (Hk a s' HG HJ Hm) as (? & ? & ?). split_and!; [done|by etrans|done].
Qed.

Lemma wp_catch {A} (m : prog S E A) Q s :
  wp G J m Q s -> wp G J (catch m) (fun r s' => match r with inr a => Q a s' | inl _ => True end) s.
Proof. unfold wp, catch. by destruct (m s) as [s' [a|e|]]. Qed.

Lemma wp_or_drop {A} (m : prog S E A) clean Q s :
  wp G J m Q s -> (forall s', G s' -> J s s' -> wp G J clean (fun _ _ => True) s') ->
  wp G J (or_drop m clean) Q s.
Proof.
  intros Hm Hc. unfold or_drop. eapply wp_bind; [by apply wp_catch|]. intros [e|a] s' HG HJ Hr.
  - eapply wp_bind; [by apply Hc|]. intros ???? _. by apply wp_fail.
  - by apply wp_mret.
Qed.

Lemma wp_if {A} (b : bool) (m m' : prog S E A) Q s :
  (b = true -> wp G J m Q s) -> (b = false -> wp G J m' Q s) -> wp G J (if b then m else m') Q s.
Proof. destruct b; auto. Qed.

(** ** Loops *)

(** The rounds of a loop, counted. *)
Fixpoint rounds_nat {X A} (n : nat) (body : X -> prog S E (X + A)) (x : X) : prog S E (X + A) :=
  match n with
  | O => mret (inl x)
  | Datatypes.S n' => r ← body x; match r with inl x' => rounds_nat n' body x' | inr a => mret (inr a) end
  end.

Lemma rounds_nat_add {X A} (body : X -> prog S E (X + A)) n k x s :
  rounds_nat (n + k) body x s =
  (r ← rounds_nat n body x; match r with inl x' => rounds_nat k body x' | inr a => mret (inr a) end) s.
Proof.
  revert x s. induction n as [|n IH]; intros x s; [done|]. cbn.
  unfold mbind, prog_mbind, prog_bind in *. destruct (body x s) as [s' [[x'|a]|e|]]; cbn; [apply IH|done..].
Qed.

Lemma rounds_rounds_nat {X A} p (body : X -> prog S E (X + A)) x s :
  rounds p body x s = rounds_nat (Pos.to_nat p) body x s.
Proof.
  assert (Hdouble : forall q x s, (forall x s, rounds q body x s = rounds_nat (Pos.to_nat q) body x s) ->
    (r ← rounds q body x; match r with inl x' => rounds q body x' | inr a => mret (inr a) end) s =
    rounds_nat (Pos.to_nat q + Pos.to_nat q) body x s).
  { intros q y t IH. rewrite rounds_nat_add. unfold mbind, prog_mbind, prog_bind. rewrite IH.
    destruct (rounds_nat _ body y t) as [t' [[y'|a]|e|]]; [apply IH|done..]. }
  revert x s. induction p as [p IH|p IH|]; intros x s.
  - replace (Pos.to_nat p~1) with (Datatypes.S (Pos.to_nat p + Pos.to_nat p)) by lia.
    cbn [rounds rounds_nat]. unfold mbind, prog_mbind, prog_bind in *.
    destruct (body x s) as [s' [[x'|a]|e|]]; [by apply Hdouble|done..].
  - replace (Pos.to_nat p~0) with (Pos.to_nat p + Pos.to_nat p)%nat by lia. by apply Hdouble.
  - replace (Pos.to_nat 1) with 1%nat by done. cbn. unfold mbind, prog_mbind, prog_bind.
    by destruct (body x s) as [s' [[x'|a]|e|]].
Qed.

(** A loop ends well when each round keeps [I] and makes the measure smaller. *)
Lemma wp_rounds_nat {X A} (I : X -> S -> Prop) (mu : X -> S -> Z) (body : X -> prog S E (X + A)) Q n x s :
  (forall x s, G s -> I x s -> 0 <= mu x s) ->
  (forall x s, G s -> I x s ->
    wp G J (body x) (fun r s' => match r with inl x' => I x' s' /\ mu x' s' < mu x s | inr a => Q a s' end) s) ->
  G s -> I x s -> mu x s < Z.of_nat n ->
  wp G J (rounds_nat n body x) (fun r s' => match r with inl _ => False | inr a => Q a s' end) s.
Proof.
  intros Hpos Hbody. revert x s. induction n as [|n IH]; intros x s HG HI Hmu.
  { pose proof (Hpos x s HG HI). lia. }
  cbn. eapply wp_bind; [by apply Hbody|]. intros [x'|a] s' HG' HJ Hr; [|by apply wp_mret].
  destruct Hr as [HI' Hlt]. apply IH; [done..|lia].
Qed.

Lemma wp_rounds {X A} (I : X -> S -> Prop) (mu : X -> S -> Z) (body : X -> prog S E (X + A)) Q p x s :
  (forall x s, G s -> I x s -> 0 <= mu x s) ->
  (forall x s, G s -> I x s ->
    wp G J (body x) (fun r s' => match r with inl x' => I x' s' /\ mu x' s' < mu x s | inr a => Q a s' end) s) ->
  G s -> I x s -> mu x s < Z.pos p ->
  wp G J (rounds p body x) (fun r s' => match r with inl _ => False | inr a => Q a s' end) s.
Proof.
  intros Hpos Hbody HG HI Hmu. unfold wp. rewrite rounds_rounds_nat.
  eapply wp_rounds_nat; [exact Hpos|exact Hbody|exact HG|exact HI|]. by rewrite positive_nat_Z.
Qed.

Lemma wp_loop {X A} (I : X -> S -> Prop) (mu : X -> S -> Z) (body : X -> prog S E (X + A)) Q x s :
  (forall x s, G s -> I x s -> 0 <= mu x s) ->
  (forall x s, G s -> I x s ->
    wp G J (body x) (fun r s' => match r with inl x' => I x' s' /\ mu x' s' < mu x s | inr a => Q a s' end) s) ->
  G s -> I x s -> mu x s < 2 ^ 64 -> wp G J (loop body x) Q s.
Proof.
  intros Hpos Hbody HG HI Hmu. unfold loop.
  eapply wp_bind; [exact (wp_rounds I mu body Q (2 ^ 64) x s Hpos Hbody HG HI Hmu)|].
  intros [x'|a] s' HG' _ Hr; [done|]. by apply wp_mret.
Qed.
End wp.

(** ** Programs that succeed

    [ends m Q s]: [m] returns [Ok] from [s], with a result and a state in [Q]. *)
Definition ends {S E A} (m : prog S E A) (Q : A -> S -> Prop) (s : S) : Prop :=
  match m s with (s', Ok a) => Q a s' | _ => False end.

Section ends.
Context {S E : Type}.

Lemma ends_mret {A} (a : A) (Q : A -> S -> Prop) s : Q a s -> ends (mret a : prog S E A) Q s.
Proof. done. Qed.

Lemma ends_mono {A} (m : prog S E A) (Q Q' : A -> S -> Prop) s :
  ends m Q s -> (forall a s', Q a s' -> Q' a s') -> ends m Q' s.
Proof. unfold ends. destruct (m s) as [s' [a|e|]]; auto. Qed.

Lemma ends_bind {A B} (m : prog S E A) (k : A -> prog S E B) Q Q' s :
  ends m Q s -> (forall a s', Q a s' -> ends (k a) Q' s') -> ends (m ≫= k) Q' s.
Proof. unfold ends, mbind, prog_mbind, prog_bind. destruct (m s) as [s' [a|e|]]; [intros Hq Hk; by apply Hk|done..]. Qed.

Lemma ends_assoc {A B C} (m : prog S E A) (k : A -> prog S E B) (h : B -> prog S E C) Q s :
  ends ((m ≫= k) ≫= h) Q s -> ends (m ≫= fun a => k a ≫= h) Q s.
Proof. unfold ends, mbind, prog_mbind, prog_bind. by destruct (m s) as [s' [a|e|]]. Qed.

Lemma ends_catch {A} (m : prog S E A) Q s :
  ends m Q s -> ends (catch m) (fun r s' => match r with inr a => Q a s' | inl _ => False end) s.
Proof. unfold ends, catch. by destruct (m s) as [s' [a|e|]]. Qed.

Lemma ends_or_drop {A} (m : prog S E A) clean Q s : ends m Q s -> ends (or_drop m clean) Q s.
Proof.
  intros Hm. unfold or_drop. eapply ends_bind; [by apply ends_catch|]. intros [e|a] s' Hr; [done|by apply ends_mret].
Qed.

Lemma ends_rounds_nat {X A} (I : X -> S -> Prop) (mu : X -> S -> Z) (body : X -> prog S E (X + A)) Q n x s :
  (forall x s, I x s -> 0 <= mu x s) ->
  (forall x s, I x s ->
    ends (body x) (fun r s' => match r with inl x' => I x' s' /\ mu x' s' < mu x s | inr a => Q a s' end) s) ->
  I x s -> mu x s < Z.of_nat n ->
  ends (rounds_nat n body x) (fun r s' => match r with inl _ => False | inr a => Q a s' end) s.
Proof.
  intros Hpos Hbody. revert x s. induction n as [|n IH]; intros x s HI Hmu.
  { pose proof (Hpos x s HI). lia. }
  cbn. eapply ends_bind; [by apply Hbody|]. intros [x'|a] s' Hr; [|by apply ends_mret].
  destruct Hr as [HI' Hlt]. apply IH; [done..|lia].
Qed.

Lemma ends_rounds {X A} (I : X -> S -> Prop) (mu : X -> S -> Z) (body : X -> prog S E (X + A)) Q p x s :
  (forall x s, I x s -> 0 <= mu x s) ->
  (forall x s, I x s ->
    ends (body x) (fun r s' => match r with inl x' => I x' s' /\ mu x' s' < mu x s | inr a => Q a s' end) s) ->
  I x s -> mu x s < Z.pos p ->
  ends (rounds p body x) (fun r s' => match r with inl _ => False | inr a => Q a s' end) s.
Proof.
  intros Hpos Hbody HI Hmu. unfold ends. rewrite rounds_rounds_nat.
  eapply ends_rounds_nat; [exact Hpos|exact Hbody|exact HI|]. by rewrite positive_nat_Z.
Qed.

Lemma ends_loop {X A} (I : X -> S -> Prop) (mu : X -> S -> Z) (body : X -> prog S E (X + A)) Q x s :
  (forall x s, I x s -> 0 <= mu x s) ->
  (forall x s, I x s ->
    ends (body x) (fun r s' => match r with inl x' => I x' s' /\ mu x' s' < mu x s | inr a => Q a s' end) s) ->
  I x s -> mu x s < 2 ^ 64 -> ends (loop body x) Q s.
Proof.
  intros Hpos Hbody HI Hmu. unfold loop.
  eapply ends_bind; [exact (ends_rounds I mu body Q (2 ^ 64) x s Hpos Hbody HI Hmu)|].
  intros [x'|a] s' Hr; [done|]. by apply ends_mret.
Qed.
End ends.

(** [gives m Q s]: [m] ends, with a result or an error. *)
Definition gives {S E A} (m : prog S E A) (Q : E + A -> S -> Prop) (s : S) : Prop :=
  match m s with (s', Ok a) => Q (inr a) s' | (s', Err e) => Q (inl e) s' | (_, Panic) => False end.

Section gives.
Context {S E : Type}.

Lemma gives_mret {A} (a : A) (Q : E + A -> S -> Prop) s : Q (inr a) s -> gives (mret a) Q s.
Proof. done. Qed.

Lemma gives_fail {A} (e : E) (Q : E + A -> S -> Prop) s : Q (inl e) s -> gives (fail e) Q s.
Proof. done. Qed.

Lemma gives_mono {A} (m : prog S E A) (Q Q' : E + A -> S -> Prop) s :
  gives m Q s -> (forall r s', Q r s' -> Q' r s') -> gives m Q' s.
Proof. unfold gives. destruct (m s) as [s' [a|e|]]; auto. Qed.

Lemma gives_ends {A B} (m : prog S E A) (k : A -> prog S E B) Q Q' s :
  ends m Q s -> (forall a s', Q a s' -> gives (k a) Q' s') -> gives (m ≫= k) Q' s.
Proof.
  unfold ends, gives, mbind, prog_mbind, prog_bind. destruct (m s) as [s' [a|e|]]; [intros Hq Hk; by apply Hk|done..].
Qed.

Lemma gives_bind {A B} (m : prog S E A) (k : A -> prog S E B) Q Q' s :
  gives m Q s -> (forall a s', Q (inr a) s' -> gives (k a) Q' s') -> (forall e s', Q (inl e) s' -> Q' (inl e) s') ->
  gives (m ≫= k) Q' s.
Proof.
  unfold gives, mbind, prog_mbind, prog_bind. destruct (m s) as [s' [a|e|]]; [|by auto|done].
  intros Hq Hk _. by apply Hk.
Qed.

Lemma finally_noop {A} (m : prog S E A) clean s :
  clean (m s).1 = ((m s).1, Ok tt) -> finally m clean s = m s.
Proof.
  unfold finally, catch, mbind, prog_mbind, prog_bind. by destruct (m s) as [s' [a|e|]]; cbn; [intros ->..|].
Qed.

Lemma gives_finally {A} (m : prog S E A) clean Q s :
  gives m (fun r s' => clean s' = (s', Ok tt) /\ Q r s') s -> gives (finally m clean) Q s.
Proof.
  unfold gives, finally, catch, mbind, prog_mbind, prog_bind.
  destruct (m s) as [s' [a|e|]]; [|..|done]; intros [-> Hq]; exact Hq.
Qed.

Lemma ends_finally {A} (m : prog S E A) clean Q s :
  ends m (fun a s' => clean s' = (s', Ok tt) /\ Q a s') s -> ends (finally m clean) Q s.
Proof.
  unfold ends, finally, catch, mbind, prog_mbind, prog_bind.
  destruct (m s) as [s' [a|e|]]; [|done..]; intros [-> Hq]; exact Hq.
Qed.

Lemma gives_rounds_nat {X A} (I : X -> S -> Prop) (mu : X -> S -> Z) (body : X -> prog S E (X + A)) (Q : E + A -> S -> Prop) n x s :
  (forall x s, I x s -> 0 <= mu x s) ->
  (forall x s, I x s -> gives (body x) (fun r s' =>
    match r with inr (inl x') => I x' s' /\ mu x' s' < mu x s | inr (inr a) => Q (inr a) s' | inl e => Q (inl e) s' end) s) ->
  I x s -> mu x s < Z.of_nat n ->
  gives (rounds_nat n body x) (fun r s' =>
    match r with inr (inl _) => False | inr (inr a) => Q (inr a) s' | inl e => Q (inl e) s' end) s.
Proof.
  intros Hpos Hbody. revert x s. induction n as [|n IH]; intros x s HI Hmu.
  { pose proof (Hpos x s HI). lia. }
  cbn. eapply gives_bind; [by apply Hbody| |done]. intros [x'|a] s' Hr; [|by apply gives_mret].
  destruct Hr as [HI' Hlt]. apply IH; [done..|lia].
Qed.

Lemma gives_rounds {X A} (I : X -> S -> Prop) (mu : X -> S -> Z) (body : X -> prog S E (X + A)) (Q : E + A -> S -> Prop) p x s :
  (forall x s, I x s -> 0 <= mu x s) ->
  (forall x s, I x s -> gives (body x) (fun r s' =>
    match r with inr (inl x') => I x' s' /\ mu x' s' < mu x s | inr (inr a) => Q (inr a) s' | inl e => Q (inl e) s' end) s) ->
  I x s -> mu x s < Z.pos p ->
  gives (rounds p body x) (fun r s' =>
    match r with inr (inl _) => False | inr (inr a) => Q (inr a) s' | inl e => Q (inl e) s' end) s.
Proof.
  intros Hpos Hbody HI Hmu. unfold gives. rewrite rounds_rounds_nat.
  eapply gives_rounds_nat; [exact Hpos|exact Hbody|exact HI|]. by rewrite positive_nat_Z.
Qed.

Lemma gives_loop {X A} (I : X -> S -> Prop) (mu : X -> S -> Z) (body : X -> prog S E (X + A)) (Q : E + A -> S -> Prop) x s :
  (forall x s, I x s -> 0 <= mu x s) ->
  (forall x s, I x s -> gives (body x) (fun r s' =>
    match r with inr (inl x') => I x' s' /\ mu x' s' < mu x s | inr (inr a) => Q (inr a) s' | inl e => Q (inl e) s' end) s) ->
  I x s -> mu x s < 2 ^ 64 -> gives (loop body x) Q s.
Proof.
  intros Hpos Hbody HI Hmu. unfold loop. eapply (gives_bind _ _ (fun r s' =>
    match r with inr (inl _) => False | inr (inr a) => Q (inr a) s' | inl e => Q (inl e) s' end)).
  - exact (gives_rounds I mu body Q (2 ^ 64) x s Hpos Hbody HI Hmu).
  - intros [x'|a] s' Hr; [done|]. by apply gives_mret.
  - done.
Qed.
End gives.

(** Unification has no business inside a loop. *)
#[global] Opaque loop.

(** * File systems with an invariant

    A file system whose methods keep an invariant [I], and do not panic from a
    state in it, is a file system on the states in [I], which makes the
    promises of [FileSystemOk]. *)

Class FsInvariant {F : Type} `{FS : FileSystem F} (I : F -> Prop) : Prop := {
  inv_op : forall (A : Set) (op : FsOp A), safe I (fs_op op);
  inv_read : forall ctx inode handle available size offset lock_owner flags f,
    I f -> I (fs_read ctx inode handle available size offset lock_owner flags f).1;
  inv_read_ok : forall ctx inode handle available size offset lock_owner flags f,
    I f -> 0 <= available ->
    let '(_, (data, res)) := fs_read ctx inode handle available size offset lock_owner flags f in
    zlen data <= available /\
    match res with Ok n => n = zlen data | Err _ => True | Panic => False end;
  inv_write : forall ctx inode handle data size offset lock_owner delayed flags fuse_flags,
    safe I (fs_write ctx inode handle data size offset lock_owner delayed flags fuse_flags);
  inv_readdir : forall X ctx inode handle size offset (add : add_entry_t X),
    pres (fun s s' => I s.1 -> I s'.1) (fs_readdir ctx inode handle size offset add);
  inv_readdir_safe : forall X (P : X -> Prop) ctx inode handle size offset (add : add_entry_t X),
    (forall d, safe P (add d)) ->
    safe (fun s => I s.1 /\ P s.2) (fs_readdir ctx inode handle size offset add);
  inv_readdirplus : forall X ctx inode handle size offset (add : add_entry_plus_t X),
    pres (fun s s' => I s.1 -> I s'.1) (fs_readdirplus ctx inode handle size offset add);
  inv_readdirplus_safe : forall X (P : X -> Prop) ctx inode handle size offset (add : add_entry_plus_t X),
    (forall d e, safe P (add d e)) ->
    safe (fun s => I s.1 /\ P s.2) (fs_readdirplus ctx inode handle size offset add);
  inv_id_remap : safe (fun s => I s.1) fs_id_remap;
}.

Section sub.
Context {F : Type} `{FS : FileSystem F} (I : F -> Prop) `{INV : !FsInvariant I}.

Abbreviation SubFs := {f : F | I f}.

(** Run a program that keeps [I] on a state that satisfies it. *)
Definition run_sub {E A} (m : prog F E A) (Hm : safe I m) : prog SubFs E A := fun f =>
  (exist I (m (proj1_sig f)).1 (proj1 (Hm _ (proj2_sig f))), (m (proj1_sig f)).2).

Definition run_sub_with {X A} (m : prog (F * X) io_error A) (Hm : pres (fun s s' => I s.1 -> I s'.1) m)
    : prog (SubFs * X) io_error A := fun s =>
  let r := m (proj1_sig s.1, s.2) in
  ((exist I r.1.1 (Hm (proj1_sig s.1, s.2) (proj2_sig s.1)), r.1.2), r.2).

Lemma id_remap_pres : pres (fun s s' : F * Context => I s.1 -> I s'.1) fs_id_remap.
Proof. intros s Hs. by destruct (inv_id_remap (I := I) s Hs). Qed.

#[global] Instance SubFs_filesystem : FileSystem SubFs := {|
  fs_op A op := run_sub (fs_op op) (inv_op A op);
  fs_read ctx inode handle available size offset lock_owner flags f :=
    let r := fs_read ctx inode handle available size offset lock_owner flags (proj1_sig f) in
    (exist I r.1 (inv_read ctx inode handle available size offset lock_owner flags _ (proj2_sig f)), r.2);
  fs_write ctx inode handle data size offset lock_owner delayed flags fuse_flags :=
    run_sub (fs_write ctx inode handle data size offset lock_owner delayed flags fuse_flags)
      (inv_write ctx inode handle data size offset lock_owner delayed flags fuse_flags);
  fs_readdir X ctx inode handle size offset add :=
    run_sub_with (fs_readdir ctx inode handle size offset add) (inv_readdir X ctx inode handle size offset add);
  fs_readdirplus X ctx inode handle size offset add :=
    run_sub_with (fs_readdirplus ctx inode handle size offset add)
      (inv_readdirplus X ctx inode handle size offset add);
  fs_id_remap := run_sub_with fs_id_remap id_remap_pres;
|}.

Lemma SubFs_ok : FileSystemOk SubFs.
Proof.
  split; cbn.
  - intros A op [f Hf]. by destruct (inv_op (I := I) A op f Hf).
  - intros ctx inode handle available size offset lo flags [f Hf] Hav. cbn.
    pose proof (inv_read_ok ctx inode handle available size offset lo flags f Hf Hav) as Hr.
    by destruct (fs_read _ _ _ _ _ _ _ _ f) as [f' [data res]].
  - intros ctx inode handle data size offset lo dw flags ff [f Hf].
    by destruct (inv_write (I := I) ctx inode handle data size offset lo dw flags ff f Hf).
  - intros X ctx inode handle size offset add P HP [f Hf] x Hx. cbn.
    by destruct (inv_readdir_safe X P ctx inode handle size offset add HP (f, x) (conj Hf Hx)) as [[_ ?] ?].
  - intros X ctx inode handle size offset add P HP [f Hf] x Hx. cbn.
    by destruct (inv_readdirplus_safe X P ctx inode handle size offset add (fun d e => HP (d, e)) (f, x) (conj Hf Hx))
      as [[_ ?] ?].
  - intros [[f Hf] c]. by destruct (inv_id_remap (I := I) (f, c) Hf).
Qed.
End sub.
