(* ===== verification/Host.v ===== *)
(** * The host the passthrough file system runs on

    [src/passthrough] forwards every request to the kernel.  A system call is
    a constructor of [SysOp], indexed by the type of what it returns, and the
    host is an instance of [Host]: a state and, for each call, the next state
    and either an errno or the result.  Two entries are not kernel calls but
    the [caps] crate's view of one capability.  Descriptors are integers;
    closing one on [Drop] changes nothing the code can observe later and is
    not modelled.  The wrappers of [util.rs], [statx.rs], [file_handle.rs] and
    the scoped credentials of [mod.rs] follow. *)

From S2P Require Import Prelude Std Codec AbiStruct.

(** ** libc constants (Linux, x86-64) *)

Definition O_RDONLY : Z := 0.
Definition O_WRONLY : Z := 1.
Definition O_RDWR : Z := 2.
Definition O_ACCMODE : Z := 3.
Definition O_CREAT : Z := 0x40.
Definition O_EXCL : Z := 0x80.
Definition O_TRUNC : Z := 0x200.
Definition O_APPEND : Z := 0x400.
Definition O_NONBLOCK : Z := 0x800.
Definition O_DIRECT : Z := 0x4000.
Definition O_DIRECTORY : Z := 0x10000.
Definition O_NOFOLLOW : Z := 0x20000.
Definition O_CLOEXEC : Z := 0x80000.
Definition O_PATH : Z := 0x200000.
Definition AT_FDCWD : Z := -100.
Definition AT_SYMLINK_NOFOLLOW : Z := 0x100.
Definition AT_REMOVEDIR : Z := 0x200.
Definition AT_EMPTY_PATH : Z := 0x1000.
Definition SEEK_SET : Z := 0.
Definition PATH_MAX : Z := 4096.
Definition F_OK : Z := 0.
Definition X_OK : Z := 1.
Definition W_OK : Z := 2.
Definition R_OK : Z := 4.
Definition UTIME_NOW : Z := 0x3fffffff.
Definition UTIME_OMIT : Z := 0x3ffffffe.
Definition FALLOC_FL_KEEP_SIZE : Z := 1.
Definition FALLOC_FL_PUNCH_HOLE : Z := 2.
Definition FALLOC_FL_COLLAPSE_RANGE : Z := 8.
Definition FALLOC_FL_ZERO_RANGE : Z := 16.
Definition FALLOC_FL_INSERT_RANGE : Z := 32.
Definition FALLOC_FL_UNSHARE_RANGE : Z := 64.
Definition STATX_BASIC_STATS : Z := 0x7ff.
Definition STATX_MNT_ID : Z := 0x1000.
Definition EOPNOTSUPP : Z := ENOTSUP.
Definition EMPTY_PATH : CStr := [].

(** [libc::makedev] *)
Definition makedev (maj min : Z) : Z :=
  Z.lor (Z.lor (Z.shiftl (Z.land maj 0xfffff000) 32) (Z.shiftl (Z.land maj 0xfff) 8))
        (Z.lor (Z.shiftl (Z.land min 0xffffff00) 12) (Z.land min 0xff)).

(** ** Structures the kernel fills *)

(** [statx_st] of [os_compat.rs], without padding and unread fields. *)
Record statx_st : Set := MkStatx {
  stx_mask : Z;
  stx_blksize : Z;
  stx_nlink : Z;
  stx_uid : Z;
  stx_gid : Z;
  stx_mode : Z;
  stx_ino : Z;
  stx_size : Z;
  stx_blocks : Z;
  stx_atime : Z * Z;
  stx_ctime : Z * Z;
  stx_mtime : Z * Z;
  stx_rdev_major : Z;
  stx_rdev_minor : Z;
  stx_dev_major : Z;
  stx_dev_minor : Z;
  stx_mnt_id : Z;
}.

(** [CFileHandle]: [handle_bytes] is the length of [f_handle]. *)
Record CFileHandle : Set := MkCFileHandle {
  handle_type : Z;
  f_handle : bytes;
}.

Definition handle_bytes (h : CFileHandle) : Z := zlen h.(f_handle).

(** What [name_to_handle_at] leaves behind: on failure the errno and the
    [handle_bytes] it stored, on success the handle and the mount id. *)
Inductive NameToHandle : Set :=
| NthErr (errno needed : Z)
| NthOk (handle : CFileHandle) (mount_id : Z).

(** [LinuxDirent64] ([os_compat.rs]), a packed structure of 19 bytes. *)
Record LinuxDirent64 : Set := MkLinuxDirent64 {
  ld_ino : Z;
  ld_off : Z;
  ld_reclen : Z;
  ld_ty : Z;
}.

Definition dirent64_layout : list fty := [U 8; I 8; U 2; U 1].

Definition LinuxDirent64_from_slice (b : bytes) : option LinuxDirent64 :=
  if (length b =? layout_size dirent64_layout)%nat then
    match decode dirent64_layout b with
    | [ino; off; reclen; ty] => Some (MkLinuxDirent64 ino off reclen ty)
    | _ => None
    end
  else None.

(** ** System calls *)

Inductive SysOp : Set -> Type :=
| sys_openat (dirfd : Z) (path : CStr) (flags : Z) (mode : option Z) : SysOp Z
| sys_open (path : CStr) (flags : Z) : SysOp Z
| sys_fstatat (dirfd : Z) (path : CStr) (flags : Z) : SysOp stat64
| sys_statx (dirfd : Z) (path : CStr) (flags mask : Z) : SysOp statx_st
| sys_name_to_handle_at (dirfd : Z) (path : CStr) (size flags : Z) : SysOp NameToHandle
| sys_open_by_handle_at (mount_fd : Z) (handle : CFileHandle) (flags : Z) : SysOp Z
| sys_mkdirat (dirfd : Z) (path : CStr) (mode : Z) : SysOp unit
| sys_mknodat (dirfd : Z) (path : CStr) (mode dev : Z) : SysOp unit
| sys_linkat (olddirfd : Z) (oldpath : CStr) (newdirfd : Z) (newpath : CStr) (flags : Z) : SysOp unit
| sys_symlinkat (target : CStr) (dirfd : Z) (path : CStr) : SysOp unit
| sys_readlinkat (dirfd : Z) (path : CStr) (size : Z) : SysOp bytes
| sys_unlinkat (dirfd : Z) (path : CStr) (flags : Z) : SysOp unit
| sys_renameat2 (olddirfd : Z) (oldpath : CStr) (newdirfd : Z) (newpath : CStr) (flags : Z) : SysOp unit
| sys_fchmod (fd mode : Z) : SysOp unit
| sys_fchmodat (dirfd : Z) (path : CStr) (mode flags : Z) : SysOp unit
| sys_fchownat (dirfd : Z) (path : CStr) (uid gid flags : Z) : SysOp unit
| sys_ftruncate (fd length : Z) : SysOp unit
| sys_futimens (fd : Z) (atime mtime : Z * Z) : SysOp unit
| sys_utimensat (dirfd : Z) (path : CStr) (atime mtime : Z * Z) (flags : Z) : SysOp unit
| sys_dup (fd : Z) : SysOp Z
| sys_close (fd : Z) : SysOp unit
| sys_fsync (fd : Z) : SysOp unit
| sys_fdatasync (fd : Z) : SysOp unit
| sys_fallocate64 (fd mode offset length : Z) : SysOp unit
| sys_lseek (fd offset whence : Z) : SysOp Z
| sys_getdents64 (fd size : Z) : SysOp bytes
| sys_fstatvfs64 (fd : Z) : SysOp statvfs64
| sys_fcntl_setfl (fd flags : Z) : SysOp unit
| sys_setxattr (path name : CStr) (value : bytes) (flags : Z) : SysOp unit
| sys_getxattr (path name : CStr) (size : Z) : SysOp (Z * bytes)
| sys_listxattr (path : CStr) (size : Z) : SysOp (Z * bytes)
| sys_removexattr (path name : CStr) : SysOp unit
| sys_preadv (fd count offset : Z) : SysOp bytes
| sys_pwritev (fd : Z) (data : bytes) (offset : Z) : SysOp Z
| sys_umask (mask : Z) : SysOp Z
| sys_setresuid (euid : Z) : SysOp unit
| sys_setresgid (egid : Z) : SysOp unit
| sys_mountinfo_rewind : SysOp unit
| sys_mountinfo_read : SysOp bytes
| caps_has_fsetid : SysOp bool
| caps_drop_fsetid : SysOp unit
| caps_raise_fsetid : SysOp unit.

Class Host (H : Type) : Type := {
  sys : forall A : Set, SysOp A -> H -> H * (Z + A);
}.
#[global] Hint Mode Host ! : typeclass_instances.
Arguments sys {H _ A}.

(** ** Pure helpers of [util.rs] *)

Definition is_safe_inode (mode : Z) : bool :=
  let fmt := Z.land mode S_IFMT in (fmt =? S_IFREG) || (fmt =? S_IFDIR).

Definition is_dir (mode : Z) : bool := Z.land mode S_IFMT =? S_IFDIR.

Definition ebadf : io_error := Os EBADF.
Definition einval : io_error := Os EINVAL.
Definition enosys : io_error := Os ENOSYS.
Definition eperm : io_error := Os EPERM.

(** [format!("{}", fd)]: the digits of a descriptor, at most ten. *)
Fixpoint dec_digits (fuel : nat) (n : Z) : bytes :=
  match fuel with
  | O => []
  | S f => if n <? 10 then [48 + n] else dec_digits f (n / 10) ++ [48 + n mod 10]
  end.

Definition fd_name (fd : Z) : CStr :=
  if fd <? 0 then 45 :: dec_digits 10 (- fd) else dec_digits 10 fd.

(** ["/proc/self/fd/"] *)
Definition PROC_SELF_FD : bytes := [47; 112; 114; 111; 99; 47; 115; 101; 108; 102; 47; 102; 100].
Definition proc_path (fd : Z) : CStr := PROC_SELF_FD ++ 47 :: fd_name fd.

(** ** Programs over the host *)

Section host.
Context {H : Type} `{HOST : Host H}.

Abbreviation hprog A := (prog H io_error A).

(** A call whose failure becomes [io::Error::last_os_error()]. *)
Definition call {A : Set} (op : SysOp A) : hprog A := fun h =>
  match sys op h with
  | (h', inr a) => (h', Ok a)
  | (h', inl errno) => (h', Err (Os errno))
  end.

(** A call whose result is kept and examined later. *)
Definition attempt {A : Set} (op : SysOp A) : hprog (Z + A) := fun h =>
  let '(h', r) := sys op h in (h', Ok r).

(** ** [util.rs] *)

Definition openat (dir_fd : Z) (path : CStr) (flags mode : Z) : hprog Z :=
  call (sys_openat dir_fd path flags (if Z.land flags O_CREAT =? O_CREAT then Some mode else None)).

Definition reopen_fd_through_proc (fd flags proc_self_fd : Z) : hprog Z :=
  openat proc_self_fd (fd_name fd) (Z.ldiff (Z.ldiff flags O_NOFOLLOW) O_CREAT) 0.

Definition stat_fd (dir : Z) (path : option CStr) : hprog stat64 :=
  call (sys_fstatat dir (default EMPTY_PATH path) (Z.lor AT_EMPTY_PATH AT_SYMLINK_NOFOLLOW)).

(** ** [file_handle.rs] *)

Definition MAX_HANDLE_SIZE : Z := 128.

Record FileHandle : Set := MkFileHandle {
  fh_mnt_id : Z;
  fh_handle : CFileHandle;
}.

(** [CFileHandle::new(needed)] panics when the handle would be too large. *)
Definition FileHandle_from_name_at (dir_fd : Z) (path : CStr) : hprog (option FileHandle) :=
  r ← call (sys_name_to_handle_at dir_fd path 0 AT_EMPTY_PATH);
  match r with
  | NthOk _ _ => fail (Simple InvalidData)
  | NthErr errno needed =>
    if errno =? EOVERFLOW then
      if MAX_HANDLE_SIZE <? needed then lift Panic
      else
        r ← call (sys_name_to_handle_at dir_fd path needed AT_EMPTY_PATH);
        match r with
        | NthErr errno _ => fail (Os errno)
        | NthOk handle mount_id => mret (Some (MkFileHandle (wrap 64 mount_id) handle))
        end
    else if errno =? EOPNOTSUPP then mret None
    else fail (Os errno)
  end.

Definition FileHandle_from_fd (fd : Z) : hprog (option FileHandle) :=
  FileHandle_from_name_at fd EMPTY_PATH.

(** ** [statx.rs] *)

Record StatExt : Set := MkStatExt {
  se_st : stat64;
  se_mnt_id : Z;
}.

Definition statx_stat64 (stx : statx_st) : option stat64 :=
  if has_flag stx.(stx_mask) STATX_BASIC_STATS then
    Some {|
      st_dev := makedev stx.(stx_dev_major) stx.(stx_dev_minor);
      st_ino := stx.(stx_ino);
      st_nlink := stx.(stx_nlink);
      st_mode := stx.(stx_mode);
      st_uid := stx.(stx_uid);
      st_gid := stx.(stx_gid);
      st_rdev := makedev stx.(stx_rdev_major) stx.(stx_rdev_minor);
      st_size := signed 64 stx.(stx_size);
      st_blksize := stx.(stx_blksize);
      st_blocks := signed 64 stx.(stx_blocks);
      st_atime := stx.(stx_atime).1;
      st_atime_nsec := stx.(stx_atime).2;
      st_mtime := stx.(stx_mtime).1;
      st_mtime_nsec := stx.(stx_mtime).2;
      st_ctime := stx.(stx_ctime).1;
      st_ctime_nsec := stx.(stx_ctime).2;
    |}
  else None.

Definition statx_mount_id (stx : statx_st) : option Z :=
  if has_flag stx.(stx_mask) STATX_MNT_ID then Some stx.(stx_mnt_id) else None.

(** Failures are swallowed. *)
Definition get_mount_id (dir : Z) (path : CStr) : hprog (option Z) := fun h =>
  match FileHandle_from_name_at dir path h with
  | (h', Ok (Some v)) => (h', Ok (Some v.(fh_mnt_id)))
  | (h', Ok None) | (h', Err _) => (h', Ok None)
  | (h', Panic) => (h', Panic)
  end.

Definition statx (dir : Z) (path : option CStr) : hprog StatExt :=
  let path := default EMPTY_PATH path in
  stx ← call (sys_statx dir path (Z.lor AT_EMPTY_PATH AT_SYMLINK_NOFOLLOW)
                (Z.lor STATX_BASIC_STATS STATX_MNT_ID));
  mnt_id ← match statx_mount_id stx with
           | Some id => mret (Some id)
           | None => get_mount_id dir path
           end;
  match statx_stat64 stx with
  | Some st => mret (MkStatExt st (default 0 mnt_id))
  | None => fail (Os ENOSYS)
  end.

(** ** Scoped credentials and capability ([mod.rs])

    A guard restores the thread when it is dropped, on every path out of its
    scope. *)

Definition ScopedUid_new (val : Z) : hprog bool :=
  if val =? 0 then mret false else _ ← call (sys_setresuid val); mret true.

Definition ScopedGid_new (val : Z) : hprog bool :=
  if val =? 0 then mret false else _ ← call (sys_setresgid val); mret true.

(** [drop] gives back the errno it leaves behind when the call fails. *)
Definition drop_guard (guard : bool) (op : SysOp unit) (h : H) : H * option Z :=
  if guard then
    match sys op h with (h', inl errno) => (h', Some errno) | (h', inr _) => (h', None) end
  else (h, None).

(** Leaving the scope of [let (_uid, _gid) = set_creds(..)?]: the group guard
    goes first. *)
Definition drop_creds (uid_guard gid_guard : bool) (h : H) : H * option Z :=
  let '(h1, e1) := drop_guard gid_guard (sys_setresgid 0) h in
  let '(h2, e2) := drop_guard uid_guard (sys_setresuid 0) h1 in
  (h2, match e2 with Some e => Some e | None => e1 end).

(** Once the group is switched: switch the user, run [m] and leave the scope. *)
Definition scoped_creds {A : Type} (uid : Z) (gid_guard : bool) (m : hprog (Z + A)) : hprog A := fun h =>
  match ScopedUid_new uid h with
  | (h1, Ok uid_guard) =>
    let '(h2, r) := m h1 in
    let '(h3, e) := drop_creds uid_guard gid_guard h2 in
    (h3, match r with
         | Ok (inr a) => Ok a
         | Ok (inl errno) => Err (Os (default errno e))
         | Err err => Err err
         | Panic => Panic
         end)
  | (h1, Err e) => ((drop_creds false gid_guard h1).1, Err e)
  | (h1, Panic) => (h1, Panic)
  end.

(** Run [m] under [set_creds(uid, gid)].  [m] returns [inl errno] for a raw
    call whose [last_os_error] is read only after the guards are gone. *)
Definition with_creds {A : Type} (uid gid : Z) (m : hprog (Z + A)) : hprog A :=
  gid_guard ← ScopedGid_new gid;
  scoped_creds uid gid_guard m.

Definition drop_cap_fsetid : hprog bool :=
  b ← prog_map_err (fun _ => Simple PermissionDenied) (call caps_has_fsetid);
  if (b : bool) then
    _ ← prog_map_err (fun _ => Simple PermissionDenied) (call caps_drop_fsetid);
    mret true
  else mret false.

Definition scoped_cap {A : Type} (guard : bool) (m : hprog A) : hprog A := fun h =>
  let '(h1, r) := m h in
  ((drop_guard guard caps_raise_fsetid h1).1, r).

(** Run [m] while [drop_cap_fsetid()?]'s guard is alive, when [cond] asks for it. *)
Definition with_killpriv {A : Type} (cond : bool) (m : hprog A) : hprog A :=
  guard ← (if cond then drop_cap_fsetid else mret false);
  scoped_cap guard m.
End host.

Abbreviation hprog H A := (prog H io_error A).
