(* ===== verification/InodeStore.v ===== *)
(** * The inodes of the passthrough file system

    [src/passthrough/inode_store.rs], the inode part of
    [src/passthrough/mod.rs] ([InodeHandle], [InodeData], [InodeMap]) and
    [UniqueInodeGenerator] of [src/passthrough/util.rs].  An
    [Arc<InodeData>] lives in the [data] map alone between two requests, so its
    atomic reference count is a field of the entry. *)

From stdpp Require Import gmap.
From S2P Require Import Prelude Std AbiStruct Abi Host.

Definition MAX_HOST_INO : Z := 0x7fffffffffff.

(** ** Keys *)

Record InodeId : Set := MkInodeId {
  id_ino : Z;
  id_dev : Z;
  id_mnt : Z;
}.

Definition InodeId_from_stat (st : StatExt) : InodeId := {|
  id_ino := st.(se_st).(st_ino);
  id_dev := st.(se_st).(st_dev);
  id_mnt := st.(se_mnt_id);
|}.

#[global] Instance InodeId_eq_dec : EqDecision InodeId.
Proof. solve_decision. Defined.

#[global] Instance InodeId_countable : Countable InodeId.
Proof.
  refine (inj_countable' (fun i => (i.(id_ino), i.(id_dev), i.(id_mnt)))
            (fun '(a, b, c) => MkInodeId a b c) _).
  by intros [].
Defined.

#[global] Instance CFileHandle_eq_dec : EqDecision CFileHandle.
Proof. solve_decision. Defined.

#[global] Instance FileHandle_eq_dec : EqDecision FileHandle.
Proof. solve_decision. Defined.

#[global] Instance FileHandle_countable : Countable FileHandle.
Proof.
  refine (inj_countable' (fun h => (h.(fh_mnt_id), h.(fh_handle).(handle_type), h.(fh_handle).(f_handle)))
            (fun '(m, t, b) => MkFileHandle m (MkCFileHandle t b)) _).
  by intros [? []].
Defined.

(** [Ord for CFileHandle]: the length, then the type, then the bytes. *)
Fixpoint bytes_cmp (a b : bytes) : comparison :=
  match a, b with
  | [], [] => Eq
  | [], _ => Lt
  | _, [] => Gt
  | x :: a', y :: b' => match Z.compare x y with Eq => bytes_cmp a' b' | c => c end
  end.

Definition CFileHandle_cmp (a b : CFileHandle) : comparison :=
  match Z.compare (handle_bytes a) (handle_bytes b) with
  | Eq => match Z.compare a.(handle_type) b.(handle_type) with
          | Eq => bytes_cmp a.(f_handle) b.(f_handle)
          | c => c
          end
  | c => c
  end.

(** ** Inodes *)

(** [MountFd] of [mount_fd.rs], without the back pointer to its map. *)
Record MountFd : Set := MkMountFd {
  mf_file : Z;
  mf_mount_id : Z;
}.

#[global] Instance MountFd_eq_dec : EqDecision MountFd.
Proof. solve_decision. Defined.

Record OpenableFileHandle : Set := MkOpenable {
  of_handle : FileHandle;
  of_mount_fd : MountFd;
}.

Inductive InodeHandle : Set :=
| IhFile (f : Z)
| IhHandle (h : OpenableFileHandle).

Definition InodeHandle_file_handle (h : InodeHandle) : option FileHandle :=
  match h with IhFile _ => None | IhHandle o => Some o.(of_handle) end.

Section host.
Context {H : Type} `{HOST : Host H}.

Definition OpenableFileHandle_open (o : OpenableFileHandle) (flags : Z) : hprog H Z :=
  call (sys_open_by_handle_at o.(of_mount_fd).(mf_file) o.(of_handle).(fh_handle) flags).

Definition InodeHandle_get_file (h : InodeHandle) : hprog H Z :=
  match h with
  | IhFile f => mret f
  | IhHandle o => OpenableFileHandle_open o O_PATH
  end.

Definition InodeHandle_open_file (h : InodeHandle) (flags proc_self_fd : Z) : hprog H Z :=
  match h with
  | IhFile f => reopen_fd_through_proc f flags proc_self_fd
  | IhHandle o => OpenableFileHandle_open o flags
  end.

Definition InodeHandle_stat (h : InodeHandle) : hprog H stat64 :=
  match h with
  | IhFile f => stat_fd f None
  | IhHandle _ => file ← InodeHandle_get_file h; stat_fd file None
  end.
End host.

Record InodeData : Set := MkInodeData {
  nd_inode : Z;
  nd_handle : InodeHandle;
  nd_id : InodeId;
  nd_refcount : Z;
  nd_mode : Z;
}.

Definition set_refcount (d : InodeData) (n : Z) : InodeData :=
  MkInodeData d.(nd_inode) d.(nd_handle) d.(nd_id) n d.(nd_mode).

(** ** [InodeStore] *)

Record InodeStore : Set := MkInodeStore {
  sto_data : gmap Z InodeData;
  sto_by_id : gmap InodeId Z;
  sto_by_handle : gmap FileHandle Z;
}.

Definition InodeStore_default : InodeStore := MkInodeStore ∅ ∅ ∅.

Definition InodeStore_insert (s : InodeStore) (d : InodeData) : InodeStore := {|
  sto_by_id := <[d.(nd_id) := d.(nd_inode)]> s.(sto_by_id);
  sto_by_handle := match InodeHandle_file_handle d.(nd_handle) with
               | Some h => <[h := d.(nd_inode)]> s.(sto_by_handle)
               | None => s.(sto_by_handle)
               end;
  sto_data := <[d.(nd_inode) := d]> s.(sto_data);
|}.

(** The removed value is not used by any caller. *)
Definition InodeStore_remove (s : InodeStore) (i : Z) (remove_data_only : bool) : InodeStore :=
  let data' := delete i s.(sto_data) in
  if remove_data_only then MkInodeStore data' s.(sto_by_id) s.(sto_by_handle)
  else match s.(sto_data) !! i with
       | Some d => {|
           sto_data := data';
           sto_by_handle := match InodeHandle_file_handle d.(nd_handle) with
                        | Some h => delete h s.(sto_by_handle)
                        | None => s.(sto_by_handle)
                        end;
           sto_by_id := delete d.(nd_id) s.(sto_by_id);
         |}
       | None => MkInodeStore data' s.(sto_by_id) s.(sto_by_handle)
       end.

Definition InodeStore_clear (s : InodeStore) : InodeStore := MkInodeStore ∅ ∅ ∅.

Definition InodeStore_get (s : InodeStore) (i : Z) : option InodeData := s.(sto_data) !! i.
Definition inode_by_id (s : InodeStore) (k : InodeId) : option Z := s.(sto_by_id) !! k.
Definition inode_by_handle (s : InodeStore) (k : FileHandle) : option Z := s.(sto_by_handle) !! k.

Definition get_by_id (s : InodeStore) (k : InodeId) : option InodeData :=
  i ← inode_by_id s k; InodeStore_get s i.

Definition get_by_handle (s : InodeStore) (k : FileHandle) : option InodeData :=
  i ← inode_by_handle s k; InodeStore_get s i.

(** [data.refcount.store] on the shared object. *)
Definition store_refcount (s : InodeStore) (i n : Z) : InodeStore :=
  MkInodeStore (alter (fun d => set_refcount d n) i s.(sto_data)) s.(sto_by_id) s.(sto_by_handle).

(** ** [InodeMap] *)

Definition InodeMap_get (s : InodeStore) (i : Z) : io_result InodeData :=
  match InodeStore_get s i with Some d => Ok d | None => Err ebadf end.

Definition get_inode_locked (s : InodeStore) (k : InodeId) (handle_opt : option FileHandle) : option Z :=
  match handle_opt with
  | Some h => inode_by_handle s h
  | None => inode_by_id s k
  end.

Definition get_alt_locked (s : InodeStore) (k : InodeId) (handle_opt : option FileHandle)
    : option InodeData :=
  match handle_opt ≫= get_by_handle s with
  | Some d => Some d
  | None =>
    match get_by_id s k with
    | Some d =>
      if bool_decide (handle_opt = None) || bool_decide (InodeHandle_file_handle d.(nd_handle) = None)
      then Some d else None
    | None => None
    end
  end.

(** ** [UniqueInodeGenerator] *)

Definition VIRTUAL_INODE_FLAG : Z := Z.shiftl 1 55.

Record UniqueInodeGenerator : Set := MkGenerator {
  dev_mntid_map : gmap (Z * Z) Z;
  next_unique_id : Z;
  next_virtual_inode : Z;
}.

Definition UniqueInodeGenerator_new : UniqueInodeGenerator := MkGenerator ∅ 1 (ROOT_ID + 1).

(** The small id of a (device, mount) pair, allocated on first use. *)
Definition get_unique_id (k : InodeId) : prog UniqueInodeGenerator io_error Z := fun g =>
  match g.(dev_mntid_map) !! (k.(id_dev), k.(id_mnt)) with
  | Some v => (g, Ok v)
  | None =>
    if g.(next_unique_id) =? U8_MAX then (g, Err (Simple Other))
    else
      let next_id := g.(next_unique_id) in
      (MkGenerator (<[(k.(id_dev), k.(id_mnt)) := next_id]> g.(dev_mntid_map))
         (wrap 8 (next_id + 1)) g.(next_virtual_inode), Ok next_id)
  end.

Definition get_virtual_inode : prog UniqueInodeGenerator io_error Z := fun g =>
  if MAX_HOST_INO <? g.(next_virtual_inode) then (g, Err (Simple Other))
  else
    (MkGenerator g.(dev_mntid_map) g.(next_unique_id) (wrap 64 (g.(next_virtual_inode) + 1)),
     Ok (Z.lor g.(next_virtual_inode) VIRTUAL_INODE_FLAG)).

Definition get_unique_inode (k : InodeId) : prog UniqueInodeGenerator io_error Z :=
  unique_id ← get_unique_id k;
  ino ← (if k.(id_ino) <=? MAX_HOST_INO then mret k.(id_ino) else get_virtual_inode);
  mret (Z.lor (wrap 64 (Z.shiftl unique_id 47)) ino).
