(* ===== verification/MountFds.v ===== *)
(** * Mount descriptors ([src/passthrough/mount_fd.rs])

    [MountFds] maps a mount id to a descriptor on that mount, found by parsing
    [/proc/self/mountinfo].  The map holds [Weak] pointers and an entry leaves
    it when the last [Arc<MountFd>] is dropped, so between two requests it
    holds exactly the live entries and [upgrade] succeeds on each.
    Descriptions of errors go to the log only and are not modelled. *)

From stdpp Require Import gmap.
From S2P Require Import Prelude Std AbiStruct Host InodeStore.

(** ["/proc/self/mountinfo"] *)
Definition MOUNT_INFO_FILE : CStr :=
  [47; 112; 114; 111; 99; 47; 115; 101; 108; 102; 47; 109; 111; 117; 110; 116; 105; 110; 102; 111].

Record MPRError : Set := MkMPRError {
  mpr_io : io_error;
  mpr_silent : bool;
  mpr_fs_mount_id : option Z;
  mpr_fs_mount_root : option bytes;
}.

Record MountFds : Set := MkMountFds {
  mfs_map : gmap Z MountFd;
  mfs_mount_info : Z;
  mfs_mount_prefix : option bytes;
  mfs_error_logged : gset Z;
}.

Definition with_mount_info_file (mount_info : Z) (mount_prefix : option bytes) : MountFds :=
  MkMountFds ∅ mount_info mount_prefix ∅.

Definition set_map (m : MountFds) (map : gmap Z MountFd) : MountFds :=
  MkMountFds map m.(mfs_mount_info) m.(mfs_mount_prefix) m.(mfs_error_logged).

(** ** Parsing [mountinfo] *)

(** [char::is_whitespace]: the length of the white-space character the UTF-8
    text starts with, zero when it starts with another. *)
Definition whitespace_len (l : bytes) : nat :=
  match l with
  | b0 :: l0 =>
    if in_range 9 13 b0 || (b0 =? 32) then 1%nat
    else match l0 with
    | b1 :: l1 =>
      if (b0 =? 0xc2) && ((b1 =? 0x85) || (b1 =? 0xa0)) then 2%nat
      else match l1 with
      | b2 :: _ =>
        if ((b0 =? 0xe1) && (b1 =? 0x9a) && (b2 =? 0x80))
           || ((b0 =? 0xe2) && (b1 =? 0x80)
               && (in_range 0x80 0x8a b2 || (b2 =? 0xa8) || (b2 =? 0xa9) || (b2 =? 0xaf)))
           || ((b0 =? 0xe2) && (b1 =? 0x81) && (b2 =? 0x9f))
           || ((b0 =? 0xe3) && (b1 =? 0x80) && (b2 =? 0x80))
        then 3%nat else O
      | [] => O
      end
    | [] => O
    end
  | [] => O
  end.

(** [line.split(char::is_whitespace)]: every step eats a byte of [l]. *)
Fixpoint split_whitespace (fuel : nat) (cur l : bytes) : list bytes :=
  match fuel with
  | O => [cur]
  | S f =>
    match l with
    | [] => [cur]
    | b :: l' =>
      match whitespace_len l with
      | O => split_whitespace f (cur ++ [b]) l'
      | n => cur :: split_whitespace f [] (drop n l)
      end
    end
  end.

Fixpoint parse_digits (acc : Z) (l : bytes) : option Z :=
  match l with
  | [] => Some acc
  | b :: l' =>
    if in_range 48 57 b then
      let acc' := 10 * acc + (b - 48) in
      if acc' <=? U64_MAX then parse_digits acc' l' else None
    else None
  end.

(** [str::parse::<u64>] *)
Definition parse_u64 (l : bytes) : option Z :=
  match l with
  | [] => None
  | b :: l' => if b =? 43 then match l' with [] => None | _ => parse_digits 0 l' end
               else parse_digits 0 l
  end.

(** The mount point of a line about [mount_id]: the column after the parent
    id, the device and the root. *)
Definition mountinfo_line (mount_id : Z) (line : bytes) : option bytes :=
  let columns := split_whitespace (length line) [] line in
  first ← columns !! 0%nat;
  n ← parse_u64 first;
  if n =? mount_id then columns !! 4%nat else None.

Fixpoint find_map {A B} (f : A -> option B) (l : list A) : option B :=
  match l with
  | [] => None
  | x :: l' => match f x with Some y => Some y | None => find_map f l' end
  end.

Definition mount_path (mountinfo : bytes) (mount_id : Z) : option bytes :=
  find_map (mountinfo_line mount_id) (split_on 10 mountinfo).

(** [p.strip_prefix(prefix).filter(|s| !s.is_empty())] or ["/"] *)
Definition strip_mount_prefix (prefix p : bytes) : bytes :=
  if starts_with prefix p then
    match drop (length prefix) p with [] => [SLASH] | suffix => suffix end
  else [SLASH].

(** ** [MountFds] *)

Section mount_fds.
Context {H : Type} `{HOST : Host H}.

Abbreviation mprog A := (prog (MountFds * H) MPRError A).

Definition error_for_nolookup {A} (mount_id : Z) (err : io_error) : mprog A := fun '(m, h) =>
  if bool_decide (mount_id ∈ m.(mfs_error_logged)) then
    ((m, h), Err (MkMPRError err true (Some mount_id) None))
  else
    ((MkMountFds m.(mfs_map) m.(mfs_mount_info) m.(mfs_mount_prefix) ({[mount_id]} ∪ m.(mfs_error_logged)), h),
     Err (MkMPRError err false (Some mount_id) None)).

(** [.map_err(|e| self.error_for_nolookup(mount_id, e))?] *)
Definition or_nolookup {A} (mount_id : Z) (m : hprog H A) : mprog A := fun '(fds, h) =>
  match m h with
  | (h', Ok a) => ((fds, h'), Ok a)
  | (h', Err e) => error_for_nolookup mount_id e (fds, h')
  | (h', Panic) => ((fds, h'), Panic)
  end.

(** [File::read_to_string] *)
Definition read_mountinfo : hprog H bytes :=
  text ← call sys_mountinfo_read;
  match to_str text with Ok s => mret s | _ => fail (Simple InvalidData) end.

Definition get_mount_root (mount_id : Z) : mprog bytes :=
  _ ← or_nolookup mount_id (call sys_mountinfo_rewind);
  mountinfo ← or_nolookup mount_id read_mountinfo;
  match mount_path mountinfo mount_id with
  | Some p =>
    prefix ← gets (fun s => s.1.(mfs_mount_prefix));
    mret (match prefix with Some prefix => strip_mount_prefix prefix p | None => p end)
  | None => error_for_nolookup mount_id einval
  end.

(** A first error about a mount is completed with the mount's root. *)
Definition error_for {A} (mount_id : Z) (err : io_error) : mprog A := fun s =>
  match error_for_nolookup (A := A) mount_id err s with
  | (s1, Err e) =>
    if e.(mpr_silent) then (s1, Err e)
    else match get_mount_root mount_id s1 with
         | (s2, Ok root) => (s2, Err (MkMPRError e.(mpr_io) e.(mpr_silent) e.(mpr_fs_mount_id) (Some root)))
         | (s2, Err _) => (s2, Err e)
         | (s2, Panic) => (s2, Panic)
         end
  | r => r
  end.

Definition or_error_for {A} (mount_id : Z) (m : hprog H A) : mprog A := fun '(fds, h) =>
  match m h with
  | (h', Ok a) => ((fds, h'), Ok a)
  | (h', Err e) => error_for mount_id e (fds, h')
  | (h', Panic) => ((fds, h'), Panic)
  end.

Definition validate_mount_id (mount_id mount_point_fd : Z) : mprog Z :=
  stx ← or_error_for mount_id (statx mount_point_fd None);
  if stx.(se_mnt_id) =? mount_id then mret stx.(se_st).(st_mode)
  else error_for mount_id (Os EIO).

Definition open_mount (mount_id : Z) (reopen_fd : Z -> Z -> Z -> hprog H Z) : mprog Z :=
  mount_point ← get_mount_root mount_id;
  c_mount_point ← or_error_for mount_id
    (if cstr_ok mount_point then mret mount_point else fail (Simple InvalidInput));
  mount_point_fd ← or_error_for mount_id (call (sys_open c_mount_point O_PATH));
  st_mode ← validate_mount_id mount_id mount_point_fd;
  if is_safe_inode (Z.land st_mode S_IFMT) then
    or_error_for mount_id
      (reopen_fd mount_point_fd (Z.lor O_RDONLY (Z.lor O_NOFOLLOW O_CLOEXEC)) st_mode)
  else error_for mount_id (Os EIO).

Definition insert_mount_fd (mount_id file : Z) : mprog MountFd := fun '(m, h) =>
  match m.(mfs_map) !! mount_id with
  | Some mount_fd => ((m, h), Ok mount_fd)
  | None =>
    let mount_fd := MkMountFd file mount_id in
    ((set_map m (<[mount_id := mount_fd]> m.(mfs_map)), h), Ok mount_fd)
  end.

Definition MountFds_get (mount_id : Z) (reopen_fd : Z -> Z -> Z -> hprog H Z) : mprog MountFd :=
  existing_mount_fd ← gets (fun s => s.1.(mfs_map) !! mount_id);
  match existing_mount_fd with
  | Some mount_fd => mret mount_fd
  | None => file ← open_mount mount_id reopen_fd; insert_mount_fd mount_id file
  end.

(** [FileHandle::into_openable] *)
Definition into_openable (fh : FileHandle) (reopen_fd : Z -> Z -> Z -> hprog H Z) : mprog OpenableFileHandle :=
  mount_fd ← MountFds_get fh.(fh_mnt_id) reopen_fd;
  mret (MkOpenable fh mount_fd).

Definition MountFds_new (mount_prefix : option bytes) : hprog H MountFds :=
  fd ← call (sys_open MOUNT_INFO_FILE (Z.lor O_RDONLY O_CLOEXEC));
  mret (with_mount_info_file fd mount_prefix).
End mount_fds.

(** [Drop for MountFd], once per inode that goes away: an entry to which no
    inode of the store refers any more leaves the map. *)
Definition refers_to (mfd : MountFd) (d : InodeData) : bool :=
  match d.(nd_handle) with
  | IhHandle o => bool_decide (o.(of_mount_fd) = mfd)
  | IhFile _ => false
  end.

Definition drop_mount_fds (s : InodeStore) (m : MountFds) : MountFds :=
  set_map m (filter (fun e => existsb (refers_to e.2) (map snd (map_to_list s.(sto_data))) = true)
               m.(mfs_map)).
