(* ===== verification/HostLaws.v ===== *)
(** * What the passthrough file system relies on in its host

    [HostOk] collects the documented behaviour of the kernel the code trusts
    without checking; [HostCreds] is what credentials(7) and capabilities(7)
    say of the calls that switch the thread's identity.  The lemmas derive
    that the wrappers do not panic and that the scoped guards put the
    credentials back.  The second part is about hosts that keep a record of the
    calls made on them. *)

From stdpp Require Import prelude.
From S2P Require Import Prelude Std Codec AbiStruct FsTypes FileSystem ProgLogic Host InodeStore MountFds.

(** ** Directory records *)

(** One record of [getdents64]: the name ends in a nul and is padded. *)
Record HostDirent : Set := MkHostDirent {
  hde_ino : Z;
  hde_off : Z;
  hde_ty : Z;
  hde_name : bytes;
  hde_pad : nat;
}.

Definition hde_reclen (r : HostDirent) : Z := 20 + zlen r.(hde_name) + Z.of_nat r.(hde_pad).

Definition dirent_image (r : HostDirent) : bytes :=
  encode dirent64_layout [r.(hde_ino); r.(hde_off); hde_reclen r; r.(hde_ty)]
  ++ r.(hde_name) ++ repeat 0 (S r.(hde_pad)).

Definition hde_ok (r : HostDirent) : bool :=
  fields_ok dirent64_layout [r.(hde_ino); r.(hde_off); hde_reclen r; r.(hde_ty)]
  && cstr_ok r.(hde_name) && match r.(hde_name) with [] => false | _ => true end.

Class HostOk (H : Type) `{Host H} : Prop := {
  host_getdents : forall fd size (h : H) b,
    (sys (sys_getdents64 fd size) h).2 = inr b ->
    zlen b <= size /\
    exists records, Forall (fun r => hde_ok r = true) records /\ b = concat (map dirent_image records);
  host_preadv : forall fd count offset (h : H) b,
    (sys (sys_preadv fd count offset) h).2 = inr b -> zlen b <= count;
  host_handle_size : forall fd path size flags (h : H) errno needed,
    (sys (sys_name_to_handle_at fd path size flags) h).2 = inr (NthErr errno needed) ->
    needed <= MAX_HANDLE_SIZE;
}.

(** ** Credentials *)

Record Creds : Set := MkCreds {
  cr_euid : Z;
  cr_egid : Z;
  cr_fsetid : bool;
  cr_permitted : bool;
}.

(** Changing the effective uid from or to zero clears or refills the effective
    capabilities. *)
Definition set_euid (c : Creds) (v : Z) : Creds := {|
  cr_euid := v;
  cr_egid := c.(cr_egid);
  cr_fsetid := if c.(cr_euid) =? 0 then (if v =? 0 then c.(cr_fsetid) else false)
               else (if v =? 0 then c.(cr_permitted) else c.(cr_fsetid));
  cr_permitted := c.(cr_permitted);
|}.

Definition set_egid (c : Creds) (v : Z) : Creds :=
  MkCreds c.(cr_euid) v c.(cr_fsetid) c.(cr_permitted).

Definition set_fsetid (c : Creds) (b : bool) : Creds :=
  MkCreds c.(cr_euid) c.(cr_egid) b c.(cr_permitted).

Definition cred_op {A} (op : SysOp A) : bool :=
  match op with
  | sys_setresuid _ | sys_setresgid _ | caps_drop_fsetid | caps_raise_fsetid => true
  | _ => false
  end.

(** The server is started as root: going back to the ids zero, which stay the
    real and saved ones, never fails. *)
Class HostCreds (H : Type) `{Host H} : Type := {
  creds : H -> Creds;
  creds_other : forall (A : Set) (op : SysOp A) (h : H), cred_op op = false -> creds (sys op h).1 = creds h;
  creds_setresuid : forall v h,
    match sys (sys_setresuid v) h with
    | (h', inr _) => creds h' = set_euid (creds h) v
    | (h', inl _) => creds h' = creds h /\ v <> 0
    end;
  creds_setresgid : forall v h,
    match sys (sys_setresgid v) h with
    | (h', inr _) => creds h' = set_egid (creds h) v
    | (h', inl _) => creds h' = creds h /\ v <> 0
    end;
  creds_has_fsetid : forall h b, (sys caps_has_fsetid h).2 = inr b -> b = (creds h).(cr_fsetid);
  creds_drop_fsetid : forall h,
    match sys caps_drop_fsetid h with
    | (h', inr _) => creds h' = set_fsetid (creds h) false
    | (h', inl _) => creds h' = creds h
    end;
  creds_raise_fsetid : forall h,
    match sys caps_raise_fsetid h with
    | (h', inr _) => creds h' = set_fsetid (creds h) true
    | (h', inl _) => creds h' = creds h /\ (creds h).(cr_permitted) = false
    end;
}.

(** The credentials a request starts and ends with. *)
Definition rooted (c : Creds) : Prop :=
  c.(cr_euid) = 0 /\ c.(cr_egid) = 0 /\ c.(cr_fsetid) = c.(cr_permitted).

(** ** Absence of panics *)

Section no_panic.
Context {H : Type} `{HO : HostOk H}.

Lemma call_no_panic {A : Set} (op : SysOp A) : no_panic (call (H := H) op).
Proof. intros h. unfold call. by destruct (sys op h) as [h' [e|a]]. Qed.

Lemma attempt_no_panic {A : Set} (op : SysOp A) : no_panic (attempt (H := H) op).
Proof. intros h. unfold attempt. by destruct (sys op h). Qed.

Lemma openat_no_panic fd path flags mode : no_panic (openat (H := H) fd path flags mode).
Proof. apply call_no_panic. Qed.

Lemma from_name_at_no_panic fd path : no_panic (FileHandle_from_name_at (H := H) fd path).
Proof.
  intros h. unfold FileHandle_from_name_at, call, mbind, prog_mbind, prog_bind.
  destruct (sys (sys_name_to_handle_at fd path 0 AT_EMPTY_PATH) h) as [h1 [e|[errno needed|]]] eqn:Hs;
    [done| |done].
  apply (f_equal snd), host_handle_size in Hs. destruct (errno =? EOVERFLOW); [|by destruct (errno =? EOPNOTSUPP)].
  rewrite (proj2 (Z.ltb_ge _ _)) by done.
  by destruct (sys (sys_name_to_handle_at fd path needed AT_EMPTY_PATH) h1) as [h2 [e|[]]].
Qed.

Lemma statx_no_panic fd path : no_panic (statx (H := H) fd path).
Proof.
  unfold statx. apply no_panic_bind; [apply call_no_panic|]. intros stx.
  apply no_panic_bind; [|intros m; by destruct (statx_stat64 stx)].
  destruct (statx_mount_id stx); [by intros h|]. intros h. unfold get_mount_id.
  pose proof (from_name_at_no_panic fd (default EMPTY_PATH path) h) as Hp.
  by destruct (FileHandle_from_name_at _ _ h) as [h' [[]|e|]].
Qed.

Lemma ScopedUid_new_no_panic v : no_panic (ScopedUid_new (H := H) v).
Proof.
  unfold ScopedUid_new. destruct (v =? 0); [by intros h|].
  apply no_panic_bind; [apply call_no_panic|by intros ? h].
Qed.

Lemma with_creds_no_panic {A} uid gid (m : hprog H (Z + A)) : no_panic m -> no_panic (with_creds uid gid m).
Proof.
  intros Hm. unfold with_creds. apply no_panic_bind.
  { unfold ScopedGid_new. destruct (gid =? 0); [by intros h|].
    apply no_panic_bind; [apply call_no_panic|by intros ? h]. }
  intros g h. unfold scoped_creds. pose proof (ScopedUid_new_no_panic uid h) as Hu.
  destruct (ScopedUid_new uid h) as [h1 [u|e|]]; [|done|done].
  specialize (Hm h1). destruct (m h1) as [h2 r], (drop_creds u g h2) as [h3 e].
  by destruct r as [[]| |].
Qed.

Lemma with_killpriv_no_panic {A} b (m : hprog H A) : no_panic m -> no_panic (with_killpriv b m).
Proof.
  intros Hm. unfold with_killpriv. apply no_panic_bind.
  - destruct b; [|by intros h]. unfold drop_cap_fsetid, prog_map_err, call. intros h.
    unfold mbind, prog_mbind, prog_bind. destruct (sys caps_has_fsetid h) as [h1 [e|[]]]; [done| |done].
    cbn. by destruct (sys caps_drop_fsetid h1) as [h2 [e|[]]].
  - intros g h. unfold scoped_cap. specialize (Hm h). by destruct (m h).
Qed.
End no_panic.

#[export] Hint Resolve call_no_panic attempt_no_panic openat_no_panic from_name_at_no_panic
  statx_no_panic with_creds_no_panic with_killpriv_no_panic : fuse.

(** ** What the programs call

    The calls that neither change the credentials nor create a node.  A path
    below a directory descriptor satisfies [N], and a link it ends in is not
    followed unless the path is the number of a descriptor (or empty).  An
    extended attribute is reached through [/proc/self/fd].  An absolute path is
    opened for one purpose only, which [calls_mount] below is about. *)

Definition fd_like (path : CStr) : bool := forallb (fun c => (c =? 45) || ((48 <=? c) && (c <=? 57))) path.

Definition AT_SYMLINK_FOLLOW : Z := 0x400.

Definition proc_fd_path (path : CStr) : bool :=
  starts_with (PROC_SELF_FD ++ [47]) path && fd_like (drop (length (PROC_SELF_FD ++ [47])) path).

Definition plain (N : CStr -> bool) {A} (op : SysOp A) : bool :=
  match op with
  | sys_openat _ path flags mode => N path && (has_flag flags O_NOFOLLOW || fd_like path) && negb (bool_decide (is_Some mode))
  | sys_fstatat _ path flags | sys_statx _ path flags _ | sys_fchmodat _ path _ flags | sys_fchownat _ path _ _ flags
  | sys_utimensat _ path _ _ flags => N path && (has_flag flags AT_SYMLINK_NOFOLLOW || fd_like path)
  | sys_name_to_handle_at _ path _ flags => N path && negb (has_flag flags AT_SYMLINK_FOLLOW)
  | sys_linkat _ oldpath _ newpath flags => N oldpath && N newpath && negb (has_flag flags AT_SYMLINK_FOLLOW)
  | sys_renameat2 _ oldpath _ newpath _ => N oldpath && N newpath
  | sys_unlinkat _ path _ | sys_readlinkat _ path _ => N path
  | sys_setxattr path _ _ _ | sys_getxattr path _ _ | sys_listxattr path _ | sys_removexattr path _ => proc_fd_path path
  | sys_open _ _ | sys_mkdirat _ _ _ | sys_mknodat _ _ _ _ | sys_symlinkat _ _ _
  | sys_setresuid _ | sys_setresgid _ | caps_drop_fsetid | caps_raise_fsetid => false
  | sys_open_by_handle_at _ _ _ | sys_fchmod _ _ | sys_ftruncate _ _ | sys_futimens _ _ _ | sys_dup _ | sys_close _
  | sys_fsync _ | sys_fdatasync _ | sys_fallocate64 _ _ _ _ | sys_lseek _ _ _ | sys_getdents64 _ _ | sys_fstatvfs64 _
  | sys_fcntl_setfl _ _ | sys_preadv _ _ _ | sys_pwritev _ _ _ | sys_umask _ | sys_mountinfo_rewind | sys_mountinfo_read
  | caps_has_fsetid => true
  end.

(** [path] is the mount point of a line of [mountinfo], without the prefix that
    is configured to be cut off. *)
Definition mount_point_in (text : bytes) (path : CStr) : Prop :=
  exists id p prefix, mount_path text id = Some p /\
    path = match prefix with Some prefix => strip_mount_prefix prefix p | None => p end.

(** [R] allows every such call, and to open a mount point just read from
    [mountinfo] with [O_PATH]. *)
Class Calls {H : Type} `{Host H} (R : relation H) (N : CStr -> bool) : Prop := {
  calls_preorder :: PreOrder R;
  calls_fd : forall path, fd_like path = true -> N path = true;
  calls_step : forall (A : Set) (op : SysOp A) h, plain N op = true -> R h (sys op h).1;
  calls_mount : forall h h' text path, sys sys_mountinfo_read h = (h', inr text) -> mount_point_in text path ->
    R h (sys (sys_open path O_PATH) h').1;
}.

Lemma dec_digits_like fuel n : 0 <= n -> fd_like (dec_digits fuel n) = true.
Proof.
  revert n. induction fuel as [|fuel IH]; intros n Hn; [done|]. cbn -[Z.ltb Z.leb Z.eqb Z.div Z.modulo].
  destruct (Z.ltb_spec n 10); unfold fd_like; rewrite ?forallb_app; cbn -[Z.leb Z.eqb Z.div Z.modulo].
  - rewrite !(proj2 (Z.leb_le _ _)) by lia. by rewrite orb_true_r.
  - pose proof (Z.mod_pos_bound n 10 ltac:(lia)). fold (fd_like (dec_digits fuel (n / 10))).
    rewrite IH by (apply Z.div_pos; lia). rewrite !(proj2 (Z.leb_le _ _)) by lia. by rewrite orb_true_r.
Qed.

Lemma fd_name_like fd : fd_like (fd_name fd) = true.
Proof. unfold fd_name. destruct (Z.ltb_spec fd 0); apply dec_digits_like; lia. Qed.

Lemma proc_path_fd fd : proc_fd_path (proc_path fd) = true.
Proof.
  unfold proc_fd_path, proc_path. change (PROC_SELF_FD ++ 47 :: fd_name fd) with ((PROC_SELF_FD ++ [47]) ++ fd_name fd).
  by rewrite drop_app_length, fd_name_like.
Qed.

(** The calls a relation allows. *)
Ltac plain_op :=
  cbn [plain cred_op negb]; repeat (apply andb_true_intro; split);
  first [reflexivity | assumption | apply calls_fd; reflexivity | apply calls_fd, fd_name_like
        | by rewrite fd_name_like | apply proc_path_fd].

Section calls.
Context {H : Type} `{HOST : Host H} (R : relation H) {N : CStr -> bool} `{CS : !Calls R N}.

Lemma call_pres {A : Set} (op : SysOp A) : plain N op = true -> pres R (call op).
Proof. intros Hop h. unfold call. pose proof (calls_step A op h Hop) as Hs. by destruct (sys op h) as [h' []]. Qed.

Lemma attempt_pres {A : Set} (op : SysOp A) : plain N op = true -> pres R (attempt op).
Proof. intros Hop h. unfold attempt. pose proof (calls_step A op h Hop) as Hs. by destruct (sys op h) as [h' []]. Qed.

Lemma reopen_pres fd flags proc : pres R (reopen_fd_through_proc fd flags proc).
Proof.
  apply call_pres. cbn [plain]. rewrite fd_name_like, orb_true_r, (calls_fd _ (fd_name_like fd)).
  by rewrite Z.land_ldiff.
Qed.

Lemma from_name_at_pres fd path : N path = true -> pres R (FileHandle_from_name_at fd path).
Proof.
  intros Hp. unfold FileHandle_from_name_at. apply pres_bind; [apply _|apply call_pres; cbn [plain]; by rewrite Hp|]. intros [errno needed|]; [|by intros h].
  destruct (errno =? EOVERFLOW); [|by destruct (errno =? EOPNOTSUPP); intros h].
  destruct (MAX_HANDLE_SIZE <? needed); [by intros h|].
  apply pres_bind; [apply _|apply call_pres; cbn [plain]; by rewrite Hp|]. intros []; by intros h.
Qed.

Lemma statx_pres fd path : N (default EMPTY_PATH path) = true -> pres R (statx fd path).
Proof.
  intros Hp. unfold statx. apply pres_bind; [apply _|apply call_pres; cbn [plain]; by rewrite Hp|]. intros stx.
  apply pres_bind; [apply _| |intros m; by destruct (statx_stat64 stx); intros h].
  destruct (statx_mount_id stx); [by intros h|]. intros h. unfold get_mount_id.
  pose proof (from_name_at_pres fd (default EMPTY_PATH path) Hp h) as Hc.
  by destruct (FileHandle_from_name_at _ _ h) as [h' [[]|e|]].
Qed.
End calls.

#[export] Hint Extern 1 (pres ?R (reopen_fd_through_proc _ _ _)) => apply (reopen_pres R) : fuse.
#[export] Hint Extern 1 (pres ?R (FileHandle_from_name_at _ _)) => apply (from_name_at_pres R); plain_op : fuse.
#[export] Hint Extern 1 (pres ?R (statx _ _)) => apply (statx_pres R); plain_op : fuse.

(** ** What a request may do

    [R] allows the plain calls and the two kinds of guards; within the
    credentials of the caller, [inside] also allows the calls that create a
    node with a name in [N]. *)

Definition creates (N : CStr -> bool) {A} (op : SysOp A) : bool :=
  match op with
  | sys_mkdirat _ path _ | sys_mknodat _ path _ _ | sys_symlinkat _ _ path => N path
  | sys_openat _ path flags (Some _) => N path && has_flag flags O_EXCL
  | _ => false
  end.

Class Scoped {H : Type} `{Host H} (R : relation H) (N : CStr -> bool) (uid gid : Z) : Type := {
  scoped_calls :: Calls R N;
  scoped_dot : N [46] = true;
  inside : relation H;
  inside_calls : Calls inside N;
  inside_step : forall (A : Set) (op : SysOp A) h, creates N op = true -> inside h (sys op h).1;
  scoped_with_creds : forall A (m : hprog H (Z + A)),
    pres inside m -> pres R (with_creds uid gid m);
  scoped_with_killpriv : forall A b (m : hprog H A), pres R m -> pres R (with_killpriv b m);
}.
#[global] Existing Instance inside_calls | 10.

(** ** The guards put the credentials back *)

Section creds.
Context {H : Type} `{HC : HostCreds H}.

(** [m] never touches the credentials. *)
Definition same_creds : relation H := fun h h' => creds h' = creds h.

(** Run as root, [m] leaves the ids and the permitted capability alone, and
    the effective capability as it was or refilled from the permitted one. *)
Definition creds_back : relation H := fun h h' =>
  let c := creds h in let c' := creds h' in
  c.(cr_euid) = 0 -> c.(cr_egid) = 0 ->
  c'.(cr_euid) = 0 /\ c'.(cr_egid) = 0 /\ c'.(cr_permitted) = c.(cr_permitted) /\
  (c'.(cr_fsetid) = c.(cr_fsetid) \/ c'.(cr_fsetid) = c.(cr_permitted)).

#[global] Instance same_creds_preorder : PreOrder same_creds.
Proof. split; [by intros h|]. intros h1 h2 h3 H1 H2. unfold same_creds in *. congruence. Qed.

#[global] Instance creds_back_preorder : PreOrder creds_back.
Proof.
  split; unfold creds_back.
  - intros h. auto.
  - intros h1 h2 h3 H12 H23 Hu Hg.
    destruct (H12 Hu Hg) as (Hu2 & Hg2 & Hp2 & Hf2). destruct (H23 Hu2 Hg2) as (Hu3 & Hg3 & Hp3 & Hf3).
    rewrite <- Hp2. intuition congruence.
Qed.

Lemma same_creds_back h h' : same_creds h h' -> creds_back h h'.
Proof. unfold same_creds, creds_back. intros -> Hu Hg. auto. Qed.

Lemma neutral_back {A} (m : hprog H A) : pres same_creds m -> pres creds_back m.
Proof. intros Hm h. apply same_creds_back, Hm. Qed.

#[global] Instance same_creds_calls : Calls same_creds (fun _ => true).
Proof.
  split; [apply _|done| |].
  - intros A op h Hop. apply creds_other. by destruct op.
  - intros h h' text path Hr _. pose proof (creds_other _ sys_mountinfo_read h eq_refl) as E. rewrite Hr in E.
    unfold same_creds. by rewrite creds_other.
Qed.

#[global] Instance creds_back_calls : Calls creds_back (fun _ => true).
Proof.
  split; [apply _|done| |]; intros; apply same_creds_back; [by apply (calls_step (R := same_creds))|].
  by eapply (calls_mount (R := same_creds)).
Qed.

(** From root, the credentials come back as they were. *)
Lemma creds_back_rooted h h' : creds_back h h' -> rooted (creds h) -> creds h' = creds h.
Proof.
  intros Hb (Hu & Hg & Hf). destruct (Hb Hu Hg) as (Hu' & Hg' & Hp' & Hf').
  destruct (creds h), (creds h'). cbn in *. rewrite <- Hf in *. destruct Hf'; congruence.
Qed.

Lemma call_neutral {A : Set} (op : SysOp A) : cred_op op = false -> pres same_creds (call (H := H) op).
Proof.
  intros Hop h. unfold call. pose proof (creds_other A op h Hop) as Hc.
  by destruct (sys op h) as [h' [e|a]].
Qed.

Lemma attempt_neutral {A : Set} (op : SysOp A) : cred_op op = false -> pres same_creds (attempt (H := H) op).
Proof. intros Hop h. unfold attempt. pose proof (creds_other A op h Hop) as Hc. by destruct (sys op h). Qed.

(** Entering and leaving the scope of the two ids. *)
Lemma ScopedUid_creds v h h' r :
  ScopedUid_new v h = (h', r) ->
  match r with
  | Ok guard => creds h' = (if guard then set_euid (creds h) v else creds h) /\ guard = negb (v =? 0)
  | Err _ => creds h' = creds h
  | Panic => False
  end.
Proof.
  unfold ScopedUid_new. destruct (v =? 0); [by intros [= <- <-]|].
  unfold call, mbind, prog_mbind, prog_bind. pose proof (creds_setresuid v h) as Hc.
  destruct (sys (sys_setresuid v) h) as [h1 [e|[]]]; by intros [= <- <-]; try apply Hc.
Qed.

Lemma ScopedGid_creds v h h' r :
  ScopedGid_new v h = (h', r) ->
  match r with
  | Ok guard => creds h' = (if guard then set_egid (creds h) v else creds h) /\ guard = negb (v =? 0)
  | Err _ => creds h' = creds h
  | Panic => False
  end.
Proof.
  unfold ScopedGid_new. destruct (v =? 0); [by intros [= <- <-]|].
  unfold call, mbind, prog_mbind, prog_bind. pose proof (creds_setresgid v h) as Hc.
  destruct (sys (sys_setresgid v) h) as [h1 [e|[]]]; by intros [= <- <-]; try apply Hc.
Qed.

Lemma drop_creds_creds u g h :
  creds (drop_creds u g h).1 =
  let c := if g then set_egid (creds h) 0 else creds h in if u then set_euid c 0 else c.
Proof.
  unfold drop_creds, drop_guard. pose proof (creds_setresgid 0 h) as Hg.
  destruct g; [destruct (sys (sys_setresgid 0) h) as [h1 [e|[]]]; [by destruct Hg|]|];
    (destruct u; [|done]).
  - pose proof (creds_setresuid 0 h1) as Hu.
    destruct (sys (sys_setresuid 0) h1) as [h2 [e|[]]]; [by destruct Hu|]. cbn in *. by rewrite Hu, Hg.
  - pose proof (creds_setresuid 0 h) as Hu.
    destruct (sys (sys_setresuid 0) h) as [h2 [e|[]]]; [by destruct Hu|]. done.
Qed.

Lemma with_creds_back {A} uid gid (m : hprog H (Z + A)) :
  pres same_creds m -> pres creds_back (with_creds uid gid m).
Proof.
  intros Hm h. unfold with_creds, mbind, prog_mbind, prog_bind.
  destruct (ScopedGid_new gid h) as [h1 r1] eqn:Hg. apply ScopedGid_creds in Hg.
  destruct r1 as [g|e|]; [destruct Hg as [Hg Hgz]|by apply same_creds_back|done].
  unfold scoped_creds. destruct (ScopedUid_new uid h1) as [h2 r2] eqn:Hu. apply ScopedUid_creds in Hu.
  intros Heu Heg. destruct r2 as [u|e|]; [| |done].
  - destruct Hu as [Hu Huz]. specialize (Hm h2). destruct (m h2) as [h3 r3]. cbn in Hm. unfold same_creds in Hm.
    pose proof (drop_creds_creds u g h3) as Hd. destruct (drop_creds u g h3) as [h4 e4]. cbn in Hd |- *.
    rewrite Hd, Hm, Hu, Hg.
    destruct (creds h) as [eu eg fs pm]; cbn in *; subst eu eg.
    destruct g, u; cbn; rewrite ?Huz; auto; destruct (uid =? 0) eqn:?; try done; cbn; auto.
  - pose proof (drop_creds_creds false g h2) as Hd. cbn [fst]. rewrite Hd, Hu, Hg.
    destruct (creds h) as [eu eg fs pm]; cbn in *; subst eu eg. destruct g; cbn; auto.
Qed.

Lemma drop_cap_creds h h' r :
  drop_cap_fsetid h = (h', r) ->
  match r with
  | Ok true => creds h' = set_fsetid (creds h) false /\ (creds h).(cr_fsetid) = true
  | Ok false | Err _ => creds h' = creds h
  | Panic => False
  end.
Proof.
  unfold drop_cap_fsetid, prog_map_err, call, mbind, prog_mbind, prog_bind.
  pose proof (creds_other _ caps_has_fsetid h eq_refl) as Hs. pose proof (creds_has_fsetid h) as Hb.
  destruct (sys caps_has_fsetid h) as [h1 [e|b]]; cbn in *; [by intros [= <- <-]|].
  specialize (Hb b eq_refl) as <-. destruct b; cbn; [|by intros [= <- <-]].
  pose proof (creds_drop_fsetid h1) as Hd.
  destruct (sys caps_drop_fsetid h1) as [h2 [e|[]]]; cbn; intros [= <- <-]; rewrite Hd, Hs; done.
Qed.

Lemma with_killpriv_back {A} b (m : hprog H A) : pres creds_back m -> pres creds_back (with_killpriv b m).
Proof.
  intros Hm h. unfold with_killpriv, mbind, prog_mbind, prog_bind. destruct b; cbn [mret]; [|].
  2:{ unfold scoped_cap, drop_guard. specialize (Hm h). cbn. by destruct (m h). }
  destruct (drop_cap_fsetid h) as [h1 r] eqn:Hd. apply drop_cap_creds in Hd.
  destruct r as [[]|e|]; [|unfold scoped_cap, drop_guard|by apply same_creds_back|done].
  - destruct Hd as [Hd Ht]. unfold scoped_cap, drop_guard. specialize (Hm h1). destruct (m h1) as [h2 r].
    pose proof (creds_raise_fsetid h2) as Hr. unfold creds_back in *. cbn in Hm.
    intros Hu Hg. rewrite Hd in Hm. destruct (Hm Hu Hg) as (Hu2 & Hg2 & Hp2 & Hf2). cbn in Hp2, Hf2.
    destruct (sys caps_raise_fsetid h2) as [h3 [e|[]]]; cbn.
    + destruct Hr as [-> Hp]. rewrite Hp in Hp2. rewrite <- Hp2 in *. intuition.
    + rewrite Hr, Ht. cbn. auto.
  - etrans; [by apply same_creds_back|]. specialize (Hm h1). by destruct (m h1).
Qed.

(** Under [set_creds] the body runs with the ids of the request. *)
Lemma with_creds_runs_as {A} uid gid (m : hprog H (Z + A)) h a :
  (creds h).(cr_euid) = 0 -> (creds h).(cr_egid) = 0 ->
  (with_creds uid gid m h).2 = Ok a ->
  exists h1 h2, (creds h1).(cr_euid) = uid /\ (creds h1).(cr_egid) = gid /\ m h1 = (h2, Ok (inr a)).
Proof.
  intros Hu0 Hg0. unfold with_creds, mbind, prog_mbind, prog_bind.
  destruct (ScopedGid_new gid h) as [h1 r1] eqn:Hg. apply ScopedGid_creds in Hg.
  destruct r1 as [g|e|]; [destruct Hg as [Hg Hgz]|done|done].
  unfold scoped_creds. destruct (ScopedUid_new uid h1) as [h2 r2] eqn:Hu. apply ScopedUid_creds in Hu.
  destruct r2 as [u|e|]; [destruct Hu as [Hu Huz]|done|done].
  destruct (m h2) as [h3 r3] eqn:Hm, (drop_creds u g h3) as [h4 e4].
  destruct r3 as [[e|a']|e|]; cbn; intros [= <-]. exists h2, h3. rewrite Hu, Hg, Huz, Hgz.
  destruct (Z.eqb_spec uid 0), (Z.eqb_spec gid 0); cbn; subst; auto.
Qed.

#[global] Instance creds_back_scoped uid gid : Scoped creds_back (fun _ => true) uid gid.
Proof.
  refine {| inside := same_creds |}; auto using with_creds_back, with_killpriv_back.
  intros A op h Hop. apply creds_other. by destruct op.
Defined.
End creds.

(** * Hosts that keep a record of the calls made on them

    Each event is a call with the credentials it was made under and its result.
    [acting] is the relation a request moves the host along: started as root it
    ends as root, every call resolves at most one name below a directory
    descriptor, and the calls that create a node are made as the caller.  The one
    absolute path that is opened is a mount point, as [mountinfo], read just
    before, has it. *)

Record Event : Type := MkEvent {
  ev_creds : Creds;
  ev_type : Set;
  ev_op : SysOp ev_type;
  ev_ret : Z + ev_type;
}.

Class HostLog (H : Type) `{HC : HostCreds H} : Type := {
  log : H -> list Event;
  log_sys : forall (A : Set) (op : SysOp A) h, log (sys op h).1 = log h ++ [MkEvent (creds h) A op (sys op h).2];
}.

(** A name with no slash. *)
Definition one_component (path : CStr) : bool := negb (contains 47 path).

Definition event_ok (uid gid : Z) (e : Event) : bool :=
  cred_op e.(ev_op) || plain one_component e.(ev_op) ||
  creates one_component e.(ev_op) && (e.(ev_creds).(cr_euid) =? uid) && (e.(ev_creds).(cr_egid) =? gid).

(** The record of a request: each call is in order by itself, or opens the
    mount point that the call before it read. *)
Inductive record_ok (uid gid : Z) : list Event -> Prop :=
| rec_nil : record_ok uid gid []
| rec_call e l : event_ok uid gid e = true -> record_ok uid gid l -> record_ok uid gid (e :: l)
| rec_mount c c' text path r l :
    mount_point_in text path -> record_ok uid gid l ->
    record_ok uid gid (MkEvent c bytes sys_mountinfo_read (inr text) :: MkEvent c' Z (sys_open path O_PATH) r :: l).

Lemma record_ok_app uid gid l l' : record_ok uid gid l -> record_ok uid gid l' -> record_ok uid gid (l ++ l').
Proof. intros Hl Hl'. induction Hl; [done|by apply rec_call|by apply rec_mount]. Qed.

(** ** Any host can be made to keep a record *)

Definition Traced (H : Type) : Type := H * list Event.

Section traced.
Context {H : Type} `{HC : HostCreds H}.

#[global] Instance Traced_host : Host (Traced H) := {|
  sys A op w := let '(h', r) := sys op w.1 in ((h', w.2 ++ [MkEvent (creds w.1) A op r]), r);
|}.

#[global] Instance Traced_creds : HostCreds (Traced H).
Proof.
  refine {| creds := fun w : Traced H => creds w.1 |}; intros; cbn.
  - pose proof (creds_other A op h.1 H1). by destruct (sys op h.1).
  - pose proof (creds_setresuid v h.1). by destruct (sys _ h.1) as [h' []].
  - pose proof (creds_setresgid v h.1). by destruct (sys _ h.1) as [h' []].
  - apply creds_has_fsetid. cbn in *. by destruct (sys _ h.1) as [h' []].
  - pose proof (creds_drop_fsetid h.1). by destruct (sys _ h.1) as [h' []].
  - pose proof (creds_raise_fsetid h.1). by destruct (sys _ h.1) as [h' []].
Defined.

#[global] Instance Traced_log : HostLog (Traced H).
Proof. refine {| log := fun w : Traced H => w.2 |}. intros A op [h l]. cbn. by destruct (sys op h). Defined.
End traced.

(** ** The record of a request *)

Lemma one_component_name name : contains 47 (to_bytes_with_nul name) = false -> one_component name = true.
Proof.
  unfold one_component, contains, to_bytes_with_nul. rewrite existsb_app. intros [-> _]%orb_false_iff. done.
Qed.

Section acting.
Context {H : Type} `{HL : HostLog H} (uid gid : Z).

(** The new part of the record is in order. *)
Definition recorded : relation H := fun h h' =>
  exists l, log h' = log h ++ l /\ record_ok uid gid l.

(** Run under the effective ids [u] and [g]. *)
Definition acting (u g : Z) : relation H := fun h h' =>
  (creds h).(cr_euid) = u -> (creds h).(cr_egid) = g ->
  (creds h').(cr_euid) = u /\ (creds h').(cr_egid) = g /\ recorded h h'.

#[global] Instance recorded_preorder : PreOrder recorded.
Proof.
  split.
  - intros h. exists []. rewrite app_nil_r. split; [done|constructor].
  - intros h1 h2 h3 (l & H1 & F1) (l' & H2 & F2). exists (l ++ l'). split; [by rewrite H2, H1, app_assoc|].
    by apply record_ok_app.
Qed.

#[global] Instance acting_preorder u g : PreOrder (acting u g).
Proof.
  split; [by intros h Hu Hg|]. intros h1 h2 h3 H12 H23 Hu Hg.
  destruct (H12 Hu Hg) as (Hu2 & Hg2 & R12). destruct (H23 Hu2 Hg2) as (Hu3 & Hg3 & R23).
  split_and!; [done|done|by etrans].
Qed.

Lemma sys_recorded {A : Set} (op : SysOp A) h :
  event_ok uid gid (MkEvent (creds h) A op (sys op h).2) = true -> recorded h (sys op h).1.
Proof.
  intros Hop. exists [MkEvent (creds h) A op (sys op h).2]. split; [apply log_sys|]. apply rec_call; [done|constructor].
Qed.

Lemma mount_recorded h h' text path :
  sys sys_mountinfo_read h = (h', inr text) -> mount_point_in text path -> recorded h (sys (sys_open path O_PATH) h').1.
Proof.
  intros Hr Hm. pose proof (log_sys _ sys_mountinfo_read h) as L1. rewrite Hr in L1. cbn in L1.
  exists [MkEvent (creds h) bytes sys_mountinfo_read (inr text); MkEvent (creds h') Z (sys_open path O_PATH) (sys (sys_open path O_PATH) h').2].
  split; [by rewrite log_sys, L1, <- app_assoc|]. apply rec_mount; [done|constructor].
Qed.

Lemma cred_recorded {A : Set} (op : SysOp A) h : cred_op op = true -> recorded h (sys op h).1.
Proof. intros Hop. apply sys_recorded. unfold event_ok. cbn. by rewrite Hop. Qed.

Lemma plain_recorded {A : Set} (op : SysOp A) h : plain one_component op = true -> recorded h (sys op h).1.
Proof. intros Hop. apply sys_recorded. unfold event_ok. cbn [ev_op ev_type]. by rewrite Hop, orb_true_r. Qed.

Lemma one_component_fd path : fd_like path = true -> one_component path = true.
Proof.
  unfold one_component, fd_like, contains. induction path as [|c path IH]; [done|].
  cbn [forallb existsb]. intros [Hc Hp]%andb_true_iff. specialize (IH Hp). apply negb_true_iff in IH. rewrite IH, orb_false_r.
  destruct (Z.eqb_spec 47 c) as [<-|]; [done|done].
Qed.

#[global] Instance acting_calls u g : Calls (acting u g) one_component.
Proof.
  split; [apply _|apply one_component_fd| |].
  - intros A op h Hop Hu Hg. rewrite creds_other by by destruct op. split_and!; [done|done|by apply plain_recorded].
  - intros h h' text path Hr Hm Hu Hg. rewrite (calls_mount (R := same_creds) h h' text path Hr Hm).
    split_and!; [done|done|by eapply mount_recorded].
Qed.

Lemma create_acting {A : Set} (op : SysOp A) h : creates one_component op = true -> acting uid gid h (sys op h).1.
Proof.
  intros Hop Hu Hg. rewrite creds_other by by destruct op. split_and!; [done|done|].
  apply sys_recorded. unfold event_ok. cbn [ev_op ev_type ev_creds]. by rewrite Hop, Hu, Hg, !Z.eqb_refl, orb_true_r.
Qed.

Lemma call_recorded (op : SysOp unit) : cred_op op = true -> pres recorded (call op).
Proof. intros Hop h. unfold call. pose proof (cred_recorded op h Hop) as Hr. by destruct (sys op h) as [h' []]. Qed.

Lemma ScopedUid_recorded v : pres recorded (ScopedUid_new v).
Proof. unfold ScopedUid_new. case_match; [by intros h|]. apply pres_bind; [apply _|by apply call_recorded|by intros ? h]. Qed.

Lemma ScopedGid_recorded v : pres recorded (ScopedGid_new v).
Proof. unfold ScopedGid_new. case_match; [by intros h|]. apply pres_bind; [apply _|by apply call_recorded|by intros ? h]. Qed.

Lemma drop_guard_recorded b op h : cred_op op = true -> recorded h (drop_guard b op h).1.
Proof.
  intros Hop. unfold drop_guard. destruct b; [|done]. pose proof (cred_recorded op h Hop) as Hr.
  by destruct (sys op h) as [h' []].
Qed.

Lemma drop_creds_recorded u g h : recorded h (drop_creds u g h).1.
Proof.
  unfold drop_creds. pose proof (drop_guard_recorded g (sys_setresgid 0) h eq_refl) as Hg.
  destruct (drop_guard g _ h) as [h1 e1]. pose proof (drop_guard_recorded u (sys_setresuid 0) h1 eq_refl) as Hu.
  destruct (drop_guard u _ h1) as [h2 e2]. by etrans.
Qed.

Lemma with_creds_acting {A} (m : hprog H (Z + A)) :
  pres (acting uid gid) m -> pres (acting 0 0) (with_creds uid gid m).
Proof.
  intros Hm h Hu0 Hg0. unfold with_creds, mbind, prog_mbind, prog_bind.
  pose proof (ScopedGid_recorded gid h) as R1. destruct (ScopedGid_new gid h) as [h1 r1] eqn:Hg.
  apply ScopedGid_creds in Hg. cbn in R1.
  destruct r1 as [g|e|]; [destruct Hg as [Hg Hgz]|by cbn; rewrite Hg|done]. unfold scoped_creds.
  pose proof (ScopedUid_recorded uid h1) as R2. destruct (ScopedUid_new uid h1) as [h2 r2] eqn:Hu.
  apply ScopedUid_creds in Hu. cbn in R2. destruct r2 as [u|e|]; [destruct Hu as [Hu Huz]| |done].
  - specialize (Hm h2). destruct (m h2) as [h3 r3]. cbn in Hm.
    destruct Hm as (Hu3 & Hg3 & R3).
    { rewrite Hu, Huz. destruct (Z.eqb_spec uid 0); cbn; [rewrite Hg; by destruct g; cbn; congruence|done]. }
    { rewrite Hu, Hg. destruct u, g; cbn; try done; rewrite Hg0; symmetry in Hgz; apply negb_false_iff, Z.eqb_eq in Hgz; done. }
    pose proof (drop_creds_creds u g h3) as Hd. pose proof (drop_creds_recorded u g h3) as R4.
    destruct (drop_creds u g h3) as [h4 e4]. cbn in Hd, R4 |- *. rewrite Hd.
    split_and!; [| |by etrans; [exact R1|etrans; [exact R2|etrans]]].
    + destruct (Z.eqb_spec uid 0); subst u; cbn; [|done]. destruct g; cbn; congruence.
    + destruct (Z.eqb_spec gid 0); subst g; destruct u; cbn; congruence.
  - pose proof (drop_creds_creds false g h2) as Hd. pose proof (drop_creds_recorded false g h2) as R4.
    cbn [fst]. rewrite Hd, Hu, Hg. split_and!; [destruct g; done|destruct g; done|by etrans; [exact R1|etrans]].
Qed.

Lemma drop_cap_recorded : pres recorded drop_cap_fsetid.
Proof.
  unfold drop_cap_fsetid. apply pres_bind; [apply _| |].
  - apply pres_map_err. intros h. unfold call. pose proof (plain_recorded caps_has_fsetid h eq_refl) as Hr.
    by destruct (sys _ h) as [h' []].
  - intros b. destruct b; [|by intros h].
    apply pres_bind; [apply _|by apply pres_map_err, call_recorded|by intros ? h].
Qed.

Lemma with_killpriv_acting {A} b (m : hprog H A) : pres (acting 0 0) m -> pres (acting 0 0) (with_killpriv b m).
Proof.
  intros Hm h Hu0 Hg0. unfold with_killpriv, mbind, prog_mbind, prog_bind.
  set (enter := if b then drop_cap_fsetid else mret false).
  assert (recorded h (enter h).1 /\ (creds (enter h).1).(cr_euid) = 0 /\ (creds (enter h).1).(cr_egid) = 0) as (R1 & Hu1 & Hg1).
  { unfold enter. destruct b; [|done]. split; [apply drop_cap_recorded|].
    destruct (drop_cap_fsetid h) as [h1 r] eqn:Hd. apply drop_cap_creds in Hd.
    destruct r as [[]|e|]; [destruct Hd as [Hd _]| | |done]; cbn; rewrite Hd; done. }
  destruct (enter h) as [h1 [g|e|]]; cbn in *; [|done|done]. unfold scoped_cap.
  specialize (Hm h1 Hu1 Hg1). destruct (m h1) as [h2 r]. destruct Hm as (Hu2 & Hg2 & R2). cbn in *.
  pose proof (drop_guard_recorded g caps_raise_fsetid h2 eq_refl) as R3.
  assert ((creds (drop_guard g caps_raise_fsetid h2).1).(cr_euid) = 0 /\
          (creds (drop_guard g caps_raise_fsetid h2).1).(cr_egid) = 0) as [Hu3 Hg3].
  { unfold drop_guard. destruct g; [|done]. pose proof (creds_raise_fsetid h2) as Hr.
    destruct (sys _ h2) as [h3 []]; cbn; [destruct Hr as [-> _]|rewrite Hr]; done. }
  split_and!; [done|done|]. by etrans; [exact R1|etrans].
Qed.

#[global] Instance acting_scoped : Scoped (acting 0 0) one_component uid gid.
Proof.
  refine {| inside := acting uid gid |}; [done|intros; by apply create_acting|..];
    auto using with_creds_acting, with_killpriv_acting.
Defined.
End acting.
