(* ===== verification/ToyHost.v ===== *)
(** * A small host

    An inhabitant of the host interface on which the theorems about the
    passthrough file system are evaluated: numbered nodes with a mode, an
    owner and contents, a directory tree, open descriptors and credentials.
    Calls the examples do not need fail with [ENOSYS]. *)

From stdpp Require Import gmap.
From S2P Require Import Prelude Std Codec AbiStruct FsTypes Host HostLaws.

Record ToyNode : Set := MkToyNode {
  tn_mode : Z;
  tn_uid : Z;
  tn_gid : Z;
  tn_data : bytes;
}.

Record ToyHost : Set := MkToyHost {
  th_nodes : gmap Z ToyNode;
  th_tree : gmap (Z * bytes) Z;
  th_fds : gmap Z Z;
  th_next_fd : Z;
  th_next_node : Z;
  th_creds : Creds;
}.

Definition toy_set_creds (h : ToyHost) (c : Creds) : ToyHost :=
  MkToyHost h.(th_nodes) h.(th_tree) h.(th_fds) h.(th_next_fd) h.(th_next_node) c.

Definition toy_set_node (h : ToyHost) (n : Z) (x : ToyNode) : ToyHost :=
  MkToyHost (<[n := x]> h.(th_nodes)) h.(th_tree) h.(th_fds) h.(th_next_fd) h.(th_next_node) h.(th_creds).

(** A new descriptor on a node. *)
Definition toy_open (h : ToyHost) (n : Z) : ToyHost * (Z + Z) :=
  (MkToyHost h.(th_nodes) h.(th_tree) (<[h.(th_next_fd) := n]> h.(th_fds)) (h.(th_next_fd) + 1)
     h.(th_next_node) h.(th_creds), inr h.(th_next_fd)).

(** A new node, owned by the effective ids. *)
Definition toy_create (h : ToyHost) (dir : Z) (name : bytes) (mode : Z) : ToyHost :=
  let n := h.(th_next_node) in
  MkToyHost (<[n := MkToyNode mode h.(th_creds).(cr_euid) h.(th_creds).(cr_egid) []]> h.(th_nodes))
    (<[(dir, name) := n]> h.(th_tree)) h.(th_fds) h.(th_next_fd) (n + 1) h.(th_creds).

(** Node 0 is [/proc/self/fd], node 1 the directory every absolute path names. *)
Definition toy_resolve (h : ToyHost) (dirfd : Z) (path : bytes) : option Z :=
  if dirfd =? AT_FDCWD then Some (if beq path PROC_SELF_FD then 0 else 1)
  else
    dir ← h.(th_fds) !! dirfd;
    if dir =? 0 then
      (* a name in [/proc/self/fd] *)
      list_find (fun e => fd_name e.1 = path) (map_to_list h.(th_fds)) ≫= fun r => Some r.2.2
    else if beq path [46] || beq path [] then Some dir
    else h.(th_tree) !! (dir, path).

Definition toy_openat (h : ToyHost) (dirfd : Z) (path : bytes) (flags : Z) (mode : option Z) : ToyHost * (Z + Z) :=
  match toy_resolve h dirfd path with
  | Some n => if has_flag flags O_EXCL then (h, inl EEXIST) else toy_open h n
  | None =>
    match mode, h.(th_fds) !! dirfd with
    | Some m, Some dir =>
      let h' := toy_create h dir path (Z.lor S_IFREG m) in toy_open h' h.(th_next_node)
    | _, _ => (h, inl ENOENT)
    end
  end.

Definition toy_node (h : ToyHost) (fd : Z) : option (Z * ToyNode) :=
  n ← h.(th_fds) !! fd; x ← h.(th_nodes) !! n; Some (n, x).

Definition toy_stat (n : Z) (x : ToyNode) : stat64 := {|
  st_dev := 5; st_ino := n; st_nlink := 1; st_mode := x.(tn_mode); st_uid := x.(tn_uid); st_gid := x.(tn_gid);
  st_rdev := 0; st_size := zlen x.(tn_data); st_blksize := 4096; st_blocks := 0;
  st_atime := 0; st_atime_nsec := 0; st_mtime := 0; st_mtime_nsec := 0; st_ctime := 0; st_ctime_nsec := 0 |}.

Definition toy_statx (n : Z) (x : ToyNode) : statx_st := {|
  stx_mask := Z.lor STATX_BASIC_STATS STATX_MNT_ID; stx_blksize := 4096; stx_nlink := 1;
  stx_uid := x.(tn_uid); stx_gid := x.(tn_gid); stx_mode := x.(tn_mode); stx_ino := n;
  stx_size := zlen x.(tn_data); stx_blocks := 0; stx_atime := (0, 0); stx_ctime := (0, 0); stx_mtime := (0, 0);
  stx_rdev_major := 0; stx_rdev_minor := 0; stx_dev_major := 0; stx_dev_minor := 5; stx_mnt_id := 7 |}.

(** The records of a directory, without padding. *)
Definition toy_records (h : ToyHost) (dir : Z) : list HostDirent :=
  filter (fun r => hde_ok r = true)
    (map (fun e => MkHostDirent e.2 1 8 e.1.2 0)
       (filter (fun e => e.1.1 = dir) (map_to_list h.(th_tree)))).

Definition toy_getdents (h : ToyHost) (fd size : Z) : Z + bytes :=
  match h.(th_fds) !! fd with
  | Some dir =>
    let b := concat (map dirent_image (toy_records h dir)) in
    if zlen b <=? size then inr b else inl EINVAL
  | None => inl EBADF
  end.

Definition toy_pread (x : ToyNode) (count offset : Z) : bytes :=
  take (Z.to_nat count) (drop (Z.to_nat offset) x.(tn_data)).

Definition toy_pwrite (x : ToyNode) (buf : bytes) (offset : Z) : ToyNode :=
  MkToyNode x.(tn_mode) x.(tn_uid) x.(tn_gid)
    (take (Z.to_nat offset) x.(tn_data) ++ buf ++ drop (Z.to_nat offset + length buf) x.(tn_data)).

Definition toy_sys (A : Set) (op : SysOp A) (h : ToyHost) : ToyHost * (Z + A) :=
  let c := h.(th_creds) in
  match op in SysOp A return ToyHost * (Z + A) with
  | sys_openat dirfd path flags mode => toy_openat h dirfd path flags mode
  | sys_open path flags => toy_open h 1
  | sys_fstatat dirfd path flags =>
      (h, match toy_node h dirfd with Some (n, x) => inr (toy_stat n x) | None => inl EBADF end)
  | sys_statx dirfd path flags mask =>
      (h, match toy_node h dirfd with Some (n, x) => inr (toy_statx n x) | None => inl EBADF end)
  | sys_name_to_handle_at _ _ _ _ => (h, inr (NthErr EOPNOTSUPP 0))
  | sys_mkdirat dirfd path mode =>
      match h.(th_fds) !! dirfd, toy_resolve h dirfd path with
      | Some dir, None => (toy_create h dir path (Z.lor S_IFDIR mode), inr tt)
      | _, _ => (h, inl EEXIST)
      end
  | sys_getdents64 fd size => (h, toy_getdents h fd size)
  | sys_lseek fd offset whence => (h, inr offset)
  | sys_fcntl_setfl fd flags => (h, inr tt)
  | sys_umask mask => (h, inr 18)
  | sys_preadv fd count offset =>
      (h, match toy_node h fd with
          | Some (_, x) => if count <? 0 then inl EINVAL else inr (toy_pread x count offset)
          | None => inl EBADF
          end)
  | sys_pwritev fd data offset =>
      match toy_node h fd with
      | Some (n, x) => (toy_set_node h n (toy_pwrite x data offset), inr (zlen data))
      | None => (h, inl EBADF)
      end
  | sys_setresuid v => (toy_set_creds h (set_euid c v), inr tt)
  | sys_setresgid v => (toy_set_creds h (set_egid c v), inr tt)
  | caps_has_fsetid => (h, inr c.(cr_fsetid))
  | caps_drop_fsetid => (toy_set_creds h (set_fsetid c false), inr tt)
  | caps_raise_fsetid =>
      if c.(cr_permitted) then (toy_set_creds h (set_fsetid c true), inr tt) else (h, inl EPERM)
  | _ => (h, inl ENOSYS)
  end.

#[global] Instance ToyHost_host : Host ToyHost := {| sys := toy_sys |}.

#[global] Instance ToyHost_ok : HostOk ToyHost.
Proof.
  split; cbn.
  - intros fd size h b. unfold toy_getdents. destruct (th_fds h !! fd) as [dir|]; [|done].
    destruct (Z.leb_spec (zlen (concat (map dirent_image (toy_records h dir)))) size) as [Hle|]; [|done].
    intros [= <-]. split; [done|]. exists (toy_records h dir). split; [|done].
    apply Forall_forall. intros r. unfold toy_records. by intros [? _]%list_elem_of_filter.
  - intros fd count offset h b. destruct (toy_node h fd) as [[n x]|]; [|done].
    destruct (Z.ltb_spec count 0); [done|]. intros [= <-]. unfold toy_pread, zlen. rewrite length_take. lia.
  - by intros fd path size flags h errno needed [= <- <-].
Qed.

Lemma toy_openat_creds h fd path flags mode : (toy_openat h fd path flags mode).1.(th_creds) = h.(th_creds).
Proof. unfold toy_openat. by repeat case_match. Qed.

#[global] Instance ToyHost_creds : HostCreds ToyHost.
Proof.
  refine {| creds := th_creds |}.
  - intros A op h Hop. destruct op; cbn in *; try done; try apply toy_openat_creds;
      by repeat case_match.
  - by intros v h.
  - by intros v h.
  - by intros h b [= <-].
  - by intros h.
  - intros h. cbn. by destruct (cr_permitted (th_creds h)) eqn:Hp.
Defined.

(** A host with an empty shared directory, run by root. *)
Definition toy_host : ToyHost := {|
  th_nodes := {[0 := MkToyNode (Z.lor S_IFDIR 0x1ed) 0 0 []; 1 := MkToyNode (Z.lor S_IFDIR 0x1ed) 0 0 []]};
  th_tree := ∅;
  th_fds := ∅;
  th_next_fd := 3;
  th_next_node := 2;
  th_creds := MkCreds 0 0 true true;
|}.
