(* ===== verification/Layer.v ===== *)
(** * Layers of the overlay file system ([src/api/filesystem/overlay.rs])

    A layer is a file system with six more methods.  [Layer] is the trait as a
    class; the [default_] definitions are the bodies the trait gives, which
    recognise a whiteout as a character device with number 0/0 and an opaque
    directory by an extended attribute. *)

From S2P Require Import Prelude Std AbiStruct FsTypes FileSystem Host.

Definition OPAQUE_XATTR_LEN : Z := 16.
Definition OPAQUE_XATTR : bytes := bs "user.fuseoverlayfs.opaque".
Definition UNPRIVILEGED_OPAQUE_XATTR : bytes := bs "user.overlay.opaque".
Definition PRIVILEGED_OPAQUE_XATTR : bytes := bs "trusted.overlay.opaque".

(** [Context::default()] *)
Definition Context_default : Context := MkContext 0 0 0.

(** [libc::major] and [libc::minor] *)
Definition major (dev : Z) : Z :=
  Z.lor (Z.shiftr (Z.land dev 0xfff00) 8) (Z.shiftr (Z.land dev 0xfffff00000000000) 32).
Definition minor (dev : Z) : Z :=
  Z.lor (Z.land dev 0xff) (Z.shiftr (Z.land dev 0xffffff00000) 12).

Definition st_is_dir (st : stat64) : bool := Z.land st.(st_mode) S_IFMT =? S_IFDIR.
Definition is_chardev (st : stat64) : bool := Z.land st.(st_mode) S_IFMT =? S_IFCHR.
Definition st_is_whiteout (st : stat64) : bool :=
  is_chardev st && (major st.(st_rdev) =? 0) && (minor st.(st_rdev) =? 0).

Definition to_cstring (name : bytes) : io_result CStr := ok_or (Simple InvalidData) (CString_new name).

Class Layer (L : Type) `{FileSystem L} : Type := {
  layer_root_inode : L -> Z;
  layer_create_whiteout : Context -> Z -> CStr -> prog L io_error Entry;
  layer_delete_whiteout : Context -> Z -> CStr -> prog L io_error unit;
  layer_is_whiteout : Context -> Z -> prog L io_error bool;
  layer_set_opaque : Context -> Z -> prog L io_error unit;
  layer_is_opaque : Context -> Z -> prog L io_error bool;
}.
#[global] Hint Mode Layer ! - : typeclass_instances.

Section defaults.
Context {L : Type} `{FS : FileSystem L}.

Abbreviation lprog A := (prog L io_error A).

Definition default_create_whiteout (ctx : Context) (parent : Z) (name : CStr) : lprog Entry :=
  let make := fs_op (op_mknod ctx parent name (Z.lor S_IFCHR 0x1ff) (makedev 0 0) 0) in
  r ← catch (fs_op (op_lookup ctx parent name));
  match r with
  | inr v =>
    if st_is_whiteout v.(en_attr) then mret v
    else if negb (v.(en_inode) =? 0) then
      _ ← fs_op (op_forget ctx v.(en_inode) 1);
      fail (Os EEXIST)
    else make
  | inl e => if bool_decide (raw_os_error e = Some ENOENT) then make else fail e
  end.

Definition default_delete_whiteout (ctx : Context) (parent : Z) (name : CStr) : lprog unit :=
  r ← catch (fs_op (op_lookup ctx parent name));
  match r with
  | inr v =>
    _ ← (if negb (v.(en_inode) =? 0) then fs_op (op_forget ctx v.(en_inode) 1) else mret tt);
    if st_is_whiteout v.(en_attr) then fs_op (op_unlink ctx parent name)
    else if negb (v.(en_inode) =? 0) then fail (Os EINVAL)
    else mret tt
  | inl e => if bool_decide (raw_os_error e = Some ENOENT) then mret tt else fail e
  end.

Definition default_is_whiteout (ctx : Context) (inode : Z) : lprog bool :=
  r ← fs_op (op_getattr ctx inode None);
  mret (st_is_whiteout r.1).

Definition default_set_opaque (ctx : Context) (inode : Z) : lprog unit :=
  r ← fs_op (op_getattr ctx inode None);
  if negb (st_is_dir r.1) then fail (Os ENOTDIR)
  else
    name ← lift (to_cstring OPAQUE_XATTR);
    fs_op (op_setxattr ctx inode name (bs "y") 0).

(** [u8::to_ascii_lowercase] *)
Definition to_ascii_lowercase (b : Z) : Z := if in_range 65 90 b then b + 32 else b.

(** The closure [check_attr] of [is_opaque]. *)
Definition check_attr (ctx : Context) (inode : Z) (attr_name : bytes) (attr_size : Z) : lprog bool :=
  cname ← lift (ok_or (Simple InvalidInput) (CString_new attr_name));
  r ← catch (fs_op (op_getxattr ctx inode cname attr_size));
  match r with
  | inr (GxValue [b]) => mret (to_ascii_lowercase b =? 121)
  | inr _ => mret false
  | inl e => if bool_decide (raw_os_error e = Some ENODATA) then mret false else fail e
  end.

Definition default_is_opaque (ctx : Context) (inode : Z) : lprog bool :=
  r ← fs_op (op_getattr ctx inode None);
  if negb (st_is_dir r.1) then fail (Os ENOTDIR)
  else
    custom ← check_attr ctx inode OPAQUE_XATTR OPAQUE_XATTR_LEN;
    if custom : bool then mret true
    else
      privileged ← check_attr ctx inode PRIVILEGED_OPAQUE_XATTR OPAQUE_XATTR_LEN;
      if privileged : bool then mret true
      else
        unprivileged ← check_attr ctx inode UNPRIVILEGED_OPAQUE_XATTR OPAQUE_XATTR_LEN;
        mret (unprivileged : bool).

(** An implementation that gives the root only. *)
Definition default_layer (root_inode : L -> Z) : Layer L := {|
  layer_root_inode := root_inode;
  layer_create_whiteout := default_create_whiteout;
  layer_delete_whiteout := default_delete_whiteout;
  layer_is_whiteout := default_is_whiteout;
  layer_set_opaque := default_set_opaque;
  layer_is_opaque := default_is_opaque;
|}.
End defaults.
