(* ===== verification/OverlayStore.v ===== *)
(** * Data of the overlay file system
      ([src/overlayfs/mod.rs], [inode_store.rs], [config.rs])

    Layers and overlay inodes are shared in the code through [Arc]; here a
    layer is named by its position in the list of layers, and an overlay inode
    by its address in a heap.  [InodeStore] has the tables of active and deleted
    inodes and the numbers reserved for paths; the [Trie] that holds the latter
    is used as a map from strings.  The second part is about the numbers that
    [alloc_unique_inode] gives out. *)

From stdpp Require Import list gmap.
From S2P Require Import Prelude Std AbiStruct FsTypes Vfs ProgLogic.

(** ** Configuration *)

Inductive OvCachePolicy : Set := OvNever | OvAuto | OvAlways.

Record OvConfig : Set := MkOvConfig {
  oc_mountpoint : bytes;
  oc_work : bytes;
  oc_do_import : bool;
  oc_writeback : bool;
  oc_no_open : bool;
  oc_no_opendir : bool;
  oc_killpriv_v2 : bool;
  oc_no_readdir : bool;
  oc_perfile_dax : bool;
  oc_cache_policy : OvCachePolicy;
  oc_attr_timeout : Duration;
  oc_entry_timeout : Duration;
}.

(** [#[derive(Default)]] *)
Definition OvConfig_default : OvConfig := {|
  oc_mountpoint := [];
  oc_work := [];
  oc_do_import := false;
  oc_writeback := false;
  oc_no_open := false;
  oc_no_opendir := false;
  oc_killpriv_v2 := false;
  oc_no_readdir := false;
  oc_perfile_dax := false;
  oc_cache_policy := OvAuto;
  oc_attr_timeout := Duration_default;
  oc_entry_timeout := Duration_default;
|}.

(** ** Inodes *)

Record RealInode : Set := MkRealInode {
  ri_layer : nat;
  ri_in_upper_layer : bool;
  ri_inode : Z;
  ri_whiteout : bool;
  ri_opaque : bool;
  ri_stat : option stat64;
}.

Record OverlayInode : Set := MkOverlayInode {
  on_childrens : gmap bytes nat;
  on_parent : option nat;
  on_real_inodes : list RealInode;
  on_inode : Z;
  on_path : bytes;
  on_name : bytes;
  on_lookups : Z;
  on_whiteout : bool;
  on_loaded : bool;
}.

Definition OverlayInode_new : OverlayInode := {|
  on_childrens := ∅;
  on_parent := None;
  on_real_inodes := [];
  on_inode := 0;
  on_path := [];
  on_name := [];
  on_lookups := 0;
  on_whiteout := false;
  on_loaded := false;
|}.

Definition set_childrens (n : OverlayInode) (c : gmap bytes nat) : OverlayInode :=
  MkOverlayInode c n.(on_parent) n.(on_real_inodes) n.(on_inode) n.(on_path) n.(on_name)
    n.(on_lookups) n.(on_whiteout) n.(on_loaded).

Definition set_real_inodes (n : OverlayInode) (l : list RealInode) : OverlayInode :=
  MkOverlayInode n.(on_childrens) n.(on_parent) l n.(on_inode) n.(on_path) n.(on_name)
    n.(on_lookups) n.(on_whiteout) n.(on_loaded).

Definition set_lookups (n : OverlayInode) (k : Z) : OverlayInode :=
  MkOverlayInode n.(on_childrens) n.(on_parent) n.(on_real_inodes) n.(on_inode) n.(on_path) n.(on_name)
    k n.(on_whiteout) n.(on_loaded).

Definition set_whiteout (n : OverlayInode) (b : bool) : OverlayInode :=
  MkOverlayInode n.(on_childrens) n.(on_parent) n.(on_real_inodes) n.(on_inode) n.(on_path) n.(on_name)
    n.(on_lookups) b n.(on_loaded).

Definition set_loaded (n : OverlayInode) : OverlayInode :=
  MkOverlayInode n.(on_childrens) n.(on_parent) n.(on_real_inodes) n.(on_inode) n.(on_path) n.(on_name)
    n.(on_lookups) n.(on_whiteout) true.

(** The number and the parent [load_directory] gives to a child. *)
Definition adopt (n : OverlayInode) (ino : Z) (parent : nat) : OverlayInode :=
  MkOverlayInode n.(on_childrens) (Some parent) n.(on_real_inodes) ino n.(on_path) n.(on_name)
    n.(on_lookups) n.(on_whiteout) n.(on_loaded).

Definition new_from_real_inode (name : bytes) (ino : Z) (path : bytes) (real_inode : RealInode)
    : OverlayInode := {|
  on_childrens := ∅;
  on_parent := None;
  on_real_inodes := [real_inode];
  on_inode := ino;
  on_path := path;
  on_name := name;
  on_lookups := 1;
  on_whiteout := real_inode.(ri_whiteout);
  on_loaded := false;
|}.

Definition in_upper_layer (n : OverlayInode) : bool :=
  match n.(on_real_inodes) with
  | v :: _ => v.(ri_in_upper_layer)
  | [] => false
  end.

Definition upper_layer_only (n : OverlayInode) : bool :=
  match n.(on_real_inodes) with
  | v :: l => if negb v.(ri_in_upper_layer) then false else (length (v :: l) =? 1)%nat
  | [] => false
  end.

Definition first_layer_inode (n : OverlayInode) : io_result (nat * bool * Z) :=
  match n.(on_real_inodes) with
  | v :: _ => Ok (v.(ri_layer), v.(ri_in_upper_layer), v.(ri_inode))
  | [] => Panic
  end.

Definition child (n : OverlayInode) (name : bytes) : option nat := n.(on_childrens) !! name.
Definition remove_child (name : bytes) (n : OverlayInode) : OverlayInode :=
  set_childrens n (delete name n.(on_childrens)).
Definition insert_child (name : bytes) (a : nat) (n : OverlayInode) : OverlayInode :=
  set_childrens n (<[name := a]> n.(on_childrens)).

Definition entry_type_from_mode (mode : Z) : Z :=
  let fmt := Z.land mode S_IFMT in
  if fmt =? S_IFBLK then DT_BLK
  else if fmt =? S_IFCHR then DT_CHR
  else if fmt =? S_IFDIR then DT_DIR
  else if fmt =? S_IFIFO then DT_FIFO
  else if fmt =? S_IFLNK then DT_LNK
  else if fmt =? S_IFREG then DT_REG
  else if fmt =? S_IFSOCK then DT_SOCK
  else DT_UNKNOWN.

(** ** Handles *)

Record RealHandle : Set := MkRealHandle {
  rh_layer : nat;
  rh_in_upper_layer : bool;
  rh_inode : Z;
  rh_handle : Z;
}.

Record OvHandleData : Set := MkOvHandleData {
  oh_node : nat;
  oh_real_handle : option RealHandle;
}.

(** ** [inode_store.rs] *)

Record OvInodeStore : Set := MkOvInodeStore {
  is_inodes : gmap Z nat;
  is_deleted : gmap Z nat;
  is_path_mapping : gmap bytes Z;
  is_next_inode : Z;
}.

Definition OvInodeStore_new : OvInodeStore := MkOvInodeStore ∅ ∅ ∅ 1.

(** A round of the search: a free number ends it. *)
Definition alloc_round (ino : Z) : prog OvInodeStore io_error (Z + Z) := fun s =>
  let ino := if VFS_MAX_INO <? ino then 1 else ino in
  match s.(is_inodes) !! ino, s.(is_deleted) !! ino with
  | None, None =>
    (MkOvInodeStore s.(is_inodes) s.(is_deleted) s.(is_path_mapping) (ino + 1), Ok (inr ino))
  | _, _ => (s, Ok (inl (ino + 1)))
  end.

Definition alloc_unique_inode : prog OvInodeStore io_error Z := fun s =>
  (r ← rounds (Z.to_pos VFS_MAX_INO) alloc_round s.(is_next_inode);
   match r with
   | inr ino => mret ino
   | inl _ => fail (Simple Other)
   end) s.

Definition store_alloc_inode (path : bytes) : prog OvInodeStore io_error Z := fun s =>
  match s.(is_path_mapping) !! path with
  | Some v => (s, Ok v)
  | None => alloc_unique_inode s
  end.

(** [insert_inode] of a node with path [path] at address [a]. *)
Definition store_insert_inode (inode : Z) (path : bytes) (a : nat) (s : OvInodeStore) : OvInodeStore :=
  MkOvInodeStore (<[inode := a]> s.(is_inodes)) s.(is_deleted)
    (<[path := inode]> s.(is_path_mapping)) s.(is_next_inode).

Definition get_inode (s : OvInodeStore) (inode : Z) : option nat := s.(is_inodes) !! inode.
Definition get_deleted_inode (s : OvInodeStore) (inode : Z) : option nat := s.(is_deleted) !! inode.

(** [remove_inode]; [lookups] reads the count of the node at an address.  A
    node that is still referenced moves to the deleted ones, and the path
    keeps its number. *)
Definition store_remove_inode (lookups : nat -> Z) (inode : Z) (path_removed : option bytes)
    (s : OvInodeStore) : OvInodeStore * option nat :=
  let forget_path (s : OvInodeStore) :=
    match path_removed with
    | Some path => MkOvInodeStore s.(is_inodes) s.(is_deleted) (delete path s.(is_path_mapping)) s.(is_next_inode)
    | None => s
    end in
  match s.(is_inodes) !! inode with
  | Some v =>
    let s' := MkOvInodeStore (delete inode s.(is_inodes)) s.(is_deleted) s.(is_path_mapping) s.(is_next_inode) in
    if 0 <? lookups v then
      (MkOvInodeStore s'.(is_inodes) (<[inode := v]> s'.(is_deleted)) s'.(is_path_mapping) s'.(is_next_inode), None)
    else (forget_path s', Some v)
  | None =>
    match s.(is_deleted) !! inode with
    | Some v =>
      if lookups v =? 0 then
        (forget_path (MkOvInodeStore s.(is_inodes) (delete inode s.(is_deleted)) s.(is_path_mapping)
          s.(is_next_inode)), Some v)
      else (forget_path s, None)
    | None => (forget_path s, None)
    end
  end.

(** * Inode numbers of the overlay file system ([src/overlayfs/inode_store.rs])

    [alloc_unique_inode] gives out the first number from [next_inode] on, around
    the end of the range, that neither an active nor a deleted inode has. *)

Implicit Types (s : OvInodeStore) (ino : Z).

(** No inode has the number. *)
Definition is_free s ino : Prop := s.(is_inodes) !! ino = None /\ s.(is_deleted) !! ino = None.

#[global] Instance is_free_decision s ino : Decision (is_free s ino).
Proof. apply _. Defined.

(** The number the search looks at in round [k]: [next_inode], and so on, around
    [VFS_MAX_INO]. *)
Definition candidate (next : Z) (k : nat) : Z := (next - 1 + Z.of_nat k) mod VFS_MAX_INO + 1.

Definition set_next s next : OvInodeStore :=
  MkOvInodeStore s.(is_inodes) s.(is_deleted) s.(is_path_mapping) next.

(** The number a round looks at, once it is back in range. *)
Definition clamp ino : Z := if VFS_MAX_INO <? ino then 1 else ino.

Lemma alloc_round_free s ino :
  alloc_round ino s =
  if decide (is_free s (clamp ino)) then (set_next s (clamp ino + 1), Ok (inr (clamp ino)))
  else (s, Ok (inl (clamp ino + 1))).
Proof.
  unfold alloc_round. fold (clamp ino). case_decide as Hf; unfold is_free in Hf.
  - by destruct Hf as [-> ->].
  - destruct (is_inodes s !! clamp ino), (is_deleted s !! clamp ino); naive_solver.
Qed.

Lemma clamp_candidate next k ino :
  1 <= ino <= VFS_MAX_INO + 1 -> clamp ino = candidate next k ->
  clamp (clamp ino + 1) = candidate next (S k) /\ 1 <= clamp ino <= VFS_MAX_INO.
Proof.
  intros Hino Hc. assert (Hr : 1 <= clamp ino <= VFS_MAX_INO).
  { unfold clamp. destruct (Z.ltb_spec VFS_MAX_INO ino); unfold VFS_MAX_INO in *; lia. }
  split; [|done]. rewrite Hc in *. unfold candidate in *.
  replace (next - 1 + Z.of_nat (S k)) with (next - 1 + Z.of_nat k + 1) by lia.
  set (x := next - 1 + Z.of_nat k) in *. unfold clamp.
  pose proof (Z.mod_pos_bound x VFS_MAX_INO ltac:(done)) as Hb.
  assert (Hx : (x + 1) mod VFS_MAX_INO = (x mod VFS_MAX_INO + 1) mod VFS_MAX_INO).
  { rewrite Z.add_mod_idemp_l by done. done. }
  rewrite Hx. destruct (Z.ltb_spec VFS_MAX_INO (x mod VFS_MAX_INO + 1 + 1)).
  - replace (x mod VFS_MAX_INO + 1) with VFS_MAX_INO by lia. by rewrite Z.mod_same.
  - rewrite (Z.mod_small (x mod VFS_MAX_INO + 1)) by lia. done.
Qed.

(** The search: [n] rounds look at [n] candidates. *)
Lemma alloc_rounds s next n k ino :
  1 <= ino <= VFS_MAX_INO + 1 -> clamp ino = candidate next k ->
  (exists j, (k <= j < k + n)%nat /\ is_free s (candidate next j) /\
     (forall i, (k <= i < j)%nat -> ~ is_free s (candidate next i)) /\
     rounds_nat n alloc_round ino s =
       (set_next s (candidate next j + 1), Ok (inr (candidate next j)))) \/
  ((forall i, (k <= i < k + n)%nat -> ~ is_free s (candidate next i)) /\
   exists ino', rounds_nat n alloc_round ino s = (s, Ok (inl ino'))).
Proof.
  revert k ino. induction n as [|n IH]; intros k ino Hino Hc.
  { right. split; [intros; lia|]. by exists ino. }
  destruct (clamp_candidate next k ino Hino Hc) as [Hnext Hr].
  cbn [rounds_nat]. unfold mbind, prog_mbind, prog_bind. rewrite alloc_round_free. case_decide as Hfree.
  - left. exists k. rewrite Hc in *. split_and!; [lia..|done| |done]. intros; lia.
  - destruct (IH (S k) (clamp ino + 1) ltac:(lia) Hnext) as [(j & Hj & Hf & Hbefore & Hrun)|[Hall Hrun]].
    + left. exists j. split_and!; [lia..|done| |done]. intros i Hi.
      destruct (decide (i = k)) as [->|]; [by rewrite <- Hc|]. apply Hbefore. lia.
    + right. split; [|done]. intros i Hi.
      destruct (decide (i = k)) as [->|]; [by rewrite <- Hc|]. apply Hall. lia.
Qed.

(** The outcome of an allocation. *)
Lemma alloc_unique_inode_cases s :
  1 <= s.(is_next_inode) <= VFS_MAX_INO + 1 ->
  let cand := candidate (clamp s.(is_next_inode)) in
  (exists j, Z.of_nat j < VFS_MAX_INO /\ is_free s (cand j) /\
     (forall i, (i < j)%nat -> ~ is_free s (cand i)) /\
     alloc_unique_inode s = (set_next s (cand j + 1), Ok (cand j))) \/
  ((forall ino, 1 <= ino <= VFS_MAX_INO -> ~ is_free s ino) /\
   alloc_unique_inode s = (s, Err (Simple Other))).
Proof.
  intros Hnext. set (next := clamp s.(is_next_inode)). cbn zeta.
  assert (Hr : 1 <= next <= VFS_MAX_INO).
  { unfold next, clamp. destruct (Z.ltb_spec VFS_MAX_INO s.(is_next_inode)); unfold VFS_MAX_INO in *; lia. }
  assert (H0 : next = candidate next 0).
  { unfold candidate. rewrite Z.add_0_r, Z.mod_small by lia. lia. }
  unfold alloc_unique_inode, mbind, prog_mbind, prog_bind. rewrite rounds_rounds_nat.
  set (n := Pos.to_nat (Z.to_pos VFS_MAX_INO)).
  assert (Hn : Z.of_nat n = VFS_MAX_INO) by (unfold n; rewrite positive_nat_Z; done). clearbody n.
  destruct (alloc_rounds s next n 0 s.(is_next_inode) Hnext H0) as [(j & Hj & Hf & Hb & Hrun)|[Hall [ino' Hrun]]];
    rewrite Hrun.
  - left. exists j. split_and!; [lia|done| |done]. intros i Hi. apply Hb. lia.
  - right. split; [|done]. intros ino Hino.
    replace ino with (candidate next (Z.to_nat ((ino - next) mod VFS_MAX_INO))).
    + apply Hall. pose proof (Z.mod_pos_bound (ino - next) VFS_MAX_INO ltac:(done)). lia.
    + unfold candidate. pose proof (Z.mod_pos_bound (ino - next) VFS_MAX_INO ltac:(done)).
      rewrite Z2Nat.id by lia. rewrite Z.add_mod_idemp_r by done.
      rewrite Z.mod_small by lia. lia.
Qed.

(** The numbers that are taken; there are as many as table entries. *)
Definition taken (s : OvInodeStore) : gset Z := dom s.(is_inodes) ∪ dom s.(is_deleted).

Lemma taken_spec s ino : ino ∈ taken s <-> ~ is_free s ino.
Proof.
  unfold taken, is_free. rewrite elem_of_union, !elem_of_dom. unfold is_Some.
  destruct (is_inodes s !! ino), (is_deleted s !! ino); naive_solver.
Qed.

(** Not all of [n] numbers are taken by fewer than [n] inodes. *)
Lemma pigeonhole (n : Z) (X : gset Z) :
  0 <= n -> Z.of_nat (size X) < n -> exists ino, 1 <= ino <= n /\ ino ∉ X.
Proof.
  intros Hn Hsize.
  destruct (decide (Forall (fun ino => ino ∈ X) (seqZ 1 n))) as [Hall|Hex].
  - rewrite Forall_forall in Hall.
    assert (list_to_set (seqZ 1 n) ⊆ X) as Hsub by (intros ino Hino%elem_of_list_to_set; auto).
    apply subseteq_size in Hsub. rewrite size_list_to_set in Hsub by apply NoDup_seqZ.
    rewrite length_seqZ in Hsub. lia.
  - apply not_Forall_Exists in Hex; [|apply _]. apply Exists_exists in Hex as (ino & Hino%elem_of_seqZ & Hx). exists ino. split; [lia|done].
Qed.

(** Its 2^56 rounds are not for [cbn] to unfold. *)
#[global] Opaque alloc_unique_inode.
