(* ===== verification/Overlay.v ===== *)
(** * The overlay file system: layers and inodes ([src/overlayfs/mod.rs])

    The methods of [RealInode] and [OverlayInode].  They run on a [World]: the
    fields of [OverlayFs], the heap of overlay inodes that [Arc]s point into,
    and the layers.  Dropping a [RealInode] forgets it in its layer
    ([drop_real_inode]).  Reference counts of overlay inodes are not stored: at
    the end of a request, when no local [Arc] is left, the inodes that no table,
    no handle and no directory refers to are dropped ([collect]).  The order in
    which a [HashMap] is traversed is that of [map_to_list]. *)

From stdpp Require Import list gmap.
From S2P Require Import Prelude Std AbiStruct FsTypes FileSystem Vfs Host Layer OverlayStore.

Definition CURRENT_DIR : bytes := bs ".".
Definition PARENT_DIR : bytes := bs "..".

Record OverlayFs : Set := MkOverlayFs {
  ov_config : OvConfig;
  ov_lower_layers : list nat;
  ov_upper_layer : option nat;
  ov_inodes : OvInodeStore;
  ov_handles : gmap Z OvHandleData;
  ov_next_handle : Z;
  ov_writeback : bool;
  ov_no_open : bool;
  ov_no_opendir : bool;
  ov_killpriv_v2 : bool;
  ov_perfile_dax : bool;
}.

Definition OverlayFs_new (upper : option nat) (lowers : list nat) (params : OvConfig) : OverlayFs := {|
  ov_config := params;
  ov_lower_layers := lowers;
  ov_upper_layer := upper;
  ov_inodes := OvInodeStore_new;
  ov_handles := ∅;
  ov_next_handle := 1;
  ov_writeback := false;
  ov_no_open := false;
  ov_no_opendir := false;
  ov_killpriv_v2 := false;
  ov_perfile_dax := false;
|}.

Definition set_ov_inodes (fs : OverlayFs) (s : OvInodeStore) : OverlayFs :=
  MkOverlayFs fs.(ov_config) fs.(ov_lower_layers) fs.(ov_upper_layer) s fs.(ov_handles) fs.(ov_next_handle)
    fs.(ov_writeback) fs.(ov_no_open) fs.(ov_no_opendir) fs.(ov_killpriv_v2) fs.(ov_perfile_dax).

Definition set_ov_handles (fs : OverlayFs) (m : gmap Z OvHandleData) (next : Z) : OverlayFs :=
  MkOverlayFs fs.(ov_config) fs.(ov_lower_layers) fs.(ov_upper_layer) fs.(ov_inodes) m next
    fs.(ov_writeback) fs.(ov_no_open) fs.(ov_no_opendir) fs.(ov_killpriv_v2) fs.(ov_perfile_dax).

(** The five switches [init] turns on. *)
Definition set_ov_features (fs : OverlayFs) (writeback no_open no_opendir killpriv_v2 perfile_dax : bool)
    : OverlayFs :=
  MkOverlayFs fs.(ov_config) fs.(ov_lower_layers) fs.(ov_upper_layer) fs.(ov_inodes) fs.(ov_handles)
    fs.(ov_next_handle) (fs.(ov_writeback) || writeback) (fs.(ov_no_open) || no_open)
    (fs.(ov_no_opendir) || no_opendir) (fs.(ov_killpriv_v2) || killpriv_v2)
    (fs.(ov_perfile_dax) || perfile_dax).

Record World (L : Type) : Type := MkWorld {
  w_fs : OverlayFs;
  w_nodes : gmap nat OverlayInode;
  w_next : nat;
  w_layers : list L;
}.
Arguments MkWorld {L}.
Arguments w_fs {L}.
Arguments w_nodes {L}.
Arguments w_next {L}.
Arguments w_layers {L}.

(** The values of a map, in the order of its traversal. *)
Definition values {K A} `{Countable K} (m : gmap K A) : list A := (map_to_list m).*2.

Section overlay.
Context {L : Type} `{LAYER : Layer L}.

Abbreviation wprog A := (prog (World L) io_error A).

Definition set_fs (w : World L) (fs : OverlayFs) : World L :=
  MkWorld fs w.(w_nodes) w.(w_next) w.(w_layers).
Definition set_nodes (w : World L) (m : gmap nat OverlayInode) : World L :=
  MkWorld w.(w_fs) m w.(w_next) w.(w_layers).
Definition set_layers (w : World L) (l : list L) : World L :=
  MkWorld w.(w_fs) w.(w_nodes) w.(w_next) l.

(** ** Access to the world *)

(** A call on the layer an [Arc<BoxedLayer>] points to. *)
Definition on_layer {A} (i : nat) (m : prog L io_error A) : wprog A := fun w =>
  match w.(w_layers) !! i with
  | Some l => let '(l', o) := m l in (set_layers w (<[i := l']> w.(w_layers)), o)
  | None => (w, Panic)
  end.

(** The same with a callback over a state [X], which comes back. *)
Definition on_layer_with {X A} (i : nat) (m : prog (L * X) io_error A) (x : X) : wprog (X * A) := fun w =>
  match w.(w_layers) !! i with
  | Some l =>
    let '((l', x'), o) := m (l, x) in
    (set_layers w (<[i := l']> w.(w_layers)), outcome_map (fun a => (x', a)) o)
  | None => (w, Panic)
  end.

Definition on_store {A} (m : prog OvInodeStore io_error A) : wprog A := fun w =>
  let '(s', o) := m w.(w_fs).(ov_inodes) in (set_fs w (set_ov_inodes w.(w_fs) s'), o).

Definition get_fs : wprog OverlayFs := gets w_fs.
Definition get_node (a : nat) : wprog OverlayInode := fun w => (w, unwrap (w.(w_nodes) !! a)).
Definition update_node (a : nat) (f : OverlayInode -> OverlayInode) : wprog unit :=
  modify (fun w => set_nodes w (alter f a w.(w_nodes))).

(** [Arc::new] *)
Definition new_arc (n : OverlayInode) : wprog nat := fun w =>
  (MkWorld w.(w_fs) (<[w.(w_next) := n]> w.(w_nodes)) (S w.(w_next)) w.(w_layers), Ok w.(w_next)).

(** [Weak::upgrade] *)
Definition upgrade (p : option nat) : wprog (option nat) := fun w =>
  (w, Ok (p ≫= fun a => (fun _ => a) <$> w.(w_nodes) !! a)).

(** ** Drop *)

Definition drop_real_inode (ri : RealInode) : wprog unit :=
  _ ← catch (on_layer ri.(ri_layer) (fs_op (op_forget Context_default ri.(ri_inode) 1)));
  mret tt.

Fixpoint drop_real_inodes (l : list RealInode) : wprog unit :=
  match l with
  | [] => mret tt
  | ri :: l' => _ ← drop_real_inode ri; drop_real_inodes l'
  end.

(** The [Arc]s kept in the tables, in the handles and in directories. *)
Definition references (w : World L) : list nat :=
  values w.(w_fs).(ov_inodes).(is_inodes) ++ values w.(w_fs).(ov_inodes).(is_deleted) ++
  (oh_node <$> values w.(w_fs).(ov_handles)) ++
  (values w.(w_nodes) ≫= fun n => values n.(on_childrens)).

(** A node that nothing refers to goes, and what it holds is dropped.  Its
    children have larger addresses, so that one pass over the heap is enough. *)
Definition collect_node (a : nat) : wprog unit := fun w =>
  if bool_decide (a ∈ references w) then (w, Ok tt)
  else
    match w.(w_nodes) !! a with
    | None => (w, Ok tt)
    | Some n => drop_real_inodes n.(on_real_inodes) (set_nodes w (delete a w.(w_nodes)))
    end.

Definition collect : wprog unit := fun w =>
  foldr (fun a rest => _ ← collect_node a; rest) (mret tt) (seq 0 w.(w_next)) w.

(** Overlay inodes that are not yet shared. *)
Definition drop_inodes (l : list OverlayInode) : wprog unit :=
  drop_real_inodes (l ≫= on_real_inodes).

(** ** [RealInode] *)

Definition ri_stat64 (ctx : Context) (ri : RealInode) : wprog stat64 :=
  if ri.(ri_inode) =? 0 then fail (Os ENOENT)
  else
    r ← on_layer ri.(ri_layer) (fs_op (op_getattr ctx ri.(ri_inode) None));
    mret r.1.

Definition stat64_ignore_enoent (ctx : Context) (ri : RealInode) : wprog (option stat64) :=
  r ← catch (ri_stat64 ctx ri);
  match r with
  | inr v => mret (Some v)
  | inl e =>
    match raw_os_error e with
    | Some raw_error =>
      if negb (raw_error =? ENOENT) || negb (raw_error =? ENAMETOOLONG) then mret None else fail e
    | None => fail e
    end
  end.

Definition RealInode_new (layer : nat) (in_upper : bool) (inode : Z) (whiteout opaque : bool)
    : wprog RealInode :=
  let ri := MkRealInode layer in_upper inode whiteout opaque None in
  r ← catch (stat64_ignore_enoent Context_default ri);
  match r with
  | inr v => mret (MkRealInode layer in_upper inode whiteout opaque v)
  | inl _ => mret ri
  end.

Definition lookup_child_ignore_enoent (ctx : Context) (ri : RealInode) (name : bytes) : wprog (option Entry) :=
  cname ← lift (to_cstring name);
  r ← catch (on_layer ri.(ri_layer) (fs_op (op_lookup ctx ri.(ri_inode) cname)));
  match r with
  | inr v => mret (if v.(en_inode) =? 0 then None else Some v)
  | inl e =>
    if bool_decide (raw_os_error e = Some ENOENT) || bool_decide (raw_os_error e = Some ENAMETOOLONG)
    then mret None else fail e
  end.

(** An entry found in a layer becomes a real inode only when the checks that
    follow succeed. *)
Definition lookup_child (ctx : Context) (ri : RealInode) (name : bytes) : wprog (option RealInode) :=
  if ri.(ri_whiteout) then mret None
  else
    e ← lookup_child_ignore_enoent ctx ri name;
    match e with
    | Some v =>
      flags ← (if st_is_dir v.(en_attr) then
                 opaque ← on_layer ri.(ri_layer) (layer_is_opaque ctx v.(en_inode));
                 mret (false, opaque)
               else
                 whiteout ← on_layer ri.(ri_layer) (layer_is_whiteout ctx v.(en_inode));
                 mret (whiteout, false));
      mret (Some (MkRealInode ri.(ri_layer) ri.(ri_in_upper_layer) v.(en_inode) flags.1 flags.2
                    (Some v.(en_attr))))
    | None => mret None
    end.

(** The callback that collects names; the flag records that it was called and
    the offset is that of the last entry. *)
Definition collect_name (d : DirEntry) : prog (list bytes * bool * Z) io_error Z := fun x =>
  let '(names, _, _) := x in
  let name := from_utf8_lossy d.(d_name) in
  let names' := if beq name CURRENT_DIR || beq name PARENT_DIR then names else names ++ [name] in
  ((names', true, d.(d_offset)), Ok 1).

(** A round of the loop [while more]. *)
Definition read_names (ctx : Context) (ri : RealInode) (handle : Z) (x : list bytes * Z)
    : wprog (list bytes * Z + list bytes) :=
  r ← on_layer_with ri.(ri_layer)
        (fs_readdir ctx ri.(ri_inode) handle 1024 x.2 collect_name) (x.1, false, x.2);
  let '(names, more, offset) := r.1 in
  mret (if more : bool then inl (names, offset) else inr names).

(** The real inodes of the names; what was found is dropped on an error, and
    so is the entry of a name that comes again. *)
Fixpoint lookup_childs (ctx : Context) (ri : RealInode) (names : list bytes) (acc : gmap bytes RealInode)
    : wprog (gmap bytes RealInode) :=
  match names with
  | [] => mret acc
  | name :: names' =>
    c ← or_drop (lookup_child ctx ri name) (drop_real_inodes (values acc));
    match c with
    | Some child =>
      _ ← drop_real_inodes (option_list (acc !! name));
      lookup_childs ctx ri names' (<[name := child]> acc)
    | None => lookup_childs ctx ri names' acc
    end
  end.

Definition ri_readdir (ctx : Context) (ri : RealInode) : wprog (gmap bytes RealInode) :=
  if ri.(ri_whiteout) then fail (Os ENOENT)
  else
    stat ← match ri.(ri_stat) with Some v => mret v | None => ri_stat64 ctx ri end;
    if negb (st_is_dir stat) then fail (Os ENOTDIR)
    else
      r ← catch (on_layer ri.(ri_layer) (fs_op (op_opendir ctx ri.(ri_inode) O_RDONLY)));
      handle ← match r with
               | inr (h, _) => mret (default 0 h)
               | inl e => if bool_decide (raw_os_error e = Some ENOSYS) then mret 0 else fail e
               end;
      child_names ← loop (read_names ctx ri handle) ([], 0);
      _ ← (if 0 <? handle then
             r ← catch (on_layer ri.(ri_layer) (fs_op (op_releasedir ctx ri.(ri_inode) O_RDONLY handle)));
             match r with
             | inr _ => mret tt
             | inl e => if bool_decide (raw_os_error e = Some ENOSYS) then mret tt else fail e
             end
           else mret tt);
      lookup_childs ctx ri child_names ∅.

(** The real inode of an entry made in the upper layer. *)
Definition upper_real_inode (ri : RealInode) (whiteout opaque : bool) (entry : Entry) : RealInode :=
  MkRealInode ri.(ri_layer) true entry.(en_inode) whiteout opaque (Some entry.(en_attr)).

Definition ri_create_whiteout (ctx : Context) (ri : RealInode) (name : bytes) : wprog RealInode :=
  if negb ri.(ri_in_upper_layer) then fail (Os EROFS)
  else
    cname ← lift (to_cstring name);
    entry ← on_layer ri.(ri_layer) (layer_create_whiteout ctx ri.(ri_inode) cname);
    mret (upper_real_inode ri true false entry).

Definition ri_mkdir (ctx : Context) (ri : RealInode) (name : bytes) (mode umask : Z) : wprog RealInode :=
  if negb ri.(ri_in_upper_layer) then fail (Os EROFS)
  else
    cname ← lift (to_cstring name);
    entry ← on_layer ri.(ri_layer) (fs_op (op_mkdir ctx ri.(ri_inode) cname mode umask));
    mret (upper_real_inode ri false false entry).

Definition ri_create (ctx : Context) (ri : RealInode) (name : bytes) (args : CreateIn)
    : wprog (RealInode * option Z) :=
  if negb ri.(ri_in_upper_layer) then fail (Os EROFS)
  else
    cname ← lift (to_cstring name);
    r ← on_layer ri.(ri_layer) (fs_op (op_create ctx ri.(ri_inode) cname args));
    let '(entry, h, _, _) := r in
    mret (upper_real_inode ri false false entry, h).

Definition ri_mknod (ctx : Context) (ri : RealInode) (name : bytes) (mode rdev umask : Z) : wprog RealInode :=
  if negb ri.(ri_in_upper_layer) then fail (Os EROFS)
  else
    cname ← lift (to_cstring name);
    entry ← on_layer ri.(ri_layer) (fs_op (op_mknod ctx ri.(ri_inode) cname mode rdev umask));
    mret (upper_real_inode ri false false entry).

Definition ri_link (ctx : Context) (ri : RealInode) (ino : Z) (name : bytes) : wprog RealInode :=
  if negb ri.(ri_in_upper_layer) then fail (Os EROFS)
  else
    cname ← lift (to_cstring name);
    entry ← on_layer ri.(ri_layer) (fs_op (op_link ctx ino ri.(ri_inode) cname));
    opaque ← (if st_is_dir entry.(en_attr)
              then on_layer ri.(ri_layer) (layer_is_opaque ctx entry.(en_inode))
              else mret false);
    mret (upper_real_inode ri false opaque entry).

Definition ri_symlink (ctx : Context) (ri : RealInode) (link_name filename : bytes) : wprog RealInode :=
  if negb ri.(ri_in_upper_layer) then fail (Os EROFS)
  else
    clink ← lift (to_cstring link_name);
    cname ← lift (to_cstring filename);
    entry ← on_layer ri.(ri_layer) (fs_op (op_symlink ctx clink ri.(ri_inode) cname));
    mret (upper_real_inode ri false false entry).

(** ** [OverlayInode] *)

(** The cached attributes of a real inode, or those of its layer. *)
Definition stat_or_ask (ctx : Context) (ri : RealInode) : wprog stat64 :=
  match ri.(ri_stat) with Some v => mret v | None => ri_stat64 ctx ri end.

(** The rounds of [new_from_real_inodes] after the first: directories are
    appended up to the first whiteout, non-directory or opaque directory, and
    the rest is dropped. *)
Fixpoint append_real_inodes (new : OverlayInode) (l : list RealInode) : wprog OverlayInode :=
  match l with
  | [] => mret new
  | ri :: l' =>
    stat ← or_drop (stat_or_ask Context_default ri) (drop_real_inodes (ri :: l' ++ new.(on_real_inodes)));
    if ri.(ri_whiteout) then _ ← drop_real_inodes (ri :: l'); mret new
    else if negb (st_is_dir stat) then _ ← drop_real_inodes (ri :: l'); mret new
    else
      let new' := set_real_inodes new (new.(on_real_inodes) ++ [ri]) in
      if ri.(ri_opaque) then _ ← drop_real_inodes l'; mret new'
      else append_real_inodes new' l'
  end.

Definition new_from_real_inodes (name : bytes) (ino : Z) (path : bytes) (real_inodes : list RealInode)
    : wprog OverlayInode :=
  match real_inodes with
  | [] => fail (Os EINVAL)
  | ri :: l =>
    stat ← or_drop (stat_or_ask Context_default ri) (drop_real_inodes (ri :: l));
    let new := new_from_real_inode name ino path ri in
    if ri.(ri_whiteout) then _ ← drop_real_inodes l; mret new
    else if negb (st_is_dir stat) then _ ← drop_real_inodes l; mret new
    else if ri.(ri_opaque) then _ ← drop_real_inodes l; mret new
    else append_real_inodes new l
  end.

Fixpoint first_stat64 (ctx : Context) (l : list RealInode) : wprog stat64 :=
  match l with
  | [] => fail (Os ENOENT)
  | ri :: l' =>
    v ← stat64_ignore_enoent ctx ri;
    match v with
    | Some st => mret st
    | None => first_stat64 ctx l'
    end
  end.

Definition ovi_stat64 (ctx : Context) (a : nat) : wprog stat64 :=
  n ← get_node a;
  first_stat64 ctx n.(on_real_inodes).

Fixpoint get_nodes (l : list nat) : wprog (list OverlayInode) :=
  match l with
  | [] => mret []
  | a :: l' => n ← get_node a; ns ← get_nodes l'; mret (n :: ns)
  end.

Definition count_entries_and_whiteout (ctx : Context) (a : nat) : wprog (Z * Z) :=
  st ← ovi_stat64 ctx a;
  if negb (st_is_dir st) then fail (Os ENOTDIR)
  else
    n ← get_node a;
    childs ← get_nodes (values n.(on_childrens));
    let whiteouts := filter (fun c => c.(on_whiteout) = true) childs in
    mret (zlen childs - zlen whiteouts, zlen whiteouts).

Definition ovi_open (ctx : Context) (a : nat) (flags fuse_flags : Z) : wprog (nat * option Z * Z) :=
  n ← get_node a;
  first ← lift (first_layer_inode n);
  let '(layer, _, inode) := first in
  r ← on_layer layer (fs_op (op_open ctx inode flags fuse_flags));
  let '(h, o, _) := r in
  mret (layer, h, o).

(** Entries of one layer are appended to those of the layers above. *)
Definition merge_entries (all : gmap bytes (list RealInode)) (entries : gmap bytes RealInode)
    : gmap bytes (list RealInode) :=
  foldl (fun all e => <[e.1 := default [] (all !! e.1) ++ [e.2]]> all) all (map_to_list entries).

Definition drop_all (all : gmap bytes (list RealInode)) : wprog unit := drop_real_inodes (concat (values all)).

Fixpoint scan_layers (ctx : Context) (l : list RealInode) (all : gmap bytes (list RealInode))
    : wprog (gmap bytes (list RealInode)) :=
  match l with
  | [] => mret all
  | ri :: l' =>
    if ri.(ri_whiteout) then mret all
    else
      stat ← or_drop (stat_or_ask ctx ri) (drop_all all);
      if negb (st_is_dir stat) then mret all
      else
        entries ← or_drop (ri_readdir ctx ri) (drop_all all);
        let all' := merge_entries all entries in
        if ri.(ri_opaque) then mret all' else scan_layers ctx l' all'
  end.

Fixpoint build_childrens (path : bytes) (l : list (bytes * list RealInode)) (acc : list OverlayInode)
    : wprog (list OverlayInode) :=
  match l with
  | [] => mret acc
  | (name, real_inodes) :: l' =>
    new ← or_drop (new_from_real_inodes name 0 (path ++ SLASH :: name) real_inodes)
            (_ ← drop_real_inodes (concat l'.*2); drop_inodes acc);
    build_childrens path l' (acc ++ [new])
  end.

Definition scan_childrens (ctx : Context) (a : nat) : wprog (list OverlayInode) :=
  st ← ovi_stat64 ctx a;
  if negb (st_is_dir st) then fail (Os ENOTDIR)
  else
    n ← get_node a;
    all_layer_inodes ← scan_layers ctx n.(on_real_inodes) ∅;
    build_childrens n.(on_path) (map_to_list all_layer_inodes) [].

(** The closure gets the real inode of the upper layer, if there is one. *)
Definition handle_upper_inode_locked {A} (a : nat) (f : option RealInode -> wprog A) : wprog A :=
  n ← get_node a;
  match n.(on_real_inodes) with
  | v :: _ => f (if v.(ri_in_upper_layer) then Some v else None)
  | [] => fail (Simple Other)
  end.

Definition add_upper_inode (a : nat) (ri : RealInode) (clear_lowers : bool) : wprog unit :=
  n ← get_node a;
  let lowers := n.(on_real_inodes) in
  let new := if clear_lowers then [ri] else ri :: lowers in
  _ ← update_node a (fun n => set_real_inodes (set_whiteout n ri.(ri_whiteout)) new);
  if clear_lowers then drop_real_inodes lowers else mret tt.

(** A directory is made in the upper layer after those it lies in.  The parent
    of an inode has a smaller address, so that the address bounds the depth. *)
Fixpoint create_upper_dir_at (fuel : nat) (ctx : Context) (a : nat) (mode_umask : option (Z * Z)) : wprog unit :=
  match fuel with
  | O => lift Panic
  | S f =>
    st ← ovi_stat64 ctx a;
    if negb (st_is_dir st) then fail (Os ENOTDIR)
    else
      n ← get_node a;
      if in_upper_layer n then mret tt
      else
        p ← upgrade n.(on_parent);
        match p with
        | None => fail (Simple Other)
        | Some pnode =>
          pn ← get_node pnode;
          _ ← (if in_upper_layer pn then mret tt else create_upper_dir_at f ctx pnode None);
          ri ← handle_upper_inode_locked pnode (fun parent_upper_inode =>
            match parent_upper_inode with
            | Some parent_ri =>
              match mode_umask with
              | Some (mode, umask) => ri_mkdir ctx parent_ri n.(on_name) mode umask
              | None => ri_mkdir ctx parent_ri n.(on_name) st.(st_mode) 0
              end
            | None => fail (Os EINVAL)
            end);
          add_upper_inode a ri false
        end
  end.

Definition create_upper_dir (ctx : Context) (a : nat) (mode_umask : option (Z * Z)) : wprog unit :=
  create_upper_dir_at (S a) ctx a mode_umask.
End overlay.
