(* ===== verification/OverlayOps.v ===== *)
(** * The overlay file system: operations ([src/overlayfs/mod.rs])

    [import], the directory cache, lookup counts, copy-up, creation and removal
    of files, and the look-up of handles.  The temporary file of
    [copy_regfile_up] is a byte buffer with a position; [write] of a layer takes
    what it is asked to write from it in one go. *)

From stdpp Require Import list gmap.
From S2P Require Import Prelude Std Abi AbiStruct FsTypes FileSystem Vfs Host Layer OverlayStore Overlay.

Definition USIZE_MAX : Z := 2 ^ 64 - 1.

Section ops.
Context {L : Type} `{LAYER : Layer L}.

Abbreviation wprog A := (prog (World L) io_error A).

(** ** Tables *)

Definition alloc_inode (path : bytes) : wprog Z := on_store (store_alloc_inode path).

Definition insert_inode (inode : Z) (a : nat) : wprog unit :=
  n ← get_node a;
  on_store (modify (store_insert_inode inode n.(on_path) a)).

Definition get_active_inode (inode : Z) : wprog (option nat) :=
  fs ← get_fs; mret (get_inode fs.(ov_inodes) inode).

Definition get_all_inode (inode : Z) : wprog (option nat) :=
  fs ← get_fs;
  match get_inode fs.(ov_inodes) inode with
  | Some n => mret (Some n)
  | None => mret (get_deleted_inode fs.(ov_inodes) inode)
  end.

(** The callers of [remove_inode] ignore what it returns. *)
Definition remove_inode (inode : Z) (path_removed : option bytes) : wprog unit := fun w =>
  let lookups a := from_option on_lookups 0 (w.(w_nodes) !! a) in
  let '(s, _) := store_remove_inode lookups inode path_removed w.(w_fs).(ov_inodes) in
  (set_fs w (set_ov_inodes w.(w_fs) s), Ok tt).

(** ** The directory cache *)

Fixpoint add_childrens (a : nat) (l : list OverlayInode) : wprog unit :=
  match l with
  | [] => mret tt
  | c :: l' =>
    ino ← or_drop (alloc_inode c.(on_path)) (drop_inodes (c :: l'));
    arc_child ← new_arc (adopt c ino a);
    _ ← update_node a (insert_child c.(on_name) arc_child);
    _ ← insert_inode ino arc_child;
    add_childrens a l'
  end.

Definition load_directory (ctx : Context) (a : nat) : wprog unit :=
  n ← get_node a;
  if n.(on_loaded) then mret tt
  else
    childrens ← scan_childrens ctx a;
    n ← get_node a;
    if n.(on_loaded) then drop_inodes childrens
    else
      _ ← add_childrens a childrens;
      update_node a set_loaded.

Fixpoint import_lowers (ctx : Context) (layers : list nat) (acc : list RealInode) : wprog (list RealInode) :=
  match layers with
  | [] => mret acc
  | layer :: layers' =>
    w ← gets id;
    ino ← lift (unwrap (layer_root_inode <$> w.(w_layers) !! layer));
    opaque ← or_drop (on_layer layer (layer_is_opaque ctx ino)) (drop_real_inodes acc);
    real ← RealInode_new layer false ino false opaque;
    import_lowers ctx layers' (acc ++ [real])
  end.

Definition import_upper (ctx : Context) (upper : option nat) : wprog (list RealInode) :=
  match upper with
  | Some layer =>
    w ← gets id;
    ino ← lift (unwrap (layer_root_inode <$> w.(w_layers) !! layer));
    opaque ← on_layer layer (layer_is_opaque ctx ino);
    real ← RealInode_new layer true ino false opaque;
    mret [real]
  | None => mret []
  end.

Definition ov_import : wprog unit :=
  fs ← get_fs;
  let ctx := Context_default in
  upper ← import_upper ctx fs.(ov_upper_layer);
  real_inodes ← import_lowers ctx fs.(ov_lower_layers) upper;
  root_node ← new_arc {| on_childrens := ∅; on_parent := None; on_real_inodes := real_inodes;
                         on_inode := ROOT_ID; on_path := []; on_name := []; on_lookups := 2;
                         on_whiteout := false; on_loaded := false |};
  _ ← insert_inode ROOT_ID root_node;
  load_directory ctx root_node.

Definition root_node : wprog nat :=
  n ← get_active_inode ROOT_ID;
  lift (unwrap n).

Definition lookup_node (ctx : Context) (parent : Z) (name : bytes) : wprog nat :=
  if contains SLASH name then fail (Os EINVAL)
  else
    p ← get_active_inode parent;
    match p with
    | None => fail (Os ENOENT)
    | Some pnode =>
      pn ← get_node pnode;
      if pn.(on_whiteout) then fail (Os ENOENT)
      else
        st ← ovi_stat64 ctx pnode;
        pn ← get_node pnode;
        _ ← (if st_is_dir st && negb pn.(on_loaded) then load_directory ctx pnode else mret tt);
        if beq name CURRENT_DIR || ((parent =? ROOT_ID) && beq name PARENT_DIR) || beq name []
        then mret pnode
        else
          pn ← get_node pnode;
          match child pn name with
          | Some v => mret v
          | None => fail (Os ENOENT)
          end
    end.

Definition lookup_node_ignore_enoent (ctx : Context) (parent : Z) (name : bytes) : wprog (option nat) :=
  r ← catch (lookup_node ctx parent name);
  match r with
  | inr n => mret (Some n)
  | inl e => if bool_decide (raw_os_error e = Some ENOENT) then mret None else fail e
  end.

Definition ov_forget_one (inode count : Z) : wprog unit :=
  if (inode =? ROOT_ID) || (inode =? 0) then mret tt
  else
    r ← get_all_inode inode;
    match r with
    | None => mret tt
    | Some v =>
      n ← get_node v;
      let lookups := if n.(on_lookups) <? count then 0 else n.(on_lookups) - count in
      _ ← update_node v (fun n => set_lookups n lookups);
      if lookups =? 0 then
        _ ← remove_inode inode None;
        p ← upgrade n.(on_parent);
        match p with Some p => update_node p (remove_child n.(on_name)) | None => mret tt end
      else mret tt
    end.

Definition ov_entry (fs : OverlayFs) (inode : Z) (st : stat64) : Entry := {|
  en_inode := inode;
  en_generation := 0;
  en_attr := st;
  en_attr_flags := 0;
  en_attr_timeout := fs.(ov_config).(oc_attr_timeout);
  en_entry_timeout := fs.(ov_config).(oc_entry_timeout);
|}.

(** [lookups.fetch_add(1)] and [fetch_sub(1)] *)
Definition inc_lookups (n : OverlayInode) : OverlayInode := set_lookups n (wrap 64 (n.(on_lookups) + 1)).
Definition dec_lookups (n : OverlayInode) : OverlayInode := set_lookups n (wrap 64 (n.(on_lookups) - 1)).

Definition ov_do_lookup (ctx : Context) (parent : Z) (name : bytes) : wprog Entry :=
  node ← lookup_node ctx parent name;
  n ← get_node node;
  if n.(on_whiteout) then fail (Os ENOENT)
  else
    st ← ovi_stat64 ctx node;
    n ← get_node node;
    _ ← (if st_is_dir st && negb n.(on_loaded) then load_directory ctx node else mret tt);
    _ ← update_node node inc_lookups;
    fs ← get_fs;
    mret (ov_entry fs n.(on_inode) st).

Definition do_statvfs (ctx : Context) (inode : Z) : wprog statvfs64 :=
  r ← get_active_inode inode;
  match r with
  | Some ovi =>
    n ← get_node ovi;
    match n.(on_real_inodes) with
    | real_inode :: _ => on_layer real_inode.(ri_layer) (fs_op (op_statfs ctx real_inode.(ri_inode)))
    | [] => fail (Simple Other)
    end
  | None => fail (Os ENOENT)
  end.

(** ** Reading a directory *)

(** [.], [..] and the children that are not whiteouts. *)
Definition dir_childrens (a : nat) : wprog (list (bytes * nat)) :=
  n ← get_node a;
  p ← upgrade n.(on_parent);
  parent_node ← match p with Some p => mret p | None => root_node end;
  let addrs := values n.(on_childrens) in
  ns ← get_nodes addrs;
  let shown := omap (fun ca => let '(c, addr) := ca : OverlayInode * nat in
                               if c.(on_whiteout) then None else Some (c.(on_name), addr)) (zip ns addrs) in
  mret ((CURRENT_DIR, a) :: (PARENT_DIR, parent_node) :: shown).

(** The loop over the entries from [index] on; [len] counts what the callback
    has taken. *)
Fixpoint ov_readdir_loop {X} (ctx : Context) (size offset : Z) (is_readdirplus : bool)
    (add_entry : DirEntry -> option Entry -> prog X io_error Z) (index len : Z) (l : list (bytes * nat))
    : prog (World L * X) io_error unit :=
  match l with
  | [] => mret tt
  | (name, c) :: l' =>
    if index <? offset then ov_readdir_loop ctx size offset is_readdirplus add_entry (index + 1) len l'
    else
      st ← on_fst (ovi_stat64 ctx c);
      let dir_entry := MkDirEntry st.(st_ino) (wrap 64 (index + 1)) (entry_type_from_mode st.(st_mode)) name in
      entry ← on_fst (if is_readdirplus then
                        _ ← update_node c inc_lookups;
                        n ← get_node c;
                        fs ← get_fs;
                        mret (Some (ov_entry fs n.(on_inode) st))
                      else mret None);
      r ← catch (on_snd (add_entry dir_entry entry));
      match r with
      | inr l =>
        if l =? 0 then mret tt
        else if size <=? wrap 32 (len + l) then mret tt
        else ov_readdir_loop ctx size offset is_readdirplus add_entry (index + 1) (len + l) l'
      | inl e => if len =? 0 then fail e else mret tt
      end
  end.

Definition ov_do_readdir {X} (ctx : Context) (inode handle size offset : Z) (is_readdirplus : bool)
    (add_entry : DirEntry -> option Entry -> prog X io_error Z) : prog (World L * X) io_error unit :=
  if size =? 0 then mret tt
  else
    fs ← on_fst get_fs;
    ovl_inode ← on_fst (
      match fs.(ov_handles) !! handle with
      | Some dir => mret dir.(oh_node)
      | None =>
        node ← lookup_node ctx inode CURRENT_DIR;
        st ← ovi_stat64 ctx node;
        if negb (st_is_dir st) then fail (Os ENOTDIR) else mret node
      end);
    childrens ← on_fst (dir_childrens ovl_inode);
    if zlen childrens <=? offset then mret tt
    else ov_readdir_loop ctx size offset is_readdirplus add_entry 0 0 childrens.

(** ** Copy-up *)

Definition copy_symlink_up (ctx : Context) (node : nat) : wprog nat :=
  n ← get_node node;
  if in_upper_layer n then mret node
  else
    p ← upgrade n.(on_parent);
    match p with
    | None => fail (Simple Other)
    | Some parent_node =>
      first ← lift (first_layer_inode n);
      let '(self_layer, _, self_inode) := first in
      pn ← get_node parent_node;
      _ ← (if in_upper_layer pn then mret tt else create_upper_dir ctx parent_node None);
      target ← on_layer self_layer (fs_op (op_readlink ctx self_inode));
      path ← lift (map_err (fun _ => Os EINVAL) (to_str target));
      real_inode ← handle_upper_inode_locked parent_node (fun parent_upper_inode =>
        match parent_upper_inode with
        | Some parent_real_inode => ri_symlink ctx parent_real_inode path n.(on_name)
        | None => fail (Os EROFS)
        end);
      _ ← add_upper_inode node real_inode true;
      mret node
    end.

Definition COPY_SIZE : Z := 4 * 1024 * 1024.

(** A round of the loop that reads the lower file into the temporary one. *)
Definition copy_read (ctx : Context) (layer : nat) (inode handle : Z) (x : bytes * Z)
    : wprog (bytes * Z + bytes) := fun w =>
  match w.(w_layers) !! layer with
  | None => (w, Panic)
  | Some l =>
    let '(l', (data, res)) := fs_read ctx inode handle USIZE_MAX COPY_SIZE x.2 None 0 l in
    let w' := set_layers w (<[layer := l']> w.(w_layers)) in
    match res with
    | Ok ret => (w', Ok (if ret =? 0 then inr (x.1 ++ data) else inl (x.1 ++ data, wrap 64 (x.2 + ret))))
    | Err e => (w', Err e)
    | Panic => (w', Panic)
    end
  end.

(** A round of the loop that writes the temporary file to the upper one; what
    was read from the former is gone, whatever the layer reports as written. *)
Definition copy_write (ctx : Context) (ri : RealInode) (handle : Z) (x : bytes * Z) : wprog (bytes * Z + unit) :=
  ret ← on_layer ri.(ri_layer)
          (fs_write ctx ri.(ri_inode) handle x.1 COPY_SIZE x.2 None false 0 0);
  mret (if ret =? 0 then inr tt else inl (drop (Z.to_nat COPY_SIZE) x.1, wrap 64 (x.2 + ret))).

(** The copy itself and the release of the handles. *)
Definition copy_data (ctx : Context) (lower_layer : nat) (lower_inode : Z) (ri : RealInode) (upper_handle : Z)
    : wprog unit :=
  r ← on_layer lower_layer (fs_op (op_open ctx lower_inode O_RDONLY 0));
  let '(h, _, _) := r in
  let lower_handle := default 0 h in
  file ← loop (copy_read ctx lower_layer lower_inode lower_handle) ([], 0);
  _ ← on_layer lower_layer (fs_op (op_release ctx lower_inode 0 lower_handle true true None));
  _ ← loop (copy_write ctx ri upper_handle) (file, 0);
  r ← catch (on_layer ri.(ri_layer) (fs_op (op_release ctx ri.(ri_inode) 0 upper_handle true true None)));
  match r with
  | inr _ => mret tt
  | inl e => if bool_decide (raw_os_error e = Some ENOSYS) then mret tt else fail e
  end.

Definition copy_regfile_up (ctx : Context) (node : nat) : wprog nat :=
  n ← get_node node;
  if in_upper_layer n then mret node
  else
    p ← upgrade n.(on_parent);
    match p with
    | None => fail (Simple Other)
    | Some parent_node =>
      st ← ovi_stat64 ctx node;
      n ← get_node node;
      first ← lift (first_layer_inode n);
      let '(lower_layer, _, lower_inode) := first in
      pn ← get_node parent_node;
      _ ← (if in_upper_layer pn then mret tt else create_upper_dir ctx parent_node None);
      let args := MkCreateIn O_WRONLY st.(st_mode) 0 0 in
      r ← handle_upper_inode_locked parent_node (fun parent_upper_inode =>
        match parent_upper_inode with
        | Some parent_real_inode => ri_create ctx parent_real_inode n.(on_name) args
        | None => fail (Os EINVAL)
        end);
      let '(ri, h) := r in
      _ ← or_drop (copy_data ctx lower_layer lower_inode ri (default 0 h)) (drop_real_inode ri);
      _ ← add_upper_inode node ri true;
      mret node
    end.

Definition copy_node_up (ctx : Context) (node : nat) : wprog nat :=
  n ← get_node node;
  if in_upper_layer n then mret node
  else
    st ← ovi_stat64 ctx node;
    if st_is_dir st then
      _ ← create_upper_dir ctx node None;
      mret node
    else if Z.land st.(st_mode) S_IFMT =? S_IFLNK then copy_symlink_up ctx node
    else copy_regfile_up ctx node.

(** ** Making files *)

Definition no_upper : wprog bool := fs ← get_fs; mret (bool_decide (fs.(ov_upper_layer) = None)).

(** [let _ = layer.delete_whiteout(..)]: the whiteout of the upper layer goes,
    and it does not matter whether that worked. *)
Definition clear_whiteout (ctx : Context) (parent_real_inode : RealInode) (name : bytes) : wprog unit :=
  cname ← lift (to_cstring name);
  _ ← catch (on_layer parent_real_inode.(ri_layer)
               (layer_delete_whiteout ctx parent_real_inode.(ri_inode) cname));
  mret tt.

(** The closures of [do_mknod], [do_create], [do_link] and [do_symlink] when a
    whiteout [n] has the name: the file that [make] makes takes its place. *)
Definition replace_whiteout {X} (ctx : Context) (pnode n : nat) (name : bytes)
    (make : RealInode -> wprog (RealInode * X)) : wprog (RealInode * X) :=
  handle_upper_inode_locked pnode (fun parent_real_inode =>
    match parent_real_inode with
    | None => fail (Os EINVAL)
    | Some parent_real_inode =>
      whiteout ← get_node n;
      _ ← (if in_upper_layer whiteout then clear_whiteout ctx parent_real_inode name else mret tt);
      r ← make parent_real_inode;
      _ ← add_upper_inode n r.1 true;
      mret r
    end).

(** A new inode enters the tables and the directory.  Its parent is not set. *)
Definition enter_node (pnode : nat) (name : bytes) (ovi : OverlayInode) : wprog nat :=
  arc_node ← new_arc ovi;
  _ ← insert_inode ovi.(on_inode) arc_node;
  _ ← update_node pnode (insert_child name arc_node);
  mret arc_node.

(** The closures of [do_mknod], [do_link] and [do_symlink] when nothing has the
    name: the number is allocated, then the file is made. *)
Definition make_new (pnode : nat) (name : bytes) (make : RealInode -> wprog RealInode) : wprog unit :=
  pn ← get_node pnode;
  let path := pn.(on_path) ++ SLASH :: name in
  ovi ← handle_upper_inode_locked pnode (fun parent_real_inode =>
    match parent_real_inode with
    | None => fail (Os EINVAL)
    | Some parent_real_inode =>
      ino ← alloc_inode path;
      child_ri ← make parent_real_inode;
      mret (new_from_real_inode name ino path child_ri)
    end);
  _ ← enter_node pnode name ovi;
  mret tt.

Definition with_unit (make : RealInode -> wprog RealInode) (ri : RealInode) : wprog (RealInode * unit) :=
  r ← make ri; mret (r, tt).

(** [do_mknod] and [do_symlink] differ in the call that makes the file. *)
Definition do_make (ctx : Context) (parent_node : nat) (name : bytes)
    (make : RealInode -> wprog RealInode) : wprog unit :=
  pn ← get_node parent_node;
  r ← lookup_node_ignore_enoent ctx pn.(on_inode) name;
  match r with
  | Some n =>
    nn ← get_node n;
    if negb nn.(on_whiteout) then fail (Os EEXIST)
    else
      pnode ← copy_node_up ctx parent_node;
      _ ← replace_whiteout ctx pnode n name (with_unit make);
      mret tt
  | None =>
    pnode ← copy_node_up ctx parent_node;
    make_new pnode name make
  end.

Definition do_mknod (ctx : Context) (parent_node : nat) (name : bytes) (mode rdev umask : Z) : wprog unit :=
  none ← no_upper;
  if none : bool then fail (Os EROFS)
  else
    pn ← get_node parent_node;
    if pn.(on_whiteout) then fail (Os ENOENT)
    else do_make ctx parent_node name (fun ri => ri_mknod ctx ri name mode rdev umask).

Definition do_symlink (ctx : Context) (linkname : bytes) (parent_node : nat) (name : bytes) : wprog unit :=
  none ← no_upper;
  if none : bool then fail (Os EROFS)
  else
    pn ← get_node parent_node;
    if pn.(on_whiteout) then fail (Os ENOENT)
    else do_make ctx parent_node name (fun ri => ri_symlink ctx ri linkname name).

Definition do_mkdir (ctx : Context) (parent_node : nat) (name : bytes) (mode umask : Z) : wprog unit :=
  none ← no_upper;
  if none : bool then fail (Os EROFS)
  else
    pn ← get_node parent_node;
    if pn.(on_whiteout) then fail (Os ENOENT)
    else
      r ← lookup_node_ignore_enoent ctx pn.(on_inode) name;
      flags ← match r with
              | Some n =>
                nn ← get_node n;
                if negb nn.(on_whiteout) then fail (Os EEXIST)
                else mret (in_upper_layer nn, negb (upper_layer_only nn))
              | None => mret (false, false)
              end;
      let '(delete_whiteout, set_opaque) := flags : bool * bool in
      pnode ← copy_node_up ctx parent_node;
      pn ← get_node pnode;
      let path := pn.(on_path) ++ SLASH :: name in
      ovi ← handle_upper_inode_locked pnode (fun parent_real_inode =>
        match parent_real_inode with
        | None => fail (Os EINVAL)
        | Some parent_real_inode =>
          _ ← (if delete_whiteout then clear_whiteout ctx parent_real_inode name else mret tt);
          ino ← alloc_inode path;
          child_dir ← ri_mkdir ctx parent_real_inode name mode umask;
          _ ← (if set_opaque then
                 or_drop (on_layer parent_real_inode.(ri_layer) (layer_set_opaque ctx child_dir.(ri_inode)))
                   (drop_real_inode child_dir)
               else mret tt);
          mret (new_from_real_inode name ino path child_dir)
        end);
      _ ← enter_node pnode name ovi;
      mret tt.

(** Enter a handle of the upper layer into the table. *)
Definition insert_real_handle (node : nat) (real_handle : option RealHandle) : wprog Z := fun w =>
  let fs := w.(w_fs) in
  let handle := fs.(ov_next_handle) in
  (set_fs w (set_ov_handles fs (<[handle := MkOvHandleData node real_handle]> fs.(ov_handles))
     (wrap 64 (handle + 1))), Ok handle).

Definition do_create (ctx : Context) (parent_node : nat) (name : bytes) (args : CreateIn) : wprog (option Z) :=
  fs ← get_fs;
  match fs.(ov_upper_layer) with
  | None => fail (Os EROFS)
  | Some upper =>
    pn ← get_node parent_node;
    if pn.(on_whiteout) then fail (Os ENOENT)
    else
      r ← lookup_node_ignore_enoent ctx pn.(on_inode) name;
      made ← match r with
             | Some n =>
               nn ← get_node n;
               if negb nn.(on_whiteout) then fail (Os EEXIST)
               else
                 pnode ← copy_node_up ctx parent_node;
                 r ← replace_whiteout ctx pnode n name (fun ri => ri_create ctx ri name args);
                 mret (n, r.1.(ri_inode), r.2)
             | None =>
               pnode ← copy_node_up ctx parent_node;
               pn ← get_node pnode;
               let path := pn.(on_path) ++ SLASH :: name in
               r ← handle_upper_inode_locked pnode (fun parent_real_inode =>
                 match parent_real_inode with
                 | None => fail (Os EINVAL)
                 | Some parent_real_inode =>
                   r ← ri_create ctx parent_real_inode name args;
                   ino ← or_drop (alloc_inode path) (drop_real_inode r.1);
                   mret (new_from_real_inode name ino path r.1, r.1.(ri_inode), r.2)
                 end);
               let '(ovi, real_ino, hd) := r in
               arc_node ← enter_node pnode name ovi;
               mret (arc_node, real_ino, hd)
             end;
      let '(new_ovi, real_ino, handle) := made in
      match handle with
      | Some hd =>
        fs ← get_fs;
        if fs.(ov_no_open) then mret None
        else
          handle ← insert_real_handle new_ovi (Some (MkRealHandle upper true real_ino hd));
          mret (Some handle)
      | None => mret None
      end
  end.

Definition do_link (ctx : Context) (src_node new_parent : nat) (name : bytes) : wprog unit :=
  none ← no_upper;
  if none : bool then fail (Os EROFS)
  else
    sn ← get_node src_node;
    pn ← get_node new_parent;
    if sn.(on_whiteout) || pn.(on_whiteout) then fail (Os ENOENT)
    else
      st ← ovi_stat64 ctx src_node;
      if st_is_dir st then fail (Os EPERM)
      else
        src_node ← copy_node_up ctx src_node;
        new_parent ← copy_node_up ctx new_parent;
        sn ← get_node src_node;
        first ← lift (first_layer_inode sn);
        let src_ino := first.2 in
        pn ← get_node new_parent;
        r ← lookup_node_ignore_enoent ctx pn.(on_inode) name;
        match r with
        | Some n =>
          nn ← get_node n;
          if negb nn.(on_whiteout) then fail (Os EEXIST)
          else
            _ ← replace_whiteout ctx new_parent n name (with_unit (fun ri => ri_link ctx ri src_ino name));
            mret tt
        | None => make_new new_parent name (fun ri => ri_link ctx ri src_ino name)
        end.

(** ** Removing files *)

(** Everything the directory has in the upper layer goes.  Children have
    larger addresses than the directory, so that the distance to the next free
    address bounds the depth. *)
Fixpoint empty_node_directory_at (fuel : nat) (ctx : Context) (node : nat) : wprog unit :=
  match fuel with
  | O => lift Panic
  | S f =>
    st ← ovi_stat64 ctx node;
    if negb (st_is_dir st) then fail (Os ENOTDIR)
    else
      n ← get_node node;
      first ← lift (first_layer_inode n);
      let '(layer, in_upper, inode) := first in
      if negb in_upper then mret tt
      else
        foldr (fun c rest =>
          cn ← get_node c;
          _ ← (if in_upper_layer cn then
                 _ ← (if cn.(on_whiteout) then
                        cname ← lift (to_cstring cn.(on_name));
                        on_layer layer (layer_delete_whiteout ctx inode cname)
                      else
                        s ← ovi_stat64 ctx c;
                        cname ← lift (to_cstring cn.(on_name));
                        if st_is_dir s then
                          counts ← count_entries_and_whiteout ctx c;
                          _ ← (if 0 <? counts.1 + counts.2 then empty_node_directory_at f ctx c else mret tt);
                          on_layer layer (fs_op (op_rmdir ctx inode cname))
                        else on_layer layer (fs_op (op_unlink ctx inode cname)));
                 _ ← remove_inode cn.(on_inode) (Some cn.(on_path));
                 update_node node (remove_child cn.(on_name))
               else mret tt);
          rest) (mret tt) (values n.(on_childrens))
  end.

Definition empty_node_directory (ctx : Context) (node : nat) : wprog unit := fun w =>
  empty_node_directory_at (S (w.(w_next) - node)) ctx node w.

(** The second half of [do_rm]: the inode leaves the tables, and a whiteout
    takes its place if a lower layer still has the name. *)
Definition unlink_node (ctx : Context) (pnode node : nat) (name sname : bytes) (dir : bool) : wprog unit :=
  n ← get_node node;
  need_whiteout ← (if in_upper_layer n then
      handle_upper_inode_locked pnode (fun parent_upper_inode =>
        match parent_upper_inode with
        | None => fail (Os EINVAL)
        | Some parent_real_inode =>
          _ ← on_layer parent_real_inode.(ri_layer)
                (fs_op (if dir then op_rmdir ctx parent_real_inode.(ri_inode) name
                        else op_unlink ctx parent_real_inode.(ri_inode) name));
          mret (negb (upper_layer_only n) && negb parent_real_inode.(ri_opaque))
        end)
    else mret (negb (upper_layer_only n)));
  let path_removed := if in_upper_layer n then Some n.(on_path) else None in
  _ ← update_node node dec_lookups;
  _ ← remove_inode n.(on_inode) path_removed;
  _ ← update_node pnode (remove_child n.(on_name));
  if need_whiteout : bool then
    pn ← get_node pnode;
    _ ← handle_upper_inode_locked pnode (fun parent_upper_inode =>
      match parent_upper_inode with
      | None => fail (Os EINVAL)
      | Some parent_real_inode =>
        child_ri ← ri_create_whiteout ctx parent_real_inode sname;
        let path := pn.(on_path) ++ SLASH :: sname in
        ino ← or_drop (alloc_inode path) (drop_real_inode child_ri);
        enter_node pnode sname (new_from_real_inode sname ino path child_ri)
      end);
    mret tt
  else mret tt.

Definition do_rm (ctx : Context) (parent : Z) (name : CStr) (dir : bool) : wprog unit :=
  none ← no_upper;
  if none : bool then fail (Os EROFS)
  else
    pnode ← lookup_node ctx parent [];
    pn ← get_node pnode;
    if pn.(on_whiteout) then fail (Os ENOENT)
    else
      let sname := from_utf8_lossy name in
      node ← lookup_node ctx parent sname;
      n ← get_node node;
      if n.(on_whiteout) then fail (Os ENOENT)
      else
        _ ← (if dir then
               _ ← load_directory ctx node;
               counts ← count_entries_and_whiteout ctx node;
               if 0 <? counts.1 then fail (Os ENOTEMPTY)
               else
                 n ← get_node node;
                 if (0 <? counts.2) && in_upper_layer n then empty_node_directory ctx node else mret tt
             else mret tt);
        pnode ← copy_node_up ctx pnode;
        unlink_node ctx pnode node name sname dir.

(** ** Handles *)

Definition find_real_info_from_handle (handle : Z) : wprog (nat * Z * Z) :=
  fs ← get_fs;
  match fs.(ov_handles) !! handle with
  | Some h =>
    match h.(oh_real_handle) with
    | Some rhd => mret (rhd.(rh_layer), rhd.(rh_inode), rhd.(rh_handle))
    | None => fail (Os ENOENT)
    end
  | None => fail (Os ENOENT)
  end.

Definition find_real_inode (inode : Z) : wprog (nat * Z) :=
  r ← get_active_inode inode;
  match r with
  | Some a =>
    n ← get_node a;
    first ← lift (first_layer_inode n);
    let '(first_layer, _, first_inode) := first in
    mret (first_layer, first_inode)
  | None => fail (Os ENOENT)
  end.

(** None of [O_APPEND], [O_CREAT], [O_TRUNC], [O_RDWR] and [O_WRONLY]. *)
Definition readonly (flags : Z) : bool :=
  Z.land flags (Z.lor O_APPEND (Z.lor O_CREAT (Z.lor O_TRUNC (Z.lor O_RDWR O_WRONLY)))) =? 0.

Definition ov_get_data (ctx : Context) (handle : option Z) (inode flags : Z) : wprog OvHandleData :=
  fs ← get_fs;
  if negb fs.(ov_no_open) then
    match handle ≫= fun h => fs.(ov_handles) !! h with
    | Some v =>
      n ← get_node v.(oh_node);
      if n.(on_inode) =? inode then mret v else fail (Os ENOENT)
    | None => fail (Os ENOENT)
    end
  else
    node ← lookup_node ctx inode [];
    n ← get_node node;
    if n.(on_whiteout) then fail (Os ENOENT)
    else
      _ ← (if negb (readonly flags) then
             none ← no_upper;
             if none : bool then fail (Os EROFS)
             else _ ← copy_node_up ctx node; mret tt
           else mret tt);
      n ← get_node node;
      first ← lift (first_layer_inode n);
      let '(layer, in_upper, inode) := first in
      mret (MkOvHandleData node (Some (MkRealHandle layer in_upper inode 0))).

Definition do_fsync (ctx : Context) (inode : Z) (datasync : bool) (handle : Z) (syncdir : bool) : wprog unit :=
  data ← ov_get_data ctx (Some handle) inode O_RDONLY;
  match data.(oh_real_handle) with
  | None => fail (Os ENOENT)
  | Some rh =>
    on_layer rh.(rh_layer)
      (fs_op (if syncdir then op_fsyncdir ctx rh.(rh_inode) datasync rh.(rh_handle)
              else op_fsync ctx rh.(rh_inode) datasync rh.(rh_handle)))
  end.
End ops.
