(* ===== verification/OverlaySync.v ===== *)
(** * The overlay file system: requests ([src/overlayfs/sync_io.rs])

    The methods of [FileSystem for OverlayFs], and the instances that make a
    [World] a file system and a backend of the union. *)

From stdpp Require Import list gmap.
From S2P Require Import Prelude Std Abi AbiStruct FsTypes FileSystem Vfs Host Layer OverlayStore Overlay OverlayOps.

Section sync.
Context {L : Type} `{LAYER : Layer L}.

Abbreviation wprog A := (prog (World L) io_error A).

Definition ov_init (capable : Z) : wprog Z :=
  fs ← get_fs;
  let cfg := fs.(ov_config) in
  _ ← (if cfg.(oc_do_import) then ov_import else mret tt);
  let writeback := (negb cfg.(oc_do_import) || cfg.(oc_writeback)) && has_all capable WRITEBACK_CACHE in
  let no_open := (negb cfg.(oc_do_import) || cfg.(oc_no_open)) && has_all capable ZERO_MESSAGE_OPEN in
  let no_opendir := (negb cfg.(oc_do_import) || cfg.(oc_no_opendir)) && has_all capable ZERO_MESSAGE_OPENDIR in
  let killpriv_v2 := (negb cfg.(oc_do_import) || cfg.(oc_killpriv_v2)) && has_all capable HANDLE_KILLPRIV_V2 in
  let perfile_dax := cfg.(oc_perfile_dax) && has_all capable PERFILE_DAX in
  _ ← modify (fun w : World L =>
        set_fs w (set_ov_features w.(w_fs) writeback no_open no_opendir killpriv_v2 perfile_dax));
  let opts := Z.lor DO_READDIRPLUS READDIRPLUS_AUTO in
  let opts := if writeback then Z.lor opts WRITEBACK_CACHE else opts in
  let opts := if no_open then Z.ldiff (Z.lor opts ZERO_MESSAGE_OPEN) ATOMIC_O_TRUNC else opts in
  let opts := if no_opendir then Z.lor opts ZERO_MESSAGE_OPENDIR else opts in
  let opts := if killpriv_v2 then Z.lor opts HANDLE_KILLPRIV_V2 else opts in
  let opts := if perfile_dax then Z.lor opts PERFILE_DAX else opts in
  mret opts.

Definition ov_lookup (ctx : Context) (parent : Z) (name : CStr) : wprog Entry :=
  ov_do_lookup ctx parent (from_utf8_lossy name).

Fixpoint ov_batch_forget (requests : list (Z * Z)) : wprog unit :=
  match requests with
  | [] => mret tt
  | (inode, count) :: requests' => _ ← ov_forget_one inode count; ov_batch_forget requests'
  end.

(** The node a request names; a whiteout is no file. *)
Definition live_node (ctx : Context) (inode : Z) (name : bytes) : wprog nat :=
  node ← lookup_node ctx inode name;
  n ← get_node node;
  if n.(on_whiteout) then fail (Os ENOENT) else mret node.

Definition ov_opendir (ctx : Context) (inode : Z) : wprog (option Z * Z) :=
  fs ← get_fs;
  if fs.(ov_no_opendir) then fail (Os ENOSYS)
  else
    let opts := match fs.(ov_config).(oc_cache_policy) with
                | OvAlways => FOPEN_KEEP_CACHE
                | _ => empty_flags
                end in
    node ← live_node ctx inode CURRENT_DIR;
    st ← ovi_stat64 ctx node;
    if negb (st_is_dir st) then fail (Os ENOTDIR)
    else
      handle ← insert_real_handle node None;
      mret (Some handle, opts).

Definition remove_handle (handle : Z) : wprog unit :=
  modify (fun w : World L =>
    set_fs w (set_ov_handles w.(w_fs) (delete handle w.(w_fs).(ov_handles)) w.(w_fs).(ov_next_handle))).

Definition ov_releasedir (handle : Z) : wprog unit :=
  fs ← get_fs;
  if fs.(ov_no_opendir) then fail (Os ENOSYS) else remove_handle handle.

Definition ov_mkdir (ctx : Context) (parent : Z) (name : CStr) (mode umask : Z) : wprog Entry :=
  let sname := from_utf8_lossy name in
  pnode ← live_node ctx parent [];
  _ ← do_mkdir ctx pnode sname mode umask;
  ov_do_lookup ctx parent sname.

Definition ov_readdir {X} (ctx : Context) (inode handle size offset : Z) (add_entry : add_entry_t X)
    : prog (World L * X) io_error unit :=
  fs ← on_fst get_fs;
  if fs.(ov_config).(oc_no_readdir) then mret tt
  else ov_do_readdir ctx inode handle size offset false (fun dir_entry _ => add_entry dir_entry).

Definition ov_readdirplus {X} (ctx : Context) (inode handle size offset : Z) (add_entry : add_entry_plus_t X)
    : prog (World L * X) io_error unit :=
  fs ← on_fst get_fs;
  if fs.(ov_config).(oc_no_readdir) then mret tt
  else ov_do_readdir ctx inode handle size offset true (fun dir_entry entry =>
    match entry with
    | Some e => add_entry dir_entry e
    | None => fail (Os ENOENT)
    end).

(** The flags a file is opened with in a layer when writes are cached. *)
Definition writeback_flags (writeback : bool) (flags : Z) : Z :=
  if writeback then
    let flags := if Z.land flags O_ACCMODE =? O_WRONLY then Z.lor (Z.ldiff flags O_ACCMODE) O_RDWR else flags in
    if negb (Z.land flags O_APPEND =? 0) then Z.ldiff flags O_APPEND else flags
  else flags.

Definition ov_open_options (policy : OvCachePolicy) : Z :=
  match policy with
  | OvNever => FOPEN_DIRECT_IO
  | OvAlways => FOPEN_KEEP_CACHE
  | OvAuto => empty_flags
  end.

Definition ov_open (ctx : Context) (inode flags fuse_flags : Z) : wprog (option Z * Z * option Z) :=
  fs ← get_fs;
  if fs.(ov_no_open) then fail (Os ENOSYS)
  else
    let layer_flags := writeback_flags fs.(ov_config).(oc_writeback) (Z.lor (signed 32 flags) O_NOFOLLOW) in
    node ← live_node ctx inode [];
    _ ← (if negb (readonly flags) then _ ← copy_node_up ctx node; mret tt else mret tt);
    r ← ovi_open ctx node (wrap 32 layer_flags) fuse_flags;
    match r.1.2 with
    | None => fail (Os ENOENT)
    | Some handle =>
      n ← get_node node;
      first ← lift (first_layer_inode n);
      let '(layer, in_upper, inode) := first in
      hd ← insert_real_handle node (Some (MkRealHandle layer in_upper inode handle));
      mret (Some hd, ov_open_options fs.(ov_config).(oc_cache_policy), None)
    end.

Definition ov_release (ctx : Context) (flags handle : Z) (flush flock_release : bool) (lock_owner : option Z)
    : wprog unit :=
  fs ← get_fs;
  if fs.(ov_no_open) then fail (Os ENOSYS)
  else
    _ ← match fs.(ov_handles) !! handle with
        | Some hd =>
          match hd.(oh_real_handle) with
          | Some rh =>
            on_layer rh.(rh_layer)
              (fs_op (op_release ctx rh.(rh_inode) flags rh.(rh_handle) flush flock_release lock_owner))
          | None => fail (Simple Other)
          end
        | None => mret tt
        end;
    remove_handle handle.

Definition ov_create (ctx : Context) (parent : Z) (name : CStr) (args : CreateIn)
    : wprog (Entry * option Z * Z * option Z) :=
  let sname := from_utf8_lossy name in
  pnode ← live_node ctx parent [];
  fs ← get_fs;
  let flags := writeback_flags fs.(ov_config).(oc_writeback)
                 (Z.ldiff (Z.lor (signed 32 args.(ci_flags)) O_NOFOLLOW) O_DIRECT) in
  let hargs := MkCreateIn (wrap 32 flags) args.(ci_mode) args.(ci_umask) args.(ci_fuse_flags) in
  final_handle ← do_create ctx pnode sname hargs;
  entry ← ov_do_lookup ctx parent sname;
  mret (entry, final_handle, ov_open_options fs.(ov_config).(oc_cache_policy), None).

Definition ov_read (ctx : Context) (inode handle available size offset : Z) (lock_owner : option Z) (flags : Z)
    (w : World L) : World L * (bytes * io_result Z) :=
  match ov_get_data ctx (Some handle) inode flags w with
  | (w', Ok data) =>
    match data.(oh_real_handle) with
    | None => (w', ([], Err (Os ENOENT)))
    | Some hd =>
      match w'.(w_layers) !! hd.(rh_layer) with
      | None => (w', ([], Panic))
      | Some l =>
        let '(l', res) := fs_read ctx hd.(rh_inode) hd.(rh_handle) available size offset lock_owner flags l in
        (set_layers w' (<[hd.(rh_layer) := l']> w'.(w_layers)), res)
      end
    end
  | (w', Err e) => (w', ([], Err e))
  | (w', Panic) => (w', ([], Panic))
  end.

Definition ov_write (ctx : Context) (inode handle : Z) (data : bytes) (size offset : Z)
    (lock_owner : option Z) (delayed_write : bool) (flags fuse_flags : Z) : wprog Z :=
  hdata ← ov_get_data ctx (Some handle) inode flags;
  match hdata.(oh_real_handle) with
  | None => fail (Os ENOENT)
  | Some hd =>
    on_layer hd.(rh_layer)
      (fs_write ctx hd.(rh_inode) hd.(rh_handle) data size offset lock_owner delayed_write flags fuse_flags)
  end.

(** The real handle of an open handle, unless the client opens nothing. *)
Definition real_handle_of (handle : option Z) : wprog (option RealHandle) :=
  fs ← get_fs;
  mret (if negb fs.(ov_no_open) then
          hd ← (handle ≫= fun h => fs.(ov_handles) !! h); oh_real_handle hd
        else None).

Definition ov_getattr (ctx : Context) (inode : Z) (handle : option Z) : wprog (stat64 * Duration) :=
  fs ← get_fs;
  r ← real_handle_of handle;
  match r with
  | Some rh =>
    st ← on_layer rh.(rh_layer) (fs_op (op_getattr ctx rh.(rh_inode) (Some rh.(rh_handle))));
    mret (st.1, fs.(ov_config).(oc_attr_timeout))
  | None =>
    node ← lookup_node ctx inode [];
    n ← get_node node;
    first ← lift (first_layer_inode n);
    let '(layer, _, inode) := first in
    st ← on_layer layer (fs_op (op_getattr ctx inode None));
    mret (st.1, fs.(ov_config).(oc_attr_timeout))
  end.

(** Copy a node up unless it is in the upper layer; its first real inode. *)
Definition upper_inode_of (ctx : Context) (node : nat) : wprog (nat * Z) :=
  n ← get_node node;
  _ ← (if negb (in_upper_layer n) then _ ← copy_node_up ctx node; mret tt else mret tt);
  n ← get_node node;
  first ← lift (first_layer_inode n);
  let '(layer, _, real_inode) := first in
  mret (layer, real_inode).

Definition ov_setattr (ctx : Context) (inode : Z) (attr : stat64) (handle : option Z) (valid : Z)
    : wprog (stat64 * Duration) :=
  none ← no_upper;
  if none : bool then fail (Os EROFS)
  else
    fs ← get_fs;
    r ← real_handle_of handle;
    match r with
    | Some (MkRealHandle layer true real_inode h) =>
      st ← on_layer layer (fs_op (op_setattr ctx real_inode attr (Some h) valid));
      mret (st.1, fs.(ov_config).(oc_attr_timeout))
    | _ =>
      node ← lookup_node ctx inode [];
      r ← upper_inode_of ctx node;
      st ← on_layer r.1 (fs_op (op_setattr ctx r.2 attr None valid));
      mret (st.1, fs.(ov_config).(oc_attr_timeout))
    end.

Definition ov_mknod (ctx : Context) (parent : Z) (name : CStr) (mode rdev umask : Z) : wprog Entry :=
  let sname := from_utf8_lossy name in
  pnode ← live_node ctx parent [];
  _ ← do_mknod ctx pnode sname mode rdev umask;
  ov_do_lookup ctx parent sname.

Definition ov_link (ctx : Context) (inode newparent : Z) (name : CStr) : wprog Entry :=
  let sname := from_utf8_lossy name in
  node ← live_node ctx inode [];
  newpnode ← live_node ctx newparent [];
  _ ← do_link ctx node newpnode sname;
  ov_do_lookup ctx newparent sname.

Definition ov_symlink (ctx : Context) (linkname : CStr) (parent : Z) (name : CStr) : wprog Entry :=
  let sname := from_utf8_lossy name in
  let slinkname := from_utf8_lossy linkname in
  pnode ← lookup_node ctx parent [];
  _ ← do_symlink ctx slinkname pnode sname;
  ov_do_lookup ctx parent sname.

Definition ov_readlink (ctx : Context) (inode : Z) : wprog bytes :=
  node ← live_node ctx inode [];
  n ← get_node node;
  first ← lift (first_layer_inode n);
  let '(layer, _, inode) := first in
  on_layer layer (fs_op (op_readlink ctx inode)).

Definition ov_flush (ctx : Context) (inode handle lock_owner : Z) : wprog unit :=
  fs ← get_fs;
  if fs.(ov_no_open) then fail (Os ENOSYS)
  else
    _ ← live_node ctx inode [];
    r ← find_real_info_from_handle handle;
    let '(layer, real_inode, real_handle) := r in
    on_layer layer (fs_op (op_flush ctx real_inode real_handle lock_owner)).

Definition ov_access (ctx : Context) (inode mask : Z) : wprog unit :=
  _ ← live_node ctx inode [];
  r ← find_real_inode inode;
  on_layer r.1 (fs_op (op_access ctx r.2 mask)).

Definition ov_setxattr (ctx : Context) (inode : Z) (name : CStr) (value : bytes) (flags : Z) : wprog unit :=
  node ← live_node ctx inode [];
  r ← upper_inode_of ctx node;
  on_layer r.1 (fs_op (op_setxattr ctx r.2 name value flags)).

Definition ov_getxattr (ctx : Context) (inode : Z) (name : CStr) (size : Z) : wprog GetxattrReply :=
  _ ← live_node ctx inode [];
  r ← find_real_inode inode;
  on_layer r.1 (fs_op (op_getxattr ctx r.2 name size)).

Definition ov_listxattr (ctx : Context) (inode size : Z) : wprog ListxattrReply :=
  _ ← live_node ctx inode [];
  r ← find_real_inode inode;
  on_layer r.1 (fs_op (op_listxattr ctx r.2 size)).

Definition ov_removexattr (ctx : Context) (inode : Z) (name : CStr) : wprog unit :=
  node ← live_node ctx inode [];
  r ← upper_inode_of ctx node;
  on_layer r.1 (fs_op (op_removexattr ctx r.2 name)).

Definition ov_fallocate (ctx : Context) (inode handle mode offset length : Z) : wprog unit :=
  data ← ov_get_data ctx (Some handle) inode O_RDONLY;
  match data.(oh_real_handle) with
  | None => fail (Os ENOENT)
  | Some rhd =>
    if negb rhd.(rh_in_upper_layer) then fail (Os EROFS)
    else on_layer rhd.(rh_layer) (fs_op (op_fallocate ctx rhd.(rh_inode) rhd.(rh_handle) mode offset length))
  end.

Definition ov_lseek (ctx : Context) (inode handle offset whence : Z) : wprog Z :=
  node ← live_node ctx inode [];
  st ← ovi_stat64 ctx node;
  if st_is_dir st then fail (Os EINVAL)
  else
    r ← find_real_info_from_handle handle;
    let '(layer, real_inode, real_handle) := r in
    on_layer layer (fs_op (op_lseek ctx real_inode real_handle offset whence)).

Definition ov_op (A : Set) (op : FsOp A) : wprog A :=
  match op in FsOp A return wprog A with
  | op_init capable => ov_init capable
  | op_destroy => mret tt
  | op_lookup ctx parent name => ov_lookup ctx parent name
  | op_forget _ inode count => ov_forget_one inode count
  | op_batch_forget _ requests => ov_batch_forget requests
  | op_getattr ctx inode handle => ov_getattr ctx inode handle
  | op_setattr ctx inode attr handle valid => ov_setattr ctx inode attr handle valid
  | op_readlink ctx inode => ov_readlink ctx inode
  | op_symlink ctx linkname parent name => ov_symlink ctx linkname parent name
  | op_mknod ctx inode name mode rdev umask => ov_mknod ctx inode name mode rdev umask
  | op_mkdir ctx parent name mode umask => ov_mkdir ctx parent name mode umask
  | op_unlink ctx parent name => do_rm ctx parent name false
  | op_rmdir ctx parent name => do_rm ctx parent name true
  | op_rename _ _ _ _ _ _ => fail (Os EXDEV)
  | op_link ctx inode newparent newname => ov_link ctx inode newparent newname
  | op_open ctx inode flags fuse_flags => ov_open ctx inode flags fuse_flags
  | op_create ctx parent name args => ov_create ctx parent name args
  | op_flush ctx inode handle lock_owner => ov_flush ctx inode handle lock_owner
  | op_fsync ctx inode datasync handle => do_fsync ctx inode datasync handle false
  | op_fallocate ctx inode handle mode offset length => ov_fallocate ctx inode handle mode offset length
  | op_release ctx _ flags handle flush flock_release lock_owner =>
      ov_release ctx flags handle flush flock_release lock_owner
  | op_statfs ctx inode => do_statvfs ctx inode
  | op_setxattr ctx inode name value flags => ov_setxattr ctx inode name value flags
  | op_getxattr ctx inode name size => ov_getxattr ctx inode name size
  | op_listxattr ctx inode size => ov_listxattr ctx inode size
  | op_removexattr ctx inode name => ov_removexattr ctx inode name
  | op_opendir ctx inode _ => ov_opendir ctx inode
  | op_fsyncdir ctx inode datasync handle => do_fsync ctx inode datasync handle true
  | op_releasedir _ _ _ handle => ov_releasedir handle
  | op_access ctx inode mask => ov_access ctx inode mask
  | op_lseek ctx inode handle offset whence => ov_lseek ctx inode handle offset whence
  | op => default_op (fun _ => ov_forget_one) _ op
  end.

(** At the end of a request the inodes that are no longer used go. *)
Definition read_request (m : World L -> World L * (bytes * io_result Z)) (w : World L)
    : World L * (bytes * io_result Z) :=
  let '(w', r) := m w in
  let '(w'', o) := collect w' in
  (w'', match o with Panic => ([], Panic) | _ => r end).

#[global] Instance OverlayFs_filesystem : FileSystem (World L) := {|
  fs_op A op := finally (ov_op A op) collect;
  fs_read ctx inode handle available size offset lock_owner flags :=
    read_request (ov_read ctx inode handle available size offset lock_owner flags);
  fs_write ctx inode handle data size offset lock_owner delayed_write flags fuse_flags :=
    finally (ov_write ctx inode handle data size offset lock_owner delayed_write flags fuse_flags) collect;
  fs_readdir X ctx inode handle size offset add_entry :=
    finally (ov_readdir ctx inode handle size offset add_entry) (on_fst collect);
  fs_readdirplus X ctx inode handle size offset add_entry :=
    finally (ov_readdirplus ctx inode handle size offset add_entry) (on_fst collect);
  fs_id_remap := default_id_remap;
|}.

Definition ov_mount : wprog (Entry * Z) :=
  finally (
    entry ← ov_do_lookup Context_default ROOT_ID [];
    mret (entry, VFS_MAX_INO)) collect.

#[global] Instance OverlayFs_backend : BackendFileSystem (World L) := {|
  be_mount := ov_mount;
|}.
End sync.
