(* ===== verification/ToyLayer.v ===== *)
(** * A layer in memory

    A file system small enough to evaluate: a tree of nodes with data, extended
    attributes and lookup counts.  It is a layer through the default bodies of
    the trait.  The theorems on the overlay file system are evaluated on it, and on
    the overlay of two such layers in the second part. *)

From stdpp Require Import list gmap.
From S2P Require Import Prelude Std Abi AbiStruct FsTypes FileSystem Vfs Host Layer OverlayStore Overlay OverlayOps.
From S2P Require Import OverlaySync.

(** [tn_data] is the content of a file or the target of a symbolic link. *)
Record ToyNode : Set := MkToyNode {
  tn_mode : Z;
  tn_rdev : Z;
  tn_children : gmap bytes Z;
  tn_xattr : gmap bytes bytes;
  tn_data : bytes;
}.

Record ToyLayer : Set := MkToyLayer {
  tl_nodes : gmap Z ToyNode;
  tl_next : Z;
  tl_refs : gmap Z N;
}.

Definition DIR_MODE : Z := Z.lor S_IFDIR 0x1ed.
Definition FILE_MODE : Z := Z.lor S_IFREG 0x1a4.
Definition toy_dir (children : gmap bytes Z) : ToyNode := MkToyNode DIR_MODE 0 children ∅ [].
Definition toy_file (data : bytes) : ToyNode := MkToyNode FILE_MODE 0 ∅ ∅ data.
Definition toy_layer (nodes : list (Z * ToyNode)) (next : Z) : ToyLayer :=
  MkToyLayer (list_to_map nodes) next ∅.

Abbreviation tprog A := (prog ToyLayer io_error A).

Definition toy_stat (inode : Z) (n : ToyNode) : stat64 :=
  MkStat64 0 inode 1 n.(tn_mode) 0 0 n.(tn_rdev) (zlen n.(tn_data)) 0 0 0 0 0 0 0 0.

Definition toy_entry (inode : Z) (n : ToyNode) : Entry :=
  MkEntry inode 0 (toy_stat inode n) 0 Duration_default Duration_default.

Definition toy_get (inode : Z) : tprog ToyNode := fun l =>
  (l, ok_or (Os ENOENT) (l.(tl_nodes) !! inode)).

Definition toy_put (inode : Z) (n : ToyNode) : tprog unit :=
  modify (fun l => MkToyLayer (<[inode := n]> l.(tl_nodes)) l.(tl_next) l.(tl_refs)).

(** An entry is a reference to its inode. *)
Definition toy_give (inode : Z) : tprog Entry :=
  n ← toy_get inode;
  _ ← modify (fun l => MkToyLayer l.(tl_nodes) l.(tl_next)
                         (<[inode := (default 0 (l.(tl_refs) !! inode) + 1)%N]> l.(tl_refs)));
  mret (toy_entry inode n).

Definition toy_lookup (parent : Z) (name : CStr) : tprog Entry :=
  p ← toy_get parent;
  match p.(tn_children) !! name with
  | Some c => toy_give c
  | None => fail (Os ENOENT)
  end.

Definition toy_forget (inode count : Z) : tprog unit :=
  modify (fun l => MkToyLayer l.(tl_nodes) l.(tl_next)
                     (<[inode := (default 0 (l.(tl_refs) !! inode) - Z.to_N count)%N]> l.(tl_refs))).

Definition with_children (n : ToyNode) (c : gmap bytes Z) : ToyNode :=
  MkToyNode n.(tn_mode) n.(tn_rdev) c n.(tn_xattr) n.(tn_data).

(** A name that already exists, or is no name, is refused. *)
Definition toy_enter (parent : Z) (name : CStr) (inode : Z) : tprog unit :=
  p ← toy_get parent;
  if negb (plain_name name) then fail (Os EINVAL)
  else
    match p.(tn_children) !! name with
    | Some _ => fail (Os EEXIST)
    | None => toy_put parent (with_children p (<[name := inode]> p.(tn_children)))
    end.

Definition toy_make (parent : Z) (name : CStr) (n : ToyNode) : tprog Entry :=
  l ← gets id;
  let inode := l.(tl_next) in
  _ ← toy_enter parent name inode;
  _ ← modify (fun l => MkToyLayer (<[inode := n]> l.(tl_nodes)) (inode + 1) l.(tl_refs));
  toy_give inode.

Definition toy_remove (parent : Z) (name : CStr) (ok : ToyNode -> bool) : tprog unit :=
  p ← toy_get parent;
  if negb (plain_name name) then fail (Os EINVAL)
  else
    match p.(tn_children) !! name with
    | Some c =>
      n ← toy_get c;
      if ok n then toy_put parent (with_children p (delete name p.(tn_children))) else fail (Os ENOTEMPTY)
    | None => fail (Os ENOENT)
    end.

Definition toy_is_dir (n : ToyNode) : bool := Z.land n.(tn_mode) S_IFMT =? S_IFDIR.

Definition toy_op (A : Set) (op : FsOp A) : tprog A :=
  match op in FsOp A return tprog A with
  | op_lookup _ parent name => toy_lookup parent name
  | op_forget _ inode count => toy_forget inode count
  | op_getattr _ inode _ => n ← toy_get inode; mret (toy_stat inode n, Duration_default)
  | op_readlink _ inode => n ← toy_get inode; mret n.(tn_data)
  | op_symlink _ linkname parent name =>
      toy_make parent name (MkToyNode (Z.lor S_IFLNK 0x1ff) 0 ∅ ∅ linkname)
  | op_mknod _ inode name mode rdev umask => toy_make inode name (MkToyNode mode rdev ∅ ∅ [])
  | op_mkdir _ parent name mode umask =>
      toy_make parent name (MkToyNode (Z.lor S_IFDIR (Z.land mode 0xfff)) 0 ∅ ∅ [])
  | op_unlink _ parent name => toy_remove parent name (fun n => negb (toy_is_dir n))
  | op_rmdir _ parent name => toy_remove parent name (fun n => toy_is_dir n && bool_decide (n.(tn_children) = ∅))
  | op_link _ inode newparent newname => _ ← toy_enter newparent newname inode; toy_give inode
  | op_open _ inode flags fuse_flags => _ ← toy_get inode; mret (Some 1, empty_flags, None)
  | op_create _ parent name args =>
      e ← toy_make parent name (MkToyNode (Z.lor S_IFREG (Z.land args.(ci_mode) 0xfff)) 0 ∅ ∅ []);
      mret (e, Some 1, empty_flags, None)
  | op_release _ _ _ _ _ _ _ => mret tt
  | op_setxattr _ inode name value _ =>
      n ← toy_get inode;
      toy_put inode (MkToyNode n.(tn_mode) n.(tn_rdev) n.(tn_children) (<[name := value]> n.(tn_xattr)) n.(tn_data))
  | op_getxattr _ inode name _ =>
      n ← toy_get inode;
      match n.(tn_xattr) !! name with
      | Some v => mret (GxValue v)
      | None => fail (Os ENODATA)
      end
  | op_opendir _ inode _ => _ ← toy_get inode; mret (Some 1, empty_flags)
  | op_releasedir _ _ _ _ => mret tt
  | op_access _ _ _ => mret tt
  | op => default_op (fun _ => toy_forget) _ op
  end.

(** Files and directories have a largest size. *)
Definition TOY_MAX : Z := 2 ^ 40.

Definition toy_read (ctx : Context) (inode handle available size offset : Z) (lock_owner : option Z) (flags : Z)
    (l : ToyLayer) : ToyLayer * (bytes * io_result Z) :=
  match l.(tl_nodes) !! inode with
  | Some n =>
    if TOY_MAX <=? zlen n.(tn_data) then (l, ([], Err (Os EINVAL)))
    else
      let data := take (Z.to_nat (Z.min available size)) (drop (Z.to_nat offset) n.(tn_data)) in
      (l, (data, Ok (zlen data)))
  | None => (l, ([], Err (Os ENOENT)))
  end.

Definition toy_write (ctx : Context) (inode handle : Z) (data : bytes) (size offset : Z)
    (lock_owner : option Z) (delayed_write : bool) (flags fuse_flags : Z) : tprog Z :=
  n ← toy_get inode;
  let buf := take (Z.to_nat size) data in
  let old := n.(tn_data) ++ replicate (Z.to_nat offset - length n.(tn_data)) 0 in
  let new := take (Z.to_nat offset) old ++ buf ++ drop (Z.to_nat offset + length buf) old in
  _ ← toy_put inode (MkToyNode n.(tn_mode) n.(tn_rdev) n.(tn_children) n.(tn_xattr) new);
  mret (zlen buf).

(** Entries are numbered from 1 in the order of the map. *)
Fixpoint toy_scan {X} (add_entry : add_entry_t X) (index offset : Z) (l : list (bytes * Z))
    : prog (ToyLayer * X) io_error unit :=
  match l with
  | [] => mret tt
  | (name, c) :: l' =>
    if index <=? offset then toy_scan add_entry (index + 1) offset l'
    else
      n ← on_snd (add_entry (MkDirEntry c index DT_UNKNOWN name));
      if n =? 0 then mret tt else toy_scan add_entry (index + 1) offset l'
  end.

Definition toy_readdir {X} (ctx : Context) (inode handle size offset : Z) (add_entry : add_entry_t X)
    : prog (ToyLayer * X) io_error unit :=
  n ← on_fst (toy_get inode);
  let entries := map_to_list n.(tn_children) in
  if TOY_MAX <=? zlen entries then fail (Os EINVAL) else toy_scan add_entry 1 offset entries.

#[global] Instance ToyLayer_filesystem : FileSystem ToyLayer := {|
  fs_op := toy_op;
  fs_read := toy_read;
  fs_write := toy_write;
  fs_readdir := @toy_readdir;
  fs_readdirplus := @default_readdirplus ToyLayer;
  fs_id_remap := default_id_remap;
|}.

#[global] Instance ToyLayer_layer : Layer ToyLayer := default_layer (fun _ => ROOT_ID).

(** * An overlay file system to evaluate

    A lower layer with a directory [d] that holds a file [f], and a file [g]
    beside it; an empty upper layer; and what a client does with them. *)

Definition toy_lower : ToyLayer :=
  toy_layer [(1, toy_dir {[bs "d" := 2; bs "g" := 4]}); (2, toy_dir {[bs "f" := 3]});
             (3, toy_file (bs "hello")); (4, toy_file (bs "world"))] 5.
Definition toy_upper : ToyLayer := toy_layer [(1, toy_dir ∅)] 2.

Definition toy_config : OvConfig :=
  MkOvConfig [] [] true false false false false false false OvAuto Duration_default Duration_default.

Abbreviation ToyWorld := (World ToyLayer).

(** The file system over layers, before INIT. *)
Definition toy_fs_over (layers : list ToyLayer) : ToyWorld :=
  MkWorld (OverlayFs_new (Some 0%nat) [1%nat] toy_config) ∅ 0 layers.

Definition toy_overlay : ToyWorld := toy_fs_over [toy_upper; toy_lower].

(** ** Layers with everything in them *)

(** Below: [d] with [f], [e] with [h], and [g].  Above: [d] with [n], [e] with [k]
    and opaque, and a whiteout for [g]. *)
Definition toy_below : ToyLayer :=
  toy_layer [(1, toy_dir {[bs "d" := 2; bs "e" := 5; bs "g" := 4]}); (2, toy_dir {[bs "f" := 3]});
             (3, toy_file (bs "hello")); (4, toy_file (bs "world")); (5, toy_dir {[bs "h" := 6]}); (6, toy_file [])] 7.
Definition toy_above : ToyLayer :=
  toy_layer [(1, toy_dir {[bs "d" := 2; bs "e" := 5; bs "g" := 4]}); (2, toy_dir {[bs "n" := 3]});
             (3, toy_file (bs "new")); (4, MkToyNode (Z.lor S_IFCHR 0x1ff) 0 ∅ ∅ []);
             (5, MkToyNode DIR_MODE 0 {[bs "k" := 6]} {[OPAQUE_XATTR := bs "y"]} []); (6, toy_file [])] 7.
