(* ===== verification/OverlayLaws.v ===== *)
(** * What the overlay file system relies on in its layers

    [LayerOk]: no method of a layer panics; scanning a directory and reading a
    file come to an end; ["."] and [".."] cannot be removed.  [ReadsKeep R]: the
    calls that only read keep the layer within the preorder [R], which says what
    it means for a layer to be unchanged.  The second part defines the union of
    layers as a specification. *)

From stdpp Require Import list gmap.
From S2P Require Import Prelude Std Abi AbiStruct FsTypes FileSystem ProgLogic Host Layer OverlayStore Overlay.
From S2P Require Import OverlayOps.

(** The empty name, ["."] and [".."]. *)
Definition dot_name (name : bytes) : bool := beq name [] || beq name CURRENT_DIR || beq name PARENT_DIR.

(** [lo_left l inode offset] counts the entries of a directory after an offset,
    [lo_size l inode] the bytes of a file. *)
Class LayerOk (L : Type) `{LAYER : Layer L} : Type := {
  lo_fs :: FileSystemOk L;
  lo_create_whiteout : forall ctx parent name, no_panic (S := L) (layer_create_whiteout ctx parent name);
  lo_delete_whiteout : forall ctx parent name, no_panic (S := L) (layer_delete_whiteout ctx parent name);
  lo_is_whiteout : forall ctx inode, no_panic (S := L) (layer_is_whiteout ctx inode);
  lo_set_opaque : forall ctx inode, no_panic (S := L) (layer_set_opaque ctx inode);
  lo_is_opaque : forall ctx inode, no_panic (S := L) (layer_is_opaque ctx inode);
  lo_left : L -> Z -> Z -> Z;
  lo_left_range : forall l inode offset, 0 <= lo_left l inode offset < 2 ^ 64;
  lo_readdir : forall X ctx inode handle size offset (add : add_entry_t X) (P : X -> Prop) (l : L) x,
    (forall d y, lo_left l inode d.(d_offset) < lo_left l inode offset -> P y -> P (add d y).1) ->
    P x -> P (fs_readdir ctx inode handle size offset add (l, x)).1.2;
  lo_readdir_left : forall X ctx inode handle size offset (add : add_entry_t X) (l : L) x,
    lo_left (fs_readdir ctx inode handle size offset add (l, x)).1.1 = lo_left l;
  lo_size : L -> Z -> Z;
  lo_size_range : forall l inode, 0 <= lo_size l inode < 2 ^ 63;
  lo_read : forall ctx inode handle available size offset lock_owner flags (l l' : L) data n,
    fs_read ctx inode handle available size offset lock_owner flags l = (l', (data, Ok n)) ->
    lo_size l' = lo_size l /\ (n <> 0 -> offset + n <= lo_size l inode);
  lo_write_nil : forall ctx inode handle size offset lock_owner delayed flags fuse_flags (l l' : L) n,
    fs_write ctx inode handle [] size offset lock_owner delayed flags fuse_flags l = (l', Ok n) -> n = 0;
  lo_dots : forall ctx parent name (l : L), dot_name name = true ->
    is_ok (fs_op (op_unlink ctx parent name) l).2 = false /\
    is_ok (fs_op (op_rmdir ctx parent name) l).2 = false;
}.

(** The calls that change nothing in a layer but its lookup counts and its
    table of handles. *)
Definition reads {A : Set} (op : FsOp A) : bool :=
  match op with
  | op_lookup _ _ _ | op_forget _ _ _ | op_getattr _ _ _ | op_readlink _ _ | op_release _ _ _ _ _ _ _
  | op_opendir _ _ _ | op_releasedir _ _ _ _ | op_flush _ _ _ _ | op_fsync _ _ _ _ | op_fsyncdir _ _ _ _
  | op_access _ _ _ | op_getxattr _ _ _ _ | op_listxattr _ _ _ | op_statfs _ _ | op_lseek _ _ _ _ _ => true
  | op_open _ _ flags _ => readonly flags
  | _ => false
  end.

Class ReadsKeep {L : Type} `{LAYER : Layer L} (R : relation L) : Prop := {
  rk_preorder :: PreOrder R;
  rk_op : forall (A : Set) (op : FsOp A), reads op = true -> pres R (fs_op op);
  rk_read : forall ctx inode handle available size offset lock_owner flags (l : L),
    R l (fs_read ctx inode handle available size offset lock_owner flags l).1;
  rk_readdir : forall X ctx inode handle size offset (add : add_entry_t X),
    pres (fst_rel R) (fs_readdir ctx inode handle size offset add);
  rk_is_whiteout : forall ctx inode, pres R (layer_is_whiteout ctx inode);
  rk_is_opaque : forall ctx inode, pres R (layer_is_opaque ctx inode);
}.

(** With nothing to keep, every call keeps it. *)
#[global] Instance true_reads_keep {L : Type} `{LAYER : Layer L} : ReadsKeep (fun _ _ : L => True).
Proof. by split. Qed.

(** A layer that uses the default bodies need only answer for the calls of a
    file system. *)
Section default.
Context {L : Type} `{FS : FileSystem L} (root : L -> Z).

Lemma no_panic_catch {S E A} (m : prog S E A) : no_panic m -> no_panic (catch m).
Proof. intros Hm s. specialize (Hm s). unfold catch. by destruct (m s) as [s' [a|e|]]. Qed.

Lemma no_panic_lift_ok_or {S E A} (e : E) (o : option A) : no_panic (lift (ok_or e o) : prog S E A).
Proof. intros s. by destruct o. Qed.

Lemma pres_catch {S E A} (R : relation S) (m : prog S E A) : pres R m -> pres R (catch m).
Proof. intros Hm s. specialize (Hm s). unfold catch. by destruct (m s) as [s' [a|e|]]. Qed.

#[local] Hint Resolve no_panic_catch no_panic_lift_ok_or pres_catch : fuse.

Ltac default_body H :=
  repeat first
    [ by apply H
    | progress intros
    | apply no_panic_bind | apply pres_bind; [typeclasses eauto|..]
    | apply no_panic_catch | apply pres_catch
    | case_match
    | progress auto with fuse ].

Lemma default_no_panic (Hop : forall (A : Set) (op : FsOp A), no_panic (S := L) (fs_op op)) :
  (forall ctx parent name, no_panic (S := L) (default_create_whiteout ctx parent name)) /\
  (forall ctx parent name, no_panic (S := L) (default_delete_whiteout ctx parent name)) /\
  (forall ctx inode, no_panic (S := L) (default_is_whiteout ctx inode)) /\
  (forall ctx inode, no_panic (S := L) (default_set_opaque ctx inode)) /\
  (forall ctx inode, no_panic (S := L) (default_is_opaque ctx inode)).
Proof.
  assert (Hc : forall ctx inode name size, no_panic (S := L) (check_attr ctx inode name size)).
  { intros. unfold check_attr. default_body Hop. }
  split_and!; intros; cbv beta delta [default_create_whiteout default_delete_whiteout default_is_whiteout
    default_set_opaque default_is_opaque]; default_body Hop.
Qed.

Lemma default_reads_keep (R : relation L) `{!PreOrder R} ctx inode
    (Hop : forall (A : Set) (op : FsOp A), reads op = true -> pres R (fs_op op)) :
  pres R (default_is_whiteout ctx inode) /\ pres R (default_is_opaque ctx inode).
Proof.
  assert (Hc : forall ctx inode name size, pres R (check_attr (L := L) ctx inode name size)).
  { intros. unfold check_attr. default_body Hop. }
  split; cbv beta delta [default_is_whiteout default_is_opaque]; default_body Hop.
Qed.
End default.

(** * The union of layers, as a specification

    What a client of the overlay file system should see, given what is in the
    layers.  [Viewed] says what is in a layer: the files that inode numbers
    stand for, the names in a directory, and the references a layer counts.
    [LayerView] states what the methods of a layer return in these terms.
    [visible], [merged] and [resolve] define the union: an upper file hides the
    lower ones, a whiteout hides all below it, directories are merged up to the
    first opaque one. *)

(** ** Layers *)

Inductive Kind : Set := Whiteout | Dir (opaque : bool) | Plain.

Definition kind_dir (k : Kind) : bool := match k with Dir _ => true | _ => false end.
Definition is_opaque (k : Kind) : bool := match k with Dir o => o | _ => false end.
Definition is_wh (k : Kind) : bool := match k with Whiteout => true | _ => false end.

(** The attributes of a file but for the access time, which reading changes. *)
Definition no_atime (st : stat64) : stat64 :=
  MkStat64 st.(st_dev) st.(st_ino) st.(st_nlink) st.(st_mode) st.(st_uid) st.(st_gid) st.(st_rdev) st.(st_size)
    st.(st_blksize) st.(st_blocks) 0 0 st.(st_mtime) st.(st_mtime_nsec) st.(st_ctime) st.(st_ctime_nsec).

(** [lv_stat l inode] are the attributes of a file, with no access time.  [lv_ok l]: the layer is in a state to serve.  [lv_list l inode offset] are the entries of a directory after an offset,
    [lv_handle l inode h] that the directory can be read with the handle [h]. *)
Class Viewed (L : Type) : Type := {
  lv_ok : L -> Prop;
  lv_refs : L -> Z -> Z;
  lv_child : L -> Z -> bytes -> option Z;
  lv_kind : L -> Z -> Kind;
  lv_stat : L -> Z -> stat64;
  lv_list : L -> Z -> Z -> list DirEntry;
  lv_handle : L -> Z -> Z -> Prop;
}.

(** A name the overlay file system can handle. *)
Definition good_name (name : bytes) : Prop :=
  dot_name name = false /\ cstr_ok name = true /\ from_utf8_lossy name = name /\ contains SLASH name = false.

Section view.
Context {L : Type} `{LAYER : Layer L} `{VIEWED : !Viewed L}.

(** An inode number is good for a call while the layer counts a reference. *)
Definition known (l : L) (inode : Z) : Prop := lv_ok l /\ (inode = layer_root_inode l \/ 0 < lv_refs l inode).

(** The same files, [d] references more. *)
Record moved (d : Z -> Z) (l l' : L) : Prop := {
  mv_ok : lv_ok l -> lv_ok l';
  mv_root : layer_root_inode l' = layer_root_inode l;
  mv_child : forall i name, lv_child l' i name = lv_child l i name;
  mv_kind : forall i, lv_kind l' i = lv_kind l i;
  mv_stat : forall i, lv_stat l' i = lv_stat l i;
  mv_list : forall i offset, lv_list l' i offset = lv_list l i offset;
  mv_refs : forall i, lv_refs l' i = lv_refs l i + d i;
}.

Definition none : Z -> Z := fun _ => 0.
Definition one (i : Z) : Z -> Z := fun k => if k =? i then 1 else 0.

(** The directory [i] can be used. *)
Definition dir_at (l : L) (i : Z) : Prop := known l i /\ kind_dir (lv_kind l i) = true.

(** [st] has the attributes of the file [i]. *)
Definition stat_of (l : L) (i : Z) (st : stat64) : Prop :=
  st_is_dir st = kind_dir (lv_kind l i) /\ no_atime st = lv_stat l i.
End view.

Class LayerView (L : Type) `{LAYER : Layer L} `{VIEWED : !Viewed L} : Prop := {
  lv_refs_nonneg : forall (l : L) i, 0 <= lv_refs l i;
  lv_lookup : forall ctx (l : L) i name, dir_at l i -> good_name name ->
    match fs_op (op_lookup ctx i name) l, lv_child l i name with
    | (l', Ok e), Some c =>
      e.(en_inode) = c /\ c <> 0 /\ stat_of l c e.(en_attr) /\ moved (one c) l l'
    | (l', Ok e), None => e.(en_inode) = 0 /\ moved none l l'
    | (l', Err e), None => raw_os_error e = Some ENOENT /\ moved none l l'
    | _, _ => False
    end;
  lv_forget : forall ctx (l : L) i, 0 < lv_refs l i ->
    ends (fs_op (op_forget ctx i 1)) (fun _ l' => moved (fun k => - one i k) l l') l;
  lv_getattr : forall ctx (l : L) i, known l i ->
    ends (fs_op (op_getattr ctx i None)) (fun r l' => stat_of l i r.1 /\ moved none l l') l;
  lv_is_opaque : forall ctx (l : L) i o, known l i -> lv_kind l i = Dir o ->
    ends (layer_is_opaque ctx i) (fun b l' => b = o /\ moved none l l') l;
  lv_is_whiteout : forall ctx (l : L) i, known l i -> kind_dir (lv_kind l i) = false ->
    ends (layer_is_whiteout ctx i) (fun b l' => b = is_wh (lv_kind l i) /\ moved none l l') l;
  lv_opendir : forall ctx (l : L) i, dir_at l i ->
    match fs_op (op_opendir ctx i O_RDONLY) l with
    | (l', Ok (h, _)) => lv_handle l' i (default 0 h) /\ moved none l l'
    | (l', Err e) => raw_os_error e = Some ENOSYS /\ lv_handle l' i 0 /\ moved none l l'
    | (_, Panic) => False
    end;
  lv_releasedir : forall ctx (l : L) i h, lv_handle l i h ->
    match fs_op (op_releasedir ctx i O_RDONLY h) l with
    | (l', Ok _) => moved none l l'
    | (l', Err e) => raw_os_error e = Some ENOSYS /\ moved none l l'
    | (_, Panic) => False
    end;
  lv_readdir : forall X ctx (l : L) i h size offset (add : add_entry_t X) x,
    dir_at l i -> lv_handle l i h -> 1024 <= size ->
    (offset = 0 \/ offset ∈ d_offset <$> lv_list l i 0) ->
    (forall d y, exists n, (add d y).2 = Ok n /\ n <> 0) ->
    exists k l', fs_readdir ctx i h size offset add (l, x) =
        ((l', foldl (fun y d => (add d y).1) x (take k (lv_list l i offset))), Ok tt) /\
      (k = 0%nat -> lv_list l i offset = []) /\ moved none l l' /\ lv_handle l' i h;
  lv_cookie : forall (l : L) i before d after, dir_at l i ->
    lv_list l i 0 = before ++ d :: after -> lv_list l i d.(d_offset) = after;
  lv_size : forall (l : L) i, dir_at l i -> zlen (lv_list l i 0) < 2 ^ 63;
  lv_nodup : forall (l : L) i, dir_at l i -> NoDup (d_name <$> lv_list l i 0);
  lv_names : forall (l : L) i d, dir_at l i -> d ∈ lv_list l i 0 ->
    d.(d_name) = CURRENT_DIR \/ d.(d_name) = PARENT_DIR \/ good_name d.(d_name);
  lv_listed : forall (l : L) i name, dir_at l i -> dot_name name = false ->
    name ∈ d_name <$> lv_list l i 0 <-> is_Some (lv_child l i name);
}.

(** ** The union *)

(** A file in one of the layers. *)
Record Found : Set := MkFound {
  fd_layer : nat;
  fd_upper : bool;
  fd_inode : Z;
  fd_kind : Kind;
}.

(** The directories that are read together: up to the first file that is none,
    or with the first opaque one. *)
Fixpoint visible (fs : list Found) : list Found :=
  match fs with
  | [] => []
  | f :: fs' =>
    match f.(fd_kind) with
    | Dir true => [f]
    | Dir false => f :: visible fs'
    | _ => []
    end
  end.

(** The files of a name, from the upper layer down: the first one counts, and a
    directory is merged with those below it. *)
Definition merged (fs : list Found) : list Found :=
  match fs with
  | [] => []
  | f :: fs' => f :: match f.(fd_kind) with Dir false => visible fs' | _ => [] end
  end.

(** What a client sees of them. *)
Definition seen (fs : list Found) : option Found :=
  match fs with
  | f :: _ => if is_wh f.(fd_kind) then None else Some f
  | [] => None
  end.

Section union.
Context {L : Type} `{VIEWED : !Viewed L}.

Definition find_in (layers : list L) (name : bytes) (f : Found) : option Found :=
  if dot_name name then None
  else
    l ← layers !! f.(fd_layer);
    c ← lv_child l f.(fd_inode) name;
    Some (MkFound f.(fd_layer) f.(fd_upper) c (lv_kind l c)).

(** The files of a name in a merged directory. *)
Definition entry (layers : list L) (fs : list Found) (name : bytes) : list Found :=
  merged (omap (find_in layers name) (visible fs)).

(** The files of a path below a merged directory. *)
Definition resolve (layers : list L) (fs : list Found) (path : list bytes) : list Found :=
  foldl (entry layers) fs path.
End union.

(** ** Worlds and real inodes *)

(** A real inode describes a file of the specification. *)
Record describes (ri : RealInode) (f : Found) : Prop := {
  ds_layer : ri.(ri_layer) = f.(fd_layer);
  ds_upper : ri.(ri_in_upper_layer) = f.(fd_upper);
  ds_inode : ri.(ri_inode) = f.(fd_inode);
  ds_whiteout : ri.(ri_whiteout) = is_wh f.(fd_kind);
  ds_opaque : ri.(ri_opaque) = is_opaque f.(fd_kind);
  ds_stat : exists st, ri.(ri_stat) = Some st /\ st_is_dir st = kind_dir f.(fd_kind);
}.

(** An overlay inode as a scan makes it, for a file under [path]. *)
Record scanned (path : bytes) (fs : list Found) (n : OverlayInode) : Prop := {
  sc_childrens : n.(on_childrens) = ∅;
  sc_path : n.(on_path) = path ++ SLASH :: n.(on_name);
  sc_whiteout : n.(on_whiteout) = from_option (fun f => is_wh f.(fd_kind)) false (head fs);
  sc_loaded : n.(on_loaded) = false;
  sc_files : Forall2 describes n.(on_real_inodes) fs;
}.

(** The references a list of real inodes holds on an inode of a layer. *)
Fixpoint held (rs : list RealInode) (j : nat) (i : Z) : Z :=
  match rs with
  | [] => 0
  | ri :: rs' => (if bool_decide (ri.(ri_layer) = j /\ ri.(ri_inode) = i) then 1 else 0) + held rs' j i
  end.

Section worlds.
Context {L : Type} `{LAYER : Layer L} `{VIEWED : !Viewed L}.

(** The references layer [j] counts for inode [i]. *)
Definition refs (w : World L) (j : nat) (i : Z) : Z := from_option (fun l => lv_refs l i) 0 (w.(w_layers) !! j).

(** Nothing changes but the layers, and in them only references: [d] more. *)
Record moves (d : nat -> Z -> Z) (w w' : World L) : Prop := {
  ms_fs : w'.(w_fs) = w.(w_fs);
  ms_nodes : w'.(w_nodes) = w.(w_nodes);
  ms_next : w'.(w_next) = w.(w_next);
  ms_length : length w'.(w_layers) = length w.(w_layers);
  ms_layers : forall j l l', w.(w_layers) !! j = Some l -> w'.(w_layers) !! j = Some l' -> moved (d j) l l';
  ms_out : forall j i, w.(w_layers) !! j = None -> d j i = 0;
}.

(** The file is in its layer, and the overlay file system may use it. *)
Definition backed (w : World L) (f : Found) : Prop :=
  exists l, w.(w_layers) !! f.(fd_layer) = Some l /\ known l f.(fd_inode) /\
    lv_kind l f.(fd_inode) = f.(fd_kind) /\ f.(fd_inode) <> 0.
End worlds.
