(* ===== verification/ToyLayerOk.v ===== *)
(** * The layer in memory keeps the laws

    [ToyLayer] satisfies [LayerOk], and calls that read leave its nodes alone; it
    satisfies [LayerView], and its methods return what is in the tree. *)

From stdpp Require Import list gmap.
From S2P Require Import Prelude Std Abi AbiStruct FsTypes FileSystem ProgLogic Host Layer OverlayStore Overlay.
From S2P Require Import OverlayOps ToyLayer OverlayLaws.

(** The entries of a directory after an offset, and the size of a file. *)
Definition toy_left (l : ToyLayer) (inode offset : Z) : Z :=
  match l.(tl_nodes) !! inode with
  | Some n =>
    let count := zlen (map_to_list n.(tn_children)) in
    if TOY_MAX <=? count then 0 else Z.max 0 (count - Z.max 0 offset)
  | None => 0
  end.

Definition toy_size (l : ToyLayer) (inode : Z) : Z :=
  match l.(tl_nodes) !! inode with
  | Some n => if TOY_MAX <=? zlen n.(tn_data) then 0 else zlen n.(tn_data)
  | None => 0
  end.

Lemma toy_get_no_panic inode : no_panic (toy_get inode).
Proof. intros l. unfold toy_get. by destruct (_ !! _). Qed.

Lemma modify_no_panic {S E} (f : S -> S) : no_panic (modify f : prog S E unit).
Proof. by intros s. Qed.

Lemma gets_no_panic {S E A} (f : S -> A) : no_panic (gets f : prog S E A).
Proof. by intros s. Qed.

#[local] Hint Resolve toy_get_no_panic modify_no_panic gets_no_panic : fuse.

Ltac toy_auto := repeat first [progress auto with fuse | progress intros | apply no_panic_bind | case_match].

Lemma toy_op_no_panic (A : Set) (op : FsOp A) : no_panic (toy_op A op).
Proof.
  destruct op; cbn [toy_op default_op];
    unfold toy_lookup, toy_forget, toy_make, toy_remove, toy_enter, toy_give, toy_put; toy_auto.
  apply default_batch_forget_no_panic. intros. apply modify_no_panic.
Qed.

(** A scan calls the callback on entries after the offset only. *)
Lemma toy_scan_keeps {X} (add : add_entry_t X) (P : X -> Prop) count offset l index (s : ToyLayer * X) :
  index + zlen l = count + 1 ->
  (forall d y, offset < d.(d_offset) <= count -> 0 < d.(d_offset) -> P y -> P (add d y).1) ->
  0 < index -> P s.2 ->
  let r := toy_scan add index offset l s in r.1.1 = s.1 /\ P r.1.2.
Proof.
  intros Hi Hadd. revert index s Hi. induction l as [|[name c] l IH]; intros index s Hi Hpos Hs; [done|].
  cbn [toy_scan]. change (zlen ((name, c) :: l)) with (Z.of_nat (S (length l))) in Hi.
  destruct (Z.leb_spec index offset) as [Hle|Hgt]; [apply IH; [unfold zlen; lia|lia|done]|].
  unfold mbind, prog_mbind, prog_bind, on_snd.
  specialize (Hadd (MkDirEntry c index DT_UNKNOWN name) s.2). cbn in Hadd.
  destruct (add _ s.2) as [x [n|e|]]; cbn in *; [|split; [done|apply Hadd; [lia..|done]]..].
  destruct (n =? 0); [split; [done|apply Hadd; [lia..|done]]|].
  apply (IH (index + 1) (s.1, x)); [unfold zlen; lia|lia|apply Hadd; [lia..|done]].
Qed.

Lemma toy_scan_no_panic {X} (add : add_entry_t X) (P : X -> Prop) offset l index (s : ToyLayer * X) :
  (forall d, safe P (add d)) -> P s.2 -> P (toy_scan add index offset l s).1.2 /\ (toy_scan add index offset l s).2 <> Panic.
Proof.
  intros Hadd. revert index s. induction l as [|[name c] l IH]; intros index s Hs; [done|]. cbn [toy_scan].
  destruct (index <=? offset); [by apply IH|]. unfold mbind, prog_mbind, prog_bind, on_snd.
  destruct (Hadd (MkDirEntry c index DT_UNKNOWN name) s.2 Hs) as [Hx Hp].
  destruct (add _ s.2) as [x [n|e|]]; cbn in *; [|done..]. destruct (n =? 0); [done|]. by apply IH.
Qed.

#[global] Instance ToyLayer_filesystem_ok : FileSystemOk ToyLayer.
Proof.
  split; cbn.
  - apply toy_op_no_panic.
  - intros ctx inode handle available size offset lo flags l Hav. unfold toy_read.
    destruct (_ !! _) as [n|]; [destruct (TOY_MAX <=? zlen n.(tn_data))|]; [by split|..|by split]. split; [|done]. unfold zlen. rewrite length_take. lia.
  - intros. unfold toy_write, toy_put. toy_auto.
  - intros X ctx inode handle size offset add P HP f x Hx. unfold toy_readdir, mbind, prog_mbind, prog_bind, on_fst, toy_get.
    cbn. destruct (_ !! _) as [n|]; cbn; [|done]. destruct (TOY_MAX <=? _); [done|]. by apply toy_scan_no_panic.
  - intros X ctx inode handle size offset add P HP f x Hx. done.
  - by intros s.
Qed.

Lemma toy_scan_left {X} ctx inode handle size offset (add : add_entry_t X) (P : X -> Prop) (l : ToyLayer) x :
  (forall d y, toy_left l inode d.(d_offset) < toy_left l inode offset -> P y -> P (add d y).1) ->
  P x -> let r := toy_readdir ctx inode handle size offset add (l, x) in r.1.1 = l /\ P r.1.2.
Proof.
  unfold toy_left, toy_readdir, mbind, prog_mbind, prog_bind, on_fst, toy_get. cbn.
  destruct (l.(tl_nodes) !! inode) as [n|]; cbn; [|done]. intros Hadd Hx.
  destruct (TOY_MAX <=? zlen (map_to_list n.(tn_children))); [done|].
  apply (toy_scan_keeps add P (zlen (map_to_list n.(tn_children)))); [lia| |lia|done].
  intros d y Hd Hpos. apply Hadd. lia.
Qed.

#[global] Instance ToyLayer_ok : LayerOk ToyLayer.
Proof.
  destruct (default_no_panic (FS := ToyLayer_filesystem) toy_op_no_panic) as (H1 & H2 & H3 & H4 & H5).
  refine {| lo_left := toy_left; lo_size := toy_size |}; try done.
  - intros l inode offset. unfold toy_left, TOY_MAX. destruct (_ !! _) as [n|]; [|done].
    pose proof (zlen_nonneg (map_to_list n.(tn_children))). case_match; lia.
  - intros X ctx inode handle size offset add P l x Hadd Hx. by apply (toy_scan_left ctx inode handle size offset add P).
  - intros X ctx inode handle size offset add l x. f_equal.
    by apply (toy_scan_left ctx inode handle size offset add (fun _ => True)).
  - intros l inode. unfold toy_size, TOY_MAX. destruct (_ !! _) as [n|]; [|done].
    pose proof (zlen_nonneg n.(tn_data)). case_match; lia.
  - intros ctx inode handle available size offset lo flags l l' data n. cbn. unfold toy_read, toy_size.
    destruct (l.(tl_nodes) !! inode) as [m|] eqn:Hm; [|done]. case_match; [done|]. intros [= <- <- <-].
    split; [done|]. unfold zlen. rewrite length_take, length_drop. lia.
  - intros ctx inode handle size offset lo delayed flags ff l l' n. cbn. unfold toy_write, toy_get, mbind, prog_mbind, prog_bind.
    destruct (_ !! _); [|done]. cbn. rewrite take_nil. cbn. by intros [= _ <-].
  - intros ctx parent name l Hdot. cbn. unfold toy_remove, toy_get, mbind, prog_mbind, prog_bind.
    assert (plain_name name = false) as ->; [|by destruct (_ !! _)].
    unfold dot_name in Hdot. rewrite !orb_true_iff, !beq_spec in Hdot. by destruct Hdot as [[->| ->]| ->].
Qed.

(** The nodes of the layer are the same. *)
Definition same_nodes : relation ToyLayer := fun l l' => l'.(tl_nodes) = l.(tl_nodes).

#[global] Instance same_nodes_preorder : PreOrder same_nodes.
Proof. split; [done|]. unfold same_nodes. congruence. Qed.

Lemma toy_get_same inode : pres same_nodes (toy_get inode).
Proof. by intros l. Qed.

Lemma toy_reads_same (A : Set) (op : FsOp A) : reads op = true -> pres same_nodes (toy_op A op).
Proof.
  destruct op; try done; intros _; cbn [toy_op default_op]; unfold toy_lookup, toy_forget, toy_give;
    repeat first [ apply pres_bind; [typeclasses eauto|..] | progress intros | apply toy_get_same | case_match
                 | by apply pres_mret; typeclasses eauto | by apply pres_fail; typeclasses eauto
                 | by apply pres_modify ].
Qed.

#[global] Instance ToyLayer_reads_keep : ReadsKeep same_nodes.
Proof.
  pose proof (fun ctx inode => default_reads_keep (FS := ToyLayer_filesystem) same_nodes ctx inode toy_reads_same) as Hd.
  split; [typeclasses eauto|apply toy_reads_same| | |apply Hd..].
  - intros. cbn. unfold toy_read. destruct (_ !! _); [|done]. by case_match.
  - intros X ctx inode handle size offset add [l x]. unfold fst_rel, same_nodes. f_equal. cbn.
    by apply (toy_scan_left ctx inode handle size offset add (fun _ => True)).
Qed.

(** * The layer in memory as a tree of files

    What is in a [ToyLayer], and that its methods return it. *)

#[global] Instance good_name_decision name : Decision (good_name name).
Proof. unfold good_name. apply _. Defined.

(** Every child exists and has a usable name; directories are not too large. *)
Definition toy_wf (l : ToyLayer) : Prop :=
  is_Some (l.(tl_nodes) !! ROOT_ID) /\
  map_Forall (fun i n => i <> 0 /\ zlen (map_to_list n.(tn_children)) < TOY_MAX /\
    map_Forall (fun name c => good_name name /\ is_Some (l.(tl_nodes) !! c)) n.(tn_children)) l.(tl_nodes).

#[global] Instance toy_wf_decision l : Decision (toy_wf l).
Proof. unfold toy_wf. apply _. Defined.

Definition says_yes (v : option bytes) : bool :=
  match v with Some [b] => to_ascii_lowercase b =? 121 | _ => false end.

Definition toy_kind (n : ToyNode) : Kind :=
  if toy_is_dir n then
    Dir (says_yes (n.(tn_xattr) !! OPAQUE_XATTR) || says_yes (n.(tn_xattr) !! PRIVILEGED_OPAQUE_XATTR)
         || says_yes (n.(tn_xattr) !! UNPRIVILEGED_OPAQUE_XATTR))
  else if st_is_whiteout (toy_stat 0 n) then Whiteout
  else Plain.

Fixpoint toy_entries (index : Z) (l : list (bytes * Z)) : list DirEntry :=
  match l with
  | [] => []
  | (name, c) :: l' => MkDirEntry c index DT_UNKNOWN name :: toy_entries (index + 1) l'
  end.

#[global] Instance ToyLayer_viewed : Viewed ToyLayer := {|
  lv_ok := toy_wf;
  lv_refs l i := match l.(tl_nodes) !! i with Some _ => Z.of_N (default 0%N (l.(tl_refs) !! i)) | None => 0 end;
  lv_child l i name := n ← l.(tl_nodes) !! i; n.(tn_children) !! name;
  lv_kind l i := from_option toy_kind Plain (l.(tl_nodes) !! i);
  lv_stat l i := from_option (fun n => no_atime (toy_stat i n)) stat64_zeroed (l.(tl_nodes) !! i);
  lv_list l i offset :=
    match l.(tl_nodes) !! i with
    | Some n => drop (Z.to_nat offset) (toy_entries 1 (map_to_list n.(tn_children)))
    | None => []
    end;
  lv_handle _ _ _ := True;
|}.

(** ** Laws *)

Lemma same_nodes_moved l : moved none l l.
Proof. split; try done. intros i. unfold none. lia. Qed.

Lemma known_node l i : known l i -> exists n, l.(tl_nodes) !! i = Some n.
Proof.
  intros [[Hroot _] [->|Hr]]; [done|]. cbn in Hr. destruct (l.(tl_nodes) !! i) as [n|]; [by exists n|lia].
Qed.

Lemma toy_stat_of l i n : l.(tl_nodes) !! i = Some n -> stat_of l i (toy_stat i n).
Proof.
  intros Hn. split; [|cbn; by rewrite Hn]. cbn. rewrite Hn. cbn. unfold toy_kind. change (st_is_dir (toy_stat i n)) with (toy_is_dir n).
  destruct (toy_is_dir n); [done|]. by destruct (st_is_whiteout _).
Qed.

Lemma length_entries index l : length (toy_entries index l) = length l.
Proof. revert index. induction l as [|[name c] l IH]; intros index; cbn; auto. Qed.

Lemma entries_names index l : d_name <$> toy_entries index l = l.*1.
Proof. revert index. induction l as [|[name c] l IH]; intros index; cbn; [done|]. by rewrite IH. Qed.

Lemma entries_offset index l k d : toy_entries index l !! k = Some d -> d.(d_offset) = index + Z.of_nat k.
Proof.
  revert index k. induction l as [|[name c] l IH]; intros index k; [done|]. destruct k as [|k]; cbn.
  - intros [= <-]. cbn. lia.
  - intros Hk. rewrite (IH _ _ Hk). lia.
Qed.

Lemma toy_scan_all {X} (add : add_entry_t X) index offset l (s : ToyLayer) x :
  (forall d y, exists n, (add d y).2 = Ok n /\ n <> 0) ->
  toy_scan add index offset l (s, x) =
  ((s, foldl (fun y d => (add d y).1) x (drop (Z.to_nat (offset + 1 - index)) (toy_entries index l))), Ok tt).
Proof.
  intros Hadd. revert index x. induction l as [|[name c] l IH]; intros index x; cbn [toy_scan toy_entries].
  { by rewrite drop_nil. }
  destruct (Z.leb_spec index offset) as [Hle|Hgt].
  - rewrite IH. replace (Z.to_nat (offset + 1 - index)) with (S (Z.to_nat (offset + 1 - (index + 1)))) by lia. done.
  - unfold mbind, prog_mbind, prog_bind, on_snd. replace (Z.to_nat (offset + 1 - index)) with 0%nat by lia. cbn.
    destruct (Hadd (MkDirEntry c index DT_UNKNOWN name) x) as (n & Hn & H0). destruct (add _ x) as [y o]. cbn in *. subst o.
    destruct (Z.eqb_spec n 0); [done|]. rewrite IH. by replace (Z.to_nat (offset + 1 - (index + 1))) with 0%nat by lia.
Qed.

Lemma check_attr_ends ctx i name size l n :
  cstr_ok name = true -> l.(tl_nodes) !! i = Some n ->
  check_attr ctx i name size l = (l, Ok (says_yes (n.(tn_xattr) !! name))).
Proof.
  intros Hc Hn. unfold check_attr, CString_new. rewrite Hc. unfold catch, mbind, prog_mbind, prog_bind. cbn.
  unfold toy_get, mbind, prog_mbind, prog_bind. rewrite Hn. cbn.
  by destruct (n.(tn_xattr) !! name) as [[|b [|]]|].
Qed.

(** Lookup counts change, nodes do not. *)
Lemma recount_moved (d : Z -> Z) l refs :
  (forall i n, l.(tl_nodes) !! i = Some n ->
    Z.of_N (default 0%N (refs !! i)) = Z.of_N (default 0%N (l.(tl_refs) !! i)) + d i) ->
  (forall i, l.(tl_nodes) !! i = None -> d i = 0) ->
  moved d l (MkToyLayer l.(tl_nodes) l.(tl_next) refs).
Proof.
  intros Hsome Hnone. split; try done. intros i. cbn. destruct (l.(tl_nodes) !! i) as [n|] eqn:Hn; [by eapply Hsome|].
  by rewrite Hnone.
Qed.

Lemma toy_lookup_view ctx (l : ToyLayer) i name : dir_at l i ->
  match fs_op (op_lookup ctx i name) l, lv_child l i name with
  | (l', Ok e), Some c => e.(en_inode) = c /\ c <> 0 /\ stat_of l c e.(en_attr) /\ moved (one c) l l'
  | (l', Ok e), None => e.(en_inode) = 0 /\ moved none l l'
  | (l', Err e), None => raw_os_error e = Some ENOENT /\ moved none l l'
  | _, _ => False
  end.
Proof.
  intros [Hk _]. destruct (known_node _ _ Hk) as [n Hn]. destruct Hk as [[_ Hwf] _]. cbn.
  unfold toy_lookup, toy_give, toy_get, modify, mbind, prog_mbind, prog_bind. rewrite Hn. cbn.
  destruct (n.(tn_children) !! name) as [c|] eqn:Hc; cbn; [|split; [done|apply same_nodes_moved]].
  destruct (Hwf _ _ Hn) as (_ & _ & Hch). destruct (Hch _ _ Hc) as [_ [m Hm]]. cbn in Hm. rewrite Hm. cbn.
  destruct (Hwf _ _ Hm) as [H0 _]. split_and!; [done..|by apply toy_stat_of|]. apply recount_moved; unfold one.
  - intros k x _. destruct (Z.eqb_spec k c) as [->|Hne]; [rewrite lookup_insert_eq; cbn; lia|rewrite lookup_insert_ne by done; lia].
  - intros k Hk. destruct (Z.eqb_spec k c) as [->|]; [congruence|done].
Qed.

Lemma toy_forget_view ctx (l : ToyLayer) i : 0 < lv_refs l i ->
  ends (fs_op (op_forget ctx i 1)) (fun _ l' => moved (fun k => - one i k) l l') l.
Proof.
  cbn. destruct (l.(tl_nodes) !! i) as [n|] eqn:Hn; [|lia]. intros Hr. apply recount_moved; unfold one.
  - intros k x _. destruct (Z.eqb_spec k i) as [->|Hne]; [rewrite lookup_insert_eq; cbn; lia|rewrite lookup_insert_ne by done; lia].
  - intros k Hk. destruct (Z.eqb_spec k i) as [->|]; [congruence|done].
Qed.

Lemma toy_is_opaque_view ctx (l : ToyLayer) i o : known l i -> lv_kind l i = Dir o ->
  ends (layer_is_opaque ctx i) (fun b l' => b = o /\ moved none l l') l.
Proof.
  intros Hk Ho. destruct (known_node _ _ Hk) as [n Hn]. cbn in Ho. rewrite Hn in Ho. cbn in Ho.
  unfold toy_kind in Ho. destruct (toy_is_dir n) eqn:Hd; [|by destruct (st_is_whiteout _)]. injection Ho as <-.
  unfold ends. cbn [layer_is_opaque ToyLayer_layer default_layer]. unfold default_is_opaque, mbind, prog_mbind, prog_bind.
  cbn [fs_op ToyLayer_filesystem toy_op]. unfold toy_get, mbind, prog_mbind, prog_bind. rewrite Hn. cbn [ok_or mret prog_ret fst].
  change (st_is_dir (toy_stat i n)) with (toy_is_dir n). rewrite Hd. cbn [negb]. pose proof (same_nodes_moved l).
  rewrite (check_attr_ends _ _ OPAQUE_XATTR _ _ n) by done. destruct (says_yes (n.(tn_xattr) !! OPAQUE_XATTR)); [done|].
  cbv beta iota. rewrite (check_attr_ends _ _ PRIVILEGED_OPAQUE_XATTR _ _ n) by done.
  destruct (says_yes (n.(tn_xattr) !! PRIVILEGED_OPAQUE_XATTR)); [done|].
  cbv beta iota. by rewrite (check_attr_ends _ _ UNPRIVILEGED_OPAQUE_XATTR _ _ n).
Qed.

Lemma toy_is_whiteout_view ctx (l : ToyLayer) i : known l i -> kind_dir (lv_kind l i) = false ->
  ends (layer_is_whiteout ctx i) (fun b l' => b = is_wh (lv_kind l i) /\ moved none l l') l.
Proof.
  intros Hk Hd. destruct (known_node _ _ Hk) as [n Hn]. cbn in *. rewrite Hn in *. cbn in *.
  unfold default_is_whiteout, ends, mbind, prog_mbind, prog_bind. cbn.
  unfold toy_get, mbind, prog_mbind, prog_bind. rewrite Hn. cbn. split; [|apply same_nodes_moved].
  unfold toy_kind in *. destruct (toy_is_dir n); [done|]. change (st_is_whiteout (toy_stat i n)) with (st_is_whiteout (toy_stat 0 n)).
  by destruct (st_is_whiteout _).
Qed.

Lemma toy_readdir_view X ctx (l : ToyLayer) i h size offset (add : add_entry_t X) x :
  dir_at l i -> (offset = 0 \/ offset ∈ d_offset <$> lv_list l i 0) ->
  (forall d y, exists n, (add d y).2 = Ok n /\ n <> 0) ->
  exists k l', fs_readdir ctx i h size offset add (l, x) =
      ((l', foldl (fun y d => (add d y).1) x (take k (lv_list l i offset))), Ok tt) /\
    (k = 0%nat -> lv_list l i offset = []) /\ moved none l l' /\ lv_handle l' i h.
Proof.
  intros [Hk _] Hoff Hadd. destruct (known_node _ _ Hk) as [n Hn]. destruct Hk as [[_ Hwf] _]. destruct (Hwf _ _ Hn) as (_ & Hmax & _).
  cbn. rewrite Hn. set (entries := toy_entries 1 (map_to_list n.(tn_children))).
  exists (length (drop (Z.to_nat offset) entries)), l. split_and!; [| |apply same_nodes_moved|done].
  - unfold toy_readdir, on_fst, toy_get, mbind, prog_mbind, prog_bind. cbn. rewrite Hn. cbn.
    destruct (Z.leb_spec TOY_MAX (zlen (map_to_list n.(tn_children)))); [lia|]. rewrite toy_scan_all by done.
    rewrite firstn_all. by replace (offset + 1 - 1) with offset by lia.
  - intros Hz. by apply nil_length_inv in Hz.
Qed.

#[global] Instance ToyLayer_view : LayerView ToyLayer.
Proof.
  assert (forall (l : ToyLayer) i, dir_at l i -> exists n, l.(tl_nodes) !! i = Some n /\ zlen (map_to_list n.(tn_children)) < TOY_MAX /\
    map_Forall (fun name c => good_name name /\ is_Some (l.(tl_nodes) !! c)) n.(tn_children)) as Hdir.
  { intros l i [Hk _]. destruct (known_node _ _ Hk) as [n Hn]. destruct Hk as [[_ Hwf] _]. exists n. split; [done|]. apply (Hwf i n Hn). }
  split.
  - intros l i. cbn. destruct (_ !! _); lia.
  - intros. by apply toy_lookup_view.
  - apply toy_forget_view.
  - intros ctx l i Hk. destruct (known_node _ _ Hk) as [n Hn]. unfold ends. cbn.
    unfold toy_get, mbind, prog_mbind, prog_bind. rewrite Hn. cbn. split; [by apply toy_stat_of|apply same_nodes_moved].
  - apply toy_is_opaque_view.
  - apply toy_is_whiteout_view.
  - intros ctx l i Hd. destruct (Hdir l i Hd) as (n & Hn & _). cbn. unfold toy_get, mbind, prog_mbind, prog_bind. rewrite Hn. cbn.
    split; [done|apply same_nodes_moved].
  - intros. cbn. apply same_nodes_moved.
  - intros. by apply toy_readdir_view.
  - intros l i before d after Hd. destruct (Hdir l i Hd) as (n & Hn & _). cbn. rewrite Hn. intros E.
    rewrite (entries_offset 1 (map_to_list n.(tn_children)) (length before) d).
    + rewrite drop_0 in E. rewrite E. replace (Z.to_nat (1 + Z.of_nat (length before))) with (length (before ++ [d])) by (rewrite length_app; cbn; lia).
      change (before ++ d :: after) with (before ++ [d] ++ after). rewrite app_assoc. apply drop_app_length.
    + rewrite drop_0 in E. rewrite E. by rewrite lookup_app_r, Nat.sub_diag.
  - intros l i Hd. destruct (Hdir l i Hd) as (n & Hn & Hmax & _). cbn. rewrite Hn. unfold zlen in *. rewrite length_drop, length_entries.
    unfold TOY_MAX in Hmax. lia.
  - intros l i Hd. destruct (Hdir l i Hd) as (n & Hn & _). cbn. rewrite Hn, drop_0, entries_names. apply NoDup_fst_map_to_list.
  - intros l i d Hd. destruct (Hdir l i Hd) as (n & Hn & _ & Hch). cbn. rewrite Hn, drop_0. intros Hin. right. right.
    apply (list_elem_of_fmap_2 d_name) in Hin. rewrite entries_names in Hin.
    apply list_elem_of_fmap in Hin as ([name c] & -> & Hin%elem_of_map_to_list). by apply (Hch name c).
  - intros l i name Hd _. destruct (Hdir l i Hd) as (n & Hn & _). cbn. rewrite Hn, drop_0, entries_names. cbn. split.
    + intros ([name' c] & -> & Hin%elem_of_map_to_list)%list_elem_of_fmap. by exists c.
    + intros [c Hc]. apply list_elem_of_fmap. exists (name, c). split; [done|]. by apply elem_of_map_to_list.
Qed.

(** ** All paths *)

(** The paths of a set and the names in the directories of these. *)
Definition closed_paths (layers : list ToyLayer) (roots : list Found) (paths : gset (list bytes)) : Prop :=
  [] ∈ paths /\
  set_Forall (fun p => Forall (fun f => Forall (fun d => p ++ [d.(d_name)] ∈ paths)
    (from_option (fun l => lv_list l f.(fd_inode) 0) [] (layers !! f.(fd_layer)))) (visible (resolve layers roots p))) paths.

#[global] Instance closed_paths_decision layers roots paths : Decision (closed_paths layers roots paths).
Proof. unfold closed_paths. apply _. Defined.

Lemma closed_paths_all layers roots paths p :
  closed_paths layers roots paths -> resolve layers roots p <> [] -> p ∈ paths.
Proof.
  intros [Hnil Hall]. induction p as [|name p IH] using rev_ind; [done|]. unfold resolve. rewrite foldl_app. cbn.
  change (foldl (entry layers) roots p) with (resolve layers roots p). intros Hne.
  assert (resolve layers roots p <> []) as Hp by (intros E; by rewrite E in Hne). specialize (Hall p (IH Hp)). cbn in Hall.
  unfold entry in Hne. clear IH Hp. induction Hall as [|f fs Hf Hfs IH]; [done|]. cbn in Hne.
  destruct (find_in layers name f) as [g|] eqn:Hg; [|by apply IH]. clear IH. unfold find_in in Hg.
  destruct (dot_name name); [done|]. destruct (layers !! f.(fd_layer)) as [l|]; [|done]. cbn in Hf, Hg.
  destruct (l.(tl_nodes) !! f.(fd_inode)) as [n|]; [|done]. cbn in Hg. destruct (n.(tn_children) !! name) as [c|] eqn:Hc; [|done].
  assert (name ∈ d_name <$> toy_entries 1 (map_to_list n.(tn_children))) as (d & -> & Hd)%list_elem_of_fmap.
  { rewrite entries_names. apply list_elem_of_fmap. exists (name, c). split; [done|]. by apply elem_of_map_to_list. }
  rewrite drop_0, Forall_forall in Hf. by apply Hf.
Qed.
