(* ===== verification/OverlayLogic.v ===== *)
(** * An invariant of the overlay file system

    [inv]: whatever the tables, the handles and the directories refer to is in
    the heap; a node has at least one real inode, and real inodes and handles
    lie in the layer they say they are in; parents come before their children;
    the root stays in its place.  [le]: how the world grows within a request.
    [frozen] is its part about the layers: lower layers move along [R] only. *)

From stdpp Require Import list gmap.
From S2P Require Import Prelude Std Abi AbiStruct FsTypes FileSystem ProgLogic Vfs Host Layer OverlayStore.
From S2P Require Import Overlay OverlayOps OverlaySync OverlayLaws.

Create HintDb wp discriminated.
#[export] Hint Constants Opaque : wp.
#[export] Hint Variables Opaque : wp.

Lemma Forall_values {K A} `{Countable K} (P : A -> Prop) (m : gmap K A) :
  (forall k v, m !! k = Some v -> P v) -> Forall P (values m).
Proof.
  intros Hm. apply Forall_fmap, Forall_forall. intros [k v] Hkv%elem_of_map_to_list. by apply (Hm k).
Qed.

Lemma Forall_values_lookup {K A} `{Countable K} (P : A -> Prop) (m : gmap K A) k v :
  Forall P (values m) -> m !! k = Some v -> P v.
Proof.
  intros Hm Hk. unfold values in Hm. rewrite Forall_fmap, Forall_forall in Hm.
  by apply (Hm (k, v)), elem_of_map_to_list.
Qed.

Lemma Forall_values_insert {K A} `{Countable K} (P : A -> Prop) (m : gmap K A) k v :
  Forall P (values m) -> P v -> Forall P (values (<[k := v]> m)).
Proof.
  intros Hm Hv. apply Forall_values. intros j u [[_ <-]|[_ Hu]]%lookup_insert_Some; [done|].
  by eapply Forall_values_lookup.
Qed.

(** A handle that leads to a file of the upper layer, if to a file at all. *)
Definition upper_handle (d : OvHandleData) : Prop := forall rh, d.(oh_real_handle) = Some rh -> rh.(rh_in_upper_layer) = true.

(** The handles a request may add: those that lead to the upper layer at least. *)
Class HandleRule : Type := {
  new_handle : Z -> OvHandleData -> Prop;
  new_handle_upper : forall h d, upper_handle d -> new_handle h d;
}.

Definition upper_handles : HandleRule := {| new_handle _ := upper_handle; new_handle_upper _ _ H := H |}.
Definition any_handle : HandleRule := {| new_handle _ _ := True; new_handle_upper _ _ _ := Logic.I |}.

(** Handles of the upper layer, and one more. *)
Definition upper_handles_but (k : Z) : HandleRule :=
  {| new_handle h d := h = k \/ upper_handle d; new_handle_upper _ _ H := or_intror H |}.

Section logic.
Context {L : Type} `{FS : FileSystem L} `{LAYER : !Layer L} (R : relation L) `{RK : !ReadsKeep R} `{LO : !LayerOk L} {HRULE : HandleRule}.

Abbreviation wprog A := (prog (World L) io_error A).
Implicit Types (w : World L) (a c p : nat) (n : OverlayInode) (ri : RealInode).

(** ** The invariant *)

Definition upper_is (u : nat) w : Prop := w.(w_fs).(ov_upper_layer) = Some u.

(** The layer of something that says whether it is in the upper one. *)
Definition placed (in_upper : bool) (layer : nat) w : Prop :=
  if in_upper then upper_is layer w else layer ∈ w.(w_fs).(ov_lower_layers).

Definition rok ri w : Prop := placed ri.(ri_in_upper_layer) ri.(ri_layer) w.
Definition roks (l : list RealInode) w : Prop := Forall (fun ri => rok ri w) l.
Definition rhok (rh : RealHandle) w : Prop := placed rh.(rh_in_upper_layer) rh.(rh_layer) w.

Definition live a w : Prop := is_Some (w.(w_nodes) !! a).

(** A node in the upper layer, and one that is not the root. *)
Definition upper_node a w : Prop := exists n, w.(w_nodes) !! a = Some n /\ in_upper_layer n = true.
Definition no_root a w : Prop := exists n, w.(w_nodes) !! a = Some n /\ n.(on_inode) <> ROOT_ID.

Definition kids (l : list nat) w : Prop := Forall (fun c => no_root c w) l.

Record node_ok w a n : Prop := {
  no_next : (a < w.(w_next))%nat;
  no_real : n.(on_real_inodes) <> [];
  no_rok : roks n.(on_real_inodes) w;
  no_parent : forall p, n.(on_parent) = Some p -> (p < a)%nat;
  no_child : forall name c, n.(on_childrens) !! name = Some c -> (a < c)%nat /\ no_root c w;
  no_top : n.(on_inode) = ROOT_ID -> is_Some w.(w_fs).(ov_upper_layer) -> in_upper_layer n = true;
}.

(** The tables of inodes. *)
Record store_ok (s : OvInodeStore) w : Prop := {
  so_inodes : forall i a, s.(is_inodes) !! i = Some a -> live a w;
  so_deleted : forall i a, s.(is_deleted) !! i = Some a -> live a w;
  so_root : forall a, live a w -> is_Some (s.(is_inodes) !! ROOT_ID);
  so_paths : forall path, s.(is_path_mapping) !! path = Some ROOT_ID -> path = [];
  so_next : 1 <= s.(is_next_inode) <= VFS_MAX_INO + 1;
}.

Definition handles_ok (m : gmap Z OvHandleData) w : Prop := forall h d, m !! h = Some d ->
  live d.(oh_node) w /\ (forall rh, d.(oh_real_handle) = Some rh -> rhok rh w).

Record inv w : Prop := {
  inv_any : is_Some w.(w_fs).(ov_upper_layer) \/ w.(w_fs).(ov_lower_layers) <> [];
  inv_upper : forall u, upper_is u w ->
    (u < length w.(w_layers))%nat /\ u ∉ w.(w_fs).(ov_lower_layers);
  inv_lowers : forall i, i ∈ w.(w_fs).(ov_lower_layers) -> (i < length w.(w_layers))%nat;
  inv_nodes : forall a n, w.(w_nodes) !! a = Some n -> node_ok w a n;
  inv_store : store_ok w.(w_fs).(ov_inodes) w;
  inv_handles : handles_ok w.(w_fs).(ov_handles) w;
}.

Lemma roks_nil w : roks [] w.
Proof. apply Forall_nil_2. Qed.

Lemma roks_empty w : roks (values (∅ : gmap bytes RealInode)) w.
Proof. unfold values. rewrite map_to_list_empty. apply roks_nil. Qed.

Lemma roks_cons ri l w : rok ri w -> roks l w -> roks (ri :: l) w.
Proof. intros. by apply Forall_cons. Qed.

Lemma roks_app l k w : roks l w -> roks k w -> roks (l ++ k) w.
Proof. intros. by apply Forall_app. Qed.

(** ** How the world grows *)

Record frozen w w' : Prop := {
  fz_config : w'.(w_fs).(ov_config) = w.(w_fs).(ov_config);
  fz_upper : w'.(w_fs).(ov_upper_layer) = w.(w_fs).(ov_upper_layer);
  fz_lowers : w'.(w_fs).(ov_lower_layers) = w.(w_fs).(ov_lower_layers);
  fz_length : length w'.(w_layers) = length w.(w_layers);
  fz_layers : forall i l l', i ∈ w.(w_fs).(ov_lower_layers) ->
    w.(w_layers) !! i = Some l -> w'.(w_layers) !! i = Some l' -> R l l';
  fz_handles : forall h d, w'.(w_fs).(ov_handles) !! h = Some d -> w.(w_fs).(ov_handles) !! h = Some d \/ new_handle h d;
}.

Definition node_le n n' : Prop :=
  n'.(on_inode) = n.(on_inode) /\ n'.(on_path) = n.(on_path) /\ n'.(on_name) = n.(on_name) /\
  n'.(on_parent) = n.(on_parent) /\ (in_upper_layer n = true -> in_upper_layer n' = true).

Definition nodes_le (m m' : gmap nat OverlayInode) : Prop :=
  forall a n, m !! a = Some n -> exists n', m' !! a = Some n' /\ node_le n n'.

Record le w w' : Prop := {
  le_frozen : frozen w w';
  le_next : (w.(w_next) <= w'.(w_next))%nat;
  le_nodes : nodes_le w.(w_nodes) w'.(w_nodes);
}.

Lemma node_le_refl n : node_le n n.
Proof. by split_and!. Qed.

Lemma nodes_le_refl m : nodes_le m m.
Proof. intros a n Hn. exists n. split; [done|apply node_le_refl]. Qed.

Lemma frozen_layers w ls :
  length ls = length w.(w_layers) ->
  (forall i l l', i ∈ w.(w_fs).(ov_lower_layers) ->
    w.(w_layers) !! i = Some l -> ls !! i = Some l' -> R l l') ->
  frozen w (set_layers w ls).
Proof. split; auto. Qed.

#[global] Instance frozen_preorder : PreOrder frozen.
Proof.
  split.
  - intros w. split; auto. intros i l l' _ -> [= ->]. done.
  - intros w1 w2 w3 [H1 H2 H3 H4 H5 H6] [K1 K2 K3 K4 K5 K6]. split; try congruence.
    + intros i l l3 Hi Hl Hl3.
      destruct (lookup_lt_is_Some_2 w2.(w_layers) i) as [l2 Hl2].
      { rewrite H4. by eapply lookup_lt_Some. }
      transitivity l2; [by eapply H5|]. eapply K5; [by rewrite H3|done..].
    + intros h d [Hd|Hd]%K6; [by apply H6|by right].
Qed.

#[global] Instance le_preorder : PreOrder le.
Proof.
  split.
  - intros w. split; [done|done|apply nodes_le_refl].
  - intros w1 w2 w3 [H1 H2 H3] [K1 K2 K3]. split; [by etrans|lia|].
    intros a n Hn. destruct (H3 a n Hn) as (n2 & Hn2 & ? & ? & ? & ? & ?).
    destruct (K3 a n2 Hn2) as (n3 & Hn3 & ? & ? & ? & ? & ?). exists n3. split; [done|].
    split_and!; try congruence. auto.
Qed.

Lemma frozen_same w w' :
  w'.(w_fs).(ov_config) = w.(w_fs).(ov_config) ->
  w'.(w_fs).(ov_upper_layer) = w.(w_fs).(ov_upper_layer) ->
  w'.(w_fs).(ov_lower_layers) = w.(w_fs).(ov_lower_layers) ->
  w'.(w_layers) = w.(w_layers) ->
  (forall h d, w'.(w_fs).(ov_handles) !! h = Some d -> w.(w_fs).(ov_handles) !! h = Some d \/ new_handle h d) -> frozen w w'.
Proof. intros E1 E2 E3 E4 E5. split; try done; rewrite E4; [done|]. intros i l l' _ -> [= ->]. reflexivity. Qed.

(** ** Facts that stay true *)

Class Stable (P : World L -> Prop) : Prop := stable : forall w w', le w w' -> P w -> P w'.

Lemma stable_at (P : World L -> Prop) `{!Stable P} w w' : le w w' -> P w -> P w'.
Proof. apply stable. Qed.

#[global] Instance upper_is_stable u : Stable (upper_is u).
Proof. intros w w' [[? E ? ? ? ?] _ _] H. unfold upper_is in *. congruence. Qed.

#[global] Instance placed_stable b i : Stable (placed b i).
Proof.
  intros w w' Hle. destruct b; cbn; [by apply upper_is_stable|].
  destruct Hle as [[? ? E ? ? ?] _ _]. by rewrite E.
Qed.

#[global] Instance rok_stable ri : Stable (rok ri).
Proof. intros w w' Hle. by apply placed_stable. Qed.

#[global] Instance roks_stable l : Stable (roks l).
Proof. intros w w' Hle Hl. eapply Forall_impl; [exact Hl|]. intros ri. by apply rok_stable. Qed.

#[global] Instance rhok_stable rh : Stable (rhok rh).
Proof. intros w w' Hle. by apply placed_stable. Qed.

#[global] Instance live_stable a : Stable (live a).
Proof. intros w w' Hle [n Hn]. destruct (le_nodes _ _ Hle a n Hn) as (n' & Hn' & _). by exists n'. Qed.

#[global] Instance upper_node_stable a : Stable (upper_node a).
Proof.
  intros w w' Hle (n & Hn & Hu). destruct (le_nodes _ _ Hle a n Hn) as (n' & Hn' & ? & ? & ? & ? & ?).
  exists n'. auto.
Qed.

#[global] Instance no_root_stable a : Stable (no_root a).
Proof.
  intros w w' Hle (n & Hn & Hu). destruct (le_nodes _ _ Hle a n Hn) as (n' & Hn' & E & _).
  exists n'. by rewrite E.
Qed.

#[global] Instance kids_stable l : Stable (kids l).
Proof. intros w w' Hle Hl. eapply Forall_impl; [exact Hl|]. intros c. by apply no_root_stable. Qed.

Lemma upper_node_live a w : upper_node a w -> live a w.
Proof. intros (n & Hn & _). by exists n. Qed.

Lemma no_root_live a w : no_root a w -> live a w.
Proof. intros (n & Hn & _). by exists n. Qed.

Lemma node_ok_stable w w' a n : le w w' -> node_ok w a n -> node_ok w' a n.
Proof.
  intros Hle [H1 H2 H3 H4 H5 H6]. split; [|done| |done| |].
  - pose proof (le_next _ _ Hle). lia.
  - by apply (roks_stable _ w).
  - intros name c Hc. destruct (H5 name c Hc) as [? Hr]. split; [done|]. by apply (no_root_stable _ w).
  - destruct Hle as [[_ E _ _ _ _] _ _]. by rewrite E.
Qed.

Lemma placed_lt w b i : inv w -> placed b i w -> (i < length w.(w_layers))%nat.
Proof. intros HI. destruct b; [apply (inv_upper _ HI)|apply (inv_lowers _ HI)]. Qed.

(** ** Keeping the invariant *)

(** Changes to the layers alone. *)
Lemma inv_set_layers w ls : length ls = length w.(w_layers) -> inv w -> inv (set_layers w ls).
Proof.
  intros Hlen [? H1 H2 H3 [] H5]. split; cbn; try done; [by rewrite Hlen|by rewrite Hlen|].
  intros a n Hn. by destruct (H3 a n Hn).
Qed.

(** Changes to one node. *)
Lemma le_update w a n n' :
  w.(w_nodes) !! a = Some n -> node_le n n' -> le w (set_nodes w (<[a := n']> w.(w_nodes))).
Proof.
  intros Hn Hle. split; [apply frozen_same; auto|done|].
  intros b m Hm. cbn. destruct (decide (b = a)) as [->|Hne].
  - rewrite lookup_insert_eq. exists n'. by simplify_eq.
  - rewrite lookup_insert_ne by done. exists m. split; [done|apply node_le_refl].
Qed.

Lemma inv_update w a n n' :
  inv w -> w.(w_nodes) !! a = Some n -> node_le n n' -> node_ok w a n' ->
  inv (set_nodes w (<[a := n']> w.(w_nodes))).
Proof.
  intros HI Hn Hle Hok. pose proof (le_update w a n n' Hn Hle) as Hw.
  assert (Hl : forall b, live b w -> live b (set_nodes w (<[a := n']> w.(w_nodes)))).
  { intros b. by apply live_stable. }
  destruct HI as [? H1 H2 H3 [K1 K2 K3 K4 K5] H5]. split; cbn; try done.
  - intros b m Hm. cbn in Hm. apply (node_ok_stable w); [done|].
    destruct (decide (b = a)) as [->|Hne].
    + rewrite lookup_insert_eq in Hm. by simplify_eq.
    + rewrite lookup_insert_ne in Hm by done. auto.
  - split; cbn; [eauto..| |done|done]. intros b Hb. apply (K3 a). by exists n.
  - intros h d Hd. destruct (H5 h d Hd) as [Hd1 Hd2]. split; [by apply Hl|done].
Qed.

(** Changes to the fields of [OverlayFs] other than the ones fixed at the start. *)
Lemma inv_set_fs w fs :
  inv w ->
  fs.(ov_upper_layer) = w.(w_fs).(ov_upper_layer) -> fs.(ov_lower_layers) = w.(w_fs).(ov_lower_layers) ->
  store_ok fs.(ov_inodes) w -> handles_ok fs.(ov_handles) w -> inv (set_fs w fs).
Proof.
  intros [H0 H1 H2 H3 H4 H5] E1 E2 [] K2.
  assert (Hp : forall b i, placed b i w -> placed b i (set_fs w fs)).
  { intros b i. unfold placed, upper_is. cbn. by rewrite E1, E2. }
  split; cbn; try done.
  - by rewrite E1, E2.
  - unfold upper_is. cbn. rewrite E1, E2. apply H1.
  - by rewrite E2.
  - intros a n Hn. destruct (H3 a n Hn) as [? ? Hr ? ? ?]. split; cbn; rewrite ?E1; try done.
    eapply Forall_impl; [exact Hr|]. intros ri. apply Hp.
  - intros h d Hd. destruct (K2 h d Hd) as [? Hr]. split; [done|]. intros rh Hrh. by apply Hp, Hr.
Qed.

Lemma le_set_fs w fs :
  fs.(ov_config) = w.(w_fs).(ov_config) ->
  fs.(ov_upper_layer) = w.(w_fs).(ov_upper_layer) -> fs.(ov_lower_layers) = w.(w_fs).(ov_lower_layers) ->
  (forall h d, fs.(ov_handles) !! h = Some d -> w.(w_fs).(ov_handles) !! h = Some d \/ new_handle h d) ->
  le w (set_fs w fs).
Proof.
  intros E1 E2 E3 E4. split; [by apply frozen_same|done|apply nodes_le_refl].
Qed.

(** A handle that, if it is there, is one a request may add. *)
Definition may_add (h : Z) w : Prop := forall d, w.(w_fs).(ov_handles) !! h = Some d -> new_handle h d.

Lemma frozen_may_add h w w' : frozen w w' -> may_add h w -> may_add h w'.
Proof. intros Hf Hm d [Hd|Hd]%(fz_handles _ _ Hf); auto. Qed.

#[global] Instance may_add_stable h : Stable (may_add h).
Proof. intros w w' Hle. apply frozen_may_add, (le_frozen _ _ Hle). Qed.

Definition may_add_some (r : option Z) w : Prop := forall h, r = Some h -> may_add h w.

#[global] Instance may_add_some_stable r : Stable (may_add_some r).
Proof. intros w w' Hle Hr h ->. eapply may_add_stable; eauto. Qed.

(** ** Rules for the primitives *)

Abbreviation wpo m Q := (wp inv le m Q).

Lemma wp_get_fs w : inv w -> wpo get_fs (fun fs w' => w' = w /\ fs = w.(w_fs)) w.
Proof. intros HI. apply (wp_gets inv le w_fs w HI). Qed.

(** What is known of a node that was read. *)
Record node_facts a n w : Prop := {
  nf_node : w.(w_nodes) !! a = Some n;
  nf_real : n.(on_real_inodes) <> [];
  nf_roks : roks n.(on_real_inodes) w;
  nf_kids : kids (values n.(on_childrens)) w;
  nf_upper : in_upper_layer n = true -> upper_node a w;
  nf_parent : forall p, n.(on_parent) = Some p -> (p < a)%nat;
}.

Lemma nf_child a n w name c : node_facts a n w -> child n name = Some c -> no_root c w.
Proof.
  intros Hn Hc. eapply (Forall_values_lookup (fun c => no_root c w)); [|exact Hc]. by apply (nf_kids _ _ _ Hn).
Qed.

Lemma wp_get_node a w : inv w -> live a w ->
  wpo (get_node a) (fun n w' => w' = w /\ node_facts a n w) w.
Proof.
  intros HI [n Hn]. unfold wp, get_node. cbn. rewrite Hn. cbn. split_and!; [done..|].
  destruct (inv_nodes _ HI a n Hn) as [? ? ? ? Hc _]. split; [done|done|done| |by exists n|done].
  apply Forall_values. intros name c Hnc. by apply Hc in Hnc as [? ?].
Qed.

Lemma wp_upgrade o w : inv w ->
  wpo (upgrade o) (fun r w' => w' = w /\ match r with Some p => o = Some p /\ live p w | None => True end) w.
Proof.
  intros HI. unfold wp, upgrade. cbn. split_and!; [done|done|done|].
  destruct o as [p|]; cbn; [|done]. destruct (w.(w_nodes) !! p) eqn:Hp; cbn; [|done]. split; [done|by exists o].
Qed.

(** A layer that moved along [R]. *)
Lemma layer_le w i l l' : w.(w_layers) !! i = Some l -> R l l' -> le w (set_layers w (<[i := l']> w.(w_layers))).
Proof.
  intros Hl HR. split; [|done|apply nodes_le_refl]. apply frozen_layers; [apply length_insert|].
  intros j k k' Hj Hk Hk'. destruct (decide (j = i)) as [->|Hne].
  - rewrite list_lookup_insert_eq in Hk' by by eapply lookup_lt_Some. by simplify_eq.
  - rewrite list_lookup_insert_ne in Hk' by done. simplify_eq. reflexivity.
Qed.

(** A call on a layer: anything on the upper one, what keeps [R] on the others. *)
Lemma wp_on_layer {A} b i (m : prog L io_error A) w :
  inv w -> placed b i w -> no_panic m -> (b = false -> pres R m) -> wpo (on_layer i m) (fun _ _ => True) w.
Proof.
  intros HI Hi Hm Hpres. pose proof (placed_lt w b i HI Hi) as Hlt.
  destruct (lookup_lt_is_Some_2 _ _ Hlt) as [l Hl]. unfold wp, on_layer. rewrite Hl.
  specialize (Hm l). destruct (m l) as [l' o] eqn:Hml. cbn in *.
  split_and!; [by apply inv_set_layers; [apply length_insert|]| |by destruct o].
  split; [|done|apply nodes_le_refl]. apply frozen_layers; [apply length_insert|].
  intros j k k' Hj Hk Hk'. destruct (decide (j = i)) as [->|Hne].
  - rewrite list_lookup_insert_eq in Hk' by done. simplify_eq.
    destruct b; [by destruct (inv_upper _ HI i Hi)|].
    specialize (Hpres eq_refl l). by rewrite Hml in Hpres.
  - rewrite list_lookup_insert_ne in Hk' by done. simplify_eq. reflexivity.
Qed.

Lemma wp_read_op {A : Set} b i (op : FsOp A) w :
  inv w -> placed b i w -> reads op = true -> wpo (on_layer i (fs_op op)) (fun _ _ => True) w.
Proof.
  intros HI Hi Hop. eapply wp_on_layer; [done..|apply fs_op_no_panic|]. intros _. by apply rk_op.
Qed.

Lemma wp_ri_read {A : Set} ri (op : FsOp A) w :
  inv w -> rok ri w -> reads op = true -> wpo (on_layer ri.(ri_layer) (fs_op op)) (fun _ _ => True) w.
Proof. intros HI Hri. by eapply wp_read_op. Qed.

Lemma wp_rh_read {A : Set} rh (op : FsOp A) w :
  inv w -> rhok rh w -> reads op = true -> wpo (on_layer rh.(rh_layer) (fs_op op)) (fun _ _ => True) w.
Proof. intros HI Hri. by eapply wp_read_op. Qed.

Lemma wp_write_op {A} i (m : prog L io_error A) w :
  inv w -> upper_is i w -> no_panic m -> wpo (on_layer i m) (fun _ _ => True) w.
Proof. intros HI Hi Hm. by apply (wp_on_layer true). Qed.

(** What the call returned is known as well. *)
Lemma wp_on_layer_ran {A} i (m : prog L io_error A) w :
  inv w -> upper_is i w -> no_panic m -> wpo (on_layer i m) (fun r _ => exists l l', m l = (l', Ok r)) w.
Proof.
  intros HI Hi Hm. pose proof (wp_write_op i m w HI Hi Hm) as Hw. unfold wp, on_layer in *.
  destruct (w.(w_layers) !! i) as [l|]; [|done]. destruct (m l) as [l' [r|e|]] eqn:Hl; cbn in *; [|done..].
  destruct Hw as (? & ? & _). split_and!; [done..|]. by exists l, l'.
Qed.

(** Values the code looks at. *)
Lemma wp_lift_np {A} (o : io_result A) w :
  inv w -> o <> Panic -> wpo (lift o) (fun x w' => w' = w /\ o = Ok x) w.
Proof. intros HI Ho. apply wp_lift; [typeclasses eauto|done|]. by destruct o. Qed.

Lemma wp_first_layer a n w :
  inv w -> node_facts a n w ->
  wpo (lift (first_layer_inode n))
    (fun x w' => w' = w /\ x.1.2 = in_upper_layer n /\ placed x.1.2 x.1.1 w) w.
Proof.
  intros HI Hn. apply wp_lift; [typeclasses eauto|done|]. destruct Hn as [_ Hr Hroks _ _ _].
  unfold first_layer_inode, in_upper_layer. destruct n.(on_real_inodes) as [|ri l]; [done|].
  by apply Forall_cons in Hroks as [? _].
Qed.

(** A change to a node that is in the heap. *)
Lemma wp_update_node a f w :
  inv w -> live a w ->
  (forall n, w.(w_nodes) !! a = Some n -> node_ok w a n -> node_le n (f n) /\ node_ok w a (f n)) ->
  wpo (update_node a f) (fun _ w' => exists n, w.(w_nodes) !! a = Some n /\ w'.(w_nodes) !! a = Some (f n)) w.
Proof.
  intros HI [n Hn] Hf. destruct (Hf n Hn (inv_nodes _ HI a n Hn)) as [Hle Hok].
  assert (E : alter f a w.(w_nodes) = <[a := f n]> w.(w_nodes)).
  { apply map_eq. intros b. destruct (decide (b = a)) as [->|Hne].
    - rewrite lookup_alter_eq, Hn, lookup_insert_eq. done.
    - by rewrite lookup_alter_ne, lookup_insert_ne. }
  unfold wp, update_node, modify. cbn. rewrite E. split_and!.
  - by eapply inv_update.
  - by eapply le_update.
  - exists n. split; [done|]. apply lookup_insert_eq.
Qed.
End logic.

Lemma to_cstring_np name : to_cstring name <> Panic.
Proof. unfold to_cstring, CString_new. by destruct (cstr_ok name). Qed.

Lemma to_str_np {E} (e : E) s : map_err (fun _ => e) (to_str s) <> Panic.
Proof. unfold to_str. by destruct (utf8_valid _ _). Qed.

#[export] Hint Resolve to_str_np : wp.
#[export] Hint Resolve upper_node_live no_root_live to_cstring_np roks_nil roks_empty roks_cons roks_app : wp.

(** ** Tactics

    [wp_step] applies the rule for the head of the program and carries the facts
    that are stable to the next world; the rules of the operations are in the
    hint database [wp]. *)

Ltac wp_norm :=
  repeat match goal with
    | H : _ /\ _ |- _ => destruct H
    | H : True |- _ => clear H
    | H : ?w = ?w' |- _ => is_var w; match type of w with World _ => subst w end
    | H : le _ ?w ?w |- _ => clear H
    | H : le ?R ?w ?w' |- _ =>
      repeat match goal with
        | Hp : ?P w |- _ =>
          lazymatch P with inv => fail | _ => idtac end;
          apply (stable_at R P w w' H) in Hp
        end;
      clear H
    | H : inv ?w, H' : inv ?w |- _ => clear H'
    end.

Ltac wp_intro := intros; cbn beta iota in *; wp_norm.

Ltac wp_side :=
  lazymatch goal with
  | |- PreOrder _ => typeclasses eauto
  | |- ReadsKeep _ => typeclasses eauto
  | |- LayerOk _ => typeclasses eauto
  | |- no_panic _ =>
    first [apply fs_op_no_panic | apply fs_write_no_panic | apply lo_create_whiteout | apply lo_delete_whiteout
          | apply lo_set_opaque]
  | |- reads _ = true => reflexivity
  | |- _ => solve [eauto 8 with wp]
  end.

Ltac wp_prim :=
  lazymatch goal with
  | |- wp _ _ get_fs _ _ => eapply wp_get_fs; wp_side
  | |- wp _ _ (gets _) _ _ => eapply wp_gets; wp_side
  | |- wp _ _ (get_node _) _ _ => eapply wp_get_node; wp_side
  | |- wp _ _ (upgrade _) _ _ => eapply wp_upgrade; wp_side
  | |- wp _ _ (catch _) _ _ => eapply wp_catch; wp_prim
  | |- wp _ _ (lift (first_layer_inode _)) _ _ => eapply wp_first_layer; wp_side
  | |- wp _ _ (lift _) _ _ => eapply wp_lift_np; wp_side
  | |- wp _ _ (on_layer _ (fs_op _)) _ _ =>
    first [eapply wp_ri_read; wp_side | eapply wp_rh_read; wp_side | eapply wp_read_op; wp_side
          | eapply wp_write_op; wp_side]
  | |- wp _ _ (on_layer _ _) _ _ => first [solve [eauto 8 with wp] | eapply wp_write_op; wp_side]
  | |- wp _ _ _ _ _ => first [eassumption | solve [eauto 8 with wp]]
  end.

Ltac wp_step :=
  lazymatch goal with
  | |- wp _ _ (mbind _ (or_drop _ _)) _ _ =>
    eapply wp_bind; [typeclasses eauto|eapply wp_or_drop; [typeclasses eauto|wp_prim|wp_intro]|wp_intro]
  | |- wp _ _ (or_drop _ _) _ _ =>
    eapply wp_mono; [eapply wp_or_drop; [typeclasses eauto|wp_prim|wp_intro]|wp_intro]
  | |- wp _ _ (mbind _ (if _ then _ else _)) _ _ =>
    eapply (wp_bind _ _ _ _ (fun _ _ => True)); [|wp_intro]
  | |- wp _ _ (mbind _ (match _ with _ => _ end)) _ _ =>
    eapply (wp_bind _ _ _ _ (fun _ _ => True)); [|wp_intro]
  | |- wp _ _ (mbind _ (mret ?x)) _ ?w =>
    eapply (wp_bind _ _ _ _ (fun y w' => w' = w /\ y = x)); [apply wp_mret; [typeclasses eauto|assumption|done]|wp_intro]
  | |- wp _ _ (mbind _ (fail _)) _ _ =>
    eapply (wp_bind _ _ _ _ (fun _ _ => False)); [apply wp_fail; [typeclasses eauto|assumption]|done]
  | |- wp _ _ (mbind _ _) _ _ => eapply wp_bind; [typeclasses eauto|wp_prim|wp_intro]
  | |- wp _ _ (mret _) _ _ => apply wp_mret; [typeclasses eauto|assumption|cbn [fst snd]]
  | |- wp _ _ (fail _) _ _ => apply wp_fail; [typeclasses eauto|assumption]
  | |- wp _ _ (if ?b then _ else _) _ _ => destruct b eqn:?
  | |- wp _ _ (match ?x with _ => _ end) _ _ => first [is_var x; destruct x | destruct x eqn:?]; cbn [fst snd] in *; wp_norm
  | |- wp _ _ _ _ _ => eapply wp_mono; [wp_prim|wp_intro]
  end.

Ltac wp_go := repeat (wp_step; try solve [eauto with wp]).
