(* ===== verification/OverlaySafe.v ===== *)
(** * The overlay file system keeps its invariant: layers and inodes

    The rules of the methods of [RealInode] and [OverlayInode]: each runs without
    a panic, keeps [inv], and reads only in lower layers. *)

From stdpp Require Import list gmap.
From S2P Require Import Prelude Std Abi AbiStruct FsTypes FileSystem ProgLogic Vfs Host Layer OverlayStore.
From S2P Require Import Overlay OverlayOps OverlaySync OverlayLaws OverlayLogic.

Section safe.
Context {L : Type} `{FS : FileSystem L} `{LAYER : !Layer L} (R : relation L) `{RK : !ReadsKeep R} `{LO : !LayerOk L} {HRULE : HandleRule}.

Abbreviation wprog A := (prog (World L) io_error A).
Abbreviation wpo m Q := (wp inv (le R) m Q).
Abbreviation wpt m := (wp inv (le R) m (fun _ _ => True)).
Implicit Types (w : World L) (a c p : nat) (n : OverlayInode) (ri : RealInode).

(** ** [RealInode] *)

Lemma drop_real_inode_wp ri w : inv w -> rok ri w -> wpt (drop_real_inode ri) w.
Proof. intros HI Hri. unfold drop_real_inode. wp_go. Qed.
#[local] Hint Resolve drop_real_inode_wp : wp.

Lemma drop_real_inodes_wp l w : inv w -> roks l w -> wpt (drop_real_inodes l) w.
Proof.
  revert w. induction l as [|ri l IH]; intros w HI Hl; cbn; [wp_go|].
  apply Forall_cons in Hl as [Hri Hl]. change (roks l w) in Hl. wp_go.
Qed.
#[local] Hint Resolve drop_real_inodes_wp : wp.

Lemma ri_stat64_wp ctx ri w : inv w -> rok ri w -> wpt (ri_stat64 ctx ri) w.
Proof. intros HI Hri. unfold ri_stat64. wp_go. Qed.
#[local] Hint Resolve ri_stat64_wp : wp.

Lemma stat64_ignore_enoent_wp ctx ri w : inv w -> rok ri w -> wpt (stat64_ignore_enoent ctx ri) w.
Proof. intros HI Hri. unfold stat64_ignore_enoent. wp_go. Qed.
#[local] Hint Resolve stat64_ignore_enoent_wp : wp.

Lemma lookup_child_ignore_enoent_wp ctx ri name w :
  inv w -> rok ri w -> wpt (lookup_child_ignore_enoent ctx ri name) w.
Proof. intros HI Hri. unfold lookup_child_ignore_enoent. wp_go. Qed.
#[local] Hint Resolve lookup_child_ignore_enoent_wp : wp.

Lemma is_opaque_wp ctx ri inode w : inv w -> rok ri w -> wpt (on_layer ri.(ri_layer) (layer_is_opaque ctx inode)) w.
Proof. intros HI Hri. eapply wp_on_layer; [done..|apply lo_is_opaque|]. intros _. apply rk_is_opaque. Qed.

Lemma is_whiteout_wp ctx ri inode w : inv w -> rok ri w -> wpt (on_layer ri.(ri_layer) (layer_is_whiteout ctx inode)) w.
Proof. intros HI Hri. eapply wp_on_layer; [done..|apply lo_is_whiteout|]. intros _. apply rk_is_whiteout. Qed.
#[local] Hint Resolve is_opaque_wp is_whiteout_wp : wp.

(** A real inode found in a directory lies in the layer of the directory. *)
Lemma lookup_child_wp ctx ri name w :
  inv w -> rok ri w -> wpo (lookup_child ctx ri name) (fun r w' => roks (option_list r) w') w.
Proof.
  intros HI Hri. unfold lookup_child. wp_go; cbn; auto with wp.
Qed.
#[local] Hint Resolve lookup_child_wp : wp.

Lemma lookup_childs_wp ctx ri names acc w :
  inv w -> rok ri w -> roks (values acc) w ->
  wpo (lookup_childs ctx ri names acc) (fun r w' => roks (values r) w') w.
Proof.
  revert acc w. induction names as [|name names IH]; intros acc w HI Hri Hacc; cbn; [wp_go|].
  wp_step; [by wp_go|]. destruct a as [child|]; [|wp_go].
  match goal with H : roks (option_list (Some _)) _ |- _ => apply Forall_inv in H; change (rok child s') in H end.
  assert (roks (option_list (acc !! name)) s').
  { destruct (acc !! name) eqn:Hn; cbn; [|auto with wp]. eapply Forall_values_lookup in Hn; [|done]. auto with wp. }
  wp_step. apply IH; [done..|]. by apply Forall_values_insert.
Qed.
#[local] Hint Resolve lookup_childs_wp : wp.

(** The entries a directory has after an offset. *)
Definition left_in ri w (offset : Z) : Z :=
  match w.(w_layers) !! ri.(ri_layer) with
  | Some l => lo_left l ri.(ri_inode) offset
  | None => 0
  end.

Lemma left_in_range ri w offset : 0 <= left_in ri w offset < 2 ^ 64.
Proof. unfold left_in. destruct (_ !! _); [apply lo_left_range|lia]. Qed.

Lemma collect_name_np d x : (collect_name d x).2 <> Panic.
Proof. by destruct x as [[? ?] ?]. Qed.

(** A round that was given an entry has fewer ahead of it. *)
Lemma read_names_wp ctx ri handle x w :
  inv w -> rok ri w ->
  wpo (read_names ctx ri handle x)
    (fun r w' => match r with inl x' => rok ri w' /\ left_in ri w' x'.2 < left_in ri w x.2 | inr _ => True end) w.
Proof.
  intros HI Hri. pose proof (placed_lt w _ _ HI Hri) as Hlt.
  destruct (lookup_lt_is_Some_2 _ _ Hlt) as [l Hl]. destruct x as [names offset]. cbn [fst snd].
  set (m := fs_readdir (F := L) ctx ri.(ri_inode) handle 1024 offset collect_name).
  assert (Hm : wpo (on_layer_with ri.(ri_layer) m (names, false, offset))
    (fun r w' => r.1.1.2 = true -> left_in ri w' r.1.2 < left_in ri w offset) w).
  { unfold wp, on_layer_with. rewrite Hl.
    set (P := fun x : list bytes * bool * Z =>
      x.1.2 = true -> lo_left l ri.(ri_inode) x.2 < lo_left l ri.(ri_inode) offset).
    assert (HP : P (m (l, (names, false, offset))).1.2).
    { apply lo_readdir; [|done]. intros d [[ns b] o] Hd _ _. exact Hd. }
    pose proof (fs_readdir_keeps _ ctx ri.(ri_inode) handle 1024 offset collect_name (fun _ => True)
      (fun d x _ => conj I (collect_name_np d x)) l (names, false, offset) I) as [_ Hnp].
    pose proof (lo_readdir_left _ ctx ri.(ri_inode) handle 1024 offset collect_name l (names, false, offset)) as Hleft.
    pose proof (rk_readdir (R := R) _ ctx ri.(ri_inode) handle 1024 offset collect_name (l, (names, false, offset)))
      as HR.
    fold m in Hnp, Hleft, HR. destruct (m (l, (names, false, offset))) as [[l' x'] o]. cbn in *.
    assert (Hins : <[ri.(ri_layer) := l']> w.(w_layers) !! ri.(ri_layer) = Some l').
    { by apply list_lookup_insert_eq. }
    split_and!.
    - apply inv_set_layers; [apply length_insert|done].
    - split; [|done|apply nodes_le_refl]. apply frozen_layers; [apply length_insert|].
      intros i k k' Hi Hk Hk'. destruct (decide (i = ri.(ri_layer))) as [->|Hne].
      + rewrite Hins in Hk'. unfold fst_rel in HR. cbn in HR. by simplify_eq.
      + rewrite list_lookup_insert_ne in Hk' by done. simplify_eq. reflexivity.
    - destruct o; [|done..]. cbn. intros Hmore. unfold left_in. cbn. rewrite Hins, Hl, Hleft. by apply HP. }
  unfold read_names. cbn [fst snd]. wp_step. destruct a as [[[names' more] offset'] []]. cbn [fst snd] in *. wp_step.
  destruct more; [|done]. auto.
Qed.

Lemma read_all_names_wp ctx ri handle x w : inv w -> rok ri w -> wpt (loop (read_names ctx ri handle) x) w.
Proof.
  intros HI Hri.
  apply (wp_loop inv (le R) (fun _ w => rok ri w) (fun x w => left_in ri w x.2)); [| |done|done|].
  - intros. apply left_in_range.
  - intros y v HIv Hv. by apply read_names_wp.
  - apply left_in_range.
Qed.
#[local] Hint Resolve read_all_names_wp : wp.

Lemma ri_readdir_wp ctx ri w :
  inv w -> rok ri w -> wpo (ri_readdir ctx ri) (fun r w' => roks (values r) w') w.
Proof.
  intros HI Hri. unfold ri_readdir. wp_go.
Qed.
#[local] Hint Resolve ri_readdir_wp : wp.

(** What is made in the upper layer. *)
Definition made ri w : Prop := rok ri w /\ ri.(ri_in_upper_layer) = true.

#[global] Instance made_stable ri : Stable R (made ri).
Proof. intros w w' Hle [Hri Hu]. split; [by eapply rok_stable|done]. Qed.

Lemma made_rok ri w : made ri w -> rok ri w.
Proof. by intros [? _]. Qed.

Lemma upper_layer_of ri w : rok ri w -> negb ri.(ri_in_upper_layer) = false -> upper_is ri.(ri_layer) w.
Proof. unfold rok, placed. intros Hri E%negb_false_iff. by rewrite E in Hri. Qed.

Lemma made_upper ri whiteout opaque e w :
  upper_is ri.(ri_layer) w -> made (upper_real_inode ri whiteout opaque e) w.
Proof. by split. Qed.
#[local] Hint Resolve made_rok upper_layer_of made_upper : wp.

(** Calls that make something in the upper layer. *)
Ltac upper_calls :=
  intros HI Hri; wp_step; [by wp_go|];
  match goal with Hb : negb _ = false |- _ => pose proof (upper_layer_of _ _ Hri Hb) as Hu end;
  wp_go.

Lemma ri_create_whiteout_wp ctx ri name w :
  inv w -> rok ri w -> wpo (ri_create_whiteout ctx ri name) made w.
Proof. unfold ri_create_whiteout. upper_calls. Qed.

Lemma ri_mkdir_wp ctx ri name mode umask w :
  inv w -> rok ri w -> wpo (ri_mkdir ctx ri name mode umask) made w.
Proof. unfold ri_mkdir. upper_calls. Qed.

Lemma ri_create_wp ctx ri name args w :
  inv w -> rok ri w -> wpo (ri_create ctx ri name args) (fun r w' => made r.1 w') w.
Proof. unfold ri_create. upper_calls. Qed.

Lemma ri_mknod_wp ctx ri name mode rdev umask w :
  inv w -> rok ri w -> wpo (ri_mknod ctx ri name mode rdev umask) made w.
Proof. unfold ri_mknod. upper_calls. Qed.

Lemma ri_link_wp ctx ri ino name w :
  inv w -> rok ri w -> wpo (ri_link ctx ri ino name) made w.
Proof. unfold ri_link. upper_calls. Qed.

Lemma ri_symlink_wp ctx ri link_name filename w :
  inv w -> rok ri w -> wpo (ri_symlink ctx ri link_name filename) made w.
Proof. unfold ri_symlink. upper_calls. Qed.
#[local] Hint Resolve ri_create_whiteout_wp ri_mkdir_wp ri_create_wp ri_mknod_wp ri_link_wp ri_symlink_wp : wp.

(** ** [OverlayInode] *)

Lemma stat_or_ask_wp ctx ri w : inv w -> rok ri w -> wpt (stat_or_ask ctx ri) w.
Proof. intros HI Hri. unfold stat_or_ask. wp_go. Qed.
#[local] Hint Resolve stat_or_ask_wp : wp.

(** An inode that is not yet shared. *)
Record fresh_node n w : Prop := {
  fn_real : n.(on_real_inodes) <> [];
  fn_roks : roks n.(on_real_inodes) w;
  fn_childrens : n.(on_childrens) = ∅;
  fn_parent : n.(on_parent) = None;
}.

#[global] Instance fresh_node_stable n : Stable R (fresh_node n).
Proof. intros w w' Hle [? ? ? ?]. split; [done|by eapply roks_stable|done..]. Qed.

Lemma new_from_real_inode_fresh name ino path ri w : rok ri w -> fresh_node (new_from_real_inode name ino path ri) w.
Proof. intros Hri. split; cbn; auto with wp. Qed.
#[local] Hint Resolve new_from_real_inode_fresh fn_roks : wp.

Lemma append_real_inodes_wp new l w :
  inv w -> fresh_node new w -> roks l w ->
  wpo (append_real_inodes new l) (fun n w' => fresh_node n w' /\ n.(on_path) = new.(on_path)) w.
Proof.
  revert new w. induction l as [|ri l IH]; intros new w HI Hnew Hl; cbn [append_real_inodes]; [by wp_go|].
  apply Forall_cons in Hl as [Hri Hl]. change (rok ri w) in Hri. change (roks l w) in Hl.
  wp_step; [by wp_go|]. do 2 (wp_step; [by wp_go|]).
  assert (fresh_node (set_real_inodes new (new.(on_real_inodes) ++ [ri])) s').
  { match goal with H : fresh_node new s' |- _ => destruct H as [? ? ? ?] end.
    split; cbn; [by destruct new.(on_real_inodes)|auto with wp|done..]. }
  wp_step; [by wp_go|]. by apply (IH (set_real_inodes new (new.(on_real_inodes) ++ [ri]))).
Qed.
#[local] Hint Resolve append_real_inodes_wp : wp.

Lemma new_from_real_inodes_wp name ino path l w :
  inv w -> roks l w ->
  wpo (new_from_real_inodes name ino path l) (fun n w' => fresh_node n w' /\ n.(on_path) = path) w.
Proof.
  intros HI Hl. unfold new_from_real_inodes. destruct l as [|ri l]; [by wp_go|].
  apply Forall_cons in Hl as [Hri Hl]. change (rok ri w) in Hri. change (roks l w) in Hl.
  wp_step; [by wp_go|]. do 3 (wp_step; [by wp_go|]). 
  eapply wp_mono; [eapply append_real_inodes_wp; eauto with wp|by wp_intro].
Qed.
#[local] Hint Resolve new_from_real_inodes_wp : wp.

Lemma first_stat64_wp ctx l w : inv w -> roks l w -> wpt (first_stat64 ctx l) w.
Proof.
  revert w. induction l as [|ri l IH]; intros w HI Hl; cbn; [by wp_go|].
  apply Forall_cons in Hl as [Hri Hl]. change (rok ri w) in Hri. change (roks l w) in Hl. wp_go.
Qed.
#[local] Hint Resolve first_stat64_wp nf_roks : wp.

Lemma ovi_stat64_wp ctx a w : inv w -> live a w -> wpt (ovi_stat64 ctx a) w.
Proof. intros HI Ha. unfold ovi_stat64. wp_go. Qed.
#[local] Hint Resolve ovi_stat64_wp : wp.

Lemma get_nodes_wp l w :
  inv w -> kids l w -> wpo (get_nodes l) (fun ns w' => w' = w /\ length ns = length l) w.
Proof.
  revert w. induction l as [|a l IH]; intros w HI Hl; cbn; [by wp_go|].
  apply Forall_cons in Hl as [Ha Hl]. change (kids l w) in Hl. change (no_root a w) in Ha.
  wp_step. wp_step. wp_step. cbn. auto with lia.
Qed.
#[local] Hint Resolve get_nodes_wp nf_kids : wp.

Lemma count_entries_and_whiteout_wp ctx a w : inv w -> live a w -> wpt (count_entries_and_whiteout ctx a) w.
Proof. intros HI Ha. unfold count_entries_and_whiteout. wp_go. Qed.
#[local] Hint Resolve count_entries_and_whiteout_wp : wp.

(** Merging keeps the real inodes of all layers. *)
Lemma merge_entries_roks all entries w :
  roks (concat (values all)) w -> roks (values entries) w -> roks (concat (values (merge_entries all entries))) w.
Proof.
  unfold merge_entries, values at 2. generalize (map_to_list entries). intros l. revert all.
  induction l as [|[name ri] l IH]; intros all Hall Hl; [done|]. cbn in Hl. apply Forall_cons in Hl as [Hri Hl].
  cbn. apply IH; [|done]. apply Forall_concat, Forall_values_insert; [by apply Forall_concat|].
  apply Forall_app. split; [|by apply Forall_singleton].
  destruct (all !! name) as [k|] eqn:Hk; cbn; [|done]. apply Forall_concat in Hall.
  by eapply Forall_values_lookup in Hk.
Qed.
#[local] Hint Resolve merge_entries_roks : wp.

Lemma drop_all_wp all w : inv w -> roks (concat (values all)) w -> wpt (drop_all all) w.
Proof. intros HI Hall. unfold drop_all. wp_go. Qed.
#[local] Hint Resolve drop_all_wp : wp.

Lemma scan_layers_wp ctx l all w :
  inv w -> roks l w -> roks (concat (values all)) w ->
  wpo (scan_layers ctx l all) (fun r w' => roks (concat (values r)) w') w.
Proof.
  revert all w. induction l as [|ri l IH]; intros all w HI Hl Hall; cbn [scan_layers]; [by wp_go|].
  apply Forall_cons in Hl as [Hri Hl]. change (rok ri w) in Hri. change (roks l w) in Hl. wp_go.
Qed.
#[local] Hint Resolve scan_layers_wp : wp.

(** Inodes not yet shared, with a path that is not the root's. *)
Definition fresh_nodes (l : list OverlayInode) w : Prop :=
  Forall (fun n => fresh_node n w /\ n.(on_path) <> []) l.

#[global] Instance fresh_nodes_stable l : Stable R (fresh_nodes l).
Proof.
  intros w w' Hle Hl. eapply Forall_impl; [exact Hl|]. intros n [Hn ?]. split; [|done].
  by eapply fresh_node_stable.
Qed.

Lemma fresh_nodes_roks l w : fresh_nodes l w -> roks (l ≫= on_real_inodes) w.
Proof.
  intros Hl. induction Hl as [|n l [Hn _] _ IH]; [apply roks_nil|]. cbn. apply roks_app; [by apply fn_roks|done].
Qed.
#[local] Hint Resolve fresh_nodes_roks : wp.

Lemma drop_inodes_wp l w : inv w -> fresh_nodes l w -> wpt (drop_inodes l) w.
Proof. intros HI Hl. unfold drop_inodes. wp_go. Qed.
#[local] Hint Resolve drop_inodes_wp : wp.

Lemma build_childrens_wp path l acc w :
  inv w -> roks (concat l.*2) w -> fresh_nodes acc w -> wpo (build_childrens path l acc) fresh_nodes w.
Proof.
  revert acc w. induction l as [|[name rs] l IH]; intros acc w HI Hl Hacc; cbn [build_childrens]; [by wp_go|].
  cbn in Hl. apply Forall_app in Hl as [Hrs Hl]. change (roks rs w) in Hrs. change (roks (concat l.*2) w) in Hl.
  wp_step; [by wp_go|]. apply IH; [done..|]. apply Forall_app. split; [done|]. apply Forall_singleton.
  split; [done|]. match goal with H : on_path _ = _ |- _ => rewrite H end. by destruct path.
Qed.
#[local] Hint Resolve build_childrens_wp : wp.

Lemma scan_childrens_wp ctx a w : inv w -> live a w -> wpo (scan_childrens ctx a) fresh_nodes w.
Proof.
  intros HI Ha. unfold scan_childrens. do 2 wp_step; [by wp_go|]. wp_step.
  eapply wp_bind; [typeclasses eauto|eapply scan_layers_wp; [done|by eapply nf_roks|]|wp_intro].
  { unfold values. rewrite map_to_list_empty. apply roks_nil. }
  apply build_childrens_wp; [done|done|]. apply Forall_nil_2.
Qed.
#[local] Hint Resolve scan_childrens_wp : wp.

(** The closure gets a real inode of the upper layer or nothing. *)
Lemma handle_upper_inode_locked_wp {A} a (f : option RealInode -> wprog A) Q w :
  inv w -> live a w ->
  (forall ri, made ri w -> wpo (f (Some ri)) Q w) -> wpo (f None) Q w ->
  wpo (handle_upper_inode_locked a f) Q w.
Proof.
  intros HI Ha Hsome Hnone. unfold handle_upper_inode_locked. wp_step.
  match goal with H : node_facts _ _ _ |- _ => destruct H as [_ _ Hr _ _ _] end.
  destruct (on_real_inodes _) as [|v l]; [by wp_step|]. apply Forall_cons in Hr as [Hv _].
  destruct v.(ri_in_upper_layer) eqn:Hu; [by apply Hsome|done].
Qed.

Lemma add_upper_inode_wp a ri clear_lowers w :
  inv w -> live a w -> made ri w -> wpo (add_upper_inode a ri clear_lowers) (fun _ w' => upper_node a w') w.
Proof.
  intros HI Ha [Hri Hu]. unfold add_upper_inode. wp_step.
  match goal with H : node_facts _ _ _ |- _ => destruct H as [Hn _ Hr _ _ _] end.
  assert (Hnew : roks (if clear_lowers then [ri] else ri :: a0.(on_real_inodes)) w).
  { destruct clear_lowers; auto with wp. }
  eapply wp_bind; [typeclasses eauto|eapply wp_update_node; [done..|]|].
  - intros n Hn' [? ? ? ? ? ?]. rewrite Hn in Hn'. simplify_eq. split.
    + split_and!; [done..|]. intros _. cbn. unfold in_upper_layer. cbn. by destruct clear_lowers.
    + split; cbn; [done|by destruct clear_lowers|done..|]. intros _ _. unfold in_upper_layer. cbn. by destruct clear_lowers.
  - intros _ w' HI' Hle (n & Hn1 & Hn2).
    assert (upper_node a w').
    { eexists. split; [exact Hn2|]. unfold in_upper_layer. cbn. by destruct clear_lowers. }
    wp_norm. wp_go.
Qed.
#[local] Hint Resolve add_upper_inode_wp : wp.

(** A directory that was made in the upper layer is there. *)
Lemma create_upper_dir_at_wp fuel ctx a mode_umask w :
  inv w -> live a w -> (a < fuel)%nat ->
  wpo (create_upper_dir_at fuel ctx a mode_umask) (fun _ w' => upper_node a w') w.
Proof.
  revert a mode_umask w. induction fuel as [|fuel IH]; intros a mode_umask w HI Ha Hf; [lia|]. cbn [create_upper_dir_at].
  do 2 wp_step; [by wp_go|]. wp_step. wp_step; [wp_step; by eapply nf_upper|]. 
  match goal with H : node_facts _ _ _ |- _ => destruct H as [_ _ _ _ _ Hp] end.
  wp_step. destruct a2 as [p|]; [|by wp_go]. wp_norm. specialize (Hp p ltac:(assumption)). wp_step.
  eapply (wp_bind _ _ _ _ (fun _ w' => upper_node p w')).
  { wp_step; [wp_step; by eapply nf_upper|]. apply IH; [done..|lia]. }
  wp_intro.
  eapply wp_bind; [typeclasses eauto| |wp_intro; by wp_go].
  apply handle_upper_inode_locked_wp; [done|eauto with wp| |by wp_go].
  intros ri Hri. wp_go.
Qed.

Lemma create_upper_dir_wp ctx a mode_umask w :
  inv w -> live a w -> wpo (create_upper_dir ctx a mode_umask) (fun _ w' => upper_node a w') w.
Proof. intros HI Ha. apply create_upper_dir_at_wp; [done..|lia]. Qed.
End safe.

#[export] Hint Extern 0 (ReadsKeep _) => typeclasses eauto : wp.
#[export] Hint Extern 0 (LayerOk _) => typeclasses eauto : wp.
#[export] Hint Resolve drop_real_inode_wp drop_real_inodes_wp is_opaque_wp made_rok fn_roks
  new_from_real_inode_fresh ri_create_whiteout_wp ri_mkdir_wp ri_create_wp ri_mknod_wp ri_link_wp ri_symlink_wp
  stat64_ignore_enoent_wp ovi_stat64_wp get_nodes_wp nf_kids nf_roks count_entries_and_whiteout_wp
  drop_inodes_wp scan_childrens_wp add_upper_inode_wp create_upper_dir_wp : wp.
