(* ===== verification/OverlaySafeOps.v ===== *)
(** * The overlay file system keeps its invariant: operations

    The rules of the tables, of the directory cache, of copy-up and of making
    and removing files. *)

From stdpp Require Import list gmap.
From S2P Require Import Prelude Std Abi AbiStruct FsTypes FileSystem Vfs ProgLogic Host Layer OverlayStore Overlay.
From S2P Require Import OverlayOps OverlaySync OverlayLaws OverlayLogic OverlaySafe.

Section ops.
Context {L : Type} `{FS : FileSystem L} `{LAYER : !Layer L} (R : relation L) `{RK : !ReadsKeep R} `{LO : !LayerOk L} {HRULE : HandleRule}.

Abbreviation wprog A := (prog (World L) io_error A).
Abbreviation wpo m Q := (wp inv (le R) m Q).
Abbreviation wpt m := (wp inv (le R) m (fun _ _ => True)).
Implicit Types (w : World L) (a c p : nat) (n : OverlayInode) (ri : RealInode).

(** ** Tables *)

Lemma set_store_inv w s : inv w -> store_ok s w -> inv (set_fs w (set_ov_inodes w.(w_fs) s)).
Proof. intros HI Hs. apply inv_set_fs; [done..|]. by destruct HI. Qed.

Lemma set_store_le w s : le R w (set_fs w (set_ov_inodes w.(w_fs) s)).
Proof. apply le_set_fs; auto. Qed.

(** A number given out is not the root's. *)
Lemma alloc_inode_wp path a w :
  inv w -> live a w -> path <> [] -> wpo (alloc_inode path) (fun ino _ => ino <> ROOT_ID) w.
Proof.
  intros HI Ha Hpath. unfold wp, alloc_inode, on_store, store_alloc_inode.
  destruct (inv_store _ HI) as [K1 K2 K3 K4 K5].
  destruct (is_path_mapping _ !! path) as [v|] eqn:Hv; cbn.
  { split_and!; [by apply set_store_inv; [|by destruct HI]|apply set_store_le|]. intros ->. auto. }
  destruct (alloc_unique_inode_cases _ K5) as [(j & Hj & Hfree & _ & ->)|[_ ->]]; cbn;
    (split_and!; [apply set_store_inv; [done|]|apply set_store_le|]); try done.
  - split; cbn; try done. unfold candidate.
    pose proof (Z.mod_pos_bound (clamp (is_next_inode (ov_inodes (w_fs w))) - 1 + Z.of_nat j) VFS_MAX_INO ltac:(done)).
    lia.
  - destruct Hfree as [Hfree _]. intros E. rewrite E in Hfree. destruct (K3 a Ha). congruence.
Qed.

Lemma insert_inode_wp ino a w : inv w -> live a w -> ino <> ROOT_ID -> wpt (insert_inode ino a) w.
Proof.
  intros HI Ha Hino. unfold insert_inode. wp_step. unfold wp, on_store. cbn.
  destruct (inv_store _ HI) as [K1 K2 K3 K4 K5].
  split_and!; [apply set_store_inv; [done|]|apply set_store_le|done]. split; cbn; try done.
  - intros i b [[_ <-]|[_ Hb]]%lookup_insert_Some; [done|eauto].
  - intros b Hb. rewrite lookup_insert_ne by done. eauto.
  - intros path [[_ ?]|[_ Hp]]%lookup_insert_Some; [done|eauto].
Qed.

Lemma store_remove_ok lookups ino path s w :
  store_ok s w -> ino <> ROOT_ID -> store_ok (store_remove_inode lookups ino path s).1 w.
Proof.
  intros [K1 K2 K3 K4 K5] Hino. unfold store_remove_inode.
  destruct path; repeat case_match; cbn; split; cbn; try done; intros; rewrite ?lookup_delete_ne by done;
    repeat match goal with
      | H : delete _ _ !! _ = Some _ |- _ => apply lookup_delete_Some in H as [_ H]
      | H : <[_ := _]> _ !! _ = Some _ |- _ => apply lookup_insert_Some in H as [[_ <-]|[_ H]]
      end; eauto.
Qed.

Lemma remove_inode_wp ino path w : inv w -> ino <> ROOT_ID -> wpt (remove_inode ino path) w.
Proof.
  intros HI Hino. unfold wp, remove_inode.
  pose proof (store_remove_ok (fun a => from_option on_lookups 0 (w.(w_nodes) !! a)) ino path _ _
    (inv_store _ HI) Hino) as Hs.
  destruct (store_remove_inode _ _ _ _) as [s v]. cbn in *.
  split_and!; [by apply set_store_inv|apply set_store_le|done].
Qed.

(** ** Nodes *)

(** A node that may enter the heap. *)
Record new_ok n w : Prop := {
  nw_real : n.(on_real_inodes) <> [];
  nw_roks : roks n.(on_real_inodes) w;
  nw_childrens : n.(on_childrens) = ∅;
  nw_parent : forall p, n.(on_parent) = Some p -> live p w;
  nw_top : n.(on_inode) = ROOT_ID -> is_Some w.(w_fs).(ov_upper_layer) -> in_upper_layer n = true;
}.

Lemma live_next a w : inv w -> live a w -> (a < w.(w_next))%nat.
Proof. intros HI [n Hn]. by destruct (inv_nodes _ HI _ _ Hn). Qed.

Lemma new_arc_le n w : inv w -> le R w (new_arc n w).1.
Proof.
  intros HI. split; [apply frozen_same; auto|cbn; lia|]. intros b m Hm. exists m. split; [|apply node_le_refl].
  cbn. rewrite lookup_insert_ne; [done|]. intros <-.
  assert (Hl : live w.(w_next) w) by by exists m. apply live_next in Hl; [lia|done].
Qed.

Lemma new_arc_nodes n w b m :
  inv w -> new_ok n w -> (new_arc n w).1.(w_nodes) !! b = Some m -> node_ok (new_arc n w).1 b m.
Proof.
  intros HI [Hr Hrs Hc Hp Ht]. pose proof (new_arc_le n w HI) as Hle.
  cbn [new_arc fst set_next w_nodes]. intros Hb. apply lookup_insert_Some in Hb as [[<- <-]|[_ Hm]];
    [|by apply (node_ok_stable R w); [|apply (inv_nodes _ HI)]].
  split; cbn; [lia|done|by apply (roks_stable R _ w)|intros p Hnp; by apply live_next; auto| |done].
  rewrite Hc. intros name c E. by rewrite lookup_empty in E.
Qed.

(** A new node, known to come after [a] and after its parent. *)
Lemma new_arc_wp a n w :
  inv w -> live a w -> new_ok n w -> n.(on_inode) <> ROOT_ID ->
  wpo (new_arc n) (fun c w' => no_root c w' /\ (a < c)%nat) w.
Proof.
  intros HI Ha Hn Hino. pose proof (new_arc_le n w HI) as Hle.
  unfold wp. split; [|split; [done|]]; [|split; [exists n; cbn; by rewrite lookup_insert_eq|by apply live_next]].
  pose proof (fun b m => new_arc_nodes n w b m HI Hn) as Hnodes. set (w' := (new_arc n w).1) in *.
  destruct HI as [? H1 H2 H3 [K1 K2 K3 K4 K5] H5].
  assert (Hl : forall b, live b w -> live b w') by (intros b; by apply (live_stable R b)).
  split; cbn; try done.
  - split; cbn; [eauto..| |done|done]. intros b _. by apply (K3 a).
  - intros h d Hd. destruct (H5 h d Hd) as [Hd1 Hd2]. split; [auto|done].
Qed.

(** Changes of a node that do not touch its real inodes or where it is. *)
Lemma update_quiet_wp a f w :
  inv w -> live a w ->
  (forall n, (f n).(on_real_inodes) = n.(on_real_inodes) /\ (f n).(on_inode) = n.(on_inode) /\
     (f n).(on_path) = n.(on_path) /\ (f n).(on_name) = n.(on_name) /\ (f n).(on_parent) = n.(on_parent)) ->
  (forall n name c, (f n).(on_childrens) !! name = Some c ->
     n.(on_childrens) !! name = Some c \/ ((a < c)%nat /\ no_root c w)) ->
  wpt (update_node a f) w.
Proof.
  intros HI Ha Hf Hc. eapply wp_mono; [eapply wp_update_node; [done..|]|done].
  intros n Hn [? ? ? ? Hkids ?]. destruct (Hf n) as (E1 & E2 & E3 & E4 & E5). split.
  - unfold node_le, in_upper_layer. by rewrite E1.
  - split; unfold in_upper_layer; rewrite ?E1, ?E2, ?E5; try done.
    intros name c Hnc. apply Hc in Hnc as [Hnc|]; eauto.
Qed.

Lemma insert_child_wp a name c w :
  inv w -> live a w -> no_root c w -> (a < c)%nat -> wpt (update_node a (insert_child name c)) w.
Proof.
  intros HI Ha Hc Hlt. apply update_quiet_wp; [done..|].
  intros n name' c'. cbn. intros [[_ <-]|[_ H]]%lookup_insert_Some; auto.
Qed.

Lemma remove_child_wp a name w : inv w -> live a w -> wpt (update_node a (remove_child name)) w.
Proof.
  intros HI Ha. apply update_quiet_wp; [done..|]. intros n name' c'. cbn. intros [_ H]%lookup_delete_Some. auto.
Qed.

Lemma set_loaded_wp a w : inv w -> live a w -> wpt (update_node a set_loaded) w.
Proof. intros HI Ha. apply update_quiet_wp; auto. Qed.

Lemma set_lookups_wp a (g : OverlayInode -> Z) w :
  inv w -> live a w -> wpt (update_node a (fun n => set_lookups n (g n))) w.
Proof. intros HI Ha. apply update_quiet_wp; auto. Qed.

Lemma inc_lookups_wp a w : inv w -> live a w -> wpt (update_node a inc_lookups) w.
Proof. apply set_lookups_wp. Qed.

Lemma dec_lookups_wp a w : inv w -> live a w -> wpt (update_node a dec_lookups) w.
Proof. apply set_lookups_wp. Qed.

#[local] Hint Resolve alloc_inode_wp insert_inode_wp remove_inode_wp insert_child_wp remove_child_wp
  set_loaded_wp inc_lookups_wp dec_lookups_wp : wp.

(** ** The directory cache *)

Lemma add_childrens_wp a l w : inv w -> live a w -> fresh_nodes l w -> wpt (add_childrens a l) w.
Proof.
  revert w. induction l as [|n l IH]; intros w HI Ha Hl; cbn [add_childrens]; [by wp_go|].
  assert (Hcl : fresh_nodes (n :: l) w) by done. apply Forall_cons in Hl as [[Hn Hpath] Hl].
  change (fresh_nodes l w) in Hl. wp_step; [by wp_go|].
  apply (wp_bind _ _ _ _ (fun c w' => no_root c w' /\ (a < c)%nat)); [|wp_intro; by wp_go].
  match goal with H : fresh_node n s' |- _ => destruct H end.
  apply (new_arc_wp a); try done. split; try done. cbn. by intros p [= <-].
Qed.
#[local] Hint Resolve add_childrens_wp : wp.

Lemma load_directory_wp ctx a w : inv w -> live a w -> wpt (load_directory ctx a) w.
Proof. intros HI Ha. unfold load_directory. wp_go. Qed.
#[local] Hint Resolve load_directory_wp : wp.

Lemma get_active_inode_wp inode w :
  inv w -> wpo (get_active_inode inode)
    (fun r w' => w' = w /\ match r with Some a => live a w | None => True end) w.
Proof.
  intros HI. unfold get_active_inode. do 2 wp_step. subst. split; [done|].
  unfold get_inode. destruct (_ !! inode) eqn:E; [|done]. by eapply so_inodes; [apply inv_store|].
Qed.

Lemma get_all_inode_wp inode w :
  inv w -> wpo (get_all_inode inode)
    (fun r w' => w' = w /\ match r with Some a => live a w | None => True end) w.
Proof.
  intros HI. unfold get_all_inode. wp_step. subst. unfold get_inode, get_deleted_inode.
  destruct (_ !! inode) eqn:E; wp_step; (split; [done|]).
  - by eapply so_inodes; [apply inv_store|].
  - clear E. destruct (_ !! inode) eqn:E; [|done]. by eapply so_deleted; [apply inv_store|].
Qed.
#[local] Hint Resolve get_active_inode_wp get_all_inode_wp : wp.

Lemma own_name (root : bool) name :
  beq name CURRENT_DIR || (root && beq name PARENT_DIR) || beq name [] = true -> dot_name name = true.
Proof. unfold dot_name. by destruct (beq name []), (beq name CURRENT_DIR), (beq name PARENT_DIR), root. Qed.

(** A live child, or the directory itself under one of its own names. *)
Lemma lookup_node_wp ctx parent name w :
  inv w -> wpo (lookup_node ctx parent name)
    (fun a w' => live a w' /\ (dot_name name = false -> no_root a w')) w.
Proof.
  intros HI. unfold lookup_node. wp_step; [by wp_go|]. wp_step. destruct a as [pnode|]; [|by wp_go].
  do 2 wp_step; [by wp_go|]. do 2 wp_step. wp_step; [by wp_go|]. wp_step.
  - wp_step. split; [done|]. intros Hd. apply own_name in Heqb1. congruence.
  - wp_step. destruct (child _ name) eqn:Hc; wp_step. eapply nf_child in Hc; [|done]. eauto with wp.
Qed.

Lemma lookup_live_wp ctx parent name w : inv w -> wpo (lookup_node ctx parent name) live w.
Proof. intros HI. eapply wp_mono; [by apply lookup_node_wp|by wp_intro]. Qed.
#[local] Hint Resolve lookup_live_wp : wp.

Lemma lookup_node_ignore_enoent_wp ctx parent name w :
  inv w -> wpo (lookup_node_ignore_enoent ctx parent name)
    (fun r w' => match r with Some a => live a w' | None => True end) w.
Proof. intros HI. unfold lookup_node_ignore_enoent. wp_go. Qed.
#[local] Hint Resolve lookup_node_ignore_enoent_wp : wp.

Lemma ov_forget_one_wp inode count w : inv w -> wpt (ov_forget_one inode count) w.
Proof.
  intros HI. unfold ov_forget_one. wp_step; [by wp_go|].
  assert (inode <> ROOT_ID) by (zify_bool; congruence).
  wp_step. destruct a as [v|]; [|by wp_go]. wp_step.
  eapply wp_bind; [typeclasses eauto|by eapply (set_lookups_wp v (fun _ => _))|wp_intro]. wp_go.
Qed.

Lemma ov_do_lookup_wp ctx parent name w : inv w -> wpt (ov_do_lookup ctx parent name) w.
Proof. intros HI. unfold ov_do_lookup. wp_go. Qed.
#[local] Hint Resolve ov_do_lookup_wp : wp.

Lemma do_statvfs_wp ctx inode w : inv w -> wpt (do_statvfs ctx inode) w.
Proof.
  intros HI. unfold do_statvfs. wp_step. destruct a as [a|]; [|by wp_go]. wp_step.
  match goal with H : node_facts _ _ _ |- _ => destruct H as [_ _ Hr _ _ _] end.
  destruct (on_real_inodes _) as [|ri l]; [by wp_go|]. apply Forall_cons in Hr as [Hri _].
  change (rok ri w) in Hri. wp_go.
Qed.

Lemma root_node_wp a w : inv w -> live a w -> wpo root_node (fun r w' => w' = w /\ live r w) w.
Proof.
  intros HI Ha. destruct (so_root _ _ (inv_store _ HI) a Ha) as [r Hr].
  unfold wp, root_node, get_active_inode, get_inode, get_fs, gets, mbind, prog_mbind, prog_bind, mret, prog_ret.
  cbn beta iota. rewrite Hr. split_and!; [done..|]. split; [done|].
  by eapply so_inodes; [apply inv_store|].
Qed.

(** The entries of a listing are in the heap. *)
Definition lives (l : list (bytes * nat)) w : Prop := Forall (fun e => live e.2 w) l.

#[global] Instance lives_stable l : Stable R (lives l).
Proof. intros w w' Hle Hl. eapply Forall_impl; [exact Hl|]. intros e. by apply (live_stable R). Qed.

Lemma dir_childrens_wp a w : inv w -> live a w -> wpo (dir_childrens a) lives w.
Proof.
  intros HI Ha. unfold dir_childrens. wp_step. wp_step.
  apply (wp_bind _ _ _ _ (fun p w' => w' = w /\ live p w)).
  { wp_step; [by wp_go|]. by eapply root_node_wp. }
  wp_intro. wp_step. wp_step. repeat (apply Forall_cons; split; [done|]).
  apply Forall_forall. intros [name c] ([n c'] & Hz & Hc)%list_elem_of_omap. cbn in Hc.
  destruct n.(on_whiteout); simplify_eq. apply elem_of_zip_r in Hz.
  match goal with H : node_facts _ _ _ |- _ => pose proof (nf_kids _ _ _ H) as Hk end.
  unfold kids in Hk. rewrite Forall_forall in Hk. cbn. eauto with wp.
Qed.
#[local] Hint Resolve dir_childrens_wp : wp.

(** ** Copy-up *)

Lemma copy_symlink_up_wp ctx a w :
  inv w -> live a w -> wpo (copy_symlink_up ctx a) (fun b w' => b = a /\ upper_node a w') w.
Proof.
  intros HI Ha. unfold copy_symlink_up. wp_step. wp_step; [wp_step; by split; [|eapply nf_upper]|].
  wp_step. wp_step; [|by wp_step]. do 4 wp_step. wp_step; [by wp_go|]. do 2 wp_step.
  eapply (wp_bind _ _ _ _ made).
  { apply handle_upper_inode_locked_wp; [done..| |by wp_go]. intros ri Hri. wp_go. }
  wp_intro. wp_go.
Qed.
#[local] Hint Resolve copy_symlink_up_wp : wp.

(** The bytes of the lower file that are still to be read. *)
Definition size_in layer inode w : Z :=
  match w.(w_layers) !! layer with Some l => lo_size l inode | None => 0 end.

Lemma size_in_range layer inode w : 0 <= size_in layer inode w < 2 ^ 63.
Proof. unfold size_in. destruct (_ !! _); [apply lo_size_range|lia]. Qed.

Lemma copy_read_wp ctx b layer inode handle x w :
  inv w -> placed b layer w -> 0 <= x.2 -> zlen x.1 = x.2 ->
  wpo (copy_read ctx layer inode handle x)
    (fun r w' => placed b layer w' /\ match r with
       | inl x' => zlen x'.1 = x'.2 /\ x.2 < x'.2 <= size_in layer inode w' /\
                   size_in layer inode w' = size_in layer inode w
       | inr file => zlen file = x.2
       end) w.
Proof.
  intros HI Hi Hx0 Hx. pose proof (placed_lt w b layer HI Hi) as Hlt.
  destruct (lookup_lt_is_Some_2 _ _ Hlt) as [l Hl]. unfold wp, copy_read. rewrite Hl.
  pose proof (fs_read_ok ctx inode handle USIZE_MAX COPY_SIZE x.2 None 0 l ltac:(done)) as Hok.
  pose proof (rk_read (R := R) ctx inode handle USIZE_MAX COPY_SIZE x.2 None 0 l) as HR.
  pose proof (lo_read ctx inode handle USIZE_MAX COPY_SIZE x.2 None 0 l) as Hsize.
  destruct (fs_read ctx inode handle USIZE_MAX COPY_SIZE x.2 None 0 l) as [l' [data res]]. cbn in HR, Hok.
  pose proof (layer_le R w layer l l' Hl HR) as Hle.
  assert (HI' : inv (set_layers w (<[layer := l']> w.(w_layers)))) by by apply inv_set_layers; [apply length_insert|].
  destruct res as [n|e|]; [|done|by destruct Hok]. cbn. split_and!; [done..|by eapply (placed_stable R)|].
  destruct Hok as [_ ->]. destruct (Hsize l' data (zlen data) eq_refl) as [Hsame Hbound].
  pose proof (zlen_nonneg data) as Hd. pose proof (size_in_range layer inode w) as Hs. unfold size_in in *. cbn.
  rewrite Hl in Hs. rewrite Hl, list_lookup_insert_eq, Hsame by done.
  destruct (Z.eqb_spec (zlen data) 0) as [E|E]; rewrite ?zlen_app; [lia|].
  specialize (Hbound E). rewrite wrap_small by (unfold in_u; lia). cbn. rewrite zlen_app. lia.
Qed.

Lemma copy_read_all_wp ctx b layer inode handle w :
  inv w -> placed b layer w ->
  wpo (loop (copy_read ctx layer inode handle) ([], 0)) (fun file _ => zlen file < 2 ^ 63) w.
Proof.
  intros HI Hi. pose proof (size_in_range layer inode w) as Hs. set (size := size_in layer inode w) in *.
  apply (wp_loop inv (le R)
    (fun x w' => placed b layer w' /\ zlen x.1 = x.2 /\ x.2 <= size /\ size_in layer inode w' = size)
    (fun x _ => size - x.2)); cbn; [|..|done|split_and!; auto; lia|lia].
  - intros x v _ (_ & _ & ? & _). lia.
  - intros x v HIv (Hv & Hx & Hle & Hsz). pose proof (zlen_nonneg x.1).
    eapply wp_mono; [apply copy_read_wp; [done..|lia|done]|].
    intros [x'|file] v' _ _ [Hv' Hr]; [|lia]. destruct Hr as (? & ? & ?). split_and!; auto; lia.
Qed.

(** A write of nothing writes nothing, so that the loop stops after the last byte. *)
Lemma copy_write_wp ctx ri handle x w :
  inv w -> made ri w ->
  wpo (copy_write ctx ri handle x)
    (fun r w' => match r with inl x' => made ri w' /\ zlen x'.1 < zlen x.1 | inr _ => True end) w.
Proof.
  intros HI Hri. pose proof Hri as [Hok Hup]. unfold rok in Hok. rewrite Hup in Hok. unfold copy_write.
  eapply wp_bind; [typeclasses eauto|eapply wp_on_layer_ran; [typeclasses eauto|done|exact Hok|apply fs_write_no_panic]|wp_intro].
  wp_step. destruct (a =? 0) eqn:Ha; [done|]. split; [done|]. cbn.
  match goal with H : exists _ _, _ |- _ => destruct H as (l & l' & Hw) end.
  destruct x.1 as [|v rest]; [apply lo_write_nil in Hw; lia|].
  unfold zlen. rewrite length_drop. cbn [length]. assert (0 < COPY_SIZE) by done. lia.
Qed.

Lemma copy_write_all_wp ctx ri handle x w :
  inv w -> made ri w -> zlen x.1 < 2 ^ 63 -> wpt (loop (copy_write ctx ri handle) x) w.
Proof.
  intros HI Hri Hx.
  apply (wp_loop inv (le R) (fun _ w => made ri w) (fun x _ => zlen x.1)); [| |done|done|lia].
  - intros y v _ _. apply zlen_nonneg.
  - intros y v HIv Hv. by apply copy_write_wp.
Qed.

Lemma made_upper_is ri w : made ri w -> upper_is ri.(ri_layer) w.
Proof. intros [Hri Hu]. unfold rok in Hri. by rewrite Hu in Hri. Qed.
#[local] Hint Resolve made_upper_is : wp.

Lemma copy_data_wp ctx b layer inode ri handle w :
  inv w -> placed b layer w -> made ri w -> wpt (copy_data ctx layer inode ri handle) w.
Proof.
  intros HI Hi Hri. unfold copy_data. do 3 wp_step.
  eapply wp_bind; [typeclasses eauto|by eapply copy_read_all_wp|wp_intro]. wp_step.
  eapply wp_bind; [typeclasses eauto|by apply copy_write_all_wp|wp_intro]. wp_go.
Qed.
#[local] Hint Resolve copy_data_wp : wp.

Lemma copy_regfile_up_wp ctx a w :
  inv w -> live a w -> wpo (copy_regfile_up ctx a) (fun b w' => b = a /\ upper_node a w') w.
Proof.
  intros HI Ha. unfold copy_regfile_up. wp_step. wp_step; [wp_step; by split; [|eapply nf_upper]|].
  wp_step. wp_step; [|by wp_step]. do 6 wp_step. wp_step; [by wp_go|].
  eapply (wp_bind _ _ _ _ (fun r w' => made r.1 w')).
  { apply handle_upper_inode_locked_wp; [done..| |by wp_go]. intros ri Hri. wp_go. }
  wp_intro. wp_step. wp_step; wp_go.
Qed.
#[local] Hint Resolve copy_regfile_up_wp : wp.

Lemma copy_node_up_wp ctx a w :
  inv w -> live a w -> wpo (copy_node_up ctx a) (fun b w' => b = a /\ upper_node a w') w.
Proof.
  intros HI Ha. unfold copy_node_up. wp_step. wp_step; [wp_step; by split; [|eapply nf_upper]|]. wp_go.
Qed.
End ops.

#[export] Hint Resolve alloc_inode_wp insert_inode_wp remove_inode_wp insert_child_wp remove_child_wp inc_lookups_wp
  dec_lookups_wp load_directory_wp get_active_inode_wp get_all_inode_wp lookup_live_wp lookup_node_ignore_enoent_wp
  ov_forget_one_wp ov_do_lookup_wp do_statvfs_wp root_node_wp dir_childrens_wp made_upper_is copy_node_up_wp : wp.
