(* ===== verification/OverlaySafeMake.v ===== *)
(** * The overlay file system keeps its invariant: making and removing files *)

From stdpp Require Import list gmap.
From S2P Require Import Prelude Std Abi AbiStruct FsTypes FileSystem Vfs ProgLogic Host Layer OverlayStore Overlay.
From S2P Require Import OverlayOps OverlaySync OverlayLaws OverlayLogic OverlaySafe OverlaySafeOps.

Section make.
Context {L : Type} `{FS : FileSystem L} `{LAYER : !Layer L} (R : relation L) `{RK : !ReadsKeep R} `{LO : !LayerOk L} {HRULE : HandleRule}.

Abbreviation wprog A := (prog (World L) io_error A).
Abbreviation wpo m Q := (wp inv (le R) m Q).
Abbreviation wpt m := (wp inv (le R) m (fun _ _ => True)).
Implicit Types (w : World L) (a c p : nat) (n : OverlayInode) (ri : RealInode).

(** ** Making files *)

Lemma no_upper_wp w :
  inv w -> wpo no_upper (fun b w' => w' = w /\ (b = false -> is_Some w.(w_fs).(ov_upper_layer))) w.
Proof.
  intros HI. unfold no_upper. do 2 wp_step. subst. split; [done|]. intros Hb%bool_decide_eq_false.
  by apply not_eq_None_Some.
Qed.
#[local] Hint Resolve no_upper_wp : wp.

Lemma clear_whiteout_wp ctx ri name w : inv w -> made ri w -> wpt (clear_whiteout ctx ri name) w.
Proof. intros HI Hri. unfold clear_whiteout. wp_go. Qed.
#[local] Hint Resolve clear_whiteout_wp : wp.

Lemma replace_whiteout_wp {X} ctx a c name (make : RealInode -> wprog (RealInode * X)) w :
  inv w -> live a w -> live c w ->
  (forall ri w', inv w' -> made ri w' -> wpo (make ri) (fun r w'' => made r.1 w'') w') ->
  wpt (replace_whiteout ctx a c name make) w.
Proof.
  intros HI Ha Hc Hmake. apply handle_upper_inode_locked_wp; [done..| |by wp_go].
  intros ri Hri. wp_step. wp_step; [by wp_go|].
  eapply wp_bind; [typeclasses eauto|by apply Hmake|wp_intro]. wp_go.
Qed.

Lemma enter_node_wp a name n w :
  inv w -> live a w -> fresh_node n w -> n.(on_inode) <> ROOT_ID -> wpo (enter_node a name n) live w.
Proof.
  intros HI Ha [] Hino. unfold enter_node.
  apply (wp_bind _ _ _ _ (fun c w' => no_root c w' /\ (a < c)%nat)); [|wp_intro; by wp_go].
  apply (new_arc_wp R a); try done. split; congruence.
Qed.
#[local] Hint Resolve enter_node_wp : wp.

Lemma child_path (path name : bytes) : path ++ SLASH :: name <> [].
Proof. by destruct path. Qed.
#[local] Hint Resolve child_path : wp.

(** An inode that is to enter a directory. *)
Definition entering n w : Prop := fresh_node n w /\ n.(on_inode) <> ROOT_ID.

Lemma new_entering name ino path ri w :
  rok ri w -> ino <> ROOT_ID -> entering (new_from_real_inode name ino path ri) w.
Proof. split; [by apply new_from_real_inode_fresh|done]. Qed.
#[local] Hint Resolve new_entering : wp.

Lemma make_new_wp a name (make : RealInode -> wprog RealInode) w :
  inv w -> live a w ->
  (forall ri w', inv w' -> made ri w' -> wpo (make ri) made w') -> wpt (make_new a name make) w.
Proof.
  intros HI Ha Hmake. unfold make_new. wp_step. apply (wp_bind _ _ _ _ entering).
  - apply handle_upper_inode_locked_wp; [done..| |by wp_go]. intros ri Hri. wp_step.
    eapply wp_bind; [typeclasses eauto|by apply Hmake|wp_intro]. wp_go.
  - wp_intro. match goal with H : entering _ _ |- _ => destruct H end. wp_go.
Qed.

Lemma with_unit_wp (make : RealInode -> wprog RealInode) ri w :
  wpo (make ri) made w -> wpo (with_unit make ri) (fun r w' => made r.1 w') w.
Proof. intros Hm. unfold with_unit. eapply wp_bind; [typeclasses eauto|exact Hm|wp_intro]. by wp_step. Qed.

Lemma do_make_wp ctx a name (make : RealInode -> wprog RealInode) w :
  inv w -> live a w ->
  (forall ri w', inv w' -> made ri w' -> wpo (make ri) made w') -> wpt (do_make ctx a name make) w.
Proof.
  intros HI Ha Hmake. unfold do_make. do 2 wp_step. destruct a1 as [c|].
  - wp_step. wp_step; [by wp_go|]. wp_step. subst.
    eapply wp_bind; [typeclasses eauto|apply replace_whiteout_wp; [done..|]|wp_intro; by wp_go].
    intros. by apply with_unit_wp, Hmake.
  - wp_step. subst. by apply make_new_wp.
Qed.

Lemma do_mknod_wp ctx a name mode rdev umask w :
  inv w -> live a w -> wpt (do_mknod ctx a name mode rdev umask) w.
Proof.
  intros HI Ha. unfold do_mknod. wp_step. wp_step; [by wp_go|]. wp_step. wp_step; [by wp_go|].
  apply do_make_wp; [done..|]. intros. eauto with wp.
Qed.

Lemma do_symlink_wp ctx linkname a name w :
  inv w -> live a w -> wpt (do_symlink ctx linkname a name) w.
Proof.
  intros HI Ha. unfold do_symlink. wp_step. wp_step; [by wp_go|]. wp_step. wp_step; [by wp_go|].
  apply do_make_wp; [done..|]. intros. eauto with wp.
Qed.

Lemma do_mkdir_wp ctx a name mode umask w :
  inv w -> live a w -> wpt (do_mkdir ctx a name mode umask) w.
Proof.
  intros HI Ha. unfold do_mkdir. wp_step. wp_step; [by wp_go|]. wp_step. wp_step; [by wp_go|].
  wp_step. wp_step; [by wp_go|]. wp_step. wp_step. subst. wp_step. apply (wp_bind _ _ _ _ entering).
  - apply handle_upper_inode_locked_wp; [done..| |by wp_go]. intros ri Hri. wp_step; [by wp_go|].
    wp_step. wp_step. wp_step; [by wp_go|]. wp_go.
  - wp_intro. match goal with H : entering _ _ |- _ => destruct H end. wp_go.
Qed.

Lemma insert_real_handle_wp a rh w :
  inv w -> live a w -> (forall h, rh = Some h -> rhok h w) -> new_handle w.(w_fs).(ov_next_handle) (MkOvHandleData a rh) ->
  wpo (insert_real_handle a rh) (fun h w' => h = w.(w_fs).(ov_next_handle) /\ may_add h w') w.
Proof.
  intros HI Ha Hrh Hnew. unfold wp, insert_real_handle. cbn. split_and!;
    [|apply le_set_fs; [done..|]; intros h d; cbn; rewrite lookup_insert_Some; naive_solver
     |done|intros d; cbn; rewrite lookup_insert_eq; by intros [= <-]].
  apply inv_set_fs; [done..|apply (inv_store _ HI)|]. cbn.
  intros h d [[_ <-]|[_ Hd]]%lookup_insert_Some; [done|by apply (inv_handles _ HI) in Hd].
Qed.

Lemma do_create_wp ctx a name args w : inv w -> live a w -> wpo (do_create ctx a name args) may_add_some w.
Proof.
  intros HI Ha. unfold do_create. wp_step. subst. destruct (ov_upper_layer (w_fs w)) as [upper|] eqn:Hup; [|by wp_go].
  change (upper_is upper w) in Hup. wp_step. wp_step; [by wp_go|]. wp_step.
  apply (wp_bind _ _ _ _ (fun r w' => live r.1.1 w')).
  - destruct a1 as [c|].
    + wp_step. wp_step; [by wp_go|]. wp_step. subst.
      eapply wp_bind; [typeclasses eauto|apply replace_whiteout_wp; [done..|]|wp_intro; by wp_go].
      intros. eauto with wp.
    + wp_step. subst. wp_step. apply (wp_bind _ _ _ _ (fun r w' => entering r.1.1 w')).
      * apply handle_upper_inode_locked_wp; [done..| |by wp_go]. intros ri Hri. wp_step. wp_step; wp_go.
      * wp_intro. do 2 wp_step. match goal with H : entering _ _ |- _ => destruct H end. wp_go.
  - wp_intro. do 2 wp_step. wp_step; [|by wp_go]. wp_step. wp_step; [by wp_go|].
    eapply wp_bind; [typeclasses eauto|apply insert_real_handle_wp; [done..| |]|wp_intro].
    + by intros h [= <-].
    + apply new_handle_upper. by intros rh [= <-].
    + wp_step. by intros k [= <-].
Qed.

Lemma do_link_wp ctx a c name w : inv w -> live a w -> live c w -> wpt (do_link ctx a c name) w.
Proof.
  intros HI Ha Hc. unfold do_link. wp_step. wp_step; [by wp_go|]. do 2 wp_step. wp_step; [by wp_go|].
  wp_step. wp_step; [by wp_go|]. wp_step. subst. wp_step. subst. do 4 wp_step.
  match goal with H : match ?r with Some _ => _ | None => True end |- _ => destruct r as [d|] end.
  - wp_step. wp_step; [by wp_go|].
    eapply wp_bind; [typeclasses eauto|apply replace_whiteout_wp; [done..|]|wp_intro; by wp_go].
    intros. apply with_unit_wp. eauto with wp.
  - apply make_new_wp; [done..|]. intros. eauto with wp.
Qed.

(** ** Removing files *)

(** Removing makes no nodes: the addresses stay below a bound. *)
Definition bounded (W : nat) w : Prop := (w.(w_next) <= W)%nat.
Definition same_next : relation (World L) := fun w w' => w'.(w_next) = w.(w_next).

#[local] Instance same_next_preorder : PreOrder same_next.
Proof. split; [done|]. unfold same_next. intros ? ? ? -> ->. done. Qed.

Lemma wp_bounded {A} W (m : wprog A) Q w :
  wpo m Q w -> pres same_next m -> bounded W w -> wpo m (fun x w' => Q x w' /\ bounded W w') w.
Proof.
  intros Hm Hn HW. specialize (Hn w). unfold wp, bounded, same_next in *. destruct (m w) as [w' [x|e|]]; cbn in *;
    destruct Hm as (? & ? & ?); split_and!; try done. lia.
Qed.

Lemma on_layer_next {A} i (m : prog L io_error A) : pres same_next (on_layer i m).
Proof. intros w. unfold on_layer. destruct (_ !! _); [|done]. by destruct (m l). Qed.

Lemma get_node_next a : pres same_next (get_node (L := L) a).
Proof. intros w. unfold get_node, gets, mbind, prog_mbind, prog_bind. cbn. by destruct (w.(w_nodes) !! a). Qed.

Lemma update_node_next a f : pres same_next (update_node (L := L) a f).
Proof. by intros w. Qed.

Lemma remove_inode_next ino path : pres same_next (remove_inode (L := L) ino path).
Proof. intros w. unfold remove_inode. by destruct (store_remove_inode _ _ _ _). Qed.
Create HintDb next discriminated.
#[local] Hint Resolve on_layer_next get_node_next update_node_next remove_inode_next pres_lift pres_catch : next.

Ltac next := repeat first [ progress intros | apply pres_bind; [typeclasses eauto|..] | apply pres_catch | case_match
  | apply pres_mret; typeclasses eauto | apply pres_fail; typeclasses eauto | progress auto with next typeclass_instances ].

Lemma first_stat64_next ctx l : pres same_next (first_stat64 ctx l).
Proof. induction l; cbn; unfold stat64_ignore_enoent, ri_stat64; next. Qed.

Lemma ovi_stat64_next ctx a : pres same_next (ovi_stat64 ctx a).
Proof. unfold ovi_stat64. next. apply first_stat64_next. Qed.

Lemma get_nodes_next l : pres same_next (get_nodes (L := L) l).
Proof. induction l; cbn; next. Qed.
#[local] Hint Resolve first_stat64_next ovi_stat64_next get_nodes_next : next.

Lemma count_next ctx a : pres same_next (count_entries_and_whiteout ctx a).
Proof. unfold count_entries_and_whiteout. next. Qed.
#[local] Hint Resolve count_next : next.

Ltac next_last := eapply wp_mono; [eapply wp_bounded; [wp_prim|auto with next|eassumption]|wp_intro; eassumption].
Ltac next_step := eapply wp_bind; [typeclasses eauto|eapply wp_bounded; [wp_prim|auto with next|eassumption]|wp_intro].

Lemma kids_above a n w c :
  inv w -> node_facts a n w -> c ∈ values n.(on_childrens) -> (a < c < w.(w_next))%nat /\ no_root c w.
Proof.
  intros HI Hn ([name c'] & -> & Hc%elem_of_map_to_list)%list_elem_of_fmap.
  destruct (inv_nodes _ HI a n (nf_node _ _ _ Hn)) as [_ _ _ _ Hkids _].
  destruct (Hkids name c' Hc) as [? Hr]. split; [split; [done|]|done]. by apply live_next, no_root_live.
Qed.

Lemma no_root_inode a n w : node_facts a n w -> no_root a w -> n.(on_inode) <> ROOT_ID.
Proof. intros Hn (m & Hm & ?). rewrite (nf_node _ _ _ Hn) in Hm. by simplify_eq. Qed.

Lemma empty_node_directory_at_wp W fuel ctx a w :
  inv w -> live a w -> bounded W w -> (W - a < fuel)%nat ->
  wpo (empty_node_directory_at fuel ctx a) (fun _ w' => bounded W w') w.
Proof.
  revert a w. induction fuel as [|fuel IH]; intros a w HI Ha HW Hf; [lia|]. cbn [empty_node_directory_at].
  next_step. wp_step; [by wp_step|]. wp_step. do 3 wp_step. wp_step; [by wp_step|].
  destruct b; [|done]. clear Heqb0. match goal with H : placed true n s' |- _ => change (upper_is n s') in H end.
  assert (Hl : kids (values a1.(on_childrens)) s' /\ Forall (fun c => a < c < W)%nat (values a1.(on_childrens))).
  { split; [by eapply nf_kids|]. apply Forall_forall. intros c Hc. eapply kids_above in Hc as [? _]; [|done..].
    unfold bounded in *. lia. }
  revert Hl. match goal with H : node_facts a _ _ |- _ => clear H end. generalize (values a1.(on_childrens)).
  intros l [Hkids Hl]. match goal with H1 : inv s', H2 : bounded W s' |- _ => revert H1 H2 end.
  clear HW HI. generalize dependent s'.
  induction l as [|c l IHl]; intros s' Ha Hup Hkids HI HW; cbn [foldr]; [by wp_step|].
  apply Forall_cons in Hl as [Hc Hl]. apply Forall_cons in Hkids as [Hr Hkids].
  change (kids l s') in Hkids. change (no_root c s') in Hr. specialize (IHl Hl).
  wp_step. match goal with H : node_facts c _ _ |- _ => pose proof (no_root_inode _ _ _ H Hr) end.
  eapply (wp_bind _ _ _ _ (fun _ w' => bounded W w')); [|wp_intro; by apply IHl].
  wp_step; [|by wp_step]. eapply (wp_bind _ _ _ _ (fun _ w' => bounded W w')).
  - wp_step; [wp_step; next_last|]. next_step. wp_step. wp_step; [|next_last]. next_step.
    eapply (wp_bind _ _ _ _ (fun _ w' => bounded W w')); [|wp_intro; next_last].
    wp_step; [|by wp_step]. apply IH; [done|eauto with wp|done|lia].
  - wp_intro. next_step. next_last.
Qed.

Lemma empty_node_directory_wp ctx a w : inv w -> live a w -> wpt (empty_node_directory ctx a) w.
Proof.
  intros HI Ha. eapply wp_mono; [apply (empty_node_directory_at_wp w.(w_next)); [done|done|apply Nat.le_refl|lia]|done].
Qed.
#[local] Hint Resolve empty_node_directory_wp : wp.

(** What replaces a malformed character is not ASCII. *)
Lemma lossy_ascii f l : (length l <= f)%nat -> Forall (fun b => b < 128) (lossy f l) -> lossy f l = l.
Proof.
  revert l. induction f as [|f IH]; intros [|b l] Hf; cbn in *; try done; [lia|].
  destruct (Z.ltb_spec b 128) as [Hb|Hb].
  - intros [_ Hl]%Forall_cons. f_equal. apply IH; [lia|done].
  - intros Hl. exfalso. revert Hl. unfold REPLACEMENT.
    repeat case_match; cbn; intros [? _]%Forall_cons; lia.
Qed.

Lemma dot_name_lossy name : dot_name (from_utf8_lossy name) = true -> dot_name name = true.
Proof.
  intros H. assert (E : from_utf8_lossy name = name); [|by rewrite E in H].
  apply lossy_ascii; [done|]. fold (from_utf8_lossy name). unfold dot_name in H.
  rewrite !orb_true_iff, !beq_spec in H. destruct H as [[->| ->]| ->]; by repeat constructor.
Qed.

(** The root cannot be removed: it is in the upper layer, and its names are
    refused there. *)
Lemma unlink_node_wp ctx a c name sname dir w :
  inv w -> upper_node a w -> live c w -> is_Some w.(w_fs).(ov_upper_layer) ->
  (no_root c w \/ dot_name name = true) -> wpt (unlink_node ctx a c name sname dir) w.
Proof.
  intros HI Ha Hc Hup Hname. unfold unlink_node. wp_step.
  match goal with H : node_facts c ?m _ |- _ => rename m into n, H into Hn end.
  apply (wp_bind _ _ _ _ (fun _ _ => n.(on_inode) <> ROOT_ID)).
  - destruct (decide (n.(on_inode) = ROOT_ID)) as [Hroot|Hroot].
    + rewrite (no_top _ _ _ (inv_nodes _ HI _ _ (nf_node _ _ _ Hn)) Hroot Hup).
      destruct Hname as [Hnr|Hdot]; [by eapply no_root_inode in Hnr|].
      apply handle_upper_inode_locked_wp; [first [done|by apply upper_node_live]..| |by wp_go]. intros ri Hri.
      eapply wp_bind; [typeclasses eauto|eapply wp_on_layer_ran; [typeclasses eauto|done|by apply made_upper_is|]|].
      { apply fs_op_no_panic. }
      intros [] w' _ _ (l & l' & Hl). exfalso. destruct (lo_dots ctx ri.(ri_inode) name l Hdot) as [Hu Hd].
      destruct dir; [rewrite Hl in Hd|rewrite Hl in Hu]; done.
    + wp_step; [|by wp_step]. apply handle_upper_inode_locked_wp; [first [done|by apply upper_node_live]..| |by wp_go].
      intros ri Hri. wp_go.
  - wp_intro. do 3 wp_step. wp_step; [|by wp_step]. wp_step.
    eapply (wp_bind _ _ _ _ (fun _ _ => True)); [|by wp_go].
    apply handle_upper_inode_locked_wp; [first [done|by apply upper_node_live]..| |by wp_go].
    intros ri Hri. wp_step. wp_step; [by wp_go|]. wp_go.
Qed.

Lemma do_rm_wp ctx parent name dir w : inv w -> wpt (do_rm ctx parent name dir) w.
Proof.
  intros HI. unfold do_rm. wp_step. wp_step; [by wp_go|].
  match goal with H : _ -> is_Some _ |- _ => destruct (H eq_refl) as [u Hu]; change (upper_is u w) in Hu; clear H end.
  do 2 wp_step. wp_step; [by wp_go|]. eapply wp_bind; [typeclasses eauto|by apply lookup_node_wp|wp_intro].
  match goal with H : live ?x _, H' : _ -> no_root ?x _ |- _ => rename x into c, H' into Hc end.
  assert (Hname : no_root c s'0 \/ dot_name name = true).
  { destruct (dot_name (from_utf8_lossy name)) eqn:Hd; [right; by apply dot_name_lossy|left; by apply Hc]. }
  clear Hc. destruct Hname; wp_step; (wp_step; [by wp_go|]).
  all: wp_step; [wp_step; [|by wp_go]; wp_step; wp_step; wp_step; by wp_go|wp_step; subst; apply unlink_node_wp; auto].
  all: by exists u.
Qed.
End make.

#[export] Hint Resolve no_upper_wp do_mknod_wp do_symlink_wp do_mkdir_wp do_create_wp do_link_wp do_rm_wp : wp.
