(* ===== verification/OverlaySafeSync.v ===== *)
(** * The overlay file system keeps its invariant: requests

    Every request keeps [inv] and the lower layers.  Only a WRITE can break the
    latter, through a handle that leads to a lower layer: [may_write] excludes
    it.  Such handles come from an OPEN for reading and from nothing else: what
    an OPEN for writing and a CREATE return leads to the upper layer. *)

From stdpp Require Import list gmap.
From S2P Require Import Prelude Std Abi AbiStruct FsTypes FileSystem Vfs ProgLogic Host Layer OverlayStore Overlay.
From S2P Require Import OverlayOps OverlaySync OverlayLaws OverlayLogic OverlaySafe OverlaySafeOps OverlaySafeMake.

Section sync.
Context {L : Type} `{FS : FileSystem L} `{LAYER : !Layer L} (R : relation L) `{RK : !ReadsKeep R} `{LO : !LayerOk L} {HRULE : HandleRule}.

Abbreviation wprog A := (prog (World L) io_error A).
Abbreviation wpo m Q := (wp inv (le R) m Q).
Abbreviation wpt m := (wp inv (le R) m (fun _ _ => True)).
Implicit Types (w : World L) (a c p : nat) (n : OverlayInode) (ri : RealInode).

(** ** Flags *)

Lemma land_low k x m : 0 <= k -> 0 <= m < 2 ^ k -> Z.land (x mod 2 ^ k) m = Z.land x m.
Proof.
  intros Hk Hm. rewrite <- Z.land_ones by done. rewrite <- Z.land_assoc. f_equal.
  rewrite Z.land_comm, Z.land_ones by done. by apply Z.mod_small.
Qed.

#[local] Abbreviation m_readonly := (Z.lor O_APPEND (Z.lor O_CREAT (Z.lor O_TRUNC (Z.lor O_RDWR O_WRONLY)))).

Lemma readonly_low x y : x mod 2 ^ 32 = y mod 2 ^ 32 -> readonly x = readonly y.
Proof.
  intros E. unfold readonly. set (m := Z.lor O_APPEND _).
  by rewrite <- (land_low 32 x m), <- (land_low 32 y m), E.
Qed.

(** A file that is opened for reading is opened for reading in its layer. *)
Lemma readonly_layer_flags writeback flags :
  readonly flags = true -> readonly (wrap 32 (writeback_flags writeback (Z.lor (signed 32 flags) O_NOFOLLOW))) = true.
Proof.
  intros Hf. set (x := Z.lor (signed 32 flags) O_NOFOLLOW).
  assert (Hx : readonly x = true).
  { unfold x, readonly in *. set (m := Z.lor O_APPEND _) in *. rewrite Z.land_lor_distr_l.
    replace (Z.land O_NOFOLLOW m) with 0 by done. rewrite Z.lor_0_r.
    rewrite <- Hf. f_equal. rewrite <- (land_low 32 (signed 32 flags)), <- (land_low 32 flags) by done. f_equal.
    unfold signed, wrap. set (u := flags mod 2 ^ 32).
    destruct (u <? 2 ^ (32 - 1)); [by apply Z.mod_mod|].
    replace (u - 2 ^ 32) with (u + -1 * 2 ^ 32) by lia. rewrite Z.mod_add by done. by apply Z.mod_mod. }
  rewrite (readonly_low _ (writeback_flags writeback x)) by by apply Z.mod_mod.
  assert (Hbits : forall k, Z.land m_readonly k = k -> Z.land x k = 0).
  { intros k Hk. unfold readonly in Hx. apply Z.eqb_eq in Hx.
    by rewrite <- Hk, Z.land_assoc, Hx. }
  unfold writeback_flags. destruct writeback; [|done].
  rewrite (Hbits O_ACCMODE) by done. cbn [Z.eqb O_WRONLY]. by rewrite (Hbits O_APPEND).
Qed.

(** ** Handles *)

Lemma handle_rhok w h d rh :
  inv w -> w.(w_fs).(ov_handles) !! h = Some d -> d.(oh_real_handle) = Some rh -> rhok rh w.
Proof. intros HI Hd Hrh. destruct (inv_handles _ HI h d Hd) as [_ Hr]. by apply Hr. Qed.

Lemma find_real_info_wp handle w :
  inv w -> wpo (find_real_info_from_handle handle) (fun r w' => w' = w /\ exists b, placed b r.1.1 w) w.
Proof.
  intros HI. unfold find_real_info_from_handle. wp_step. subst. wp_step; [|by wp_step]. wp_step; [|by wp_step].
  wp_step. split; [done|]. eexists. by eapply handle_rhok.
Qed.

Lemma find_real_inode_wp inode w :
  inv w -> wpo (find_real_inode inode) (fun r w' => w' = w /\ exists b, placed b r.1 w) w.
Proof.
  intros HI. unfold find_real_inode. wp_step. destruct a as [a|]; [|by wp_step]. do 4 wp_step. wp_step. split; [done|].
  by eexists.
Qed.

Lemma upper_facts a n w : upper_node a w -> node_facts a n w -> in_upper_layer n = true.
Proof. intros (m & Hm & Hu) Hn. rewrite (nf_node _ _ _ Hn) in Hm. by simplify_eq. Qed.

(** What a handle leads to; for writing it leads to the upper layer. *)
Definition may_write (handle flags : Z) w : Prop :=
  if w.(w_fs).(ov_no_open) then readonly flags = false
  else forall d, w.(w_fs).(ov_handles) !! handle = Some d -> upper_handle d.

Lemma ov_get_data_wp ctx handle inode flags w :
  inv w ->
  wpo (ov_get_data ctx (Some handle) inode flags)
    (fun d w' => forall rh, d.(oh_real_handle) = Some rh ->
       rhok rh w' /\ (may_write handle flags w -> rh.(rh_in_upper_layer) = true)) w.
Proof.
  intros HI. unfold ov_get_data, may_write. wp_step. subst. wp_step.
  - destruct (ov_no_open _); [done|]. cbn [mbind option_bind].
    destruct (ov_handles (w_fs w) !! handle) as [v|] eqn:Hv; [|by wp_step].
    assert (live v.(oh_node) w) by by destruct (inv_handles _ HI _ _ Hv).
    wp_step. wp_step; [|by wp_step]. wp_step. intros rh Hrh. split; [by eapply handle_rhok|].
    intros Hmay. by apply (Hmay v eq_refl).
  - destruct (ov_no_open _); [|done]. do 2 wp_step. wp_step; [by wp_go|].
    destruct (readonly flags); cbn [negb]; cbv iota.
    + apply (wp_bind _ _ _ _ (fun _ _ => True)); [by wp_step|wp_intro]. do 4 wp_step. wp_step. intros rh [= <-]. by split.
    + apply (wp_bind _ _ _ _ (fun _ w' => upper_node a w')).
      { wp_step. wp_step; [by wp_step|]. wp_go. }
      wp_intro. do 4 wp_step. wp_step. intros rh [= <-]. split; [done|]. intros _. cbn. subst.
      by eapply upper_facts.
Qed.
#[local] Hint Resolve ov_get_data_wp : wp.

Lemma do_fsync_wp ctx inode datasync handle syncdir w : inv w -> wpt (do_fsync ctx inode datasync handle syncdir) w.
Proof.
  intros HI. unfold do_fsync. wp_step. destruct a.(oh_real_handle) as [rh|]; [|by wp_go].
  match goal with H : forall _, _ |- _ => destruct (H rh eq_refl) as [Hrh _] end. destruct syncdir; wp_go.
Qed.

Lemma ov_fallocate_wp ctx inode handle mode offset length w :
  inv w -> wpt (ov_fallocate ctx inode handle mode offset length) w.
Proof.
  intros HI. unfold ov_fallocate. wp_step. destruct a.(oh_real_handle) as [rh|]; [|by wp_go].
  match goal with H : forall _, _ |- _ => destruct (H rh eq_refl) as [Hrh _] end.
  wp_step; [by wp_go|]. destruct rh.(rh_in_upper_layer) eqn:Hu; [|done]. unfold rhok in Hrh. rewrite Hu in Hrh.
  change (upper_is rh.(rh_layer) s') in Hrh. wp_go.
Qed.

Lemma ov_write_wp ctx inode handle data size offset lock_owner delayed flags fuse_flags w :
  inv w -> (may_write handle flags w \/ forall l l', R l l') ->
  wpt (ov_write ctx inode handle data size offset lock_owner delayed flags fuse_flags) w.
Proof.
  intros HI Hmay. unfold ov_write. wp_step. destruct a.(oh_real_handle) as [rh|]; [|by wp_go].
  match goal with H : forall _, _ |- _ => destruct (H rh eq_refl) as [Hrh Hw] end.
  eapply wp_on_layer; [typeclasses eauto|done|exact Hrh|apply fs_write_no_panic|]. intros Hb l.
  destruct Hmay as [Hmay|HR]; [|apply HR]. by rewrite Hw in Hb.
Qed.

Lemma ov_read_wp ctx inode handle available size offset lock_owner flags w :
  inv w ->
  let '(w', (data, res)) := ov_read ctx inode handle available size offset lock_owner flags w in
  inv w' /\ le R w w' /\ (0 <= available -> zlen data <= available /\
  match res with Ok n => n = zlen data | Err _ => True | Panic => False end).
Proof.
  intros HI. pose proof (ov_get_data_wp ctx handle inode flags w HI) as Hd. unfold wp, ov_read in *.
  destruct (ov_get_data ctx (Some handle) inode flags w) as [w' [d|e|]]; cbn in Hd; destruct Hd as (HI' & Hle & Hd);
    [|done..].
  destruct d.(oh_real_handle) as [rh|]; [|done]. destruct (Hd rh eq_refl) as [Hrh _].
  pose proof (placed_lt w' _ _ HI' Hrh) as Hlt. destruct (lookup_lt_is_Some_2 _ _ Hlt) as [l Hl]. rewrite Hl.
  pose proof (fs_read_ok ctx rh.(rh_inode) rh.(rh_handle) available size offset lock_owner flags l) as Hok.
  pose proof (rk_read (R := R) ctx rh.(rh_inode) rh.(rh_handle) available size offset lock_owner flags l) as HR.
  destruct (fs_read _ _ _ _ _ _ _ _ l) as [l' [data res]]. split_and!; [..|exact Hok].
  - by apply inv_set_layers; [apply length_insert|].
  - etrans; [exact Hle|]. by eapply layer_le.
Qed.


(** ** The calls of a file system *)

Lemma live_node_wp ctx inode name w : inv w -> wpo (live_node ctx inode name) live w.
Proof. intros HI. unfold live_node. wp_go. Qed.
#[local] Hint Resolve live_node_wp : wp.

Lemma ov_opendir_wp ctx inode w : inv w -> wpt (ov_opendir ctx inode) w.
Proof.
  intros HI. unfold ov_opendir. wp_step. wp_step; [by wp_go|]. do 2 wp_step. wp_step; [by wp_go|].
  eapply wp_bind; [typeclasses eauto|apply insert_real_handle_wp; [done..|by apply new_handle_upper]|wp_intro]. wp_go.
Qed.

Lemma remove_handle_wp handle w : inv w -> wpt (remove_handle handle) w.
Proof.
  intros HI. unfold wp, remove_handle, modify. cbn. split_and!;
    [|apply le_set_fs; [done..|]; intros ? ?; cbn; rewrite lookup_delete_Some; naive_solver|done]. apply inv_set_fs; [done..|apply (inv_store _ HI)|].
  cbn. intros h d [_ Hd]%lookup_delete_Some. by apply (inv_handles _ HI) in Hd.
Qed.
#[local] Hint Resolve remove_handle_wp : wp.

Lemma ovi_open_wp ctx a flags fuse_flags w :
  inv w -> live a w -> upper_node a w \/ readonly flags = true -> wpt (ovi_open ctx a flags fuse_flags) w.
Proof.
  intros HI Ha Hopen. unfold ovi_open. do 4 wp_step.
  eapply wp_bind; [typeclasses eauto|eapply wp_on_layer; [typeclasses eauto|done|eassumption|apply fs_op_no_panic|]|].
  - intros ->. destruct Hopen as [Hu|Hr]; [|by apply rk_op].
    match goal with H : node_facts a _ _ |- _ => eapply upper_facts in H; [congruence|done] end.
  - wp_intro. wp_go.
Qed.

Lemma ov_open_wp ctx inode flags fuse_flags w :
  inv w -> (readonly flags = true -> forall h d, new_handle h d) ->
  wpo (ov_open ctx inode flags fuse_flags) (fun r w' => may_add_some r.1.1 w') w.
Proof.
  intros HI Hany. unfold ov_open. wp_step. wp_step; [by wp_go|]. wp_step.
  set (layer_flags := wrap 32 _).
  apply (wp_bind _ _ _ _ (fun _ w' => upper_node a0 w' \/ (readonly layer_flags = true /\ readonly flags = true))).
  { destruct (readonly flags) eqn:Hf; cbn [negb]; cbv iota; [|wp_step; by wp_step; left].
    wp_step. right. split; [by apply readonly_layer_flags|done]. }
  intros [] w' HI' Hle Hopen. wp_norm.
  assert (upper_node a0 w' \/ readonly layer_flags = true) by naive_solver.
  destruct Hopen as [Hup|[_ Hro]]; (eapply wp_bind; [typeclasses eauto|by apply ovi_open_wp|wp_intro]);
    (wp_step; [|by wp_go]); do 4 wp_step;
    (eapply wp_bind; [typeclasses eauto|apply insert_real_handle_wp; [done..|by intros rh [= <-]|]
      |wp_intro; wp_step; by intros k [= <-]]).
  - apply new_handle_upper. intros rh [= <-]. cbn. subst. by eapply upper_facts.
  - by apply Hany.
Qed.

Lemma ov_release_wp ctx flags handle flush flock_release lock_owner w :
  inv w -> wpt (ov_release ctx flags handle flush flock_release lock_owner) w.
Proof.
  intros HI. unfold ov_release. wp_step. subst. wp_step; [by wp_go|].
  destruct (ov_handles (w_fs w) !! handle) as [d|] eqn:Hd; [|by wp_go].
  destruct d.(oh_real_handle) as [rh|] eqn:Hrh; [|by wp_go]. pose proof (handle_rhok w handle d rh HI Hd Hrh). wp_go.
Qed.

Lemma real_handle_of_wp handle w :
  inv w -> wpo (real_handle_of handle)
    (fun r w' => w' = w /\ match r with Some rh => rhok rh w | None => True end) w.
Proof.
  intros HI. unfold real_handle_of. do 2 wp_step. subst. split; [done|]. destruct (negb _); [|done].
  destruct handle as [h|]; cbn; [|done]. destruct (ov_handles (w_fs w) !! h) as [d|] eqn:Hd; cbn; [|done].
  destruct (oh_real_handle d) eqn:Hrh; [|done]. by eapply handle_rhok.
Qed.
#[local] Hint Resolve real_handle_of_wp : wp.

Lemma ov_getattr_wp ctx inode handle w : inv w -> wpt (ov_getattr ctx inode handle) w.
Proof. intros HI. unfold ov_getattr. do 2 wp_step. destruct a0; wp_go. Qed.

Lemma upper_inode_of_wp ctx a w :
  inv w -> live a w -> wpo (upper_inode_of ctx a) (fun r w' => upper_is r.1 w') w.
Proof.
  intros HI Ha. unfold upper_inode_of. wp_step.
  apply (wp_bind _ _ _ _ (fun _ w' => upper_node a w')).
  { wp_step; [by wp_go|]. wp_step. eapply nf_upper; [done|]. by destruct (in_upper_layer _). }
  wp_intro. do 4 wp_step. wp_step.
  match goal with H : upper_node a ?v, H' : node_facts a _ ?v |- _ => pose proof (upper_facts _ _ _ H H') end. subst.
  match goal with H : placed (in_upper_layer ?n) _ _, E : in_upper_layer ?n = true |- _ => by rewrite E in H end.
Qed.
#[local] Hint Resolve upper_inode_of_wp : wp.

Lemma ov_setattr_wp ctx inode attr handle valid w : inv w -> wpt (ov_setattr ctx inode attr handle valid) w.
Proof.
  intros HI. unfold ov_setattr. wp_step. wp_step; [by wp_go|]. do 2 wp_step.
  match goal with H : match ?r with Some _ => _ | None => True end |- _ =>
    destruct r as [[layer [] real_inode h]|]; [|wp_go..] end.
  match goal with H : rhok _ _ |- _ => change (upper_is layer w) in H end. wp_go.
Qed.

Lemma ov_flush_wp ctx inode handle lock_owner w : inv w -> wpt (ov_flush ctx inode handle lock_owner) w.
Proof.
  intros HI. unfold ov_flush. wp_step. wp_step; [by wp_go|]. wp_step.
  eapply wp_bind; [typeclasses eauto|by apply find_real_info_wp|wp_intro].
  match goal with H : exists _, _ |- _ => destruct H end. wp_go.
Qed.

Lemma ov_lseek_wp ctx inode handle offset whence w : inv w -> wpt (ov_lseek ctx inode handle offset whence) w.
Proof.
  intros HI. unfold ov_lseek. do 2 wp_step. wp_step; [by wp_go|].
  eapply wp_bind; [typeclasses eauto|by apply find_real_info_wp|wp_intro].
  match goal with H : exists _, _ |- _ => destruct H end. wp_go.
Qed.

(** A call that only reads, on the first real inode. *)
Lemma on_real_inode_wp {A : Set} ctx inode (op : Z -> FsOp A) w :
  inv w -> (forall i, reads (op i) = true) ->
  wpt (_ ← live_node ctx inode []; r ← find_real_inode inode; on_layer r.1 (fs_op (op r.2))) w.
Proof.
  intros HI Hop. wp_step. eapply wp_bind; [typeclasses eauto|by apply find_real_inode_wp|wp_intro].
  match goal with H : exists _, _ |- _ => destruct H end. eapply wp_read_op; eauto with wp typeclass_instances.
Qed.


(** ** Mounting *)

Lemma RealInode_new_wp layer b inode whiteout opaque w :
  inv w -> placed b layer w ->
  wpo (RealInode_new layer b inode whiteout opaque) (fun ri w' => rok ri w' /\ ri.(ri_in_upper_layer) = b) w.
Proof.
  intros HI Hi. unfold RealInode_new. set (ri := MkRealInode layer b inode whiteout opaque None).
  assert (Hri : rok ri w) by done. wp_step. match goal with H : rok ri ?v |- _ => change (placed b layer v) in H end.
  wp_go.
Qed.
#[local] Hint Resolve RealInode_new_wp : wp.

Lemma root_inode_np b layer w :
  inv w -> placed b layer w -> unwrap (layer_root_inode <$> w.(w_layers) !! layer) <> (Panic : io_result Z).
Proof.
  intros HI Hi. pose proof (placed_lt w b layer HI Hi) as Hlt. by destruct (lookup_lt_is_Some_2 _ _ Hlt) as [l ->].
Qed.
#[local] Hint Resolve root_inode_np : wp.

Lemma layer_opaque_wp ctx b layer inode w :
  inv w -> placed b layer w -> wpt (on_layer layer (layer_is_opaque ctx inode)) w.
Proof. intros HI Hi. by apply (is_opaque_wp R ctx (MkRealInode layer b 0 false false None)). Qed.
#[local] Hint Resolve layer_opaque_wp : wp.

Definition all_lower (l : list nat) w : Prop := Forall (fun i => placed false i w) l.
#[local] Instance all_lower_stable l : Stable R (all_lower l).
Proof. intros w w' Hle Hl. eapply Forall_impl; [exact Hl|]. intros i. by apply (placed_stable R). Qed.

Lemma import_lowers_wp ctx l acc w :
  inv w -> all_lower l w -> roks acc w ->
  wpo (import_lowers ctx l acc) (fun r w' => roks r w' /\ exists k, r = acc ++ k /\ length k = length l) w.
Proof.
  revert acc w. induction l as [|i l IH]; intros acc w HI Hl Hacc; cbn [import_lowers].
  { wp_step. split; [done|]. exists []. by rewrite app_nil_r. }
  apply Forall_cons in Hl as [Hi Hl]. change (all_lower l w) in Hl.
  wp_step. subst. wp_step. wp_step; [by wp_go|]. wp_step.
  eapply wp_mono; [apply IH; [done..|auto with wp]|].
  intros r w2 _ _ [Hr (k & -> & Hk)]. split; [done|]. eexists (_ :: k). rewrite <- app_assoc. split; [done|]. cbn. lia.
Qed.

Lemma import_upper_wp ctx upper w :
  inv w -> (forall u, upper = Some u -> upper_is u w) ->
  wpo (import_upper ctx upper)
    (fun r w' => roks r w' /\ match upper with
       | Some _ => exists ri, r = [ri] /\ ri.(ri_in_upper_layer) = true
       | None => r = [] end) w.
Proof.
  intros HI Hu. unfold import_upper. destruct upper as [u|]; [|wp_step; split; [apply roks_nil|done]].
  specialize (Hu u eq_refl). change (placed true u w) in Hu.
  wp_step. subst. do 3 wp_step. wp_step.
  split; [auto with wp|by eexists].
Qed.

(** The root enters the heap and the tables. *)
Lemma enter_root_wp {A} n (k : nat -> wprog A) Q w :
  inv w -> new_ok n w -> n.(on_path) = [] ->
  (forall a w', inv w' -> le R w w' -> live a w' -> wpo (k a) Q w') ->
  wpo (a ← new_arc n; _ ← insert_inode ROOT_ID a; k a) Q w.
Proof.
  intros HI Hn Hp Hk. set (w1 := (new_arc n w).1). set (a := w.(w_next)).
  set (w2 := set_fs w1 (set_ov_inodes w1.(w_fs) (store_insert_inode ROOT_ID [] a w1.(w_fs).(ov_inodes)))).
  pose proof (new_arc_le R n w HI) as Hle. fold w1 in Hle.
  assert (Hle2 : le R w w2) by (transitivity w1; [exact Hle|apply le_set_fs; auto]).
  assert (Ha : live a w2) by (exists n; apply lookup_insert_eq).
  assert (HI2 : inv w2).
  { pose proof (fun b m => new_arc_nodes R n w b m HI Hn) as Hnodes. fold w1 in Hnodes.
    pose proof (fun b => live_stable R b w w1 Hle) as Hl.
    destruct HI as [? H1 H2 H3 [K1 K2 K3 K4 K5] H5]. split; cbn; try done.
    - intros b m Hm. by destruct (Hnodes b m Hm).
    - split; cbn; try done.
      + intros i b [[_ <-]|[_ Hb]]%lookup_insert_Some; [done|by apply Hl; eauto].
      + intros i b Hb. apply Hl. eauto.
      + intros b _. rewrite lookup_insert_eq. done.
      + intros path [[<- _]|[_ Hb]]%lookup_insert_Some; eauto.
    - intros h d Hd. destruct (H5 h d Hd). split; [by apply Hl|done]. }
  specialize (Hk a w2 HI2 Hle2 Ha). unfold wp in *.
  assert (E : (a ← new_arc n; _ ← insert_inode ROOT_ID a; k a) w = k a w2).
  { unfold insert_inode, get_node, new_arc. unfold mbind, prog_mbind, prog_bind. cbn.
    rewrite lookup_insert_eq. cbn. by rewrite Hp. }
  rewrite E. destruct Hk as (? & ? & ?). split_and!; [done|by etrans|done].
Qed.

Lemma ov_import_wp w : inv w -> wpt ov_import w.
Proof.
  intros HI. unfold ov_import. wp_step. subst.
  assert (Hlow : all_lower w.(w_fs).(ov_lower_layers) w) by by apply Forall_forall.
  eapply wp_bind; [typeclasses eauto|by apply import_upper_wp|]. intros r w1 HI1 Hle1 [Hr Hshape].
  assert (Hfz := fz_upper _ _ _ (le_frozen _ _ _ Hle1)). apply (stable_at R _ _ _ Hle1) in Hlow.
  eapply wp_bind; [typeclasses eauto|by apply import_lowers_wp|]. intros r' w2 HI2 Hle2 [Hr' (k & -> & Hk)].
  assert (Hfz2 := fz_upper _ _ _ (le_frozen _ _ _ Hle2)).
  apply enter_root_wp; [done| |done|intros; by apply load_directory_wp].
  split; cbn; try done.
  - destruct (inv_any _ HI) as [[u Hu]|Hl]; [rewrite Hu in Hshape; by destruct Hshape as (ri & -> & _)|].
    intros [_ ->]%app_nil. cbn in Hk. by destruct (ov_lower_layers (w_fs w)).
  - intros _ [u Hu]. rewrite Hfz2, Hfz in Hu. rewrite Hu in Hshape. destruct Hshape as (ri & -> & Hup).
    unfold in_upper_layer. cbn. done.
Qed.

Lemma ov_init_wp capable w : inv w -> wpt (ov_init capable) w.
Proof.
  intros HI. unfold ov_init. wp_step. wp_step; [wp_step; [by apply ov_import_wp|by wp_step]|].
  eapply (wp_bind _ _ _ _ (fun _ _ => True)); [|wp_intro; by wp_step].
  match goal with H : inv ?v |- wp _ _ _ _ ?v =>
    unfold wp, modify; cbn; split_and!; [|apply le_set_fs; auto|done];
    apply inv_set_fs; [done..|exact (inv_store _ H)|exact (inv_handles _ H)] end.
Qed.

Lemma ov_batch_forget_wp requests w : inv w -> wpt (ov_batch_forget requests) w.
Proof. revert w. induction requests as [|[inode count] l IH]; intros w HI; cbn; wp_go. Qed.

#[local] Hint Resolve ov_init_wp ov_batch_forget_wp ov_getattr_wp ov_setattr_wp ov_flush_wp do_fsync_wp
  ov_fallocate_wp ov_release_wp ov_opendir_wp ov_lseek_wp : wp.

(** The handle a request returned for writing, and OPEN for reading. *)
Definition write_handle {A : Set} (op : FsOp A) : A -> option Z :=
  match op in FsOp B return B -> option Z with
  | op_open ctx inode flags fuse_flags => fun r => if readonly flags then None else r.1.1
  | op_create ctx parent name args => fun r => r.1.1.2
  | _ => fun _ => None
  end.

Definition opens_readonly {A : Set} (op : FsOp A) : bool :=
  match op with op_open ctx inode flags fuse_flags => readonly flags | _ => false end.

Lemma ov_create_wp ctx parent name args w :
  inv w -> wpo (ov_create ctx parent name args) (fun r w' => may_add_some r.1.1.2 w') w.
Proof. intros HI. unfold ov_create. do 4 wp_step. by wp_step. Qed.

Lemma ov_op_wp (A : Set) (op : FsOp A) w :
  inv w -> (opens_readonly op = true -> forall h d, new_handle h d) ->
  wpo (ov_op A op) (fun x w' => may_add_some (write_handle op x) w') w.
Proof.
  intros HI Hany. destruct op; cbn [ov_op default_op write_handle opens_readonly] in *;
    first [ by eapply wp_mono; [apply ov_create_wp|]
          | eapply wp_mono; [by apply ov_open_wp|]; intros r w' _ _ Hr; by destruct (readonly flags)
          | apply (wp_mono _ _ _ (fun _ _ => True)); [|by intros] ];
    first [ by wp_go
          | unfold ov_lookup, ov_readlink, ov_symlink, ov_mknod, ov_mkdir, ov_link, ov_setxattr,
              ov_removexattr, ov_releasedir; by wp_go
          | idtac ].
  - exact (on_real_inode_wp ctx inode (fun i => op_getxattr ctx i name size) w HI (fun _ => eq_refl)).
  - exact (on_real_inode_wp ctx inode (fun i => op_listxattr ctx i size) w HI (fun _ => eq_refl)).
  - exact (on_real_inode_wp ctx inode (fun i => op_access ctx i mask0) w HI (fun _ => eq_refl)).
Qed.

(** ** The end of a request *)

Lemma in_values {K A} `{Countable K} (m : gmap K A) k v : m !! k = Some v -> v ∈ values m.
Proof. intros Hk. apply list_elem_of_fmap. exists (k, v). split; [done|]. by apply elem_of_map_to_list. Qed.

(** A node that nothing refers to is not missed. *)
Lemma collect_inv a w : inv w -> a ∉ references w -> inv (set_nodes w (delete a w.(w_nodes))).
Proof.
  intros [H0 H1 H2 H3 [K1 K2 K3 K4 K5] H5] Ha. unfold references in Ha. rewrite !not_elem_of_app in Ha.
  destruct Ha as (Ha1 & Ha2 & Ha3 & Ha4). set (w' := set_nodes _ _).
  assert (Hl : forall b, b <> a -> live b w -> live b w').
  { intros b Hb [m Hm]. exists m. cbn. by rewrite lookup_delete_ne. }
  split; cbn; try done.
  - intros b m Hm. cbn in Hm. apply lookup_delete_Some in Hm as [Hb Hm]. destruct (H3 b m Hm) as [? ? ? ? Hc ?].
    split; try done. intros name c Hnc. destruct (Hc name c Hnc) as [? (k & Hk & ?)]. split; [done|].
    exists k. split; [|done]. cbn. rewrite lookup_delete_ne; [done|]. intros ->. apply Ha4.
    apply list_elem_of_bind. exists m. by split; eapply in_values.
  - split; cbn; try done.
    + intros i b Hb. apply Hl; [|eauto]. intros ->. by eapply Ha1, in_values.
    + intros i b Hb. apply Hl; [|eauto]. intros ->. by eapply Ha2, in_values.
    + intros b [m Hm]. cbn in Hm. apply lookup_delete_Some in Hm as [_ Hm]. apply (K3 b). by exists m.
  - intros h d Hd. destruct (H5 h d Hd) as [Hd1 Hd2]. split; [|done]. apply Hl; [|done]. intros E. apply Ha3.
    apply list_elem_of_fmap. exists d. split; [done|]. by eapply in_values.
Qed.

Lemma collect_node_frozen a w : inv w -> wp inv (frozen R) (collect_node a) (fun _ _ => True) w.
Proof.
  intros HI. unfold wp, collect_node. case_bool_decide as Hin; [done|].
  destruct (w.(w_nodes) !! a) as [n|] eqn:Hn; [|done].
  set (w' := set_nodes w (delete a w.(w_nodes))).
  assert (Hfz : frozen R w w') by (apply frozen_same; auto).
  destruct (inv_nodes _ HI a n Hn) as [_ _ Hr _ _ _].
  assert (HI' : inv w') by by apply collect_inv.
  pose proof (drop_real_inodes_wp R n.(on_real_inodes) w' HI' Hr) as (? & Hle & ?).
  split_and!; [done| |done]. transitivity w'; [done|]. apply Hle.
Qed.

Lemma collect_frozen w : inv w -> wp inv (frozen R) collect (fun _ _ => True) w.
Proof.
  assert (H : forall l w, inv w -> wp inv (frozen R)
    (foldr (fun a rest => _ ← collect_node a; rest) (mret tt) l) (fun _ _ => True) w).
  { induction l as [|a l IH]; intros v HI; cbn [foldr]; [by apply (wp_mret inv (frozen R))|].
    eapply (wp_bind inv (frozen R)); [by apply collect_node_frozen|]. intros _ w' HI' _ _. by apply IH. }
  exact (H (seq 0 w.(w_next)) w).
Qed.

(** A request and what follows it. *)
Lemma request_frozen {A} (m : wprog A) (Q : A -> World L -> Prop) w :
  inv w -> (forall x w1 w2, frozen R w1 w2 -> Q x w1 -> Q x w2) -> wpo m Q w ->
  wp inv (frozen R) (finally m collect) Q w.
Proof.
  intros HI HQ (HG & Hle & Hm). unfold finally.
  eapply (wp_bind _ _ _ _ (fun r w' => match r with inr x => Q x w' | inl _ => True end)).
  { apply le_frozen in Hle. unfold wp, catch. by destruct (m w) as [w' [x|e|]]. }
  intros r w' HI' _ Hr. eapply (wp_bind inv (frozen R)); [by apply collect_frozen|]. intros _ w'' HI'' Hf _.
  destruct r; [by apply (wp_fail inv (frozen R))|apply (wp_mret inv (frozen R)); eauto].
Qed.

(** ** Directories *)

(** A program over a callback's state: the world is kept whatever the callback
    does, and nothing panics when the callback does not. *)
Section callback.
Context {X : Type} (SAFE : Prop) (P : X -> Prop).

Definition cwp {A} (m : prog (World L * X) io_error A) (Q : A -> World L -> Prop) (s : World L * X) : Prop :=
  let r := m s in
  inv r.1.1 /\ le R s.1 r.1.1 /\ match r.2 with Ok x => Q x r.1.1 | _ => True end /\
  (SAFE -> P s.2 -> P r.1.2 /\ r.2 <> Panic).

Lemma cwp_mret {A} (x : A) (Q : A -> World L -> Prop) s : inv s.1 -> Q x s.1 -> cwp (mret x) Q s.
Proof. intros. unfold cwp. cbn. by split_and!. Qed.

Lemma cwp_fail {A} e (Q : A -> World L -> Prop) s : inv s.1 -> cwp (fail e) Q s.
Proof. intros. unfold cwp. cbn. by split_and!. Qed.

Lemma cwp_bind {A B} (m : prog (World L * X) io_error A) (k : A -> prog (World L * X) io_error B) Q Q' s :
  cwp m Q s -> (forall x s', inv s'.1 -> le R s.1 s'.1 -> Q x s'.1 -> cwp (k x) Q' s') -> cwp (m ≫= k) Q' s.
Proof.
  intros (H1 & H2 & H3 & H4) Hk. unfold cwp, mbind, prog_mbind, prog_bind in *.
  destruct (m s) as [s' [x|e|]]; cbn in *;
    [|split_and!; try done; intros HS HP; by destruct (H4 HS HP)..].
  specialize (Hk x s' H1 H2 H3). cbn in Hk. destruct Hk as (K1 & K2 & K3 & K4).
  split_and!; [done|by etrans|done|]. intros HS HP. destruct (H4 HS HP). auto.
Qed.

Lemma cwp_on_fst {A} (m : wprog A) Q s : wpo m Q s.1 -> cwp (on_fst m) Q s.
Proof.
  intros (H1 & H2 & H3). unfold cwp, on_fst. destruct (m s.1) as [w' [x|e|]]; cbn in *; by split_and!.
Qed.

Lemma cwp_callback (m : prog X io_error Z) s :
  inv s.1 -> (SAFE -> safe P m) -> cwp (catch (on_snd m)) (fun _ _ => True) s.
Proof.
  intros HI Hm. unfold cwp, catch, on_snd. specialize (fun HS => Hm HS s.2).
  destruct (m s.2) as [x [v|e|]]; cbn in *; split_and!; try done; intros HS HP; destruct (Hm HS HP); done.
Qed.

Lemma ov_readdir_loop_wp ctx size offset plus add index len l s :
  (SAFE -> forall d e, safe P (add d e)) -> inv s.1 -> lives l s.1 ->
  cwp (ov_readdir_loop ctx size offset plus add index len l) (fun _ _ => True) s.
Proof.
  intros Hadd. revert index len s. induction l as [|[name c] l IH]; intros index len s HI Hl; cbn [ov_readdir_loop];
    [by apply cwp_mret|].
  apply Forall_cons in Hl as [Hc Hl]. change (live c s.1) in Hc. change (lives l s.1) in Hl.
  destruct (index <? offset); [by apply IH|].
  eapply cwp_bind; [by apply cwp_on_fst, ovi_stat64_wp|]. intros st s1 HI1 Hle1 _.
  apply (stable_at R (live c)) in Hle1 as Hc1; [|done]. apply (stable_at R (lives l)) in Hle1 as Hl1; [|exact Hl].
  eapply (cwp_bind _ _ (fun _ _ => True)).
  { apply cwp_on_fst. destruct plus; [|by wp_step]. wp_go. }
  intros e s2 HI2 Hle2 _. apply (stable_at R (lives l)) in Hle2 as Hl2; [|exact Hl1].
  eapply cwp_bind; [by apply cwp_callback; [|intros HS; apply Hadd]|]. intros r s3 HI3 Hle3 _.
  apply (stable_at R (lives l)) in Hle3 as Hl3; [|exact Hl2].
  repeat case_match; first [by apply cwp_mret|by apply cwp_fail|by apply IH].
Qed.

Lemma ov_do_readdir_wp ctx inode handle size offset plus add s :
  (SAFE -> forall d e, safe P (add d e)) -> inv s.1 ->
  cwp (ov_do_readdir ctx inode handle size offset plus add) (fun _ _ => True) s.
Proof.
  intros Hadd HI. unfold ov_do_readdir. destruct (size =? 0); [by apply cwp_mret|].
  eapply cwp_bind; [by apply cwp_on_fst, wp_get_fs|]. intros fs [w1 x] HI1 Hle [E ->]. cbn in E. subst w1. cbn in *.
  apply (cwp_bind _ _ (fun a w => live a w)).
  { apply cwp_on_fst. cbn. destruct (ov_handles (w_fs s.1) !! handle) as [d|] eqn:Hd; [|by wp_go].
    wp_step. by destruct (inv_handles _ HI _ _ Hd). }
  intros a s2 HI2 Hle2 Ha. eapply cwp_bind; [by apply cwp_on_fst, dir_childrens_wp|]. intros l s3 HI3 _ Hl.
  case_match; [by apply cwp_mret|by apply ov_readdir_loop_wp].
Qed.

(** The request. *)
Lemma readdir_request {A} (m : prog (World L * X) io_error A) s :
  inv s.1 -> cwp m (fun _ _ => True) s ->
  let r := finally m (on_fst collect) s in
  inv r.1.1 /\ frozen R s.1 r.1.1 /\ (SAFE -> P s.2 -> P r.1.2 /\ r.2 <> Panic).
Proof.
  intros HI (H1 & H2 & _ & H4). unfold finally, catch, mbind, prog_mbind, prog_bind, on_fst.
  apply le_frozen in H2. destruct (m s) as [[w' x] o]. cbn in *. pose proof (collect_frozen w' H1) as Hc. unfold wp in Hc.
  destruct o as [v|e|]; cbn; destruct (collect w') as [w'' [u|e'|]]; cbn in *; destruct Hc as (? & ? & ?);
    try done; (split_and!; [done|by etrans|]); intros HS HP; by destruct (H4 HS HP).
Qed.
End callback.
End sync.

(** ** Opening for reading *)

Section opening.
Context {L : Type} `{FS : FileSystem L} `{LAYER : !Layer L} (R : relation L) `{RK : !ReadsKeep R} `{LO : !LayerOk L}.
#[local] Existing Instance upper_handles.
Implicit Types (w : World L).

Lemma frozen_weaken (rule : HandleRule) w w' :
  frozen R (HRULE := upper_handles) w w' -> frozen R (HRULE := rule) w w'.
Proof. intros [? ? ? ? ? Hh]. split; try done. intros h d [Hd|Hd]%Hh; [by left|right; by apply new_handle_upper]. Qed.

(** All handles it leaves are old or lead to the upper layer, but for the one
    it returns. *)
Definition opens (m : prog (World L) io_error (option Z * Z * option Z)) w : Prop :=
  match m w with
  | (w', Ok r) => inv w' /\ exists h, r.1.1 = Some h /\ frozen R (HRULE := upper_handles_but h) w w'
  | (w', Err _) => inv w' /\ frozen R w w'
  | (_, Panic) => False
  end.

Lemma opens_bind {A} (m : prog (World L) io_error A) k Q w :
  wp inv (le R) m Q w -> (forall x w', inv w' -> le R w w' -> Q x w' -> opens (k x) w') -> opens (m ≫= k) w.
Proof.
  intros (HI & Hle & Hm) Hk. unfold opens, mbind, prog_mbind, prog_bind in *.
  destruct (m w) as [w1 [x|e|]]; cbn in *; [|split; [done|by apply le_frozen]|done].
  specialize (Hk x w1 HI Hle Hm). apply le_frozen in Hle.
  destruct (k x w1) as [w2 [r|e|]]; [|split; [apply Hk|etrans; [done|apply Hk]]|done].
  destruct Hk as (HI2 & h & Hr & Hf). split; [done|]. exists h. split; [done|].
  etrans; [by apply frozen_weaken|done].
Qed.

Lemma opens_fail e w : inv w -> opens (fail e) w.
Proof. by unfold opens. Qed.

Lemma opens_insert a rh opts p w :
  inv w -> live a w -> (forall h, rh = Some h -> rhok h w) ->
  opens (hd ← insert_real_handle a rh; mret (Some hd, opts, p)) w.
Proof.
  intros HI Ha Hrh. set (h := w.(w_fs).(ov_next_handle)).
  destruct (insert_real_handle_wp R (HRULE := upper_handles_but h) a rh w HI Ha Hrh (or_introl eq_refl)) as (HI' & Hle & _).
  unfold opens. cbn in *. split; [done|]. exists h. split; [done|]. apply (le_frozen _ _ _ Hle).
Qed.

Lemma ov_open_readonly ctx inode flags fuse_flags w :
  inv w -> readonly flags = true -> opens (ov_open ctx inode flags fuse_flags) w.
Proof.
  intros HI Hro. unfold ov_open. rewrite Hro. cbn [negb]; cbv iota.
  eapply opens_bind; [by apply wp_get_fs|]. intros fs w1 HI1 _ [-> ->].
  destruct (ov_no_open _); [by apply opens_fail|].
  eapply opens_bind; [by apply (live_node_wp R)|]. intros a w2 HI2 _ Ha.
  apply (opens_bind _ _ (fun _ w' => w' = w2)); [by apply (wp_mret inv (le R))|]. intros [] w3 HI3 _ ->.
  eapply opens_bind; [apply (ovi_open_wp R); [done..|right; by apply readonly_layer_flags]|]. intros r w4 HI4 Hle4 _.
  apply (stable_at R _ _ _ Hle4) in Ha. destruct r.1.2 as [hd|]; [|by apply opens_fail].
  eapply opens_bind; [by apply (wp_get_node R)|]. intros n w5 HI5 _ [-> Hn].
  eapply opens_bind; [by eapply (wp_first_layer R)|]. intros [[layer b] i] w6 HI6 _ (-> & _ & Hp).
  apply opens_insert; [done..|]. by intros rh [= <-].
Qed.

(** The end of a request does not fail. *)
Lemma bind_no_err {A B} (m : prog (World L) io_error A) (k : A -> prog (World L) io_error B) :
  (forall w e, (m w).2 <> Err e) -> (forall x w e, (k x w).2 <> Err e) -> forall w e, ((m ≫= k) w).2 <> Err e.
Proof.
  intros Hm Hk w e. unfold mbind, prog_mbind, prog_bind. specialize (Hm w).
  destruct (m w) as [w' [x|e'|]]; cbn in *; [apply Hk|by destruct (Hm e')|done].
Qed.

Lemma drop_real_inodes_no_err l w e : (drop_real_inodes (L := L) l w).2 <> Err e.
Proof.
  revert w e. induction l as [|ri l IH]; intros w e; [done|]. apply bind_no_err; [|by intros].
  intros w' e'. apply bind_no_err; [|done]. intros v e2. unfold catch. by destruct (on_layer _ _ v) as [? []].
Qed.

Lemma collect_no_err w e : (collect (L := L) w).2 <> Err e.
Proof.
  unfold collect. generalize (seq 0 (w_next w)). intros l. revert w e.
  induction l as [|a l IH]; intros w e; cbn [foldr]; [done|]. apply bind_no_err; [|by intros].
  intros w' e'. unfold collect_node. repeat case_match; [done|apply drop_real_inodes_no_err|done].
Qed.

Lemma opens_request m w : inv w -> opens m w -> opens (finally m collect) w.
Proof.
  intros HI Hm. unfold opens, finally, catch, mbind, prog_mbind, prog_bind in *.
  destruct (m w) as [w1 [r|e|]]; cbn in *; [| |done].
  - destruct Hm as (HI1 & h & Hr & Hf). pose proof (collect_frozen R w1 HI1) as Hc. unfold wp in Hc.
    pose proof (collect_no_err w1) as Hne.
    destruct (collect w1) as [w2 [u|e|]]; cbn in *; destruct Hc as (? & ? & Hc); [|by destruct (Hne e)|done].
    split; [done|]. exists h. split; [done|]. etrans; [done|by apply frozen_weaken].
  - destruct Hm as [HI1 Hf]. pose proof (collect_frozen R w1 HI1) as Hc. unfold wp in Hc.
    destruct (collect w1) as [w2 [u|e'|]]; cbn in *; destruct Hc as (? & ? & Hc); [..|done];
      (split; [done|by etrans]).
Qed.
End opening.
