(* ===== verification/OverlayService.v ===== *)
(** * The overlay file system as a service

    Any sequence of requests leaves the lower layers as they were, and a server
    over the overlay file system survives any sequence of messages.  The last
    part is about the numbers of inodes. *)

From stdpp Require Import list gmap fin_maps relations.
From S2P Require Import Prelude Std Lib Codec Abi AbiStruct FsTypes FileSystem Transport TransportProps FuseDev.
From S2P Require Import FuseDevProps Instances Server ServerProps ServerWire ServerWireProps ServerClaims Vfs.
From S2P Require Import ProgLogic Host Layer OverlayStore Overlay OverlayOps OverlaySync ToyLayer OverlayLaws.
From S2P Require Import ToyLayerOk OverlayLogic OverlaySafe OverlaySafeOps OverlaySafeMake OverlaySafeSync.

(** ** Requests *)

(** A new file system over its layers, before INIT. *)
Definition ov_new {L} (upper : option nat) (lowers : list nat) (params : OvConfig) (layers : list L) : World L :=
  Overlay.MkWorld (OverlayFs_new upper lowers params) ∅ 0 layers.

(** There is a layer, all are there, and the upper one is not a lower one. *)
Definition layout_ok {L} (upper : option nat) (lowers : list nat) (layers : list L) : Prop :=
  (is_Some upper \/ lowers <> []) /\ Forall (fun i => i < length layers)%nat lowers /\
  (forall u, upper = Some u -> (u < length layers)%nat /\ u ∉ lowers).

(** The file system, and a client's note of the handles it may write through:
    those that an OPEN for writing or a CREATE returned to it, and no OPEN for
    reading since. *)
Definition Session (L : Type) : Type := World L * gset Z.

Definition noted {A : Set} (op : FsOp A) : io_result A -> gset Z -> gset Z :=
  match op in FsOp B return io_result B -> gset Z -> gset Z with
  | op_open ctx inode flags fuse_flags => fun r W =>
    match r with
    | Ok (Some h, _, _) => if readonly flags then W ∖ {[h]} else {[h]} ∪ W
    | _ => W
    end
  | op_create ctx parent name args => fun r W =>
    match r with Ok (_, Some h, _, _) => {[h]} ∪ W | _ => W end
  | _ => fun _ W => W
  end.

(** A request.  A WRITE goes through a handle the client noted or, where
    files are not opened at all, says that it is for writing. *)
Inductive ov_request {L : Type} `{Layer L} : Session L -> Session L -> Prop :=
| ov_req_op w W (A : Set) (op : FsOp A) : ov_request (w, W) ((fs_op op w).1, noted op (fs_op op w).2 W)
| ov_req_read w W ctx inode handle available size offset lock_owner flags :
    ov_request (w, W) ((fs_read ctx inode handle available size offset lock_owner flags w).1, W)
| ov_req_write w W ctx inode handle data size offset lock_owner delayed flags fuse_flags :
    (if w.(w_fs).(ov_no_open) then readonly flags = false else handle ∈ W) ->
    ov_request (w, W) ((fs_write ctx inode handle data size offset lock_owner delayed flags fuse_flags w).1, W)
| ov_req_readdir w W X ctx inode handle size offset (add_entry : add_entry_t X) (x : X) :
    ov_request (w, W) ((fs_readdir ctx inode handle size offset add_entry (w, x)).1.1, W)
| ov_req_readdirplus w W X ctx inode handle size offset (add_entry : add_entry_plus_t X) (x : X) :
    ov_request (w, W) ((fs_readdirplus ctx inode handle size offset add_entry (w, x)).1.1, W)
| ov_req_mount w W : ov_request (w, W) ((be_mount w).1, W).

Lemma ov_new_inv {L : Type} upper lowers params (layers : list L) :
  layout_ok upper lowers layers -> inv (ov_new upper lowers params layers).
Proof.
  intros (Hany & Hl & Hu). split; cbn; [done|done|by apply Forall_forall|..].
  - intros a n. by rewrite lookup_empty.
  - split; cbn; try (intros ? ?; by rewrite lookup_empty); [|intros ?; by rewrite lookup_empty|done].
    intros a [n Hn]. cbn in Hn. by rewrite lookup_empty in Hn.
  - intros h d. by rewrite lookup_empty.
Qed.

Section requests.
Context {L : Type} `{FS : FileSystem L} `{LAYER : !Layer L} (R : relation L) `{RK : !ReadsKeep R} `{LO : !LayerOk L}.
Context {HRULE : HandleRule}.

Lemma read_request_frozen ctx inode handle available size offset lock_owner flags w :
  inv w ->
  let '(w', (data, res)) := fs_read ctx inode handle available size offset lock_owner flags w in
  inv w' /\ frozen R w w' /\ (0 <= available -> zlen data <= available /\
  match res with Ok n => n = zlen data | Err _ => True | Panic => False end).
Proof.
  intros HI. pose proof (ov_read_wp R ctx inode handle available size offset lock_owner flags w HI) as Hr.
  cbn. unfold read_request. destruct (ov_read _ _ _ _ _ _ _ _ w) as [w1 [data res]]. destruct Hr as (HI1 & Hle & Hr).
  pose proof (collect_frozen R w1 HI1) as Hc. unfold wp in Hc. destruct (collect w1) as [w2 [u|e|]]; cbn in Hc;
    destruct Hc as (? & ? & ?); try done; (split_and!; [done|etrans; [by apply le_frozen|done]|apply Hr..]).
Qed.

Lemma ov_readdir_frozen {X} (P : X -> Prop) ctx inode handle size offset (add : add_entry_t X) s :
  inv s.1 ->
  let r := fs_readdir ctx inode handle size offset add s in
  inv r.1.1 /\ frozen R s.1 r.1.1 /\ ((forall d, safe P (add d)) -> P s.2 -> P r.1.2 /\ r.2 <> Panic).
Proof.
  intros HI. apply (readdir_request R); [done|]. unfold ov_readdir.
  eapply (cwp_bind R); [by apply (cwp_on_fst R), wp_get_fs|]. intros fs s' HI' _ _.
  destruct (oc_no_readdir _); [by apply (cwp_mret R)|]. apply (ov_do_readdir_wp R); [|done]. intros HS d e. apply HS.
Qed.

Lemma ov_readdirplus_frozen {X} (P : X -> Prop) ctx inode handle size offset (add : add_entry_plus_t X) s :
  inv s.1 ->
  let r := fs_readdirplus ctx inode handle size offset add s in
  inv r.1.1 /\ frozen R s.1 r.1.1 /\ ((forall d e, safe P (add d e)) -> P s.2 -> P r.1.2 /\ r.2 <> Panic).
Proof.
  intros HI. apply (readdir_request R); [done|]. unfold ov_readdirplus.
  eapply (cwp_bind R); [by apply (cwp_on_fst R), wp_get_fs|]. intros fs s' HI' _ _.
  destruct (oc_no_readdir _); [by apply (cwp_mret R)|]. apply (ov_do_readdir_wp R); [|done].
  intros HS d [e|]; [apply HS|]. by intros x Hx.
Qed.

Lemma ov_op_frozen (A : Set) (op : FsOp A) (w : World L) :
  inv w -> (opens_readonly op = true -> forall h d, new_handle h d) ->
  wp inv (frozen R) (fs_op op) (fun x w' => may_add_some (write_handle op x) w') w.
Proof.
  intros HI Hany. apply (request_frozen R); [typeclasses eauto..|done| |by apply ov_op_wp].
  intros x w1 w2 Hf Hx h Hh. eapply frozen_may_add; eauto.
Qed.

Lemma ov_mount_frozen w : inv w -> wp inv (frozen R) ov_mount (fun _ _ => True) w.
Proof. intros HI. apply (request_frozen R); try done. wp_go. Qed.

Lemma ov_write_frozen ctx inode handle data size offset lock_owner delayed flags fuse_flags w :
  inv w -> may_write handle flags w \/ (forall l l', R l l') ->
  wp inv (frozen R) (fs_write ctx inode handle data size offset lock_owner delayed flags fuse_flags) (fun _ _ => True) w.
Proof. intros HI Hmay. apply (request_frozen R); try done. by apply ov_write_wp. Qed.
End requests.

Section sessions.
Context {L : Type} `{FS : FileSystem L} `{LAYER : !Layer L} (R : relation L) `{RK : !ReadsKeep R} `{LO : !LayerOk L}.
#[local] Existing Instance upper_handles.

(** Handles the client noted lead to the upper layer. *)
Definition noted_upper (s : Session L) : Prop := forall h, h ∈ s.2 -> may_add h s.1.

(** What a request keeps, and what it leaves of the lower layers. *)
Definition served (s s' : Session L) : Prop :=
  inv s'.1 /\ noted_upper s' /\ frozen R (HRULE := any_handle) s.1 s'.1.

Lemma served_frozen w w' W : noted_upper (w, W) -> inv w' -> frozen R w w' -> served (w, W) (w', W).
Proof.
  intros HW HI Hf. split_and!; [done| |by apply frozen_weaken]. intros h Hh. eapply frozen_may_add; [done|by apply HW].
Qed.

Lemma served_open_readonly w W ctx inode flags fuse_flags :
  let op := op_open ctx inode flags fuse_flags in
  inv w -> noted_upper (w, W) -> readonly flags = true ->
  served (w, W) ((fs_op op w).1, noted op (fs_op op w).2 W).
Proof.
  intros op HI HW Hro. unfold op, noted. rewrite Hro.
  assert (Ho : opens R (fs_op (op_open ctx inode flags fuse_flags)) w)
    by exact (opens_request R _ w HI (ov_open_readonly R ctx inode flags fuse_flags w HI Hro)).
  unfold opens in Ho. destruct (fs_op _ w) as [w' [[[o opts] p]|e|]]; [|destruct Ho; by apply served_frozen|done].
  destruct Ho as (HI' & h & Hh & Hf). cbn in Hh. subst o. cbn.
  split_and!; [done| |].
  - intros k Hk. cbn in Hk. apply elem_of_difference in Hk as [Hk Hne]. intros d [Hd|[->|Hd]]%(fz_handles _ _ _ Hf); [by apply (HW k Hk)| |done]. set_solver.
  - destruct Hf. by split; try done; intros; right.
Qed.

Lemma served_op w W (A : Set) (op : FsOp A) :
  inv w -> noted_upper (w, W) -> served (w, W) ((fs_op op w).1, noted op (fs_op op w).2 W).
Proof.
  intros HI HW. destruct (opens_readonly op) eqn:Hro.
  { destruct op; try discriminate Hro. by apply served_open_readonly. }
  destruct (ov_op_frozen R A op w HI) as (HI' & Hf & Hx); [by rewrite Hro|].
  destruct (served_frozen _ _ W HW HI' Hf) as (_ & HW' & Hf'). split_and!; [done| |done].
  clear HW Hf Hf' HI HI'. destruct op; try exact HW'; cbn [noted write_handle opens_readonly] in *.
  - destruct (fs_op _ w) as [w' [[[[h|] opts] p]|e|]]; try exact HW'. cbn in *. rewrite Hro in *.
    intros k Hk. cbn in Hk. apply elem_of_union in Hk as [->%elem_of_singleton|Hk]; [by apply Hx|by apply HW'].
  - destruct (fs_op _ w) as [w' [[[[e [h|]] opts] p]|e|]]; try exact HW'. cbn in *.
    intros k Hk. cbn in Hk. apply elem_of_union in Hk as [->%elem_of_singleton|Hk]; [by apply Hx|by apply HW'].
Qed.

Lemma ov_request_served s s' : ov_request s s' -> inv s.1 -> noted_upper s -> served s s'.
Proof.
  intros Hr HI HW. destruct Hr as [w W A op|w W ctx i h av size off lo flags|w W ctx i h data size off lo dw flags ff Hmay
    |w W X ctx i h size off add x|w W X ctx i h size off add x|w W]; cbn in HI.
  - by apply served_op.
  - apply served_frozen; [done|..]; pose proof (read_request_frozen R ctx i h av size off lo flags w HI) as Hr;
      destruct (fs_read _ _ _ _ _ _ _ _ w) as [w' [data res]]; apply Hr.
  - assert (may_write h flags w).
    { unfold may_write. destruct (ov_no_open _); [done|]. by apply (HW h Hmay). }
    destruct (ov_write_frozen R ctx i h data size off lo dw flags ff w HI) as (? & ? & _); [by left|].
    by apply served_frozen.
  - destruct (ov_readdir_frozen R (fun _ => True) ctx i h size off add (w, x) HI) as (? & ? & _). by apply served_frozen.
  - destruct (ov_readdirplus_frozen R (fun _ => True) ctx i h size off add (w, x) HI) as (? & ? & _).
    by apply served_frozen.
  - destruct (ov_mount_frozen R w HI) as (? & ? & _). by apply served_frozen.
Qed.

Lemma ov_requests_served s s' : rtc ov_request s s' -> inv s.1 -> noted_upper s -> served s s'.
Proof.
  induction 1 as [s|s1 s2 s3 Hr _ IH]; intros HI HW; [by split_and!|].
  destruct (ov_request_served _ _ Hr HI HW) as (HI2 & HW2 & Hf). destruct (IH HI2 HW2) as (? & ? & ?).
  split_and!; [done..|by etrans].
Qed.
End sessions.

(** C9: the lower layers are read only.  Serve any sequence of requests from
    a client, INIT and the mount into the union included.  The client may
    write through every handle that an OPEN for writing or a CREATE returned to
    it, also after it released the handle; where files are not opened, it may
    write with any flags that are not those of a file opened for reading.
    Then each lower layer is afterwards where it was, up to what its own
    reading calls change.  A handle that an OPEN for writing or a CREATE
    returned leads to the upper layer: files are changed by copying them there
    first, and what is removed or made goes into the upper layer only.  What is
    left out is a WRITE through a handle that was opened for reading, which the
    file system passes on to the lower layer unchecked. *)
Theorem lower_layers_kept {L : Type} `{FS : FileSystem L} `{LAYER : !Layer L} (R : relation L)
    `{RK : !ReadsKeep R} `{LO : !LayerOk L} upper lowers params (layers : list L) (w : World L) (W : gset Z) :
  layout_ok upper lowers layers -> rtc ov_request (ov_new upper lowers params layers, ∅) (w, W) ->
  forall i l, i ∈ lowers -> layers !! i = Some l -> exists l', w.(w_layers) !! i = Some l' /\ R l l'.
Proof.
  intros Hok Hreqs i l Hi Hl. apply (ov_new_inv upper lowers params) in Hok.
  destruct (ov_requests_served R _ _ Hreqs Hok) as (_ & _ & Hf); [by intros h|]. cbn in Hf.
  assert (i < length w.(w_layers))%nat as [l' Hl']%lookup_lt_is_Some_2.
  { rewrite (fz_length _ _ _ Hf). by eapply lookup_lt_Some. }
  exists l'. split; [done|]. by apply (fz_layers _ _ _ Hf i).
Qed.

(** A client opens [g] and writes to it. *)
Definition step_init : ToyWorld := (fs_op (op_init 0) toy_overlay).1.
Definition step_lookup : ToyWorld := (fs_op (op_lookup Context_default ROOT_ID (bs "g")) step_init).1.
Definition step_open : ToyWorld := (fs_op (op_open Context_default 2 O_RDWR 0) step_lookup).1.
Definition step_write : ToyWorld :=
  (fs_write Context_default 2 1 (bs "WO") 2 0 None false O_RDWR 0 step_open).1.

Lemma toy_layout_ok : layout_ok (Some 0%nat) [1%nat] [toy_upper; toy_lower].
Proof.
  split_and!; [by left; eexists|by repeat constructor|]. intros u [= <-]. cbn. split; [lia|].
  by intros ?%list_elem_of_singleton.
Qed.

Lemma lower_layers_kept_witness :
  (exists u n, step_write.(w_layers) !! 0%nat = Some u /\ u.(tl_nodes) !! 2 = Some n /\ n.(tn_data) = bs "WOrld") /\
  exists l', step_write.(w_layers) !! 1%nat = Some l' /\ same_nodes toy_lower l'.
Proof.
  split; [by eexists _, _; vm_compute|].
  apply (lower_layers_kept same_nodes (Some 0%nat) [1%nat] toy_config [toy_upper; toy_lower] step_write {[1]});
    [|..|by left|done].
  - exact toy_layout_ok.
  - apply (rtc_l _ _ (step_init, ∅)); [apply (ov_req_op _ _ _ (op_init 0))|].
    apply (rtc_l _ _ (step_lookup, ∅)); [apply (ov_req_op _ _ _ (op_lookup Context_default ROOT_ID (bs "g")))|].
    apply (rtc_l _ _ (step_open, {[1]})).
    { replace ({[1]} : gset Z) with (noted (op_open Context_default 2 O_RDWR 0)
        (fs_op (op_open Context_default 2 O_RDWR 0) step_lookup).2 ∅) by by vm_compute.
      apply (ov_req_op _ _ _ (op_open Context_default 2 O_RDWR 0)). }
    apply rtc_once, ov_req_write. by vm_compute.
Defined.

(** ** The server *)

Section served.
Context {L : Type} `{FS : FileSystem L} `{LAYER : !Layer L} `{LO : !LayerOk L}.

#[local] Existing Instance any_handle.

Lemma overlay_invariant : FsInvariant (inv (L := L)).
Proof.
  set (R := fun _ _ : L => True). split.
  - intros A op w HI. destruct (ov_op_frozen R A op w HI) as (? & _ & Hp); [done|]. split; [done|]. by destruct (fs_op op w).2.
  - intros ctx i h av size off lo flags w HI.
    pose proof (read_request_frozen R ctx i h av size off lo flags w HI) as Hr.
    destruct (fs_read _ _ _ _ _ _ _ _ w) as [w' [data res]]. apply Hr.
  - intros ctx i h av size off lo flags w HI Hav.
    pose proof (read_request_frozen R ctx i h av size off lo flags w HI) as Hr.
    destruct (fs_read _ _ _ _ _ _ _ _ w) as [w' [data res]]. by apply Hr.
  - intros ctx i h data size off lo dw flags ff w HI.
    destruct (ov_write_frozen R ctx i h data size off lo dw flags ff w HI (or_intror (fun _ _ => Logic.I)))
      as (? & _ & Hp).
    split; [done|]. intros E. by rewrite E in Hp.
  - intros X ctx i h size off add s HI. apply (ov_readdir_frozen R (fun _ => True) ctx i h size off add s HI).
  - intros X P ctx i h size off add Ha s [HI HP].
    destruct (ov_readdir_frozen R P ctx i h size off add s HI) as (? & _ & Hs). by destruct (Hs Ha HP).
  - intros X ctx i h size off add s HI. apply (ov_readdirplus_frozen R (fun _ => True) ctx i h size off add s HI).
  - intros X P ctx i h size off add Ha s [HI HP].
    destruct (ov_readdirplus_frozen R P ctx i h size off add s HI) as (? & _ & Hs). by destruct (Hs Ha HP).
  - by intros s Hs.
Qed.
End served.

(** C10: the union of directories as a service.  A server over a new overlay
    file system handles any sequence of messages, whatever their bytes and
    whatever the layers answer: no message makes it panic, not one that removes
    the root or lists a directory that was removed; every loop over a
    directory or a file of a layer ends; each message is answered at most once
    and under its own id; and every inode and handle the file system knows
    still refers to a node with a real inode in one of the layers. *)
Theorem overlay_service {L V : Type} `{FS : FileSystem L} `{LAYER : !Layer L} `{LO : !LayerOk L}
    `{VO : VolatileSliceOk V} `{DO : FuseDeviceOk} upper lowers params (layers : list L)
    (Hok : layout_ok upper lowers layers) pagesize (msgs : list (Message V)) :
  Forall message_ok msgs ->
  let w := exist inv (ov_new upper lowers params layers) (ov_new_inv upper lowers params layers Hok) in
  let '((srv, dev), os) :=
    serve_messages (H := SubFs_filesystem inv (INV := overlay_invariant)) pagesize msgs (Server_new w, []) in
  Forall (fun o => o <> Panic) os /\
  (exists replies, dev = concat replies /\ Forall2 replies_ok msgs replies) /\
  inv (proj1_sig srv.(sv_fs)).
Proof.
  intros Hm w. pose proof (SubFs_ok inv (INV := overlay_invariant)) as Hfs.
  pose proof (serve_messages_ok (FSO := Hfs) pagesize msgs (Server_new w) [] Hm) as Hs.
  destruct (serve_messages pagesize msgs _) as [[srv dev] os]. destruct Hs as [Hp Hr].
  split_and!; [done|done|]. apply (proj2_sig srv.(sv_fs)).
Qed.

Lemma overlay_service_witness :
  let msgs := [MkMessage _ (mem_of example_request) (reader_of example_request) (WFuseDev example_writer)] in
  let w := exist inv (ov_new (Some 0%nat) [1%nat] toy_config [toy_upper; toy_lower])
    (ov_new_inv (Some 0%nat) [1%nat] toy_config _ toy_layout_ok) in
  let '((srv, dev), os) :=
    serve_messages (H := SubFs_filesystem inv (INV := overlay_invariant)) (H1 := accepting_device) 4096 msgs
      (Server_new w, []) in
  Forall (fun o => o <> Panic) os /\
  (exists replies, dev = concat replies /\ Forall2 replies_ok msgs replies) /\
  inv (proj1_sig srv.(sv_fs)).
Proof.
  apply (overlay_service (DO := accepting_device_ok)).
  constructor; [|constructor]. split; [|by vm_compute]. apply example_reader_ok. by vm_compute.
Defined.

(** * Numbers of inodes *)

(** C40: Inode numbers run out only when they are all in use.  When the
    counter is in its range, from 1 to 2^56, the search for a number ends, after at
    most 2^56 - 1 looks, and leaves the tables alone.  It gives the first number
    from the counter on, around the end of the range, that no active and no
    deleted inode has, and it fails, with the counter as it was, only when there
    are at least as many inodes as numbers. *)
Theorem ov_alloc_unique s :
  1 <= s.(is_next_inode) <= VFS_MAX_INO + 1 ->
  match alloc_unique_inode s with
  | (s', Ok ino) =>
    1 <= ino <= VFS_MAX_INO /\ is_free s ino /\ s' = set_next s (ino + 1) /\
    (exists k, Z.of_nat k < VFS_MAX_INO /\ ino = candidate (clamp s.(is_next_inode)) k /\
       forall i, (i < k)%nat -> candidate (clamp s.(is_next_inode)) i ∈ taken s)
  | (s', Err _) => s' = s /\ VFS_MAX_INO <= Z.of_nat (size (taken s))
  | (_, Panic) => False
  end.
Proof.
  intros Hnext. destruct (alloc_unique_inode_cases s Hnext) as [(j & Hj & Hfree & Hbefore & ->)|[Hall ->]].
  - split_and!; [..|done|done|].
    1-2: unfold candidate; pose proof (Z.mod_pos_bound (clamp (is_next_inode s) - 1 + Z.of_nat j) VFS_MAX_INO ltac:(done)); lia.
    exists j. split; [done|]. split; [done|]. intros i Hi. by apply taken_spec, Hbefore.
  - split; [done|]. destruct (Z.le_gt_cases VFS_MAX_INO (Z.of_nat (size (taken s)))) as [|Hlt]; [done|].
    destruct (pigeonhole VFS_MAX_INO (taken s) ltac:(done) Hlt) as (ino & Hino & Hx).
    by rewrite taken_spec in Hx; destruct Hx; apply Hall.
Qed.

(** The last number was given out and 1 is in use. *)
Lemma ov_alloc_unique_witness :
  let s := MkOvInodeStore {[1 := 0%nat]} {[2 := 5%nat]} ∅ (VFS_MAX_INO + 1) in
  (alloc_unique_inode s).2 = Ok 3 /\
  match alloc_unique_inode s with
  | (s', Ok ino) =>
    1 <= ino <= VFS_MAX_INO /\ is_free s ino /\ s' = set_next s (ino + 1) /\
    (exists k, Z.of_nat k < VFS_MAX_INO /\ ino = candidate (clamp s.(is_next_inode)) k /\
       forall i, (i < k)%nat -> candidate (clamp s.(is_next_inode)) i ∈ taken s)
  | (s', Err _) => s' = s /\ VFS_MAX_INO <= Z.of_nat (size (taken s))
  | (_, Panic) => False
  end.
Proof. intros s. split; [by vm_compute|]. apply (ov_alloc_unique s). by split; vm_compute. Defined.
