(* ===== verification/OverlayUnion.v ===== *)
(** * Directories are scanned into the union of the layers *)

From stdpp Require Import list gmap.
From S2P Require Import Prelude Std Abi AbiStruct FsTypes FileSystem ProgLogic Host Layer OverlayStore Overlay.
From S2P Require Import OverlayOps OverlayLaws.

Implicit Types (ri : RealInode) (f : Found) (j : nat) (i : Z) (name : bytes).

Lemma held_app rs1 rs2 j i : held (rs1 ++ rs2) j i = held rs1 j i + held rs2 j i.
Proof. induction rs1 as [|ri rs1 IH]; [done|]. cbn. rewrite IH. lia. Qed.

Lemma held_nonneg rs j i : 0 <= held rs j i.
Proof. induction rs as [|ri rs IH]; [done|]. cbn. case_bool_decide; lia. Qed.

#[global] Instance held_proper : Proper ((≡ₚ) ==> eq ==> eq ==> eq) held.
Proof.
  intros rs1 rs2 Hp j _ <- i _ <-. induction Hp; cbn; lia.
Qed.

Lemma values_insert {K A} `{Countable K} (m : gmap K A) k a :
  m !! k = None -> values (<[k := a]> m) ≡ₚ a :: values m.
Proof. intros Hk. unfold values. by rewrite map_to_list_insert. Qed.

Lemma values_empty {K A} `{Countable K} : values (∅ : gmap K A) = [].
Proof. unfold values. by rewrite map_to_list_empty. Qed.

(** The references of lists of real inodes under names. *)
Definition held_all (all : gmap bytes (list RealInode)) : nat -> Z -> Z := held (concat (values all)).

Lemma held_concat_perm ls ls' j i : ls ≡ₚ ls' -> held (concat ls) j i = held (concat ls') j i.
Proof. induction 1; cbn; rewrite ?held_app in *; lia. Qed.

Lemma held_all_insert (all : gmap bytes (list RealInode)) name rs j i :
  all !! name = None -> held_all (<[name := rs]> all) j i = held rs j i + held_all all j i.
Proof.
  intros Hn. unfold held_all. rewrite (held_concat_perm _ (rs :: values all)) by (by apply values_insert).
  cbn. by rewrite held_app.
Qed.

Lemma held_all_extend (all : gmap bytes (list RealInode)) name ri j i :
  held_all (<[name := default [] (all !! name) ++ [ri]]> all) j i = held_all all j i + held [ri] j i.
Proof.
  rewrite <- insert_delete_eq, held_all_insert by apply lookup_delete_eq. rewrite held_app.
  destruct (all !! name) as [rs|] eqn:Hn; cbn [default].
  - rewrite <- (insert_delete_id all name rs) at 2 by done.
    rewrite held_all_insert by apply lookup_delete_eq. cbn. lia.
  - rewrite delete_id by done. cbn. lia.
Qed.

Lemma merge_list (l : list (bytes * RealInode)) (all : gmap bytes (list RealInode)) :
  NoDup l.*1 ->
  let r := foldl (fun all e => <[e.1 := default [] (all !! e.1) ++ [e.2]]> all) all l in
  (forall name, r !! name =
    match (list_to_map l : gmap bytes RealInode) !! name with
    | Some e => Some (default [] (all !! name) ++ [e])
    | None => all !! name
    end) /\
  forall j i, held_all r j i = held_all all j i + held l.*2 j i.
Proof.
  revert all. induction l as [|[name e] l IH]; intros all Hnd; cbn.
  { split; [done|]. intros; lia. }
  apply NoDup_cons in Hnd as [Hnew Hnd]. destruct (IH (<[name := default [] (all !! name) ++ [e]]> all) Hnd) as [Hl Hh].
  split.
  - intros name'. rewrite Hl. destruct (decide (name' = name)) as [->|Hne].
    + rewrite (not_elem_of_list_to_map_1 _ _ Hnew), !lookup_insert_eq. done.
    + by rewrite !lookup_insert_ne by done.
  - intros j i. rewrite Hh, held_all_extend. cbn. lia.
Qed.

Lemma merge_entries_lookup (all : gmap bytes (list RealInode)) (entries : gmap bytes RealInode) name :
  merge_entries all entries !! name =
  match entries !! name with Some e => Some (default [] (all !! name) ++ [e]) | None => all !! name end.
Proof.
  destruct (merge_list (map_to_list entries) all) as [Hl _]; [apply NoDup_fst_map_to_list|].
  unfold merge_entries. by rewrite Hl, list_to_map_to_list.
Qed.

Lemma merge_entries_held (all : gmap bytes (list RealInode)) (entries : gmap bytes RealInode) j i :
  held_all (merge_entries all entries) j i = held_all all j i + held (values entries) j i.
Proof. by apply (merge_list (map_to_list entries) all), NoDup_fst_map_to_list. Qed.

(** The names of entries that are shown. *)
Definition shown (ds : list DirEntry) : list bytes := filter (fun name => dot_name name = false) (d_name <$> ds).

Lemma shown_app ds ds' : shown (ds ++ ds') = shown ds ++ shown ds'.
Proof. unfold shown. by rewrite fmap_app, filter_app. Qed.

Definition listable (d : DirEntry) : Prop :=
  d.(d_name) = CURRENT_DIR \/ d.(d_name) = PARENT_DIR \/ good_name d.(d_name).

(** What the callback that collects names does with a run of entries. *)
Lemma collect_names ds names more offset :
  Forall listable ds ->
  foldl (fun y d => (collect_name d y).1) (names, more, offset) ds =
  (names ++ shown ds, match ds with [] => more | _ => true end, default offset (d_offset <$> last ds)).
Proof.
  intros Hds. revert names more offset. induction Hds as [|d ds Hd Hds IH]; intros names more offset.
  { unfold shown. cbn. by rewrite app_nil_r. }
  rewrite last_cons. cbn [foldl collect_name fst]. rewrite IH. f_equal; [f_equal|].
  - unfold shown. rewrite fmap_cons, filter_cons. destruct Hd as [->|[->|(Hdot & _ & -> & _)]]; [done..|].
    rewrite Hdot. unfold dot_name in Hdot. destruct (beq d.(d_name) []), (beq d.(d_name) CURRENT_DIR), (beq d.(d_name) PARENT_DIR); try done.
    cbn. by rewrite <- app_assoc.
  - by destruct ds.
  - by destruct (last ds).
Qed.

Section scan.
Context {L : Type} `{LAYER : Layer L} `{VIEWED : !Viewed L} `{LVIEW : !LayerView L}.
Implicit Types (w : World L) (l : L) (d : nat -> Z -> Z).

(** ** Worlds *)

Lemma moved_mono (d d' : Z -> Z) l l' : (forall i, d' i = d i) -> moved d l l' -> moved d' l l'.
Proof. intros Hd []. split; [done..|]. intros i. by rewrite Hd. Qed.

Lemma moved_trans (d d' : Z -> Z) l l' l'' :
  moved d l l' -> moved d' l' l'' -> moved (fun i => d i + d' i) l l''.
Proof.
  intros [O R C K I T N] [O' R' C' K' I' T' N'].
  split; [by auto|..]; intros; rewrite ?R', ?C', ?K', ?I', ?T', ?N'; auto. rewrite N. lia.
Qed.

Lemma moved_known (d : Z -> Z) l l' i : moved d l l' -> 0 <= d i -> known l i -> known l' i.
Proof.
  intros V Hd [Hok Hk]. split; [by apply V|].
  destruct Hk as [->|Hk]; [left; symmetry; apply V|right]. rewrite V.(mv_refs _ _ _). lia.
Qed.

Lemma moves_refl w : moves (fun _ _ => 0) w w.
Proof. split; [done..| |done]. intros j l l' H1 H2. simplify_eq. split; [done..|]. intros; lia. Qed.

Lemma moves_mono d d' w w' : moves d w w' -> (forall j i, d' j i = d j i) -> moves d' w w'.
Proof.
  intros [] Hd. split; [done..| |].
  - intros. eapply moved_mono; [apply Hd|eauto].
  - intros j i Hj. rewrite Hd. auto.
Qed.

Lemma moves_trans d1 d2 d w1 w2 w3 :
  moves d1 w1 w2 -> moves d2 w2 w3 -> (forall j i, d j i = d1 j i + d2 j i) -> moves d w1 w3.
Proof.
  intros [F1 N1 X1 H1 M1 O1] [F2 N2 X2 H2 M2 O2] Hd. split; [congruence..| |].
  - intros j l l'' Hl Hl''. destruct (lookup_lt_is_Some_2 w2.(w_layers) j) as [l' Hl'].
    { rewrite H1. by apply lookup_lt_Some in Hl. }
    eapply moved_mono; [|eapply moved_trans; [by eapply M1|by eapply M2]]. apply Hd.
  - intros j i Hj. rewrite Hd, O1, O2; [done| |done].
    apply lookup_ge_None. rewrite H1. by apply lookup_ge_None.
Qed.

Lemma moves_layer d w w' j l : moves d w w' -> w.(w_layers) !! j = Some l ->
  exists l', w'.(w_layers) !! j = Some l' /\ moved (d j) l l'.
Proof.
  intros M Hl. destruct (lookup_lt_is_Some_2 w'.(w_layers) j) as [l' Hl'].
  { rewrite M.(ms_length _ _ _). by apply lookup_lt_Some in Hl. }
  exists l'. split; [done|]. by eapply M.
Qed.

Lemma moves_refs d w w' j i : moves d w w' -> refs w' j i = refs w j i + d j i.
Proof.
  intros M. unfold refs. destruct (w.(w_layers) !! j) as [l|] eqn:Hl.
  - destruct (moves_layer _ _ _ _ _ M Hl) as (l' & -> & V). apply V.
  - rewrite M.(ms_out _ _ _) by done. apply lookup_ge_None in Hl.
    by rewrite lookup_ge_None_2 by (rewrite M.(ms_length _ _ _); done).
Qed.

Lemma refs_nonneg w j i : 0 <= refs w j i.
Proof. unfold refs. destruct (_ !! _); [apply lv_refs_nonneg|done]. Qed.

(** The layers have the same files. *)
Definition alike : relation (World L) := fun w w' =>
  length w'.(w_layers) = length w.(w_layers) /\
  forall j l l', w.(w_layers) !! j = Some l -> w'.(w_layers) !! j = Some l' -> exists dl, moved dl l l'.

#[global] Instance alike_preorder : PreOrder alike.
Proof.
  split.
  - intros w. split; [done|]. intros j l l' H1 H2. simplify_eq. exists none. split; [done..|]. intros; unfold none; lia.
  - intros w1 w2 w3 [H1 M1] [H2 M2]. split; [congruence|]. intros j l l'' Hl Hl''.
    destruct (lookup_lt_is_Some_2 w2.(w_layers) j) as [l' Hl']. { rewrite H1. by apply lookup_lt_Some in Hl. }
    destruct (M1 _ _ _ Hl Hl') as [d1 V1]. destruct (M2 _ _ _ Hl' Hl'') as [d2 V2]. eexists. by eapply moved_trans.
Qed.

Lemma moves_alike d w w' : moves d w w' -> alike w w'.
Proof. intros M. split; [apply M|]. intros j l l' H1 H2. exists (d j). by eapply M. Qed.

Lemma alike_find w w' name f : alike w w' -> find_in w'.(w_layers) name f = find_in w.(w_layers) name f.
Proof.
  intros [Hlen M]. unfold find_in. case_match; [done|].
  destruct (w.(w_layers) !! _) as [l|] eqn:Hl.
  - destruct (lookup_lt_is_Some_2 w'.(w_layers) f.(fd_layer)) as [l' Hl']. { rewrite Hlen. by apply lookup_lt_Some in Hl. }
    destruct (M _ _ _ Hl Hl') as [dl V]. rewrite Hl'. cbn. rewrite V.(mv_child _ _ _).
    by destruct (lv_child l _ name); cbn; rewrite ?V.(mv_kind _ _ _).
  - apply lookup_ge_None in Hl. by rewrite lookup_ge_None_2 by (rewrite Hlen; done).
Qed.

Lemma moves_find d w w' name f : moves d w w' -> find_in w'.(w_layers) name f = find_in w.(w_layers) name f.
Proof. intros M. by eapply alike_find, moves_alike. Qed.

Lemma moves_backed d w w' f :
  moves d w w' -> 0 <= d f.(fd_layer) f.(fd_inode) -> backed w f -> backed w' f.
Proof.
  intros M Hd (l & Hl & Hk & Hkind & H0). destruct (moves_layer _ _ _ _ _ M Hl) as (l' & Hl' & V).
  exists l'. split_and!; [done| |by rewrite V.(mv_kind _ _ _)|done].
  by eapply moved_known.
Qed.

Lemma moves_insert j (dl : Z -> Z) w l l' :
  w.(w_layers) !! j = Some l -> moved dl l l' ->
  moves (fun k i => if bool_decide (j = k) then dl i else 0) w (set_layers w (<[j := l']> w.(w_layers))).
Proof.
  intros Hl V. pose proof (lookup_lt_Some _ _ _ Hl) as Hlt.
  split; [done..|apply length_insert| |intros k i Hk; case_bool_decide; [congruence|done]].
  intros k l1 l2 H1 H2. cbn in H2. destruct (decide (j = k)) as [<-|Hne].
  - rewrite list_lookup_insert_eq in H2 by done. simplify_eq. by rewrite bool_decide_true.
  - rewrite list_lookup_insert_ne in H2 by done. simplify_eq. rewrite bool_decide_false by done.
    apply (moves_refl w).(ms_layers _ _ _) with k; done.
Qed.

Lemma moved_dir (dl : Z -> Z) l l' i : moved dl l l' -> 0 <= dl i -> dir_at l i -> dir_at l' i.
Proof.
  intros V Hdl [Hk Hd]. split; [|by rewrite V.(mv_kind _ _ _)].
  by eapply moved_known.
Qed.

Lemma moves_dir d w w' j l i :
  moves d w w' -> w.(w_layers) !! j = Some l -> dir_at l i -> 0 <= d j i ->
  exists l', w'.(w_layers) !! j = Some l' /\ moved (d j) l l' /\ dir_at l' i.
Proof.
  intros M Hl Hd Hpos. destruct (moves_layer _ _ _ _ _ M Hl) as (l' & Hl' & V).
  exists l'. split_and!; [done..|]. by eapply moved_dir.
Qed.

(** A call on one layer. *)
Lemma ends_on_layer {A} j (m : prog L io_error A) (dl : A -> Z -> Z) (Q : A -> World L -> Prop) w l :
  w.(w_layers) !! j = Some l ->
  ends m (fun a l' => moved (dl a) l l' /\
    forall w', moves (fun k i => if bool_decide (j = k) then dl a i else 0) w w' ->
               w'.(w_layers) !! j = Some l' -> Q a w') l ->
  ends (on_layer j m) Q w.
Proof.
  intros Hl. unfold ends, on_layer. rewrite Hl. destruct (m l) as [l' [a|e|]]; [|done..]. intros [V HQ].
  apply HQ; [by eapply moves_insert|]. apply list_lookup_insert_eq. by eapply lookup_lt_Some.
Qed.

(** No references change. *)
Definition quiet : relation (World L) := moves (fun _ _ => 0).

Lemma ends_on_layer_quiet {A} j (m : prog L io_error A) (Q : A -> World L -> Prop) w l :
  w.(w_layers) !! j = Some l ->
  ends m (fun a l' => moved none l l' /\
    forall w', quiet w w' -> w'.(w_layers) !! j = Some l' -> Q a w') l ->
  ends (on_layer j m) Q w.
Proof.
  intros Hl Hm. apply (ends_on_layer j m (fun _ => none) Q w l Hl).
  eapply ends_mono; [exact Hm|]. cbn. intros a l' [V HQ]. split; [done|]. intros w' M. apply HQ.
  eapply moves_mono; [done|]. intros k i. cbn. by case_bool_decide.
Qed.

Lemma ends_catch_on_layer {A} j (m : prog L io_error A) Q w :
  ends (on_layer j (catch m)) Q w -> ends (catch (on_layer j m)) Q w.
Proof.
  unfold ends, on_layer, catch. destruct (w.(w_layers) !! j) as [l|]; [|done].
  by destruct (m l) as [l' [a|e|]].
Qed.

(** ** [RealInode] *)

(** The real inode stands for a file the layer knows. *)
Definition good (w : World L) ri f : Prop := describes ri f /\ backed w f.

Lemma stat_or_ask_ends ctx ri f Q w :
  describes ri f -> (forall st, st_is_dir st = kind_dir f.(fd_kind) -> Q st w) -> ends (stat_or_ask ctx ri) Q w.
Proof. intros [_ _ _ _ _ (st & Hst & Hd)] HQ. unfold stat_or_ask. rewrite Hst. by apply ends_mret, HQ. Qed.

Lemma ri_stat64_ends ctx ri f w : ri.(ri_layer) = f.(fd_layer) -> ri.(ri_inode) = f.(fd_inode) -> backed w f ->
  ends (ri_stat64 ctx ri) (fun st w' => quiet w w' /\
    forall l, w.(w_layers) !! f.(fd_layer) = Some l -> stat_of l f.(fd_inode) st) w.
Proof.
  intros Hj Hi (l & Hl & Hk & Hkind & H0). unfold ri_stat64. rewrite Hi, Hj.
  destruct (Z.eqb_spec f.(fd_inode) 0); [done|].
  eapply (ends_bind _ _ (fun r w' => quiet w w' /\ stat_of l f.(fd_inode) r.1)).
  - eapply ends_on_layer_quiet; [done|]. eapply ends_mono; [by apply (lv_getattr ctx l)|].
    cbn. intros r l' [Hst V]. done.
  - intros r w' [M Hst]. apply ends_mret. split; [done|]. intros l2 Hl2. by simplify_eq.
Qed.

Lemma lookup_child_ignore_enoent_ends ctx ri f name w l :
  describes ri f -> w.(w_layers) !! f.(fd_layer) = Some l -> dir_at l f.(fd_inode) -> good_name name ->
  ends (lookup_child_ignore_enoent ctx ri name) (fun r w' =>
    match r, lv_child l f.(fd_inode) name with
    | Some e, Some c => e.(en_inode) = c /\ c <> 0 /\ stat_of l c e.(en_attr) /\
        moves (fun k i => if bool_decide (f.(fd_layer) = k) then one c i else 0) w w'
    | None, None => quiet w w'
    | _, _ => False
    end) w.
Proof.
  intros D Hl Hd Hn. unfold lookup_child_ignore_enoent, to_cstring, CString_new.
  rewrite (proj1 (proj2 Hn)), D.(ds_layer _ _), D.(ds_inode _ _). cbn [ok_or].
  pose proof (lv_lookup ctx l _ _ Hd Hn) as Hlk.
  eapply (ends_bind _ _ (fun n w' => n = name /\ w' = w)); [done|]. intros ? ? [-> ->].
  eapply (ends_bind _ _ (fun r w' => match r, lv_child l f.(fd_inode) name with
    | inr e, Some c => e.(en_inode) = c /\ c <> 0 /\ stat_of l c e.(en_attr) /\
        moves (fun k i => if bool_decide (f.(fd_layer) = k) then one c i else 0) w w'
    | inr e, None => e.(en_inode) = 0 /\ quiet w w'
    | inl e, None => raw_os_error e = Some ENOENT /\ quiet w w'
    | _, _ => False
    end)).
  - apply ends_catch_on_layer. destruct (lv_child l _ name) as [c|].
    + eapply (ends_on_layer _ _ (fun _ => one c)); [done|]. unfold ends, catch.
      destruct (fs_op _ l) as [l' [e|e|]]; [|done..]. naive_solver.
    + eapply ends_on_layer_quiet; [done|]. unfold ends, catch.
      destruct (fs_op _ l) as [l' [e|e|]]; [naive_solver..|done].
  - intros [e|e] w'; destruct (lv_child l _ name) as [c|]; [done| | |].
    + intros [-> M]. rewrite bool_decide_true by done. by apply ends_mret.
    + intros (He & H0 & Hst & M). apply ends_mret. rewrite He. by destruct (Z.eqb_spec c 0).
    + intros [-> M]. by apply ends_mret.
Qed.

(** A name looked up in a directory of one layer. *)
Lemma lookup_child_ends ctx ri f name w :
  good w ri f -> kind_dir f.(fd_kind) = true -> good_name name ->
  ends (lookup_child ctx ri name) (fun r w' =>
    moves (held (option_list r)) w w' /\ option_Forall2 (good w') r (find_in w.(w_layers) name f)) w.
Proof.
  intros [D (l & Hl & Hk & Hkind & H0)] Hdir Hn. unfold lookup_child. rewrite D.(ds_whiteout _ _).
  replace (is_wh f.(fd_kind)) with false by (by destruct f.(fd_kind)).
  unfold find_in. rewrite (proj1 Hn), Hl. cbn [mbind option_bind].
  assert (dir_at l f.(fd_inode)) as Hd by (split; [done|by rewrite Hkind]).
  eapply ends_bind; [by apply lookup_child_ignore_enoent_ends|].
  intros [e|] w' Hr; destruct (lv_child l _ name) as [c|]; try done; [|by apply ends_mret; split; [|constructor]].
  destruct Hr as (<- & Hc & [Hst Hino] & M). cbn [mbind option_bind].
  destruct (moves_layer _ _ _ _ _ M Hl) as (l' & Hl' & V). rewrite bool_decide_true in V by done.
  assert (known l' e.(en_inode)) as Hkc.
  { split; [apply V, Hk|]. right. rewrite V.(mv_refs _ _ _). unfold one. rewrite Z.eqb_refl. pose proof (lv_refs_nonneg l e.(en_inode)). lia. }
  eapply (ends_bind _ _ (fun fl w'' => fl = (is_wh (lv_kind l e.(en_inode)), is_opaque (lv_kind l e.(en_inode))) /\ quiet w' w'')).
  - rewrite Hst, D.(ds_layer _ _), <- V.(mv_kind _ _ _). destruct (lv_kind l' e.(en_inode)) as [|o|] eqn:Hk'; cbn [kind_dir].
    1,3: eapply (ends_bind _ _ (fun b w'' => b = is_wh (lv_kind l' e.(en_inode)) /\ quiet w' w''));
      [eapply ends_on_layer_quiet; [done|]; eapply ends_mono; [apply lv_is_whiteout; [done|by rewrite Hk']|naive_solver]
      |rewrite Hk'; intros b w'' [-> M']; by apply ends_mret].
    eapply (ends_bind _ _ (fun b w'' => b = o /\ quiet w' w''));
      [eapply ends_on_layer_quiet; [done|]; eapply ends_mono; [by apply lv_is_opaque|naive_solver]
      |intros b w'' [-> M']; by apply ends_mret].
  - intros ? w'' [-> M']. apply ends_mret. cbn. rewrite D.(ds_layer _ _), D.(ds_upper _ _). split.
    + eapply moves_trans; [exact M|exact M'|]. intros j i. cbn. unfold one.
      repeat case_bool_decide; destruct (Z.eqb_spec i e.(en_inode)); naive_solver lia.
    + constructor. split; [by split; [..|by eexists]|].
      eapply moves_backed; [exact M'|done|]. exists l'. cbn. by rewrite V.(mv_kind _ _ _).
Qed.

(** A round of the loop over a directory reads on. *)
Lemma read_names_round ctx ri f h w l before offset :
  describes ri f -> w.(w_layers) !! f.(fd_layer) = Some l -> dir_at l f.(fd_inode) -> lv_handle l f.(fd_inode) h ->
  lv_list l f.(fd_inode) 0 = before ++ lv_list l f.(fd_inode) offset ->
  (offset = 0 \/ offset ∈ d_offset <$> lv_list l f.(fd_inode) 0) ->
  ends (read_names ctx ri h (shown before, offset)) (fun r w' =>
    quiet w w' /\ (exists l', w'.(w_layers) !! f.(fd_layer) = Some l' /\ lv_handle l' f.(fd_inode) h) /\
    match r with
    | inl (names, offset') => exists ds, ds <> [] /\ names = shown (before ++ ds) /\
        lv_list l f.(fd_inode) offset = ds ++ lv_list l f.(fd_inode) offset' /\
        offset' ∈ d_offset <$> lv_list l f.(fd_inode) 0
    | inr names => names = shown (lv_list l f.(fd_inode) 0)
    end) w.
Proof.
  intros D Hl Hd Hh Hb Hoff. unfold read_names, on_layer_with. rewrite D.(ds_layer _ _), D.(ds_inode _ _).
  set (i := f.(fd_inode)) in *. set (rest := lv_list l i offset) in *.
  destruct (lv_readdir (list bytes * bool * Z) ctx l i h 1024 offset collect_name (shown before, false, offset))
    as (k & l' & Hr & Hk & V & Hh'); [done..|by intros d [[]]; exists 1|].
  assert (Forall listable (lv_list l i 0)) as Hall by (apply Forall_forall; intros d; by apply lv_names).
  assert (Forall listable (take k rest)) as Hds.
  { rewrite Hb in Hall. apply Forall_app in Hall as [_ Hall]. by apply Forall_take. }
  unfold ends, mbind, prog_mbind, prog_bind. cbn [fst snd]. rewrite Hl, Hr, collect_names by done. fold rest. cbn.
  split_and!.
  { eapply moves_mono; [by eapply moves_insert|]. intros j0 i0. cbn. by case_bool_decide. }
  { exists l'. split; [|done]. apply list_lookup_insert_eq. by eapply lookup_lt_Some. }
  destruct (take k rest) as [|d ds] eqn:Ht.
  { assert (rest = []) as Hnil by (destruct k as [|k]; [exact (Hk eq_refl)|by destruct rest]).
    unfold shown at 2. cbn. by rewrite app_nil_r, Hb, Hnil, app_nil_r. }
  assert (exists ds' (e : DirEntry), d :: ds = ds' ++ [e]) as (ds' & d' & Hsnoc).
  { destruct (last (d :: ds)) as [e|] eqn:Hlast; [|by apply last_None in Hlast].
    apply last_Some in Hlast as [ds' ?]. by exists ds', e. }
  rewrite Hsnoc, last_snoc in *. cbn. rewrite <- (take_drop k rest), Ht in Hb.
  rewrite <- app_assoc in Hb. cbn in Hb. exists (ds' ++ [d']). split_and!.
  - by destruct ds'.
  - by rewrite (shown_app before).
  - rewrite app_assoc in Hb. rewrite (lv_cookie l i _ d' _ Hd Hb). by rewrite <- Ht, take_drop.
  - rewrite Hb, !fmap_app. set_solver.
Qed.

(** The names of a directory of one layer. *)
Lemma read_names_ends ctx ri f h w l :
  describes ri f -> w.(w_layers) !! f.(fd_layer) = Some l -> dir_at l f.(fd_inode) -> lv_handle l f.(fd_inode) h ->
  ends (loop (read_names ctx ri h) ([], 0)) (fun names w' =>
    names = shown (lv_list l f.(fd_inode) 0) /\ quiet w w' /\
    exists l', w'.(w_layers) !! f.(fd_layer) = Some l' /\ lv_handle l' f.(fd_inode) h) w.
Proof.
  intros D Hl Hd Hh. set (i := f.(fd_inode)) in *. set (j := f.(fd_layer)) in *.
  apply (ends_loop (fun x w' => quiet w w' /\ (exists l', w'.(w_layers) !! j = Some l' /\ lv_handle l' i h) /\
    exists before, lv_list l i 0 = before ++ lv_list l i x.2 /\ x.1 = shown before /\
      (x.2 = 0 \/ x.2 ∈ d_offset <$> lv_list l i 0))
    (fun x w' => zlen (lv_list l i x.2))).
  - intros. apply zlen_nonneg.
  - intros [names offset] w'. cbn [fst snd]. intros (M & (l' & Hl' & Hh') & before & Hb & -> & Hoff).
    destruct (moves_layer _ _ _ _ _ M Hl) as (l2 & Hl2 & V). simplify_eq.
    eapply ends_mono; [eapply (read_names_round ctx ri f h w' l' before offset); rewrite ?V.(mv_list _ _ _); try done|].
    { by eapply moved_dir. }
    intros r w'' (M' & Hh'' & Hr). rewrite !V.(mv_list _ _ _) in Hr. fold i in Hr.
    assert (quiet w w'') by (by eapply moves_trans). destruct r as [[names offset']|names].
    + destruct Hr as (ds & Hne & -> & Hrest & Hoff'). rewrite !V.(mv_list _ _ _) in *.
      cbn. split_and!; [done..| |].
      * exists (before ++ ds). split_and!; [|done|by right]. rewrite Hb at 1. by rewrite Hrest, app_assoc.
      * rewrite Hrest. unfold zlen. rewrite length_app. destruct ds; [done|]. cbn. lia.
    + by rewrite Hr.
  - split_and!; [apply moves_refl|by exists l|]. exists []. split_and!; [done..|by left].
  - cbn. pose proof (lv_size l i Hd). lia.
Qed.

Lemma good_moves d w w' ri f :
  moves d w w' -> 0 <= d f.(fd_layer) f.(fd_inode) -> good w ri f -> good w' ri f.
Proof. intros M Hd [D B]. split; [done|]. by eapply moves_backed. Qed.

(** The files found under the names [known_names]. *)
Definition table w f (names : list bytes) (m : gmap bytes RealInode) : Prop :=
  forall name, option_Forall2 (good w) (m !! name)
    (if decide (name ∈ names) then find_in w.(w_layers) name f else None).

Lemma table_moves d w w' f names m :
  moves d w w' -> (forall j i, 0 <= d j i) -> table w f names m -> table w' f names m.
Proof.
  intros M Hd Hm name. specialize (Hm name). rewrite (moves_find _ _ _ _ _ M).
  inversion Hm; constructor. eapply good_moves; [done|apply Hd|done].
Qed.

Lemma table_snoc w f names m name r :
  name ∉ names -> m !! name = None -> option_Forall2 (good w) r (find_in w.(w_layers) name f) ->
  table w f names m -> table w f (names ++ [name]) (from_option (fun c => <[name := c]> m) m r).
Proof.
  intros Hnew Hnone Hr Hm name'. destruct (decide (name' = name)) as [->|Hne].
  - rewrite decide_True by set_solver. destruct r as [c|]; cbn; [by rewrite lookup_insert_eq|by rewrite Hnone].
  - specialize (Hm name'). rewrite (decide_ext _ (name' ∈ names)) by set_solver.
    destruct r as [c|]; cbn; [by rewrite lookup_insert_ne|done].
Qed.

Lemma lookup_childs_ends ctx ri f names w acc found :
  good w ri f -> kind_dir f.(fd_kind) = true -> Forall good_name names -> NoDup (found ++ names) ->
  table w f found acc ->
  ends (lookup_childs ctx ri names acc) (fun m w' =>
    moves (fun j i => held (values m) j i - held (values acc) j i) w w' /\ table w' f (found ++ names) m) w.
Proof.
  intros Hri Hdir Hn. revert w acc found Hri.
  induction Hn as [|name names Hname Hn IH]; intros w acc found Hri Hnd Hacc; cbn [lookup_childs].
  { apply ends_mret. rewrite app_nil_r. split; [|done]. eapply moves_mono; [apply moves_refl|]. intros; cbn; lia. }
  assert (name ∉ found) as Hnew by (apply NoDup_app in Hnd as (_ & Hd & _); intros Hf; apply (Hd _ Hf); left).
  pose proof (Hacc name) as Hnone. rewrite decide_False in Hnone by done. inversion Hnone as [|Heq]; subst.
  eapply ends_bind; [by apply ends_or_drop, lookup_child_ends|]. intros r w' [M Hr].
  assert (forall j i, 0 <= held (option_list r) j i) as Hpos by (intros; apply held_nonneg).
  assert (good w' ri f) as Hri' by (eapply good_moves; [done|apply Hpos|done]).
  pose proof (table_moves _ _ _ _ _ _ M Hpos Hacc) as Hacc'. rewrite <- (moves_find _ _ _ _ _ M) in Hr.
  rewrite cons_middle, app_assoc in Hnd |- *.
  pose proof (table_snoc _ _ _ _ _ _ Hnew (eq_sym Heq) Hr Hacc') as Hsnoc. destruct r as [c|]; cbn in Hsnoc.
  - eapply ends_bind; [by apply (ends_mret tt (fun _ w2 => w2 = w'))|].
    intros _ ? ->. eapply ends_mono; [by apply (IH w' (<[name := c]> acc) (found ++ [name]))|].
    intros m w'' [M' Hm]. split; [|done]. eapply moves_trans; [exact M|exact M'|]. intros j i.
    cbv beta. rewrite (values_insert acc name c) by done. cbn. lia.
  - eapply ends_mono; [by apply (IH w' acc (found ++ [name]))|]. intros m w'' [M' Hm]. split; [|done].
    eapply moves_trans; [exact M|exact M'|]. intros j i. cbn. lia.
Qed.

(** The files of one directory of one layer. *)
Definition whole w f (m : gmap bytes RealInode) : Prop :=
  forall name, option_Forall2 (good w) (m !! name) (find_in w.(w_layers) name f).

(** The calls that open and close the directory may not be supported. *)
Lemma opendir_ends ctx ri f w l :
  describes ri f -> w.(w_layers) !! f.(fd_layer) = Some l -> dir_at l f.(fd_inode) ->
  ends (r ← catch (on_layer ri.(ri_layer) (fs_op (op_opendir ctx ri.(ri_inode) O_RDONLY)));
        match r with
        | inr (h, _) => mret (default 0 h)
        | inl e => if bool_decide (raw_os_error e = Some ENOSYS) then mret 0 else fail e
        end)
    (fun h w' => quiet w w' /\ exists l', w'.(w_layers) !! f.(fd_layer) = Some l' /\ lv_handle l' f.(fd_inode) h) w.
Proof.
  intros D Hl Hd. rewrite D.(ds_layer _ _), D.(ds_inode _ _).
  eapply (ends_bind _ _ (fun r w' => quiet w w' /\ exists l', w'.(w_layers) !! f.(fd_layer) = Some l' /\ match r with
    | inr (h, _) => lv_handle l' f.(fd_inode) (default 0 h)
    | inl e => raw_os_error e = Some ENOSYS /\ lv_handle l' f.(fd_inode) 0 end)).
  - apply ends_catch_on_layer. eapply ends_on_layer_quiet; [done|].
    pose proof (lv_opendir ctx l _ Hd) as Ho. unfold ends, catch.
    destruct (fs_op _ l) as [l' [[h o]|e|]]; [naive_solver..|done].
  - intros [e|[h o]] w' (M & l' & Hl' & Hr); [|apply ends_mret; eauto].
    destruct Hr as [-> Hr]. rewrite bool_decide_true by done. apply ends_mret; eauto.
Qed.

Lemma releasedir_ends ctx ri f w l h :
  describes ri f -> w.(w_layers) !! f.(fd_layer) = Some l -> lv_handle l f.(fd_inode) h ->
  ends (r ← catch (on_layer ri.(ri_layer) (fs_op (op_releasedir ctx ri.(ri_inode) O_RDONLY h)));
        match r with
        | inr _ => mret tt
        | inl e => if bool_decide (raw_os_error e = Some ENOSYS) then mret tt else fail e
        end) (fun _ w' => quiet w w') w.
Proof.
  intros D Hl Hh. rewrite D.(ds_layer _ _), D.(ds_inode _ _).
  eapply (ends_bind _ _ (fun r w' => quiet w w' /\ match r with inl e => raw_os_error e = Some ENOSYS | _ => True end)).
  - apply ends_catch_on_layer. eapply ends_on_layer_quiet; [done|].
    pose proof (lv_releasedir ctx l _ _ Hh) as Ho. unfold ends, catch.
    destruct (fs_op _ l) as [l' [[]|e|]]; [naive_solver..|done].
  - intros [e|[]] w' [M He]; [rewrite He, bool_decide_true by done|]; by apply ends_mret.
Qed.

Lemma table_whole w f m l :
  w.(w_layers) !! f.(fd_layer) = Some l -> dir_at l f.(fd_inode) ->
  table w f (shown (lv_list l f.(fd_inode) 0)) m -> whole w f m.
Proof.
  intros Hl Hd Hm name. specialize (Hm name). case_decide as Hin; [done|].
  assert (find_in w.(w_layers) name f = None) as ->; [|done].
  unfold find_in. destruct (dot_name name) eqn:Hdot; [done|]. rewrite Hl. cbn.
  destruct (lv_child l f.(fd_inode) name) as [c|] eqn:Hc; [|done]. destruct Hin.
  apply list_elem_of_filter. split; [done|]. by apply lv_listed; [..|rewrite Hc].
Qed.

Lemma shown_good l i : dir_at l i -> Forall good_name (shown (lv_list l i 0)) /\ NoDup (shown (lv_list l i 0)).
Proof.
  intros Hd. split; [|by apply NoDup_filter, lv_nodup]. apply Forall_forall.
  intros name [Hdot (d & -> & Hin)%list_elem_of_fmap]%list_elem_of_filter.
  by destruct (lv_names l i d Hd Hin) as [E|[E|]]; [rewrite E in Hdot..|].
Qed.

Lemma ri_readdir_ends ctx ri f w :
  good w ri f -> kind_dir f.(fd_kind) = true ->
  ends (ri_readdir ctx ri) (fun m w' => moves (held (values m)) w w' /\ whole w' f m) w.
Proof.
  intros Hri Hdir. destruct (Hri) as [D (l & Hl & Hk & Hkind & H0)].
  assert (dir_at l f.(fd_inode)) as Hd by (split; [done|by rewrite Hkind]).
  unfold ri_readdir. rewrite D.(ds_whiteout _ _).
  replace (is_wh f.(fd_kind)) with false by (by destruct f.(fd_kind)).
  eapply ends_bind; [apply (stat_or_ask_ends ctx ri f (fun st w' => w' = w /\ st_is_dir st = true)); [done|]|].
  { intros st Hst. by rewrite Hst. }
  intros st ? [-> ->]. cbn [negb].
  apply ends_assoc. eapply ends_bind; [by apply (opendir_ends ctx ri f w l)|]. intros h w1 (M1 & l1 & Hl1 & Hh).
  destruct (moves_dir _ _ _ _ _ _ M1 Hl Hd) as (l1' & Hl1' & V1 & Hd1); [done|]. simplify_eq.
  eapply ends_bind; [by apply (read_names_ends ctx ri f h w1 l1)|]. intros names w2 (-> & M2 & l2 & Hl2 & Hh2).
  eapply (ends_bind _ _ (fun _ w' => quiet w2 w')).
  { destruct (0 <? h); [by eapply releasedir_ends|apply ends_mret, moves_refl]. }
  intros _ w3 M3.
  assert (quiet w w3) as M by (eapply moves_trans; [by eapply moves_trans|done|done]).
  destruct (shown_good l1 _ Hd1) as [Hgood Hnd].
  eapply ends_mono; [apply (lookup_childs_ends ctx ri f _ w3 ∅ []); try done|].
  - by eapply good_moves.
  - intros name. rewrite lookup_empty, decide_False by set_solver. constructor.
  - cbn [app]. intros m w4 [M4 Hm]. rewrite values_empty in M4. split; [eapply moves_trans; [exact M|exact M4|]; intros; cbn; lia|].
    destruct (moves_dir _ _ _ _ _ _ M Hl Hd) as (l3 & Hl3 & V3 & Hd3); [done|].
    destruct (moves_dir _ _ _ _ _ _ M4 Hl3 Hd3) as (l4 & Hl4 & V4 & Hd4); [cbn; pose proof (held_nonneg (values m) f.(fd_layer) f.(fd_inode)); lia|].
    apply (table_whole _ _ _ l4); [done..|]. by rewrite V4.(mv_list _ _ _), V3.(mv_list _ _ _), <- V1.(mv_list _ _ _).
Qed.

(** ** Merging *)

(** The files of each name in the directories read so far. *)
Definition files w (fs : list Found) (all : gmap bytes (list RealInode)) : Prop :=
  forall name, Forall2 (good w) (default [] (all !! name)) (omap (find_in w.(w_layers) name) fs) /\ all !! name <> Some [].

Lemma moves_omap d w w' name (fs : list Found) :
  moves d w w' -> omap (find_in w'.(w_layers) name) fs = omap (find_in w.(w_layers) name) fs.
Proof. intros M. induction fs as [|f fs IH]; [done|]. cbn. by rewrite (moves_find _ _ _ _ _ M), IH. Qed.

Lemma files_moves d w w' fs all :
  moves d w w' -> (forall j i, 0 <= d j i) -> files w fs all -> files w' fs all.
Proof.
  intros M Hd Hall name. destruct (Hall name) as [Hf Hne]. split; [|done].
  rewrite (moves_omap _ _ _ _ _ M). eapply Forall2_impl; [exact Hf|]. intros ri f Hg.
  eapply good_moves; [done|apply Hd|done].
Qed.

Lemma files_merge w fs f all m :
  files w fs all -> whole w f m -> files w (fs ++ [f]) (merge_entries all m).
Proof.
  intros Hall Hm name. destruct (Hall name) as [Hf Hne]. specialize (Hm name).
  rewrite merge_entries_lookup, omap_app. cbn. inversion Hm as [ri f' Hg E1 E2|E1 E2]; cbn.
  - split; [|by destruct (default [] (all !! name))]. by apply Forall2_app; [|constructor].
  - by rewrite app_nil_r.
Qed.

Lemma goods_moves d w w' rs fs :
  moves d w w' -> (forall j i, 0 <= d j i) -> Forall2 (good w) rs fs -> Forall2 (good w') rs fs.
Proof. intros M Hd Hrs. eapply Forall2_impl; [exact Hrs|]. intros. eapply good_moves; [done|apply Hd|done]. Qed.

Lemma scan_layers_ends ctx fs rs w all before :
  Forall2 (good w) rs fs -> files w before all ->
  ends (scan_layers ctx rs all) (fun all' w' =>
    moves (fun j i => held_all all' j i - held_all all j i) w w' /\ files w' (before ++ visible fs) all') w.
Proof.
  revert rs w all before. induction fs as [|f fs IH]; intros rs w all before Hrs Hall.
  { apply Forall2_nil_inv_r in Hrs as ->. apply ends_mret. rewrite app_nil_r.
    split; [|done]. eapply moves_mono; [apply moves_refl|]. intros; cbn; lia. }
  apply Forall2_cons_inv_r in Hrs as (ri & rs' & Hri & Hrs & ->). pose proof (proj1 Hri) as D.
  assert (forall all0 : gmap bytes (list RealInode), moves (fun j i => held_all all0 j i - held_all all0 j i) w w) as Hsame.
  { intros. eapply moves_mono; [apply moves_refl|]. intros; cbn; lia. }
  cbn [scan_layers visible]. rewrite D.(ds_whiteout _ _), D.(ds_opaque _ _).
  destruct f.(fd_kind) as [|o|] eqn:Hk; cbn [is_wh is_opaque].
  { apply ends_mret. rewrite app_nil_r. by split. }
  all: eapply ends_bind; [apply ends_or_drop, (stat_or_ask_ends ctx ri f (fun st w' => w' = w /\ st_is_dir st = kind_dir f.(fd_kind))); [done|by intros]|].
  all: intros st ? [-> ->]; rewrite Hk; cbn [kind_dir negb].
  2: { apply ends_mret. rewrite app_nil_r. by split. }
  eapply ends_bind; [apply ends_or_drop, ri_readdir_ends; [done|by rewrite Hk]|]. intros m w' [M Hm].
  assert (forall j i, 0 <= held (values m) j i) as Hpos by (intros; apply held_nonneg).
  pose proof (files_merge _ _ _ _ _ (files_moves _ _ _ _ _ M Hpos Hall) Hm) as Hall'.
  pose proof (goods_moves _ _ _ _ _ M Hpos Hrs) as Hrs'. destruct o.
  - apply ends_mret. split; [|done]. eapply moves_mono; [exact M|]. intros j i. cbn. rewrite merge_entries_held. lia.
  - eapply ends_mono; [by apply (IH rs' w' (merge_entries all m) (before ++ [f]))|].
    intros all' w'' [M' Hf]. rewrite <- app_assoc in Hf. split; [|done].
    eapply moves_trans; [exact M|exact M'|]. intros j i. cbn. rewrite merge_entries_held. lia.
Qed.

(** ** Dropping *)

(** The layers count the references of the real inodes. *)
Definition owned w rs : Prop := forall j i, held rs j i <= refs w j i.

Lemma owned_moves d w w' rs rs' :
  owned w rs -> moves d w w' -> (forall j i, held rs' j i <= held rs j i + d j i) -> owned w' rs'.
Proof. intros Ho M Hd j i. rewrite (moves_refs _ _ _ _ _ M). specialize (Ho j i). specialize (Hd j i). lia. Qed.

Lemma owned_cons w ri rs : owned w (ri :: rs) -> owned w rs.
Proof. intros Ho j i. specialize (Ho j i). cbn in Ho. case_bool_decide; lia. Qed.

Lemma drop_real_inode_ends ri w :
  0 < refs w ri.(ri_layer) ri.(ri_inode) ->
  ends (drop_real_inode ri) (fun _ w' => moves (fun j i => - held [ri] j i) w w') w.
Proof.
  unfold refs. destruct (w.(w_layers) !! ri.(ri_layer)) as [l|] eqn:Hl; [|done]. intros Hr. unfold drop_real_inode.
  eapply (ends_bind _ _ (fun _ w' => moves (fun j i => - held [ri] j i) w w')); [|by intros; apply ends_mret].
  eapply ends_mono; [apply (ends_catch _ (fun _ w' => moves (fun j i => - held [ri] j i) w w'))|by intros [e|[]]].
  eapply (ends_on_layer _ _ (fun _ k => - one ri.(ri_inode) k)); [done|]. eapply ends_mono; [by apply lv_forget|].
  cbn. intros _ l' V. split; [done|]. intros w' M _. eapply moves_mono; [exact M|]. intros j i. unfold one.
  repeat case_bool_decide; destruct (Z.eqb_spec i ri.(ri_inode)); naive_solver lia.
Qed.

Lemma drop_real_inodes_ends rs w :
  owned w rs -> ends (drop_real_inodes rs) (fun _ w' => moves (fun j i => - held rs j i) w w') w.
Proof.
  revert w. induction rs as [|ri rs IH]; intros w Ho; cbn [drop_real_inodes].
  { apply ends_mret, moves_refl. }
  eapply ends_bind; [apply drop_real_inode_ends|].
  - specialize (Ho ri.(ri_layer) ri.(ri_inode)). cbn in Ho. rewrite bool_decide_true in Ho by done.
    pose proof (held_nonneg rs ri.(ri_layer) ri.(ri_inode)). lia.
  - intros ? w' M. eapply ends_mono; [apply IH; eapply owned_moves; [exact Ho|exact M|]; intros; cbn; lia|].
    intros ? w'' M'. eapply moves_trans; [exact M|exact M'|]. intros; cbn; lia.
Qed.

(** ** [OverlayInode] *)

Lemma append_real_inodes_ends gs rs new w ns :
  Forall2 describes new.(on_real_inodes) ns -> Forall2 describes rs gs -> owned w rs ->
  ends (append_real_inodes new rs) (fun n w' =>
    Forall2 describes n.(on_real_inodes) (ns ++ visible gs) /\ n = set_real_inodes new n.(on_real_inodes) /\
    moves (fun j i => held n.(on_real_inodes) j i - held new.(on_real_inodes) j i - held rs j i) w w') w.
Proof.
  revert rs new w ns. induction gs as [|g gs IH]; intros rs new w ns Hns Hrs Ho.
  { apply Forall2_nil_inv_r in Hrs as ->. apply ends_mret. rewrite app_nil_r. split_and!; [done|by destruct new|].
    eapply moves_mono; [apply moves_refl|]. intros; cbn; lia. }
  apply Forall2_cons_inv_r in Hrs as (ri & rs' & D & Hrs & ->). cbn [append_real_inodes visible].
  eapply ends_bind; [apply ends_or_drop, (stat_or_ask_ends _ ri g (fun st w' => w' = w /\ st_is_dir st = kind_dir g.(fd_kind))); [done|by intros]|].
  intros st ? [-> ->]. rewrite D.(ds_whiteout _ _), D.(ds_opaque _ _).
  destruct g.(fd_kind) as [|[]|] eqn:Hk; cbn [is_wh kind_dir is_opaque negb].
  1,4: eapply ends_bind; [by apply drop_real_inodes_ends|]; intros ? w' M; apply ends_mret; rewrite app_nil_r;
    split_and!; [done|by destruct new|]; eapply moves_mono; [exact M|]; intros; cbn; lia.
  - eapply ends_bind; [apply drop_real_inodes_ends; by eapply owned_cons|]. intros ? w' M. apply ends_mret. cbn.
    split_and!; [by apply Forall2_app; [|constructor]|done|]. eapply moves_mono; [exact M|].
    intros. cbn. rewrite held_app. cbn. lia.
  - eapply ends_mono; [apply (IH rs' (set_real_inodes new (new.(on_real_inodes) ++ [ri])) w (ns ++ [g]))|].
    + by apply Forall2_app; [|constructor].
    + done.
    + by eapply owned_cons.
    + cbn. intros n w' (Hn & -> & M). rewrite <- app_assoc in Hn. split_and!; [done..|].
      eapply moves_mono; [exact M|]. intros. cbn. rewrite held_app. cbn. lia.
Qed.

(** Files of the same name, from the upper layer down, make an overlay inode. *)
Lemma new_from_real_inodes_ends name ino path gs rs w :
  rs <> [] -> Forall2 describes rs gs -> owned w rs ->
  ends (new_from_real_inodes name ino path rs) (fun n w' =>
    Forall2 describes n.(on_real_inodes) (merged gs) /\
    (exists ri, n = set_real_inodes (new_from_real_inode name ino path ri) n.(on_real_inodes) /\
       ri.(ri_whiteout) = from_option (fun g => is_wh g.(fd_kind)) false (head gs)) /\
    moves (fun j i => held n.(on_real_inodes) j i - held rs j i) w w') w.
Proof.
  intros Hne Hrs Ho. destruct Hrs as [|ri g rs gs D Hrs]; [done|]. cbn [new_from_real_inodes merged head from_option].
  eapply ends_bind; [apply ends_or_drop, (stat_or_ask_ends _ ri g (fun st w' => w' = w /\ st_is_dir st = kind_dir g.(fd_kind))); [done|by intros]|].
  intros st ? [-> ->]. rewrite D.(ds_whiteout _ _), D.(ds_opaque _ _).
  pose proof (owned_cons _ _ _ Ho) as Ho'. pose proof (D.(ds_whiteout _ _)) as Hwh.
  destruct g.(fd_kind) as [|[]|] eqn:Hk; cbn [is_wh kind_dir is_opaque negb].
  1,2,4: eapply ends_bind; [by apply drop_real_inodes_ends|]; intros ? w' M; apply ends_mret; cbn;
    split_and!; [by constructor|by exists ri|]; eapply moves_mono; [exact M|]; intros; cbn; lia.
  eapply ends_mono; [apply (append_real_inodes_ends gs rs (new_from_real_inode name ino path ri) w [g]); try done|].
  - by constructor.
  - intros n w' (Hn & -> & M). split_and!; [done|by exists ri|]. eapply moves_mono; [exact M|]. intros. cbn. lia.
Qed.

Lemma build_childrens_ends path (G : bytes -> list Found) (l : list (bytes * list RealInode)) acc w :
  Forall (fun e => e.2 <> [] /\ Forall2 describes e.2 (G e.1)) l -> owned w (concat l.*2) ->
  ends (build_childrens path l acc) (fun nodes w' => exists new, nodes = acc ++ new /\
    Forall2 (fun e n => n.(on_name) = e.1 /\ scanned path (merged (G e.1)) n) l new /\
    moves (fun j i => held (new ≫= on_real_inodes) j i - held (concat l.*2) j i) w w') w.
Proof.
  revert acc w. induction l as [|[name rs] l IH]; intros acc w Hl Ho; cbn [build_childrens].
  { apply ends_mret. exists []. rewrite app_nil_r. split_and!; [done|constructor|apply moves_refl]. }
  apply Forall_cons in Hl as [[Hne Hrs] Hl]. cbn in *.
  assert (owned w rs) as Ho'.
  { intros j i. specialize (Ho j i). rewrite held_app in Ho. pose proof (held_nonneg (concat l.*2) j i). lia. }
  eapply ends_bind; [by apply ends_or_drop, (new_from_real_inodes_ends _ _ _ (G name))|].
  intros n w' (Hn & (ri & Heq & Hwh) & M). eapply ends_mono; [apply IH; [done|]|].
  { eapply owned_moves; [exact Ho|exact M|]. intros. cbn. rewrite held_app.
    match goal with |- context [held n.(on_real_inodes) ?j ?i] => pose proof (held_nonneg n.(on_real_inodes) j i) end. lia. }
  intros nodes w'' (new & -> & Hnew & M'). exists (n :: new). rewrite <- app_assoc. split_and!; [done| |].
  - constructor; [|done]. rewrite Heq. cbn. split; [done|]. split; cbn; [done..| |done|by rewrite Heq in Hn].
    rewrite Hwh. by destruct (G name).
  - eapply moves_trans; [exact M|exact M'|]. intros. cbn. rewrite !held_app. lia.
Qed.

Lemma merged_backed w gs : Forall (backed w) gs -> Forall (backed w) (merged gs).
Proof.
  assert (forall gs, Forall (backed w) gs -> Forall (backed w) (visible gs)) as Hv.
  { induction 1 as [|g gs' Hg Hgs IH]; cbn; [constructor|]. destruct g.(fd_kind) as [|[]|]; auto. }
  destruct 1 as [|g gs' Hg Hgs]; cbn; [constructor|]. constructor; [done|]. destruct g.(fd_kind) as [|[]|]; auto.
Qed.

(** Files whose references are counted stay in use. *)
Lemma goods_owned d w w' rs fs :
  moves d w w' -> owned w' rs -> Forall2 describes rs fs -> Forall (backed w) fs -> Forall2 (good w') rs fs.
Proof.
  intros M Ho Hrs. assert (forall j i ri, ri ∈ rs -> ri.(ri_layer) = j -> ri.(ri_inode) = i -> 0 < refs w' j i) as Hpos.
  { intros j i ri (l1 & l2 & ->)%list_elem_of_split Hj Hi. specialize (Ho j i). rewrite held_app in Ho. cbn in Ho.
    rewrite bool_decide_true in Ho by done. pose proof (held_nonneg l1 j i). pose proof (held_nonneg l2 j i). lia. }
  clear Ho. induction Hrs as [|ri f rs fs D Hrs IH]; intros Hfs; [constructor|]. apply Forall_cons in Hfs as [Hf Hfs].
  constructor; [|apply IH; [|done]; intros; eapply Hpos; [right; done|done..]]. split; [done|].
  destruct Hf as (l & Hl & [Hok _] & Hkind & H0). destruct (moves_layer _ _ _ _ _ M Hl) as (l' & Hl' & V).
  exists l'. split_and!; [done| |by rewrite V.(mv_kind _ _ _)|done]. split; [by apply V|right].
  specialize (Hpos _ _ ri ltac:(left) D.(ds_layer _ _) D.(ds_inode _ _)). unfold refs in Hpos. by rewrite Hl' in Hpos.
Qed.

Lemma stat64_ignore_enoent_ends ctx ri f w : ri.(ri_layer) = f.(fd_layer) -> ri.(ri_inode) = f.(fd_inode) -> backed w f ->
  ends (stat64_ignore_enoent ctx ri) (fun v w' => exists st, v = Some st /\ quiet w w' /\
    forall l, w.(w_layers) !! f.(fd_layer) = Some l -> stat_of l f.(fd_inode) st) w.
Proof.
  intros H1 H2 B. unfold stat64_ignore_enoent. eapply ends_bind; [by apply ends_catch, (ri_stat64_ends ctx ri f)|].
  intros [e|st] w' Hst; [done|]. apply ends_mret. by exists st.
Qed.

Lemma get_node_ends a n w : w.(w_nodes) !! a = Some n -> ends (get_node a) (fun m w' => m = n /\ w' = w) w.
Proof. intros Ha. unfold ends, get_node. by rewrite Ha. Qed.

(** The attributes of an overlay inode are those of its first file. *)
Lemma ovi_stat64_ends ctx a n w f fs :
  w.(w_nodes) !! a = Some n -> Forall2 (good w) n.(on_real_inodes) (f :: fs) ->
  ends (ovi_stat64 ctx a) (fun st w' => quiet w w' /\ st_is_dir st = kind_dir f.(fd_kind) /\
    forall l, w.(w_layers) !! f.(fd_layer) = Some l -> stat_of l f.(fd_inode) st) w.
Proof.
  intros Ha Hrs. unfold ovi_stat64. eapply ends_bind; [by apply get_node_ends|]. intros ? ? [-> ->].
  apply Forall2_cons_inv_r in Hrs as (ri & rs & Hri & _ & ->). cbn [first_stat64].
  destruct Hri as [[] B]. eapply ends_bind; [by apply (stat64_ignore_enoent_ends ctx ri f)|].
  intros ? w' (st & -> & M & Hst). apply ends_mret. split_and!; [done| |done].
  destruct B as (l & Hl & _ & Hkind & _). destruct (Hst l Hl) as [-> _]. by rewrite Hkind.
Qed.

(** What a scan of a merged directory returns. *)
Record scan_of w w' (path : bytes) (fs : list Found) (nodes : list OverlayInode) : Prop := {
  so_names : NoDup (on_name <$> nodes);
  so_sound : forall c, c ∈ nodes -> let gs := entry w.(w_layers) fs c.(on_name) in
    gs <> [] /\ scanned path gs c /\ Forall2 (good w') c.(on_real_inodes) gs;
  so_complete : forall name, entry w.(w_layers) fs name <> [] -> name ∈ on_name <$> nodes;
  so_moves : moves (held (nodes ≫= on_real_inodes)) w w';
}.

Lemma held_elem (nodes : list OverlayInode) c j i :
  c ∈ nodes -> held c.(on_real_inodes) j i <= held (nodes ≫= on_real_inodes) j i.
Proof.
  intros (l1 & l2 & ->)%list_elem_of_split. rewrite bind_app. cbn. rewrite !held_app.
  pose proof (held_nonneg (l1 ≫= on_real_inodes) j i). pose proof (held_nonneg (l2 ≫= on_real_inodes) j i). lia.
Qed.

(** The overlay inodes made of the files of all names. *)
Lemma scan_of_built w w2 w' path fs all nodes :
  moves (held_all all) w w2 -> files w2 (visible fs) all ->
  Forall2 (fun e n => n.(on_name) = e.1 /\
    scanned path (entry w.(w_layers) fs e.1) n) (map_to_list all) nodes ->
  moves (fun j i => held (nodes ≫= on_real_inodes) j i - held_all all j i) w2 w' ->
  scan_of w w' path fs nodes.
Proof.
  intros M2 Hall Hnodes M3.
  assert (on_name <$> nodes = (map_to_list all).*1) as Hnames.
  { clear -Hnodes. induction Hnodes as [|e n l k [He _] _ IH]; cbn; [done|]. by rewrite He, IH. }
  assert (moves (held (nodes ≫= on_real_inodes)) w w') as M by (eapply moves_trans; [exact M2|exact M3|]; intros; cbn; lia).
  split; [rewrite Hnames; apply NoDup_fst_map_to_list| | |done].
  - intros c (k & Hk)%list_elem_of_lookup. destruct (Forall2_lookup_r _ _ _ _ _ Hnodes Hk) as ([name rs] & He & Hname & Hc).
    cbn in *. subst name. pose proof (list_elem_of_lookup_2 _ _ _ He) as Hin%elem_of_map_to_list.
    destruct (Hall c.(on_name)) as [Hf Hne]. rewrite Hin in *. cbn in Hf. rewrite (moves_omap _ _ _ _ _ M2) in Hf.
    split_and!; [|done|].
    + unfold entry. inversion Hf; [by subst|done].
    + eapply goods_owned; [exact M3| |apply Hc|].
      * intros j i. rewrite (moves_refs _ _ _ _ _ M). pose proof (refs_nonneg w j i).
        pose proof (held_elem nodes c j i (list_elem_of_lookup_2 _ _ _ Hk)). lia.
      * apply merged_backed. eapply Forall2_Forall_r; [exact Hf|]. apply Forall_true. by intros ri f [_ B].
  - intros name Hne. rewrite Hnames. destruct (Hall name) as [Hf _]. rewrite (moves_omap _ _ _ _ _ M2) in Hf.
    destruct (all !! name) as [rs|] eqn:Hin.
    + apply list_elem_of_fmap. exists (name, rs). split; [done|]. by apply elem_of_map_to_list.
    + apply Forall2_nil_inv_l in Hf. unfold entry in Hne. by rewrite Hf in Hne.
Qed.

Lemma scan_childrens_ends ctx a n w f fs :
  w.(w_nodes) !! a = Some n -> Forall2 (good w) n.(on_real_inodes) (f :: fs) -> kind_dir f.(fd_kind) = true ->
  ends (scan_childrens ctx a) (fun nodes w' => scan_of w w' n.(on_path) (f :: fs) nodes) w.
Proof.
  intros Ha Hrs Hdir. unfold scan_childrens. eapply ends_bind; [by eapply ovi_stat64_ends|]. intros st w1 (M1 & -> & _). rewrite Hdir.
  cbn [negb]. eapply ends_bind; [apply (get_node_ends a n); by rewrite M1.(ms_nodes _ _ _)|]. intros ? ? [-> ->].
  eapply ends_bind; [apply (scan_layers_ends ctx (f :: fs) _ w1 ∅ [])|].
  { by eapply goods_moves. }
  { intros name. by rewrite lookup_empty. }
  intros all w2 [M2 Hall]. rewrite app_nil_l in Hall.
  assert (moves (held_all all) w w2) as M.
  { eapply moves_trans; [exact M1|exact M2|]. intros j i. cbn. unfold held_all at 3. rewrite values_empty. cbn. lia. }
  assert (owned w2 (concat (values all))) as Ho.
  { intros j i. rewrite (moves_refs _ _ _ _ _ M). pose proof (refs_nonneg w j i). unfold held_all. lia. }
  eapply ends_mono; [apply (build_childrens_ends _ (fun name => omap (find_in w.(w_layers) name) (visible (f :: fs))))|].
  - apply Forall_forall. intros [name rs] Hin%elem_of_map_to_list. destruct (Hall name) as [Hf Hne].
    rewrite Hin in *. cbn. split; [by intros ->|]. rewrite <- (moves_omap _ _ _ _ _ M).
    eapply Forall2_impl; [exact Hf|]. by intros ri g [].
  - done.
  - intros ? w3 (new & -> & Hnew & M3). rewrite app_nil_l. by eapply scan_of_built.
Qed.
End scan.
