(* ===== verification/OverlayTree.v ===== *)
(** * The tree of overlay inodes mirrors the union

    [mirrors]: the overlay inodes form a tree of paths; the real inodes of each
    describe the files of its path in the union of the layers, and a directory
    that was loaded has all its children.  The invariant holds when the layers
    have been imported, and every look-up keeps it. *)

From stdpp Require Import list gmap.
From S2P Require Import Prelude Std Abi AbiStruct FsTypes FileSystem Vfs ProgLogic Host Layer OverlayStore Overlay.
From S2P Require Import OverlayOps OverlaySync OverlayLaws OverlayUnion.

(** ** Paths *)

(** The [path] of an overlay inode. *)
Definition join (p : list bytes) : bytes := concat (map (fun name => SLASH :: name) p).

Lemma good_plain name : good_name name -> plain_name name = true.
Proof.
  intros (Hdot & _ & _ & Hs). unfold dot_name in Hdot. unfold plain_name.
  rewrite !orb_false_iff in Hdot. destruct Hdot as [[-> H1] H2]. unfold CURRENT_DIR, PARENT_DIR in *. rewrite H1, H2.
  rewrite !andb_true_r. apply forallb_forall. intros c Hc. apply negb_true_iff, Z.eqb_neq. intros ->.
  unfold contains in Hs. rewrite <- not_true_iff_false, existsb_exists in Hs. apply Hs. exists SLASH. by split; [|apply Z.eqb_refl].
Qed.

Lemma join_inj p q : Forall good_name p -> Forall good_name q -> join p = join q -> p = q.
Proof.
  intros Hp Hq E.
  assert (forall p, Forall good_name p -> forallb plain_name p = true) as Hplain.
  { intros r Hr. apply forallb_forall. intros x Hx. apply good_plain. rewrite Forall_forall in Hr. apply Hr. by apply list_elem_of_In. }
  pose proof (split_join_tail p (Hplain p Hp)) as Ep. pose proof (split_join_tail q (Hplain q Hq)) as Eq.
  unfold join in E. rewrite E, Eq in Ep. clear -Ep. revert q Ep.
  induction p as [|x p IH]; intros [|y q] [=]; [done|]. f_equal; auto.
Qed.

Lemma join_snoc p name : join (p ++ [name]) = join p ++ SLASH :: name.
Proof. unfold join. rewrite map_app, concat_app. cbn. by rewrite app_nil_r. Qed.

Lemma size_set_map_le {A B} `{Countable A, Countable B} (f : A -> B) (X : gset A) :
  (size (set_map f X : gset B) <= size X)%nat.
Proof.
  induction X as [|x X Hx IH] using set_ind_L; [by rewrite set_map_empty|].
  rewrite set_map_union_L, set_map_singleton_L, (size_union {[x]}) by set_solver.
  rewrite size_singleton, size_union_alt, size_singleton.
  assert (size ((set_map f X : gset B) ∖ {[f x]}) <= size (set_map f X : gset B))%nat by (apply subseteq_size; set_solver).
  lia.
Qed.

Lemma resolve_snoc {L : Type} `{!Viewed L} (layers : list L) fs p name :
  resolve layers fs (p ++ [name]) = entry layers (resolve layers fs p) name.
Proof. unfold resolve. by rewrite foldl_app. Qed.

(** A client looks up one name after the other, from an inode on. *)
Fixpoint walk {S : Type} `{FileSystem S} (ctx : Context) (inode : Z) (name : bytes) (rest : list bytes)
    : prog S io_error Entry :=
  match rest with
  | [] => fs_op (op_lookup ctx inode name)
  | name' :: rest' => e ← fs_op (op_lookup ctx inode name); walk ctx e.(en_inode) name' rest'
  end.

Section tree.
Context {L : Type} `{LAYER : Layer L} `{VIEWED : !Viewed L} `{LVIEW : !LayerView L}.
(** The roots of the layers, the paths of all files in the union, of which there
    are fewer than inode numbers, and the configuration. *)
Context (roots : list Found) (paths : gset (list bytes)) (params : OvConfig).
Hypothesis Hsize : Z.of_nat (size paths) < VFS_MAX_INO.
Implicit Types (w : World L) (tr : gmap (list bytes) nat) (p : list bytes) (name : bytes) (a b : nat).

Definition files_of w p : list Found := resolve w.(w_layers) roots p.

(** ** The invariant *)

(** The overlay inode of a path; [busy] while its directory is being loaded. *)
Record node_at w tr (busy : bool) p (n : OverlayInode) : Prop := {
  na_path : n.(on_path) = join p;
  na_names : Forall good_name p;
  na_name : n.(on_name) = default [] (last p);
  na_files : Forall2 (good w) n.(on_real_inodes) (files_of w p);
  na_some : files_of w p <> [];
  na_whiteout : n.(on_whiteout) = from_option (fun f => is_wh f.(fd_kind)) false (head (files_of w p));
  na_children : forall name, n.(on_childrens) !! name = tr !! (p ++ [name]);
  na_loaded : n.(on_loaded) = true -> forall name, files_of w (p ++ [name]) <> [] -> is_Some (tr !! (p ++ [name]));
  na_empty : n.(on_loaded) = false -> busy = false -> n.(on_childrens) = ∅;
}.

(** [tr] has the address of the overlay inode of each path that was met. *)
Record mirrors (busy : option (list bytes)) tr w : Prop := {
  mi_node : forall p a, tr !! p = Some a -> exists n, w.(w_nodes) !! a = Some n /\
    node_at w tr (bool_decide (busy = Some p)) p n /\ w.(w_fs).(ov_inodes).(is_inodes) !! n.(on_inode) = Some a;
  mi_inj : forall p q a, tr !! p = Some a -> tr !! q = Some a -> p = q;
  mi_parent : forall p name, is_Some (tr !! (p ++ [name])) -> is_Some (tr !! p);
  mi_nodes : forall a, is_Some (w.(w_nodes) !! a) -> (a < w.(w_next))%nat /\ exists p, tr !! p = Some a;
  mi_root : w.(w_fs).(ov_inodes).(is_inodes) !! ROOT_ID = tr !! [] /\ is_Some (tr !! []);
  mi_store : forall i a, w.(w_fs).(ov_inodes).(is_inodes) !! i = Some a ->
    exists n, w.(w_nodes) !! a = Some n /\ n.(on_inode) = i;
  mi_deleted : w.(w_fs).(ov_inodes).(is_deleted) = ∅;
  mi_mapped : forall s i, w.(w_fs).(ov_inodes).(is_path_mapping) !! s = Some i ->
    exists p, s = join p /\ Forall good_name p /\ is_Some (tr !! p);
  mi_counter : 1 <= w.(w_fs).(ov_inodes).(is_next_inode) <= VFS_MAX_INO + 1;
  mi_static : w.(w_fs).(ov_handles) = ∅ /\ w.(w_fs).(ov_config) = params;
  mi_paths : forall p, Forall good_name p -> files_of w p <> [] -> p ∈ paths;
}.

Lemma alike_entry w w' fs name : alike w w' -> entry w'.(w_layers) fs name = entry w.(w_layers) fs name.
Proof.
  intros M. unfold entry. f_equal. induction (visible fs) as [|f l IH]; [done|]. cbn.
  by rewrite (alike_find _ _ _ _ M), IH.
Qed.

Lemma alike_files w w' p : alike w w' -> files_of w' p = files_of w p.
Proof.
  intros M. unfold files_of. induction p as [|name p IH] using rev_ind; [done|].
  by rewrite !resolve_snoc, IH, (alike_entry w w').
Qed.

Lemma layers_alike w w' : w'.(w_layers) = w.(w_layers) -> alike w w'.
Proof. intros E. split; [by rewrite E|]. intros j l l'. rewrite E. apply (alike_preorder.(PreOrder_Reflexive) w). Qed.

Lemma layers_good w w' ri f : w'.(w_layers) = w.(w_layers) -> good w ri f -> good w' ri f.
Proof. intros E [D B]. split; [done|]. unfold backed in *. by rewrite E. Qed.

(** The same files, and inode numbers stay what they are. *)
Definition keeps : relation (World L) := fun w w' =>
  alike w w' /\ w.(w_fs).(ov_inodes).(is_inodes) ⊆ w'.(w_fs).(ov_inodes).(is_inodes).

#[global] Instance keeps_preorder : PreOrder keeps.
Proof. split; [by intros w|]. intros w1 w2 w3 [A1 S1] [A2 S2]. split; by etrans. Qed.

Lemma moves_keeps d w w' : moves d w w' -> keeps w w'.
Proof. intros M. split; [by eapply moves_alike|]. by rewrite M.(ms_fs _ _ _). Qed.

(** The invariant looks at the layers only for their files. *)
Lemma node_at_alike w w' tr busy p n :
  alike w w' -> (forall ri f, good w ri f -> good w' ri f) -> node_at w tr busy p n -> node_at w' tr busy p n.
Proof.
  intros M Hg []. split; rewrite ?(alike_files w w') by done; try done.
  - by eapply Forall2_impl.
  - intros Hl name. rewrite (alike_files w w') by done. auto.
Qed.

Lemma mirrors_alike busy tr w w' :
  alike w w' -> (forall ri f, good w ri f -> good w' ri f) ->
  w'.(w_fs).(ov_inodes) = w.(w_fs).(ov_inodes) -> w'.(w_fs).(ov_handles) = w.(w_fs).(ov_handles) ->
  w'.(w_fs).(ov_config) = w.(w_fs).(ov_config) -> w'.(w_nodes) = w.(w_nodes) -> w'.(w_next) = w.(w_next) ->
  mirrors busy tr w -> mirrors busy tr w'.
Proof.
  intros M Hg Hfs Hh Hc Hn Hx []. split; rewrite ?Hfs, ?Hh, ?Hc, ?Hn, ?Hx; try done.
  - intros p a Ha. destruct (mi_node0 p a Ha) as (n & ? & ? & ?). exists n. split_and!; [done| |done]. by eapply node_at_alike.
  - intros p Hp. rewrite (alike_files w w') by done. auto.
Qed.

Lemma mirrors_moves d busy tr w w' :
  moves d w w' -> (forall j i, 0 <= d j i) -> mirrors busy tr w -> mirrors busy tr w'.
Proof.
  intros M Hd. apply mirrors_alike; [by eapply moves_alike| |by rewrite M.(ms_fs _ _ _)..|apply M|apply M]. intros ri f. eapply good_moves; [done|apply Hd].
Qed.

(** Overlay inodes may change in ways the invariant does not see. *)
Lemma mirrors_update busy busy' tr w p a g :
  mirrors busy tr w -> tr !! p = Some a ->
  (forall n, node_at w tr (bool_decide (busy = Some p)) p n ->
    node_at w tr (bool_decide (busy' = Some p)) p (g n) /\ (g n).(on_inode) = n.(on_inode)) ->
  (forall q, q <> p -> bool_decide (busy = Some q) = bool_decide (busy' = Some q)) ->
  mirrors busy' tr (set_nodes w (alter g a w.(w_nodes))).
Proof.
  intros [] Hp Hg Hbusy.
  assert (forall c q n, node_at w tr c q n -> node_at (set_nodes w (alter g a w.(w_nodes))) tr c q n) as Hsame.
  { intros c q n. apply node_at_alike; [|done]. apply (alike_preorder.(PreOrder_Reflexive) w). }
  split; cbn; try done.
  - intros q b Hq. destruct (mi_node0 q b Hq) as (n & Hn & Hat & Hi). destruct (decide (p = q)) as [<-|Hne].
    + simplify_eq. exists (g n). rewrite lookup_alter_eq, Hn. destruct (Hg n Hat) as [Hat' ->]. split_and!; [done| |done]. by apply Hsame.
    + exists n. rewrite lookup_alter_ne by (intros ->; by apply Hne, (mi_inj0 p q b)). split_and!; [done| |done].
      rewrite <- Hbusy by done. by apply Hsame.
  - intros b [n Hb]. apply mi_nodes0. destruct (decide (a = b)) as [<-|Hne].
    + rewrite lookup_alter_eq in Hb. by destruct (w_nodes w !! a).
    + by rewrite lookup_alter_ne in Hb by done.
  - intros i b Hi. destruct (mi_store0 i b Hi) as (n & Hn & <-). destruct (decide (a = b)) as [<-|Hne].
    + destruct (mi_node0 p a Hp) as (n' & Hn' & Hat & _). simplify_eq. exists (g n). rewrite lookup_alter_eq, Hn.
      split; [done|]. by apply Hg.
    + exists n. by rewrite lookup_alter_ne.
Qed.

(** ** Numbers *)

(** There are no more numbers in use than paths. *)
Lemma mirrors_taken busy tr w : mirrors busy tr w -> (size (taken w.(w_fs).(ov_inodes)) <= size paths)%nat.
Proof.
  intros [].
  set (number p := from_option on_inode 0 (tr !! p ≫= fun a => w.(w_nodes) !! a)).
  trans (size (set_map number paths : gset Z)); [|apply size_set_map_le]. apply subseteq_size.
  intros i. unfold taken. rewrite mi_deleted0, dom_empty_L, union_empty_r_L, elem_of_dom. intros [a Ha].
  destruct (mi_store0 i a Ha) as (n & Hn & <-). destruct (mi_nodes0 a) as [_ [p Hp]]; [by eexists|].
  destruct (mi_node0 p a Hp) as (n' & Hn' & Hat & _). simplify_eq.
  apply elem_of_map. exists p. split; [unfold number; by rewrite Hp; cbn; rewrite Hn|]. by apply mi_paths0; apply Hat.
Qed.

(** The store after a number was given out. *)
Definition numbered w (ino : Z) : World L :=
  set_fs w (set_ov_inodes w.(w_fs) (set_next w.(w_fs).(ov_inodes) (ino + 1))).

Lemma alloc_inode_ends busy tr w p :
  mirrors busy tr w -> Forall good_name p -> tr !! p = None ->
  ends (alloc_inode (join p)) (fun ino w' =>
    w' = numbered w ino /\ w.(w_fs).(ov_inodes).(is_inodes) !! ino = None /\ 1 <= ino <= VFS_MAX_INO) w.
Proof.
  intros HM Hp Hnew. pose proof (mirrors_taken _ _ _ HM) as Htaken. destruct HM.
  unfold alloc_inode, ends, on_store, store_alloc_inode.
  destruct (is_path_mapping _ !! join p) as [i|] eqn:Hmap.
  { destruct (mi_mapped0 _ _ Hmap) as (q & E & Hq & Hsome). apply join_inj in E as <-; [|done..]. rewrite Hnew in Hsome. by destruct Hsome. }
  destruct (alloc_unique_inode_cases _ mi_counter0) as [(k & _ & [Hfree _] & _ & ->)|[Hall _]].
  - split_and!; [done..| |].
    all: unfold candidate; match goal with |- context [?x mod VFS_MAX_INO] => pose proof (Z.mod_pos_bound x VFS_MAX_INO ltac:(done)) end; lia.
  - destruct (pigeonhole VFS_MAX_INO (taken w.(w_fs).(ov_inodes))) as (ino & Hino & Hx); [done|lia|].
    rewrite taken_spec in Hx. destruct Hx. by apply Hall.
Qed.

(** ** A child is added to its directory *)

Definition added w (a : nat) (c : OverlayInode) (ino : Z) : World L :=
  let s := w.(w_fs).(ov_inodes) in
  MkWorld (set_ov_inodes w.(w_fs) (store_insert_inode ino c.(on_path) w.(w_next) (set_next s (ino + 1))))
    (alter (insert_child c.(on_name) w.(w_next)) a (<[w.(w_next) := adopt c ino a]> w.(w_nodes)))
    (S w.(w_next)) w.(w_layers).

Lemma added_lookup w a c ino b :
  (a < w.(w_next))%nat ->
  (added w a c ino).(w_nodes) !! b =
  if decide (b = w.(w_next)) then Some (adopt c ino a)
  else if decide (b = a) then insert_child c.(on_name) w.(w_next) <$> w.(w_nodes) !! a
  else w.(w_nodes) !! b.
Proof.
  intros Ha. cbn. destruct (decide (b = w_next w)) as [->|Hb].
  - rewrite lookup_alter_ne by lia. apply lookup_insert_eq.
  - destruct (decide (b = a)) as [->|Hba].
    + rewrite lookup_alter_eq. by rewrite lookup_insert_ne.
    + rewrite lookup_alter_ne by done. by rewrite lookup_insert_ne.
Qed.

Lemma node_at_added w tr p a c ino q n :
  tr !! (p ++ [c.(on_name)]) = None ->
  let tr' := <[p ++ [c.(on_name)] := w.(w_next)]> tr in
  node_at w tr (bool_decide (Some p = Some q)) q n ->
  node_at (added w a c ino) tr' (bool_decide (Some p = Some q)) q
    (if decide (q = p) then insert_child c.(on_name) w.(w_next) n else n).
Proof.
  intros Hnew tr' Hat. apply (node_at_alike w) ; [by apply (alike_preorder.(PreOrder_Reflexive) w)|done|].
  assert (forall x, is_Some (tr !! (q ++ [x])) -> is_Some (tr' !! (q ++ [x]))) as Hmono.
  { intros x Hx. unfold tr'. destruct (decide (p ++ [c.(on_name)] = q ++ [x])) as [->|]; [by rewrite lookup_insert_eq|by rewrite lookup_insert_ne]. }
  destruct Hat. destruct (decide (q = p)) as [->|Hq]; split; cbn; try done; auto.
  - intros x. unfold tr'. destruct (decide (x = c.(on_name))) as [->|Hx]; [by rewrite !lookup_insert_eq|].
    rewrite !lookup_insert_ne; [done|intros [_ E]%app_inj_tail; congruence|congruence].
  - by rewrite bool_decide_true.
  - intros x. unfold tr'. rewrite lookup_insert_ne; [done|]. by intros [? _]%app_inj_tail.
Qed.

Lemma node_at_new w tr p a c ino busy :
  mirrors (Some p) tr w -> tr !! p = Some a -> tr !! (p ++ [c.(on_name)]) = None -> good_name c.(on_name) ->
  let fs := files_of w (p ++ [c.(on_name)]) in
  fs <> [] -> scanned (join p) fs c -> Forall2 (good w) c.(on_real_inodes) fs ->
  node_at (added w a c ino) (<[p ++ [c.(on_name)] := w.(w_next)]> tr) busy (p ++ [c.(on_name)]) (adopt c ino a).
Proof.
  intros HM Ha Hnew Hgood fs Hne [Hch Hpath Hwh Hld _] Hfs. apply (node_at_alike w); [by apply (alike_preorder.(PreOrder_Reflexive) w)|done|].
  destruct (HM.(mi_node _ _ _) p a Ha) as (n & _ & Hat & _).
  split; cbn; try done.
  - by rewrite join_snoc, Hpath.
  - apply Forall_app. split; [apply Hat|by constructor].
  - by rewrite last_snoc.
  - intros x. rewrite Hch, lookup_empty, lookup_insert_ne.
    + symmetry. apply eq_None_not_Some. intros Hx%(HM.(mi_parent _ _ _)). rewrite Hnew in Hx. by destruct Hx.
    + intros E%(f_equal length). rewrite !length_app in E. cbn in E. lia.
  - by rewrite Hld.
Qed.

Lemma mirrors_added tr w p a c ino :
  mirrors (Some p) tr w -> tr !! p = Some a -> tr !! (p ++ [c.(on_name)]) = None -> good_name c.(on_name) ->
  let fs := files_of w (p ++ [c.(on_name)]) in
  fs <> [] -> scanned (join p) fs c -> Forall2 (good w) c.(on_real_inodes) fs ->
  w.(w_fs).(ov_inodes).(is_inodes) !! ino = None -> 1 <= ino <= VFS_MAX_INO ->
  mirrors (Some p) (<[p ++ [c.(on_name)] := w.(w_next)]> tr) (added w a c ino).
Proof.
  intros HM Ha Hnew Hgood fs Hne Hsc Hfs Hino Hrange.
  pose proof (fun u => node_at_new w tr p a c ino u HM Ha Hnew Hgood Hne Hsc Hfs) as Hat_new.
  destruct (HM.(mi_node _ _ _) p a Ha) as (na & Hna & Hat & Hia).
  destruct (HM.(mi_nodes _ _ _) a ltac:(by eexists)) as [Hlt _].
  assert (forall q b, tr !! q = Some b -> (b < w.(w_next))%nat) as Hold.
  { intros q b Hq. destruct (HM.(mi_node _ _ _) q b Hq) as (n & Hn & _). by apply (HM.(mi_nodes _ _ _)). }
  destruct HM. split.
  - intros q b Hq. rewrite added_lookup by done. destruct (decide (p ++ [c.(on_name)] = q)) as [<-|Hpq].
    + rewrite lookup_insert_eq in Hq. simplify_eq. rewrite decide_True by done. eexists. split_and!; [done|apply Hat_new|apply lookup_insert_eq].
    + rewrite lookup_insert_ne in Hq by done. pose proof (Hold q b Hq). rewrite decide_False by lia.
      destruct (mi_node0 q b Hq) as (n & Hn & Hatn & Hi).
      exists (if decide (q = p) then insert_child c.(on_name) w.(w_next) n else n). split_and!; [|by apply node_at_added|].
      * destruct (decide (q = p)) as [->|Hqp]; [simplify_eq; by rewrite decide_True, Hna|].
        rewrite decide_False; [done|]. intros ->. by apply Hqp, (mi_inj0 q p a).
      * cbn. rewrite lookup_insert_ne; [by destruct (decide (q = p))|]. destruct (decide (q = p)); cbn; congruence.
  - intros q1 q2 b. destruct (decide (p ++ [c.(on_name)] = q1)) as [<-|H1], (decide (p ++ [c.(on_name)] = q2)) as [<-|H2];
      rewrite ?lookup_insert_eq, ?lookup_insert_ne by done; intros Hq1 Hq2; simplify_eq; [done|..|by eapply mi_inj0].
    + apply Hold in Hq2. lia.
    + apply Hold in Hq1. lia.
  - intros q x Hx. rewrite lookup_insert_is_Some'. right. rewrite lookup_insert_is_Some' in Hx.
    destruct Hx as [E|Hx]; [|by eapply mi_parent0]. apply app_inj_tail in E as [<- _]. by rewrite Ha.
  - intros b. rewrite added_lookup by done. cbn. destruct (decide (b = w.(w_next))) as [Hb|Hb]; [intros _; split; [lia|]|].
    + exists (p ++ [c.(on_name)]). by rewrite lookup_insert_eq, Hb.
    + intros Hs. assert (is_Some (w.(w_nodes) !! b)) as (? & q & Hq)%mi_nodes0.
      { destruct (decide (b = a)) as [->|]; [by rewrite Hna|done]. }
      split; [lia|]. exists q. rewrite lookup_insert_ne; [done|]. intros <-. congruence.
  - cbn. assert (ino <> ROOT_ID) as Hroot by (intros ->; rewrite (proj1 mi_root0) in Hino; destruct mi_root0 as [_ [? ?]]; congruence).
    rewrite !lookup_insert_ne; [done|by destruct p|done].
  - intros i b. rewrite added_lookup by done. cbn. destruct (decide (ino = i)) as [<-|Hi].
    + rewrite lookup_insert_eq. intros [= <-]. rewrite decide_True by done. by eexists.
    + rewrite lookup_insert_ne by done. intros (n & Hn & Hni)%mi_store0.
      destruct (mi_nodes0 b ltac:(by eexists)) as [Hb _]. rewrite decide_False by lia.
      destruct (decide (b = a)) as [->|Hba]; [|by exists n]. rewrite Hn. eexists. by split.
  - done.
  - cbn. intros s i. destruct (decide (c.(on_path) = s)) as [<-|Hs].
    + rewrite lookup_insert_eq. intros _. exists (p ++ [c.(on_name)]). rewrite Hsc.(sc_path _ _ _), join_snoc, lookup_insert_eq.
      split_and!; [done| |by eexists]. apply Forall_app. split; [apply Hat|by constructor].
    + rewrite lookup_insert_ne by done. intros (q & -> & Hq & Hsome)%mi_mapped0. exists q. split_and!; [done..|].
      apply lookup_insert_is_Some'. by right.
  - cbn. lia.
  - done.
  - done.
Qed.

(** ** A directory is loaded *)

(** The names in the union are names of entries of the layers. *)
Lemma entry_good_name w fs name : Forall (backed w) fs -> entry w.(w_layers) fs name <> [] -> good_name name.
Proof.
  intros Hfs. unfold entry.
  assert (omap (find_in w.(w_layers) name) (visible fs) <> [] -> good_name name) as Hv.
  { induction Hfs as [|f fs' (l & Hl & Hk & Hkind & _) Hfs IH]; [done|]. cbn [visible].
    assert (kind_dir f.(fd_kind) = true -> is_Some (find_in w.(w_layers) name f) -> good_name name) as Hf.
    { unfold find_in. intros Hd Hs. destruct (dot_name name) eqn:Hdot; [by destruct Hs|]. rewrite Hl in Hs. cbn in Hs.
      assert (dir_at l f.(fd_inode)) as Hdir by (split; [done|by rewrite Hkind]).
      assert (is_Some (lv_child l f.(fd_inode) name)) as Hc by (destruct (lv_child l _ name); [by eexists|by destruct Hs]).
      apply lv_listed in Hc as (d & -> & Hin)%list_elem_of_fmap; [|done..].
      by destruct (lv_names l _ d Hdir Hin) as [E|[E|]]; [rewrite E in Hdot..|]. }
    destruct f.(fd_kind) as [|[]|]; cbn; [done| | |done]; destruct (find_in w.(w_layers) name f); cbn; eauto. }
  destruct (omap _ _); [done|]. auto.
Qed.

Definition to_add w tr p (c : OverlayInode) : Prop :=
  tr !! (p ++ [c.(on_name)]) = None /\ good_name c.(on_name) /\
  let fs := files_of w (p ++ [c.(on_name)]) in
  fs <> [] /\ scanned (join p) fs c /\ Forall2 (good w) c.(on_real_inodes) fs.

Lemma add_child_ends tr w p a c clean (k : prog (World L) io_error unit) Q :
  mirrors (Some p) tr w -> tr !! p = Some a -> to_add w tr p c ->
  (forall w', keeps w w' -> w'.(w_layers) = w.(w_layers) ->
    mirrors (Some p) (<[p ++ [c.(on_name)] := w.(w_next)]> tr) w' -> ends k Q w') ->
  ends (ino ← or_drop (alloc_inode c.(on_path)) clean;
        arc_child ← new_arc (adopt c ino a);
        _ ← update_node a (insert_child c.(on_name) arc_child);
        _ ← insert_inode ino arc_child;
        k) Q w.
Proof.
  intros HM Ha (Hnew & Hgood & Hne & Hsc & Hfs) Hk.
  destruct (HM.(mi_node _ _ _) p a Ha) as (na & Hna & Hat & _).
  destruct (HM.(mi_nodes _ _ _) a ltac:(by eexists)) as [Hlt _].
  assert (Forall good_name (p ++ [c.(on_name)])) as Hp by (apply Forall_app; split; [apply Hat|by constructor]).
  rewrite Hsc.(sc_path _ _ _), <- join_snoc.
  eapply ends_bind; [by eapply ends_or_drop, alloc_inode_ends|]. intros ino ? (-> & Hino & Hrange).
  pose proof (mirrors_added tr w p a c ino HM Ha Hnew Hgood Hne Hsc Hfs Hino Hrange) as HM'.
  unfold ends, insert_inode, update_node, get_node, new_arc, modify, on_store, mbind, prog_mbind, prog_bind. cbn.
  rewrite lookup_alter_ne, lookup_insert_eq by lia. cbn. refine (Hk (added w a c ino) _ eq_refl HM'). split; [by apply layers_alike|by apply insert_subseteq].
Qed.

Lemma add_childrens_ends p a l w tr :
  mirrors (Some p) tr w -> tr !! p = Some a -> NoDup (on_name <$> l) -> Forall (to_add w tr p) l ->
  ends (add_childrens a l) (fun _ w' => keeps w w' /\ exists tr', mirrors (Some p) tr' w' /\ tr ⊆ tr' /\
    forall c, c ∈ l -> is_Some (tr' !! (p ++ [c.(on_name)]))) w.
Proof.
  intros HM Ha Hnd Hl. revert w tr HM Ha Hnd Hl. induction l as [|c l IH]; intros w tr HM Ha Hnd Hl; cbn [add_childrens].
  { apply ends_mret. split; [reflexivity|]. exists tr. split_and!; [done..|]. by intros c ?%elem_of_nil. }
  apply Forall_cons in Hl as [Hc Hl]. rewrite fmap_cons in Hnd. apply NoDup_cons in Hnd as [Hcl Hnd].
  eapply add_child_ends; [done..|]. intros w' Hkeeps Hlay HM'. pose proof (proj1 Hc) as Hnew.
  assert (tr ⊆ <[p ++ [c.(on_name)] := w.(w_next)]> tr) as Hsub by (by apply insert_subseteq).
  eapply ends_mono; [apply (IH w'); [exact HM'|by eapply lookup_weaken|done|]|].
  - rewrite Forall_forall in Hl |- *. intros c' Hc'. destruct (Hl c' Hc') as (H1 & H2 & H3 & H4 & H5).
    split_and!; [|done|rewrite (alike_files w) by (by apply layers_alike); split_and!; [done..|]].
    + rewrite lookup_insert_ne; [done|]. intros [_ E]%app_inj_tail. apply Hcl. rewrite E. by apply list_elem_of_fmap_2.
    + eapply Forall2_impl; [done|]. intros ri f. by apply layers_good.
  - intros ? w'' (Hkeeps' & tr' & HM'' & Hsub' & Hall). split; [by etrans|]. exists tr'. split_and!; [done|by etrans|].
    intros c' [->|Hc']%elem_of_cons; [|by apply Hall]. eexists. eapply lookup_weaken; [apply lookup_insert_eq|done].
Qed.

Lemma mirrors_start tr w p : mirrors None tr w -> mirrors (Some p) tr w.
Proof.
  intros []. split; try done. intros q a Hq. destruct (mi_node0 q a Hq) as (n & Hn & [] & Hi).
  exists n. split_and!; [done| |done]. by split; [..|auto].
Qed.

Lemma mirrors_loaded tr w p a :
  mirrors (Some p) tr w -> tr !! p = Some a ->
  (forall name, files_of w (p ++ [name]) <> [] -> is_Some (tr !! (p ++ [name]))) ->
  mirrors None tr (set_nodes w (alter set_loaded a w.(w_nodes))).
Proof.
  intros HM Ha Hall. eapply mirrors_update; [exact HM|exact Ha| |].
  - intros n []. split; [|done]. by split.
  - intros q Hq. by rewrite !bool_decide_false by congruence.
Qed.

(** What a scan found is new to the tree. *)
Lemma scanned_to_add tr w w' p n a nodes :
  mirrors None tr w -> tr !! p = Some a -> w.(w_nodes) !! a = Some n -> n.(on_loaded) = false ->
  scan_of w w' n.(on_path) (files_of w p) nodes -> Forall (to_add w' tr p) nodes.
Proof.
  intros HM Ha Hn Hl [_ Hsound _ M]. destruct (HM.(mi_node _ _ _) p a Ha) as (n' & Hn' & [] & _). simplify_eq.
  pose proof (moves_alike _ _ _ M) as Halike. apply Forall_forall. intros c Hc. destruct (Hsound c Hc) as (Hne & Hsc & Hg).
  rewrite na_path0 in Hsc. unfold to_add. rewrite (alike_files w) by done. unfold files_of at 1 2 3. rewrite resolve_snoc.
  split_and!; [| |done..].
  - by rewrite <- na_children0, na_empty0, lookup_empty.
  - eapply entry_good_name; [|exact Hne]. eapply Forall2_Forall_r; [exact na_files0|]. apply Forall_true. by intros ri f [].
Qed.

Lemma load_directory_ends ctx tr w p a f fs :
  mirrors None tr w -> tr !! p = Some a -> files_of w p = f :: fs -> kind_dir f.(fd_kind) = true ->
  ends (load_directory ctx a) (fun _ w' => keeps w w' /\ exists tr' n, mirrors None tr' w' /\ tr ⊆ tr' /\
    w'.(w_nodes) !! a = Some n /\ n.(on_loaded) = true) w.
Proof.
  intros HM Ha Hfs Hdir. destruct (HM.(mi_node _ _ _) p a Ha) as (n & Hn & Hat & _).
  unfold load_directory. eapply ends_bind; [by apply get_node_ends|]. intros ? ? [-> ->].
  destruct n.(on_loaded) eqn:Hl; [apply ends_mret; split; [reflexivity|]; by exists tr, n|].
  pose proof Hat.(na_files _ _ _ _ _) as Hg. rewrite Hfs in Hg.
  eapply ends_bind; [by eapply scan_childrens_ends|]. rewrite <- Hfs. intros nodes w1 Hscan.
  pose proof Hscan.(so_moves _ _ _ _ _) as M.
  assert (mirrors None tr w1) as HM1 by (eapply mirrors_moves; [exact M| |done]; intros; apply held_nonneg).
  eapply ends_bind; [apply (get_node_ends a n); by rewrite M.(ms_nodes _ _ _)|]. intros ? ? [-> ->]. rewrite Hl.
  eapply ends_bind; [eapply add_childrens_ends; [by apply mirrors_start|done|apply Hscan|by apply (scanned_to_add tr w w1 p n a nodes)]|].
  intros ? w2 (Hkeeps & tr' & HM2 & Hsub & Hall). pose proof (lookup_weaken _ _ _ _ Ha Hsub) as Ha'.
  destruct (HM2.(mi_node _ _ _) p a Ha') as (n2 & Hn2 & _).
  assert (keeps w w2) as Hk by (trans w1; [by eapply moves_keeps|done]).
  unfold ends, update_node, modify. split; [done|].
  exists tr', (set_loaded n2). split_and!; [|done|cbn; by rewrite lookup_alter_eq, Hn2|done].
  eapply mirrors_loaded; [done..|]. intros name. rewrite (alike_files w) by apply Hk. unfold files_of. rewrite resolve_snoc.
  intros (c & -> & Hc)%(Hscan.(so_complete _ _ _ _ _))%list_elem_of_fmap. by apply Hall.
Qed.

(** ** Look-ups *)

(** Nothing is dropped at the end of a request. *)
Lemma collect_nothing tr w : mirrors None tr w -> collect w = (w, Ok tt).
Proof.
  intros HM. unfold collect.
  assert (forall l, foldr (fun a rest => _ ← collect_node a; rest) (mret tt) l w = (w, Ok tt)) as Hl; [|apply Hl].
  induction l as [|a l IH]; [done|]. cbn [foldr]. unfold mbind, prog_mbind, prog_bind.
  assert (collect_node a w = (w, Ok tt)) as ->; [|done]. unfold collect_node.
  destruct (w.(w_nodes) !! a) as [n|] eqn:Hn; [|by case_bool_decide].
  destruct (HM.(mi_nodes _ _ _) a ltac:(by eexists)) as [_ [p Hp]].
  destruct (HM.(mi_node _ _ _) p a Hp) as (n' & Hn' & _ & Hi). rewrite bool_decide_true; [done|].
  unfold references. apply elem_of_app. left. unfold values. apply list_elem_of_fmap.
  exists (n'.(on_inode), a). split; [done|]. by apply elem_of_map_to_list.
Qed.

(** The attributes [st] are those of the file [f]. *)
Definition stat_at w (f : Found) (st : stat64) : Prop :=
  forall l, w.(w_layers) !! f.(fd_layer) = Some l -> stat_of l f.(fd_inode) st.

(** A directory is loaded when its attributes say that it is one. *)
Lemma stat_load_gives {A} ctx tr w p a n f fs (k : stat64 -> OverlayInode -> prog (World L) io_error A) Q :
  mirrors None tr w -> tr !! p = Some a -> w.(w_nodes) !! a = Some n -> files_of w p = f :: fs ->
  (forall st w' tr', keeps w w' -> mirrors None tr' w' -> tr ⊆ tr' -> stat_at w f st ->
    (kind_dir f.(fd_kind) = true -> exists n', w'.(w_nodes) !! a = Some n' /\ n'.(on_loaded) = true) ->
    gives (k st n) Q w') ->
  gives (st ← ovi_stat64 ctx a;
         n ← get_node a;
         _ ← (if st_is_dir st && negb n.(on_loaded) then load_directory ctx a else mret tt);
         k st n) Q w.
Proof.
  intros HM Ha Hn Hfs Hk. destruct (HM.(mi_node _ _ _) p a Ha) as (n' & Hn' & Hat & _). simplify_eq.
  pose proof Hat.(na_files _ _ _ _ _) as Hg. rewrite Hfs in Hg.
  eapply gives_ends; [by eapply ovi_stat64_ends|]. intros st w1 (M & -> & Hst).
  assert (mirrors None tr w1) as HM1 by (by eapply mirrors_moves).
  pose proof (moves_keeps _ _ _ M) as Hkeeps. rewrite <- M.(ms_nodes _ _ _) in Hn.
  eapply gives_ends; [by apply get_node_ends|]. intros ? ? [-> ->].
  destruct (kind_dir f.(fd_kind) && negb n.(on_loaded)) eqn:Hload.
  - apply andb_true_iff in Hload as [Hdir _]. eapply gives_ends; [eapply load_directory_ends; [done..| |done]|].
    { rewrite (alike_files w); [done|apply Hkeeps]. }
    intros ? w2 (Hkeeps' & tr' & n' & HM2 & Hsub & Hn2 & Hl2). eapply Hk; [by etrans|done..|]. eauto.
  - eapply gives_ends; [by apply (ends_mret tt (fun _ w2 => w2 = w1))|]. intros ? ? ->. eapply Hk; [done..|].
    intros Hdir. exists n. split; [done|]. rewrite Hdir in Hload. by destruct n.(on_loaded).
Qed.

Lemma get_active_inode_ends i w :
  ends (get_active_inode i) (fun r w' => r = w.(w_fs).(ov_inodes).(is_inodes) !! i /\ w' = w) w.
Proof. done. Qed.

(** A name is looked up in the directory of the path [p]. *)
Lemma lookup_node_gives ctx tr w parent p a name :
  mirrors None tr w -> w.(w_fs).(ov_inodes).(is_inodes) !! parent = Some a -> tr !! p = Some a ->
  gives (lookup_node ctx parent name) (fun r w' => keeps w w' /\ exists tr', mirrors None tr' w' /\ tr ⊆ tr' /\
    match r with
    | inr b => exists q, tr' !! q = Some b /\ (good_name name -> q = p ++ [name])
    | inl e => good_name name -> e = Os ENOENT /\ files_of w (p ++ [name]) = []
    end) w.
Proof.
  intros HM Hi Ha. destruct (HM.(mi_node _ _ _) p a Ha) as (n & Hn & Hat & _). unfold lookup_node.
  destruct (contains SLASH name) eqn:Hs.
  { apply gives_fail. split; [reflexivity|]. exists tr. split_and!; [done..|]. intros (_ & _ & _ & ?). congruence. }
  eapply gives_ends; [apply get_active_inode_ends|]. intros ? ? [-> ->]. rewrite Hi.
  eapply gives_ends; [by apply get_node_ends|]. intros ? ? [-> ->].
  destruct (files_of w p) as [|f fs] eqn:Hfs; [by destruct (Hat.(na_some _ _ _ _ _))|].
  rewrite Hat.(na_whiteout _ _ _ _ _), Hfs. cbn [head from_option].
  assert (kind_dir f.(fd_kind) = false -> files_of w (p ++ [name]) = []) as Hnodir.
  { unfold files_of in *. rewrite resolve_snoc, Hfs. unfold entry. cbn. by destruct f.(fd_kind). }
  destruct (is_wh f.(fd_kind)) eqn:Hwh.
  { apply gives_fail. split; [reflexivity|]. exists tr. split_and!; [done..|]. intros _. split; [done|]. apply Hnodir. by destruct f.(fd_kind). }
  eapply stat_load_gives; [done..|]. intros st w' tr' Hkeeps HM' Hsub Hst Hld.
  pose proof (lookup_weaken _ _ _ _ Ha Hsub) as Ha'. destruct (HM'.(mi_node _ _ _) p a Ha') as (n' & Hn' & Hat' & _).
  destruct (_ || _ || _) eqn:Hdots.
  { apply gives_mret. split; [done|]. exists tr'. split_and!; [done..|]. exists p. split; [done|]. intros [Hdot _].
    unfold dot_name in Hdot. rewrite !orb_false_iff in Hdot. destruct Hdot as [[H1 H2] H3]. rewrite H1, H2, H3 in Hdots. by rewrite andb_false_r in Hdots. }
  eapply gives_ends; [by apply get_node_ends|]. intros ? ? [-> ->]. unfold child. rewrite Hat'.(na_children _ _ _ _ _).
  destruct (tr' !! (p ++ [name])) as [b|] eqn:Hb.
  - apply gives_mret. split; [done|]. exists tr'. split_and!; [done..|]. by exists (p ++ [name]).
  - apply gives_fail. split; [done|]. exists tr'. split_and!; [done..|]. intros _. split; [done|].
    destruct (kind_dir f.(fd_kind)) eqn:Hdir; [|by apply Hnodir]. destruct (Hld eq_refl) as (n2 & Hn2 & Hl2). simplify_eq.
    destruct (files_of w (p ++ [name])) as [|g gs] eqn:Hg; [done|].
    destruct (Hat'.(na_loaded _ _ _ _ _) Hl2 name) as [? ?]; [by rewrite (alike_files w), Hg by apply Hkeeps|congruence].
Qed.

(** What LOOKUP answers: an entry of the file that is seen under the path [q],
    or an error; [name] in the directory [p] was asked for. *)
Definition answers w0 w tr p name (r : io_error + Entry) : Prop :=
  match r with
  | inr e => exists q b f, tr !! q = Some b /\ w.(w_fs).(ov_inodes).(is_inodes) !! e.(en_inode) = Some b /\
      seen (files_of w0 q) = Some f /\ stat_at w0 f e.(en_attr) /\ (good_name name -> q = p ++ [name])
  | inl err => good_name name -> err = Os ENOENT /\ seen (files_of w0 (p ++ [name])) = None
  end.

Lemma stat_at_alike w w' f st : alike w w' -> stat_at w' f st -> stat_at w f st.
Proof.
  intros [Hlen M] Hst l Hl. destruct (lookup_lt_is_Some_2 w'.(w_layers) f.(fd_layer)) as [l' Hl'].
  { rewrite Hlen. by apply lookup_lt_Some in Hl. }
  destruct (M _ _ _ Hl Hl') as [dl V]. destruct (Hst l' Hl') as [Hd Hi]. split.
  - by rewrite Hd, V.(mv_kind _ _ _).
  - by rewrite Hi, V.(mv_stat _ _ _).
Qed.

Lemma ov_do_lookup_gives ctx tr w parent p a name :
  mirrors None tr w -> w.(w_fs).(ov_inodes).(is_inodes) !! parent = Some a -> tr !! p = Some a ->
  gives (ov_do_lookup ctx parent name) (fun r w' => keeps w w' /\ exists tr', mirrors None tr' w' /\ tr ⊆ tr' /\
    answers w w' tr' p name r) w.
Proof.
  intros HM Hi Ha. unfold ov_do_lookup.
  eapply gives_bind; [by eapply lookup_node_gives| |].
  2: { intros e w1 ([Hal Hin1] & tr1 & HM1 & Hsub & He). split; [done|]. exists tr1. split_and!; [done..|]. cbn.
       intros Hg. destruct (He Hg) as [-> ->]. done. }
  intros b w1 ([Hal Hin1] & tr1 & HM1 & Hsub & q & Hq & Hqp).
  destruct (HM1.(mi_node _ _ _) q b Hq) as (n & Hn & Hat & Hin).
  eapply gives_ends; [by apply get_node_ends|]. intros ? ? [-> ->].
  destruct (files_of w1 q) as [|f fs] eqn:Hfs; [by destruct (Hat.(na_some _ _ _ _ _))|].
  rewrite Hat.(na_whiteout _ _ _ _ _), Hfs. cbn [head from_option]. rewrite (alike_files w) in Hfs by done.
  destruct (is_wh f.(fd_kind)) eqn:Hwh.
  { apply gives_fail. split; [done|]. exists tr1. split_and!; [done..|]. intros Hg. rewrite (Hqp Hg) in Hfs. rewrite Hfs. cbn. by rewrite Hwh. }
  eapply (stat_load_gives ctx tr1 w1 q b n f fs (fun st n => _ ← update_node b inc_lookups; fs ← get_fs; mret (ov_entry fs n.(on_inode) st)));
    [done..|by rewrite (alike_files w)|].
  intros st w2 tr2 Hal2 HM2 Hsub2 Hst _. pose proof (lookup_weaken _ _ _ _ Hq Hsub2) as Hq2.
  assert (mirrors None tr2 (set_nodes w2 (alter inc_lookups b w2.(w_nodes)))) as HM3.
  { eapply mirrors_update; [exact HM2|exact Hq2| |done]. intros m []. split; [|done]. by split. }
  unfold gives, update_node, modify, get_fs, gets, mbind, prog_mbind, prog_bind. cbn.
  split; [trans w1; [done|trans w2; [done|by split; [apply layers_alike|]]]|]. exists tr2. split_and!; [done|by etrans|]. exists q, b, f.
  split_and!; [done| |by rewrite Hfs; cbn; rewrite Hwh|by eapply stat_at_alike|done].
  eapply lookup_weaken; [exact Hin|apply Hal2].
Qed.

(** A LOOKUP request keeps the invariant, whatever is asked. *)
Lemma lookup_request_gives ctx tr w parent name :
  mirrors None tr w ->
  gives (fs_op (op_lookup ctx parent name)) (fun r w' => keeps w w' /\ exists tr', mirrors None tr' w' /\
    forall p a, w.(w_fs).(ov_inodes).(is_inodes) !! parent = Some a -> tr !! p = Some a ->
      answers w w' tr' p (from_utf8_lossy name) r) w.
Proof.
  intros HM. apply gives_finally. cbn [ov_op]. unfold ov_lookup.
  destruct (w.(w_fs).(ov_inodes).(is_inodes) !! parent) as [a|] eqn:Hi.
  - destruct (HM.(mi_store _ _ _) _ _ Hi) as (n & Hn & _). destruct (HM.(mi_nodes _ _ _) a ltac:(by eexists)) as [_ [p Hp]].
    eapply gives_mono; [by eapply ov_do_lookup_gives|]. intros r w' (Hk & tr' & HM' & _ & Hr).
    split; [by eapply collect_nothing|]. split; [done|]. exists tr'. split; [done|]. intros q b [= <-] Hq.
    by rewrite (HM.(mi_inj _ _ _) q p a Hq Hp).
  - unfold ov_do_lookup, lookup_node.
    eapply (gives_bind _ _ (fun r w' => w' = w /\ exists e, r = inl e)).
    + destruct (contains SLASH (from_utf8_lossy name)); [apply gives_fail; eauto|].
      eapply gives_ends; [apply get_active_inode_ends|]. intros ? ? [-> ->]. rewrite Hi. apply gives_fail; eauto.
    + by intros b w' (_ & e & ?).
    + intros e w' [-> _]. split; [by eapply collect_nothing|]. split; [reflexivity|]. exists tr. by split.
Qed.

(** ** Walks *)

Lemma unseen_below (layers : list L) fs p : seen fs = None -> p <> [] -> resolve layers fs p = [].
Proof.
  intros Hfs Hp. assert (forall q, resolve layers [] q = []) as Hnil by (by induction q).
  destruct p as [|name p]; [done|]. unfold resolve. cbn [foldl]. assert (entry layers fs name = []) as ->; [|apply Hnil].
  unfold entry. destruct fs as [|f fs]; [done|]. cbn in *. by destruct f.(fd_kind) as [|[]|].
Qed.

Lemma walk_gives ctx rest tr w inode a p name :
  mirrors None tr w -> w.(w_fs).(ov_inodes).(is_inodes) !! inode = Some a -> tr !! p = Some a ->
  Forall good_name (name :: rest) ->
  gives (walk ctx inode name rest) (fun r w' => keeps w w' /\ exists tr', mirrors None tr' w' /\
    match r, seen (files_of w (p ++ name :: rest)) with
    | inr e, Some f => stat_at w f e.(en_attr) /\ exists b,
        w'.(w_fs).(ov_inodes).(is_inodes) !! e.(en_inode) = Some b /\ tr' !! (p ++ name :: rest) = Some b
    | inl err, None => err = Os ENOENT
    | _, _ => False
    end) w.
Proof.
  revert tr w inode a p name. induction rest as [|name' rest IH]; intros tr w inode a p name HM Hi Ha Hgood; cbn [walk].
  - apply Forall_cons in Hgood as [Hname _]. eapply gives_mono; [by apply (lookup_request_gives ctx tr)|].
    intros r w' (Hk & tr' & HM' & Hr). specialize (Hr p a Hi Ha). rewrite (proj1 (proj2 (proj2 Hname))) in Hr.
    split; [done|]. exists tr'. split; [done|]. destruct r as [err|e]; cbn in Hr.
    + by destruct (Hr Hname) as [-> ->].
    + destruct Hr as (q & b & f & Hq & Hb & Hseen & Hst & Hqp). rewrite (Hqp Hname) in *. rewrite Hseen. split; [done|]. by exists b.
  - pose proof Hgood as [Hname Hrest]%Forall_cons.
    replace (p ++ name :: name' :: rest) with ((p ++ [name]) ++ name' :: rest) by (by rewrite <- app_assoc).
    eapply gives_bind; [by apply (lookup_request_gives ctx tr)| |].
    + intros e w' (Hk & tr' & HM' & Hr). specialize (Hr p a Hi Ha). rewrite (proj1 (proj2 (proj2 Hname))) in Hr.
      destruct Hr as (q & b & f & Hq & Hb & _ & _ & Hqp). rewrite (Hqp Hname) in Hq.
      eapply gives_mono; [by eapply (IH tr' w')|]. intros r w'' (Hk' & tr'' & HM'' & Hr).
      split; [by etrans|]. exists tr''. split; [done|]. rewrite (alike_files w) in Hr by apply Hk.
      destruct r, (seen _); [done..| |done]. destruct Hr as [Hst Hr]. split; [|done]. eapply stat_at_alike; [apply Hk|done].
    + intros err w' (Hk & tr' & HM' & Hr). specialize (Hr p a Hi Ha). rewrite (proj1 (proj2 (proj2 Hname))) in Hr.
      split; [done|]. exists tr'. split; [done|].
      destruct (Hr Hname) as [-> Hnone]. unfold files_of in *. unfold resolve. rewrite foldl_app.
      change (foldl (entry w.(w_layers)) roots (p ++ [name])) with (resolve w.(w_layers) roots (p ++ [name])).
      change (foldl (entry w.(w_layers))) with (resolve w.(w_layers)). by rewrite unseen_below.
Qed.

(** ** Listings *)

Lemma get_nodes_ends l w :
  Forall (fun a => is_Some (w.(w_nodes) !! a)) l ->
  ends (get_nodes l) (fun ns w' => w' = w /\ Forall2 (fun a n => w.(w_nodes) !! a = Some n) l ns) w.
Proof.
  induction 1 as [|a l [n Hn] Hl IH]; cbn [get_nodes]; [by apply ends_mret|].
  eapply ends_bind; [by apply get_node_ends|]. intros ? ? [-> ->].
  eapply ends_bind; [exact IH|]. intros ns ? [-> Hns]. apply ends_mret. split; [done|]. by constructor.
Qed.

(** The names of a merged directory that a client sees, each once. *)
Definition listing w p (names : list bytes) : Prop :=
  NoDup names /\ forall name, name ∈ names <-> is_Some (seen (files_of w (p ++ [name]))).

(** Children that are no whiteouts, with their names. *)
Definition shown_child (ca : OverlayInode * nat) : option (bytes * nat) :=
  let '(c, addr) := ca in if c.(on_whiteout) then None else Some (c.(on_name), addr).

Lemma shown_filter tr w p (m : list (bytes * nat)) ns :
  mirrors None tr w -> Forall (fun e => tr !! (p ++ [e.1]) = Some e.2) m ->
  Forall2 (fun b c => w.(w_nodes) !! b = Some c) m.*2 ns ->
  omap shown_child (zip ns m.*2) = filter (fun e => is_Some (seen (files_of w (p ++ [e.1])))) m.
Proof.
  intros HM. revert ns. induction m as [|[name b] m IH]; intros ns Hm Hns; cbn in Hns.
  { by apply Forall2_nil_inv_l in Hns as ->. }
  apply Forall_cons in Hm as [Hb Hm]. apply Forall2_cons_inv_l in Hns as (c & ns' & Hc & Hns & ->).
  destruct (HM.(mi_node _ _ _) _ _ Hb) as (c' & Hc' & Hat & _). cbn in Hb, Hc', Hat. simplify_eq.
  rewrite filter_cons, <- (IH ns') by done. cbn. unfold shown_child at 1. cbn [fst snd].
  rewrite Hat.(na_name _ _ _ _ _), Hat.(na_whiteout _ _ _ _ _), last_snoc.
  pose proof Hat.(na_some _ _ _ _ _) as Hne. clear Hat. destruct (files_of w (p ++ [name])) as [|f fs]; [done|]. cbn.
  destruct (is_wh f.(fd_kind)); case_decide as Hs; [by destruct Hs|done|done|]. by destruct Hs; eexists.
Qed.

Lemma shown_children tr w p a n ns :
  mirrors None tr w -> tr !! p = Some a -> w.(w_nodes) !! a = Some n -> n.(on_loaded) = true ->
  Forall2 (fun b c => w.(w_nodes) !! b = Some c) (values n.(on_childrens)) ns ->
  let l := omap shown_child (zip ns (values n.(on_childrens))) in
  listing w p l.*1 /\ Forall (fun e => exists q, tr !! q = Some e.2) l.
Proof.
  intros HM Ha Hn Hld Hns l. destruct (HM.(mi_node _ _ _) p a Ha) as (n' & Hn' & Hat & _). simplify_eq.
  set (m := map_to_list n.(on_childrens)).
  assert (Forall (fun e => tr !! (p ++ [e.1]) = Some e.2) m) as Hm.
  { apply Forall_forall. intros [name b] Hin%elem_of_map_to_list. by rewrite <- Hat.(na_children _ _ _ _ _). }
  unfold l, values. fold m. rewrite (shown_filter tr w p m ns HM Hm Hns). split; [split|].
  - eapply sublist_NoDup; [apply (NoDup_fst_map_to_list n.(on_childrens))|]. apply fmap_sublist, sublist_filter.
  - intros name. rewrite list_elem_of_fmap. split.
    + intros ([name' b] & -> & [Hs _]%list_elem_of_filter). done.
    + intros Hs. destruct (Hat.(na_loaded _ _ _ _ _) Hld name) as [b Hb].
      { intros E. rewrite E in Hs. by destruct Hs. }
      exists (name, b). split; [done|]. apply list_elem_of_filter. split; [done|]. apply elem_of_map_to_list.
      by rewrite Hat.(na_children _ _ _ _ _).
  - apply Forall_forall. intros [name b] [_ Hin]%list_elem_of_filter. rewrite Forall_forall in Hm. eexists. by apply Hm.
Qed.

(** The entries of a directory that was loaded. *)
Lemma dir_childrens_ends tr w p a n :
  mirrors None tr w -> tr !! p = Some a -> w.(w_nodes) !! a = Some n -> n.(on_loaded) = true ->
  ends (dir_childrens a) (fun l w' => w' = w /\ (exists names, l.*1 = CURRENT_DIR :: PARENT_DIR :: names /\ listing w p names) /\
    Forall (fun e => exists q, tr !! q = Some e.2) l) w.
Proof.
  intros HM Ha Hn Hld. unfold dir_childrens. eapply ends_bind; [by apply get_node_ends|]. intros ? ? [-> ->].
  eapply (ends_bind _ _ (fun o w' => w' = w /\ from_option (fun x => exists q, tr !! q = Some x) True o)).
  { unfold ends, upgrade. split; [done|]. destruct n.(on_parent) as [x|]; [|done]. cbn.
    destruct (w.(w_nodes) !! x) as [nx|] eqn:Hx; [|done]. cbn. by apply (HM.(mi_nodes _ _ _) x); eexists. }
  intros o ? [-> Ho].
  eapply (ends_bind _ _ (fun x w' => w' = w /\ exists q, tr !! q = Some x)).
  { destruct o as [x|]; [by apply ends_mret|]. destruct (HM.(mi_root _ _ _)) as [E [r Hr]]. unfold root_node.
    eapply ends_bind; [apply get_active_inode_ends|]. intros ? ? [-> ->]. rewrite E, Hr. by split; [|exists []]. }
  intros x ? [-> Hx]. eapply ends_bind; [apply get_nodes_ends|].
  { apply Forall_forall. intros b ([name b'] & -> & Hin%elem_of_map_to_list)%list_elem_of_fmap. cbn.
    destruct (HM.(mi_node _ _ _) p a Ha) as (n' & Hn' & Hat & _). simplify_eq. rewrite Hat.(na_children _ _ _ _ _) in Hin.
    destruct (HM.(mi_node _ _ _) _ _ Hin) as (c & Hc & _). by eexists. }
  intros ns ? [-> Hns]. apply ends_mret.
  destruct (shown_children tr w p a n ns HM Ha Hn Hld Hns) as [Hlist Hall]. split; [done|]. split.
  - eexists. split; [|exact Hlist]. done.
  - constructor; [by exists p|]. by constructor.
Qed.

(** ** READDIR *)

(** ["."] is the directory itself. *)
Lemma lookup_dot_gives ctx tr w inode p a :
  mirrors None tr w -> w.(w_fs).(ov_inodes).(is_inodes) !! inode = Some a -> tr !! p = Some a ->
  gives (lookup_node ctx inode CURRENT_DIR) (fun r w' => keeps w w' /\ exists tr', mirrors None tr' w' /\ tr ⊆ tr' /\
    match r with
    | inr b => b = a /\ exists f, seen (files_of w p) = Some f /\
        (kind_dir f.(fd_kind) = true -> exists n, w'.(w_nodes) !! a = Some n /\ n.(on_loaded) = true)
    | inl _ => seen (files_of w p) = None
    end) w.
Proof.
  intros HM Hi Ha. destruct (HM.(mi_node _ _ _) p a Ha) as (n & Hn & Hat & _). unfold lookup_node. cbn [contains].
  eapply gives_ends; [apply get_active_inode_ends|]. intros ? ? [-> ->]. rewrite Hi.
  eapply gives_ends; [by apply get_node_ends|]. intros ? ? [-> ->].
  destruct (files_of w p) as [|f fs] eqn:Hfs; [by destruct (Hat.(na_some _ _ _ _ _))|].
  rewrite Hat.(na_whiteout _ _ _ _ _), Hfs. cbn [head from_option seen].
  destruct (is_wh f.(fd_kind)) eqn:Hwh; [apply gives_fail; split; [reflexivity|]; by exists tr|].
  eapply stat_load_gives; [done..|]. intros st w' tr' Hkeeps HM' Hsub Hst Hld. cbn [beq].
  apply gives_mret. split; [done|]. exists tr'. split_and!; [done..|]. by exists f.
Qed.

(** The directory that is listed, with its attributes checked. *)
Lemma open_listing_gives ctx tr w inode :
  mirrors None tr w ->
  gives (node ← lookup_node ctx inode CURRENT_DIR;
         st ← ovi_stat64 ctx node;
         if negb (st_is_dir st) then fail (Os ENOTDIR) else mret node) (fun r w' =>
    keeps w w' /\ exists tr', mirrors None tr' w' /\
    (forall b, r = inr b -> exists q n, tr' !! q = Some b /\ w'.(w_nodes) !! b = Some n /\ n.(on_loaded) = true) /\
    forall p a f, w.(w_fs).(ov_inodes).(is_inodes) !! inode = Some a -> tr !! p = Some a ->
      seen (files_of w p) = Some f -> kind_dir f.(fd_kind) = true -> r = inr a /\ tr' !! p = Some a) w.
Proof.
  intros HM. destruct (w.(w_fs).(ov_inodes).(is_inodes) !! inode) as [a|] eqn:Hi.
  - destruct (HM.(mi_store _ _ _) _ _ Hi) as (n & Hn & _). destruct (HM.(mi_nodes _ _ _) a ltac:(by eexists)) as [_ [p Hp]].
    eapply gives_bind; [by eapply lookup_dot_gives| |].
    2: { intros e w1 (Hk & tr1 & HM1 & Hsub & Hnone). split; [done|]. exists tr1. split_and!; [done..|].
         intros q b f [= <-] Hq. rewrite (HM.(mi_inj _ _ _) q p a Hq Hp). congruence. }
    intros b w1 (Hk & tr1 & HM1 & Hsub & -> & f & Hf & Hld). pose proof (lookup_weaken _ _ _ _ Hp Hsub) as Hp1.
    destruct (HM1.(mi_node _ _ _) p a Hp1) as (n1 & Hn1 & Hat & _). pose proof Hat.(na_files _ _ _ _ _) as Hg.
    rewrite (alike_files w) in Hg by apply Hk. destruct (files_of w p) as [|f' fs] eqn:Hfs; [done|].
    assert (f' = f) as -> by (cbn in Hf; by destruct (is_wh f'.(fd_kind)); simplify_eq).
    eapply gives_ends; [by eapply ovi_stat64_ends|]. intros st w2 (M & -> & _).
    assert (keeps w w2) by (trans w1; [done|by eapply moves_keeps]).
    assert (mirrors None tr1 w2) by (by eapply mirrors_moves).
    destruct (kind_dir f.(fd_kind)) eqn:Hdir; cbn [negb].
    + apply gives_mret. split; [done|]. exists tr1. split_and!; [done| |].
      * intros ? [= <-]. destruct (Hld eq_refl) as (n2 & Hn2 & Hl2). exists p, n2. by rewrite M.(ms_nodes _ _ _).
      * intros q b g [= <-] Hq _ _. split; [done|]. by rewrite (HM.(mi_inj _ _ _) q p a Hq Hp).
    + apply gives_fail. split; [done|]. exists tr1. split_and!; [done..|].
      intros q b g [= <-] Hq. rewrite (HM.(mi_inj _ _ _) q p a Hq Hp), Hfs. congruence.
  - eapply (gives_bind _ _ (fun r w' => w' = w /\ exists e, r = inl e)).
    + unfold lookup_node. cbn [contains]. eapply gives_ends; [apply get_active_inode_ends|]. intros ? ? [-> ->]. rewrite Hi. apply gives_fail; eauto.
    + by intros b w' (_ & e & ?).
    + intros e w' [-> _]. split; [reflexivity|]. exists tr. split_and!; [done..|]. by intros.
Qed.

Section readdir.
Context {X : Type} (add : add_entry_t X).

(** Reading the entries changes nothing but references, whatever the callback
    does. *)
Lemma readdir_loop_quiet ctx size offset index len l tr w (x : X) :
  mirrors None tr w -> Forall (fun e => exists q, tr !! q = Some e.2) l ->
  quiet w (ov_readdir_loop ctx size offset false (fun d _ => add d) index len l (w, x)).1.1.
Proof.
  revert index len w x. induction l as [|[name c] l IH]; intros index len w x HM Hl; cbn [ov_readdir_loop].
  { apply moves_refl. }
  apply Forall_cons in Hl as [[q Hq] Hl]. destruct (index <? offset); [by apply IH|]. cbn in Hq.
  destruct (HM.(mi_node _ _ _) q c Hq) as (n & Hn & Hat & _).
  pose proof Hat.(na_files _ _ _ _ _) as Hg. destruct (files_of w q) as [|f fs] eqn:Hfs; [by destruct (Hat.(na_some _ _ _ _ _))|].
  pose proof (ovi_stat64_ends ctx c n w f fs Hn Hg) as Hst. unfold ends in Hst.
  unfold mbind, prog_mbind, prog_bind, on_fst, on_snd, catch. cbn [fst snd].
  destruct (ovi_stat64 ctx c w) as [w1 [st|e|]]; [|done..]. destruct Hst as [M _].
  assert (mirrors None tr w1) as HM1 by (by eapply mirrors_moves). cbn.
  destruct (add _ x) as [y [k|e|]]; cbn; [|by destruct (len =? 0)|done].
  destruct (k =? 0); [done|]. destruct (size <=? _); [done|]. eapply moves_trans; [exact M|by apply IH|done].
Qed.

(** A callback that takes every entry gets them all. *)
Lemma readdir_loop_all ctx size index len l tr w (x : X) :
  (forall d y, (add d y).2 = Ok 1) -> mirrors None tr w -> Forall (fun e => exists q, tr !! q = Some e.2) l ->
  0 <= index -> 0 <= len -> len + zlen l < size < 2 ^ 32 ->
  let r := ov_readdir_loop ctx size 0 false (fun d _ => add d) index len l (w, x) in
  r.2 = Ok tt /\ exists ds, d_name <$> ds = l.*1 /\ r.1.2 = foldl (fun y d => (add d y).1) x ds.
Proof.
  intros Hadd. revert index len w x. induction l as [|[name c] l IH]; intros index len w x HM Hl Hi Hlen Hs; cbn [ov_readdir_loop].
  { split; [done|]. by exists []. }
  apply Forall_cons in Hl as [[q Hq] Hl]. destruct (Z.ltb_spec index 0); [lia|]. cbn in Hq.
  change (zlen ((name, c) :: l)) with (Z.of_nat (S (length l))) in Hs.
  destruct (HM.(mi_node _ _ _) q c Hq) as (n & Hn & Hat & _).
  pose proof Hat.(na_files _ _ _ _ _) as Hg. destruct (files_of w q) as [|f fs] eqn:Hfs; [by destruct (Hat.(na_some _ _ _ _ _))|].
  pose proof (ovi_stat64_ends ctx c n w f fs Hn Hg) as Hst. unfold ends in Hst.
  unfold mbind, prog_mbind, prog_bind, on_fst, on_snd, catch. cbn [fst snd].
  destruct (ovi_stat64 ctx c w) as [w1 [st|e|]]; [|done..]. destruct Hst as [M _].
  assert (mirrors None tr w1) as HM1 by (by eapply mirrors_moves). cbn -[wrap].
  set (d := MkDirEntry _ _ _ name). specialize (Hadd d x). destruct (add d x) as [y o] eqn:Hy. cbn in Hadd. subst o. cbn -[wrap].
  rewrite wrap_small by (unfold in_u; lia). destruct (Z.leb_spec size (len + 1)); [unfold zlen in *; lia|].
  destruct (IH (index + 1) (len + 1) w1 y HM1 Hl) as (Hok & ds & Hds & Hst); [lia|lia|unfold zlen in *; lia|].
  split; [exact Hok|]. exists (d :: ds). cbn. rewrite Hds, Hy. done.
Qed.

(** What is left of a READDIR: the invariant, whatever the callback does; and if
    it takes everything, the names of the directory [p]. *)
Definition readdir_done w tr inode (size offset : Z) (x : X) (r : (World L * X) * io_result unit) : Prop :=
  keeps w r.1.1 /\ (exists tr', mirrors None tr' r.1.1) /\
  forall p a f, w.(w_fs).(ov_inodes).(is_inodes) !! inode = Some a -> tr !! p = Some a ->
    seen (files_of w p) = Some f -> kind_dir f.(fd_kind) = true -> 0 < size -> offset = 0 ->
    (forall d y, (add d y).2 = Ok 1) ->
    exists names, listing w p names /\ (zlen names + 2 < size < 2 ^ 32 ->
      r.2 = Ok tt /\ exists ds, d_name <$> ds = CURRENT_DIR :: PARENT_DIR :: names /\
        r.1.2 = foldl (fun y d => (add d y).1) x ds).

Lemma do_readdir_done ctx tr w inode handle size offset (x : X) :
  mirrors None tr w ->
  readdir_done w tr inode size offset x
    (ov_do_readdir ctx inode handle size offset false (fun d _ => add d) (w, x)).
Proof.
  intros HM. unfold ov_do_readdir. destruct (Z.eqb_spec size 0) as [->|Hsz].
  { split; [reflexivity|]. split; [by exists tr|]. intros; lia. }
  unfold mbind at 1, prog_mbind at 1, prog_bind at 1. cbn [on_fst get_fs gets fst snd].
  rewrite (proj1 HM.(mi_static _ _ _)), lookup_empty.
  pose proof (open_listing_gives ctx tr w inode HM) as Hopen. unfold gives in Hopen.
  unfold mbind at 1, prog_mbind at 1, prog_bind at 1, on_fst at 1. cbn [fst snd].
  match type of Hopen with match ?m with _ => _ end => destruct m as [w1 [b|e|]] end; [| |done].
  2: { destruct Hopen as (Hk & tr1 & HM1 & _ & Hr). split; [done|]. split; [by exists tr1|].
       intros p a f Hi Ha Hf Hd. by destruct (Hr p a f Hi Ha Hf Hd). }
  destruct Hopen as (Hk & tr1 & HM1 & Hb & Hr). destruct (Hb b eq_refl) as (q & n & Hq & Hn & Hld).
  pose proof (dir_childrens_ends tr1 w1 q b n HM1 Hq Hn Hld) as Hch. unfold ends in Hch.
  unfold mbind, prog_mbind, prog_bind, on_fst. cbn [fst snd].
  destruct (dir_childrens b w1) as [w2 [l|e|]]; [|done..]. destruct Hch as (-> & (names & Hnames & Hlist) & Hall).
  assert (zlen l = zlen names + 2) as Hzl.
  { apply (f_equal length) in Hnames. rewrite length_fmap in Hnames. unfold zlen. rewrite Hnames. cbn. lia. }
  assert (quiet w1 (if zlen l <=? offset then (w1, x, Ok tt) else
    ov_readdir_loop ctx size offset false (fun d _ => add d) 0 0 l (w1, x)).1.1) as M.
  { destruct (zlen l <=? offset); [apply moves_refl|by eapply readdir_loop_quiet]. }
  replace ((if zlen l <=? offset then mret tt else ov_readdir_loop ctx size offset false (fun d _ => add d) 0 0 l) (w1, x))
    with (if zlen l <=? offset then (w1, x, Ok tt) else ov_readdir_loop ctx size offset false (fun d _ => add d) 0 0 l (w1, x))
    by (by destruct (zlen l <=? offset)).
  split; [trans w1; [done|by eapply moves_keeps]|]. split; [exists tr1; by eapply mirrors_moves|].
  intros p a f Hi Ha Hf Hd Hpos -> Hadd. destruct (Hr p a f Hi Ha Hf Hd) as [[= ->] Hp].
  rewrite (HM1.(mi_inj _ _ _) p q a Hp Hq). exists names. split.
  { destruct Hlist as [Hnd Hl]. split; [done|]. intros name. rewrite Hl, (alike_files w) by apply Hk. done. }
  intros Hs. destruct (Z.leb_spec (zlen l) 0); [pose proof (zlen_nonneg names); lia|]. rewrite <- Hnames.
  eapply readdir_loop_all; [done|done|done|lia|lia|lia].
Qed.

Lemma browse_readdir ctx tr w inode handle size offset (x : X) :
  mirrors None tr w -> params.(oc_no_readdir) = false ->
  readdir_done w tr inode size offset x (fs_readdir ctx inode handle size offset add (w, x)).
Proof.
  intros HM Hno. pose proof (do_readdir_done ctx tr w inode handle size offset x HM) as Hdone.
  assert (ov_readdir ctx inode handle size offset add (w, x) =
    ov_do_readdir ctx inode handle size offset false (fun d _ => add d) (w, x)) as E.
  { unfold ov_readdir, mbind, prog_mbind, prog_bind. cbn [on_fst get_fs gets fst snd]. by rewrite (proj2 HM.(mi_static _ _ _)), Hno. }
  change (fs_readdir ctx inode handle size offset add (w, x)) with
    (finally (ov_readdir ctx inode handle size offset add) (on_fst collect) (w, x)).
  rewrite finally_noop; rewrite E; [done|].
  destruct Hdone as (_ & (tr' & HM') & _). unfold on_fst. rewrite (collect_nothing tr') by done.
  by destruct (ov_do_readdir _ _ _ _ _ _ _ _) as [[] ?].
Qed.
End readdir.
End tree.
