(* ===== verification/OverlaySeen.v ===== *)
(** * What a client of the overlay file system sees

    The layers are imported, and look-ups of paths find what is in their union. *)

From stdpp Require Import list gmap relations.
From S2P Require Import Prelude Std Abi AbiStruct FsTypes FileSystem Vfs ProgLogic Host Layer OverlayStore Overlay.
From S2P Require Import OverlayOps OverlaySync ToyLayer OverlayLaws ToyLayerOk OverlayService OverlayUnion OverlayTree.

Section roots.
Context {L : Type} `{LAYER : Layer L} `{VIEWED : !Viewed L}.

(** The root of a layer as a file of the union. *)
Definition root_in (layers : list L) (up : bool) (j : nat) : option Found :=
  l ← layers !! j; Some (MkFound j up (layer_root_inode l) (lv_kind l (layer_root_inode l))).

(** The roots, from the upper layer down. *)
Definition roots_of (layers : list L) (upper : option nat) (lowers : list nat) : list Found :=
  option_list (upper ≫= root_in layers true) ++ omap (root_in layers false) lowers.

(** A layer with a directory as its root. *)
Definition root_ok (l : L) : Prop := lv_ok l /\ layer_root_inode l <> 0 /\ kind_dir (lv_kind l (layer_root_inode l)) = true.
End roots.

Section import.
Context {L : Type} `{LAYER : Layer L} `{VIEWED : !Viewed L} `{LVIEW : !LayerView L}.
Implicit Types (w : World L) (params : OvConfig) (upper : option nat) (lowers : list nat).

Lemma root_backed w up j f : Forall root_ok w.(w_layers) -> root_in w.(w_layers) up j = Some f -> backed w f.
Proof.
  unfold root_in. intros Hok. destruct (w.(w_layers) !! j) as [l|] eqn:Hl; [|done]. intros [= <-].
  rewrite Forall_lookup in Hok. destruct (Hok _ _ Hl). exists l. split_and!; [done|split; [done|by left]|naive_solver..].
Qed.

Lemma roots_alike w w' up j : alike w w' -> root_in w'.(w_layers) up j = root_in w.(w_layers) up j.
Proof.
  intros [Hlen M]. unfold root_in. destruct (w.(w_layers) !! j) as [l|] eqn:Hl; cbn.
  - destruct (lookup_lt_is_Some_2 w'.(w_layers) j) as [l' Hl']. { rewrite Hlen. by apply lookup_lt_Some in Hl. }
    rewrite Hl'. cbn. destruct (M _ _ _ Hl Hl') as [dl V]. by rewrite V.(mv_root _ _ _), V.(mv_kind _ _ _).
  - apply lookup_ge_None in Hl. by rewrite lookup_ge_None_2 by (rewrite Hlen; done).
Qed.

Lemma roots_omap w w' up (js : list nat) :
  alike w w' -> omap (root_in w'.(w_layers) up) js = omap (root_in w.(w_layers) up) js.
Proof. intros Hal. induction js as [|j js IH]; [done|]. cbn. by rewrite (roots_alike w w'), IH. Qed.

Lemma RealInode_new_ends f o w :
  backed w f -> f.(fd_kind) = Dir o ->
  ends (RealInode_new f.(fd_layer) f.(fd_upper) f.(fd_inode) false o) (fun ri w' => quiet w w' /\ good w' ri f) w.
Proof.
  intros B Hk. destruct (B) as (l & Hl & _ & Hkind & _). unfold RealInode_new.
  eapply ends_bind; [by apply ends_catch, (stat64_ignore_enoent_ends _ _ f)|].
  intros [e|v] w' Hv; [done|]. destruct Hv as (st & -> & M & Hst). destruct (Hst l Hl) as [Hd _].
  apply ends_mret. split; [done|]. split; [|by eapply moves_backed].
  split; cbn; rewrite ?Hk; try done. exists st. split; [done|]. by rewrite Hd, Hkind, Hk.
Qed.

(** One layer is imported. *)
Lemma import_layer_ends {A} ctx w up j f (ask : Z -> prog (World L) io_error bool) (k : RealInode -> prog (World L) io_error A) Q :
  (forall ino Q w, ends (on_layer j (layer_is_opaque ctx ino)) Q w -> ends (ask ino) Q w) ->
  Forall root_ok w.(w_layers) -> root_in w.(w_layers) up j = Some f ->
  (forall ri w', quiet w w' -> good w' ri f -> ends (k ri) Q w') ->
  ends (w ← gets id;
        ino ← lift (unwrap (layer_root_inode <$> w.(w_layers) !! j));
        opaque ← ask ino;
        real ← RealInode_new j up ino false opaque;
        k real) Q w.
Proof.
  intros Hask Hok Hf Hk. pose proof (root_backed _ _ _ _ Hok Hf) as B. unfold root_in in Hf.
  destruct (w.(w_layers) !! j) as [l|] eqn:Hl; [|done]. injection Hf as Hf.
  rewrite Forall_lookup in Hok. destruct (Hok _ _ Hl) as (Hlok & H0 & Hdir).
  eapply (ends_bind _ _ (fun r w' => r = w /\ w' = w)); [done|]. intros ? ? [-> ->]. rewrite Hl.
  eapply (ends_bind _ _ (fun r w' => r = layer_root_inode l /\ w' = w)); [done|]. intros ? ? [-> ->].
  destruct (lv_kind l (layer_root_inode l)) as [|o|] eqn:Hkind; [done| |done].
  eapply (ends_bind _ _ (fun r w' => r = o /\ quiet w w')).
  { apply Hask. eapply ends_on_layer_quiet; [done|]. eapply ends_mono; [apply (lv_is_opaque ctx l _ o); [split; [done|by left]|done]|].
    naive_solver. }
  intros ? w1 [-> M1]. subst f. eapply ends_bind; [eapply (RealInode_new_ends (MkFound j up _ (Dir o))); [by eapply moves_backed|done]|].
  intros ri w2 [M2 Hg]. apply Hk; [|done]. by eapply moves_trans.
Qed.

Lemma roots_ok_alike w w' : alike w w' -> Forall root_ok w.(w_layers) -> Forall root_ok w'.(w_layers).
Proof.
  intros [Hlen M]. rewrite !Forall_lookup. intros Hok j l' Hl'.
  destruct (lookup_lt_is_Some_2 w.(w_layers) j) as [l Hl]. { rewrite <- Hlen. by apply lookup_lt_Some in Hl'. }
  destruct (M _ _ _ Hl Hl') as [dl V]. destruct (Hok _ _ Hl) as (? & ? & ?). split; [by apply V|].
  split; by rewrite ?V.(mv_kind _ _ _), V.(mv_root _ _ _).
Qed.

Lemma root_in_some (layers : list L) up j : (j < length layers)%nat -> exists f, root_in layers up j = Some f.
Proof. intros [l Hl]%lookup_lt_is_Some_2. unfold root_in. rewrite Hl. by eexists. Qed.

Lemma import_upper_ends ctx upper w :
  Forall root_ok w.(w_layers) -> (forall u, upper = Some u -> (u < length w.(w_layers))%nat) ->
  ends (import_upper ctx upper) (fun rs w' => quiet w w' /\
    Forall2 (good w') rs (option_list (upper ≫= root_in w.(w_layers) true))) w.
Proof.
  intros Hok Hu. destruct upper as [u|]; cbn [import_upper].
  - destruct (root_in_some w.(w_layers) true u) as [f Hf]; [by apply Hu|]. cbn. rewrite Hf.
    eapply (import_layer_ends ctx w true u f (fun ino => on_layer u (layer_is_opaque ctx ino))); [done..|].
    intros ri w' M Hg. apply ends_mret. split; [done|]. by constructor.
  - apply ends_mret. split; [apply moves_refl|constructor].
Qed.

Lemma import_lowers_ends ctx lowers acc fs w :
  Forall root_ok w.(w_layers) -> Forall (fun j => j < length w.(w_layers))%nat lowers -> Forall2 (good w) acc fs ->
  ends (import_lowers ctx lowers acc) (fun rs w' => quiet w w' /\
    Forall2 (good w') rs (fs ++ omap (root_in w.(w_layers) false) lowers)) w.
Proof.
  revert acc fs w. induction lowers as [|j lowers IH]; intros acc fs w Hok Hl Hacc; cbn [import_lowers].
  { apply ends_mret. rewrite app_nil_r. split; [apply moves_refl|done]. }
  apply Forall_cons in Hl as [Hj Hl]. destruct (root_in_some w.(w_layers) false j Hj) as [f Hf]. cbn. rewrite Hf.
  eapply (import_layer_ends ctx w false j f (fun ino => or_drop (on_layer j (layer_is_opaque ctx ino)) _));
    [intros; by apply ends_or_drop|done..|].
  intros ri w' M Hg. pose proof (moves_alike _ _ _ M) as Hal. eapply ends_mono; [apply (IH (acc ++ [ri]) (fs ++ [f]) w')|].
  - by eapply roots_ok_alike.
  - by rewrite (proj1 Hal).
  - apply Forall2_app; [|by constructor]. by eapply goods_moves.
  - intros rs w'' [M' Hrs]. split; [by eapply moves_trans|]. rewrite <- app_assoc in Hrs. cbn in Hrs.
    by rewrite (roots_omap w w') in Hrs.
Qed.

(** The overlay inode of the root, alone in its tables. *)
Definition root_inode (rs : list RealInode) : OverlayInode := {|
  on_childrens := ∅; on_parent := None; on_real_inodes := rs; on_inode := ROOT_ID; on_path := []; on_name := [];
  on_lookups := 2; on_whiteout := false; on_loaded := false |}.

Definition rooted (w : World L) (rs : list RealInode) : World L :=
  MkWorld (set_ov_inodes w.(w_fs) (store_insert_inode ROOT_ID [] 0 OvInodeStore_new)) {[0%nat := root_inode rs]} 1 w.(w_layers).

Lemma mirrors_rooted w (rs : list RealInode) (f : Found) (fs : list Found) (paths : gset (list bytes)) params :
  w.(w_fs).(ov_handles) = ∅ -> w.(w_fs).(ov_config) = params -> Forall2 (good w) rs (f :: fs) -> kind_dir f.(fd_kind) = true ->
  (forall p, Forall good_name p -> files_of (f :: fs) w p <> [] -> p ∈ paths) ->
  mirrors (f :: fs) paths params None {[ [] := 0%nat ]} (rooted w rs).
Proof.
  intros Hh Hcfg Hrs Hdir Hpaths. split; cbn.
  - intros p a [<- <-]%lookup_singleton_Some. exists (root_inode rs). split_and!; [apply lookup_singleton_eq| |apply lookup_insert_eq].
    split; cbn; try done; [by destruct f.(fd_kind)|]. intros name. by rewrite lookup_empty, lookup_singleton_ne.
  - by intros p q a [<- _]%lookup_singleton_Some [<- _]%lookup_singleton_Some.
  - intros p name [a [E _]%lookup_singleton_Some]. by destruct p.
  - intros a [n [<- _]%lookup_singleton_Some]. split; [lia|]. exists []. apply lookup_singleton_eq.
  - rewrite lookup_insert_eq, lookup_singleton_eq. by split.
  - intros i a. destruct (decide (i = ROOT_ID)) as [->|Hi].
    + rewrite lookup_insert_eq. intros [= <-]. exists (root_inode rs). by rewrite lookup_singleton_eq.
    + by rewrite lookup_insert_ne, lookup_empty.
  - done.
  - intros s i. destruct (decide (s = [])) as [->|Hs]; [|by rewrite lookup_insert_ne, lookup_empty].
    intros _. exists []. split_and!; [done..|]. by rewrite lookup_singleton_eq.
  - done.
  - done.
  - done.
Qed.

Lemma roots_of_cons (layers : list L) upper lowers :
  layout_ok upper lowers layers -> Forall root_ok layers ->
  exists f fs, roots_of layers upper lowers = f :: fs /\ kind_dir f.(fd_kind) = true.
Proof.
  intros (Hany & Hlow & Hup) Hok. unfold roots_of.
  assert (forall up j f, root_in layers up j = Some f -> kind_dir f.(fd_kind) = true) as Hdir.
  { intros up j f. unfold root_in. destruct (layers !! j) as [l|] eqn:Hl; [|done]. intros [= <-].
    rewrite Forall_lookup in Hok. by destruct (Hok _ _ Hl) as (_ & _ & ?). }
  destruct upper as [u|]; cbn.
  - destruct (root_in_some layers true u) as [f Hf]; [by apply Hup|]. rewrite Hf. cbn. eauto.
  - destruct lowers as [|j lowers]; [by destruct Hany as [[]|]|]. apply Forall_cons in Hlow as [Hj _].
    destruct (root_in_some layers false j Hj) as [f Hf]. cbn. rewrite Hf. eauto.
Qed.

Lemma rooted_ends {A} w rs (k : nat -> prog (World L) io_error A) Q :
  w.(w_nodes) = ∅ -> w.(w_next) = 0%nat -> w.(w_fs).(ov_inodes) = OvInodeStore_new -> ends (k 0%nat) Q (rooted w rs) ->
  ends (a ← new_arc (root_inode rs); _ ← insert_inode ROOT_ID a; k a) Q w.
Proof.
  destruct w as [fs nodes next layers]. cbn. intros -> -> Hs Hk.
  unfold ends, new_arc, insert_inode, get_node, on_store, modify, mbind, prog_mbind, prog_bind. cbn.
  rewrite lookup_insert_eq, Hs. exact Hk.
Qed.

Lemma import_ends upper lowers params (layers : list L) (paths : gset (list bytes)) :
  layout_ok upper lowers layers -> Forall root_ok layers -> Z.of_nat (size paths) < VFS_MAX_INO ->
  (forall p, Forall good_name p -> resolve layers (roots_of layers upper lowers) p <> [] -> p ∈ paths) ->
  let w := ov_new upper lowers params layers in
  ends ov_import (fun _ w' => alike w w' /\ exists tr, mirrors (roots_of layers upper lowers) paths params None tr w') w.
Proof.
  intros Hlayout Hok Hsize Hpaths w. destruct (roots_of_cons _ _ _ Hlayout Hok) as (f & fs & Hroots & Hdir).
  destruct Hlayout as (Hany & Hlow & Hup). unfold ov_import.
  eapply (ends_bind _ _ (fun fs w' => fs = w.(w_fs) /\ w' = w)); [done|]. intros ? ? [-> ->]. cbn [ov_new w w_fs ov_upper_layer ov_lower_layers OverlayFs_new].
  eapply ends_bind; [apply import_upper_ends; [done|]; intros u Hu; by apply Hup|]. intros rs1 w1 [M1 Hrs1].
  pose proof (moves_alike _ _ _ M1) as Hal1.
  eapply ends_bind; [apply import_lowers_ends; [by eapply roots_ok_alike|by rewrite (proj1 Hal1)|exact Hrs1]|].
  intros rs w2 [M2 Hrs]. rewrite (roots_omap w w1) in Hrs by done. change (Forall2 (good w2) rs (roots_of layers upper lowers)) in Hrs.
  assert (quiet w w2) as M by (by eapply moves_trans). rewrite Hroots in *.
  assert (mirrors (f :: fs) paths params None {[ [] := 0%nat ]} (rooted w2 rs)) as HM.
  { apply mirrors_rooted; [by rewrite M.(ms_fs _ _ _)..|done|done|]. intros p Hp. rewrite (alike_files _ w) by (by eapply moves_alike). by apply Hpaths. }
  assert (alike w (rooted w2 rs)) as Hal by (trans w2; [by eapply moves_alike|by apply layers_alike]).
  apply rooted_ends; [by rewrite M.(ms_nodes _ _ _)|by rewrite M.(ms_next _ _ _)|by rewrite M.(ms_fs _ _ _)|].
  eapply ends_mono; [by apply (load_directory_ends (f :: fs) paths params Hsize _ {[ [] := 0%nat ]} (rooted w2 rs) [] 0%nat f fs)|].
  intros ? w3 ([Hal3 _] & tr & n & HM3 & _). split; [by etrans|by exists tr].
Qed.

(** INIT imports the layers. *)
Lemma init_ends (capable : Z) upper lowers params (layers : list L) (paths : gset (list bytes)) :
  layout_ok upper lowers layers -> Forall root_ok layers -> params.(oc_do_import) = true ->
  Z.of_nat (size paths) < VFS_MAX_INO ->
  (forall p, Forall good_name p -> resolve layers (roots_of layers upper lowers) p <> [] -> p ∈ paths) ->
  let w := ov_new upper lowers params layers in
  ends (fs_op (op_init capable)) (fun _ w' => alike w w' /\ exists tr,
    mirrors (roots_of layers upper lowers) paths params None tr w') w.
Proof.
  intros (Hany & Hlow & Hup) Hok Himport Hsize Hpaths w. apply ends_finally. cbn [ov_op]. unfold ov_init.
  eapply (ends_bind _ _ (fun fs w' => fs = w.(w_fs) /\ w' = w)); [done|]. intros ? ? [-> ->].
  change (w.(w_fs).(ov_config)) with params. rewrite Himport.
  eapply (ends_bind _ _ (fun _ w' => alike w w' /\ exists tr, mirrors (roots_of layers upper lowers) paths params None tr w')).
  - by apply import_ends.
  - intros ? w' (Hal & tr & HM). unfold ends, modify, mbind, prog_mbind, prog_bind. cbn -[collect].
    assert (forall b1 b2 b3 b4 b5, mirrors (roots_of layers upper lowers) paths params None tr
      (set_fs w' (set_ov_features w'.(w_fs) b1 b2 b3 b4 b5))) as HM'.
    { intros. apply (mirrors_alike _ _ _ None tr w'); [by apply layers_alike| |done..]. intros ri f. by apply layers_good. }
    split; [eapply collect_nothing, HM'|]. split; [|exists tr; apply HM']. trans w'; [exact Hal|by apply layers_alike].
Qed.
End import.

(** ** Clients that browse *)

(** LOOKUP and READDIR, with any arguments. *)
Inductive browse {L : Type} `{Layer L} (w : World L) : World L -> Prop :=
| br_lookup ctx parent name : browse w (fs_op (op_lookup ctx parent name) w).1
| br_readdir X ctx inode handle size offset (add : add_entry_t X) (x : X) :
    browse w (fs_readdir ctx inode handle size offset add (w, x)).1.1.

(** A file system over layers with directories as roots, whose union has the
    files [paths], fewer than there are inode numbers. *)
Record exported {L : Type} `{Layer L} `{!Viewed L} (upper : option nat) (lowers : list nat) (params : OvConfig)
    (layers : list L) (paths : gset (list bytes)) : Prop := {
  ex_layout : layout_ok upper lowers layers;
  ex_roots : Forall root_ok layers;
  ex_import : params.(oc_do_import) = true;
  ex_readdir : params.(oc_no_readdir) = false;
  ex_size : Z.of_nat (size paths) < VFS_MAX_INO;
  ex_paths : forall p, Forall good_name p -> resolve layers (roots_of layers upper lowers) p <> [] -> p ∈ paths;
}.

(** The inode number of a path, by looking it up. *)
Definition inode_at {S : Type} `{FileSystem S} (ctx : Context) (path : list bytes) : prog S io_error Z :=
  match path with
  | [] => mret ROOT_ID
  | name :: rest => e ← walk ctx ROOT_ID name rest; mret e.(en_inode)
  end.

Section browse.
Context {L : Type} `{LAYER : Layer L} `{VIEWED : !Viewed L} `{LVIEW : !LayerView L}.
Context (upper : option nat) (lowers : list nat) (params : OvConfig) (layers : list L) (paths : gset (list bytes)).
Hypothesis Hex : exported upper lowers params layers paths.
Abbreviation roots := (roots_of layers upper lowers).
Implicit Types (w : World L).

(** The states a client can reach have the files of the layers. *)
Definition browsed w : Prop :=
  alike (ov_new upper lowers params layers) w /\ exists tr, mirrors roots paths params None tr w.

Lemma browsed_init capable : exists w opts,
  fs_op (op_init capable) (ov_new upper lowers params layers) = (w, Ok opts) /\ browsed w.
Proof.
  destruct Hex. pose proof (init_ends capable upper lowers params layers paths) as Hinit. unfold ends in Hinit.
  destruct (fs_op _ _) as [w [opts|e|]]; [|naive_solver..]. exists w, opts. split; [done|]. by apply Hinit.
Qed.

Lemma browsed_browse w w' : browse w w' -> browsed w -> browsed w'.
Proof.
  intros Hb [Hal [tr HM]]. destruct Hex. destruct Hb as [ctx parent name|X ctx inode h size offset add x].
  - pose proof (lookup_request_gives roots paths params ex_size0 ctx tr w parent name HM) as Hg. unfold gives in Hg.
    destruct (fs_op _ w) as [w' [e|e|]]; [..|done]; destruct Hg as ([Hal' _] & tr' & HM' & _); (split; [by etrans|by exists tr']).
  - destruct (browse_readdir roots paths params ex_size0 add ctx tr w inode h size offset x HM ex_readdir0) as ([Hal' _] & Htr & _).
    split; [by etrans|done].
Qed.

Lemma browsed_rtc w w' : rtc browse w w' -> browsed w -> browsed w'.
Proof. induction 1; [done|]. intros. eauto using browsed_browse. Qed.

Lemma browsed_files w p : browsed w -> files_of roots w p = resolve layers roots p.
Proof. intros [Hal _]. exact (alike_files roots (ov_new upper lowers params layers) w p Hal). Qed.

(** A file that is seen is in one of the layers. *)
Lemma seen_layer w rs fs f :
  alike (ov_new upper lowers params layers) w -> Forall2 (good w) rs fs -> seen fs = Some f ->
  exists l, layers !! f.(fd_layer) = Some l.
Proof.
  intros [Hlen _] Hfs Hseen. destruct Hfs as [|ri g rs fs [_ (l & Hl & _)] _]; [done|]. cbn in Hseen.
  destruct (is_wh g.(fd_kind)); [done|]. injection Hseen as ->. apply lookup_lt_is_Some_2. cbn in Hlen.
  rewrite <- Hlen. by eapply lookup_lt_Some.
Qed.

Lemma browsed_walk ctx name rest w :
  browsed w -> Forall good_name (name :: rest) ->
  gives (walk ctx ROOT_ID name rest) (fun r w' => browsed w' /\ match r, seen (resolve layers roots (name :: rest)) with
    | inr e, Some f => (exists l, layers !! f.(fd_layer) = Some l /\ stat_of l f.(fd_inode) e.(en_attr)) /\
        exists tr a, mirrors roots paths params None tr w' /\
          w'.(w_fs).(ov_inodes).(is_inodes) !! e.(en_inode) = Some a /\ tr !! (name :: rest) = Some a
    | inl err, None => err = Os ENOENT
    | _, _ => False
    end) w.
Proof.
  intros Hb Hgood. pose proof Hb as [Hal [tr HM]]. destruct (HM.(mi_root _ _ _ _ _ _)) as [Hroot [r Hr]]. rewrite Hr in Hroot.
  eapply gives_mono; [by eapply (walk_gives roots paths params (ex_size _ _ _ _ _ Hex) ctx rest tr w ROOT_ID r [] name)|].
  cbn [app]. rewrite (browsed_files w) by done. intros [err|e] w' ([Hal' _] & tr' & HM' & Hres).
  - split; [split; [by etrans|by exists tr']|]. by destruct (seen _).
  - split; [split; [by etrans|by exists tr']|]. destruct (seen _) as [f|] eqn:Hseen; [|done]. destruct Hres as (Hst & b & ? & Hb').
    split; [|by exists tr', b]. destruct (HM'.(mi_node _ _ _ _ _ _) _ _ Hb') as (n & _ & Hat & _).
    pose proof Hat.(na_files _ _ _ _ _ _) as Hfs. assert (browsed w') as Hb1 by (split; [by etrans|by exists tr']).
    rewrite (browsed_files w') in Hfs by done. destruct (seen_layer w' _ _ f (proj1 Hb1) Hfs Hseen) as [l Hl].
    exists l. split; [done|]. by apply (stat_at_alike (ov_new upper lowers params layers) w f).
Qed.

Lemma browsed_inode ctx path w :
  browsed w -> Forall good_name path ->
  gives (inode_at ctx path) (fun r w' => browsed w' /\ match r, seen (resolve layers roots path) with
    | inr i, Some f => exists tr a, mirrors roots paths params None tr w' /\
        w'.(w_fs).(ov_inodes).(is_inodes) !! i = Some a /\ tr !! path = Some a
    | inl err, None => err = Os ENOENT
    | _, _ => False
    end) w.
Proof.
  intros Hb Hgood. pose proof Hb as [Hal [tr HM]]. destruct (HM.(mi_root _ _ _ _ _ _)) as [Hroot [r Hr]]. rewrite Hr in Hroot.
  destruct path as [|name rest]; cbn [inode_at].
  - apply gives_mret. split; [done|]. destruct Hex. destruct (roots_of_cons layers upper lowers) as (f & fs & E & Hdir); [done..|].
    assert (seen (resolve layers roots []) = Some f) as -> by (cbn; rewrite E; cbn; by destruct f.(fd_kind)). by exists tr, r.
  - eapply gives_bind; [by apply browsed_walk| |].
    + intros e w' [Hb' Hres]. apply gives_mret. split; [done|]. destruct (seen _); [|done]. apply Hres.
    + intros err w' [Hb' Hres]. split; [done|]. by destruct (seen _).
Qed.
End browse.

(** ** The union of the layers *)

Section claims.
Context {L : Type} `{LAYER : Layer L} `{VIEWED : !Viewed L} `{LVIEW : !LayerView L}.

(** C15: clients see the union of the layers.  An overlay file system over layers
    that behave as trees of files imports them when it is initialised.  In every
    state a client reaches by LOOKUPs and READDIRs, looking up the names of a
    path one after the other finds the file that the union of the layers has
    there: the one of the uppermost layer in which no directory on the way is
    hidden by a whiteout, a file or an opaque directory above it.  The
    attributes of the entry are those of that file in its layer, the inode
    number [st_ino] included; only the access time is left open, since reading
    may change it.  When the union has no file at the path, or a whiteout, the
    answer is ENOENT. *)
Theorem lookups_see_union (ctx : Context) (capable : Z) (upper : option nat) (lowers : list nat) (params : OvConfig)
    (layers : list L) (paths : gset (list bytes)) :
  exported upper lowers params layers paths ->
  exists w0 opts, fs_op (op_init capable) (ov_new upper lowers params layers) = (w0, Ok opts) /\
  forall w name rest, rtc browse w0 w -> Forall good_name (name :: rest) ->
    match (walk ctx ROOT_ID name rest w).2, seen (resolve layers (roots_of layers upper lowers) (name :: rest)) with
    | Ok e, Some f => exists l, layers !! f.(fd_layer) = Some l /\ stat_of l f.(fd_inode) e.(en_attr)
    | Err err, None => err = Os ENOENT
    | _, _ => False
    end.
Proof.
  intros Hex. destruct (browsed_init _ _ _ _ _ Hex capable) as (w0 & opts & Hinit & Hb0). exists w0, opts. split; [done|].
  intros w name rest Hw Hgood. pose proof (browsed_rtc _ _ _ _ _ Hex _ _ Hw Hb0) as Hb.
  pose proof (browsed_walk _ _ _ _ _ Hex ctx name rest w Hb Hgood) as Hg. unfold gives in Hg.
  destruct (walk ctx ROOT_ID name rest w) as [w' [e|e|]]; cbn [snd]; [| |done].
  - destruct (seen _) as [f|] eqn:Hf; [|by destruct Hg]. apply Hg.
  - by destruct (seen _), Hg.
Qed.

(** C16: directories list the union of the layers.  In every state a client
    reaches by LOOKUPs and READDIRs, the inode number found for the path of a
    directory can be listed.  A callback that takes every entry gets ["."], [".."]
    and the names under which the union has a file, each of them once: no name
    that is hidden by a whiteout or an opaque directory, and no name twice
    because two layers have it. *)
Theorem readdir_lists_union {X} (add : add_entry_t X) (ctx : Context) (capable : Z) (upper : option nat) (lowers : list nat)
    (params : OvConfig) (layers : list L) (paths : gset (list bytes)) :
  exported upper lowers params layers paths -> (forall d y, (add d y).2 = Ok 1) ->
  let roots := roots_of layers upper lowers in
  exists w0 opts, fs_op (op_init capable) (ov_new upper lowers params layers) = (w0, Ok opts) /\
  forall w path f x handle size, rtc browse w0 w -> Forall good_name path ->
    seen (resolve layers roots path) = Some f -> kind_dir f.(fd_kind) = true -> 0 < size ->
    exists w1 inode names, inode_at ctx path w = (w1, Ok inode) /\
      NoDup names /\ (forall name, name ∈ names <-> is_Some (seen (resolve layers roots (path ++ [name])))) /\
      let r := fs_readdir ctx inode handle size 0 add (w1, x) in
      (zlen names + 2 < size < 2 ^ 32 -> r.2 = Ok tt /\
       exists ds, d_name <$> ds = CURRENT_DIR :: PARENT_DIR :: names /\ r.1.2 = foldl (fun y d => (add d y).1) x ds).
Proof.
  intros Hex Hadd roots. destruct (browsed_init _ _ _ _ _ Hex capable) as (w0 & opts & Hinit & Hb0). exists w0, opts. split; [done|].
  intros w path f x handle size Hw Hgood Hf Hdir Hpos. pose proof (browsed_rtc _ _ _ _ _ Hex _ _ Hw Hb0) as Hb.
  pose proof (browsed_inode _ _ _ _ _ Hex ctx path w Hb Hgood) as Hg. unfold gives in Hg. fold roots in Hg. rewrite Hf in Hg.
  destruct (inode_at ctx path w) as [w1 [inode|e|]]; [|by destruct Hg|done].
  destruct Hg as (Hb1 & tr & a & HM & Hi & Ha).
  assert (forall p, files_of roots w1 p = resolve layers roots p) as Hfiles by (intros p; by apply (browsed_files upper lowers params layers paths)).
  destruct (browse_readdir roots paths params (ex_size _ _ _ _ _ Hex) add ctx tr w1 inode handle size 0 x HM (ex_readdir _ _ _ _ _ Hex))
    as (_ & _ & Hlist).
  destruct (Hlist path a f Hi Ha ltac:(by rewrite Hfiles) Hdir Hpos eq_refl Hadd) as (names & [Hnd Hnames] & Hr).
  exists w1, inode, names. split_and!; [done..| |done]. intros name. by rewrite Hnames, Hfiles.
Qed.
End claims.

(** ** Layers in memory *)

Definition toy_union : list ToyLayer := [toy_above; toy_below].
Definition toy_union_paths : gset (list bytes) :=
  {[ []; [bs "d"]; [bs "e"]; [bs "g"]; [bs "d"; bs "f"]; [bs "d"; bs "n"]; [bs "e"; bs "k"] ]}.

Lemma toy_union_closed : closed_paths toy_union (roots_of toy_union (Some 0%nat) [1%nat]) toy_union_paths.
Proof. apply (bool_decide_unpack _). vm_compute. exact Logic.I. Qed.

Lemma toy_roots_ok : Forall root_ok toy_union.
Proof.
  assert (Forall (fun l => toy_wf l) toy_union) as Hwf by (apply (bool_decide_unpack _); vm_compute; exact Logic.I).
  rewrite Forall_lookup in Hwf |- *. intros j l Hl. split; [by eapply Hwf|]. split; [clear; discriminate|].
  destruct j as [|[|j]]; cbn in Hl; [injection Hl as <-; vm_compute; reflexivity..|discriminate].
Qed.

Lemma toy_exported : exported (Some 0%nat) [1%nat] toy_config toy_union toy_union_paths.
Proof.
  split; [|exact toy_roots_ok|done|done|by vm_compute|].
  - split_and!; [by left|repeat constructor|]. intros u [= <-]. split; [cbn; lia|]. set_solver.
  - intros p _. apply closed_paths_all, toy_union_closed.
Qed.

(** [f] and [n] are merged into one directory; [g] is gone, and so is [h]. *)
Lemma lookups_see_union_witness :
  exists w0 opts, fs_op (op_init 0) (ov_new (Some 0%nat) [1%nat] toy_config toy_union) = (w0, Ok opts) /\
  forall w, rtc browse w0 w ->
    let find name rest := (walk Context_default ROOT_ID (bs name) (bs <$> rest) w).2 in
    is_ok (find "d" ["f"])%string = true /\ is_ok (find "d" ["n"])%string = true /\
    find "g"%string [] = Err (Os ENOENT) /\ find "e" ["h"]%string = Err (Os ENOENT).
Proof.
  destruct (lookups_see_union Context_default 0 (Some 0%nat) [1%nat] toy_config toy_union toy_union_paths toy_exported)
    as (w0 & opts & Hinit & H). exists w0, opts. split; [exact Hinit|]. clear Hinit. intros w Hw.
  assert (forall name rest, Forall good_name (name :: rest) ->
    match seen (resolve toy_union (roots_of toy_union (Some 0%nat) [1%nat]) (name :: rest)) with
    | Some _ => is_ok (walk Context_default ROOT_ID name rest w).2 = true
    | None => (walk Context_default ROOT_ID name rest w).2 = Err (Os ENOENT)
    end) as Hfind.
  { intros name rest Hn. specialize (H w name rest Hw Hn). destruct (walk _ _ _ _ _).2, (seen _); try done. by subst. }
  assert (Forall (Forall good_name) [[bs "d"; bs "f"]; [bs "d"; bs "n"]; [bs "g"]; [bs "e"; bs "h"]]) as Hgood
    by (apply (bool_decide_unpack _); vm_compute; exact Logic.I).
  inversion_clear Hgood as [|? ? Hdf H1]. inversion_clear H1 as [|? ? Hdn H2].
  inversion_clear H2 as [|? ? Hg H3]. inversion_clear H3 as [|? ? Heh _].
  split_and!.
  - generalize (Hfind (bs "d") [bs "f"] Hdf). destruct (seen _) eqn:E; vm_compute in E; [done|discriminate E].
  - generalize (Hfind (bs "d") [bs "n"] Hdn). destruct (seen _) eqn:E; vm_compute in E; [done|discriminate E].
  - generalize (Hfind (bs "g") [] Hg). destruct (seen _) eqn:E; vm_compute in E; [discriminate E|done].
  - generalize (Hfind (bs "e") [bs "h"] Heh). destruct (seen _) eqn:E; vm_compute in E; [discriminate E|done].
Defined.

(** The directory [d] has [f] of the lower layer and [n] of the upper one. *)
Lemma readdir_lists_union_witness :
  exists w0 opts, fs_op (op_init 0) (ov_new (Some 0%nat) [1%nat] toy_config toy_union) = (w0, Ok opts) /\
  forall w, rtc browse w0 w -> exists w1 inode names, inode_at Context_default [bs "d"] w = (w1, Ok inode) /\
    NoDup names /\ bs "f" ∈ names /\ bs "n" ∈ names /\
    (zlen names + 2 < 4096 -> (fs_readdir Context_default inode 0 4096 0 (fun _ y => (S y, Ok 1)) (w1, O)).1.2 = S (S (length names))).
Proof.
  destruct (readdir_lists_union (fun _ (y : nat) => (S y, Ok 1)) Context_default 0 (Some 0%nat) [1%nat] toy_config toy_union toy_union_paths
    toy_exported (fun _ _ => eq_refl)) as (w0 & opts & Hinit & H). exists w0, opts. split; [exact Hinit|]. clear Hinit. intros w Hw.
  destruct (seen (resolve toy_union (roots_of toy_union (Some 0%nat) [1%nat]) [bs "d"])) as [f|] eqn:Hf; [|by vm_compute in Hf].
  assert (kind_dir f.(fd_kind) = true) as Hdir by (vm_compute in Hf; injection Hf as <-; reflexivity).
  assert (Forall good_name [bs "d"]) as Hgood by (apply (bool_decide_unpack _); vm_compute; exact Logic.I).
  destruct (H w [bs "d"] f O 0 4096 Hw Hgood Hf Hdir ltac:(lia)) as (w1 & inode & names & Hi & Hnd & Hn & Hr).
  exists w1, inode, names. split_and!; [exact Hi|exact Hnd|apply Hn; vm_compute; by eexists|apply Hn; vm_compute; by eexists|].
  intros Hlen. destruct (Hr ltac:(lia)) as (_ & ds & Hds & ->). apply (f_equal length) in Hds.
  rewrite length_fmap in Hds. cbn in Hds. rewrite <- Hds. clear. rewrite <- (Nat.add_0_r (length ds)). generalize O.
  induction ds as [|d ds IH]; intros k; [done|]. cbn. rewrite IH. lia.
Defined.
