(* ===== verification/PassthroughNumbers.v ===== *)
(** * Inode numbers made from host numbers

    [UniqueInodeGenerator] of [src/passthrough/util.rs]: a number is a small
    id for the device and mount, shifted above the 47 bits of the host's inode
    number or, for a larger host number, of a counter marked with a flag. *)

From stdpp Require Import gmap.
From S2P Require Import Prelude Std AbiStruct Abi FsTypes Vfs Host InodeStore.

(** [decode_unique_inode], which the tests use; the ids in the map are
    distinct, so at most one entry is found. *)
Definition decode_unique_inode (g : UniqueInodeGenerator) (inode : Z) : io_result InodeId :=
  if VFS_MAX_INO <? inode then Err (Simple InvalidInput)
  else
    let dev_mntid := wrap 8 (Z.shiftr inode 47) in
    if dev_mntid =? U8_MAX then Err (Simple InvalidInput)
    else
      match find (fun kv => kv.2 =? dev_mntid) (map_to_list g.(dev_mntid_map)) with
      | Some (k, _) => Ok (MkInodeId (Z.land inode MAX_HOST_INO) k.1 k.2)
      | None => Err (Simple InvalidInput)
      end.

(** ** Layout *)

(** The number with the small id [u], the low part [n] and the flag [b]. *)
Definition number (u n : Z) (b : bool) : Z := u * 2 ^ 47 + n + (if b then 2 ^ 55 else 0).

Lemma number_host u n : 0 <= u < 256 -> 0 <= n <= MAX_HOST_INO -> Z.lor (wrap 64 (Z.shiftl u 47)) n = number u n false.
Proof.
  unfold MAX_HOST_INO, number. intros Hu Hn. rewrite wrap_small by (unfold in_u; rewrite Z.shiftl_mul_pow2 by done; lia).
  rewrite lor_shiftl_add by lia. rewrite ?Z.shiftl_mul_pow2 by done. lia.
Qed.

Lemma number_virtual u n :
  0 <= u < 256 -> 0 <= n <= MAX_HOST_INO ->
  Z.lor (wrap 64 (Z.shiftl u 47)) (Z.lor n VIRTUAL_INODE_FLAG) = number u n true.
Proof.
  intros Hu Hn. rewrite Z.lor_assoc, number_host by done. unfold number, VIRTUAL_INODE_FLAG, MAX_HOST_INO in *.
  rewrite Z.lor_comm, lor_shiftl_add by lia. rewrite ?Z.shiftl_mul_pow2 by done. lia.
Qed.

Lemma number_inj u n b u' n' b' :
  0 <= u < 256 -> 0 <= n <= MAX_HOST_INO -> 0 <= u' < 256 -> 0 <= n' <= MAX_HOST_INO ->
  number u n b = number u' n' b' -> u = u' /\ n = n' /\ b = b'.
Proof. unfold number, MAX_HOST_INO. intros. destruct b, b'; split_and!; try done; lia. Qed.

(** ** Invariant *)

Record gen_ok (g : UniqueInodeGenerator) : Prop := {
  gn_next : 1 <= g.(next_unique_id) <= U8_MAX;
  gn_size : Z.of_nat (size g.(dev_mntid_map)) = g.(next_unique_id) - 1;
  gn_ids : forall p u, g.(dev_mntid_map) !! p = Some u -> 1 <= u < g.(next_unique_id);
  gn_inj : forall p q u, g.(dev_mntid_map) !! p = Some u -> g.(dev_mntid_map) !! q = Some u -> p = q;
  gn_virtual : ROOT_ID < g.(next_virtual_inode) <= MAX_HOST_INO + 1;
}.

(** Ids are never taken back and the counter never goes down. *)
Definition gen_le (g g' : UniqueInodeGenerator) : Prop :=
  gen_ok g' /\ g.(dev_mntid_map) ⊆ g'.(dev_mntid_map) /\ g.(next_virtual_inode) <= g'.(next_virtual_inode).

Definition pair_of (k : InodeId) : Z * Z := (k.(id_dev), k.(id_mnt)).

Lemma get_unique_id_spec k g :
  gen_ok g ->
  match get_unique_id k g with
  | (g', Ok u) => gen_le g g' /\ g'.(dev_mntid_map) !! pair_of k = Some u /\ g'.(next_virtual_inode) = g.(next_virtual_inode)
  | (g', Err e) => g' = g /\ e = Simple Other /\ g.(dev_mntid_map) !! pair_of k = None /\
      Z.of_nat (size g.(dev_mntid_map)) = 254
  | (_, Panic) => False
  end.
Proof.
  intros [Hn Hsz Hids Hinj Hv]. unfold get_unique_id. fold (pair_of k).
  destruct (g.(dev_mntid_map) !! pair_of k) as [u|] eqn:Hk; [split_and!; done|].
  unfold U8_MAX in *. destruct (Z.eqb_spec (next_unique_id g) 255) as [He|Hne]; [split_and!; [done..|lia]|].
  rewrite wrap_small by (unfold in_u; lia). cbn. rewrite lookup_insert_eq.
  split_and!; [|done|done]. split_and!; [|by apply insert_subseteq|cbn; lia].
  split; cbn; unfold U8_MAX; [lia|rewrite map_size_insert_None by done; lia| | |done].
  - intros p u. rewrite lookup_insert_Some. intros [[<- <-]|[_ Hp]]; [lia|]. specialize (Hids _ _ Hp). lia.
  - intros p q u. rewrite !lookup_insert_Some. intros [[<- <-]|[Hp Hpu]] [[<- Hq]|[Hq Hqu]]; try done.
    + specialize (Hids _ _ Hqu). lia.
    + specialize (Hids _ _ Hpu). lia.
    + by eapply Hinj.
Qed.

Lemma get_unique_inode_cases k g :
  gen_ok g -> 0 <= k.(id_ino) ->
  match get_unique_inode k g with
  | (g', Ok i) => gen_le g g' /\ exists u, g'.(dev_mntid_map) !! pair_of k = Some u /\
      (k.(id_ino) <= MAX_HOST_INO /\ i = number u k.(id_ino) false \/
       MAX_HOST_INO < k.(id_ino) /\ i = number u g.(next_virtual_inode) true /\
         g.(next_virtual_inode) <= MAX_HOST_INO /\ g'.(next_virtual_inode) = g.(next_virtual_inode) + 1)
  | (g', Err e) => gen_le g g' /\ e = Simple Other /\
      (g.(dev_mntid_map) !! pair_of k = None /\ Z.of_nat (size g.(dev_mntid_map)) = 254 \/
       MAX_HOST_INO < k.(id_ino) /\ g.(next_virtual_inode) = MAX_HOST_INO + 1)
  | (_, Panic) => False
  end.
Proof.
  intros Hg Hk. unfold get_unique_inode, mbind, prog_mbind, prog_bind. pose proof (get_unique_id_spec k g Hg) as Hid.
  destruct (get_unique_id k g) as [g1 [u|e|]]; [|destruct Hid as (-> & -> & ?)|done].
  2: { split; [split_and!; [done|done|lia]|]. split; [done|]. by left. }
  destruct Hid as (Hle & Hu & Hv). pose proof Hle as (Hg1 & Hsub & _).
  assert (0 <= u < 256) as Hub by (pose proof (gn_ids g1 Hg1 _ _ Hu); pose proof (gn_next g1 Hg1); unfold U8_MAX in *; lia).
  destruct (Z.leb_spec (id_ino k) MAX_HOST_INO) as [Hh|Hh]; cbn.
  - split; [done|]. exists u. split; [done|]. left. by rewrite number_host.
  - unfold get_virtual_inode. pose proof (gn_virtual g1 Hg1) as Hvb. rewrite Hv in *. unfold ROOT_ID in *.
    destruct (Z.ltb_spec MAX_HOST_INO (next_virtual_inode g)); cbn.
    + split; [done|]. split; [done|]. right. split; [done|lia].
    + rewrite wrap_small by (unfold in_u, MAX_HOST_INO in *; lia). split.
      * destruct Hg1. split_and!; [split; cbn; try done; unfold ROOT_ID; lia|done|cbn; lia].
      * exists u. split; [done|]. right. rewrite number_virtual by lia. done.
Qed.

(** ** Histories of a generator *)

Definition gen_step (g g' : UniqueInodeGenerator) : Prop := exists k, 0 <= k.(id_ino) /\ g' = (get_unique_inode k g).1.

Abbreviation gen_steps := (rtc gen_step).

Lemma gen_le_trans g1 g2 g3 : gen_le g1 g2 -> gen_le g2 g3 -> gen_le g1 g3.
Proof. intros (H1 & M1 & V1) (H2 & M2 & V2). split_and!; [done|by etrans|lia]. Qed.

Lemma gen_steps_le g g' : gen_ok g -> gen_steps g g' -> gen_le g g'.
Proof.
  intros Hg Hs. induction Hs as [g|g g1 g2 [k [Hk ->]] _ IH]; [split_and!; [done|done|lia]|].
  pose proof (get_unique_inode_cases k g Hg Hk) as Hc.
  assert (gen_le g (get_unique_inode k g).1) as Hle by by destruct (get_unique_inode k g) as [g1 [i|e|]]; destruct Hc.
  eapply gen_le_trans; [done|]. apply IH, Hle.
Qed.

Lemma gen_new_ok : gen_ok UniqueInodeGenerator_new.
Proof. split; cbn; try done; intros p q; by rewrite ?lookup_empty. Qed.

Lemma find_id g p u : gen_ok g -> g.(dev_mntid_map) !! p = Some u ->
  find (fun kv => kv.2 =? u) (map_to_list g.(dev_mntid_map)) = Some (p, u).
Proof.
  intros Hg Hp. destruct (find _ _) as [[q v]|] eqn:Hf.
  - apply find_some in Hf as [Hin%list_elem_of_In%elem_of_map_to_list Hv%Z.eqb_eq]. cbn in Hv. subst v.
    by rewrite (gn_inj g Hg p q u).
  - apply elem_of_map_to_list, list_elem_of_In in Hp. eapply find_none in Hf; [|done]. cbn in Hf. by rewrite Z.eqb_refl in Hf.
Qed.

Lemma decode_number g p u n b :
  gen_ok g -> g.(dev_mntid_map) !! p = Some u -> 0 <= n <= MAX_HOST_INO ->
  decode_unique_inode g (number u n b) = Ok (MkInodeId n p.1 p.2).
Proof.
  intros Hg Hp Hn. pose proof (gn_ids g Hg _ _ Hp) as Hu. pose proof (gn_next g Hg) as Hx.
  unfold decode_unique_inode, VFS_MAX_INO, U8_MAX, MAX_HOST_INO in *.
  rewrite (proj2 (Z.ltb_ge _ _)) by (unfold number; destruct b; lia).
  assert (wrap 8 (Z.shiftr (number u n b) 47) = u) as ->.
  { rewrite Z.shiftr_div_pow2 by done. unfold wrap, number.
    replace (u * 2 ^ 47 + n + (if b then 2 ^ 55 else 0)) with (n + (u + (if b then 256 else 0)) * 2 ^ 47) by (destruct b; lia).
    rewrite Z.div_add, (Z.div_small n) by lia. destruct b; [|rewrite Z.mod_small; lia].
    rewrite Z.add_0_l, <- (Z.mul_1_l 256), Z.mod_add, Z.mod_small by lia. done. }
  rewrite (proj2 (Z.eqb_neq _ _)) by lia. rewrite (find_id g p u) by done.
  change 0x7fffffffffff with (Z.ones 47). rewrite Z.land_ones by done. unfold number.
  replace (u * 2 ^ 47 + n + (if b then 2 ^ 55 else 0)) with (n + (u + (if b then 256 else 0)) * 2 ^ 47) by (destruct b; lia).
  rewrite Z.mod_add, Z.mod_small by lia. done.
Qed.

(** Numbers can be taken apart again.  A generator gives a number to every
    host inode unless 254 pairs of device and mount are in use and this is a
    new one, or the counter for large host numbers has used up its 47 bits.
    From then on, whatever else it numbers, the number decodes to the device,
    the mount and the host's number, or the value of the counter. *)
Theorem unique_inode_roundtrip g k :
  gen_steps UniqueInodeGenerator_new g -> 0 <= k.(id_ino) ->
  match get_unique_inode k g with
  | (g', Ok i) => forall g'', gen_steps g' g'' ->
      decode_unique_inode g'' i =
        Ok (MkInodeId (if k.(id_ino) <=? MAX_HOST_INO then k.(id_ino) else g.(next_virtual_inode)) k.(id_dev) k.(id_mnt))
  | (_, Err e) => e = Simple Other /\
      (g.(dev_mntid_map) !! (k.(id_dev), k.(id_mnt)) = None /\ size g.(dev_mntid_map) = 254%nat \/
       MAX_HOST_INO < k.(id_ino) /\ g.(next_virtual_inode) = MAX_HOST_INO + 1)
  | (_, Panic) => False
  end.
Proof.
  intros Hs Hk. pose proof (gen_steps_le _ _ gen_new_ok Hs) as (Hg & _). pose proof (get_unique_inode_cases k g Hg Hk) as Hc.
  pose proof (gn_virtual g Hg) as Hv. unfold ROOT_ID in Hv.
  destruct (get_unique_inode k g) as [g' [i|e|]]; [|destruct Hc as (_ & ? & [[? ?]|?]); split; [done|left; split; [done|lia]|done|by right]|done].
  destruct Hc as ((Hg' & _) & u & Hu & Hi). intros g'' Hs'. pose proof (gen_steps_le _ _ Hg' Hs') as (Hg'' & Hsub & _).
  pose proof (lookup_weaken _ _ _ _ Hu Hsub) as Hu''.
  destruct Hi as [[Hle ->]|(Hlt & -> & Hmax & _)].
  - rewrite (proj2 (Z.leb_le _ _)) by done. by rewrite (decode_number g'' (pair_of k)).
  - rewrite (proj2 (Z.leb_gt _ _)) by done. rewrite (decode_number g'' (pair_of k)) by (done || lia). done.
Qed.

Lemma unique_inode_roundtrip_witness :
  let k := MkInodeId 5 1 2 in
  let '(g', r) := get_unique_inode k UniqueInodeGenerator_new in
  r = Ok (2 ^ 47 + 5) /\ decode_unique_inode g' (2 ^ 47 + 5) = Ok k.
Proof.
  pose proof (unique_inode_roundtrip UniqueInodeGenerator_new (MkInodeId 5 1 2) (rtc_refl _ _) ltac:(done)) as Hr.
  destruct (get_unique_inode _ _) as [g' r] eqn:Hg. vm_compute in Hg. injection Hg as <- <-.
  split; [done|]. apply Hr, rtc_refl.
Defined.

(** Numbers identify host inodes.  Of a generator's whole history: a number
    is above the root's and fits the 56 bits a mount leaves for it; two numbers
    of host inodes that fit 47 bits are equal exactly when the inode, device
    and mount are; and the number of a larger one differs from every other
    number the generator gives. *)
Theorem unique_inode_identity g1 g2 g3 g4 k1 k2 i1 i2 :
  gen_steps UniqueInodeGenerator_new g1 -> 0 <= k1.(id_ino) -> get_unique_inode k1 g1 = (g2, Ok i1) ->
  gen_steps g2 g3 -> 0 <= k2.(id_ino) -> get_unique_inode k2 g3 = (g4, Ok i2) ->
  (ROOT_ID < i1 <= VFS_MAX_INO) /\
  (k1.(id_ino) <= MAX_HOST_INO -> i1 = i2 <-> k1 = k2) /\
  (MAX_HOST_INO < k1.(id_ino) -> i1 <> i2).
Proof.
  intros Hs1 Hk1 E1 Hs2 Hk2 E2. pose proof (gen_steps_le _ _ gen_new_ok Hs1) as (Hg1 & _).
  pose proof (get_unique_inode_cases k1 g1 Hg1 Hk1) as Hc1. rewrite E1 in Hc1. destruct Hc1 as ((Hg2 & _) & u1 & Hu1 & Hi1).
  pose proof (gen_steps_le _ _ Hg2 Hs2) as (Hg3 & Hsub3 & Hv3).
  pose proof (get_unique_inode_cases k2 g3 Hg3 Hk2) as Hc2. rewrite E2 in Hc2. destruct Hc2 as ((Hg4 & Hsub4 & _) & u2 & Hu2 & Hi2).
  assert (forall u p, g4.(dev_mntid_map) !! p = Some u -> 1 <= u < 255) as Hid.
  { intros u p Hu. pose proof (gn_ids g4 Hg4 _ _ Hu). pose proof (gn_next g4 Hg4). unfold U8_MAX in *. lia. }
  assert (g4.(dev_mntid_map) !! pair_of k1 = Some u1) as Hu1' by (eapply lookup_weaken; [done|by etrans]).
  pose proof (Hid _ _ Hu1') as B1. pose proof (Hid _ _ Hu2) as B2.
  pose proof (gn_virtual g1 Hg1) as V1. pose proof (gn_virtual g3 Hg3) as V3.
  assert (forall n1 b1 n2 b2, 0 <= n1 <= MAX_HOST_INO -> 0 <= n2 <= MAX_HOST_INO ->
    number u1 n1 b1 = number u2 n2 b2 -> pair_of k1 = pair_of k2 /\ n1 = n2 /\ b1 = b2) as Hinj.
  { intros n1 b1 n2 b2 H1 H2 [-> ?]%number_inj; [|lia..]. split; [by eapply (gn_inj g4 Hg4)|done]. }
  unfold ROOT_ID in *. split; [|split].
  - unfold VFS_MAX_INO, number, MAX_HOST_INO in *. destruct Hi1 as [[? ->]|(? & -> & ? & _)]; lia.
  - intros Hle. destruct Hi1 as [[_ ->]|(? & _)]; [|lia]. destruct Hi2 as [[Hle2 ->]|(Hgt & -> & Hm & _)].
    + split; [|by intros <-; f_equal; congruence]. intros (Hp & Hn & _)%Hinj; [|lia..].
      destruct k1, k2. unfold pair_of in Hp. cbn in *. congruence.
    + split; [|by intros <-; lia]. intros (_ & _ & [=])%Hinj; lia.
  - intros Hgt. destruct Hi1 as [[? _]|(_ & -> & Hm1 & Hn1)]; [lia|]. destruct Hi2 as [[Hle2 ->]|(Hgt2 & -> & Hm2 & _)].
    + intros (_ & _ & [=])%Hinj; lia.
    + intros (_ & Hn & _)%Hinj; lia.
Qed.

(** A small host number and a large one, on one device and mount. *)
Lemma unique_inode_identity_witness :
  let k1 := MkInodeId 5 1 2 in let k2 := MkInodeId (2 ^ 50) 1 2 in
  exists g2 g4 i1 i2,
  get_unique_inode k1 UniqueInodeGenerator_new = (g2, Ok i1) /\ get_unique_inode k2 g2 = (g4, Ok i2) /\
  (ROOT_ID < i1 <= VFS_MAX_INO) /\ (i1 = i2 <-> k1 = k2).
Proof.
  intros k1 k2. set (r1 := get_unique_inode k1 UniqueInodeGenerator_new). set (r2 := get_unique_inode k2 r1.1).
  exists r1.1, r2.1, (2 ^ 47 + 5), (2 ^ 55 + 2 ^ 47 + 2).
  assert (r1 = (r1.1, Ok (2 ^ 47 + 5))) as E1 by by vm_compute.
  assert (r2 = (r2.1, Ok (2 ^ 55 + 2 ^ 47 + 2))) as E2 by by vm_compute.
  destruct (unique_inode_identity _ _ r1.1 r2.1 k1 k2 _ _ (rtc_refl _ _) ltac:(done) E1 (rtc_refl _ _) ltac:(done) E2)
    as (H1 & H2 & _).
  split_and!; [exact E1|exact E2|apply H1|apply H1|]. by apply H2.
Defined.
