(* ===== verification/Passthrough.v ===== *)
(** * The passthrough file system ([src/passthrough/mod.rs], [config.rs])

    The configuration, the table of open handles, the state of
    [PassthroughFs] and the operations the request handlers are built from:
    [import], [do_lookup], [forget_one] and the guards.  A method runs on the
    pair of the file system and the host. *)

From stdpp Require Import gmap.
From S2P Require Import Prelude Std AbiStruct Abi FsTypes FileSystem Vfs Host InodeStore MountFds.

(** ** Configuration *)

Inductive CachePolicy : Set := Never | Metadata | Auto | Always.

#[global] Instance CachePolicy_eq_dec : EqDecision CachePolicy.
Proof. solve_decision. Defined.

(** [FromStr for CachePolicy] *)
Definition CachePolicy_from_str (s : bytes) : option CachePolicy :=
  let one_of := existsb (beq s) in
  if one_of [[110; 101; 118; 101; 114]; [78; 101; 118; 101; 114]; [78; 69; 86; 69; 82];
         [110; 111; 110; 101]; [78; 111; 110; 101]; [78; 79; 78; 69]] then Some Never
  else if one_of [[109; 101; 116; 97; 100; 97; 116; 97]] then Some Metadata
  else if one_of [[97; 117; 116; 111]; [65; 117; 116; 111]; [65; 85; 84; 79]] then Some Auto
  else if one_of [[97; 108; 119; 97; 121; 115]; [65; 108; 119; 97; 121; 115]; [65; 76; 87; 65; 89; 83]]
       then Some Always
  else None.

Record Config : Set := MkConfig {
  cfg_attr_timeout : Duration;
  cfg_entry_timeout : Duration;
  cfg_dir_attr_timeout : option Duration;
  cfg_dir_entry_timeout : option Duration;
  cfg_cache_policy : CachePolicy;
  cfg_writeback : bool;
  cfg_root_dir : bytes;
  cfg_xattr : bool;
  cfg_do_import : bool;
  cfg_no_open : bool;
  cfg_no_opendir : bool;
  cfg_killpriv_v2 : bool;
  cfg_inode_file_handles : bool;
  cfg_no_readdir : bool;
  cfg_seal_size : bool;
  cfg_enable_mntid : bool;
  cfg_dax_file_size : option Z;
  cfg_use_host_ino : bool;
  cfg_allow_direct_io : bool;
}.

Definition Config_default : Config := {|
  cfg_entry_timeout := MkDuration 5 0;
  cfg_attr_timeout := MkDuration 5 0;
  cfg_cache_policy := Auto;
  cfg_writeback := false;
  cfg_root_dir := [SLASH];
  cfg_xattr := false;
  cfg_do_import := true;
  cfg_no_open := false;
  cfg_no_opendir := false;
  cfg_killpriv_v2 := false;
  cfg_inode_file_handles := false;
  cfg_no_readdir := false;
  cfg_seal_size := false;
  cfg_enable_mntid := false;
  cfg_dax_file_size := None;
  cfg_dir_entry_timeout := None;
  cfg_dir_attr_timeout := None;
  cfg_use_host_ino := false;
  cfg_allow_direct_io := true;
|}.

(** [PassthroughFs::new] switches off what the cache policy rules out. *)
Definition sanitize_config (cfg : Config) : Config :=
  let no_open := if cfg.(cfg_no_open) && negb (bool_decide (cfg.(cfg_cache_policy) = Always))
                 then false else cfg.(cfg_no_open) in
  let writeback := if cfg.(cfg_writeback) && bool_decide (cfg.(cfg_cache_policy) = Never)
                   then false else cfg.(cfg_writeback) in
  {| cfg_attr_timeout := cfg.(cfg_attr_timeout);
     cfg_entry_timeout := cfg.(cfg_entry_timeout);
     cfg_dir_attr_timeout := cfg.(cfg_dir_attr_timeout);
     cfg_dir_entry_timeout := cfg.(cfg_dir_entry_timeout);
     cfg_cache_policy := cfg.(cfg_cache_policy);
     cfg_writeback := writeback;
     cfg_root_dir := cfg.(cfg_root_dir);
     cfg_xattr := cfg.(cfg_xattr);
     cfg_do_import := cfg.(cfg_do_import);
     cfg_no_open := no_open;
     cfg_no_opendir := cfg.(cfg_no_opendir);
     cfg_killpriv_v2 := cfg.(cfg_killpriv_v2);
     cfg_inode_file_handles := cfg.(cfg_inode_file_handles);
     cfg_no_readdir := cfg.(cfg_no_readdir);
     cfg_seal_size := cfg.(cfg_seal_size);
     cfg_enable_mntid := cfg.(cfg_enable_mntid);
     cfg_dax_file_size := cfg.(cfg_dax_file_size);
     cfg_use_host_ino := cfg.(cfg_use_host_ino);
     cfg_allow_direct_io := cfg.(cfg_allow_direct_io) |}.

(** ** Open handles *)

Record HandleData : Set := MkHandleData {
  hd_inode : Z;
  hd_file : Z;
  hd_open_flags : Z;
}.

Abbreviation HandleMap := (gmap Z HandleData).

Definition HandleMap_get (m : HandleMap) (handle inode : Z) : io_result HandleData :=
  match m !! handle with
  | Some hd => if hd.(hd_inode) =? inode then Ok hd else Err ebadf
  | None => Err ebadf
  end.

Definition HandleMap_release (m : HandleMap) (handle inode : Z) : HandleMap * io_result unit :=
  match m !! handle with
  | Some hd => if hd.(hd_inode) =? inode then (delete handle m, Ok tt) else (m, Err ebadf)
  | None => (m, Err ebadf)
  end.

(** ** State *)

Record PassthroughFs : Set := MkPassthroughFs {
  pt_inodes : InodeStore;
  pt_next_inode : Z;
  pt_handles : HandleMap;
  pt_next_handle : Z;
  pt_ino_allocator : UniqueInodeGenerator;
  pt_mount_fds : MountFds;
  pt_proc_self_fd : Z;
  pt_writeback : bool;
  pt_no_open : bool;
  pt_no_opendir : bool;
  pt_killpriv_v2 : bool;
  pt_no_readdir : bool;
  pt_seal_size : bool;
  pt_perfile_dax : bool;
  pt_dir_entry_timeout : Duration;
  pt_dir_attr_timeout : Duration;
  pt_cfg : Config;
}.

Definition set_inodes (f : PassthroughFs) (s : InodeStore) : PassthroughFs :=
  MkPassthroughFs s f.(pt_next_inode) f.(pt_handles) f.(pt_next_handle) f.(pt_ino_allocator)
    f.(pt_mount_fds) f.(pt_proc_self_fd) f.(pt_writeback) f.(pt_no_open) f.(pt_no_opendir)
    f.(pt_killpriv_v2) f.(pt_no_readdir) f.(pt_seal_size) f.(pt_perfile_dax)
    f.(pt_dir_entry_timeout) f.(pt_dir_attr_timeout) f.(pt_cfg).

Definition set_next_inode (f : PassthroughFs) (n : Z) : PassthroughFs :=
  MkPassthroughFs f.(pt_inodes) n f.(pt_handles) f.(pt_next_handle) f.(pt_ino_allocator)
    f.(pt_mount_fds) f.(pt_proc_self_fd) f.(pt_writeback) f.(pt_no_open) f.(pt_no_opendir)
    f.(pt_killpriv_v2) f.(pt_no_readdir) f.(pt_seal_size) f.(pt_perfile_dax)
    f.(pt_dir_entry_timeout) f.(pt_dir_attr_timeout) f.(pt_cfg).

Definition set_handles (f : PassthroughFs) (m : HandleMap) (next : Z) : PassthroughFs :=
  MkPassthroughFs f.(pt_inodes) f.(pt_next_inode) m next f.(pt_ino_allocator)
    f.(pt_mount_fds) f.(pt_proc_self_fd) f.(pt_writeback) f.(pt_no_open) f.(pt_no_opendir)
    f.(pt_killpriv_v2) f.(pt_no_readdir) f.(pt_seal_size) f.(pt_perfile_dax)
    f.(pt_dir_entry_timeout) f.(pt_dir_attr_timeout) f.(pt_cfg).

Definition set_ino_allocator (f : PassthroughFs) (g : UniqueInodeGenerator) : PassthroughFs :=
  MkPassthroughFs f.(pt_inodes) f.(pt_next_inode) f.(pt_handles) f.(pt_next_handle) g
    f.(pt_mount_fds) f.(pt_proc_self_fd) f.(pt_writeback) f.(pt_no_open) f.(pt_no_opendir)
    f.(pt_killpriv_v2) f.(pt_no_readdir) f.(pt_seal_size) f.(pt_perfile_dax)
    f.(pt_dir_entry_timeout) f.(pt_dir_attr_timeout) f.(pt_cfg).

Definition set_mount_fds (f : PassthroughFs) (m : MountFds) : PassthroughFs :=
  MkPassthroughFs f.(pt_inodes) f.(pt_next_inode) f.(pt_handles) f.(pt_next_handle) f.(pt_ino_allocator)
    m f.(pt_proc_self_fd) f.(pt_writeback) f.(pt_no_open) f.(pt_no_opendir)
    f.(pt_killpriv_v2) f.(pt_no_readdir) f.(pt_seal_size) f.(pt_perfile_dax)
    f.(pt_dir_entry_timeout) f.(pt_dir_attr_timeout) f.(pt_cfg).

(** The five switches [init] turns on. *)
Definition set_features (f : PassthroughFs) (writeback no_open no_opendir killpriv_v2 perfile_dax : bool)
    : PassthroughFs :=
  MkPassthroughFs f.(pt_inodes) f.(pt_next_inode) f.(pt_handles) f.(pt_next_handle) f.(pt_ino_allocator)
    f.(pt_mount_fds) f.(pt_proc_self_fd) (f.(pt_writeback) || writeback) (f.(pt_no_open) || no_open)
    (f.(pt_no_opendir) || no_opendir) (f.(pt_killpriv_v2) || killpriv_v2) f.(pt_no_readdir)
    f.(pt_seal_size) (f.(pt_perfile_dax) || perfile_dax)
    f.(pt_dir_entry_timeout) f.(pt_dir_attr_timeout) f.(pt_cfg).

(** Replace the inode store and drop the mount descriptors nothing refers to. *)
Definition replace_inodes (f : PassthroughFs) (s : InodeStore) : PassthroughFs :=
  let f' := set_inodes f s in set_mount_fds f' (drop_mount_fds s f'.(pt_mount_fds)).

Definition seal_size_check (opcode : Opcode) (file_size offset size mode : Z) : io_result unit :=
  match checked_add offset size with
  | None => Err einval
  | Some _ =>
    match opcode with
    | OpWrite => if file_size <? size + offset then Err eperm else Ok tt
    | OpFallocate =>
      let op := Z.ldiff mode (Z.lor FALLOC_FL_KEEP_SIZE FALLOC_FL_UNSHARE_RANGE) in
      if (op =? 0) || (op =? FALLOC_FL_PUNCH_HOLE) || (op =? FALLOC_FL_ZERO_RANGE) then
        if file_size <? size + offset then Err eperm else Ok tt
      else if (op =? FALLOC_FL_COLLAPSE_RANGE) || (op =? FALLOC_FL_INSERT_RANGE) then Err eperm
      else Err einval
    | _ => Err enosys
    end
  end.

Definition get_writeback_open_flags (f : PassthroughFs) (flags : Z) : Z :=
  let new_flags := if f.(pt_writeback) && (Z.land flags O_ACCMODE =? O_WRONLY)
                   then Z.lor (Z.ldiff flags O_ACCMODE) O_RDWR else flags in
  if f.(pt_writeback) && has_flag flags O_APPEND then Z.ldiff new_flags O_APPEND else new_flags.

Definition pt_validate_path_component (f : PassthroughFs) (name : CStr) : io_result unit :=
  if f.(pt_cfg).(cfg_do_import) then validate_path_component name else Ok tt.

(** [forget_one]: the count never goes below zero, and at zero the inode goes
    away; its number stays reserved unless the host's number is used as is. *)
Definition forget_one (f : PassthroughFs) (inode count : Z) : PassthroughFs :=
  if inode =? ROOT_ID then f
  else match InodeStore_get f.(pt_inodes) inode with
  | None => f
  | Some d =>
    let new := saturating_sub d.(nd_refcount) count in
    if new =? 0 then
      let keep_mapping := negb f.(pt_cfg).(cfg_use_host_ino) || (MAX_HOST_INO <? d.(nd_id).(id_ino)) in
      replace_inodes f (InodeStore_remove f.(pt_inodes) inode keep_mapping)
    else set_inodes f (store_refcount f.(pt_inodes) inode new)
  end.

(** ** Operations *)

Section passthrough.
Context {H : Type} `{HOST : Host H}.

Abbreviation wprog A := (prog (PassthroughFs * H) io_error A).

Definition get_fs : wprog PassthroughFs := gets fst.

Definition create_file_excl (dir : Z) (pathname : CStr) (flags mode : Z) : hprog H (option Z) := fun h =>
  match openat dir pathname (Z.lor flags (Z.lor O_CREAT O_EXCL)) mode h with
  | (h', Ok file) => (h', Ok (Some file))
  | (h', Err err) =>
    if bool_decide (error_kind err = AlreadyExists) then
      if has_flag flags O_EXCL then (h', Err err) else (h', Ok None)
    else (h', Err err)
  | (h', Panic) => (h', Panic)
  end.

Definition open_file_restricted (dir : Z) (pathname : CStr) (flags mode : Z) : hprog H Z :=
  openat dir pathname (Z.lor (Z.lor O_NOFOLLOW O_CLOEXEC) flags) mode.

Definition open_file_and_handle (cfg : Config) (dir : Z) (name : CStr)
    : hprog H (Z * option FileHandle * StatExt) :=
  path_file ← open_file_restricted dir name O_PATH 0;
  st ← statx path_file None;
  handle ← (if cfg.(cfg_inode_file_handles) then FileHandle_from_fd path_file else mret None);
  mret (path_file, handle, st).

(** [MountFds::new] and the [/proc/self/fd] directory come from the host. *)
Definition PassthroughFs_new (cfg : Config) : hprog H PassthroughFs :=
  let cfg := sanitize_config cfg in
  proc_self_fd ← openat AT_FDCWD PROC_SELF_FD (Z.lor O_PATH (Z.lor O_NOFOLLOW O_CLOEXEC)) 0;
  mount_fds ← MountFds_new None;
  mret {|
    pt_inodes := InodeStore_default;
    pt_next_inode := ROOT_ID + 1;
    pt_handles := ∅;
    pt_next_handle := 1;
    pt_ino_allocator := UniqueInodeGenerator_new;
    pt_mount_fds := mount_fds;
    pt_proc_self_fd := proc_self_fd;
    pt_writeback := false;
    pt_no_open := false;
    pt_no_opendir := false;
    pt_killpriv_v2 := false;
    pt_no_readdir := cfg.(cfg_no_readdir);
    pt_seal_size := cfg.(cfg_seal_size);
    pt_perfile_dax := false;
    pt_dir_entry_timeout := default cfg.(cfg_entry_timeout) cfg.(cfg_dir_entry_timeout);
    pt_dir_attr_timeout := default cfg.(cfg_attr_timeout) cfg.(cfg_dir_attr_timeout);
    pt_cfg := cfg;
  |}.

Definition keep_fds (f : PassthroughFs) : list Z := [f.(pt_proc_self_fd)].

Definition pt_readlinkat (dfd : Z) (pathname : CStr) : hprog H bytes :=
  call (sys_readlinkat dfd pathname PATH_MAX).

Definition readlinkat_proc_file (inode : Z) : wprog bytes :=
  fs ← get_fs;
  d ← lift (InodeMap_get fs.(pt_inodes) inode);
  on_snd (file ← InodeHandle_get_file d.(nd_handle); pt_readlinkat fs.(pt_proc_self_fd) (fd_name file)).

(** [fh.into_openable(&self.mount_fds, ..)]: run on the mount descriptors. *)
Definition to_openable_handle (fh : FileHandle) : wprog OpenableFileHandle := fun '(fs, h) =>
  let reopen fd flags (_ : Z) := reopen_fd_through_proc fd flags fs.(pt_proc_self_fd) in
  let '((m, h'), r) := into_openable fh reopen (fs.(pt_mount_fds), h) in
  ((set_mount_fds fs m, h'), map_err mpr_io r).

(** The handle of a new inode: the file handle when there is one. *)
Definition new_inode_handle (handle_opt : option FileHandle) (path_fd : Z) : wprog InodeHandle :=
  match handle_opt with
  | Some fh => o ← to_openable_handle fh; mret (IhHandle o)
  | None => mret (IhFile path_fd)
  end.

Definition import : wprog unit :=
  fs ← get_fs;
  if cstr_ok fs.(pt_cfg).(cfg_root_dir) then
    x ← on_snd (open_file_and_handle fs.(pt_cfg) AT_FDCWD fs.(pt_cfg).(cfg_root_dir));
    let '(path_fd, handle_opt, st) := x in
    handle ← new_inode_handle handle_opt path_fd;
    _ ← on_snd (attempt (sys_umask 0));
    modify (fun '(fs, h) =>
      (replace_inodes fs (InodeStore_insert fs.(pt_inodes)
         (MkInodeData ROOT_ID handle (InodeId_from_stat st) 2 st.(se_st).(st_mode))), h))
  else lift Panic.

Definition allocate_inode (k : InodeId) (handle_opt : option FileHandle) : prog PassthroughFs io_error Z := fun fs =>
  let previous := get_inode_locked fs.(pt_inodes) k handle_opt in
  let unique := let '(g, r) := get_unique_inode k fs.(pt_ino_allocator) in (set_ino_allocator fs g, r) in
  if negb fs.(pt_cfg).(cfg_use_host_ino) then
    match previous with
    | Some ino => (fs, Ok ino)
    | None => (set_next_inode fs (wrap 64 (fs.(pt_next_inode) + 1)), Ok fs.(pt_next_inode))
    end
  else if MAX_HOST_INO <? k.(id_ino) then
    match previous with Some ino => (fs, Ok ino) | None => unique end
  else unique.

(** The ['search] loop of [do_lookup]: take a reference on an inode already
    known.  A reference count of zero means that another thread is removing
    the entry and the search starts over; [fuel] bounds the retries. *)
Fixpoint lookup_search (fuel : nat) (k : InodeId) (handle_opt : option FileHandle)
    : prog PassthroughFs io_error (option Z) := fun fs =>
  match fuel with
  | O => (fs, Panic)
  | S fuel' =>
    match get_alt_locked fs.(pt_inodes) k handle_opt with
    | None => (fs, Ok None)
    | Some d =>
      if d.(nd_refcount) =? 0 then lookup_search fuel' k handle_opt fs
      else (set_inodes fs (store_refcount fs.(pt_inodes) d.(nd_inode) (Z.min U64_MAX (d.(nd_refcount) + 1))),
            Ok (Some d.(nd_inode)))
    end
  end.

(** The part of [do_lookup] that runs under the write lock, on a handle made
    before it; [handle] is dropped when it is not stored. *)
Definition lookup_insert (k : InodeId) (handle_opt : option FileHandle) (handle : InodeHandle) (st : stat64)
    : prog PassthroughFs io_error Z := fun fs =>
  match get_alt_locked fs.(pt_inodes) k handle_opt with
  | Some d =>
    (replace_inodes fs (store_refcount fs.(pt_inodes) d.(nd_inode) (wrap 64 (d.(nd_refcount) + 1))),
     Ok d.(nd_inode))
  | None =>
    match allocate_inode k handle_opt fs with
    | (fs', Ok inode) =>
      if VFS_MAX_INO <? inode then (replace_inodes fs' fs'.(pt_inodes), Err (Simple Other))
      else (replace_inodes fs' (InodeStore_insert fs'.(pt_inodes) (MkInodeData inode handle k 1 st.(st_mode))),
            Ok inode)
    | (fs', r) => (replace_inodes fs' fs'.(pt_inodes), r)
    end
  end.

Definition lookup_entry (fs : PassthroughFs) (inode : Z) (st : stat64) : Entry :=
  let '(entry_timeout, attr_timeout) :=
    if is_dir st.(st_mode) then (fs.(pt_dir_entry_timeout), fs.(pt_dir_attr_timeout))
    else (fs.(pt_cfg).(cfg_entry_timeout), fs.(pt_cfg).(cfg_attr_timeout)) in
  let attr_flags :=
    match fs.(pt_cfg).(cfg_dax_file_size) with
    | Some dax_file_size =>
      if fs.(pt_perfile_dax) && (0 <=? st.(st_size)) && (dax_file_size <=? wrap 64 st.(st_size))
      then FUSE_ATTR_DAX else 0
    | None => 0
    end in
  {| en_inode := inode; en_generation := 0; en_attr := st; en_attr_flags := attr_flags;
     en_attr_timeout := attr_timeout; en_entry_timeout := entry_timeout |}.

(** [".."] in the root is ["."]. *)
Definition lookup_name (parent : Z) (name : CStr) : CStr :=
  if (parent =? ROOT_ID) && starts_with PARENT_DIR_CSTR (to_bytes_with_nul name) then [46] else name.

(** Open the named file of [dir] and identify it. *)
Definition lookup_open (fs : PassthroughFs) (dir : InodeData) (name : CStr)
    : hprog H (Z * option FileHandle * StatExt) :=
  dir_file ← InodeHandle_get_file dir.(nd_handle);
  open_file_and_handle fs.(pt_cfg) dir_file name.

(** The inode number of the file: a known inode, or a new one.  Two rounds of
    the search are enough when nothing runs concurrently. *)
Definition lookup_number (path_fd : Z) (handle_opt : option FileHandle) (st : StatExt) : wprog Z :=
  let k := InodeId_from_stat st in
  found ← on_fst (lookup_search 2 k handle_opt);
  match found with
  | Some v => mret v
  | None =>
    handle ← new_inode_handle handle_opt path_fd;
    on_fst (lookup_insert k handle_opt handle st.(se_st))
  end.

Definition do_lookup (parent : Z) (name : CStr) : wprog Entry :=
  fs ← get_fs;
  dir ← lift (InodeMap_get fs.(pt_inodes) parent);
  x ← on_snd (lookup_open fs dir (lookup_name parent name));
  let '(path_fd, handle_opt, st) := x in
  inode ← lookup_number path_fd handle_opt st;
  mret (lookup_entry fs inode st.(se_st)).

Definition do_release (inode handle : Z) : wprog unit := on_fst (fun fs =>
  let '(m, r) := HandleMap_release fs.(pt_handles) handle inode in
  (set_handles fs m fs.(pt_next_handle), r)).

(** [BackendFileSystem::mount] *)
Definition pt_mount : wprog (Entry * Z) :=
  entry ← do_lookup ROOT_ID [46];
  mret (entry, VFS_MAX_INO).
End passthrough.
