(* ===== verification/PassthroughSync.v ===== *)
(** * The request handlers of the passthrough file system
      ([src/passthrough/sync_io.rs])

    [FileSystem for PassthroughFs] method by method, with the helpers they
    share, and the [BackendFileSystem] instance.  Methods that only read the
    file system are programs over the host with the file system as an
    argument. *)

From stdpp Require Import gmap.
From S2P Require Import Prelude Std Lib Codec AbiStruct Abi FsTypes FileSystem Vfs Host Layer InodeStore MountFds Passthrough.

(** What the loop does with the result of one record: zero stops it, and an
    error is reported only from the first record. *)
Definition readdir_next {S : Type} (continue : prog S io_error unit) (at_first : bool) (s : S) (res : io_result Z)
    : S * io_result unit :=
  match res with
  | Ok n => if n =? 0 then (s, Ok tt) else continue s
  | Err e => if at_first then (s, Err e) else (s, Ok tt)
  | Panic => (s, Panic)
  end.

(** The loop over the records [getdents64] returned.  An index out of range
    panics; a record takes at least 19 bytes, so the length of the buffer
    bounds the rounds. *)
Fixpoint readdir_loop {S : Type} (fuel : nat) (add_entry : DirEntry -> prog S io_error Z)
    (orig_rem_len : nat) (rem : bytes) : prog S io_error unit := fun s =>
  match fuel with
  | O => (s, Panic)
  | Datatypes.S fuel' =>
    match rem with
    | [] => (s, Ok tt)
    | _ =>
      let front := take 19 rem in
      let back := drop 19 rem in
      match LinuxDirent64_from_slice front with
      | None => (s, Panic)
      | Some dirent64 =>
        let namelen := wrap 64 (dirent64.(ld_reclen) - 19) in
        if zlen back <? namelen then (s, Panic)
        else
          let name := take (Z.to_nat namelen) back in
          let next := readdir_next
            (readdir_loop fuel' add_entry orig_rem_len (drop (Z.to_nat dirent64.(ld_reclen)) rem))
            (length rem =? orig_rem_len)%nat in
          if starts_with CURRENT_DIR_CSTR name || starts_with PARENT_DIR_CSTR name then next s (Ok 1)
          else match bytes_to_cstr name with
          | Ok name =>
            let '(s', res) := add_entry (MkDirEntry dirent64.(ld_ino) (wrap 64 dirent64.(ld_off))
                                           dirent64.(ld_ty) name) s in
            next s' res
          | Err _ => (s, Err einval)
          | Panic => (s, Panic)
          end
      end
    end
  end.

(** The options [do_open] answers with. *)
Definition open_options (policy : CachePolicy) (flags : Z) : Z :=
  let directory := has_flag flags O_DIRECTORY in
  match policy with
  | Never => if directory then 0 else FOPEN_DIRECT_IO
  | Metadata => if directory then Z.lor FOPEN_CACHE_DIR FOPEN_KEEP_CACHE else FOPEN_DIRECT_IO
  | Always => if directory then Z.lor FOPEN_KEEP_CACHE FOPEN_CACHE_DIR else FOPEN_KEEP_CACHE
  | Auto => 0
  end.

(** The options [create] answers with. *)
Definition create_options (policy : CachePolicy) : Z :=
  match policy with
  | Never | Metadata => FOPEN_DIRECT_IO
  | Always => FOPEN_KEEP_CACHE
  | Auto => 0
  end.

(** The permission check of [access]. *)
Definition access_check (uid gid : Z) (st : stat64) (mask : Z) : io_result unit :=
  let mode := Z.land (signed 32 mask) (Z.lor R_OK (Z.lor W_OK X_OK)) in
  let perm := st.(st_mode) in
  if mode =? F_OK then Ok tt
  else if has_flag mode R_OK && negb (uid =? 0)
     && (negb (st.(st_uid) =? uid) || negb (has_flag perm 0x100))
     && (negb (st.(st_gid) =? gid) || negb (has_flag perm 0x20))
     && negb (has_flag perm 0x4) then Err (Os EACCES)
  else if has_flag mode W_OK && negb (uid =? 0)
     && (negb (st.(st_uid) =? uid) || negb (has_flag perm 0x80))
     && (negb (st.(st_gid) =? gid) || negb (has_flag perm 0x10))
     && negb (has_flag perm 0x2) then Err (Os EACCES)
  else if has_flag mode X_OK && (negb (uid =? 0) || negb (has_flag perm 0x49))
     && (negb (st.(st_uid) =? uid) || negb (has_flag perm 0x40))
     && (negb (st.(st_gid) =? gid) || negb (has_flag perm 0x8))
     && negb (has_flag perm 0x1) then Err (Os EACCES)
  else Ok tt.

(** The local [enum Data] of [setattr]. *)
Inductive SetattrData : Set :=
| SdHandle (hd : HandleData)
| SdProcPath (path : CStr).

(** One of the two entries of [tvs]. *)
Definition setattr_time (now set : bool) (sec nsec : Z) : Z * Z :=
  if now then (0, UTIME_NOW) else if set then (sec, nsec) else (0, UTIME_OMIT).

Section passthrough.
Context {H : Type} `{HOST : Host H}.

Abbreviation wprog A := (prog (PassthroughFs * H) io_error A).

(** ** Helpers *)

Definition get_file (fs : PassthroughFs) (inode : Z) : hprog H Z :=
  d ← lift (InodeMap_get fs.(pt_inodes) inode);
  InodeHandle_get_file d.(nd_handle).

Definition open_inode (fs : PassthroughFs) (inode flags : Z) : hprog H Z :=
  d ← lift (InodeMap_get fs.(pt_inodes) inode);
  if negb (is_safe_inode d.(nd_mode)) then fail ebadf
  else
    let new_flags := get_writeback_open_flags fs flags in
    let new_flags := if negb fs.(pt_cfg).(cfg_allow_direct_io) && has_flag flags O_DIRECT
                     then Z.ldiff new_flags O_DIRECT else new_flags in
    InodeHandle_open_file d.(nd_handle) (Z.lor new_flags O_CLOEXEC) fs.(pt_proc_self_fd).

(** [slot] is the handle under which [d] is stored, when it is. *)
Definition check_fd_flags (slot : option Z) (d : HandleData) (flags : Z) : wprog unit :=
  if d.(hd_open_flags) =? flags then mret tt
  else
    _ ← on_snd (call (sys_fcntl_setfl d.(hd_file) flags));
    on_fst (modify (fun fs =>
      match slot with
      | Some handle =>
        set_handles fs (alter (fun d => MkHandleData d.(hd_inode) d.(hd_file) flags) handle fs.(pt_handles))
          fs.(pt_next_handle)
      | None => fs
      end)).

Definition get_dirdata (fs : PassthroughFs) (handle inode flags : Z) : hprog H HandleData :=
  if negb fs.(pt_no_opendir) then lift (HandleMap_get fs.(pt_handles) handle inode)
  else
    file ← open_inode fs inode (Z.lor flags O_DIRECTORY);
    mret (MkHandleData inode file (wrap 32 flags)).

Definition get_data (fs : PassthroughFs) (handle inode flags : Z) : hprog H (option Z * HandleData) :=
  if negb fs.(pt_no_open) then
    d ← lift (HandleMap_get fs.(pt_handles) handle inode); mret (Some handle, d)
  else
    file ← open_inode fs inode flags;
    mret (None, MkHandleData inode file (wrap 32 flags)).

Definition do_readdir {X} (inode handle size offset : Z)
    (add_entry : DirEntry -> prog ((PassthroughFs * H) * X) io_error Z)
    : prog ((PassthroughFs * H) * X) io_error unit :=
  if size =? 0 then mret tt
  else
    fs ← on_fst get_fs;
    buf ← on_fst (on_snd (
      d ← get_dirdata fs handle inode O_RDONLY;
      _ ← call (sys_lseek d.(hd_file) (signed 64 offset) SEEK_SET);
      call (sys_getdents64 d.(hd_file) (signed 32 size))));
    readdir_loop (S (length buf)) add_entry (length buf) buf.

Definition insert_handle (d : HandleData) : wprog Z := on_fst (fun fs =>
  (set_handles fs (<[fs.(pt_next_handle) := d]> fs.(pt_handles)) (wrap 64 (fs.(pt_next_handle) + 1)),
   Ok fs.(pt_next_handle))).

Definition do_open (inode flags fuse_flags : Z) : wprog (option Z * Z * option Z) :=
  fs ← get_fs;
  file ← on_snd (with_killpriv (fs.(pt_killpriv_v2) && has_flag fuse_flags FOPEN_IN_KILL_SUIDGID)
                   (open_inode fs inode (signed 32 flags)));
  handle ← insert_handle (MkHandleData inode file flags);
  mret (Some handle, open_options fs.(pt_cfg).(cfg_cache_policy) flags, None).

Definition do_getattr (fs : PassthroughFs) (inode : Z) (handle : option Z) : hprog H (stat64 * Duration) :=
  d ← lift (InodeMap_get fs.(pt_inodes) inode);
  st ← match handle with
       | Some handle =>
         if negb fs.(pt_no_open) then
           hd ← lift (HandleMap_get fs.(pt_handles) handle inode); stat_fd hd.(hd_file) None
         else InodeHandle_stat d.(nd_handle)
       | None => InodeHandle_stat d.(nd_handle)
       end;
  mret (st, fs.(pt_cfg).(cfg_attr_timeout)).

Definition do_unlink (fs : PassthroughFs) (parent : Z) (name : CStr) (flags : Z) : hprog H unit :=
  file ← get_file fs parent;
  call (sys_unlinkat file name flags).

(** ** Session *)

Definition pt_init (capable : Z) : wprog Z :=
  fs ← get_fs;
  let cfg := fs.(pt_cfg) in
  _ ← (if cfg.(cfg_do_import) then import else mret tt);
  let has := fun (want : bool) flag => (negb cfg.(cfg_do_import) || want) && has_all capable flag in
  let writeback := has cfg.(cfg_writeback) WRITEBACK_CACHE in
  let no_open := has cfg.(cfg_no_open) ZERO_MESSAGE_OPEN in
  let no_opendir := has cfg.(cfg_no_opendir) ZERO_MESSAGE_OPENDIR in
  let killpriv_v2 := has cfg.(cfg_killpriv_v2) HANDLE_KILLPRIV_V2 in
  let perfile_dax := has_all capable PERFILE_DAX in
  let opts := Z.lor DO_READDIRPLUS READDIRPLUS_AUTO in
  let opts := if writeback then Z.lor opts WRITEBACK_CACHE else opts in
  let opts := if no_open then Z.ldiff (Z.lor opts ZERO_MESSAGE_OPEN) ATOMIC_O_TRUNC else opts in
  let opts := if no_opendir then Z.lor opts ZERO_MESSAGE_OPENDIR else opts in
  let opts := if killpriv_v2 then Z.lor opts HANDLE_KILLPRIV_V2 else opts in
  let opts := if perfile_dax then Z.lor opts PERFILE_DAX else opts in
  _ ← on_fst (modify (fun fs => set_features fs writeback no_open no_opendir killpriv_v2 perfile_dax));
  mret opts.

(** A failing [import] is logged. *)
Definition pt_destroy : wprog unit := fun '(fs, h) =>
  let fs := replace_inodes (set_handles fs ∅ fs.(pt_next_handle)) (InodeStore_clear fs.(pt_inodes)) in
  match import (fs, h) with
  | (s, Panic) => (s, Panic)
  | (s, _) => (s, Ok tt)
  end.

Definition pt_statfs (fs : PassthroughFs) (inode : Z) : hprog H statvfs64 :=
  file ← get_file fs inode;
  call (sys_fstatvfs64 file).

(** ** Inodes and directories *)

Definition pt_lookup (parent : Z) (name : CStr) : wprog Entry :=
  if contains SLASH_ASCII (to_bytes_with_nul name) then fail einval else do_lookup parent name.

Definition pt_forget (ctx : Context) (inode count : Z) : wprog unit :=
  on_fst (modify (fun fs => forget_one fs inode count)).

Definition pt_batch_forget (requests : list (Z * Z)) : wprog unit :=
  on_fst (modify (fun fs => foldl (fun fs r => forget_one fs r.1 r.2) fs requests)).

Definition pt_opendir (inode flags : Z) : wprog (option Z * Z) :=
  fs ← get_fs;
  if (fs.(pt_no_opendir) : bool) then fail enosys
  else
    x ← do_open inode (Z.lor flags O_DIRECTORY) 0;
    mret x.1.

Definition pt_releasedir (inode handle : Z) : wprog unit :=
  fs ← get_fs;
  if (fs.(pt_no_opendir) : bool) then fail enosys else do_release inode handle.

(** Run a checked name's handler on the file system and the host. *)
Definition pt_validated {A} (name : CStr) (m : PassthroughFs -> wprog A) : wprog A :=
  fs ← get_fs;
  _ ← lift (pt_validate_path_component fs name);
  m fs.

Definition pt_mkdir (ctx : Context) (parent : Z) (name : CStr) (mode umask : Z) : wprog Entry :=
  pt_validated name (fun fs =>
    d ← lift (InodeMap_get fs.(pt_inodes) parent);
    _ ← on_snd (with_creds ctx.(cx_uid) ctx.(cx_gid) (
      file ← InodeHandle_get_file d.(nd_handle);
      attempt (sys_mkdirat file name (Z.ldiff mode umask))));
    do_lookup parent name).

Definition pt_rmdir (parent : Z) (name : CStr) : wprog unit :=
  pt_validated name (fun fs => on_snd (do_unlink fs parent name AT_REMOVEDIR)).

Definition pt_unlink (parent : Z) (name : CStr) : wprog unit :=
  pt_validated name (fun fs => on_snd (do_unlink fs parent name 0)).

(** [&dir_entry.name[0]] panics on an empty name. *)
Definition entry_name {S} (d : DirEntry) : prog S io_error CStr :=
  match d.(d_name) with [] => lift Panic | _ => mret d.(d_name) end.

Definition set_d_ino (d : DirEntry) (ino : Z) : DirEntry :=
  MkDirEntry ino d.(d_offset) d.(d_type) d.(d_name).

Definition readdir_entry {X} (inode : Z) (add_entry : add_entry_t X) (d : DirEntry)
    : prog ((PassthroughFs * H) * X) io_error Z :=
  name ← entry_name d;
  entry ← on_fst (do_lookup inode name);
  _ ← on_fst (on_fst (modify (fun fs => forget_one fs entry.(en_inode) 1)));
  on_snd (add_entry (set_d_ino d entry.(en_inode))).

Definition readdirplus_entry {X} (inode : Z) (add_entry : add_entry_plus_t X) (d : DirEntry)
    : prog ((PassthroughFs * H) * X) io_error Z :=
  name ← entry_name d;
  entry ← on_fst (do_lookup inode name);
  r ← on_snd (add_entry (set_d_ino d entry.(en_attr).(st_ino)) entry);
  _ ← (if r =? 0 then on_fst (on_fst (modify (fun fs => forget_one fs entry.(en_inode) 1))) else mret tt);
  mret r.

Definition pt_readdir {X} (ctx : Context) (inode handle size offset : Z) (add_entry : add_entry_t X)
    : prog ((PassthroughFs * H) * X) io_error unit :=
  fs ← on_fst get_fs;
  if (fs.(pt_no_readdir) : bool) then mret tt
  else do_readdir inode handle size offset (readdir_entry inode add_entry).

Definition pt_readdirplus {X} (ctx : Context) (inode handle size offset : Z) (add_entry : add_entry_plus_t X)
    : prog ((PassthroughFs * H) * X) io_error unit :=
  fs ← on_fst get_fs;
  if (fs.(pt_no_readdir) : bool) then mret tt
  else do_readdir inode handle size offset (readdirplus_entry inode add_entry).

Definition pt_rename (olddir : Z) (oldname : CStr) (newdir : Z) (newname : CStr) (flags : Z) : wprog unit :=
  pt_validated oldname (fun _ => pt_validated newname (fun fs => on_snd (
    old_inode ← lift (InodeMap_get fs.(pt_inodes) olddir);
    new_inode ← lift (InodeMap_get fs.(pt_inodes) newdir);
    old_file ← InodeHandle_get_file old_inode.(nd_handle);
    new_file ← InodeHandle_get_file new_inode.(nd_handle);
    call (sys_renameat2 old_file oldname new_file newname flags)))).

Definition pt_mknod (ctx : Context) (parent : Z) (name : CStr) (mode rdev umask : Z) : wprog Entry :=
  pt_validated name (fun fs =>
    _ ← on_snd (
      file ← get_file fs parent;
      with_creds ctx.(cx_uid) ctx.(cx_gid) (attempt (sys_mknodat file name (Z.ldiff mode umask) rdev)));
    do_lookup parent name).

Definition pt_link (inode newparent : Z) (newname : CStr) : wprog Entry :=
  pt_validated newname (fun fs =>
    _ ← on_snd (
      d ← lift (InodeMap_get fs.(pt_inodes) inode);
      new_inode ← lift (InodeMap_get fs.(pt_inodes) newparent);
      file ← InodeHandle_get_file d.(nd_handle);
      new_file ← InodeHandle_get_file new_inode.(nd_handle);
      call (sys_linkat file EMPTY_PATH new_file newname AT_EMPTY_PATH));
    do_lookup newparent newname).

Definition pt_symlink (ctx : Context) (linkname : CStr) (parent : Z) (name : CStr) : wprog Entry :=
  pt_validated name (fun fs =>
    d ← lift (InodeMap_get fs.(pt_inodes) parent);
    _ ← on_snd (with_creds ctx.(cx_uid) ctx.(cx_gid) (
      file ← InodeHandle_get_file d.(nd_handle);
      attempt (sys_symlinkat linkname file name)));
    do_lookup parent name).

Definition pt_readlink (fs : PassthroughFs) (inode : Z) : hprog H bytes :=
  file ← get_file fs inode;
  call (sys_readlinkat file EMPTY_PATH PATH_MAX).

(** ** Files *)

Definition pt_open (inode flags fuse_flags : Z) : wprog (option Z * Z * option Z) :=
  fs ← get_fs;
  if (fs.(pt_no_open) : bool) then fail enosys else do_open inode flags fuse_flags.

Definition pt_release (inode handle : Z) : wprog unit :=
  fs ← get_fs;
  if (fs.(pt_no_open) : bool) then fail enosys else do_release inode handle.

(** A file that already existed is opened with the caller's credentials. *)
Definition create_open_existing (fs : PassthroughFs) (ctx : Context) (inode : Z) (args : CreateIn) : hprog H Z :=
  with_killpriv (fs.(pt_killpriv_v2) && has_flag args.(ci_fuse_flags) FOPEN_IN_KILL_SUIDGID)
    (with_creds ctx.(cx_uid) ctx.(cx_gid)
       (file ← open_inode fs inode (signed 32 args.(ci_flags)); mret (inr file))).

Definition pt_create (ctx : Context) (parent : Z) (name : CStr) (args : CreateIn)
    : wprog (Entry * option Z * Z * option Z) :=
  pt_validated name (fun fs =>
    new_file ← on_snd (
      dir_file ← get_file fs parent;
      with_creds ctx.(cx_uid) ctx.(cx_gid) (
        let flags := get_writeback_open_flags fs (signed 32 args.(ci_flags)) in
        file ← create_file_excl dir_file name flags (Z.ldiff args.(ci_mode) (Z.land args.(ci_umask) 0x1ff));
        mret (inr file)));
    entry ← do_lookup parent name;
    fs ← get_fs;
    file ← match new_file with
           | Some f => mret f
           | None => on_snd (create_open_existing fs ctx entry.(en_inode) args)
           end;
    ret_handle ← (if negb fs.(pt_no_open) then
                    handle ← insert_handle (MkHandleData entry.(en_inode) file args.(ci_flags));
                    mret (Some handle)
                  else mret None);
    mret (entry, ret_handle, create_options fs.(pt_cfg).(cfg_cache_policy), None)).

(** [w.write_from(f, size, offset)]: the reply must have room for [size]. *)
Definition pt_read (ctx : Context) (inode handle available size offset : Z) (lock_owner : option Z) (flags : Z)
    (s : PassthroughFs * H) : (PassthroughFs * H) * (bytes * io_result Z) :=
  let m : wprog bytes :=
    fs ← get_fs;
    x ← on_snd (get_data fs handle inode O_RDONLY);
    _ ← check_fd_flags x.1 x.2 flags;
    if available <? size then fail (Simple InvalidData)
    else on_snd (call (sys_preadv x.2.(hd_file) size (signed 64 offset))) in
  match m s with
  | (s', Ok b) => (s', (b, Ok (zlen b)))
  | (s', Err e) => (s', ([], Err e))
  | (s', Panic) => (s', ([], Panic))
  end.

(** [r.read_to(f, size, offset)]: no call is made for an empty buffer. *)
Definition pt_write (ctx : Context) (inode handle : Z) (data : bytes) (size offset : Z)
    (lock_owner : option Z) (delayed_write : bool) (flags fuse_flags : Z) : wprog Z :=
  fs ← get_fs;
  x ← on_snd (get_data fs handle inode O_RDWR);
  _ ← check_fd_flags x.1 x.2 flags;
  on_snd (
    _ ← (if fs.(pt_seal_size) then
           st ← stat_fd x.2.(hd_file) None;
           lift (seal_size_check OpWrite (wrap 64 st.(st_size)) offset size 0)
         else mret tt);
    with_killpriv (fs.(pt_killpriv_v2) && has_flag fuse_flags WRITE_KILL_PRIV)
      (match take (Z.to_nat size) data with
       | [] => mret 0
       | buf => call (sys_pwritev x.2.(hd_file) buf (signed 64 offset))
       end)).

(** ** Attributes *)

Definition setattr_mode (fs : PassthroughFs) (d : SetattrData) (mode : Z) : hprog H unit :=
  match d with
  | SdHandle hd => call (sys_fchmod hd.(hd_file) mode)
  | SdProcPath p => call (sys_fchmodat fs.(pt_proc_self_fd) p mode 0)
  end.

Definition setattr_size (fs : PassthroughFs) (d : SetattrData) (inode size : Z) : hprog H unit :=
  match d with
  | SdHandle hd => call (sys_ftruncate hd.(hd_file) size)
  | SdProcPath _ => f ← open_inode fs inode (Z.lor O_NONBLOCK O_RDWR); call (sys_ftruncate f size)
  end.

Definition setattr_times (fs : PassthroughFs) (d : SetattrData) (atime mtime : Z * Z) : hprog H unit :=
  match d with
  | SdHandle hd => call (sys_futimens hd.(hd_file) atime mtime)
  | SdProcPath p => call (sys_utimensat fs.(pt_proc_self_fd) p atime mtime 0)
  end.

Definition hwhen (b : bool) (m : hprog H unit) : hprog H unit := if b then m else mret tt.

Definition setattr_data (fs : PassthroughFs) (inode file : Z) (handle : option Z) : io_result SetattrData :=
  match handle with
  | Some handle =>
    if fs.(pt_no_open) then Ok (SdProcPath (fd_name file))
    else hd ← HandleMap_get fs.(pt_handles) handle inode; Ok (SdHandle hd)
  | None => Ok (SdProcPath (fd_name file))
  end.

Definition pt_setattr (fs : PassthroughFs) (inode : Z) (attr : stat64) (handle : option Z) (valid : Z)
    : hprog H (stat64 * Duration) :=
  file ← get_file fs inode;
  d ← lift (setattr_data fs inode file handle);
  if has_all valid FATTR_SIZE && fs.(pt_seal_size) then fail eperm
  else
    _ ← hwhen (has_all valid FATTR_MODE) (setattr_mode fs d attr.(st_mode));
    _ ← hwhen (has_flag valid (Z.lor FATTR_UID FATTR_GID))
          (call (sys_fchownat file EMPTY_PATH
                   (if has_all valid FATTR_UID then attr.(st_uid) else U32_MAX)
                   (if has_all valid FATTR_GID then attr.(st_gid) else U32_MAX)
                   (Z.lor AT_EMPTY_PATH AT_SYMLINK_NOFOLLOW)));
    _ ← hwhen (has_all valid FATTR_SIZE)
          (with_killpriv (fs.(pt_killpriv_v2) && has_all valid FATTR_KILL_SUIDGID)
             (setattr_size fs d inode attr.(st_size)));
    _ ← hwhen (has_flag valid (Z.lor FATTR_ATIME FATTR_MTIME))
          (setattr_times fs d
             (setattr_time (has_all valid FATTR_ATIME_NOW) (has_all valid FATTR_ATIME)
                attr.(st_atime) attr.(st_atime_nsec))
             (setattr_time (has_all valid FATTR_MTIME_NOW) (has_all valid FATTR_MTIME)
                attr.(st_mtime) attr.(st_mtime_nsec)));
    do_getattr fs inode handle.

Definition pt_access (fs : PassthroughFs) (ctx : Context) (inode mask : Z) : hprog H unit :=
  file ← get_file fs inode;
  st ← stat_fd file None;
  lift (access_check ctx.(cx_uid) ctx.(cx_gid) st mask).

(** ** Synchronisation, space and position *)

Definition pt_flush (fs : PassthroughFs) (inode handle : Z) : hprog H unit :=
  if (fs.(pt_no_open) : bool) then fail enosys
  else
    d ← lift (HandleMap_get fs.(pt_handles) handle inode);
    newfd ← call (sys_dup d.(hd_file));
    call (sys_close newfd).

Definition pt_fsync (fs : PassthroughFs) (inode : Z) (datasync : bool) (handle : Z) : hprog H unit :=
  x ← get_data fs handle inode O_RDONLY;
  call (if datasync then sys_fdatasync x.2.(hd_file) else sys_fsync x.2.(hd_file)).

Definition pt_fsyncdir (fs : PassthroughFs) (inode : Z) (datasync : bool) (handle : Z) : hprog H unit :=
  pt_fsync fs inode datasync handle.

Definition pt_fallocate (fs : PassthroughFs) (inode handle mode offset length : Z) : hprog H unit :=
  x ← get_data fs handle inode O_RDWR;
  _ ← (if fs.(pt_seal_size) then
         st ← stat_fd x.2.(hd_file) None;
         lift (seal_size_check OpFallocate (wrap 64 st.(st_size)) offset length (signed 32 mode))
       else mret tt);
  call (sys_fallocate64 x.2.(hd_file) (signed 32 mode) (signed 64 offset) (signed 64 length)).

Definition pt_lseek (fs : PassthroughFs) (inode handle offset whence : Z) : hprog H Z :=
  d ← lift (HandleMap_get fs.(pt_handles) handle inode);
  call (sys_lseek d.(hd_file) (signed 64 offset) (signed 32 whence)).

(** ** Extended attributes *)

(** The path the [xattr] calls need, since the descriptor is [O_PATH]. *)
Definition xattr_path (fs : PassthroughFs) (inode : Z) : hprog H CStr :=
  if negb fs.(pt_cfg).(cfg_xattr) then fail enosys
  else file ← get_file fs inode; mret (proc_path file).

Definition pt_setxattr (fs : PassthroughFs) (inode : Z) (name : CStr) (value : bytes) (flags : Z) : hprog H unit :=
  pathname ← xattr_path fs inode;
  call (sys_setxattr pathname name value (signed 32 flags)).

Definition pt_getxattr (fs : PassthroughFs) (inode : Z) (name : CStr) (size : Z) : hprog H GetxattrReply :=
  pathname ← xattr_path fs inode;
  x ← call (sys_getxattr pathname name size);
  mret (if size =? 0 then GxCount (wrap 32 x.1) else GxValue (take (Z.to_nat x.1) x.2)).

Definition pt_listxattr (fs : PassthroughFs) (inode size : Z) : hprog H ListxattrReply :=
  pathname ← xattr_path fs inode;
  x ← call (sys_listxattr pathname size);
  mret (if size =? 0 then LxCount (wrap 32 x.1) else LxNames (take (Z.to_nat x.1) x.2)).

Definition pt_removexattr (fs : PassthroughFs) (inode : Z) (name : CStr) : hprog H unit :=
  pathname ← xattr_path fs inode;
  call (sys_removexattr pathname name).

(** ** The trait *)

(** A handler that only reads the file system. *)
Definition reading {A} (m : PassthroughFs -> hprog H A) : wprog A :=
  fs ← get_fs; on_snd (m fs).

Definition pt_op (A : Set) (op : FsOp A) : wprog A :=
  match op in FsOp A return wprog A with
  | op_init capable => pt_init capable
  | op_destroy => pt_destroy
  | op_lookup _ parent name => pt_lookup parent name
  | op_forget ctx inode count => pt_forget ctx inode count
  | op_batch_forget _ requests => pt_batch_forget requests
  | op_getattr _ inode handle => reading (fun fs => do_getattr fs inode handle)
  | op_setattr _ inode attr handle valid => reading (fun fs => pt_setattr fs inode attr handle valid)
  | op_readlink _ inode => reading (fun fs => pt_readlink fs inode)
  | op_symlink ctx linkname parent name => pt_symlink ctx linkname parent name
  | op_mknod ctx inode name mode rdev umask => pt_mknod ctx inode name mode rdev umask
  | op_mkdir ctx parent name mode umask => pt_mkdir ctx parent name mode umask
  | op_unlink _ parent name => pt_unlink parent name
  | op_rmdir _ parent name => pt_rmdir parent name
  | op_rename _ olddir oldname newdir newname flags => pt_rename olddir oldname newdir newname flags
  | op_link _ inode newparent newname => pt_link inode newparent newname
  | op_open _ inode flags fuse_flags => pt_open inode flags fuse_flags
  | op_create ctx parent name args => pt_create ctx parent name args
  | op_flush _ inode handle _ => reading (fun fs => pt_flush fs inode handle)
  | op_fsync _ inode datasync handle => reading (fun fs => pt_fsync fs inode datasync handle)
  | op_fallocate _ inode handle mode offset length =>
      reading (fun fs => pt_fallocate fs inode handle mode offset length)
  | op_release _ inode _ handle _ _ _ => pt_release inode handle
  | op_statfs _ inode => reading (fun fs => pt_statfs fs inode)
  | op_setxattr _ inode name value flags => reading (fun fs => pt_setxattr fs inode name value flags)
  | op_getxattr _ inode name size => reading (fun fs => pt_getxattr fs inode name size)
  | op_listxattr _ inode size => reading (fun fs => pt_listxattr fs inode size)
  | op_removexattr _ inode name => reading (fun fs => pt_removexattr fs inode name)
  | op_opendir _ inode flags => pt_opendir inode flags
  | op_fsyncdir _ inode datasync handle => reading (fun fs => pt_fsyncdir fs inode datasync handle)
  | op_releasedir _ inode _ handle => pt_releasedir inode handle
  | op_access ctx inode mask => reading (fun fs => pt_access fs ctx inode mask)
  | op_lseek _ inode handle offset whence => reading (fun fs => pt_lseek fs inode handle offset whence)
  | op => default_op pt_forget _ op
  end.

#[global] Instance PassthroughFs_filesystem : FileSystem (PassthroughFs * H) := {|
  fs_op := pt_op;
  fs_read := pt_read;
  fs_write := pt_write;
  fs_readdir := @pt_readdir;
  fs_readdirplus := @pt_readdirplus;
  fs_id_remap := default_id_remap;
|}.

#[global] Instance PassthroughFs_backend : BackendFileSystem (PassthroughFs * H) := {|
  be_mount := pt_mount;
|}.

(** [overlay.rs]: a layer of an overlay, with the default methods. *)
#[global] Instance PassthroughFs_layer : Layer (PassthroughFs * H) := default_layer (fun _ => ROOT_ID).
End passthrough.
