(* ===== verification/PassthroughProps.v ===== *)
(** * Panics and credentials in the passthrough file system

    The programs of [Passthrough] and [PassthroughSync] decompose along their
    structure: each one does not panic when the host behaves, and gives the
    thread's credentials back on every path. *)

From stdpp Require Import gmap.
From S2P Require Import Prelude Std Lib Codec AbiStruct Abi FsTypes FileSystem Vfs ProgLogic.
From S2P Require Import Host HostLaws InodeStore MountFds Passthrough PassthroughSync.

(** One step along the structure of a program. *)
Ltac prog_step :=
  match goal with
  | |- no_panic (_ ≫= _) => apply no_panic_bind; [|intros ?]
  | |- pres _ (_ ≫= _) => apply pres_bind; [apply _| |intros ?]
  | |- safe _ (_ ≫= _) => apply safe_bind; [|intros ?]
  | |- no_panic (call _) => apply call_no_panic
  | |- no_panic (attempt _) => apply attempt_no_panic
  | |- no_panic (on_snd _) => apply no_panic_on_snd
  | |- no_panic (on_fst _) => apply no_panic_on_fst
  | |- no_panic (with_creds _ _ _) => apply with_creds_no_panic
  | |- no_panic (with_killpriv _ _) => apply with_killpriv_no_panic
  | |- pres ?R (call ?op) => apply (call_pres R op); solve [repeat case_match; plain_op]
  | |- pres ?R (attempt ?op) => apply (attempt_pres R op); solve [plain_op]
  | |- pres _ (with_creds _ _ _) => apply scoped_with_creds
  | |- pres _ (with_killpriv _ _) => first [apply with_killpriv_back | apply scoped_with_killpriv]
  | |- pres (fst_rel _) (on_snd _) => apply pres_fst_snd, _
  | |- pres (snd_rel _) (on_fst _) => apply pres_snd_fst, _
  | |- pres (fst_rel _) (on_fst _) => apply pres_fst_fst
  | |- pres (snd_rel _) (on_snd _) => apply pres_snd_snd
  | |- no_panic (match ?x with _ => _ end) => destruct x
  | |- pres _ (match ?x with _ => _ end) => destruct x
  | |- safe _ (match ?x with _ => _ end) => destruct x
  end.

(** Decompose, close the leaves with what is known of the parts. *)
Ltac prog_auto := repeat first [solve [auto 2 with fuse] | solve [intros ?; done] | prog_step].

(** ** Pure parts *)

Lemma InodeMap_get_total s i : InodeMap_get s i <> Panic.
Proof. unfold InodeMap_get. by destruct (InodeStore_get s i). Qed.

Lemma HandleMap_get_total m h i : HandleMap_get m h i <> Panic.
Proof. unfold HandleMap_get. by repeat case_match. Qed.

Lemma seal_size_check_total o fs off sz m : seal_size_check o fs off sz m <> Panic.
Proof. unfold seal_size_check. by repeat case_match. Qed.

Lemma access_check_total u g st m : access_check u g st m <> Panic.
Proof. unfold access_check. by repeat case_match. Qed.

Lemma setattr_data_total fs i f h : setattr_data fs i f h <> Panic.
Proof.
  unfold setattr_data. repeat case_match; try done.
  pose proof (HandleMap_get_total fs.(pt_handles) z i). by destruct (HandleMap_get _ _ _).
Qed.

Lemma no_panic_lift {S E A} (o : outcome E A) : o <> Panic -> no_panic (lift o : prog S E A).
Proof. by intros Ho s. Qed.

#[export] Hint Resolve InodeMap_get_total HandleMap_get_total seal_size_check_total access_check_total
  setattr_data_total no_panic_lift : fuse.

(** ** Programs over the host *)

Section host.
Context {H : Type} `{HO : HostOk H}.
Implicit Types (fs : PassthroughFs).

Lemma InodeHandle_get_file_no_panic d : no_panic (InodeHandle_get_file (H := H) d).
Proof. unfold InodeHandle_get_file, OpenableFileHandle_open. prog_auto. Qed.

Lemma InodeHandle_open_file_no_panic d flags fd : no_panic (InodeHandle_open_file (H := H) d flags fd).
Proof. unfold InodeHandle_open_file, OpenableFileHandle_open, reopen_fd_through_proc. prog_auto. Qed.

Lemma stat_fd_no_panic fd p : no_panic (stat_fd (H := H) fd p).
Proof. unfold stat_fd. prog_auto. Qed.

#[local] Hint Resolve InodeHandle_get_file_no_panic InodeHandle_open_file_no_panic stat_fd_no_panic : fuse.

Lemma InodeHandle_stat_no_panic d : no_panic (InodeHandle_stat (H := H) d).
Proof. unfold InodeHandle_stat. prog_auto. Qed.

Lemma get_file_no_panic fs i : no_panic (get_file (H := H) fs i).
Proof. unfold get_file. prog_auto. Qed.

Lemma open_inode_no_panic fs i flags : no_panic (open_inode (H := H) fs i flags).
Proof. unfold open_inode. prog_auto. Qed.

#[local] Hint Resolve InodeHandle_stat_no_panic get_file_no_panic open_inode_no_panic : fuse.

Lemma open_file_and_handle_no_panic cfg fd name : no_panic (open_file_and_handle (H := H) cfg fd name).
Proof. unfold open_file_and_handle, open_file_restricted, FileHandle_from_fd. prog_auto. Qed.

Lemma create_file_excl_no_panic fd name flags mode : no_panic (create_file_excl (H := H) fd name flags mode).
Proof.
  intros h. unfold create_file_excl.
  pose proof (openat_no_panic (H := H) fd name (Z.lor flags (Z.lor O_CREAT O_EXCL)) mode h) as Hp.
  destruct (openat _ _ _ _ h) as [h' []]; by repeat case_match.
Qed.

Lemma get_data_no_panic fs handle i flags : no_panic (get_data (H := H) fs handle i flags).
Proof. unfold get_data. prog_auto. Qed.

Lemma get_dirdata_no_panic fs handle i flags : no_panic (get_dirdata (H := H) fs handle i flags).
Proof. unfold get_dirdata. prog_auto. Qed.

Lemma do_getattr_no_panic fs i handle : no_panic (do_getattr (H := H) fs i handle).
Proof. unfold do_getattr. prog_auto. Qed.

Lemma do_unlink_no_panic fs i name flags : no_panic (do_unlink (H := H) fs i name flags).
Proof. unfold do_unlink. prog_auto. Qed.

Lemma xattr_path_no_panic fs i : no_panic (xattr_path (H := H) fs i).
Proof. unfold xattr_path. prog_auto. Qed.

#[local] Hint Resolve get_data_no_panic do_getattr_no_panic : fuse.

Lemma pt_setattr_no_panic fs i attr handle valid : no_panic (pt_setattr (H := H) fs i attr handle valid).
Proof. unfold pt_setattr, hwhen, setattr_mode, setattr_size, setattr_times. prog_auto. Qed.

Lemma create_open_existing_no_panic fs ctx i args : no_panic (create_open_existing (H := H) fs ctx i args).
Proof. unfold create_open_existing. prog_auto. Qed.
End host.

#[export] Hint Resolve InodeHandle_get_file_no_panic stat_fd_no_panic get_file_no_panic open_inode_no_panic
  open_file_and_handle_no_panic create_file_excl_no_panic get_data_no_panic get_dirdata_no_panic
  do_getattr_no_panic do_unlink_no_panic xattr_path_no_panic pt_setattr_no_panic
  create_open_existing_no_panic : fuse.

(** ** Calls of the programs over the host

    Along any relation that allows the plain calls. *)

Section host_calls.
Context {H : Type} `{HOST : Host H} (R : relation H) {N : CStr -> bool} `{CS : !Calls R N}.
Implicit Types (fs : PassthroughFs).

Lemma InodeHandle_get_file_pres d : pres R (InodeHandle_get_file (H := H) d).
Proof. unfold InodeHandle_get_file, OpenableFileHandle_open. prog_auto. Qed.

Lemma InodeHandle_open_file_pres d flags fd : pres R (InodeHandle_open_file (H := H) d flags fd).
Proof. unfold InodeHandle_open_file, OpenableFileHandle_open. prog_auto. Qed.

Lemma stat_fd_pres fd : pres R (stat_fd (H := H) fd None).
Proof. unfold stat_fd. prog_auto. Qed.

#[local] Hint Resolve InodeHandle_get_file_pres InodeHandle_open_file_pres stat_fd_pres : fuse.

Lemma InodeHandle_stat_pres d : pres R (InodeHandle_stat (H := H) d).
Proof. unfold InodeHandle_stat. prog_auto. Qed.

Lemma get_file_pres fs i : pres R (get_file (H := H) fs i).
Proof. unfold get_file. prog_auto. Qed.

Lemma open_inode_pres fs i flags : pres R (open_inode (H := H) fs i flags).
Proof. unfold open_inode. prog_auto. Qed.

#[local] Hint Resolve InodeHandle_stat_pres get_file_pres open_inode_pres : fuse.

Lemma open_file_and_handle_pres cfg fd name :
  N name = true -> pres R (open_file_and_handle (H := H) cfg fd name).
Proof.
  intros Hn. unfold open_file_and_handle, open_file_restricted, FileHandle_from_fd.
  prog_step; [|prog_auto]. apply (call_pres R). cbn [plain]. by rewrite Hn.
Qed.

Lemma get_data_pres fs handle i flags : pres R (get_data (H := H) fs handle i flags).
Proof. unfold get_data. prog_auto. Qed.

Lemma get_dirdata_pres fs handle i flags : pres R (get_dirdata (H := H) fs handle i flags).
Proof. unfold get_dirdata. prog_auto. Qed.

Lemma do_getattr_pres fs i handle : pres R (do_getattr (H := H) fs i handle).
Proof. unfold do_getattr. prog_auto. Qed.

Lemma do_unlink_pres fs i name flags : N name = true -> pres R (do_unlink (H := H) fs i name flags).
Proof. intros Hn. unfold do_unlink. prog_auto. Qed.

Lemma xattr_path_pres fs i : pres R (xattr_path (H := H) fs i).
Proof. unfold xattr_path. prog_auto. Qed.

(** The path is that of a descriptor. *)
Lemma xattr_path_bind {A} fs i (k : CStr -> hprog H A) :
  (forall fd, pres R (k (proc_path fd))) -> pres R (xattr_path fs i ≫= k).
Proof.
  intros Hk h. pose proof (xattr_path_pres fs i h) as Hp. revert Hp. unfold xattr_path, mbind, prog_mbind, prog_bind.
  destruct (negb _); [done|]. destruct (get_file fs i h) as [h' [fd|e|]]; [|done..]. cbn. intros Hp. etrans; [exact Hp|apply Hk].
Qed.
End host_calls.

#[export] Hint Extern 1 (pres ?R (InodeHandle_get_file _)) => apply (InodeHandle_get_file_pres R) : fuse.
#[export] Hint Extern 1 (pres ?R (stat_fd _ None)) => apply (stat_fd_pres R) : fuse.
#[export] Hint Extern 1 (pres ?R (get_file _ _)) => apply (get_file_pres R) : fuse.
#[export] Hint Extern 1 (pres ?R (open_inode _ _ _)) => apply (open_inode_pres R) : fuse.
#[export] Hint Extern 1 (pres ?R (open_file_and_handle _ _ _)) => apply (open_file_and_handle_pres R); plain_op : fuse.
#[export] Hint Extern 1 (pres ?R (get_data _ _ _ _)) => apply (get_data_pres R) : fuse.
#[export] Hint Extern 1 (pres ?R (get_dirdata _ _ _ _)) => apply (get_dirdata_pres R) : fuse.
#[export] Hint Extern 1 (pres ?R (do_getattr _ _ _)) => apply (do_getattr_pres R) : fuse.
#[export] Hint Extern 1 (pres ?R (do_unlink _ _ _ _)) => apply (do_unlink_pres R); plain_op : fuse.
#[export] Hint Extern 1 (pres ?R (xattr_path _ _)) => apply (xattr_path_pres R) : fuse.
#[export] Hint Extern 1 (pres ?R (xattr_path _ _ ≫= _)) => apply (xattr_path_bind R); intros ?; prog_auto : fuse.

Section host_scoped.
Context {H : Type} `{HOST : Host H} (R : relation H) {N : CStr -> bool} (ctx : Context) `{SC : !Scoped R N ctx.(cx_uid) ctx.(cx_gid)}.
Implicit Types (fs : PassthroughFs).

Lemma attempt_inside {A : Set} (op : SysOp A) : creates N op = true -> pres (inside (R := R)) (attempt (H := H) op).
Proof. intros Hop h. unfold attempt. pose proof (inside_step A op h Hop) as Hs. by destruct (sys op h) as [h' []]. Qed.

Lemma create_file_excl_inside fd name flags mode :
  N name = true -> pres (inside (R := R)) (create_file_excl (H := H) fd name flags mode).
Proof.
  intros Hn h. unfold create_file_excl, openat, call. set (f := Z.lor flags (Z.lor O_CREAT O_EXCL)).
  assert (creates N (sys_openat fd name f (if Z.land f O_CREAT =? O_CREAT then Some mode else None)) = true) as Hop.
  { assert (forall a b c, Z.land (Z.lor a (Z.lor b c)) b = b /\ Z.land (Z.lor a (Z.lor b c)) c = c) as Hland.
    { intros a b c. split; apply Z.bits_inj'; intros i _; rewrite !Z.land_spec, !Z.lor_spec;
        by destruct (Z.testbit a i), (Z.testbit b i), (Z.testbit c i). }
    unfold f. rewrite (proj1 (Hland _ _ _)), Z.eqb_refl. cbn [creates]. unfold has_flag.
    by rewrite Hn, (proj2 (Hland _ _ _)). }
  pose proof (inside_step (R := R) _ _ h Hop) as Hs.
  destruct (sys _ h) as [h' []]; by repeat case_match.
Qed.

Lemma setattr_data_pres fs i file handle (k : SetattrData -> hprog H (stat64 * Duration)) :
  (forall hd, pres R (k (SdHandle hd))) -> (forall fd, pres R (k (SdProcPath (fd_name fd)))) ->
  pres R (lift (setattr_data fs i file handle) ≫= k).
Proof.
  intros Hh Hp h. unfold setattr_data. repeat case_match; try apply Hp.
  destruct (HandleMap_get _ _ _); [apply Hh|done|done].
Qed.

Lemma pt_setattr_pres fs i attr handle valid : pres R (pt_setattr (H := H) fs i attr handle valid).
Proof.
  unfold pt_setattr. prog_step; [prog_auto|].
  apply setattr_data_pres; intros ?; unfold hwhen, setattr_mode, setattr_size, setattr_times; prog_auto.
Qed.

Lemma create_open_existing_pres fs i args : pres R (create_open_existing (H := H) fs ctx i args).
Proof. unfold create_open_existing. prog_auto. Qed.
End host_scoped.

(** ** Mount descriptors *)

Section mount_fds.
Context {H : Type} `{HOST : Host H}.

(** The two ways a failure of the host becomes an [MPRError] add reads of
    [mountinfo] and nothing else. *)
Lemma or_nolookup_no_panic {A} id (m : hprog H A) : no_panic m -> no_panic (or_nolookup id m).
Proof.
  intros Hm [fds h]. specialize (Hm h). unfold or_nolookup, error_for_nolookup.
  destruct (m h) as [h' []]; [done| |done]. by case_match.
Qed.

Lemma get_mount_root_no_panic id : no_panic (get_mount_root (H := H) id).
Proof.
  unfold get_mount_root. apply no_panic_bind; [apply or_nolookup_no_panic; prog_auto|intros _].
  apply no_panic_bind.
  - apply or_nolookup_no_panic. unfold read_mountinfo. prog_auto.
  - intros text. destruct (mount_path text id); [by intros s|].
    intros [fds h]. unfold error_for_nolookup. by case_match.
Qed.

Lemma error_for_no_panic {A} id e : no_panic (error_for (H := H) (A := A) id e).
Proof.
  intros [fds h]. unfold error_for, error_for_nolookup.
  destruct (bool_decide _); cbn; [done|]. pose proof (get_mount_root_no_panic id (MkMountFds fds.(mfs_map)
    fds.(mfs_mount_info) fds.(mfs_mount_prefix) ({[id]} ∪ fds.(mfs_error_logged)), h)) as Hp.
  by destruct (get_mount_root _ _) as [s []].
Qed.

Lemma or_error_for_no_panic {A} id (m : hprog H A) : no_panic m -> no_panic (or_error_for id m).
Proof.
  intros Hm [fds h]. specialize (Hm h). unfold or_error_for.
  destruct (m h) as [h' []]; [done|apply error_for_no_panic|done].
Qed.

Context {HO : HostOk H}.

Lemma into_openable_no_panic fh reopen :
  (forall fd flags mode, no_panic (reopen fd flags mode)) -> no_panic (into_openable (H := H) fh reopen).
Proof.
  intros Hr. unfold into_openable, MountFds_get. prog_step; [|prog_auto]. apply no_panic_bind; [by intros s|].
  intros [x|]; [by intros s|]. apply no_panic_bind.
  - unfold open_mount, validate_mount_id. apply no_panic_bind; [apply get_mount_root_no_panic|intros p].
    repeat first [apply or_error_for_no_panic; [by prog_auto] | apply error_for_no_panic
                 | apply or_error_for_no_panic; [by auto] | by intros ? | prog_step].
  - intros fd [fds h]. unfold insert_mount_fd. by case_match.
Qed.
End mount_fds.

Section mount_fds_calls.
Context {H : Type} `{HOST : Host H} (R0 : relation H) {N : CStr -> bool} `{CS : !Calls R0 N}.

Abbreviation R := (snd_rel (S := MountFds) R0).

Lemma or_nolookup_pres {A} id (m : hprog H A) : pres R0 m -> pres R (or_nolookup id m).
Proof.
  intros Hm [fds h]. specialize (Hm h). unfold or_nolookup, error_for_nolookup.
  destruct (m h) as [h' []]; [done| |done]. by case_match; unfold snd_rel; cbn.
Qed.

Lemma get_mount_root_pres id : pres R (get_mount_root (H := H) id).
Proof.
  unfold get_mount_root. prog_step; [apply or_nolookup_pres; prog_auto|].
  prog_step.
  - apply or_nolookup_pres. unfold read_mountinfo. prog_auto.
  - prog_step; [prog_auto|]. intros [fds h]. unfold error_for_nolookup. by case_match; unfold snd_rel; cbn.
Qed.

Lemma error_for_pres {A} id e : pres R (error_for (H := H) (A := A) id e).
Proof.
  intros [fds h]. unfold error_for, error_for_nolookup.
  destruct (bool_decide _); cbn; [done|]. pose proof (get_mount_root_pres id (MkMountFds fds.(mfs_map)
    fds.(mfs_mount_info) fds.(mfs_mount_prefix) ({[id]} ∪ fds.(mfs_error_logged)), h)) as Hp.
  by destruct (get_mount_root _ _) as [s []].
Qed.

Lemma or_error_for_pres {A} id (m : hprog H A) : pres R0 m -> pres R (or_error_for id m).
Proof.
  intros Hm [fds h]. specialize (Hm h). unfold or_error_for.
  destruct (m h) as [h' []]; [done| |done]. etrans; [|apply error_for_pres]. done.
Qed.

(** The path [get_mount_root] returns was just read. *)
Lemma get_mount_root_reads id fds h :
  let '((fds', h'), r) := get_mount_root (H := H) id (fds, h) in
  match r with
  | Ok path => exists h1 text, R0 h h1 /\ sys sys_mountinfo_read h1 = (h', inr text) /\ mount_point_in text path
  | _ => R0 h h'
  end.
Proof.
  pose proof (get_mount_root_pres id (fds, h)) as Hp.
  destruct (get_mount_root id (fds, h)) as [[fds' h'] r] eqn:E. destruct r as [path|e|]; [|exact Hp..]. clear Hp. revert E.
  pose proof (calls_step (R := R0) _ sys_mountinfo_rewind h eq_refl) as H1.
  unfold get_mount_root, or_nolookup, error_for_nolookup, read_mountinfo, call, mbind, prog_mbind, prog_bind.
  destruct (sys sys_mountinfo_rewind h) as [h1 [e|[]]]; [by destruct (bool_decide _)|]. cbn in H1.
  destruct (sys sys_mountinfo_read h1) as [h2 [e|text]] eqn:Hr; [by destruct (bool_decide _)|].
  unfold to_str. destruct (utf8_valid _ text); [|by destruct (bool_decide _)]. cbn -[mount_path].
  destruct (mount_path text id) as [p|] eqn:Hm; [|by repeat case_match].
  intros [= <- <- <-]. exists h1, text. split_and!; [done..|]. by exists id, p, fds.(mfs_mount_prefix).
Qed.

Lemma error_for_bind {A B} id e (k : A -> prog (MountFds * H) MPRError B) : pres R (error_for (H := H) id e ≫= k).
Proof.
  intros s. pose proof (error_for_pres (A := A) id e s) as Hp. revert Hp. unfold mbind, prog_mbind, prog_bind, error_for, error_for_nolookup.
  destruct s as [fds h]. destruct (bool_decide _); cbn; [done|]. by destruct (get_mount_root _ _) as [s' []].
Qed.

Lemma open_mount_pres id reopen :
  (forall fd flags mode, pres R0 (reopen fd flags mode)) -> pres R (open_mount (H := H) id reopen).
Proof.
  intros Hr [fds h]. unfold open_mount. pose proof (get_mount_root_reads id fds h) as Hp.
  unfold mbind at 1, prog_mbind at 1, prog_bind at 1. destruct (get_mount_root id (fds, h)) as [[fds1 h1] [path|e|]]; [|exact Hp..].
  destruct Hp as (h0 & text & H0 & Hread & Hm). assert (R0 h0 h1) as H01.
  { pose proof (calls_step (R := R0) _ sys_mountinfo_read h0 eq_refl) as E. by rewrite Hread in E. }
  assert (forall A (m : prog (MountFds * H) MPRError A), pres R m -> R (fds, h) (m (fds1, h1)).1) as Hrest.
  { intros A m Hpm. specialize (Hpm (fds1, h1)). unfold snd_rel in *. cbn in *. by etrans; [|etrans]. }
  destruct (cstr_ok path); [|exact (Hrest _ _ (error_for_bind id (Simple InvalidInput) _))].
  pose proof (calls_mount (R := R0) h0 h1 text path Hread Hm) as Ho.
  match goal with |- R _ ((_ ≫= ?k) _).1 => change (R (fds, h) (k path (fds1, h1)).1) end. cbv beta.
  match goal with |- context [or_error_for id (call _) ≫= ?k] => assert (forall fd, pres R (k fd)) as Hk; [|revert Hk; generalize k] end.
  { intros fd. unfold validate_mount_id. repeat first [apply or_error_for_pres; [by prog_auto] | apply error_for_pres
               | apply or_error_for_pres; [by auto] | by intros ? | prog_step]. }
  intros k Hk. unfold or_error_for, call. revert Ho. destruct (sys (sys_open path O_PATH) h1) as [h2 [e|fd]] eqn:Es; intros Ho.
  - pose proof (error_for_bind id (Os e) k (fds1, h2)) as He. unfold mbind, prog_mbind, prog_bind in *. rewrite Es.
    unfold snd_rel in *. cbn in *. by etrans; [|etrans].
  - specialize (Hk fd (fds1, h2)). unfold mbind, prog_mbind, prog_bind. rewrite Es. unfold snd_rel in *. cbn in *. by etrans; [|etrans].
Qed.

Lemma into_openable_pres fh reopen :
  (forall fd flags mode, pres R0 (reopen fd flags mode)) -> pres R (into_openable (H := H) fh reopen).
Proof.
  intros Hr. unfold into_openable, MountFds_get. prog_step; [|prog_auto]. prog_step; [by intros s|].
  destruct a; [by intros s|]. prog_step.
  - apply open_mount_pres, Hr.
  - intros [fds h]. unfold insert_mount_fd. by case_match; unfold snd_rel; cbn.
Qed.
End mount_fds_calls.

#[export] Hint Extern 1 (pres ?R (create_open_existing _ ?ctx _ _)) => apply (create_open_existing_pres R ctx) : fuse.
#[export] Hint Extern 1 (pres inside (attempt _)) => apply attempt_inside; plain_op : fuse.
#[export] Hint Extern 1 (pres inside (create_file_excl _ _ _ _)) => apply create_file_excl_inside; assumption : fuse.
