(* ===== verification/PassthroughTable.v ===== *)
(** * The inode table of the passthrough file system

    What a request can do to the table of inodes is a step of the automaton
    [table_step]: a lookup, a forget, a change of anything else, or the
    installation of the root.  [do_lookup_spec] describes a lookup completely;
    every request is a sequence of steps. *)

From stdpp Require Import gmap.
From S2P Require Import Prelude Std Lib Codec AbiStruct Abi FsTypes FileSystem Vfs ProgLogic.
From S2P Require Import Host HostLaws InodeStore MountFds Passthrough PassthroughSync PassthroughProps.

(** ** Lookups *)

(** A lookup that found the host file [k] (with file handle [ho], attributes
    [st]) answers with inode number [i]: it takes one more reference on an
    inode of the table, or enters a new one. *)
Inductive looked_up (fs : PassthroughFs) (k : InodeId) (ho : option FileHandle) (st : stat64)
    : PassthroughFs -> Z -> Prop :=
| looked_known d :
    get_alt_locked fs.(pt_inodes) k ho = Some d ->
    d.(nd_refcount) <> 0 ->
    looked_up fs k ho st
      (set_inodes fs (store_refcount fs.(pt_inodes) d.(nd_inode) (Z.min U64_MAX (d.(nd_refcount) + 1))))
      d.(nd_inode)
| looked_new m handle fs' i :
    get_alt_locked fs.(pt_inodes) k ho = None ->
    InodeHandle_file_handle handle = ho ->
    allocate_inode k ho (set_mount_fds fs m) = (fs', Ok i) ->
    i <= VFS_MAX_INO ->
    looked_up fs k ho st
      (replace_inodes fs' (InodeStore_insert fs'.(pt_inodes) (MkInodeData i handle k 1 st.(st_mode)))) i.

(** A failed lookup may have used up an inode number or opened a mount. *)
Inductive spent (fs : PassthroughFs) : PassthroughFs -> Prop :=
| spent_mounts m : spent fs (set_mount_fds fs m)
| spent_number m k ho fs' r :
    get_alt_locked fs.(pt_inodes) k ho = None ->
    allocate_inode k ho (set_mount_fds fs m) = (fs', r) ->
    spent fs (replace_inodes fs' fs'.(pt_inodes)).

(** The identity of a host file and the attributes an entry reports. *)
Definition id_of_attr (k : InodeId) (st : stat64) : Prop :=
  k.(id_ino) = st.(st_ino) /\ k.(id_dev) = st.(st_dev).

Lemma allocate_inode_inodes k ho fs fs' r :
  allocate_inode k ho fs = (fs', r) -> fs'.(pt_inodes) = fs.(pt_inodes).
Proof.
  unfold allocate_inode. destruct (get_unique_inode k _) as [g u].
  intros Ha. by destruct_goal.
Qed.

Lemma get_unique_inode_no_panic k : no_panic (get_unique_inode k).
Proof.
  unfold get_unique_inode. prog_step; [|prog_step; [prog_step|]]; [|prog_auto| |prog_auto].
  - intros g. unfold get_unique_id. by repeat case_match.
  - intros g. unfold get_virtual_inode. by case_match.
Qed.

Lemma allocate_inode_total k ho fs : (allocate_inode k ho fs).2 <> Panic.
Proof.
  unfold allocate_inode. pose proof (get_unique_inode_no_panic k fs.(pt_ino_allocator)) as Hp.
  destruct (get_unique_inode k _) as [g u]. by repeat case_match.
Qed.

(** The search for a known inode. *)
Lemma lookup_search_spec n k ho fs :
  lookup_search (S n) k ho fs =
  match get_alt_locked fs.(pt_inodes) k ho with
  | None => (fs, Ok None)
  | Some d =>
    if d.(nd_refcount) =? 0 then (fs, Panic)
    else (set_inodes fs (store_refcount fs.(pt_inodes) d.(nd_inode) (Z.min U64_MAX (d.(nd_refcount) + 1))),
          Ok (Some d.(nd_inode)))
  end.
Proof.
  induction n as [|n IH]; cbn; destruct (get_alt_locked _ k ho) as [d|] eqn:Hd; try done;
    destruct (d.(nd_refcount) =? 0) eqn:Hr; try done.
  cbn in IH. rewrite Hd, Hr in IH. done.
Qed.

(** The host file a lookup of [name] in [parent] reaches. *)
Definition host_id {H : Type} `{Host H} (parent : Z) (name : CStr) (w : PassthroughFs * H) : option InodeId :=
  match InodeMap_get w.1.(pt_inodes) parent with
  | Ok dir =>
    match (lookup_open w.1 dir (lookup_name parent name) w.2).2 with
    | Ok (_, _, st) => Some (InodeId_from_stat st)
    | _ => None
    end
  | _ => None
  end.

Section lookup.
Context {H : Type} `{HO : HostOk H}.
Implicit Types (fs : PassthroughFs) (h : H).

Lemma new_inode_handle_spec ho fd fs h :
  match new_inode_handle ho fd (fs, h) with
  | ((fs', _), Ok handle) => (exists m, fs' = set_mount_fds fs m) /\ InodeHandle_file_handle handle = ho
  | ((fs', _), Err _) => exists m, fs' = set_mount_fds fs m
  | (_, Panic) => False
  end.
Proof.
  unfold new_inode_handle. destruct ho as [fh|].
  - unfold to_openable_handle, mbind, prog_mbind, prog_bind.
    set (reopen := fun fd flags (_ : Z) => reopen_fd_through_proc fd flags fs.(pt_proc_self_fd)).
    pose proof (into_openable_no_panic fh reopen ltac:(intros; apply openat_no_panic) (fs.(pt_mount_fds), h)) as Hp.
    destruct (into_openable fh reopen (fs.(pt_mount_fds), h)) as [[m h'] r] eqn:Hi.
    destruct r as [o|e|]; cbn; eauto. split; [eauto|].
    apply prog_bind_inv_ok in Hi as (s1 & mf & _ & Hi). cbv [mret prog_ret] in Hi. by simplify_eq/=.
  - cbn. split; [|done]. exists fs.(pt_mount_fds). by destruct fs.
Qed.

Lemma lookup_insert_spec k ho handle st m fs :
  get_alt_locked fs.(pt_inodes) k ho = None -> InodeHandle_file_handle handle = ho ->
  match lookup_insert k ho handle st (set_mount_fds fs m) with
  | (fs', Ok i) => looked_up fs k ho st fs' i
  | (fs', Err _) => spent fs fs'
  | (_, Panic) => False
  end.
Proof.
  intros Halt Hh. unfold lookup_insert. cbn [set_mount_fds pt_inodes]. rewrite Halt.
  pose proof (allocate_inode_total k ho (set_mount_fds fs m)) as Hp.
  destruct (allocate_inode k ho (set_mount_fds fs m)) as [fs' [i|e|]] eqn:Ha; [|by econstructor|done].
  destruct (VFS_MAX_INO <? i) eqn:Hi; [by econstructor|].
  apply Z.ltb_ge in Hi. by econstructor.
Qed.

Lemma lookup_open_no_panic fs d name : no_panic (lookup_open (H := H) fs d name).
Proof. unfold lookup_open. prog_auto. Qed.

Lemma lookup_open_handle fs d name h h' fd ho st :
  lookup_open fs d name h = (h', Ok (fd, ho, st)) ->
  fs.(pt_cfg).(cfg_inode_file_handles) = false -> ho = None.
Proof.
  intros Hr Hc. apply prog_bind_inv_ok in Hr as (h3 & df & _ & Hr).
  apply prog_bind_inv_ok in Hr as (h4 & pf & _ & Hr).
  apply prog_bind_inv_ok in Hr as (h5 & st' & _ & Hr). rewrite Hc in Hr.
  cbv [mret prog_ret mbind prog_mbind prog_bind] in Hr. by simplify_eq/=.
Qed.

Lemma spent_refl fs : spent fs fs.
Proof. replace fs with (set_mount_fds fs fs.(pt_mount_fds)) at 2 by by destruct fs. constructor. Qed.

Lemma lookup_number_spec fd ho st fs h :
  let k := InodeId_from_stat st in
  match lookup_number fd ho st (fs, h) with
  | ((fs', _), Ok i) => looked_up fs k ho st.(se_st) fs' i
  | ((fs', _), Err _) => spent fs fs'
  | ((fs', _), Panic) =>
      fs' = fs /\ exists d, get_alt_locked fs.(pt_inodes) k ho = Some d /\ d.(nd_refcount) = 0
  end.
Proof.
  intros k. unfold lookup_number. fold k.
  pose proof (lookup_search_spec 1 k ho fs) as Hs.
  destruct (get_alt_locked fs.(pt_inodes) k ho) as [d|] eqn:Halt.
  - destruct (d.(nd_refcount) =? 0) eqn:Hz; zify_bool.
    + rewrite (prog_bind_panic _ _ _ (fs, h)) by by apply on_fst_ok. eauto.
    + rewrite (prog_bind_ok _ _ _ _ _ (on_fst_ok _ _ _ _ _ Hs)). by apply looked_known.
  - rewrite (prog_bind_ok _ _ _ _ _ (on_fst_ok _ _ h _ _ Hs)).
    pose proof (new_inode_handle_spec ho fd fs h) as Hn.
    destruct (new_inode_handle ho fd (fs, h)) as [[fs1 h1] [handle|e|]] eqn:Hr.
    + destruct Hn as [[m ->] Hh]. rewrite (prog_bind_ok _ _ _ _ _ Hr).
      pose proof (lookup_insert_spec k ho handle st.(se_st) m fs Halt Hh) as Hi.
      unfold on_fst. cbn [fst snd]. by destruct (lookup_insert _ _ _ _ _) as [fs2 []].
    + destruct Hn as [m ->]. rewrite (prog_bind_err _ _ _ _ _ Hr). constructor.
    + done.
Qed.

(** [do_lookup] in full: on success one [looked_up] step and the entry built
    from the host's attributes; on failure the inodes are untouched; and it
    spins only on a table with a dead entry. *)
Lemma do_lookup_spec parent name fs h :
  match do_lookup parent name (fs, h) with
  | ((fs', _), Ok e) => exists k ho st,
      looked_up fs k ho st fs' e.(en_inode) /\ e = lookup_entry fs e.(en_inode) st /\ id_of_attr k st /\
      host_id parent name (fs, h) = Some k /\
      (fs.(pt_cfg).(cfg_inode_file_handles) = false -> ho = None)
  | ((fs', _), Err _) => spent fs fs'
  | ((fs', _), Panic) =>
      fs' = fs /\ exists k ho d, get_alt_locked fs.(pt_inodes) k ho = Some d /\ d.(nd_refcount) = 0
  end.
Proof.
  unfold do_lookup. rewrite (prog_bind_ok _ _ _ (fs, h) fs) by done.
  destruct (InodeMap_get fs.(pt_inodes) parent) as [d|e|] eqn:Hd;
    [|rewrite (prog_bind_err _ _ _ (fs, h) e) by done; apply spent_refl
     |by destruct (InodeMap_get_total fs.(pt_inodes) parent)].
  rewrite (prog_bind_ok _ _ _ (fs, h) d) by done.
  pose proof (lookup_open_no_panic fs d (lookup_name parent name) h) as Hp.
  destruct (lookup_open fs d (lookup_name parent name) h) as [h1 [[[fd ho] st]|e|]] eqn:Hr; [| |done].
  - rewrite (prog_bind_ok _ _ _ _ _ (on_snd_ok _ fs _ _ _ Hr)).
    pose proof (lookup_number_spec fd ho st fs h1) as Hn. cbn zeta in Hn.
    destruct (lookup_number fd ho st (fs, h1)) as [[fs2 h2] [i|e|]] eqn:Hl.
    + rewrite (prog_bind_ok _ _ _ _ _ Hl). cbn. exists (InodeId_from_stat st), ho, st.(se_st).
      assert (en_inode (lookup_entry fs i (se_st st)) = i) as -> by by (unfold lookup_entry; case_match).
      split_and!; [done..| |by eapply lookup_open_handle]. unfold host_id. cbn. by rewrite Hd, Hr.
    + by rewrite (prog_bind_err _ _ _ _ _ Hl).
    + rewrite (prog_bind_panic _ _ _ _ Hl). naive_solver.
  - rewrite (prog_bind_err _ _ _ _ _ (on_snd_ok _ fs _ _ _ Hr)). apply spent_refl.
Qed.
End lookup.

(** ** The automaton *)

Inductive table_step (fs : PassthroughFs) : PassthroughFs -> Prop :=
| step_lookup k ho st fs' i :
    looked_up fs k ho st fs' i ->
    (fs.(pt_cfg).(cfg_inode_file_handles) = false -> ho = None) ->
    table_step fs fs'
| step_spent fs' : spent fs fs' -> table_step fs fs'
| step_forget i n : table_step fs (forget_one fs i n)
| step_other fs' :
    fs'.(pt_inodes) = fs.(pt_inodes) -> fs'.(pt_next_inode) = fs.(pt_next_inode) ->
    fs'.(pt_ino_allocator) = fs.(pt_ino_allocator) -> fs'.(pt_mount_fds) = fs.(pt_mount_fds) ->
    fs'.(pt_cfg) = fs.(pt_cfg) ->
    table_step fs fs'.

(** Every inode of the table is stored under its number and is referenced, so
    no lookup waits for it to go away. *)
Definition table_live (fs : PassthroughFs) : Prop :=
  forall i d, fs.(pt_inodes).(sto_data) !! i = Some d -> d.(nd_inode) = i /\ 1 <= d.(nd_refcount).

(** A lookup by key finds an entry of the table. *)
Lemma get_alt_locked_some s k ho d :
  get_alt_locked s k ho = Some d -> exists i, s.(sto_data) !! i = Some d.
Proof.
  unfold get_alt_locked, get_by_id, get_by_handle, InodeStore_get. intros Hg.
  destruct (ho ≫= _) as [d1|] eqn:Hh.
  - destruct ho as [h|]; [|done]. cbn in Hh. destruct (inode_by_handle s h) as [i|]; [|done].
    exists i. cbn in Hh. by simplify_eq.
  - destruct (inode_by_id s k) as [i|]; [|done]. cbn in Hg.
    destruct (sto_data s !! i) as [d1|] eqn:Hd; [|done]. cbn in Hg. case_match; [|done]. simplify_eq. eauto.
Qed.

Lemma replace_inodes_inodes fs s : (replace_inodes fs s).(pt_inodes) = s.
Proof. done. Qed.

Lemma store_refcount_data s i n j d :
  (store_refcount s i n).(sto_data) !! j = Some d ->
  exists d0, s.(sto_data) !! j = Some d0 /\ d = if decide (i = j) then set_refcount d0 n else d0.
Proof.
  unfold store_refcount. cbn. destruct (decide (i = j)) as [->|Hne].
  - rewrite lookup_alter_eq. intros (d0 & -> & Hd)%fmap_Some. eauto.
  - rewrite lookup_alter_ne by done. eauto.
Qed.

Lemma looked_up_live fs k ho st fs' i : looked_up fs k ho st fs' i -> table_live fs -> table_live fs'.
Proof.
  intros [d Hd Hz|m handle fs2 j' Halt _ Ha _] Hl.
  - intros j d' (d0 & Hd0 & ->)%store_refcount_data. destruct (Hl _ _ Hd0) as [<- Hr].
    destruct (decide _); [|done]. cbn. split; [done|]. apply get_alt_locked_some in Hd as [j' Hj].
    destruct (Hl _ _ Hj). unfold U64_MAX. lia.
  - intros j d. cbn. rewrite (allocate_inode_inodes _ _ _ _ _ Ha). cbn.
    destruct (decide (j' = j)) as [->|Hne]; [rewrite lookup_insert_eq; intros [= <-]; cbn; lia|].
    rewrite lookup_insert_ne by done. apply Hl.
Qed.

Lemma table_live_step fs fs' : table_step fs fs' -> table_live fs -> table_live fs'.
Proof.
  intros Hs Hl. destruct Hs as [k ho st fs1 i Hlk _|fs1 Hsp|i n|fs1 Hi _ _ _ _].
  - by eapply looked_up_live.
  - destruct Hsp as [m|m k ho fs2 r _ Ha]; [apply Hl|]. intros j d. cbn.
    rewrite (allocate_inode_inodes _ _ _ _ _ Ha). apply Hl.
  - unfold forget_one. destruct (i =? ROOT_ID); [done|].
    unfold InodeStore_get. destruct (sto_data (pt_inodes fs) !! i) as [d|] eqn:Hd; [|done].
    destruct (Z.eqb_spec (saturating_sub (nd_refcount d) n) 0) as [Hz|Hz].
    + intros j d' Hj. apply Hl. revert Hj. cbn. unfold InodeStore_remove.
      case_match; cbn; [by intros [_ ?]%lookup_delete_Some|]. rewrite Hd. cbn. by intros [_ ?]%lookup_delete_Some.
    + intros j d' (d0 & Hd0 & ->)%store_refcount_data. destruct (Hl _ _ Hd0) as [<- Hr].
      destruct (decide _); [|done]. cbn. split; [done|]. unfold saturating_sub in *. lia.
  - unfold table_live. by rewrite Hi.
Qed.

Lemma table_live_steps fs fs' : rtc table_step fs fs' -> table_live fs -> table_live fs'.
Proof. induction 1; eauto using table_live_step. Qed.

Lemma table_step_cfg fs fs' : table_step fs fs' -> fs'.(pt_cfg) = fs.(pt_cfg).
Proof.
  assert (forall k ho m fs' r, allocate_inode k ho (set_mount_fds fs m) = (fs', r) -> fs'.(pt_cfg) = fs.(pt_cfg)) as Ha.
  { intros k ho m fs1 r. unfold allocate_inode. destruct (get_unique_inode k _). intros Hr. by destruct_goal. }
  destruct 1 as [k ho st fs1 i [d Hd Hz|m handle fs2 j Halt _ Hal _] _|fs1 [m|m k ho fs2 r _ Hal]|i n|fs1 Hi _ _ _ Hc];
    try done; cbn; eauto.
  unfold forget_one. by repeat case_match.
Qed.
