(* ===== verification/PassthroughRequests.v ===== *)
(** * Every request of the passthrough file system

    The handlers of [PassthroughSync] as sequences of steps of the inode table
    ([PassthroughTable]), without panics, and giving the credentials back. *)

From stdpp Require Import gmap.
From S2P Require Import Prelude Std Lib Codec AbiStruct Abi FsTypes FileSystem Vfs ServerWire ProgLogic.
From S2P Require Import Host HostLaws InodeStore MountFds Passthrough PassthroughSync PassthroughProps.
From S2P Require Import PassthroughTable.

(** A directory scan moves the state as its callback does. *)
Lemma readdir_loop_pres {S} (R : relation S) `{!PreOrder R} fuel (add_entry : DirEntry -> prog S io_error Z) n rem :
  (forall d, pres R (add_entry d)) -> pres R (readdir_loop fuel add_entry n rem).
Proof.
  intros Ha. revert rem. induction fuel as [|fuel IH]; intros rem s; [done|].
  cbn [readdir_loop]. destruct rem as [|b rem]; [done|].
  destruct (LinuxDirent64_from_slice _) as [d|]; [|done]. cbn zeta.
  destruct (_ <? _); [done|].
  set (next := readdir_next _ _).
  assert (forall s' r, R s' (next s' r).1) as Hn.
  { intros s' [m|e|]; cbn; [|by case_match|done]. case_match; [done|apply IH]. }
  clearbody next. destruct (_ || _); [apply Hn|].
  destruct (bytes_to_cstr _) as [name|e|]; [|done|done].
  specialize (Ha (MkDirEntry d.(ld_ino) (wrap 64 d.(ld_off)) d.(ld_ty) name) s).
  destruct (add_entry _ s) as [s' r]. etrans; [done|apply Hn].
Qed.

(** ** Steps of the table *)

Abbreviation table_steps := (rtc table_step).

(** The requests that start or end a session are treated apart. *)
Definition session_op {A} (op : FsOp A) : bool :=
  match op with op_init _ | op_destroy => true | _ => false end.

Section table.
Context {H : Type} `{HO : HostOk H}.

Abbreviation T := (fst_rel (T := H) table_steps).

Lemma do_lookup_table parent name : pres T (do_lookup (H := H) parent name).
Proof.
  intros [fs h]. pose proof (do_lookup_spec parent name fs h) as Hs.
  destruct (do_lookup parent name (fs, h)) as [[fs' h'] [e|e|]]; unfold fst_rel; cbn.
  - destruct Hs as (k & ho & st & Hl & _ & _ & _ & Hho). by eapply rtc_once, step_lookup.
  - by apply rtc_once, step_spent.
  - by destruct Hs as [-> _].
Qed.

Lemma forget_table fs i n : table_steps fs (forget_one fs i n).
Proof. apply rtc_once, step_forget. Qed.

Lemma set_handles_table fs m n : table_steps fs (set_handles fs m n).
Proof. by apply rtc_once, step_other. Qed.

Lemma insert_handle_table d : pres T (insert_handle (H := H) d).
Proof. apply pres_fst_fst. intros fs. apply set_handles_table. Qed.

Lemma do_release_table i handle : pres T (do_release (H := H) i handle).
Proof. apply pres_fst_fst. intros fs. destruct (HandleMap_release _ _ _). apply set_handles_table. Qed.

Lemma check_fd_flags_table slot d flags : pres T (check_fd_flags (H := H) slot d flags).
Proof.
  unfold check_fd_flags. prog_step; [prog_auto|]. prog_step; [prog_auto|].
  apply pres_fst_fst, pres_modify. intros fs. destruct slot; [apply set_handles_table|done].
Qed.

Lemma forget_all_table (reqs : list (Z * Z)) fs :
  table_steps fs (foldl (fun fs r => forget_one fs r.1 r.2) fs reqs).
Proof.
  revert fs. induction reqs as [|r reqs IH]; intros fs; [done|]. cbn. etrans; [apply forget_table|apply IH].
Qed.

Lemma pt_batch_forget_table reqs : pres T (pt_batch_forget (H := H) reqs).
Proof. apply pres_fst_fst, pres_modify, forget_all_table. Qed.

#[local] Hint Resolve do_lookup_table insert_handle_table do_release_table check_fd_flags_table
  pt_batch_forget_table : fuse.

Lemma pt_validated_pres {A} (R : relation (PassthroughFs * H)) `{!PreOrder R} name
    (m : PassthroughFs -> prog (PassthroughFs * H) io_error A) :
  (forall fs, pres R (m fs)) -> pres R (pt_validated name m).
Proof. intros Hm. unfold pt_validated. prog_auto. Qed.

Lemma do_open_table i flags fuse_flags : pres T (do_open (H := H) i flags fuse_flags).
Proof. unfold do_open, get_fs. prog_auto. Qed.

#[local] Hint Resolve do_open_table : fuse.

(** Every request but [INIT] and [DESTROY] is a sequence of steps of the
    inode table. *)
Lemma pt_op_table (A : Set) (op : FsOp A) : session_op op = false -> pres T (pt_op (H := H) A op).
Proof.
  intros Hop. destruct op; try done; cbn [pt_op default_op];
    unfold reading, get_fs, pt_lookup, pt_forget, pt_symlink, pt_mknod, pt_mkdir, pt_unlink, pt_rmdir, pt_rename,
      pt_link, pt_open, pt_create, pt_release, pt_opendir, pt_releasedir, get_fs;
    repeat (apply pt_validated_pres; [apply _|intros ?]); prog_auto.
  apply pres_modify. intros fs. apply forget_table.
Qed.
End table.

(** ** Sequences of requests

    [served w w']: the file system, with its host, went from [w] to [w'] by
    serving requests of a running session. *)
Inductive request {H : Type} `{Host H} (w : PassthroughFs * H) : PassthroughFs * H -> Prop :=
| req_op (A : Set) (op : FsOp A) : session_op op = false -> request w (fs_op op w).1
| req_read ctx inode handle available size offset lock_owner flags :
    request w (fs_read ctx inode handle available size offset lock_owner flags w).1
| req_write ctx inode handle data size offset lock_owner delayed flags fuse_flags :
    request w (fs_write ctx inode handle data size offset lock_owner delayed flags fuse_flags w).1
| req_readdir X ctx inode handle size offset (add_entry : add_entry_t X) (x : X) :
    request w (fs_readdir ctx inode handle size offset add_entry (w, x)).1.1
| req_readdirplus X ctx inode handle size offset (add_entry : add_entry_plus_t X) (x : X) :
    request w (fs_readdirplus ctx inode handle size offset add_entry (w, x)).1.1.

Abbreviation served := (rtc request).

Section requests.
Context {H : Type} `{HO : HostOk H}.

Lemma pt_write_table ctx inode handle data size offset lo dw flags fuse_flags :
  pres (fst_rel table_steps) (pt_write (H := H) ctx inode handle data size offset lo dw flags fuse_flags).
Proof.
  unfold pt_write, get_fs. prog_step; [prog_auto|]. prog_step; [prog_auto|].
  prog_step; [apply check_fd_flags_table|prog_auto].
Qed.

Lemma do_readdir_table {X} i handle size offset (add : DirEntry -> prog ((PassthroughFs * H) * X) io_error Z) :
  (forall d, pres (fst_rel (fst_rel table_steps)) (add d)) ->
  pres (fst_rel (fst_rel table_steps)) (do_readdir i handle size offset add).
Proof.
  intros Ha. unfold do_readdir, get_fs. prog_step; [prog_auto|]. prog_step; [prog_auto|].
  prog_step; [prog_auto|]. by apply readdir_loop_pres; [apply _|].
Qed.

Lemma readdir_entry_table {X} i (add : add_entry_t X) d :
  pres (fst_rel (fst_rel table_steps)) (readdir_entry (H := H) i add d).
Proof.
  unfold readdir_entry, entry_name. prog_step; [prog_auto|]. prog_step; [apply pres_fst_fst, do_lookup_table|].
  prog_step; [|prog_auto]. do 2 prog_step. apply pres_modify. intros fs. apply forget_table.
Qed.

Lemma readdirplus_entry_table {X} i (add : add_entry_plus_t X) d :
  pres (fst_rel (fst_rel table_steps)) (readdirplus_entry (H := H) i add d).
Proof.
  unfold readdirplus_entry, entry_name. prog_step; [prog_auto|]. prog_step; [apply pres_fst_fst, do_lookup_table|].
  prog_step; [prog_auto|]. prog_step; [|prog_auto]. prog_step; [|prog_auto].
  do 2 prog_step. apply pres_modify. intros fs. apply forget_table.
Qed.

Lemma request_table (w w' : PassthroughFs * H) : request w w' -> table_steps w.1 w'.1.
Proof.
  destruct 1 as [A op Hop| | |X ctx i handle size offset add x|X ctx i handle size offset add x]; cbn.
  - by apply pt_op_table.
  - unfold pt_read. set (m := get_fs ≫= _).
    assert (pres (fst_rel table_steps) m) as Hm.
    { unfold m, get_fs. prog_step; [prog_auto|]. prog_step; [prog_auto|].
      prog_step; [apply check_fd_flags_table|prog_auto]. }
    specialize (Hm w). by destruct (m w) as [w' []].
  - apply pt_write_table.
  - unfold pt_readdir, get_fs. set (m := on_fst _ ≫= _).
    assert (pres (fst_rel (fst_rel table_steps)) m) as Hm; [|apply (Hm (w, x))].
    unfold m. prog_step; [prog_auto|]. prog_step; [prog_auto|].
    apply do_readdir_table, readdir_entry_table.
  - unfold pt_readdirplus, get_fs. set (m := on_fst _ ≫= _).
    assert (pres (fst_rel (fst_rel table_steps)) m) as Hm; [|apply (Hm (w, x))].
    unfold m. prog_step; [prog_auto|]. prog_step; [prog_auto|].
    apply do_readdir_table, readdirplus_entry_table.
Qed.

Lemma served_table (w w' : PassthroughFs * H) : served w w' -> table_steps w.1 w'.1.
Proof. induction 1 as [|w1 w2 w3 H12 _ IH]; [done|]. etrans; [by apply request_table|done]. Qed.
End requests.

(** ** Calls on the host *)

Section calls.
Context {H : Type} `{HOST : Host H} (R : relation H) {N : CStr -> bool} (ctx : Context).
Context `{SC : !Scoped R N ctx.(cx_uid) ctx.(cx_gid)}.

Abbreviation C := (snd_rel (S := PassthroughFs) R).

Lemma new_inode_handle_calls ho fd : pres C (new_inode_handle ho fd).
Proof.
  unfold new_inode_handle. destruct ho as [fh|]; [|prog_auto]. prog_step; [|prog_auto].
  intros [fs h]. unfold to_openable_handle.
  set (reopen := fun fd flags (_ : Z) => reopen_fd_through_proc fd flags fs.(pt_proc_self_fd)).
  pose proof (into_openable_pres R fh reopen ltac:(intros; apply (reopen_pres R)) (fs.(pt_mount_fds), h)) as Hp.
  by destruct (into_openable fh reopen _) as [[m h'] r].
Qed.

Lemma lookup_open_calls fs d name : N name = true -> pres R (lookup_open (H := H) fs d name).
Proof. intros Hn. unfold lookup_open. prog_auto. Qed.

#[local] Hint Resolve new_inode_handle_calls : fuse.

Lemma do_lookup_calls parent name : N name = true -> pres C (do_lookup parent name).
Proof.
  intros Hn. unfold do_lookup, lookup_number, get_fs. prog_step; [prog_auto|]. prog_step; [prog_auto|].
  prog_step; [|prog_auto]. apply pres_snd_snd, lookup_open_calls. unfold lookup_name. case_match; [apply scoped_dot|done].
Qed.

Lemma insert_handle_calls d : pres C (insert_handle d).
Proof. unfold insert_handle. prog_auto. Qed.

Lemma check_fd_flags_calls slot d flags : pres C (check_fd_flags slot d flags).
Proof. unfold check_fd_flags. prog_auto. Qed.

#[local] Hint Resolve do_lookup_calls insert_handle_calls check_fd_flags_calls : fuse.

Lemma do_open_calls i flags fuse_flags : pres C (do_open i flags fuse_flags).
Proof. unfold do_open, get_fs. prog_auto. Qed.

#[local] Hint Resolve do_open_calls : fuse.
#[local] Hint Extern 1 (pres R (pt_setattr _ _ _ _ _)) => apply (pt_setattr_pres R ctx) : fuse.

Lemma pt_validated_calls {A} name (m : PassthroughFs -> prog (PassthroughFs * H) io_error A) w :
  (pt_validate_path_component w.1 name = Ok tt -> C w (m w.1 w).1) -> C w (pt_validated name m w).1.
Proof.
  intros Hm. unfold pt_validated. rewrite (prog_bind_ok _ _ w w w.1) by done.
  unfold mbind, prog_mbind, prog_bind, lift. destruct (pt_validate_path_component w.1 name) as [[]|e|]; [by apply Hm|done|done].
Qed.

(** Every request but [INIT] and [DESTROY], with checked names, makes no other
    calls. *)
Lemma pt_op_calls (A : Set) (op : FsOp A) w :
  session_op op = false -> op_context op = ctx ->
  (forall name, pt_validate_path_component w.1 name = Ok tt -> N name = true) ->
  (forall name, contains SLASH_ASCII (to_bytes_with_nul name) = false -> N name = true) ->
  C w (pt_op A op w).1.
Proof.
  intros Hop Hctx Hv Hs. revert w Hv.
  assert (forall m : prog (PassthroughFs * H) io_error A, pres C m -> forall w : PassthroughFs * H,
    (forall name, pt_validate_path_component w.1 name = Ok tt -> N name = true) -> C w (m w).1) as Hall by auto.
  destruct op; try done; cbn [pt_op default_op op_context] in *; subst;
    unfold reading, get_fs, pt_lookup, pt_forget, pt_batch_forget, pt_symlink, pt_mknod, pt_mkdir,
      pt_unlink, pt_rmdir, pt_rename, pt_link, pt_open, pt_create, pt_release, pt_opendir, pt_releasedir,
      do_release, pt_readlink, pt_flush, pt_fsyncdir, pt_fsync, pt_fallocate, pt_statfs, pt_setxattr, pt_getxattr,
      pt_listxattr, pt_removexattr, pt_access, pt_lseek, get_fs;
    try (apply Hall; solve [prog_auto]); intros w Hv.
  1: { destruct (contains _ _) eqn:Hc; [done|]. by apply do_lookup_calls, Hs. }
  all: repeat (apply pt_validated_calls; intros ?%Hv);
    match goal with |- C ?w (?m ?w).1 => assert (pres C m) as Hm by prog_auto; apply Hm end.
Qed.
End calls.

(** ** Credentials *)

Section creds.
Context {H : Type} `{HC : HostCreds H}.

Abbreviation C := (snd_rel (S := PassthroughFs) (creds_back (H := H))).

Lemma do_lookup_creds parent name : pres C (do_lookup parent name).
Proof. by apply (do_lookup_calls creds_back Context_new). Qed.

Lemma import_creds : pres C import.
Proof.
  unfold import, get_fs. prog_auto.
  - by apply (new_inode_handle_calls creds_back Context_new).
  - apply pres_modify. intros [fs h]. unfold snd_rel. cbn. reflexivity.
Qed.

#[local] Hint Resolve do_lookup_creds import_creds : fuse.

(** Every method puts the credentials back, [INIT] and [DESTROY] included. *)
Lemma pt_op_creds (A : Set) (op : FsOp A) : pres C (pt_op A op).
Proof.
  destruct (session_op op) eqn:Hop; [|intros w; by apply (pt_op_calls creds_back (op_context op))].
  destruct op; try done; cbn [pt_op].
  - unfold pt_init, get_fs. prog_auto.
  - intros [fs h]. unfold pt_destroy. set (fs' := replace_inodes _ _).
    pose proof (import_creds (fs', h)) as Hi. by destruct (import (fs', h)) as [w []].
Qed.

Lemma check_fd_flags_creds slot d flags : pres C (check_fd_flags slot d flags).
Proof. apply (check_fd_flags_calls creds_back Context_new). Qed.

#[local] Hint Resolve check_fd_flags_creds : fuse.

Lemma request_creds (w w' : PassthroughFs * H) : request w w' -> creds_back w.2 w'.2.
Proof.
  destruct 1 as [A op Hop| | |X ctx i handle size offset add x|X ctx i handle size offset add x]; cbn.
  - apply pt_op_creds.
  - unfold pt_read. set (m := get_fs ≫= _). assert (pres C m) as Hm by (unfold m, get_fs; prog_auto).
    specialize (Hm w). by destruct (m w) as [w' []].
  - assert (pres C (pt_write ctx inode handle data size offset lock_owner delayed flags fuse_flags)) as Hm;
      [|apply (Hm w)]. unfold pt_write, get_fs. prog_auto.
  - assert (pres (fst_rel C) (pt_readdir (X := X) ctx i handle size offset add)) as Hm; [|apply (Hm (w, x))].
    unfold pt_readdir, do_readdir, get_fs. prog_auto. apply readdir_loop_pres; [apply _|].
    intros d. unfold readdir_entry, entry_name. prog_auto.
  - assert (pres (fst_rel C) (pt_readdirplus (X := X) ctx i handle size offset add)) as Hm; [|apply (Hm (w, x))].
    unfold pt_readdirplus, do_readdir, get_fs. prog_auto. apply readdir_loop_pres; [apply _|].
    intros d. unfold readdirplus_entry, entry_name. prog_auto.
Qed.
End creds.
