(* ===== verification/PassthroughDir.v ===== *)
(** * Directory scans of the passthrough file system

    [readdir_loop] parses the records [getdents64] wrote and calls back on
    each; on a buffer of well-formed records it is the plain iteration
    [scan_records] over them.  The second part shows that the states with a live
    table are a file system that keeps the promises the server relies on. *)

From stdpp Require Import gmap.
From S2P Require Import Prelude Std Lib Codec Abi AbiStruct FsTypes FileSystem Vfs ProgLogic Host HostLaws InodeStore.
From S2P Require Import MountFds Passthrough PassthroughSync PassthroughProps PassthroughTable PassthroughRequests.

(** The entry a record stands for, and the two records that are skipped. *)
Definition record_entry (r : HostDirent) : DirEntry :=
  MkDirEntry r.(hde_ino) (wrap 64 r.(hde_off)) r.(hde_ty) r.(hde_name).

Definition record_dot (r : HostDirent) : bool := beq r.(hde_name) [46] || beq r.(hde_name) [46; 46].

(** The iteration over the records: an error of the callback is reported when
    it comes from the first record and ends the scan quietly otherwise. *)
Fixpoint scan_records {S : Type} (add_entry : DirEntry -> prog S io_error Z) (at_first : bool)
    (records : list HostDirent) : prog S io_error unit := fun s =>
  match records with
  | [] => (s, Ok tt)
  | r :: records' =>
    if record_dot r then scan_records add_entry false records' s
    else
      let '(s', res) := add_entry (record_entry r) s in
      match res with
      | Ok n => if n =? 0 then (s', Ok tt) else scan_records add_entry false records' s'
      | Err e => (s', if at_first then Err e else Ok tt)
      | Panic => (s', Panic)
      end
  end.

(** ** Parsing *)

Lemma dirent_image_length r : zlen (dirent_image r) = hde_reclen r.
Proof.
  unfold dirent_image, hde_reclen. rewrite !zlen_app. unfold zlen. rewrite encode_length by done.
  rewrite repeat_length. cbn. lia.
Qed.

Lemma hde_ok_reclen r : hde_ok r = true -> 20 <= hde_reclen r < 2 ^ 16.
Proof.
  unfold hde_ok, dirent64_layout. cbn [fields_ok field_ok]. rewrite !andb_true_iff, !Z.leb_le, !Z.ltb_lt.
  change (8 * Z.of_nat 2) with 16. intros Hok. split; [|tauto].
  unfold hde_reclen. pose proof (zlen_nonneg r.(hde_name)). lia.
Qed.

Lemma from_slice_image r :
  hde_ok r = true ->
  LinuxDirent64_from_slice (encode dirent64_layout [r.(hde_ino); r.(hde_off); hde_reclen r; r.(hde_ty)]) =
  Some (MkLinuxDirent64 r.(hde_ino) r.(hde_off) (hde_reclen r) r.(hde_ty)).
Proof.
  intros Hok. unfold LinuxDirent64_from_slice. rewrite encode_length by done. cbn [Nat.eqb].
  unfold hde_ok in Hok. apply andb_true_iff in Hok as [[Hf _]%andb_true_iff _].
  pose proof (decode_encode dirent64_layout _ [] Hf) as Hd. rewrite app_nil_r in Hd. by rewrite Hd.
Qed.

(** The name field starts with ["."] or [".."] and a nul exactly for the two
    special entries. *)
Lemma starts_with_name p (name pad : bytes) :
  cstr_ok p = true -> cstr_ok name = true -> starts_with (p ++ [0]) (name ++ 0 :: pad) = beq name p.
Proof.
  unfold cstr_ok. revert name. induction p as [|x p IH]; intros [|y name] Hp Hn; cbn -[Z.eqb] in *; try done.
  - apply andb_true_iff in Hn as [Hy _]. by destruct (0 =? y).
  - apply andb_true_iff in Hp as [Hx _]. rewrite Z.eqb_sym. by destruct (0 =? x).
  - apply andb_true_iff in Hp as [_ Hp]. apply andb_true_iff in Hn as [_ Hn].
    rewrite Z.eqb_sym. by destruct (y =? x); [apply IH|].
Qed.

Lemma readdir_loop_step {S} fuel (add : DirEntry -> prog S io_error Z) n r rest s :
  hde_ok r = true ->
  readdir_loop (Datatypes.S fuel) add n (dirent_image r ++ rest) s =
  let next := readdir_next (readdir_loop fuel add n rest) (length (dirent_image r ++ rest) =? n)%nat in
  if record_dot r then next s (Ok 1) else let '(s', res) := add (record_entry r) s in next s' res.
Proof.
  intros Hok. pose proof (hde_ok_reclen r Hok) as Hlen. pose proof (from_slice_image r Hok) as Hfs.
  assert (cstr_ok r.(hde_name) = true) as Hname.
  { unfold hde_ok in Hok. by apply andb_true_iff in Hok as [[_ ?]%andb_true_iff _]. }
  set (hd := encode dirent64_layout _) in Hfs.
  set (nm := r.(hde_name) ++ repeat 0 (Datatypes.S r.(hde_pad))).
  assert (dirent_image r = hd ++ nm) as Himg by done.
  assert (length hd = 19%nat) as Hhd by by apply encode_length.
  assert (zlen nm = hde_reclen r - 19) as Hnm.
  { pose proof (dirent_image_length r) as Hl. rewrite Himg, zlen_app in Hl. unfold zlen at 1 in Hl. lia. }
  destruct (dirent_image r ++ rest) as [|b l] eqn:Hbuf.
  { rewrite Himg in Hbuf. destruct hd; done. }
  cbn [readdir_loop]. rewrite <- Hbuf, Himg, <- app_assoc.
  rewrite (take_app_length' hd) by done. rewrite (drop_app_length' hd) by done. rewrite Hfs. cbn zeta.
  cbn [ld_reclen ld_ino ld_off ld_ty].
  rewrite wrap_small by (unfold in_u; lia).
  rewrite (proj2 (Z.ltb_ge _ _)) by (rewrite zlen_app; pose proof (zlen_nonneg rest); lia).
  rewrite (take_Z_len nm) by done.
  assert (drop (Z.to_nat (hde_reclen r)) (hd ++ nm ++ rest) = rest) as ->.
  { rewrite app_assoc. apply drop_Z_len. rewrite <- Himg. apply dirent_image_length. }
  unfold nm. cbn [repeat].
  change CURRENT_DIR_CSTR with ([46] ++ [0]). change PARENT_DIR_CSTR with ([46; 46] ++ [0]).
  rewrite !starts_with_name by done. fold (record_dot r). destruct (record_dot r); [done|].
  rewrite bytes_to_cstr_app by done. done.
Qed.

Lemma records_length records :
  Forall (fun r => hde_ok r = true) records -> 20 * zlen records <= zlen (concat (map dirent_image records)).
Proof.
  induction 1 as [|r records Hr _ IH]; [done|]. cbn [map concat]. rewrite zlen_app, dirent_image_length.
  pose proof (hde_ok_reclen r Hr). unfold zlen in *. cbn [length]. lia.
Qed.

(** The loop on the records of a whole buffer. *)
Lemma readdir_loop_scan {S} fuel (add : DirEntry -> prog S io_error Z) n records s :
  Forall (fun r => hde_ok r = true) records ->
  (length records < fuel)%nat ->
  (length (concat (map dirent_image records)) <= n)%nat ->
  readdir_loop fuel add n (concat (map dirent_image records)) s =
  scan_records add (length (concat (map dirent_image records)) =? n)%nat records s.
Proof.
  intros Hok. revert fuel s. induction Hok as [|r records Hr _ IH]; intros fuel s Hf Hn.
  - by destruct fuel; [cbn in Hf; lia|].
  - destruct fuel as [|fuel]; [cbn in Hf; lia|]. cbn [map concat] in *.
    rewrite readdir_loop_step by done. cbn zeta. cbn [scan_records].
    pose proof (hde_ok_reclen r Hr) as Hlen. pose proof (dirent_image_length r) as Hl. unfold zlen in Hl.
    rewrite length_app in *.
    assert (forall s, readdir_loop fuel add n (concat (map dirent_image records)) s =
                      scan_records add false records s) as Hrec.
    { intros s'. rewrite IH by (cbn in Hf; lia). f_equal. apply Nat.eqb_neq. lia. }
    destruct (record_dot r); [cbn; apply Hrec|].
    destruct (add (record_entry r) s) as [s' res]. unfold readdir_next. destruct res; [|by case_match|done].
    case_match; [done|apply Hrec].
Qed.

Section scan.
Context {H : Type} `{HO : HostOk H}.
Implicit Types (fs : PassthroughFs) (h : H).

(** [do_readdir] fails before the first callback or iterates over the records
    of the host. *)
Lemma do_readdir_cases {X} i handle size offset (add : DirEntry -> prog ((PassthroughFs * H) * X) io_error Z) fs h x :
  exists h',
  (exists r, do_readdir i handle size offset add (fs, h, x) = ((fs, h', x), r) /\ r <> Panic) \/
  (exists records, Forall (fun r => hde_ok r = true) records /\ (0 <= size -> 20 * zlen records <= size) /\
     do_readdir i handle size offset add (fs, h, x) = scan_records add true records (fs, h', x)).
Proof.
  unfold do_readdir. destruct (size =? 0); [exists h; left; by exists (Ok tt)|].
  rewrite (prog_bind_ok _ _ _ (fs, h, x) fs) by done.
  set (m := get_dirdata fs handle i O_RDONLY ≫= _).
  assert (no_panic m) as Hm by (unfold m; prog_auto). specialize (Hm h).
  destruct (m h) as [h' [buf|e|]] eqn:Hr; [| |done]; exists h'.
  - right. rewrite (prog_bind_ok _ _ _ (fs, h', x) buf).
    2:{ unfold on_fst at 1. cbn. by rewrite (on_snd_ok _ _ _ _ _ Hr). }
    apply prog_bind_inv_ok in Hr as (h1 & d & _ & Hr). apply prog_bind_inv_ok in Hr as (h2 & off & _ & Hr).
    unfold call in Hr. destruct (sys (sys_getdents64 _ _) h2) as [h3 [e|b]] eqn:Hs; simplify_eq.
    apply (f_equal snd), host_getdents in Hs as (Hlen & records & Hok & ->). exists records. split; [done|].
    pose proof (records_length records Hok) as Hr. unfold zlen in Hlen, Hr |- *.
    split; [intros Hsize; pose proof (signed_le 32 size ltac:(done) Hsize); lia|]. rewrite readdir_loop_scan, Nat.eqb_refl; [done|done|lia|done].
  - left. exists (Err e). split; [|done]. rewrite (prog_bind_err _ _ _ (fs, h', x) e); [done|].
    unfold on_fst at 1. cbn. by rewrite (on_snd_ok _ _ _ _ _ Hr).
Qed.
End scan.

Lemma scan_records_safe {S} (I : S -> Prop) (add : DirEntry -> prog S io_error Z) b records :
  (forall d, d.(d_name) <> [] -> safe I (add d)) ->
  Forall (fun r => hde_ok r = true) records -> safe I (scan_records add b records).
Proof.
  intros Ha Hok. revert b. induction Hok as [|r records Hr _ IH]; intros b s Hs; [done|]. cbn.
  destruct (record_dot r); [by apply IH|].
  assert (d_name (record_entry r) <> []) as Hn.
  { unfold hde_ok in Hr. apply andb_true_iff in Hr as [_ Hr]. cbn. by destruct (hde_name r). }
  specialize (Ha _ Hn s Hs) as [HI Hp]. destruct (add (record_entry r) s) as [s' [n|e|]]; cbn in *; [|by case_match|done].
  case_match; [done|by apply IH].
Qed.

(** An indexed invariant that a callback uses up one by one. *)
Lemma scan_records_count {S} (J : Z -> S -> Prop) (add : DirEntry -> prog S io_error Z) b records s :
  (forall n m s, 0 <= m <= n -> J n s -> J m s) ->
  (forall n d s, 0 <= n -> J (n + 1) s -> J n (add d s).1) ->
  J (zlen records) s -> J 0 (scan_records add b records s).1.
Proof.
  intros Hle Ha. revert b s. induction records as [|r records IH]; intros b s Hj; [done|].
  rewrite zlen_cons in Hj. pose proof (zlen_nonneg records). cbn.
  destruct (record_dot r); [apply IH; eapply Hle; [|done]; lia|].
  specialize (Ha (zlen records) (record_entry r) s ltac:(done) ltac:(by rewrite Z.add_comm)).
  destruct (add (record_entry r) s) as [s' res]. cbn in Ha.
  assert (J 0 s') as Hz by (eapply Hle; [|done]; lia).
  destruct res; [|done..]. case_match; [done|by apply IH].
Qed.

(** * The passthrough file system as a [FileSystem]

    Starting from a live table, no method panics, and the table stays live.
    So the states with a live table form a file system of their own,
    [Passthrough], which keeps the promises the server relies on. *)

(** The table is live and the configured root is a C string. *)
Definition pt_live (fs : PassthroughFs) : Prop :=
  table_live fs /\ cstr_ok fs.(pt_cfg).(cfg_root_dir) = true.

Lemma pt_live_steps fs fs' : table_steps fs fs' -> pt_live fs -> pt_live fs'.
Proof.
  intros Hs [Hl Hc]. split; [by eapply table_live_steps|].
  assert (fs'.(pt_cfg) = fs.(pt_cfg)) as ->; [|done].
  clear -Hs. induction Hs as [|fs1 fs2 fs3 H12 _ IH]; [done|]. rewrite IH. by apply table_step_cfg.
Qed.

Section serve.
Context {H : Type} `{HO : HostOk H}.
Implicit Types (fs : PassthroughFs) (h : H).

Definition live (w : PassthroughFs * H) : Prop := pt_live w.1.

Lemma live_on_snd {A} (m : hprog H A) : no_panic m -> safe live (on_snd m).
Proof. apply safe_on_snd. Qed.

Lemma live_on_fst {A} (m : prog PassthroughFs io_error A) : safe pt_live m -> safe live (on_fst m).
Proof. apply safe_on_fst. Qed.

Lemma live_get_fs : safe live get_fs.
Proof. by intros [fs h]. Qed.

Lemma do_lookup_live parent name : safe live (do_lookup parent name).
Proof.
  intros [fs h] Hl. split.
  - eapply pt_live_steps; [apply (do_lookup_table parent name (fs, h))|done].
  - pose proof (do_lookup_spec parent name fs h) as Hs.
    destruct (do_lookup parent name (fs, h)) as [[fs' h'] [e|e|]]; [done..|]. intros _.
    destruct Hs as (_ & k & ho & d & (i & Hi)%get_alt_locked_some & Hz).
    destruct Hl as [Hl _]. destruct (Hl _ _ Hi). lia.
Qed.

Lemma modify_live (f : PassthroughFs -> PassthroughFs) :
  (forall fs, table_steps fs (f fs)) -> safe pt_live (modify f : prog PassthroughFs io_error unit).
Proof. intros Hf. apply safe_modify. intros fs. by apply pt_live_steps. Qed.

Lemma insert_handle_live d : safe live (insert_handle d).
Proof.
  intros [fs h] Hl. split; [|done]. eapply pt_live_steps; [apply (insert_handle_table d (fs, h))|done].
Qed.

Lemma do_release_live i handle : safe live (do_release i handle).
Proof.
  intros [fs h] Hl. split; [eapply pt_live_steps; [apply (do_release_table i handle (fs, h))|done]|].
  unfold do_release, on_fst. cbn. unfold HandleMap_release. by repeat case_match; simplify_eq/=.
Qed.

Lemma check_fd_flags_live slot d flags : safe live (check_fd_flags slot d flags).
Proof.
  intros [fs h] Hl. split; [eapply pt_live_steps; [apply (check_fd_flags_table slot d flags (fs, h))|done]|].
  assert (no_panic (check_fd_flags (H := H) slot d flags)) as Hp; [|apply Hp].
  unfold check_fd_flags. prog_auto.
Qed.

(** Installing the root makes a live table. *)
Lemma import_live : safe live import.
Proof.
  intros [fs h] [Hl Hc]. cbn in Hl, Hc. unfold import. rewrite (prog_bind_ok _ _ _ (fs, h) fs) by done. rewrite Hc.
  pose proof (open_file_and_handle_no_panic (H := H) fs.(pt_cfg) AT_FDCWD fs.(pt_cfg).(cfg_root_dir) h) as Hp.
  destruct (open_file_and_handle _ _ _ h) as [h1 [[[fd ho] st]|e|]] eqn:Ho; [| |done].
  2:{ by rewrite (prog_bind_err _ _ _ _ _ (on_snd_ok _ fs _ _ _ Ho)). }
  rewrite (prog_bind_ok _ _ _ _ _ (on_snd_ok _ fs _ _ _ Ho)).
  pose proof (new_inode_handle_spec ho fd fs h1) as Hn.
  destruct (new_inode_handle ho fd (fs, h1)) as [[fs1 h2] [handle|e|]] eqn:Hr; [| |done].
  2:{ rewrite (prog_bind_err _ _ _ _ _ Hr). destruct Hn as [m ->]. by split. }
  destruct Hn as [[m ->] _]. rewrite (prog_bind_ok _ _ _ _ _ Hr).
  unfold attempt. destruct (sys (sys_umask 0) h2) as [h3 r3] eqn:Hu.
  rewrite (prog_bind_ok _ _ _ (set_mount_fds fs m, h3) r3) by by (unfold on_snd; cbn; rewrite Hu).
  split; [|done]. split; [|done]. intros i d. cbn.
  destruct (decide (ROOT_ID = i)) as [<-|Hne]; [rewrite lookup_insert_eq; intros [= <-]; cbn; lia|].
  rewrite lookup_insert_ne by done. apply Hl.
Qed.

#[local] Hint Resolve live_on_snd live_on_fst live_get_fs do_lookup_live insert_handle_live do_release_live
  check_fd_flags_live import_live : fuse.
#[local] Hint Extern 3 (safe _ (lift _)) => apply safe_lift : fuse.

Lemma pt_validated_live {A} name (m : PassthroughFs -> prog (PassthroughFs * H) io_error A) :
  (forall fs, safe live (m fs)) -> safe live (pt_validated name m).
Proof.
  intros Hm. unfold pt_validated. prog_step; [prog_auto|]. prog_step; [|done].
  apply safe_lift. unfold pt_validate_path_component, validate_path_component. by repeat case_match.
Qed.

Lemma do_open_live i flags fuse_flags : safe live (do_open i flags fuse_flags).
Proof.
  unfold do_open. prog_step; [prog_auto|]. prog_step; [apply live_on_snd; prog_auto|]. prog_auto.
Qed.

Lemma pt_destroy_live : safe live pt_destroy.
Proof.
  intros [fs h] [_ Hc]. unfold pt_destroy. set (fs' := replace_inodes _ _).
  assert (live (fs', h)) as Hl by (split; [by intros i d|done]).
  destruct (import_live _ Hl) as [Hi Hp]. by destruct (import (fs', h)) as [w []].
Qed.

Lemma pt_op_live (A : Set) (op : FsOp A) : safe live (pt_op A op).
Proof.
  destruct op; cbn [pt_op default_op]; try apply pt_destroy_live;
    unfold reading, pt_init, pt_lookup, pt_forget, pt_batch_forget, pt_symlink, pt_mknod, pt_mkdir,
      pt_unlink, pt_rmdir, pt_rename, pt_link, pt_open, pt_create, pt_release, pt_opendir, pt_releasedir,
      pt_readlink, pt_flush, pt_fsyncdir, pt_fsync, pt_fallocate, pt_statfs, pt_setxattr, pt_getxattr,
      pt_listxattr, pt_removexattr, pt_access, pt_lseek;
    repeat (apply pt_validated_live; intros ?);
    repeat first [solve [auto 2 with fuse] | apply do_open_live | apply live_on_snd; solve [prog_auto] | prog_step].
  - apply live_on_fst, modify_live. intros fs. by apply rtc_once, step_other.
  - apply live_on_fst, modify_live. intros fs. apply forget_table.
  - apply live_on_fst, modify_live. intros fs. by apply forget_all_table.
Qed.

(** ** Reads, writes and scans *)

Lemma pt_write_live ctx inode handle data size offset lo dw flags fuse_flags :
  safe live (pt_write ctx inode handle data size offset lo dw flags fuse_flags).
Proof.
  unfold pt_write. prog_step; [prog_auto|]. prog_step; [prog_auto|]. prog_step; [prog_auto|].
  apply live_on_snd. prog_auto.
Qed.

(** A read returns at most the bytes there is room for, and their number. *)
Lemma pt_read_ok ctx inode handle available size offset lo flags (w : PassthroughFs * H) :
  0 <= available ->
  let '(w', (data, res)) := pt_read ctx inode handle available size offset lo flags w in
  zlen data <= available /\ match res with Ok n => n = zlen data | Err _ => True | Panic => False end.
Proof.
  intros Hav. unfold pt_read. set (m := get_fs ≫= _).
  assert (no_panic m) as Hp. { unfold m, get_fs, check_fd_flags. prog_auto. }
  specialize (Hp w). destruct (m w) as [w' [b|e|]] eqn:Hm; [|by change (zlen (A := Z) []) with 0|done].
  split; [|done]. unfold m in Hm. apply prog_bind_inv_ok in Hm as (w1 & fs & _ & Hm).
  apply prog_bind_inv_ok in Hm as (w2 & x & _ & Hm). apply prog_bind_inv_ok in Hm as (w3 & u & _ & Hm).
  destruct (Z.ltb_spec available size) as [|Hle]; [done|].
  unfold on_snd, call in Hm. destruct (sys (sys_preadv _ _ _) w3.2) as [h' [e|b']] eqn:Hs; simplify_eq/=.
  apply (f_equal snd), host_preadv in Hs. lia.
Qed.

(** Scans: the callback's state keeps what the callback keeps. *)
Lemma pt_scan_live {X} (P : X -> Prop) i handle size offset (add : DirEntry -> prog ((PassthroughFs * H) * X) io_error Z) :
  (forall d, d.(d_name) <> [] -> safe (fun s => live s.1 /\ P s.2) (add d)) ->
  safe (fun s => live s.1 /\ P s.2)
    (fs ← on_fst get_fs; if (fs.(pt_no_readdir) : bool) then mret tt else do_readdir i handle size offset add).
Proof.
  intros Ha. prog_step; [by intros [[fs h] x]|]. destruct (pt_no_readdir _); [prog_auto|].
  intros [[fs h] x] Hs. destruct (do_readdir_cases i handle size offset add fs h x)
    as (h' & [(r & -> & Hr)|(records & Hok & _ & ->)]); [done|]. by apply (scan_records_safe _ add true records Ha Hok).
Qed.

Lemma safe_scan_fst {A X} (P : X -> Prop) (m : prog (PassthroughFs * H) io_error A) :
  safe live m -> safe (fun s => live s.1 /\ P s.2) (on_fst m).
Proof. intros Hm [w x] [Hl HP]. destruct (Hm w Hl) as [Hl' Hp]. unfold on_fst. cbn in *. by destruct (m w). Qed.

Lemma safe_scan_snd {A X} (P : X -> Prop) (m : prog X io_error A) :
  safe P m -> safe (fun s : (PassthroughFs * H) * X => live s.1 /\ P s.2) (on_snd m).
Proof. intros Hm [w x] [Hl HP]. destruct (Hm x HP) as [Hx Hp]. unfold on_snd. cbn in *. by destruct (m x). Qed.

Lemma forget_live i n : safe live (on_fst (modify (fun fs => forget_one fs i n)) : prog (PassthroughFs * H) io_error unit).
Proof. apply live_on_fst, modify_live. intros fs. apply forget_table. Qed.

Lemma pt_readdir_live {X} (P : X -> Prop) ctx i handle size offset (add : add_entry_t X) :
  (forall d, safe P (add d)) ->
  safe (fun s => live s.1 /\ P s.2) (pt_readdir ctx i handle size offset add).
Proof.
  intros Ha. apply pt_scan_live. intros d Hd. unfold readdir_entry, entry_name.
  prog_step; [by destruct (d_name d); [|prog_auto]|].
  prog_step; [by apply safe_scan_fst, do_lookup_live|].
  prog_step; [by apply safe_scan_fst, forget_live|]. by apply safe_scan_snd.
Qed.

Lemma pt_readdirplus_live {X} (P : X -> Prop) ctx i handle size offset (add : add_entry_plus_t X) :
  (forall d e, safe P (add d e)) ->
  safe (fun s => live s.1 /\ P s.2) (pt_readdirplus ctx i handle size offset add).
Proof.
  intros Ha. apply pt_scan_live. intros d Hd. unfold readdirplus_entry, entry_name.
  prog_step; [by destruct (d_name d); [|prog_auto]|].
  prog_step; [by apply safe_scan_fst, do_lookup_live|].
  prog_step; [by apply safe_scan_snd|].
  prog_step; [prog_step; [by apply safe_scan_fst, forget_live|prog_auto]|prog_auto].
Qed.
End serve.

(** ** The promises to the server *)

#[global] Instance live_invariant {H : Type} `{HO : HostOk H} : FsInvariant (live (H := H)).
Proof.
  split.
  - apply pt_op_live.
  - intros ctx i handle available size offset lo flags w Hl.
    by eapply pt_live_steps; [apply request_table, req_read|].
  - intros ctx i handle available size offset lo flags w _ Hav. by apply pt_read_ok.
  - apply pt_write_live.
  - intros X ctx i handle size offset add [w x] Hl.
    by eapply pt_live_steps; [apply (request_table w), req_readdir|].
  - intros X P ctx i handle size offset add Ha. by apply pt_readdir_live.
  - intros X ctx i handle size offset add [w x] Hl.
    by eapply pt_live_steps; [apply (request_table w), req_readdirplus|].
  - intros X P ctx i handle size offset add Ha. by apply pt_readdirplus_live.
  - by intros [w c].
Qed.

(** The passthrough file system on the states with a live table. *)
Abbreviation Passthrough H := {w : PassthroughFs * H | live w}.
