(* ===== verification/PassthroughLedger.v ===== *)
(** * References and inode numbers

    The promise of the inode table to the FUSE client: a ledger of the
    references handed out.  A reply that carries an entry adds a reference to
    its inode, FORGET takes references back, and an inode is known exactly
    while it has references.  With numbers of its own ([use_host_ino] off) the
    table keeps that promise as long as the 64-bit counter does not wrap, and
    without file handles a number stands for one host file for good. *)

From stdpp Require Import gmap.
From S2P Require Import Prelude Std Lib Codec AbiStruct Abi FsTypes FileSystem Vfs ProgLogic.
From S2P Require Import Host HostLaws InodeStore MountFds Passthrough PassthroughSync PassthroughProps.
From S2P Require Import PassthroughTable PassthroughRequests.

(** ** The ledger *)

Abbreviation Ledger := (gmap Z Z).

Definition hand_out (i : Z) (l : Ledger) : Ledger :=
  <[i := match l !! i with Some n => Z.min U64_MAX (n + 1) | None => 1 end]> l.

(** The root is never forgotten, and nothing is below zero. *)
Definition take_back (i n : Z) (l : Ledger) : Ledger :=
  if i =? ROOT_ID then l
  else match l !! i with
  | Some r => if r <=? n then delete i l else <[i := r - n]> l
  | None => l
  end.

Definition refs (fs : PassthroughFs) : Ledger := nd_refcount <$> fs.(pt_inodes).(sto_data).

(** ** Invariant *)

Record numbers_ok (fs : PassthroughFs) : Prop := {
  no_own : fs.(pt_cfg).(cfg_use_host_ino) = false;
  no_live : table_live fs;
  no_data : forall i d, fs.(pt_inodes).(sto_data) !! i = Some d -> i < fs.(pt_next_inode);
  no_by_id : forall k i, fs.(pt_inodes).(sto_by_id) !! k = Some i -> i < fs.(pt_next_inode);
  no_by_handle : forall k i, fs.(pt_inodes).(sto_by_handle) !! k = Some i -> i < fs.(pt_next_inode);
  no_root : ROOT_ID < fs.(pt_next_inode);
}.

(** What a step leaves of the counter when it has [n] numbers left. *)
Definition numbers_upto (n : Z) (fs fs' : PassthroughFs) : Prop :=
  numbers_ok fs' /\ fs.(pt_next_inode) <= fs'.(pt_next_inode) <= fs.(pt_next_inode) + n.

Lemma allocate_own k ho fs fs' r :
  fs.(pt_cfg).(cfg_use_host_ino) = false ->
  allocate_inode k ho fs = (fs', r) ->
  match get_inode_locked fs.(pt_inodes) k ho with
  | Some i => fs' = fs /\ r = Ok i
  | None => fs' = set_next_inode fs (wrap 64 (fs.(pt_next_inode) + 1)) /\ r = Ok fs.(pt_next_inode)
  end.
Proof.
  intros Hc. unfold allocate_inode. rewrite Hc. destruct (get_unique_inode k _). cbn.
  destruct (get_inode_locked _ k ho); intros; by simplify_eq.
Qed.

Lemma get_inode_locked_below k ho fs i :
  numbers_ok fs -> get_inode_locked fs.(pt_inodes) k ho = Some i -> i < fs.(pt_next_inode).
Proof. intros Hn. destruct ho; cbn; [by apply no_by_handle|by apply no_by_id]. Qed.

(** A number that is not in use: it belongs to a forgotten inode with the same
    key, or was never used. *)
Lemma get_inode_locked_unused k ho s i :
  get_alt_locked s k ho = None -> get_inode_locked s k ho = Some i -> s.(sto_data) !! i = None.
Proof.
  unfold get_alt_locked, get_by_id, get_by_handle, InodeStore_get.
  destruct ho as [h|]; cbn; intros Ha Hi; rewrite Hi in Ha; cbn in Ha; by destruct (sto_data s !! i).
Qed.

Lemma wrap_next n : 0 <= n < U64_MAX -> wrap 64 (n + 1) = n + 1.
Proof. intros Hn. apply wrap_small. unfold in_u, U64_MAX in *. lia. Qed.

Section steps.
Context (fs : PassthroughFs).
Hypothesis OK : numbers_ok fs.
Hypothesis ROOM : fs.(pt_next_inode) < U64_MAX.

(** The state in which a new inode is entered. *)
Lemma allocate_numbers k ho m fs' r :
  get_alt_locked fs.(pt_inodes) k ho = None ->
  allocate_inode k ho (set_mount_fds fs m) = (fs', r) ->
  exists i, r = Ok i /\ numbers_upto 1 fs fs' /\ i < fs'.(pt_next_inode) /\
    fs'.(pt_inodes) = fs.(pt_inodes) /\ fs.(pt_inodes).(sto_data) !! i = None /\
    (get_inode_locked fs.(pt_inodes) k ho = Some i \/
     get_inode_locked fs.(pt_inodes) k ho = None /\ i = fs.(pt_next_inode) /\ fs'.(pt_next_inode) = i + 1).
Proof using OK ROOM.
  intros Halt Ha. apply allocate_own in Ha; [|by apply (no_own fs)]. cbn [set_mount_fds pt_inodes] in Ha.
  destruct OK as [Ho Hl Hd Hi Hh Hr]. destruct (get_inode_locked fs.(pt_inodes) k ho) as [i|] eqn:Hg.
  - destruct Ha as [-> ->]. exists i. split_and!; [done| |by apply (get_inode_locked_below k ho fs)|done| |by left].
    + split; [by split|]. cbn. lia.
    + by eapply get_inode_locked_unused.
  - destruct Ha as [-> ->]. exists fs.(pt_next_inode). cbn.
    assert (0 <= fs.(pt_next_inode) < U64_MAX) as Hb by (unfold ROOT_ID in Hr; lia). rewrite wrap_next by done.
    split_and!; [done| |lia|done| |by right].
    + split; [|cbn; lia]. split; cbn; try done; try lia.
      * intros i d Hid. specialize (Hd i d Hid). lia.
      * intros k' i Hki. specialize (Hi k' i Hki). lia.
      * intros k' i Hki. specialize (Hh k' i Hki). lia.
    + destruct (sto_data (pt_inodes fs) !! pt_next_inode fs) as [d|] eqn:Hx; [|done]. specialize (Hd _ _ Hx). lia.
Qed.

(** A lookup hands out one reference to the number it answers with. *)
Lemma looked_up_ledger k ho st fs' i :
  looked_up fs k ho st fs' i -> refs fs' = hand_out i (refs fs) /\ numbers_upto 1 fs fs'.
Proof using OK ROOM.
  intros Hl. pose proof OK as [Ho Hlive Hd Hi Hh Hr]. destruct Hl as [d Hg Hz|m handle fs1 i Hg Hh1 Ha Hi1].
  - assert (sto_data (pt_inodes fs) !! nd_inode d = Some d) as Hdd.
    { apply get_alt_locked_some in Hg as [j Hj]. by destruct (Hlive _ _ Hj) as [-> _]. }
    split; [|split; [|cbn; lia]].
    + unfold refs, hand_out. cbn. rewrite lookup_fmap, Hdd. cbn. apply map_eq. intros j. rewrite lookup_fmap.
      destruct (decide (nd_inode d = j)) as [<-|Hne].
      * by rewrite lookup_alter_eq, lookup_insert_eq, Hdd.
      * by rewrite lookup_alter_ne, lookup_insert_ne, lookup_fmap.
    + split; cbn; try done.
      * by eapply looked_up_live; [by apply (looked_known fs k ho st)|].
      * intros j d' (d0 & Hd0 & _)%store_refcount_data. by eapply Hd.
  - pose proof (allocate_numbers k ho m fs1 _ Hg Ha) as (i' & [= <-] & [Hn1 Hb1] & Hlt & Heq & Hnone & _).
    split; [|split; [|cbn; lia]].
    + unfold refs, hand_out. cbn. rewrite lookup_fmap, Heq, Hnone. cbn. by rewrite fmap_insert.
    + destruct Hn1 as [Ho1 Hl1 Hd1 Hi1' Hh1' Hr1]. unfold table_live in Hl1. rewrite Heq in Hl1, Hd1, Hi1', Hh1'.
      split; unfold table_live; cbn; rewrite ?Heq; try done.
      * intros j d. destruct (decide (i = j)) as [->|Hne]; [rewrite lookup_insert_eq; intros [= <-]; cbn; lia|].
        rewrite lookup_insert_ne by done. apply Hlive.
      * intros j d. destruct (decide (i = j)) as [->|Hne]; [done|].
        rewrite lookup_insert_ne by done. apply Hd1.
      * intros k' j. intros [[_ <-]|[_ Hj]]%lookup_insert_Some; [done|]. by eapply Hi1'.
      * intros k' j. destruct (InodeHandle_file_handle handle).
        -- intros [[_ <-]|[_ Hj]]%lookup_insert_Some; [done|]. by eapply Hh1'.
        -- apply Hh1'.
Qed.

Lemma spent_ledger fs' : spent fs fs' -> refs fs' = refs fs /\ numbers_upto 1 fs fs'.
Proof using OK ROOM.
  intros [m|m k ho fs1 r Hg Ha].
  - split; [done|]. split; [|cbn; lia]. destruct OK. by split.
  - apply allocate_numbers in Ha as (i & -> & [Hn Hb] & _ & Heq & _); [|done].
    split; [unfold refs; cbn; by rewrite Heq|]. split; [|done]. destruct Hn. by split.
Qed.
End steps.

(** FORGET takes references back. *)
Lemma forget_ledger fs i n :
  0 <= n -> table_live fs -> refs (forget_one fs i n) = take_back i n (refs fs).
Proof.
  intros Hn Hlive. unfold forget_one, take_back. destruct (i =? ROOT_ID); [done|].
  unfold InodeStore_get, refs. rewrite lookup_fmap.
  destruct (sto_data (pt_inodes fs) !! i) as [d|] eqn:Hd; [|done]. cbn [fmap option_fmap option_map].
  destruct (Hlive _ _ Hd) as [_ Hr]. unfold saturating_sub.
  destruct (Z.leb_spec (nd_refcount d) n) as [Hle|Hgt].
  - rewrite Z.max_l, Z.eqb_refl by lia. cbn. unfold InodeStore_remove. rewrite Hd.
    case_match; cbn; by rewrite fmap_delete.
  - rewrite Z.max_r by lia. rewrite (proj2 (Z.eqb_neq _ _)) by lia. cbn.
    apply map_eq. intros j. rewrite lookup_fmap. destruct (decide (i = j)) as [<-|Hne].
    + by rewrite lookup_alter_eq, lookup_insert_eq, Hd.
    + by rewrite lookup_alter_ne, lookup_insert_ne, lookup_fmap.
Qed.

Lemma forget_numbers fs i n : numbers_ok fs -> numbers_upto 0 fs (forget_one fs i n).
Proof.
  intros OK. pose proof OK as [Ho Hl Hd Hi Hh Hr].
  assert ((forget_one fs i n).(pt_next_inode) = fs.(pt_next_inode)) as Hnext
    by (unfold forget_one; by repeat case_match).
  split; [|lia]. split; rewrite ?Hnext; try done.
  - by rewrite (table_step_cfg _ _ (step_forget fs i n)).
  - by eapply table_live_step; [apply step_forget|].
  - intros j d. unfold forget_one, InodeStore_get. destruct (i =? ROOT_ID); [apply Hd|].
    destruct (sto_data (pt_inodes fs) !! i) eqn:He; [|apply Hd]. case_match; cbn.
    + unfold InodeStore_remove. rewrite He. case_match; cbn; intros [_ ?]%lookup_delete_Some; by eapply Hd.
    + intros (d0 & ? & _)%store_refcount_data. by eapply Hd.
  - intros k j. unfold forget_one, InodeStore_remove. repeat case_match; cbn;
      solve [apply Hi | intros [_ ?]%lookup_delete_Some; by eapply Hi].
  - intros k j. unfold forget_one, InodeStore_remove. repeat case_match; cbn;
      solve [apply Hh | intros [_ ?]%lookup_delete_Some; by eapply Hh].
Qed.

Lemma other_numbers fs fs' :
  fs'.(pt_inodes) = fs.(pt_inodes) -> fs'.(pt_next_inode) = fs.(pt_next_inode) -> fs'.(pt_cfg) = fs.(pt_cfg) ->
  numbers_ok fs -> refs fs' = refs fs /\ numbers_upto 0 fs fs'.
Proof.
  intros Hi Hn Hc [Ho Hl Hd Hk Hh Hr]. unfold refs, numbers_upto. rewrite Hi. split; [done|]. rewrite Hn.
  split; [|lia]. split; unfold table_live; rewrite ?Hi, ?Hn, ?Hc; done.
Qed.

(** ** Requests and the ledger *)

(** The inodes a successful reply names. *)
Definition handed {A : Set} (op : FsOp A) : A -> list Z :=
  match op in FsOp A return A -> list Z with
  | op_lookup _ _ _ | op_symlink _ _ _ _ | op_mknod _ _ _ _ _ _ | op_mkdir _ _ _ _ _ | op_link _ _ _ _ =>
      fun e => [e.(en_inode)]
  | op_create _ _ _ _ => fun x => [x.1.1.1.(en_inode)]
  | _ => fun _ => []
  end.

(** What a request and its reply do to the ledger. *)
Definition ledger_op {A : Set} (op : FsOp A) (r : io_result A) (l : Ledger) : Ledger :=
  match op with
  | op_forget _ i n => take_back i n l
  | op_batch_forget _ reqs => foldl (fun l q => take_back q.1 q.2 l) l reqs
  | _ => match r with Ok a => foldr hand_out l (handed op a) | _ => l end
  end.

(** FORGET counts are unsigned. *)
Definition counts_ok {A : Set} (op : FsOp A) : bool :=
  match op with
  | op_forget _ _ n => 0 <=? n
  | op_batch_forget _ reqs => forallb (fun q => 0 <=? q.2) reqs
  | _ => true
  end.

(** A failed CREATE may leave a reference behind. *)
Definition may_leak {A : Set} (op : FsOp A) (r : io_result A) : bool :=
  match op, r with op_create _ _ _ _, Err _ => true | _, _ => false end.

(** Nothing about inodes changes. *)
Definition quiet : relation PassthroughFs := fun fs fs' =>
  fs'.(pt_inodes) = fs.(pt_inodes) /\ fs'.(pt_next_inode) = fs.(pt_next_inode) /\ fs'.(pt_cfg) = fs.(pt_cfg).

#[global] Instance quiet_preorder : PreOrder quiet.
Proof. split; [by intros fs|]. unfold quiet. intros fs1 fs2 fs3 (? & ? & ?) (? & ? & ?). split_and!; congruence. Qed.

Lemma set_handles_quiet fs m n : quiet fs (set_handles fs m n).
Proof. done. Qed.

Section requests.
Context {H : Type} `{HO : HostOk H}.

Abbreviation wprog A := (prog (PassthroughFs * H) io_error A).
Abbreviation Q := (fst_rel (T := H) quiet).
Abbreviation same := (fst_rel (T := H) (@eq PassthroughFs)).

(** From a table in order, [m] uses at most one number and has the effect
    [f] on the ledger. *)
Definition moves {A} (f : io_result A -> Ledger -> Ledger) (m : wprog A) : Prop := forall fs h,
  numbers_ok fs -> fs.(pt_next_inode) < U64_MAX ->
  numbers_upto 1 fs (m (fs, h)).1.1 /\ refs (m (fs, h)).1.1 = f (m (fs, h)).2 (refs fs).

Lemma numbers_upto_quiet n fs fs1 fs2 : numbers_upto n fs fs1 -> quiet fs1 fs2 -> numbers_upto n fs fs2 /\ refs fs2 = refs fs1.
Proof.
  intros [Hn Hb] (Hi & Hx & Hc). destruct (other_numbers fs1 fs2 Hi Hx Hc Hn) as [Hr [Hn2 Hb2]].
  split; [|done]. split; [done|]. lia.
Qed.

Lemma moves_quiet {A} (m : wprog A) : pres Q m -> moves (fun _ l => l) m.
Proof.
  intros Hm fs h Hn Hlt. specialize (Hm (fs, h)).
  apply (numbers_upto_quiet 1 fs fs) in Hm as [? ?]; [done|]. split; [done|]. lia.
Qed.

Lemma moves_then {A B} (m : wprog A) (k : A -> wprog B) f :
  pres same m -> (forall a, moves f (k a)) -> (forall r l, (forall b, r <> Ok b) -> f r l = l) -> moves f (m ≫= k).
Proof.
  intros Hm Hk Hf fs h Hn Hlt. specialize (Hm (fs, h)). unfold mbind, prog_mbind, prog_bind.
  destruct (m (fs, h)) as [[fs1 h1] [a|e|]]; unfold fst_rel in Hm; cbn in Hm; subst fs1; [by apply Hk|cbn..];
    rewrite Hf by done; (split; [|done]); (split; [done|lia]).
Qed.

Lemma do_lookup_moves parent name :
  moves (fun r l => match r with Ok e => hand_out e.(en_inode) l | _ => l end) (do_lookup (H := H) parent name).
Proof.
  intros fs h Hn Hlt. pose proof (do_lookup_spec parent name fs h) as Hs.
  destruct (do_lookup parent name (fs, h)) as [[fs' h'] [e|e|]]; cbn.
  - destruct Hs as (k & ho & st & Hl & _). by apply looked_up_ledger in Hl as [? ?].
  - by apply spent_ledger in Hs as [? ?].
  - destruct Hs as [-> _]. split; [|done]. split; [done|]. lia.
Qed.

Lemma entry_effect_err (r : io_result Entry) (l : Ledger) :
  (forall b, r <> Ok b) -> match r with Ok e => hand_out e.(en_inode) l | _ => l end = l.
Proof. intros Hr. destruct r as [b| |]; [by destruct (Hr b)|done..]. Qed.

Lemma moves_validated {A} name (m : PassthroughFs -> wprog A) f :
  (forall fs, moves f (m fs)) -> (forall r l, (forall b, r <> Ok b) -> f r l = l) -> moves f (pt_validated name m).
Proof.
  intros Hm Hf. unfold pt_validated. apply moves_then; [by intros w|intros fs|done].
  apply moves_then; [by intros w|intros _|done]. apply Hm.
Qed.

Lemma insert_handle_quiet d : pres Q (insert_handle d).
Proof. apply pres_fst_fst. by intros fs. Qed.

Lemma do_open_quiet i flags fuse_flags : pres Q (do_open i flags fuse_flags).
Proof. unfold do_open, get_fs. prog_step; [prog_auto|]. prog_step; [prog_auto|].
  prog_step; [apply insert_handle_quiet|prog_auto]. Qed.

Lemma do_release_quiet i handle : pres Q (do_release i handle).
Proof. apply pres_fst_fst. intros fs. by destruct (HandleMap_release _ _ _). Qed.

#[local] Hint Resolve insert_handle_quiet do_open_quiet do_release_quiet : fuse.

Lemma forget_all_ledger reqs fs :
  forallb (fun q => 0 <=? q.2) reqs = true -> numbers_ok fs ->
  numbers_upto 0 fs (foldl (fun fs r => forget_one fs r.1 r.2) fs reqs) /\
  refs (foldl (fun fs r => forget_one fs r.1 r.2) fs reqs) = foldl (fun l q => take_back q.1 q.2 l) (refs fs) reqs.
Proof.
  revert fs. induction reqs as [|[i n] reqs IH]; intros fs Hc Hn; cbn in *.
  - split; [|done]. split; [done|lia].
  - apply andb_true_iff in Hc as [Hc%Z.leb_le Hcs]. destruct (forget_numbers fs i n Hn) as [Hn1 Hb1].
    destruct (IH (forget_one fs i n) Hcs Hn1) as [[Hn2 Hb2] Hr2]. split; [split; [done|lia]|].
    rewrite Hr2, forget_ledger by (done || apply Hn). done.
Qed.

(** CREATE: the lookup's reference is the caller's when the reply carries it. *)
Lemma pt_create_moves ctx parent name args fs (h : H) :
  numbers_ok fs -> fs.(pt_next_inode) < U64_MAX ->
  let '((fs', _), r) := pt_create ctx parent name args (fs, h) in
  numbers_upto 1 fs fs' /\
  match r with
  | Ok x => refs fs' = hand_out x.1.1.1.(en_inode) (refs fs)
  | Err _ => refs fs' = refs fs \/ exists i, refs fs' = hand_out i (refs fs)
  | Panic => True
  end.
Proof.
  intros Hn Hlt. unfold pt_create, pt_validated. rewrite (prog_bind_ok _ _ _ (fs, h) fs) by done.
  assert (numbers_upto 1 fs fs) as Hrefl by (split; [done|lia]).
  unfold lift at 1. unfold mbind at 1, prog_mbind, prog_bind at 1.
  destruct (pt_validate_path_component fs name) as [u|e|]; [|by auto|done].
  match goal with |- context [on_snd ?m ≫= _] => set (mk := m) end.
  unfold mbind at 1, prog_mbind, prog_bind at 1, on_snd at 1. cbn [fst snd].
  destruct (mk h) as [h1 [new_file|e|]]; [|by auto|done].
  pose proof (do_lookup_moves parent name fs h1 Hn Hlt) as [Hu Hr].
  unfold mbind at 1, prog_mbind, prog_bind at 1.
  destruct (do_lookup parent name (fs, h1)) as [[fs2 h2] [entry|e|]]; cbn in Hu, Hr; [|by auto|done].
  match goal with |- context [get_fs ≫= ?k] => set (tail := get_fs ≫= k) end.
  assert (pres Q tail) as Ht by (unfold tail, get_fs; prog_auto).
  assert (forall w x, (tail w).2 = Ok x -> x.1.1.1 = entry) as Hx.
  { intros w x Hw. unfold tail in Hw. destruct ((get_fs ≫= _) w) as [w' r] eqn:Hw'. cbn in Hw. subst r.
    apply prog_bind_inv_ok in Hw' as (w1 & fs1 & _ & Hw'). apply prog_bind_inv_ok in Hw' as (w2 & f & _ & Hw').
    apply prog_bind_inv_ok in Hw' as (w3 & f' & _ & Hw'). cbv [mret prog_ret] in Hw'. by simplify_eq/=. }
  specialize (Ht (fs2, h2)). specialize (Hx (fs2, h2)). destruct (tail (fs2, h2)) as [[fs3 h3] r].
  destruct (numbers_upto_quiet 1 fs fs2 fs3 Hu Ht) as [Hu3 Hr3]. split; [done|]. rewrite Hr3, Hr.
  destruct r as [x|e|]; [by rewrite (Hx x eq_refl)|by eauto|done].
Qed.

Lemma pt_op_ledger (A : Set) (op : FsOp A) fs (h : H) :
  session_op op = false -> counts_ok op = true -> numbers_ok fs -> fs.(pt_next_inode) < U64_MAX ->
  let '((fs', _), r) := pt_op A op (fs, h) in
  r <> Panic -> numbers_upto 1 fs fs' /\
  (refs fs' = ledger_op op r (refs fs) \/
   may_leak op r = true /\ exists i, refs fs' = hand_out i (refs fs)).
Proof.
  intros Hop Hc Hn Hlt.
  assert (forall f, moves f (pt_op A op) -> (forall r l, f r l = ledger_op op r l) ->
    let '((fs', _), r) := pt_op A op (fs, h) in
    r <> Panic -> numbers_upto 1 fs fs' /\
    (refs fs' = ledger_op op r (refs fs) \/
     may_leak op r = true /\ exists i, refs fs' = hand_out i (refs fs))) as Hgen.
  { intros f Hm Hf. specialize (Hm fs h Hn Hlt). destruct (pt_op A op (fs, h)) as [[fs' h'] r].
    cbn in Hm. rewrite Hf in Hm. naive_solver. }
  destruct op; try done.
  all: try (apply (Hgen (fun _ l => l)); [apply moves_quiet|by intros []]; cbn [pt_op default_op];
    unfold reading, get_fs, pt_unlink, pt_rmdir, pt_rename, pt_open, pt_release, pt_opendir, pt_releasedir, get_fs;
    repeat (apply pt_validated_pres; [apply _|intros ?]); prog_auto; fail).
  all: try (apply (Hgen (fun r l => match r with Ok e => hand_out e.(en_inode) l | _ => l end)); [|by intros []];
    cbn [pt_op]; unfold pt_symlink, pt_mknod, pt_mkdir, pt_link;
    (apply moves_validated; [intros ?|apply entry_effect_err]);
    repeat first [apply do_lookup_moves | apply moves_then; [prog_auto; fail|intros ?|apply entry_effect_err]]; fail).
  - apply (Hgen (fun r l => match r with Ok e => hand_out e.(en_inode) l | _ => l end)); [|by intros []].
    cbn [pt_op]. unfold pt_lookup. destruct (contains _ _); [|apply do_lookup_moves].
    intros fs0 h0 Hn0 Hlt0. cbn. split; [|done]. split; [done|lia].
  - cbn in Hc |- *. apply Z.leb_le in Hc. intros _. destruct (forget_numbers fs inode count Hn) as [Hn1 Hb1].
    split; [split; [done|lia]|]. left. apply forget_ledger; [done|apply Hn].
  - cbn in Hc |- *. intros _. destruct (forget_all_ledger requests fs Hc Hn) as [[Hn1 Hb1] Hr].
    split; [split; [done|lia]|]. by left.
  - cbn [pt_op]. pose proof (pt_create_moves ctx parent name args fs h Hn Hlt) as Hm.
    destruct (pt_create _ _ _ _ _) as [[fs' h'] [x|e|]]; cbn; naive_solver.
Qed.
End requests.

#[export] Hint Resolve insert_handle_quiet do_open_quiet do_release_quiet : fuse.
