(* ===== verification/PassthroughIdentity.v ===== *)
(** * Inode numbers identify host files

    With numbers of its own and without file handles, the passthrough file
    system gives each host file, identified by inode, device and mount, one
    number, and keeps it for good.  The second part is about the references
    that directory scans hand out. *)

From stdpp Require Import gmap.
From S2P Require Import Prelude Std Lib Codec Abi AbiStruct FsTypes FileSystem Vfs ProgLogic Host HostLaws InodeStore.
From S2P Require Import MountFds Passthrough PassthroughSync PassthroughProps PassthroughTable PassthroughRequests.
From S2P Require Import PassthroughDir PassthroughLedger.

Record numbered (fs : PassthroughFs) : Prop := {
  nb_ok : numbers_ok fs;
  nb_handles : fs.(pt_cfg).(cfg_inode_file_handles) = false;
  nb_data : forall i d, fs.(pt_inodes).(sto_data) !! i = Some d -> fs.(pt_inodes).(sto_by_id) !! d.(nd_id) = Some i;
  nb_inj : forall k k' i, fs.(pt_inodes).(sto_by_id) !! k = Some i -> fs.(pt_inodes).(sto_by_id) !! k' = Some i -> k = k';
}.

(** The numbers in use stay what they are. *)
Definition grows (n : Z) (fs fs' : PassthroughFs) : Prop :=
  numbered fs' /\ fs.(pt_inodes).(sto_by_id) ⊆ fs'.(pt_inodes).(sto_by_id) /\
  fs.(pt_next_inode) <= fs'.(pt_next_inode) <= fs.(pt_next_inode) + n.

Lemma grows_trans n m fs1 fs2 fs3 : grows n fs1 fs2 -> grows m fs2 fs3 -> grows (n + m) fs1 fs3.
Proof. intros (_ & H1 & ?) (? & H2 & ?). split_and!; [done|by etrans|lia|lia]. Qed.

Lemma get_alt_by_id s k : get_alt_locked s k None = get_by_id s k.
Proof. unfold get_alt_locked. cbn. by destruct (get_by_id s k). Qed.

Section steps.
Context (fs : PassthroughFs).
Hypothesis NB : numbered fs.
Hypothesis ROOM : fs.(pt_next_inode) < U64_MAX.

Lemma looked_up_grows k st fs' i :
  looked_up fs k None st fs' i -> grows 1 fs fs' /\ fs'.(pt_inodes).(sto_by_id) !! k = Some i.
Proof using NB ROOM.
  intros Hl. pose proof NB as [OK Hh Hd Hinj].
  pose proof (looked_up_ledger fs OK ROOM _ _ _ _ _ Hl) as [_ [Hok' Hb]].
  destruct Hl as [d Hg Hz|m handle fs1 i Hg Hh1 Ha Hi1].
  - rewrite get_alt_by_id in Hg. unfold get_by_id, inode_by_id, InodeStore_get in Hg.
    destruct (sto_by_id (pt_inodes fs) !! k) as [j|] eqn:Hk; [|done]. cbn in Hg.
    destruct (no_live fs OK _ _ Hg) as [Hj _]. subst j. split; [|done]. split_and!; [|done|cbn; lia..].
    split; [done|done| |done]. intros j d' (d0 & Hd0 & ->)%store_refcount_data. cbn.
    destruct (decide _); exact (Hd j d0 Hd0).
  - pose proof (allocate_numbers fs OK ROOM _ _ _ _ _ Hg Ha) as (i' & [= <-] & [Hn1 _] & _ & Heq & Hnone & Hcase).
    assert (sto_by_id (pt_inodes fs) !! k = Some i \/
            sto_by_id (pt_inodes fs) !! k = None /\ i = pt_next_inode fs) as Hk by (cbn in Hcase; naive_solver).
    pose proof (table_step_cfg fs _ (step_spent fs _ (spent_number fs m k None fs1 _ Hg Ha))) as Hc. cbn in Hc.
    assert (forall k', sto_by_id (pt_inodes fs) !! k' = Some i -> k' = k) as Huniq.
    { intros k' Hk'. destruct Hk as [Hk|[_ ->]]; [by eapply Hinj|]. pose proof (no_by_id fs OK _ _ Hk'). lia. }
    split; [|cbn; by rewrite Heq, lookup_insert_eq]. split_and!; [|cbn; rewrite Heq|apply Hb..].
    + split; [done| | |]; cbn; rewrite ?Heq.
      * by rewrite Hc.
      * intros j d. destruct (decide (i = j)) as [->|Hne].
        -- rewrite lookup_insert_eq. intros [= <-]. cbn. by rewrite lookup_insert_eq.
        -- rewrite lookup_insert_ne by done. intros Hj. specialize (Hd j d Hj).
           rewrite lookup_insert_ne; [done|]. intros Hkd. rewrite <- Hkd in Hd. destruct Hk as [Hk|[Hk _]]; congruence.
      * intros k1 k2 j. rewrite !lookup_insert_Some. intros [[<- <-]|[Hne1 H1]] [[<- Hj]|[Hne2 H2]];
          [done| |subst j|by eapply Hinj]; [symmetry|]; by apply Huniq.
    + destruct Hk as [Hk|[Hk _]]; [by rewrite insert_id|by apply insert_subseteq].
Qed.

Lemma spent_grows fs' : spent fs fs' -> grows 1 fs fs'.
Proof using NB ROOM.
  intros Hs. pose proof NB as [OK Hh Hd Hinj]. pose proof (spent_ledger fs OK ROOM _ Hs) as [_ [Hok' Hb]].
  destruct Hs as [m|m k ho fs1 r Hg Ha]; [split_and!; [by split|done|apply Hb..]|].
  pose proof (allocate_numbers fs OK ROOM _ _ _ _ _ Hg Ha) as (i' & _ & _ & _ & Heq & _).
  pose proof (table_step_cfg fs _ (step_spent fs _ (spent_number fs m k ho fs1 r Hg Ha))) as Hc.
  split_and!; [|cbn; by rewrite Heq|apply Hb..]. split; [done|by rewrite Hc|..]; cbn; by rewrite Heq.
Qed.

Lemma forget_grows i n : grows 0 fs (forget_one fs i n).
Proof using NB.
  pose proof NB as [OK Hh Hd Hinj]. destruct (forget_numbers fs i n OK) as [Hok Hb].
  assert ((forget_one fs i n).(pt_inodes).(sto_by_id) = fs.(pt_inodes).(sto_by_id)) as Hid.
  { unfold forget_one, InodeStore_remove. rewrite (no_own fs OK). by repeat case_match. }
  split_and!; [|by rewrite Hid|lia|lia]. split; [done| | |].
  - by rewrite (table_step_cfg _ _ (step_forget fs i n)).
  - rewrite Hid. intros j d. unfold forget_one, InodeStore_get. destruct (i =? ROOT_ID); [apply Hd|].
    destruct (sto_data (pt_inodes fs) !! i) eqn:He; [|apply Hd]. case_match; cbn.
    + unfold InodeStore_remove. rewrite He. case_match; cbn; intros [_ ?]%lookup_delete_Some; by eapply Hd.
    + intros (d0 & ? & ->)%store_refcount_data. destruct (decide _); by apply (Hd j d0).
  - by rewrite Hid.
Qed.
End steps.

(** ** Requests *)

Lemma quiet_grows n fs fs1 fs2 : grows n fs fs1 -> quiet fs1 fs2 -> grows n fs fs2.
Proof.
  intros (Hnb & Hsub & Hb) (Hi & Hn & Hc). destruct Hnb as [OK Hh Hd Hinj].
  split_and!; rewrite ?Hi, ?Hn; try done; try lia.
  split; rewrite ?Hi, ?Hc; try done. by destruct (other_numbers fs1 fs2 Hi Hn Hc OK) as [_ [? _]].
Qed.

Lemma grows_refl n fs : 0 <= n -> numbered fs -> grows n fs fs.
Proof. intros Hn Hf. split_and!; [done|done|lia|lia]. Qed.

Section requests.
Context {H : Type} `{HO : HostOk H}.

Abbreviation wprog A := (prog (PassthroughFs * H) io_error A).
Abbreviation Q := (fst_rel (T := H) quiet).
Abbreviation same := (fst_rel (T := H) (@eq PassthroughFs)).

(** [m] uses at most one new number. *)
Definition grows_once {A} (m : wprog A) : Prop := forall fs h,
  numbered fs -> fs.(pt_next_inode) < U64_MAX -> grows 1 fs (m (fs, h)).1.1.

Lemma once_quiet {A} (m : wprog A) : pres Q m -> grows_once m.
Proof. intros Hm fs h Hn Hlt. eapply quiet_grows; [by apply grows_refl|apply (Hm (fs, h))]. Qed.

Lemma once_then {A B} (m : wprog A) (k : A -> wprog B) :
  pres same m -> (forall a, grows_once (k a)) -> grows_once (m ≫= k).
Proof.
  intros Hm Hk fs h Hn Hlt. specialize (Hm (fs, h)). unfold mbind, prog_mbind, prog_bind.
  destruct (m (fs, h)) as [[fs1 h1] [a|e|]]; unfold fst_rel in Hm; cbn in Hm; subst fs1;
    [by apply Hk|by apply grows_refl..].
Qed.

Lemma once_before {A B} (m : wprog A) (k : A -> wprog B) :
  grows_once m -> (forall a, pres Q (k a)) -> grows_once (m ≫= k).
Proof.
  intros Hm Hk fs h Hn Hlt. specialize (Hm fs h Hn Hlt). unfold mbind, prog_mbind, prog_bind.
  destruct (m (fs, h)) as [[fs1 h1] [a|e|]]; cbn in *; [|done..].
  eapply quiet_grows; [done|apply (Hk a (fs1, h1))].
Qed.

Lemma do_lookup_once parent name : grows_once (do_lookup (H := H) parent name).
Proof.
  intros fs h Hn Hlt. pose proof (do_lookup_spec parent name fs h) as Hs.
  destruct (do_lookup parent name (fs, h)) as [[fs' h'] [e|e|]]; cbn.
  - destruct Hs as (k & ho & st & Hl & _ & _ & _ & Hho). rewrite (Hho (nb_handles fs Hn)) in Hl.
    by apply looked_up_grows in Hl as [? _].
  - by apply spent_grows.
  - destruct Hs as [-> _]. by apply grows_refl.
Qed.

Lemma once_validated {A} name (m : PassthroughFs -> wprog A) :
  (forall fs, grows_once (m fs)) -> grows_once (pt_validated name m).
Proof. intros Hm. unfold pt_validated. do 2 (apply once_then; [by intros w|intros ?]). apply Hm. Qed.

Lemma forget_all_grows (reqs : list (Z * Z)) fs :
  numbered fs -> grows 0 fs (foldl (fun fs r => forget_one fs r.1 r.2) fs reqs).
Proof.
  revert fs. induction reqs as [|r reqs IH]; intros fs Hn; [by apply grows_refl|]. cbn.
  pose proof (forget_grows fs Hn r.1 r.2) as Hg. apply (grows_trans 0 0 _ _ _ Hg), IH, Hg.
Qed.

Lemma pt_op_once (A : Set) (op : FsOp A) : session_op op = false -> grows_once (pt_op (H := H) A op).
Proof.
  intros Hop. destruct op; try done.
  all: try (apply once_quiet; cbn [pt_op default_op];
    unfold reading, get_fs, pt_unlink, pt_rmdir, pt_rename, pt_open, pt_release, pt_opendir, pt_releasedir, get_fs;
    repeat (apply pt_validated_pres; [apply _|intros ?]); prog_auto; fail).
  all: try (cbn [pt_op]; unfold pt_symlink, pt_mknod, pt_mkdir, pt_link, pt_create;
    apply once_validated; intros ?;
    repeat first [apply do_lookup_once | apply once_then; [prog_auto; fail|intros ?]
                 | apply once_before; [apply do_lookup_once|intros ?; unfold get_fs; prog_auto]]; fail).
  - cbn [pt_op]. unfold pt_lookup. destruct (contains _ _); [apply once_quiet; prog_auto|apply do_lookup_once].
  - intros fs h Hn Hlt. destruct (forget_grows fs Hn inode count) as (? & ? & ?). split_and!; try done; cbn in *; lia.
  - intros fs h Hn Hlt. destruct (forget_all_grows requests fs Hn) as (? & ? & ?). split_and!; try done; cbn in *; lia.
Qed.

(** A scan uses at most one number per record. *)
Lemma scan_grows {X} (add : DirEntry -> prog ((PassthroughFs * H) * X) io_error Z) b records fs h x :
  (forall d fs h x, numbered fs -> fs.(pt_next_inode) < U64_MAX -> grows 1 fs (add d (fs, h, x)).1.1.1) ->
  numbered fs -> fs.(pt_next_inode) + zlen records <= U64_MAX ->
  grows (zlen records) fs (scan_records add b records (fs, h, x)).1.1.1.
Proof.
  intros Ha. revert b fs h x. induction records as [|r records IH]; intros b fs h x Hn Hlt; [by apply grows_refl|].
  rewrite zlen_cons in *. pose proof (zlen_nonneg records). cbn [scan_records]. destruct (record_dot r).
  { destruct (IH false fs h x Hn) as (? & ? & ?); [lia|]. split_and!; try done; lia. }
  specialize (Ha (record_entry r) fs h x Hn ltac:(lia)).
  destruct (add (record_entry r) (fs, h, x)) as [[[fs1 h1] x1] res]. cbn in Ha.
  assert (grows (1 + zlen records) fs fs1) as Hw by (destruct Ha as (? & ? & ?); split_and!; try done; lia).
  destruct res; [|done..]. case_match; [done|].
  eapply grows_trans; [done|]. destruct Ha as (? & _ & ?). apply IH; [done|lia].
Qed.

Lemma do_readdir_grows {X} (add : DirEntry -> prog ((PassthroughFs * H) * X) io_error Z) i handle size offset fs h x :
  (forall d fs h x, numbered fs -> fs.(pt_next_inode) < U64_MAX -> grows 1 fs (add d (fs, h, x)).1.1.1) ->
  0 <= size -> numbered fs -> fs.(pt_next_inode) + size <= U64_MAX ->
  grows size fs (do_readdir i handle size offset add (fs, h, x)).1.1.1.
Proof.
  intros Ha Hsize Hn Hlt. destruct (do_readdir_cases i handle size offset add fs h x)
    as (h' & [(r & -> & Hr)|(records & _ & Hlen & ->)]); [by apply grows_refl|].
  pose proof (zlen_nonneg records).
  destruct (scan_grows add true records fs h' x Ha Hn) as (? & ? & ?); [lia|]. split_and!; try done; lia.
Qed.
End requests.

(** * Directory scans and the ledger

    READDIR looks every entry up and forgets it again; READDIRPLUS hands out a
    reference for each entry it delivers.  The root's own count, which FORGET
    never lowers, is left out of the comparison. *)

(** Two ledgers that agree but for the root. *)
Definition ledger_eq : relation Ledger := fun l l' => delete ROOT_ID l = delete ROOT_ID l'.

#[global] Instance ledger_eq_equiv : Equivalence ledger_eq.
Proof. split; unfold ledger_eq; [by intros l|by intros l l'|]. intros l1 l2 l3. congruence. Qed.

(** Every count has room for [n] more references. *)
Definition unsaturated (n : Z) (l : Ledger) : Prop := forall i c, l !! i = Some c -> 1 <= c /\ c + n < U64_MAX.

Lemma ledger_eq_lookup l l' i : i <> ROOT_ID -> ledger_eq l l' -> l !! i = l' !! i.
Proof. intros Hi He. rewrite <- (lookup_delete_ne l ROOT_ID i), <- (lookup_delete_ne l' ROOT_ID i) by done. by rewrite He. Qed.

Lemma hand_out_root l : ledger_eq (hand_out ROOT_ID l) l.
Proof. unfold ledger_eq, hand_out. by rewrite delete_insert_eq. Qed.

#[global] Instance hand_out_proper i : Proper (ledger_eq ==> ledger_eq) (hand_out i).
Proof.
  intros l l' Hl. destruct (decide (i = ROOT_ID)) as [->|Hi]; [by rewrite !hand_out_root|].
  unfold ledger_eq, hand_out. rewrite (ledger_eq_lookup l l' i Hi Hl).
  rewrite !delete_insert_ne by done. by rewrite Hl.
Qed.

Lemma take_back_hand_out i l : unsaturated 0 l -> ledger_eq (take_back i 1 (hand_out i l)) l.
Proof.
  intros Hu. unfold take_back. destruct (Z.eqb_spec i ROOT_ID) as [->|Hi]; [apply hand_out_root|].
  unfold hand_out. rewrite lookup_insert_eq. destruct (l !! i) as [c|] eqn:Hc.
  - destruct (Hu _ _ Hc) as [H1 H2]. rewrite Z.min_r by (unfold U64_MAX in *; lia).
    rewrite (proj2 (Z.leb_gt _ _)) by lia. rewrite insert_insert_eq.
    replace (c + 1 - 1) with c by lia. by rewrite insert_id.
  - cbn. by rewrite delete_insert_id.
Qed.

Lemma unsaturated_le n m l : m <= n -> unsaturated n l -> unsaturated m l.
Proof. intros Hm Hu i c Hi. specialize (Hu i c Hi). lia. Qed.

Lemma unsaturated_hand_out i n l : 0 <= n -> n + 1 < U64_MAX -> unsaturated (n + 1) l -> unsaturated n (hand_out i l).
Proof.
  intros Hn Hn1 Hu j c. unfold hand_out. rewrite lookup_insert_Some. intros [[<- <-]|[Hne Hj]].
  - destruct (l !! i) as [c|] eqn:Hc; [specialize (Hu _ _ Hc)|]; lia.
  - specialize (Hu _ _ Hj). lia.
Qed.

Lemma unsaturated_take_back i n m l : 0 <= m -> unsaturated n l -> unsaturated n (take_back i m l).
Proof.
  intros Hm Hu j c. unfold take_back. repeat case_match; [apply Hu| | |apply Hu].
  - intros [_ Hj]%lookup_delete_Some. by apply (Hu j).
  - intros [[<- <-]|[_ Hj]]%lookup_insert_Some; [|by apply (Hu j)]. specialize (Hu i z ltac:(done)). zify_bool. lia.
Qed.

(** ** One entry *)

Section scan.
Context {H : Type} `{HO : HostOk H}.
Implicit Types (fs : PassthroughFs) (h : H).

(** The scan can go on for [n] more entries, and the ledger is [l]. *)
Definition scanning (n : Z) (l : Ledger) (fs : PassthroughFs) : Prop :=
  numbers_ok fs /\ 0 <= n /\ fs.(pt_next_inode) + n <= U64_MAX /\ unsaturated n (refs fs) /\ ledger_eq (refs fs) l.

Lemma scanning_le n m l fs : 0 <= m <= n -> scanning n l fs -> scanning m l fs.
Proof. intros Hm (Hn & Hz & Hx & Hu & He). split_and!; try done; try lia. apply (unsaturated_le n m); [lia|done]. Qed.

(** The lookup of an entry. *)
Lemma scan_lookup n l parent name fs h :
  scanning (n + 1) l fs -> 0 <= n ->
  match do_lookup parent name (fs, h) with
  | ((fs', _), Ok e) => scanning n (hand_out e.(en_inode) l) fs' /\
      scanning n l (forget_one fs' e.(en_inode) 1)
  | ((fs', _), Err _) => scanning n l fs'
  | ((fs', _), Panic) => fs' = fs
  end.
Proof.
  intros (Hn & Hz & Hx & Hu & He) Hpos.
  assert (fs.(pt_next_inode) < U64_MAX) as Hlt by lia.
  assert (n + 1 < U64_MAX) as Hn1. { pose proof (no_root fs Hn). unfold ROOT_ID in *. lia. }
  pose proof (do_lookup_moves parent name fs h Hn Hlt) as [[Hn' Hb] Hr].
  pose proof (do_lookup_spec parent name fs h) as Hs.
  destruct (do_lookup parent name (fs, h)) as [[fs' h'] [e|e|]]; cbn in Hn', Hb, Hr; [| |by destruct Hs].
  - assert (scanning n (hand_out e.(en_inode) l) fs') as Hsc.
    { split_and!; [done|done|lia| |]; rewrite Hr; [by apply unsaturated_hand_out|by rewrite He]. }
    split; [done|]. destruct Hsc as (_ & _ & _ & Hu' & _).
    destruct (forget_numbers fs' e.(en_inode) 1 Hn') as [Hn'' Hb''].
    split_and!; [done|done|lia| |]; rewrite forget_ledger by (done || apply Hn').
    + by apply unsaturated_take_back.
    + rewrite Hr, take_back_hand_out; [done|]. apply (unsaturated_le (n + 1)); [lia|done].
  - split_and!; [done|done|lia| |]; rewrite Hr; [|done]. apply (unsaturated_le (n + 1)); [lia|done].
Qed.

(** READDIR leaves the ledger alone. *)
Lemma readdir_entry_scan {X} n l i (add : add_entry_t X) d fs h (x : X) :
  scanning (n + 1) l fs -> 0 <= n -> scanning n l (readdir_entry i add d (fs, h, x)).1.1.1.
Proof.
  intros Hs Hn. assert (scanning n l fs) as Hs0 by (eapply scanning_le; [|done]; lia).
  unfold readdir_entry, entry_name. destruct (d_name d) as [|c name] eqn:Hd; [done|]. rewrite <- Hd.
  rewrite (prog_bind_ok _ _ _ (fs, h, x) (d_name d)) by done.
  pose proof (scan_lookup n l i (d_name d) fs h Hs Hn) as Hl. unfold mbind, prog_mbind, prog_bind at 1, on_fst at 1. cbn [fst snd].
  destruct (do_lookup i (d_name d) (fs, h)) as [[fs' h'] [e|e|]]; [|done|by cbn; subst].
  destruct Hl as [_ Hl]. unfold prog_bind, on_fst, on_snd, modify. cbn. by destruct (add _ x).
Qed.

(** READDIRPLUS keeps the reference of an entry it delivers. *)
Definition logged {X} (add_entry : add_entry_plus_t X) : add_entry_plus_t (X * list Z) := fun d e s =>
  let '(x', r) := add_entry d e s.1 in
  ((x', match r with Ok n => if n =? 0 then s.2 else s.2 ++ [e.(en_inode)] | _ => s.2 end), r).

Definition hand_out_all (l : Ledger) (log : list Z) : Ledger := foldl (fun l i => hand_out i l) l log.

Lemma readdirplus_entry_scan {X} n l i (add : add_entry_plus_t X) d fs h (x : X) log :
  (forall d e x, exists n, (add d e x).2 = Ok n) ->
  scanning (n + 1) (hand_out_all l log) fs -> 0 <= n ->
  let '((fs', _, (_, log')), _) := readdirplus_entry i (logged add) d (fs, h, (x, log)) in
  scanning n (hand_out_all l log') fs'.
Proof.
  intros Hadd Hs Hn. assert (scanning n (hand_out_all l log) fs) as Hs0 by (eapply scanning_le; [|done]; lia).
  unfold readdirplus_entry, entry_name. destruct (d_name d) as [|c name] eqn:Hd; [done|]. rewrite <- Hd.
  rewrite (prog_bind_ok _ _ _ (fs, h, (x, log)) (d_name d)) by done.
  pose proof (scan_lookup n _ i (d_name d) fs h Hs Hn) as Hl.
  unfold mbind, prog_mbind, prog_bind at 1, on_fst at 1. cbn [fst snd].
  destruct (do_lookup i (d_name d) (fs, h)) as [[fs' h'] [e|e|]]; [|done|by cbn; subst].
  unfold prog_bind, on_snd, logged. cbn.
  destruct (Hadd (set_d_ino d e.(en_attr).(st_ino)) e x) as [m Hm]. destruct (add _ e x) as [x' r]. cbn in Hm. subst r.
  destruct (m =? 0); cbn; [apply Hl|]. unfold hand_out_all. rewrite foldl_app. apply Hl.
Qed.
End scan.
