(* ===== verification/PassthroughSession.v ===== *)
(** * Sessions of the passthrough file system

    A session starts from a new instance whose root has been imported and
    serves requests.  [serves n w w'] counts, in [n], the inode numbers a
    session may have used; the counter is 64 bits wide and the theorems hold
    for sessions that have not used it up. *)

From stdpp Require Import gmap.
From S2P Require Import Prelude Std Lib Codec Abi AbiStruct FsTypes FileSystem Vfs ProgLogic Host HostLaws InodeStore.
From S2P Require Import MountFds Passthrough PassthroughSync PassthroughProps PassthroughTable PassthroughRequests.
From S2P Require Import PassthroughDir PassthroughLedger PassthroughIdentity.

(** [PassthroughFs::new] followed by [import]. *)
Definition started {H : Type} `{Host H} (cfg : Config) (w : PassthroughFs * H) : Prop :=
  exists h0 h1 fs, PassthroughFs_new cfg h0 = (h1, Ok fs) /\ import (fs, h1) = (w, Ok tt).

Inductive serves {H : Type} `{Host H} : Z -> PassthroughFs * H -> PassthroughFs * H -> Prop :=
| serves_nil w : serves 0 w w
| serves_op n w (A : Set) (op : FsOp A) w' :
    session_op op = false -> serves n (fs_op op w).1 w' -> serves (1 + n) w w'
| serves_read n w ctx inode handle available size offset lock_owner flags w' :
    serves n (fs_read ctx inode handle available size offset lock_owner flags w).1 w' -> serves n w w'
| serves_write n w ctx inode handle data size offset lock_owner delayed flags fuse_flags w' :
    serves n (fs_write ctx inode handle data size offset lock_owner delayed flags fuse_flags w).1 w' -> serves n w w'
| serves_readdir n w X ctx inode handle size offset (add_entry : add_entry_t X) (x : X) w' :
    0 <= size ->
    serves n (fs_readdir ctx inode handle size offset add_entry (w, x)).1.1 w' -> serves (size + n) w w'
| serves_readdirplus n w X ctx inode handle size offset (add_entry : add_entry_plus_t X) (x : X) w' :
    0 <= size ->
    serves n (fs_readdirplus ctx inode handle size offset add_entry (w, x)).1.1 w' -> serves (size + n) w w'.

Section session.
Context {H : Type} `{HO : HostOk H}.
Implicit Types (fs : PassthroughFs) (h : H) (w : PassthroughFs * H).

(** ** The start *)

Lemma import_ok fs h w :
  import (fs, h) = (w, Ok tt) ->
  exists m handle st, w.1 = replace_inodes (set_mount_fds fs m)
    (InodeStore_insert fs.(pt_inodes) (MkInodeData ROOT_ID handle (InodeId_from_stat st) 2 st.(se_st).(st_mode))) /\
    cstr_ok fs.(pt_cfg).(cfg_root_dir) = true.
Proof.
  unfold import. rewrite (prog_bind_ok _ _ _ (fs, h) fs) by done.
  destruct (cstr_ok _) eqn:Hc; [|done]. intros Hi.
  apply prog_bind_inv_ok in Hi as (w1 & [[fd ho] st] & Ho & Hi).
  assert (w1 = (fs, w1.2)) as Hw1. { unfold on_snd in Ho. destruct (open_file_and_handle _ _ _ _). by simplify_eq/=. }
  rewrite Hw1 in Hi. apply prog_bind_inv_ok in Hi as (w2 & handle & Hn & Hi).
  pose proof (new_inode_handle_spec ho fd fs w1.2) as Hs. rewrite Hn in Hs. destruct w2 as [fs2 h2].
  destruct Hs as [[m ->] _]. apply prog_bind_inv_ok in Hi as (w3 & r & Hu & Hi).
  assert (w3.1 = set_mount_fds fs m) as Hw3.
  { unfold on_snd, attempt in Hu. cbn in Hu. destruct (sys (sys_umask 0) h2). by simplify_eq/=. }
  destruct w3 as [fs3 h3]. cbn in Hw3. subst fs3. unfold modify in Hi. simplify_eq. by exists m, handle, st.
Qed.

Lemma new_ok cfg h0 h1 fs :
  PassthroughFs_new cfg h0 = (h1, Ok fs) ->
  fs.(pt_inodes) = InodeStore_default /\ fs.(pt_next_inode) = ROOT_ID + 1 /\ fs.(pt_cfg) = sanitize_config cfg.
Proof.
  unfold PassthroughFs_new. intros Hn. apply prog_bind_inv_ok in Hn as (h2 & fd & _ & Hn).
  apply prog_bind_inv_ok in Hn as (h3 & m & _ & Hn). cbv [mret prog_ret] in Hn. by simplify_eq/=.
Qed.

Lemma started_live cfg w : started cfg w -> pt_live w.1.
Proof.
  intros (h0 & h1 & fs & (Hi & Hn & Hc)%new_ok & (m & handle & st & Hw & Hroot)%import_ok).
  split; [|by rewrite Hw]. rewrite Hw. intros i d. cbn. rewrite Hi. cbn.
  rewrite lookup_insert_Some, lookup_empty. intros [[<- <-]|[_ ?]]; [cbn; lia|done].
Qed.

Lemma started_numbers cfg w :
  started cfg w -> cfg.(cfg_use_host_ino) = false ->
  numbers_ok w.1 /\ w.1.(pt_next_inode) = 2 /\ refs w.1 = {[ROOT_ID := 2]}.
Proof.
  intros Hs Hown. pose proof (started_live cfg w Hs) as [Hlive _].
  destruct Hs as (h0 & h1 & fs & (Hi & Hn & Hc)%new_ok & (m & handle & st & Hw & Hroot)%import_ok).
  rewrite Hw in *. split_and!; [|done|].
  - split; [cbn; by rewrite Hc|done|..]; cbn; rewrite ?Hi, ?Hn; cbn; try done.
    + intros i d. rewrite lookup_insert_Some, lookup_empty. intros [[<- _]|[_ ?]]; done.
    + intros k i. rewrite lookup_insert_Some, lookup_empty. intros [[_ <-]|[_ ?]]; done.
    + intros k i. destruct (InodeHandle_file_handle handle); [|done].
      rewrite lookup_insert_Some, lookup_empty. intros [[_ <-]|[_ ?]]; done.
  - unfold refs. cbn. rewrite Hi. cbn. by rewrite insert_empty, map_fmap_singleton.
Qed.

Lemma started_numbered cfg w :
  started cfg w -> cfg.(cfg_use_host_ino) = false -> cfg.(cfg_inode_file_handles) = false ->
  numbered w.1 /\ w.1.(pt_next_inode) = 2.
Proof.
  intros Hs Hown Hh. destruct (started_numbers cfg w Hs Hown) as (Hok & Hnx & _).
  destruct Hs as (h0 & h1 & fs & (Hi & Hn & Hc)%new_ok & (m & handle & st & Hw & _)%import_ok).
  split; [|done]. split; [done|by rewrite Hw; cbn; rewrite Hc| |]; rewrite Hw; cbn; rewrite Hi; cbn.
  - intros i d. rewrite lookup_insert_Some, lookup_empty. intros [[<- <-]|[_ ?]]; [|done]. by rewrite lookup_insert_eq.
  - intros k k' i. rewrite !lookup_insert_Some, !lookup_empty. naive_solver.
Qed.

(** ** Serving *)

Lemma pt_read_quiet ctx i handle av size offset lo flags w :
  quiet w.1 (pt_read ctx i handle av size offset lo flags w).1.1.
Proof.
  unfold pt_read. set (m := get_fs ≫= _).
  assert (pres (fst_rel quiet) m) as Hm.
  { unfold m, get_fs, check_fd_flags. prog_auto. apply pres_modify. intros fs. by repeat case_match. }
  specialize (Hm w). by destruct (m w) as [w' []].
Qed.

Lemma pt_write_quiet ctx i handle data size offset lo dw flags ff w :
  quiet w.1 (pt_write ctx i handle data size offset lo dw flags ff w).1.1.
Proof.
  assert (pres (fst_rel quiet) (pt_write (H := H) ctx i handle data size offset lo dw flags ff)) as Hm; [|apply (Hm w)].
  unfold pt_write, get_fs, check_fd_flags. prog_auto. apply pres_modify. intros fs. by repeat case_match.
Qed.

Lemma readdir_entry_grows {X} i (add : add_entry_t X) d fs h x :
  numbered fs -> fs.(pt_next_inode) < U64_MAX -> grows 1 fs (readdir_entry i add d (fs, h, x)).1.1.1.
Proof.
  intros Hn Hlt. pose proof (do_lookup_once i (d_name d) fs h Hn Hlt) as Hg.
  unfold readdir_entry, entry_name. destruct (d_name d) as [|c name]; [by apply grows_refl|].
  rewrite (prog_bind_ok _ _ _ (fs, h, x) (c :: name)) by done.
  unfold mbind, prog_mbind, prog_bind, on_fst, on_snd, modify. cbn in *.
  destruct (do_lookup i (c :: name) (fs, h)) as [[fs' h'] [e|e|]]; cbn in *; [|done..].
  destruct (add _ x). cbn. apply (grows_trans 1 0 _ _ _ Hg), forget_grows, Hg.
Qed.

Lemma readdirplus_entry_grows {X} i (add : add_entry_plus_t X) d fs h x :
  numbered fs -> fs.(pt_next_inode) < U64_MAX -> grows 1 fs (readdirplus_entry i add d (fs, h, x)).1.1.1.
Proof.
  intros Hn Hlt. pose proof (do_lookup_once i (d_name d) fs h Hn Hlt) as Hg.
  unfold readdirplus_entry, entry_name. destruct (d_name d) as [|c name]; [by apply grows_refl|].
  rewrite (prog_bind_ok _ _ _ (fs, h, x) (c :: name)) by done.
  unfold mbind, prog_mbind, prog_bind, on_fst, on_snd, modify. cbn in *.
  destruct (do_lookup i (c :: name) (fs, h)) as [[fs' h'] [e|e|]]; cbn in *; [|done..].
  destruct (add _ e x) as [x' [r|e'|]]; cbn; [|done..]. destruct (r =? 0); cbn; [|done].
  apply (grows_trans 1 0 _ _ _ Hg), forget_grows, Hg.
Qed.

Lemma serves_grows n w w' :
  serves n w w' -> numbered w.1 -> w.1.(pt_next_inode) + n <= U64_MAX -> grows n w.1 w'.1.
Proof.
  assert (forall n m fs fs1 fs2, grows m fs fs1 -> (numbered fs1 -> fs1.(pt_next_inode) + n <= U64_MAX ->
    grows n fs1 fs2) -> fs.(pt_next_inode) + (m + n) <= U64_MAX -> grows (m + n) fs fs2) as Hstep.
  { intros n0 m0 fs fs1 fs2 Hg Hk Hb. eapply grows_trans; [done|]. destruct Hg as (? & _ & ?). apply Hk; [done|lia]. }
  induction 1 as [w|n w A op w' Hop Hs IH|n w ctx i handle av size offset lo flags w' Hs IH
    |n w ctx i handle data size offset lo dw flags ff w' Hs IH|n w X ctx i handle size offset add x w' Hsz Hs IH
    |n w X ctx i handle size offset add x w' Hsz Hs IH]; intros Hn Hlt.
  - by apply grows_refl.
  - assert (0 <= n) as Hpos by (clear -Hs; induction Hs; lia). destruct w as [fs h].
    eapply Hstep; [apply pt_op_once; [done|done|cbn in *; lia]|done|done].
  - apply (Hstep n 0 _ _ _ (quiet_grows 0 _ _ _ (grows_refl 0 _ ltac:(done) Hn) (pt_read_quiet ctx i handle av size offset lo flags w)));
      [done|lia].
  - apply (Hstep n 0 _ _ _ (quiet_grows 0 _ _ _ (grows_refl 0 _ ltac:(done) Hn) (pt_write_quiet ctx i handle data size offset lo dw flags ff w)));
      [done|lia].
  - assert (0 <= n) as Hpos by (clear -Hs; induction Hs; lia). destruct w as [fs h]. eapply Hstep; [|done|done].
    cbn. unfold pt_readdir. rewrite (prog_bind_ok _ _ _ (fs, h, x) fs) by done.
    destruct (pt_no_readdir fs); [by apply grows_refl|].
    apply do_readdir_grows; [apply readdir_entry_grows|done|done|cbn in *; lia].
  - assert (0 <= n) as Hpos by (clear -Hs; induction Hs; lia). destruct w as [fs h]. eapply Hstep; [|done|done].
    cbn. unfold pt_readdirplus. rewrite (prog_bind_ok _ _ _ (fs, h, x) fs) by done.
    destruct (pt_no_readdir fs); [by apply grows_refl|].
    apply do_readdir_grows; [apply readdirplus_entry_grows|done|done|cbn in *; lia].
Qed.
End session.
