(* ===== verification/PassthroughClaims.v ===== *)
(** * Theorems on the inode table of the passthrough file system

    What a client of a session can rely on: the references it holds, the
    meaning of inode numbers, and directory scans.  Each theorem is evaluated
    on the small host of [ToyHost]. *)

From stdpp Require Import gmap.
From S2P Require Import Prelude Std Lib Codec Abi AbiStruct FsTypes FileSystem Vfs ProgLogic Host HostLaws ToyHost.
From S2P Require Import InodeStore MountFds Passthrough PassthroughSync PassthroughProps PassthroughTable.
From S2P Require Import PassthroughRequests PassthroughDir PassthroughLedger PassthroughIdentity PassthroughSession.

(** ** Examples *)

(** A session on the small host; the other branch is not taken. *)
Definition toy_session (cfg : Config) : PassthroughFs * ToyHost :=
  match PassthroughFs_new cfg toy_host with
  | (h, Ok fs) => (import (fs, h)).1
  | (h, _) => (MkPassthroughFs InodeStore_default 0 ∅ 0 UniqueInodeGenerator_new (with_mount_info_file 0 None) 0
                 false false false false false false false Duration_default Duration_default cfg, h)
  end.

Definition toy_fs : PassthroughFs * ToyHost := toy_session Config_default.

Definition caller : Context := MkContext 1000 100 1.

Lemma toy_fs_started : started Config_default toy_fs.
Proof.
  exists toy_host, (PassthroughFs_new Config_default toy_host).1.
  exists (match (PassthroughFs_new Config_default toy_host).2 with Ok fs => fs | _ => toy_fs.1 end).
  split; vm_compute; reflexivity.
Qed.

(** ** The ledger *)

(** A call of the file system's interface. *)
Record Call : Type := MkCall {
  call_type : Set;
  call_op : FsOp call_type;
}.

(** A call of a running session, with unsigned counts. *)
Definition call_ok (c : Call) : bool := negb (session_op c.(call_op)) && counts_ok c.(call_op).

(** Serve calls one after the other, keeping the client's books on the side:
    the references the replies handed out and FORGET took back, and whether a
    CREATE failed. *)
Fixpoint run_calls {F} `{FileSystem F} (calls : list Call) (w : F) (l : Ledger) (leaked : bool) : F * Ledger * bool :=
  match calls with
  | [] => (w, l, leaked)
  | c :: calls' =>
    let '(w', r) := fs_op c.(call_op) w in
    run_calls calls' w' (ledger_op c.(call_op) r l) (leaked || may_leak c.(call_op) r)
  end.

(** [l] owes no more than [l']. *)
Definition ledger_le (l l' : Ledger) : Prop :=
  forall i n, l !! i = Some n -> exists n', l' !! i = Some n' /\ n <= n'.

(** Counts of an inode that is known are 64-bit and not zero. *)
Definition bounded (l : Ledger) : Prop := forall i n, l !! i = Some n -> 1 <= n <= U64_MAX.

Lemma hand_out_bounded i l : bounded l -> bounded (hand_out i l).
Proof.
  intros Hb j n. unfold hand_out. rewrite lookup_insert_Some. intros [[<- <-]|[_ Hj]]; [|by eapply Hb].
  destruct (l !! i) as [m|] eqn:Hi; [specialize (Hb _ _ Hi)|]; unfold U64_MAX in *; lia.
Qed.

Lemma take_back_bounded i k l : 0 <= k -> bounded l -> bounded (take_back i k l).
Proof.
  intros Hk Hb j n. unfold take_back. repeat case_match; [apply Hb| | |apply Hb].
  - intros [_ Hj]%lookup_delete_Some. by apply (Hb j).
  - intros [[<- <-]|[_ Hj]]%lookup_insert_Some; [|by apply (Hb j)]. specialize (Hb i z ltac:(done)). zify_bool. lia.
Qed.

Lemma hand_out_mono i l l' : bounded l' -> ledger_le l l' -> ledger_le (hand_out i l) (hand_out i l').
Proof.
  intros Hb Hl j n. unfold hand_out. rewrite lookup_insert_Some. intros [[<- <-]|[Hne Hj]].
  - rewrite lookup_insert_eq. eexists; split; [done|].
    destruct (l !! i) as [n|] eqn:Hi; [destruct (Hl _ _ Hi) as (n' & -> & ?); lia|].
    destruct (l' !! i) as [n'|] eqn:Hi'; [specialize (Hb _ _ Hi'); unfold U64_MAX; lia|done].
  - rewrite lookup_insert_ne by done. by apply Hl.
Qed.

Lemma hand_out_le i l : bounded l -> ledger_le l (hand_out i l).
Proof.
  intros Hb j n Hj. unfold hand_out. destruct (decide (i = j)) as [<-|Hne].
  - rewrite lookup_insert_eq, Hj. eexists; split; [done|]. specialize (Hb _ _ Hj). lia.
  - rewrite lookup_insert_ne by done. by exists n.
Qed.

Lemma take_back_mono i k l l' : ledger_le l l' -> ledger_le (take_back i k l) (take_back i k l').
Proof.
  intros Hl j n. unfold take_back. destruct (i =? ROOT_ID); [apply Hl|].
  destruct (l !! i) as [r|] eqn:Hi; [destruct (Hl _ _ Hi) as (r' & Hi' & Hr); rewrite Hi'|].
  - destruct (Z.leb_spec r k).
    + intros [Hne Hj]%lookup_delete_Some. destruct (Hl _ _ Hj) as (n' & Hn' & ?).
      case_match; [rewrite lookup_delete_ne by done|rewrite lookup_insert_ne by done]; eauto.
    + rewrite (proj2 (Z.leb_gt _ _)) by lia. intros [[<- <-]|[Hne Hj]]%lookup_insert_Some.
      * rewrite lookup_insert_eq. eexists; split; [done|lia].
      * rewrite lookup_insert_ne by done. by apply Hl.
  - intros Hj. assert (i <> j) as Hne by congruence. destruct (Hl _ _ Hj) as (n' & Hn' & ?).
    destruct (l' !! i); [|by eauto]. case_match; [rewrite lookup_delete_ne by done|rewrite lookup_insert_ne by done]; eauto.
Qed.

Lemma ledger_le_trans l1 l2 l3 : ledger_le l1 l2 -> ledger_le l2 l3 -> ledger_le l1 l3.
Proof.
  intros H12 H23 i n Hi. destruct (H12 _ _ Hi) as (n2 & H2 & ?). destruct (H23 _ _ H2) as (n3 & H3 & ?).
  exists n3. split; [done|lia].
Qed.

(** The effect of a call on a ledger keeps counts in range and grows with it. *)
Lemma ledger_op_mono {A : Set} (op : FsOp A) r l l' :
  counts_ok op = true -> bounded l' -> ledger_le l l' ->
  bounded (ledger_op op r l') /\ ledger_le (ledger_op op r l) (ledger_op op r l').
Proof.
  intros Hc Hb Hl. destruct op; cbn in *;
    try (destruct r as [a|e|]; cbn; auto using hand_out_bounded, hand_out_mono; fail).
  - apply Z.leb_le in Hc. auto using take_back_bounded, take_back_mono.
  - revert l l' Hb Hl Hc. induction requests as [|[i k] reqs IH]; intros l l' Hb Hl Hc; cbn in *; [done|].
    apply andb_true_iff in Hc as [Hk%Z.leb_le Hc]. apply IH; auto using take_back_bounded, take_back_mono.
Qed.

Lemma run_calls_ledger {H : Type} `{HO : HostOk H} calls (w : PassthroughFs * H) l leaked :
  forallb call_ok calls = true -> pt_live w.1 -> numbers_ok w.1 -> bounded (refs w.1) ->
  w.1.(pt_next_inode) + zlen calls <= U64_MAX ->
  ledger_le l (refs w.1) -> (leaked = false -> refs w.1 = l) ->
  let '(w', l', leaked') := run_calls calls w l leaked in
  ledger_le l' (refs w'.1) /\ (leaked' = false -> refs w'.1 = l').
Proof.
  revert w l leaked. induction calls as [|[A op] calls IH]; intros w l leaked Hok Hlive Hn Hb Hroom Hle Heq; [done|].
  cbn [forallb] in Hok. apply andb_true_iff in Hok as [[Hses%negb_true_iff Hc]%andb_true_iff Hok]. cbn in Hses, Hc.
  rewrite zlen_cons in Hroom. pose proof (zlen_nonneg calls). cbn [run_calls call_op].
  pose proof (pt_op_live A op w Hlive) as [Hlive' Hp]. destruct w as [fs h].
  pose proof (pt_op_ledger A op fs h Hses Hc Hn ltac:(cbn in *; lia)) as Hled.
  cbn [fs_op PassthroughFs_filesystem call_type]. destruct (pt_op A op (fs, h)) as [[fs' h'] r]. cbn in Hlive', Hp.
  specialize (Hled Hp) as [[Hn' Hx] Hcase]. cbn in Hle, Heq, Hb, Hroom.
  destruct (ledger_op_mono op r l (refs fs) Hc Hb Hle) as [Hb' Hle'].
  apply (IH (fs', h') (ledger_op op r l) (leaked || may_leak op r)); cbn; try done; try lia.
  - destruct Hcase as [->|[_ [i ->]]]; [done|by apply hand_out_bounded].
  - destruct Hcase as [->|[Hleak [i ->]]]; [done|].
    destruct op; try done. destruct r; try done. eapply ledger_le_trans; [done|by apply hand_out_le].
  - intros [Hl0 Hm]%orb_false_iff. destruct Hcase as [->|[Hleak _]]; [by rewrite Heq|congruence].
Qed.

(** C5: references are accounted for.  In a session of the passthrough file
    system with its own inode numbers, serve any sequence of calls and keep
    the client's books: one reference for every entry a reply carried (LOOKUP,
    MKDIR, MKNOD, SYMLINK, LINK, CREATE), minus what FORGET and BATCH_FORGET
    gave back.  Every inode on the books is then known to the file system, with
    at least that many references, so no operation on it fails for lack of an
    inode; and if no CREATE failed the books and the table agree exactly, so
    no inode outlives its references. *)
Theorem ledger_refinement {H : Type} `{HO : HostOk H} cfg (w : PassthroughFs * H) calls :
  started cfg w -> cfg.(cfg_use_host_ino) = false ->
  forallb call_ok calls = true -> zlen calls + 2 <= U64_MAX ->
  let '(w', l, leaked) := run_calls calls w {[ROOT_ID := 2]} false in
  (forall i n, l !! i = Some n ->
     exists d, InodeMap_get w'.1.(pt_inodes) i = Ok d /\ n <= d.(nd_refcount)) /\
  (leaked = false -> refs w'.1 = l).
Proof.
  intros Hs Hown Hok Hlen. destruct (started_numbers cfg w Hs Hown) as (Hn & Hnx & Hr).
  pose proof (run_calls_ledger calls w {[ROOT_ID := 2]} false Hok (started_live cfg w Hs) Hn) as Hrun.
  rewrite Hr in Hrun. destruct (run_calls calls w _ false) as [[w' l] leaked].
  destruct Hrun as [Hle Heq]; [|lia|by intros i n Hi; exists n|done|].
  { intros i n. rewrite lookup_singleton_Some. intros [_ <-]. done. }
  split; [|done]. intros i n Hi. destruct (Hle _ _ Hi) as (n' & Hn' & Hnn).
  unfold refs in Hn'. rewrite lookup_fmap in Hn'. apply fmap_Some in Hn' as (d & Hd & ->).
  exists d. split; [|done]. unfold InodeMap_get, InodeStore_get. by rewrite Hd.
Qed.

(** A directory is made, looked up again and forgotten once. *)
Definition example_calls : list Call :=
  [MkCall _ (op_mkdir caller ROOT_ID [97] 0x1ff 0); MkCall _ (op_lookup caller ROOT_ID [97]);
   MkCall _ (op_forget caller 2 1)].

Lemma ledger_refinement_witness :
  let '(w', l, leaked) := run_calls example_calls toy_fs {[ROOT_ID := 2]} false in
  l = {[ROOT_ID := 2; 2 := 1]} /\
  (forall i n, l !! i = Some n ->
     exists d, InodeMap_get w'.1.(pt_inodes) i = Ok d /\ n <= d.(nd_refcount)) /\
  (leaked = false -> refs w'.1 = l).
Proof.
  pose proof (ledger_refinement Config_default toy_fs example_calls toy_fs_started eq_refl eq_refl ltac:(by vm_compute)) as Hw.
  destruct (run_calls example_calls toy_fs _ false) as [[w' l] leaked] eqn:Hr.
  split; [|exact Hw]. vm_compute in Hr. by injection Hr as _ <- _.
Defined.

(** C29: an inode number means one host file.  In a session with its own inode
    numbers and without file handles, two successful lookups, at any two
    moments and with any requests in between, answer with the same inode
    number exactly when the host reports the same file: the same inode, device
    and mount.  In particular a number is not reused after FORGET, and a
    forgotten file gets its old number back. *)
Theorem lookup_identity {H : Type} `{HO : HostOk H} cfg (w w1 w2 w3 w4 : PassthroughFs * H)
    n m c1 parent1 name1 e1 c2 parent2 name2 e2 :
  started cfg w -> cfg.(cfg_use_host_ino) = false -> cfg.(cfg_inode_file_handles) = false ->
  serves n w w1 -> fs_op (op_lookup c1 parent1 name1) w1 = (w2, Ok e1) ->
  serves m w2 w3 -> fs_op (op_lookup c2 parent2 name2) w3 = (w4, Ok e2) ->
  n + m + 4 <= U64_MAX ->
  exists k1 k2, host_id parent1 name1 w1 = Some k1 /\ host_id parent2 name2 w3 = Some k2 /\
    (e1.(en_inode) = e2.(en_inode) <-> k1 = k2).
Proof.
  intros Hs Hown Hfh H1 L1 H2 L2 Hroom. destruct (started_numbered cfg w Hs Hown Hfh) as [Hnb Hnx].
  assert (0 <= n /\ 0 <= m) as [Hn0 Hm0] by (split; [clear -H1; induction H1; lia|clear -H2; induction H2; lia]).
  destruct (serves_grows n w w1 H1 Hnb) as (Hnb1 & _ & Hb1); [lia|].
  assert (forall c parent name (v v' : PassthroughFs * H) e, numbered v.1 -> v.1.(pt_next_inode) < U64_MAX ->
    fs_op (op_lookup c parent name) v = (v', Ok e) -> exists k, host_id parent name v = Some k /\
    grows 1 v.1 v'.1 /\ v'.1.(pt_inodes).(sto_by_id) !! k = Some e.(en_inode)) as Hlook.
  { intros c parent name [fs h] [fs' h'] e Hnv Hlt. cbn. unfold pt_lookup. destruct (contains _ _); [done|]. intros Hl.
    pose proof (do_lookup_spec parent name fs h) as Hsp. rewrite Hl in Hsp.
    destruct Hsp as (k & ho & st & Hlk & _ & _ & Hid & Hho). rewrite (Hho (nb_handles fs Hnv)) in Hlk.
    exists k. split; [done|]. by eapply looked_up_grows. }
  destruct (Hlook _ _ _ _ _ _ Hnb1 ltac:(lia) L1) as (k1 & Hk1 & (Hnb2 & _ & Hb2) & Hid1).
  destruct (serves_grows m w2 w3 H2 Hnb2) as (Hnb3 & Hsub3 & Hb3); [lia|].
  destruct (Hlook _ _ _ _ _ _ Hnb3 ltac:(lia) L2) as (k2 & Hk2 & (Hnb4 & Hsub4 & _) & Hid2).
  exists k1, k2. split_and!; [done|done|].
  assert (w4.1.(pt_inodes).(sto_by_id) !! k1 = Some e1.(en_inode)) as Hid1'.
  { eapply lookup_weaken; [|exact Hsub4]. by eapply lookup_weaken. }
  split; [|by intros <-; congruence]. intros He. rewrite He in Hid1'. by eapply (nb_inj _ Hnb4).
Qed.

(** Two lookups of a directory, with a FORGET that drops it in between. *)
Lemma lookup_identity_witness :
  exists (w1 w2 w3 w4 : PassthroughFs * ToyHost) e1 e2,
    fs_op (op_lookup caller ROOT_ID [97]) w1 = (w2, Ok e1) /\
    w3 = (fs_op (op_forget caller e1.(en_inode) 2) w2).1 /\ refs w3.1 !! e1.(en_inode) = None /\
    fs_op (op_lookup caller ROOT_ID [97]) w3 = (w4, Ok e2) /\
    exists k1 k2, host_id ROOT_ID [97] w1 = Some k1 /\ host_id ROOT_ID [97] w3 = Some k2 /\
      (e1.(en_inode) = e2.(en_inode) <-> k1 = k2).
Proof.
  set (w1 := (fs_op (op_mkdir caller ROOT_ID [97] 0x1ff 0) toy_fs).1).
  set (r1 := fs_op (op_lookup caller ROOT_ID [97]) w1).
  set (e1 := match r1.2 with Ok e => e | _ => Entry_default end).
  set (w3 := (fs_op (op_forget caller e1.(en_inode) 2) r1.1).1).
  set (r2 := fs_op (op_lookup caller ROOT_ID [97]) w3).
  set (e2 := match r2.2 with Ok e => e | _ => Entry_default end).
  assert (fs_op (op_lookup caller ROOT_ID [97]) w1 = (r1.1, Ok e1)) as L1 by by vm_compute.
  assert (fs_op (op_lookup caller ROOT_ID [97]) w3 = (r2.1, Ok e2)) as L2 by by vm_compute.
  exists w1, r1.1, w3, r2.1, e1, e2. split_and!; [exact L1|done|by vm_compute|exact L2|].
  apply (lookup_identity Config_default toy_fs w1 r1.1 w3 r2.1 (1 + 0) (1 + 0) caller ROOT_ID [97] e1 caller ROOT_ID [97] e2);
    [apply toy_fs_started|done|done| |exact L1| |exact L2|by vm_compute].
  - by apply serves_op with (op := op_mkdir caller ROOT_ID [97] 0x1ff 0); [|apply serves_nil].
  - by apply serves_op with (op := op_forget caller e1.(en_inode) 2); [|apply serves_nil].
Defined.

(** ** Directory scans *)

Lemma scan_invariant {H X : Type} `{HO : HostOk H} (J : Z -> PassthroughFs -> X -> Prop)
    i handle size offset (add : DirEntry -> prog ((PassthroughFs * H) * X) io_error Z) fs (h : H) x :
  (forall n m fs x, 0 <= m <= n -> J n fs x -> J m fs x) ->
  (forall n d fs h x, 0 <= n -> J (n + 1) fs x ->
     let s := (add d (fs, h, x)).1 in J n s.1.1 s.2) ->
  0 <= size -> J size fs x ->
  let s := ((fs ← on_fst get_fs; if (fs.(pt_no_readdir) : bool) then mret tt
             else do_readdir i handle size offset add) (fs, h, x)).1 in J 0 s.1.1 s.2.
Proof.
  intros Hle Ha Hs HJ. rewrite (prog_bind_ok _ _ _ (fs, h, x) fs) by done.
  destruct (pt_no_readdir fs); [by eapply Hle; [|done]|].
  destruct (do_readdir_cases i handle size offset add fs h x)
    as (h' & [(r & -> & Hr)|(records & _ & Hlen & ->)]); [by eapply Hle; [|done]|].
  specialize (Hlen Hs). pose proof (zlen_nonneg records).
  apply (scan_records_count (fun n (s : (PassthroughFs * H) * X) => J n s.1.1 s.2)).
  - intros n m s. apply Hle.
  - intros n d [[fs1 h1] x1]. apply Ha.
  - cbn. eapply Hle; [|done]. lia.
Qed.

Lemma run_calls_numbers {H : Type} `{HO : HostOk H} calls (w : PassthroughFs * H) l leaked :
  forallb call_ok calls = true -> pt_live w.1 -> numbers_ok w.1 ->
  w.1.(pt_next_inode) + zlen calls <= U64_MAX -> numbers_ok (run_calls calls w l leaked).1.1.1.
Proof.
  revert w l leaked. induction calls as [|[A op] calls IH]; intros w l leaked Hok Hlive Hn Hroom; [done|].
  cbn [forallb] in Hok. apply andb_true_iff in Hok as [[Hses%negb_true_iff Hc]%andb_true_iff Hok]. cbn in Hses, Hc.
  rewrite zlen_cons in Hroom. pose proof (zlen_nonneg calls). cbn [run_calls call_op].
  pose proof (pt_op_live A op w Hlive) as [Hlive' Hp]. destruct w as [fs h].
  pose proof (pt_op_ledger A op fs h Hses Hc Hn ltac:(cbn in *; lia)) as Hled.
  cbn [fs_op PassthroughFs_filesystem call_type]. destruct (pt_op A op (fs, h)) as [[fs' h'] r]. cbn in Hlive', Hp.
  specialize (Hled Hp) as [[Hn' Hx] _]. cbn in Hroom. apply IH; cbn; [done|done|done|lia].
Qed.

(** C30: directory scans and references, in a file system that numbers its
    inodes itself ([use_host_ino] is off): whose table has no entry with a count of
    zero and only numbers below the next one to give out, as any session of calls
    leaves it.  The buffer of a scan has [size] bytes, and there is room for as
    many more numbers in the counter and more references in every count.  READDIR
    leaves the reference count of every inode but the root as it found it,
    although it looks every entry up.  READDIRPLUS adds exactly one reference for
    each entry the callback took, when the callback does not fail: an entry
    that no longer fits is forgotten again.  (With [use_host_ino] a number of the
    host that is used again may replace an entry, and this does not hold.) *)
Theorem scans_account {H X : Type} `{HO : HostOk H} (w : PassthroughFs * H) ctx i handle size offset :
  numbers_ok w.1 -> 0 <= size -> w.1.(pt_next_inode) + size <= U64_MAX -> unsaturated size (refs w.1) ->
  (forall (add : add_entry_t X) x,
     ledger_eq (refs (fs_readdir ctx i handle size offset add (w, x)).1.1.1) (refs w.1)) /\
  (forall (add : add_entry_plus_t X) x,
     (forall d e y, exists n, (add d e y).2 = Ok n) ->
     let '(w', (_, log)) := (fs_readdirplus ctx i handle size offset (logged add) (w, (x, []))).1 in
     ledger_eq (refs w'.1) (hand_out_all (refs w.1) log)).
Proof.
  intros Hn Hs Hr Hu. destruct w as [fs h]. cbn in Hn, Hr, Hu.
  assert (scanning size (refs fs) fs) as Hsc by by split_and!. split.
  - intros add x. apply (scan_invariant (fun n fs' (_ : X) => scanning n (refs fs) fs') i handle size offset); try done.
    + intros n m fs1 _. apply scanning_le.
    + intros n d fs1 h1 x1 Hn0 Hn1. by apply readdir_entry_scan.
  - intros add x Hadd. cbn. unfold pt_readdirplus.
    pose proof (scan_invariant (fun n fs' (y : X * list Z) => scanning n (hand_out_all (refs fs) y.2) fs') i handle size
                  offset (readdirplus_entry i (logged add)) fs h (x, [])) as Hc.
    destruct (_ ≫= _) as [[[fs' h'] [x' log]] r]. cbn in Hc. apply Hc; [|clear Hc|done|done].
    + intros n m fs1 y. apply scanning_le.
    + intros n d fs1 h1 [x1 log1] Hn0 Hn1.
      pose proof (readdirplus_entry_scan n (refs fs) i add d fs1 h1 x1 log1 Hadd Hn1 Hn0) as Hsc1.
      by destruct (readdirplus_entry i (logged add) d (fs1, h1, (x1, log1))) as [[[? ?] [? ?]] ?].
Qed.

(** A directory with one entry; its handle is the one OPENDIR gave. *)
Definition opening_calls : list Call :=
  [MkCall _ (op_mkdir caller ROOT_ID [97] 0x1ff 0); MkCall _ (op_opendir caller ROOT_ID 0)].

Definition toy_opened : PassthroughFs * ToyHost := (run_calls opening_calls toy_fs ∅ false).1.1.

Definition take_all : add_entry_plus_t nat := fun d e n => (S n, Ok 1).

Lemma scans_account_witness :
  let '((w', (n, log)), r) := fs_readdirplus caller ROOT_ID 1 4096 0 (logged take_all) (toy_opened, (0%nat, [])) in
  (n, log, r) = (1%nat, [2], Ok tt) /\ ledger_eq (refs w'.1) (hand_out_all (refs toy_opened.1) log).
Proof.
  assert (numbers_ok toy_opened.1) as Hn.
  { destruct (started_numbers Config_default toy_fs toy_fs_started eq_refl) as (H1 & H2 & _).
    apply run_calls_numbers; [done|by apply (started_live Config_default), toy_fs_started|done|by vm_compute]. }
  assert (unsaturated 4096 (refs toy_opened.1)) as Hu.
  { unfold unsaturated. apply map_Forall_lookup. apply (bool_decide_unpack _). by vm_compute. }
  pose proof (scans_account (X := nat) toy_opened caller ROOT_ID 1 4096 0 Hn ltac:(lia) ltac:(by vm_compute) Hu) as [_ Hp].
  specialize (Hp take_all 0%nat ltac:(by eexists)).
  destruct (fs_readdirplus _ _ _ _ _ _ _) as [[w' [n log]] r] eqn:He. split; [|exact Hp].
  assert ((n, log, r) = let '((w', (n, log)), r) :=
    fs_readdirplus caller ROOT_ID 1 4096 0 (logged take_all) (toy_opened, (0%nat, [])) in (n, log, r)) as -> by by rewrite He.
  by vm_compute.
Defined.
