(* ===== verification/PassthroughSafety.v ===== *)
(** * Safety of the passthrough file system

    What the process that exports a directory can rely on: it keeps its
    credentials, it acts on the host as the caller where a node is created, it
    resolves one name at a time, and no message makes it panic. *)

From stdpp Require Import gmap.
From S2P Require Import Prelude Std Lib Codec Abi AbiStruct FsTypes FileSystem Transport TransportProps FuseDev.
From S2P Require Import FuseDevProps Instances Server ServerProps ServerWire ServerWireProps ServerClaims Vfs.
From S2P Require Import ProgLogic Host HostLaws ToyHost InodeStore MountFds Passthrough PassthroughSync.
From S2P Require Import PassthroughProps PassthroughTable PassthroughRequests PassthroughDir PassthroughSession.
From S2P Require Import PassthroughClaims.

(** ** Calls on the host *)


(** The calls of a MKDIR, with the effective user each was made as. *)
Definition traced_fs : PassthroughFs * Traced ToyHost := (toy_fs.1, (toy_fs.2, [])).
Definition traced_mkdir : FsOp Entry := op_mkdir caller ROOT_ID [97] 0x1ff 0.

Definition made_as (uid : Z) (e : Event) : bool := creates one_component e.(ev_op) && (e.(ev_creds).(cr_euid) =? uid).


(** ** Sessions *)

(** The table is live and the thread has the credentials [c]. *)
Definition sound {H : Type} `{HostCreds H} (c : Creds) (w : PassthroughFs * H) : Prop := live w /\ creds w.2 = c.

Section sound.
Context {H : Type} `{HO : HostOk H} {HC : HostCreds H} (c : Creds) (Hc : rooted c).

Lemma request_sound (w w' : PassthroughFs * H) : request w w' -> live w' -> sound c w -> sound c w'.
Proof.
  intros Hr Hl [_ Hw]. split; [done|]. rewrite <- Hw. apply creds_back_rooted; [by apply request_creds|by rewrite Hw].
Qed.

Lemma sound_invariant : FsInvariant (sound c).
Proof.
  split.
  - intros A op w [Hl Hw]. destruct (inv_op (I := live) A op w Hl) as [Hl' Hp]. split; [|done]. split; [done|].
    rewrite <- Hw. apply creds_back_rooted; [apply pt_op_creds|by rewrite Hw].
  - intros ctx i handle available size offset lo flags w Hs.
    apply (request_sound w); [apply req_read| |done]. by apply (inv_read (I := live)), Hs.
  - intros ctx i handle available size offset lo flags w Hs. apply (inv_read_ok (I := live)), Hs.
  - intros ctx i handle data size offset lo dw flags ff w Hs.
    destruct (inv_write (I := live) ctx i handle data size offset lo dw flags ff w (proj1 Hs)) as [Hl Hp].
    split; [|done]. by apply (request_sound w); [apply req_write|..].
  - intros X ctx i handle size offset add [w x] Hs. apply (request_sound w); [apply req_readdir| |done].
    apply (inv_readdir (I := live) X ctx i handle size offset add (w, x)), Hs.
  - intros X P ctx i handle size offset add Ha [w x] [Hs Hx].
    destruct (inv_readdir_safe (I := live) X P ctx i handle size offset add Ha (w, x) (conj (proj1 Hs) Hx)) as [[Hl Hx'] Hp].
    split; [|done]. split; [|done]. by apply (request_sound w); [apply req_readdir|..].
  - intros X ctx i handle size offset add [w x] Hs. apply (request_sound w); [apply req_readdirplus| |done].
    apply (inv_readdirplus (I := live) X ctx i handle size offset add (w, x)), Hs.
  - intros X P ctx i handle size offset add Ha [w x] [Hs Hx].
    destruct (inv_readdirplus_safe (I := live) X P ctx i handle size offset add Ha (w, x) (conj (proj1 Hs) Hx))
      as [[Hl Hx'] Hp].
    split; [|done]. split; [|done]. by apply (request_sound w); [apply req_readdirplus|..].
  - by intros [w x] Hs.
Qed.
End sound.

Lemma started_sound {H : Type} `{HO : HostOk H} {HC : HostCreds H} cfg (w : PassthroughFs * H) :
  started cfg w -> sound (creds w.2) w.
Proof. intros Hs. split; [by apply (started_live cfg)|done]. Qed.

(** C7: the exported directory.  A server over the passthrough file system,
    started as root, handles any sequence of messages, whatever their bytes and
    whatever the host answers: no message makes it panic, each is answered at
    most once and under its own id, and after each of them the thread is root
    again, with the capabilities it started with. *)
Theorem passthrough_service {H V : Type} `{HO : HostOk H} {HC : HostCreds H} `{VO : VolatileSliceOk V} `{DO : FuseDeviceOk}
    (c : Creds) (Hc : rooted c) (w : {w : PassthroughFs * H | sound c w}) pagesize (msgs : list (Message V)) :
  Forall message_ok msgs ->
  let '((srv, dev), os) :=
    serve_messages (H := SubFs_filesystem (sound c) (INV := sound_invariant c Hc)) pagesize msgs (Server_new w, []) in
  Forall (fun o => o <> Panic) os /\
  (exists replies, dev = concat replies /\ Forall2 replies_ok msgs replies) /\
  creds (proj1_sig srv.(sv_fs)).2 = c.
Proof.
  intros Hm. pose proof (SubFs_ok (sound c) (INV := sound_invariant c Hc)) as Hok.
  pose proof (serve_messages_ok (FSO := Hok) pagesize msgs (Server_new w) [] Hm) as Hs.
  destruct (serve_messages pagesize msgs _) as [[srv dev] os]. destruct Hs as [Hp Hr].
  split_and!; [done|done|]. apply (proj2_sig srv.(sv_fs)).
Qed.

Lemma toy_fs_rooted : rooted (creds toy_fs.2).
Proof. by split_and!; vm_compute. Qed.

Lemma passthrough_service_witness :
  let w := exist (sound (creds toy_fs.2)) toy_fs (started_sound Config_default toy_fs toy_fs_started) in
  let msgs := [MkMessage _ (mem_of example_request) (reader_of example_request) (WFuseDev example_writer)] in
  let '((srv, dev), os) :=
    serve_messages (H := SubFs_filesystem (sound (creds toy_fs.2)) (INV := sound_invariant _ toy_fs_rooted))
      (H1 := accepting_device) 4096 msgs (Server_new w, []) in
  Forall (fun o => o <> Panic) os /\
  (exists replies, dev = concat replies /\ Forall2 replies_ok msgs replies) /\
  creds (proj1_sig srv.(sv_fs)).2 = creds toy_fs.2.
Proof.
  apply (passthrough_service (DO := accepting_device_ok) (creds toy_fs.2) toy_fs_rooted).
  constructor; [|constructor]. split; [|by vm_compute]. apply example_reader_ok. by vm_compute.
Defined.
