(* ===== verification/PassthroughHandles.v ===== *)
(** * Open handles

    The handle table implements a set of books: which handles are open, and on
    which inode.  OPEN, OPENDIR and CREATE put a fresh handle on the books,
    RELEASE and RELEASEDIR strike one off, and no other request changes them. *)

From stdpp Require Import gmap.
From S2P Require Import Prelude Std Lib Codec Abi AbiStruct FsTypes FileSystem Vfs ProgLogic Host HostLaws ToyHost.
From S2P Require Import InodeStore MountFds Passthrough PassthroughSync PassthroughProps PassthroughTable.
From S2P Require Import PassthroughRequests PassthroughDir PassthroughLedger PassthroughSession PassthroughClaims.

(** ** The books *)

Definition Books : Type := gmap Z Z.

(** A handle that is already out must not be handed out again. *)
Definition grant (handle inode : Z) (b : Books) : option Books :=
  match b !! handle with Some _ => None | None => Some (<[handle := inode]> b) end.

(** Only a handle that is open on the inode can be taken back. *)
Definition strike (handle inode : Z) (b : Books) : option Books :=
  match b !! handle with
  | Some i => if i =? inode then Some (delete handle b) else None
  | None => None
  end.

(** The effect of a call and its result. *)
Definition handle_op {A : Set} (op : FsOp A) : io_result A -> Books -> option Books :=
  match op in FsOp A return io_result A -> Books -> option Books with
  | op_open _ inode _ _ => fun r b => match r with Ok (Some h, _, _) => grant h inode b | _ => Some b end
  | op_opendir _ inode _ => fun r b => match r with Ok (Some h, _) => grant h inode b | _ => Some b end
  | op_create _ _ _ _ => fun r b => match r with Ok (e, Some h, _, _) => grant h e.(en_inode) b | _ => Some b end
  | op_release _ inode _ h _ _ _ => fun r b => match r with Ok _ => strike h inode b | _ => Some b end
  | op_releasedir _ inode _ h => fun r b => match r with Ok _ => strike h inode b | _ => Some b end
  | _ => fun _ b => Some b
  end.

(** Serve calls and keep the books. *)
Fixpoint run_handles {F} `{FileSystem F} (calls : list Call) (w : F) (b : Books) : F * option Books :=
  match calls with
  | [] => (w, Some b)
  | c :: calls' =>
    let '(w', r) := fs_op c.(call_op) w in
    match handle_op c.(call_op) r b with
    | Some b' => run_handles calls' w' b'
    | None => (w', None)
    end
  end.

Definition books (fs : PassthroughFs) : Books := hd_inode <$> fs.(pt_handles).

Definition handles_ok (fs : PassthroughFs) : Prop :=
  0 <= fs.(pt_next_handle) /\ forall h d, fs.(pt_handles) !! h = Some d -> h < fs.(pt_next_handle).

(** ** Requests and the table *)

Definition same_handles : relation PassthroughFs := fun fs fs' =>
  fs'.(pt_handles) = fs.(pt_handles) /\ fs'.(pt_next_handle) = fs.(pt_next_handle).

#[global] Instance same_handles_preorder : PreOrder same_handles.
Proof. split; [by intros fs|]. unfold same_handles. intros fs1 fs2 fs3 [? ?] [? ?]. split; congruence. Qed.

Section handles.
Context {H : Type} `{HO : HostOk H}.

Abbreviation wprog A := (prog (PassthroughFs * H) io_error A).
Abbreviation S := (fst_rel (T := H) same_handles).

(** From a table in order, [m] adds at most one handle and has the effect [f]
    on the books. *)
Definition keeps {A} (f : io_result A -> Books -> option Books) (m : wprog A) : Prop := forall fs h,
  handles_ok fs -> fs.(pt_next_handle) < U64_MAX ->
  let '((fs', _), r) := m (fs, h) in
  handles_ok fs' /\ fs'.(pt_next_handle) <= fs.(pt_next_handle) + 1 /\ f r (books fs) = Some (books fs').

Lemma keeps_same {A} (m : wprog A) : pres S m -> keeps (fun _ b => Some b) m.
Proof.
  intros Hm fs h Hok Hlt. specialize (Hm (fs, h)). destruct (m (fs, h)) as [[fs' h'] r].
  destruct Hm as [Hh Hn]. cbn in Hh, Hn. unfold handles_ok, books. rewrite Hh, Hn. split_and!; [apply Hok|apply Hok|lia|done].
Qed.

Lemma keeps_then {A B} (m : wprog A) (k : A -> wprog B) f :
  pres S m -> (forall a, keeps f (k a)) -> (forall r b, (forall x, r <> Ok x) -> f r b = Some b) -> keeps f (m ≫= k).
Proof.
  intros Hm Hk Hf fs h Hok Hlt. pose proof (keeps_same m Hm fs h Hok Hlt) as Hs.
  specialize (Hm (fs, h)). unfold mbind, prog_mbind, prog_bind.
  destruct (m (fs, h)) as [[fs1 h1] [a|e|]]; cbn in *; destruct Hs as (Hok1 & Hn1 & Hb), Hm as [_ Hx]; cbn in Hx.
  - specialize (Hk a fs1 h1 Hok1 ltac:(lia)). destruct (k a (fs1, h1)) as [[fs2 h2] r].
    destruct Hk as (Hok2 & Hn2 & Hb2). injection Hb as Hb. rewrite Hb. split_and!; [done|lia|done].
  - rewrite Hf by done. done.
  - rewrite Hf by done. done.
Qed.

Lemma insert_handle_keeps {A} d (g : Z -> A) f :
  (forall h b, f (Ok (g h)) b = grant h d.(hd_inode) b) ->
  keeps f (handle ← insert_handle d; mret (g handle)).
Proof.
  intros Hf fs h [Hpos Hok] Hlt. unfold insert_handle, on_fst, mbind, prog_mbind, prog_bind. cbn.
  rewrite wrap_small by (unfold in_u, U64_MAX in *; lia). split_and!; [|lia|].
  - split; cbn; [lia|]. intros i x. rewrite lookup_insert_Some. intros [[<- _]|[_ Hi]]; [lia|]. specialize (Hok _ _ Hi). lia.
  - rewrite Hf. unfold grant, books, Books. rewrite lookup_fmap.
    destruct (fs.(pt_handles) !! fs.(pt_next_handle)) as [x|] eqn:Hx; [specialize (Hok _ _ Hx); lia|].
    cbn. by rewrite fmap_insert.
Qed.

Lemma do_release_keeps i handle :
  keeps (fun r b => match r with Ok _ => strike handle i b | _ => Some b end) (do_release i handle).
Proof.
  intros fs h [Hpos Hok] Hlt. unfold do_release, on_fst, HandleMap_release. cbn.
  destruct (fs.(pt_handles) !! handle) as [x|] eqn:Hx; [destruct (hd_inode x =? i) eqn:Hi|]; cbn;
    (split_and!; [split; [done|]|lia|]); try done.
  - cbn. intros j d [_ Hj]%lookup_delete_Some. by apply (Hok _ _ Hj).
  - unfold strike, books, Books. rewrite lookup_fmap, Hx. cbn. rewrite Hi. by rewrite fmap_delete.
Qed.

(** ** Lookups *)

Lemma lookup_search_handles fuel k ho : pres same_handles (lookup_search fuel k ho).
Proof. induction fuel as [|fuel IH]; intros fs; cbn; [done|]. repeat case_match; done || apply IH. Qed.

Lemma lookup_insert_handles k ho handle st : pres same_handles (lookup_insert k ho handle st).
Proof.
  intros fs. unfold lookup_insert, allocate_inode. destruct (get_unique_inode _ _) as [g [i|e|]];
    repeat case_match; simplify_eq/=; done.
Qed.

Lemma new_inode_handle_handles ho fd : pres S (new_inode_handle (H := H) ho fd).
Proof.
  unfold new_inode_handle. destruct ho; [|prog_auto]. prog_step; [|prog_auto]. intros [fs h]. unfold to_openable_handle.
  by destruct (into_openable _ _ _) as [[m h'] r].
Qed.

#[local] Hint Resolve lookup_search_handles lookup_insert_handles new_inode_handle_handles : fuse.

Lemma do_lookup_handles parent name : pres S (do_lookup (H := H) parent name).
Proof. unfold do_lookup, lookup_number, get_fs. prog_auto. Qed.

Lemma forget_handles fs i n : same_handles fs (forget_one fs i n).
Proof. unfold forget_one. by repeat case_match. Qed.

Lemma forget_all_handles (reqs : list (Z * Z)) fs :
  same_handles fs (foldl (fun fs r => forget_one fs r.1 r.2) fs reqs).
Proof. revert fs. induction reqs as [|r reqs IH]; intros fs; [done|]. cbn. etrans; [apply forget_handles|apply IH]. Qed.

#[local] Hint Resolve do_lookup_handles : fuse.

Lemma keeps_fail {A} (e : io_error) f : (forall b, f (Err e) b = Some b) -> keeps f (fail e : wprog A).
Proof. intros Hf fs h Hok Hlt. cbn. rewrite Hf. split_and!; [done|lia|done]. Qed.

Lemma do_open_keeps i flags fuse_flags :
  keeps (fun r b => match r with Ok (Some h, _, _) => grant h i b | _ => Some b end) (do_open i flags fuse_flags).
Proof.
  unfold do_open, get_fs. apply keeps_then; [prog_auto|intros fs|by intros [x| |] b Hr; [destruct (Hr x)|..]].
  apply keeps_then; [prog_auto|intros file|by intros [x| |] b Hr; [destruct (Hr x)|..]].
  by apply insert_handle_keeps.
Qed.

Lemma create_keeps ctx parent name args : keeps (handle_op (op_create ctx parent name args)) (pt_create ctx parent name args).
Proof.
  unfold pt_create, pt_validated, get_fs.
  repeat (apply keeps_then; [prog_auto; fail|intros ?|by intros [x| |] b Hr; [destruct (Hr x)|..]]).
  set (options := create_options _). destruct (pt_no_open _); cbn [negb].
  - intros fs h Hok Hlt. cbn. split_and!; [done|lia|done].
  - by apply (insert_handle_keeps (MkHandleData a2.(en_inode) a4 args.(ci_flags))
      (fun handle => (a2, Some handle, options, None))).
Qed.

Lemma opendir_keeps ctx i flags : keeps (handle_op (op_opendir ctx i flags)) (pt_opendir i flags).
Proof.
  unfold pt_opendir, get_fs. apply keeps_then; [prog_auto|intros fs0|by intros [x| |] b Hr; [destruct (Hr x)|..]].
  destruct (pt_no_opendir fs0); [by apply keeps_fail|]. intros fs h Hok Hlt.
  pose proof (do_open_keeps i (Z.lor flags O_DIRECTORY) 0 fs h Hok Hlt) as Hk.
  unfold mbind, prog_mbind, prog_bind at 1. by destruct (do_open _ _ _ _) as [[fs' h'] [[[[hd|] o] d]|e|]].
Qed.

Lemma release_keeps (b : PassthroughFs -> bool) i handle :
  keeps (fun r l => match r with Ok _ => strike handle i l | _ => Some l end)
    (fs ← get_fs; if b fs then fail enosys else do_release i handle).
Proof.
  unfold get_fs. apply keeps_then; [prog_auto|intros fs|by intros [x| |] l Hr; [destruct (Hr x)|..]].
  destruct (b fs); [by apply keeps_fail|apply do_release_keeps].
Qed.

(** The effect of every request of a running session. *)
Lemma pt_op_handles (A : Set) (op : FsOp A) : session_op op = false -> keeps (handle_op op) (pt_op (H := H) A op).
Proof.
  intros Hop. destruct op; try done.
  all: try (apply keeps_same; cbn [pt_op default_op];
    unfold reading, get_fs, pt_lookup, pt_symlink, pt_mknod, pt_mkdir, pt_link, pt_unlink, pt_rmdir, pt_rename, get_fs;
    repeat (apply pt_validated_pres; [apply _|intros ?]); prog_auto; fail).
  - apply keeps_same. intros w. apply forget_handles.
  - apply keeps_same. intros w. apply forget_all_handles.
  - cbn [pt_op handle_op]. unfold pt_open. apply keeps_then; [by intros w|intros fs|by intros []; naive_solver].
    destruct (pt_no_open fs); [by apply keeps_fail|].
    apply do_open_keeps.
  - apply create_keeps.
  - apply (release_keeps pt_no_open).
  - apply opendir_keeps.
  - apply (release_keeps pt_no_opendir).
Qed.
End handles.

(** ** Sequences of calls *)

Lemma run_handles_ok {H : Type} `{HO : HostOk H} calls (w : PassthroughFs * H) :
  forallb (fun c => negb (session_op c.(call_op))) calls = true ->
  handles_ok w.1 -> w.1.(pt_next_handle) + zlen calls <= U64_MAX ->
  let '(w', b) := run_handles calls w (books w.1) in b = Some (books w'.1).
Proof.
  revert w. induction calls as [|[A op] calls IH]; intros [fs h] Hok Hh Hroom; [done|].
  cbn [forallb call_op] in Hok. apply andb_true_iff in Hok as [Hop%negb_true_iff Hok].
  rewrite zlen_cons in Hroom. pose proof (zlen_nonneg calls). cbn [fst] in Hh, Hroom.
  pose proof (pt_op_handles A op Hop fs h Hh ltac:(lia)) as Hk.
  cbn [run_handles call_op call_type fs_op PassthroughFs_filesystem fst].
  destruct (pt_op A op (fs, h)) as [[fs' h'] r]. destruct Hk as (Hh' & Hn & ->). apply (IH (fs', h')); [done|done|cbn; lia].
Qed.

Lemma started_handles {H : Type} `{HO : HostOk H} cfg (w : PassthroughFs * H) :
  started cfg w -> w.1.(pt_handles) = ∅ /\ w.1.(pt_next_handle) = 1.
Proof.
  intros (h0 & h1 & fs & Hn & (m & handle & st & -> & _)%import_ok). revert Hn.
  unfold PassthroughFs_new. intros Hn. apply prog_bind_inv_ok in Hn as (h2 & fd & _ & Hn).
  apply prog_bind_inv_ok in Hn as (h3 & m' & _ & Hn). cbv [mret prog_ret] in Hn. by simplify_eq/=.
Qed.

(** C31: open handles.  Serve any sequence of calls of a session and keep books
    of the handles: what OPEN, OPENDIR and CREATE returned, on which inode,
    minus what RELEASE and RELEASEDIR took back.  No handle is handed out
    while it is still open, none is taken back unless it is open on the inode
    that is named, and a request finds its file through a handle and
    an inode exactly when the books say that the handle is open on that inode;
    any other pair is refused with [EBADF]. *)
Theorem handle_refinement {H : Type} `{HO : HostOk H} cfg (w : PassthroughFs * H) calls :
  started cfg w -> forallb (fun c => negb (session_op c.(call_op))) calls = true -> zlen calls + 1 <= U64_MAX ->
  let '(w', b) := run_handles calls w ∅ in
  exists l, b = Some l /\ forall handle inode,
    match HandleMap_get w'.1.(pt_handles) handle inode with
    | Ok d => l !! handle = Some inode /\ d.(hd_inode) = inode
    | r => l !! handle <> Some inode /\ r = Err ebadf
    end.
Proof.
  intros Hs Hok Hlen. destruct (started_handles cfg w Hs) as [Hh Hn].
  assert (books w.1 = ∅) as Hb by by unfold books; rewrite Hh, fmap_empty.
  pose proof (run_handles_ok calls w Hok) as Hrun. rewrite Hb in Hrun.
  destruct (run_handles calls w ∅) as [w' b]. exists (books w'.1). split.
  { apply Hrun; [|lia]. split; [lia|]. intros h d. by rewrite Hh, lookup_empty. }
  intros handle inode. unfold HandleMap_get, books, Books. rewrite lookup_fmap.
  destruct (w'.1.(pt_handles) !! handle) as [d|]; cbn; [|done].
  destruct (Z.eqb_spec (hd_inode d) inode) as [->|Hne]; [done|]. split; [congruence|done].
Qed.

(** Two handles on the root, one of which is closed again. *)
Definition handle_calls : list Call :=
  [MkCall _ (op_opendir caller ROOT_ID 0); MkCall _ (op_opendir caller ROOT_ID 0);
   MkCall _ (op_releasedir caller ROOT_ID 0 1)].

Lemma handle_refinement_witness :
  let '(w', b) := run_handles handle_calls toy_fs ∅ in
  b = Some {[2 := ROOT_ID]} /\ exists l, b = Some l /\ forall handle inode,
    match HandleMap_get w'.1.(pt_handles) handle inode with
    | Ok d => l !! handle = Some inode /\ d.(hd_inode) = inode
    | r => l !! handle <> Some inode /\ r = Err ebadf
    end.
Proof.
  pose proof (handle_refinement Config_default toy_fs handle_calls toy_fs_started eq_refl ltac:(by vm_compute)) as Hw.
  destruct (run_handles handle_calls toy_fs ∅) as [w' b] eqn:Hr.
  split; [|exact Hw]. vm_compute in Hr. by injection Hr as _ <-.
Defined.
