(* ===== verification/PassthroughRace.v ===== *)
(** * Lookups and forgets that race

    [do_lookup] and [forget_one] of [src/passthrough/mod.rs] run by several
    threads at once: every access to the map of inodes under its lock and every
    atomic access to a reference count is a step of its own, and a schedule
    names the thread that moves next.  An [Arc<InodeData>] a thread has fetched
    stays usable after the map has dropped it, so the objects live in a heap.
    The file system numbers inodes itself and does not use file handles. *)

From stdpp Require Import gmap.
From S2P Require Import Prelude Std AbiStruct Abi FsTypes Vfs Host InodeStore Passthrough PassthroughLedger.

Module Race.

(** ** State *)

(** The fields of an [InodeData] that the threads look at. *)
Record Object : Set := MkObject {
  ob_inode : Z;
  ob_id : InodeId;
  ob_refcount : Z;
}.

(** Where a thread is. *)
Inductive Thread : Set :=
| LkSearch (k : InodeId)                            (* before [get_alt] *)
| LkFound (k : InodeId) (p : Z)                     (* before the load *)
| LkLoaded (k : InodeId) (p curr : Z)               (* before the compare-exchange *)
| LkInsert (k : InodeId)                            (* before [get_map_mut] *)
| LkLocked (k : InodeId)                            (* holds the write lock *)
| LkDone (k : InodeId) (inode : Z)
| LkFailed (k : InodeId)
| FgStart (inode count : Z)                         (* before [get_map_mut] *)
| FgLocked (inode count : Z)                        (* holds the write lock *)
| FgFound (inode count p : Z)
| FgLoaded (inode count p curr : Z)
| FgRemove (inode count p : Z)                      (* the count is zero *)
| FgDone (inode count : Z).

Inductive Action : Set :=
| Looked_up (inode : Z)
| Forgot (inode count : Z).

Record State : Set := MkState {
  st_heap : gmap Z Object;
  st_data : gmap Z Z;              (* [data]: the object of an inode *)
  st_by_id : gmap InodeId Z;       (* [by_id] *)
  st_next_inode : Z;
  st_next_object : Z;
  st_lock : option Z;              (* the thread with the write lock *)
  st_threads : gmap Z Thread;
  st_trace : list Action;          (* what has taken effect, in order *)
}.

(** ** Steps *)

Definition goto (t : Z) (th : Thread) (s : State) : State :=
  MkState s.(st_heap) s.(st_data) s.(st_by_id) s.(st_next_inode) s.(st_next_object) s.(st_lock)
    (<[t := th]> s.(st_threads)) s.(st_trace).

Definition set_lock (l : option Z) (s : State) : State :=
  MkState s.(st_heap) s.(st_data) s.(st_by_id) s.(st_next_inode) s.(st_next_object) l s.(st_threads) s.(st_trace).

Definition act (a : Action) (s : State) : State :=
  MkState s.(st_heap) s.(st_data) s.(st_by_id) s.(st_next_inode) s.(st_next_object) s.(st_lock) s.(st_threads)
    (s.(st_trace) ++ [a]).

Definition set_count (p n : Z) (s : State) : State :=
  MkState (alter (fun o => MkObject o.(ob_inode) o.(ob_id) n) p s.(st_heap)) s.(st_data) s.(st_by_id)
    s.(st_next_inode) s.(st_next_object) s.(st_lock) s.(st_threads) s.(st_trace).

Definition count_of (s : State) (p : Z) : Z := match s.(st_heap) !! p with Some o => o.(ob_refcount) | None => 0 end.
Definition inode_of (s : State) (p : Z) : Z := match s.(st_heap) !! p with Some o => o.(ob_inode) | None => 0 end.

(** [get_alt] without a handle: by identity, then the object. *)
Definition get_alt (s : State) (k : InodeId) : option Z :=
  match s.(st_by_id) !! k with Some i => s.(st_data) !! i | None => None end.

(** [allocate_inode] and [insert_locked]. *)
Definition insert_new (k : InodeId) (s : State) : State * option Z :=
  let '(i, next) := match s.(st_by_id) !! k with
                    | Some i => (i, s.(st_next_inode))
                    | None => (s.(st_next_inode), wrap 64 (s.(st_next_inode) + 1))
                    end in
  if VFS_MAX_INO <? i then
    (MkState s.(st_heap) s.(st_data) s.(st_by_id) next s.(st_next_object) s.(st_lock) s.(st_threads) s.(st_trace), None)
  else
    let p := s.(st_next_object) in
    (MkState (<[p := MkObject i k 1]> s.(st_heap)) (<[i := p]> s.(st_data)) (<[k := i]> s.(st_by_id)) next (p + 1)
       s.(st_lock) s.(st_threads) s.(st_trace), Some i).

Definition lookup_step (t : Z) (th : Thread) (s : State) : option State :=
  match th with
  | LkSearch k =>
    if bool_decide (s.(st_lock) = None) then
      Some (goto t (match get_alt s k with Some p => LkFound k p | None => LkInsert k end) s)
    else None
  | LkFound k p =>
    let curr := count_of s p in
    Some (goto t (if curr =? 0 then LkSearch k else LkLoaded k p curr) s)
  | LkLoaded k p curr =>
    if count_of s p =? curr then
      Some (goto t (LkDone k (inode_of s p))
        (act (Looked_up (inode_of s p)) (set_count p (Z.min U64_MAX (curr + 1)) s)))
    else Some (goto t (LkSearch k) s)
  | LkInsert k =>
    if bool_decide (s.(st_lock) = None) then Some (goto t (LkLocked k) (set_lock (Some t) s)) else None
  | LkLocked k =>
    match get_alt s k with
    | Some p =>
      Some (goto t (LkDone k (inode_of s p)) (set_lock None
        (act (Looked_up (inode_of s p)) (set_count p (wrap 64 (count_of s p + 1)) s))))
    | None =>
      match insert_new k s with
      | (s', Some i) => Some (goto t (LkDone k i) (set_lock None (act (Looked_up i) s')))
      | (s', None) => Some (goto t (LkFailed k) (set_lock None s'))
      end
    end
  | _ => None
  end.

Definition forget_step (t : Z) (th : Thread) (s : State) : option State :=
  match th with
  | FgStart i n =>
    if bool_decide (s.(st_lock) = None) then Some (goto t (FgLocked i n) (set_lock (Some t) s)) else None
  | FgLocked i n =>
    if i =? ROOT_ID then Some (goto t (FgDone i n) (set_lock None (act (Forgot i n) s)))
    else match s.(st_data) !! i with
    | Some p => Some (goto t (FgFound i n p) s)
    | None => Some (goto t (FgDone i n) (set_lock None (act (Forgot i n) s)))
    end
  | FgFound i n p => Some (goto t (FgLoaded i n p (count_of s p)) s)
  | FgLoaded i n p curr =>
    let new := saturating_sub curr n in
    if count_of s p =? curr then
      if new =? 0 then Some (goto t (FgRemove i n p) (act (Forgot i n) (set_count p new s)))
      else Some (goto t (FgDone i n) (set_lock None (act (Forgot i n) (set_count p new s))))
    else Some (goto t (FgFound i n p) s)
  | FgRemove i n p =>
    Some (goto t (FgDone i n) (set_lock None
      (MkState s.(st_heap) (delete i s.(st_data)) s.(st_by_id) s.(st_next_inode) s.(st_next_object) s.(st_lock)
         s.(st_threads) s.(st_trace))))
  | _ => None
  end.

(** A thread that cannot move, for want of the lock, leaves the state alone. *)
Definition step (s : State) (t : Z) : State :=
  match s.(st_threads) !! t with
  | Some th => default s (match lookup_step t th s with Some s' => Some s' | None => forget_step t th s end)
  | None => s
  end.

Definition run (schedule : list Z) (s : State) : State := foldl step s schedule.

(** The root alone, with the two references [import] gives it. *)
Definition start (root : InodeId) (threads : gmap Z Thread) : State :=
  MkState {[0 := MkObject ROOT_ID root 2]} {[ROOT_ID := 0]} {[root := ROOT_ID]} (ROOT_ID + 1) 1 None threads [].

(** ** The ledger of the objects in the map *)

Definition counts (s : State) : Ledger :=
  omap (fun p => let n := count_of s p in if n =? 0 then None else Some n) s.(st_data).

Definition effect (l : Ledger) (a : Action) : Ledger :=
  match a with Looked_up i => hand_out i l | Forgot i n => take_back i n l end.

Definition idle (th : Thread) : bool :=
  match th with LkSearch _ => true | FgStart _ n => 0 <=? n | _ => false end.

(** The action of a thread, once it has taken effect. *)
Definition action_of (th : Thread) : option Action :=
  match th with
  | LkDone _ i => Some (Looked_up i)
  | FgRemove i n _ | FgDone i n => Some (Forgot i n)
  | _ => None
  end.

Definition actions (threads : gmap Z Thread) : list Action := omap (fun x => action_of x.2) (map_to_list threads).

Definition finished (th : Thread) : bool :=
  match th with LkDone _ _ | LkFailed _ | FgDone _ _ => true | _ => false end.

(** ** Invariant *)

(** The objects and the maps, after [n] steps. *)
Record store_ok (n : Z) (s : State) : Prop := {
  so_data : forall i p, s.(st_data) !! i = Some p -> exists o, s.(st_heap) !! p = Some o /\ o.(ob_inode) = i;
  so_live : forall p o, s.(st_heap) !! p = Some o -> o.(ob_refcount) <> 0 -> s.(st_data) !! o.(ob_inode) = Some p;
  so_ids : forall p o, s.(st_heap) !! p = Some o -> s.(st_by_id) !! o.(ob_id) = Some o.(ob_inode);
  so_inj : forall k k' i, s.(st_by_id) !! k = Some i -> s.(st_by_id) !! k' = Some i -> k = k';
  so_next : forall k i, s.(st_by_id) !! k = Some i -> i < s.(st_next_inode);
  so_inodes : 0 <= s.(st_next_inode) <= 2 + n;
  so_fresh : forall p o, s.(st_heap) !! p = Some o -> p < s.(st_next_object);
  so_counts : forall p o, s.(st_heap) !! p = Some o -> 0 <= o.(ob_refcount) <= 2 + n;
}.

Definition holds_lock (th : Thread) : bool :=
  match th with
  | LkLocked _ | FgLocked _ _ | FgFound _ _ _ | FgLoaded _ _ _ _ | FgRemove _ _ _ => true
  | _ => false
  end.

(** What a thread knows. *)
Definition knows (s : State) (th : Thread) : Prop :=
  match th with
  | LkFound k p => exists o, s.(st_heap) !! p = Some o /\ o.(ob_id) = k
  | LkLoaded k p curr => curr <> 0 /\ exists o, s.(st_heap) !! p = Some o /\ o.(ob_id) = k
  | LkDone k i => s.(st_by_id) !! k = Some i
  | FgStart _ n | FgLocked _ n => 0 <= n
  | FgFound i n p => 0 <= n /\ i <> ROOT_ID /\ s.(st_data) !! i = Some p
  | FgLoaded i n p curr => 0 <= n /\ i <> ROOT_ID /\ s.(st_data) !! i = Some p
  | FgRemove i _ p => s.(st_data) !! i = Some p /\ count_of s p = 0
  | _ => True
  end.

Record threads_ok (s : State) : Prop := {
  to_zero : forall i p, s.(st_data) !! i = Some p -> count_of s p = 0 ->
    exists t n, s.(st_lock) = Some t /\ s.(st_threads) !! t = Some (FgRemove i n p);
  to_lock : forall t th, s.(st_threads) !! t = Some th -> holds_lock th = true <-> s.(st_lock) = Some t;
  to_owner : forall t, s.(st_lock) = Some t -> is_Some (s.(st_threads) !! t);
  to_knows : forall t th, s.(st_threads) !! t = Some th -> knows s th;
  to_trace : s.(st_trace) ≡ₚ actions s.(st_threads);
}.

(** ** Threads *)

Lemma actions_insert threads t th th' :
  threads !! t = Some th -> action_of th = None ->
  actions (<[t := th']> threads) ≡ₚ option_list (action_of th') ++ actions threads.
Proof.
  intros Ht Ha. unfold actions.
  rewrite <- (insert_delete_id threads t th Ht) at 2. rewrite <- insert_delete_eq.
  rewrite !map_to_list_insert by apply lookup_delete_eq. cbn. rewrite Ha. by destruct (action_of th').
Qed.

Lemma actions_same threads t th th' :
  threads !! t = Some th -> action_of th' = action_of th -> actions (<[t := th']> threads) ≡ₚ actions threads.
Proof.
  intros Ht Ha. unfold actions. rewrite <- (insert_delete_id threads t th Ht) at 2. rewrite <- insert_delete_eq.
  rewrite !map_to_list_insert by apply lookup_delete_eq. cbn. by rewrite Ha.
Qed.

(** Objects keep their identity, known identities their number, and whoever
    holds the lock finds the map and dead objects as they were. *)
Definition frame (locked : bool) (s s' : State) : Prop :=
  (forall p o, s.(st_heap) !! p = Some o -> exists o', s'.(st_heap) !! p = Some o' /\ o'.(ob_id) = o.(ob_id)) /\
  s.(st_by_id) ⊆ s'.(st_by_id) /\
  (locked = false -> s'.(st_data) = s.(st_data) /\ forall i p, s.(st_data) !! i = Some p -> count_of s p = 0 -> count_of s' p = 0).

Lemma knows_frame b s s' th : frame b s s' -> (holds_lock th = true -> b = false) -> knows s th -> knows s' th.
Proof.
  intros (Hh & Hi & Hd) Hb. destruct th; cbn in *; try done.
  - intros (o & Ho & <-). destruct (Hh _ _ Ho) as (o' & Ho' & <-). eauto.
  - intros (Hc & o & Ho & <-). destruct (Hh _ _ Ho) as (o' & Ho' & <-). eauto.
  - intros Hk. by eapply lookup_weaken.
  - destruct (Hd (Hb eq_refl)) as [-> _]. done.
  - destruct (Hd (Hb eq_refl)) as [-> _]. done.
  - destruct (Hd (Hb eq_refl)) as [-> Hz]. intros [Hp Hc]. split; [done|by eapply Hz].
Qed.

Lemma threads_step s s' t th th' :
  threads_ok s -> s.(st_threads) !! t = Some th -> s'.(st_threads) = <[t := th']> s.(st_threads) ->
  (action_of th = None /\ s'.(st_trace) = s.(st_trace) ++ option_list (action_of th') \/
   action_of th' = action_of th /\ s'.(st_trace) = s.(st_trace)) ->
  s'.(st_lock) = (if holds_lock th' then Some t else if holds_lock th then None else s.(st_lock)) ->
  (holds_lock th = false -> holds_lock th' = true -> s.(st_lock) = None) ->
  frame (holds_lock th) s s' -> knows s' th' ->
  (forall i p, s'.(st_data) !! i = Some p -> count_of s' p = 0 ->
     (exists n, th' = FgRemove i n p) \/ holds_lock th = false /\ s.(st_data) !! i = Some p /\ count_of s p = 0) ->
  threads_ok s'.
Proof.
  intros [Hz Hl Ho Hk Ht] Hth Hths Htr Hlk Hacq Hf Hk' Hz'.
  assert (forall u tu, u <> t -> s.(st_threads) !! u = Some tu -> holds_lock tu = true -> holds_lock th = false /\ holds_lock th' = false) as Hother.
  { intros u tu Hu Htu Hh. apply (Hl u tu Htu) in Hh. destruct (holds_lock th) eqn:H1.
    - apply (Hl t th Hth) in H1. congruence.
    - split; [done|]. destruct (holds_lock th') eqn:H2; [|done]. rewrite Hacq in Hh by done. done. }
  split.
  - intros i p Hp Hc. destruct (Hz' i p Hp Hc) as [[n ->]|(Hh & Hp0 & Hc0)].
    + exists t, n. cbn in Hlk. rewrite Hths, lookup_insert_eq. done.
    + destruct (Hz i p Hp0 Hc0) as (u & n & Hu & Hrm). exists u, n. rewrite Hlk, Hh, Hths.
      assert (u <> t) as Hne by (intros ->; rewrite Hth in Hrm; injection Hrm as ->; done).
      destruct (Hother u _ Hne Hrm eq_refl) as [_ ->]. rewrite lookup_insert_ne by done. done.
  - intros u tu. rewrite Hths, lookup_insert_Some. intros [[<- <-]|[Hne Hu]]; rewrite Hlk.
    + destruct (holds_lock th') eqn:H1; [done|]. destruct (holds_lock th) eqn:H2; [done|]. split; [done|].
      intros Hu%(Hl t th Hth). congruence.
    + split.
      * intros Hh. destruct (Hother u tu ltac:(done) Hu Hh) as [-> ->]. by apply (Hl u tu).
      * destruct (holds_lock th') eqn:H1; [congruence|]. destruct (holds_lock th) eqn:H2; [done|]. by apply Hl.
  - intros u. rewrite Hlk, Hths. rewrite lookup_insert_is_Some'. destruct (holds_lock th'); [intros [= <-]; by left|].
    destruct (holds_lock th); [done|]. intros Hu. right. by apply Ho.
  - intros u tu. rewrite Hths, lookup_insert_Some. intros [[<- <-]|[Hne Hu]]; [done|].
    eapply knows_frame; [done| |by eapply Hk]. intros Hh. by destruct (Hother u tu ltac:(done) Hu Hh).
  - rewrite Hths. destruct Htr as [[Ha ->]|[Ha ->]].
    + rewrite (actions_insert _ _ th) by done. rewrite Ht. apply Permutation_app_comm.
    + by rewrite (actions_same _ _ th) by done.
Qed.

(** ** Objects *)

Lemma store_same n m s s' :
  store_ok n s -> n <= m -> s'.(st_heap) = s.(st_heap) -> s'.(st_data) = s.(st_data) -> s'.(st_by_id) = s.(st_by_id) ->
  s'.(st_next_inode) = s.(st_next_inode) -> s'.(st_next_object) = s.(st_next_object) -> store_ok m s'.
Proof.
  intros [] Hm Hh Hd Hi Hn Ho. split; rewrite ?Hh, ?Hd, ?Hi, ?Hn, ?Ho; try done; [lia|].
  intros p o Hp. specialize (so_counts0 p o Hp). lia.
Qed.

Lemma count_set_count p c s q o :
  s.(st_heap) !! p = Some o -> count_of (set_count p c s) q = if decide (q = p) then c else count_of s q.
Proof.
  intros Hp. unfold count_of. cbn. destruct (decide (q = p)) as [->|Hne].
  - by rewrite lookup_alter_eq, Hp.
  - by rewrite lookup_alter_ne by done.
Qed.

Lemma store_count n s i p c :
  store_ok n s -> s.(st_data) !! i = Some p -> 0 <= c <= 2 + (n + 1) -> store_ok (n + 1) (set_count p c s).
Proof.
  intros [] Hd Hc. destruct (so_data0 _ _ Hd) as (o & Ho & Hi).
  assert (forall q x, (set_count p c s).(st_heap) !! q = Some x -> exists y, s.(st_heap) !! q = Some y /\
    x.(ob_id) = y.(ob_id) /\ x.(ob_inode) = y.(ob_inode) /\ (x.(ob_refcount) = y.(ob_refcount) \/ q = p /\ x.(ob_refcount) = c)) as Hx.
  { intros q x. cbn. rewrite lookup_alter_Some. intros [(<- & y & Hy & ->)|[_ Hq]]; [exists y|exists x]; cbn; split_and!; auto. }
  split; try done.
  - intros j q Hj. destruct (so_data0 _ _ Hj) as (y & Hy & Hyj). cbn. destruct (decide (q = p)) as [->|Hne].
    + rewrite lookup_alter_eq, Hy. cbn. eauto.
    + rewrite lookup_alter_ne by done. eauto.
  - intros q x Hq Hnz. destruct (Hx q x Hq) as (y & Hy & _ & -> & [Hr|[-> _]]).
    + apply so_live0; [done|congruence].
    + assert (y = o) as -> by congruence. rewrite Hi. done.
  - intros q x Hq. destruct (Hx q x Hq) as (y & Hy & -> & -> & _). by eapply so_ids0.
  - cbn. lia.
  - intros q x Hq. destruct (Hx q x Hq) as (y & Hy & _). by eapply so_fresh0.
  - intros q x Hq. destruct (Hx q x Hq) as (y & Hy & _ & _ & [->|[_ ->]]); [|lia]. specialize (so_counts0 _ _ Hy). lia.
Qed.

Lemma counts_count n s i p c :
  store_ok n s -> s.(st_data) !! i = Some p ->
  counts (set_count p c s) = if c =? 0 then delete i (counts s) else <[i := c]> (counts s).
Proof.
  intros Hs Hd. destruct (so_data n s Hs _ _ Hd) as (o & Ho & Hi). apply map_eq. intros j.
  unfold counts at 1. rewrite lookup_omap. cbn [st_data set_count].
  destruct (decide (j = i)) as [->|Hne].
  - rewrite Hd. cbn. rewrite (count_set_count p c s p o) by done. rewrite decide_True by done.
    destruct (c =? 0); [by rewrite lookup_delete_eq|by rewrite lookup_insert_eq].
  - transitivity (counts s !! j); [|destruct (c =? 0); [by rewrite lookup_delete_ne|by rewrite lookup_insert_ne]].
    unfold counts. rewrite lookup_omap. destruct (s.(st_data) !! j) as [q|] eqn:Hq; [|done]. cbn.
    rewrite (count_set_count p c s q o) by done. rewrite decide_False; [done|]. intros ->.
    destruct (so_data n s Hs _ _ Hq) as (o' & Ho' & Hj). congruence.
Qed.

Lemma counts_lookup n s i p o :
  store_ok n s -> s.(st_data) !! i = Some p -> s.(st_heap) !! p = Some o -> o.(ob_refcount) <> 0 ->
  counts s !! i = Some o.(ob_refcount).
Proof.
  intros Hs Hd Ho Hnz. unfold counts. rewrite lookup_omap, Hd. cbn. unfold count_of. rewrite Ho.
  by rewrite (proj2 (Z.eqb_neq _ _)).
Qed.

(** A new object for a number that is free and belongs to [k]. *)
Lemma store_insert n s k i next :
  let p := s.(st_next_object) in
  let s' := MkState (<[p := MkObject i k 1]> s.(st_heap)) (<[i := p]> s.(st_data)) (<[k := i]> s.(st_by_id)) next (p + 1)
              s.(st_lock) s.(st_threads) s.(st_trace) in
  store_ok n s -> s.(st_data) !! i = None -> i < next -> s.(st_next_inode) <= next <= 2 + (n + 1) ->
  (forall k', s.(st_by_id) !! k' = Some i -> k' = k) -> (forall i', s.(st_by_id) !! k = Some i' -> i' = i) -> 0 <= n ->
  store_ok (n + 1) s' /\ frame true s s' /\
  (forall j q, s'.(st_data) !! j = Some q -> count_of s' q = 0 -> s.(st_data) !! j = Some q /\ count_of s q = 0) /\
  counts s' = hand_out i (counts s).
Proof.
  intros p s' [Hd Hl Hids Hinj Hnx Hin Hfr Hcn] Hfree Hlt Hx Hown Hk Hn.
  assert (s.(st_heap) !! p = None) as Hp.
  { destruct (s.(st_heap) !! p) as [o|] eqn:Ho; [|done]. specialize (Hfr _ _ Ho). unfold p in *. lia. }
  assert (s.(st_by_id) ⊆ <[k := i]> s.(st_by_id)) as Hsub.
  { destruct (s.(st_by_id) !! k) as [i'|] eqn:Hki; [|by apply insert_subseteq]. rewrite (Hk i' eq_refl) in Hki. by rewrite insert_id. }
  assert (forall j q, s.(st_data) !! j = Some q -> q <> p) as Hqp.
  { intros j q Hq ->. destruct (Hd _ _ Hq) as (o & Ho & _). congruence. }
  assert (forall q, q <> p -> count_of s' q = count_of s q) as Hcount.
  { intros q Hq. unfold count_of. cbn. by rewrite lookup_insert_ne. }
  split_and!.
  - split; cbn.
    + intros j q. rewrite lookup_insert_Some. intros [[<- <-]|[Hj Hq]]; [rewrite lookup_insert_eq; eauto|].
      rewrite lookup_insert_ne by (intros ->; by eapply Hqp). by apply Hd.
    + intros q o. rewrite lookup_insert_Some. intros [[<- <-]|[Hq Ho]] Hnz; [by rewrite lookup_insert_eq|].
      rewrite lookup_insert_ne; [by apply Hl|]. intros Hi. pose proof (Hl _ _ Ho Hnz). congruence.
    + intros q o. rewrite lookup_insert_Some. intros [[<- <-]|[Hq Ho]]; [by rewrite lookup_insert_eq|].
      eapply lookup_weaken; [by apply (Hids q)|done].
    + intros k1 k2 j. rewrite !lookup_insert_Some. intros [[<- <-]|[H1 H1']] [[<- H2]|[H2 H2']]; try done.
      * symmetry. by apply Hown.
      * subst j. by apply Hown.
      * by eapply Hinj.
    + intros k1 j. rewrite lookup_insert_Some. intros [[<- <-]|[_ Hj]]; [done|]. specialize (Hnx _ _ Hj). lia.
    + lia.
    + intros q o. rewrite lookup_insert_Some. intros [[<- <-]|[_ Ho]]; [lia|]. specialize (Hfr _ _ Ho). lia.
    + intros q o. rewrite lookup_insert_Some. intros [[<- <-]|[_ Ho]]; [cbn; lia|]. specialize (Hcn _ _ Ho). lia.
  - split_and!; [|done|done]. intros q o Ho. cbn. exists o. split; [|done]. rewrite lookup_insert_ne; [done|]. congruence.
  - intros j q. cbn. rewrite lookup_insert_Some. intros [[<- <-]|[_ Hq]].
    + unfold count_of. cbn. by rewrite lookup_insert_eq.
    + by rewrite Hcount by by eapply Hqp.
  - assert (counts s !! i = None) as Hci by by unfold counts; rewrite lookup_omap, Hfree.
    unfold hand_out. rewrite Hci. apply map_eq. intros j. unfold counts at 1. rewrite lookup_omap. cbn [st_data s'].
    destruct (decide (i = j)) as [<-|Hj].
    + rewrite !lookup_insert_eq. cbn. unfold count_of. cbn. by rewrite lookup_insert_eq.
    + rewrite !lookup_insert_ne by done. unfold counts. rewrite lookup_omap.
      destruct (s.(st_data) !! j) as [q|] eqn:Hq; [|done]. cbn. by rewrite Hcount by by eapply Hqp.
Qed.

(** [allocate_inode] and [insert_locked] when [get_alt_locked] found nothing. *)
Lemma insert_new_ok n s k :
  store_ok n s -> get_alt s k = None -> 0 <= n -> n + 3 <= U64_MAX ->
  let '(s', r) := insert_new k s in
  store_ok (n + 1) s' /\ frame true s s' /\
  s'.(st_lock) = s.(st_lock) /\ s'.(st_threads) = s.(st_threads) /\ s'.(st_trace) = s.(st_trace) /\
  (forall j p, s'.(st_data) !! j = Some p -> count_of s' p = 0 -> s.(st_data) !! j = Some p /\ count_of s p = 0) /\
  match r with
  | Some i => s'.(st_by_id) !! k = Some i /\ counts s' = hand_out i (counts s)
  | None => counts s' = counts s
  end.
Proof.
  intros Hs Hk H0 Hn. pose proof Hs as [Hd Hl Hids Hinj Hnx Hin Hfr Hcn]. unfold insert_new.
  set (x := match s.(st_by_id) !! k with
            | Some i => (i, s.(st_next_inode))
            | None => (s.(st_next_inode), wrap 64 (s.(st_next_inode) + 1)) end).
  assert (s.(st_data) !! x.1 = None /\ x.1 < x.2 /\ s.(st_next_inode) <= x.2 <= 2 + (n + 1) /\
    (forall k', s.(st_by_id) !! k' = Some x.1 -> k' = k) /\ forall i', s.(st_by_id) !! k = Some i' -> i' = x.1)
    as (Hfree & Hlt & Hx & Hown & Hmine).
  { unfold get_alt, x in *. destruct (s.(st_by_id) !! k) as [i|] eqn:Hki; cbn.
    - split_and!; [done|by eapply Hnx|lia|lia| |naive_solver]. intros k' Hk'. by eapply Hinj.
    - rewrite wrap_small by (unfold in_u, U64_MAX in *; lia). split_and!; [|lia|lia|lia| |done].
      + destruct (s.(st_data) !! s.(st_next_inode)) as [p|] eqn:Hp; [|done].
        destruct (Hd _ _ Hp) as (o & Ho & Hoi). pose proof (Hids _ _ Ho) as Hob. specialize (Hnx _ _ Hob). lia.
      + intros k' Hk'. specialize (Hnx _ _ Hk'). lia. }
  clearbody x. destruct x as [i next]. cbn [fst snd] in *. destruct (VFS_MAX_INO <? i).
  - split_and!; try done.
    + split; cbn; try done; try lia.
      * intros k' j Hj. specialize (Hnx _ _ Hj). lia.
      * intros q o Ho. specialize (Hcn _ _ Ho). lia.
    + split_and!; [|done|done]. intros p o Ho. by exists o.
  - pose proof (store_insert n s k i next Hs Hfree Hlt Hx Hown Hmine H0) as (H1 & H2 & H3 & H4).
    split_and!; try done; try apply H2. cbn. by rewrite lookup_insert_eq.
Qed.

(** ** Steps keep the invariant *)

Record race_ok (l : Ledger) (n : Z) (s : State) : Prop := {
  ro_store : store_ok n s;
  ro_threads : threads_ok s;
  ro_counts : counts s = foldl effect l s.(st_trace);
}.

(** While [t] is not about to remove an object, the objects in the map are
    live for whoever holds the lock. *)
Lemma locked_live s t th i p :
  threads_ok s -> s.(st_threads) !! t = Some th -> holds_lock th = true -> action_of th = None ->
  s.(st_data) !! i = Some p -> count_of s p <> 0.
Proof.
  intros Ht Hth Hh Ha Hp Hc. destruct (to_zero s Ht i p Hp Hc) as (u & m & Hu & Hrm).
  apply (to_lock s Ht t th Hth) in Hh. assert (u = t) as -> by congruence. rewrite Hth in Hrm. by injection Hrm as ->.
Qed.

(** A step of [t] that touches nothing but its own place and the lock. *)
Lemma place_ok l n s s' t th th' :
  race_ok l n s -> s.(st_threads) !! t = Some th -> action_of th = None ->
  s'.(st_heap) = s.(st_heap) -> s'.(st_data) = s.(st_data) -> s'.(st_by_id) = s.(st_by_id) ->
  s'.(st_next_inode) = s.(st_next_inode) -> s'.(st_next_object) = s.(st_next_object) ->
  s'.(st_trace) = s.(st_trace) ++ option_list (action_of th') ->
  foldl effect (counts s) (option_list (action_of th')) = counts s ->
  s'.(st_threads) = <[t := th']> s.(st_threads) ->
  s'.(st_lock) = (if holds_lock th' then Some t else if holds_lock th then None else s.(st_lock)) ->
  (holds_lock th = false -> holds_lock th' = true -> s.(st_lock) = None) -> knows s th' -> race_ok l (n + 1) s'.
Proof.
  intros [Hs Ht Hc] Hth Ha Eh Ed Ei En Eo Etr Hef Eth Elk Hacq Hk.
  assert (forall p, count_of s' p = count_of s p) as Ec by (intros p; unfold count_of; by rewrite Eh).
  assert (forall b, frame b s s') as Hf.
  { intros b. split_and!; [intros p o Ho; rewrite Eh; eauto|by rewrite Ei|]. intros _. split; [done|]. intros i p _. by rewrite Ec. }
  split.
  - eapply (store_same n); try done. lia.
  - eapply (threads_step s s' t th th'); try done; [by left| |].
    + destruct th'; cbn in *; try done; rewrite ?Eh, ?Ed, ?Ei, ?Ec; done.
    + intros i p. rewrite Ed, Ec. intros Hp Hz. right. destruct (holds_lock th) eqn:Hh; [|done].
      by destruct (locked_live s t th i p Ht Hth Hh Ha Hp).
  - rewrite Etr, foldl_app, <- Hc, Hef. apply map_eq. intros i. unfold counts. rewrite !lookup_omap, Ed.
    destruct (s.(st_data) !! i); cbn; [by rewrite Ec|done].
Qed.

Lemma move_ok l n s s' t th th' :
  race_ok l n s -> s.(st_threads) !! t = Some th -> action_of th = None -> action_of th' = None ->
  s'.(st_heap) = s.(st_heap) -> s'.(st_data) = s.(st_data) -> s'.(st_by_id) = s.(st_by_id) ->
  s'.(st_next_inode) = s.(st_next_inode) -> s'.(st_next_object) = s.(st_next_object) -> s'.(st_trace) = s.(st_trace) ->
  s'.(st_threads) = <[t := th']> s.(st_threads) ->
  s'.(st_lock) = (if holds_lock th' then Some t else if holds_lock th then None else s.(st_lock)) ->
  (holds_lock th = false -> holds_lock th' = true -> s.(st_lock) = None) -> knows s th' -> race_ok l (n + 1) s'.
Proof.
  intros Hr Hth Ha Ha' Eh Ed Ei En Eo Etr Eth Elk Hacq Hk.
  eapply (place_ok l n s s' t th th'); try done; rewrite Ha'; [by rewrite app_nil_r|done].
Qed.

(** A step of [t] that changes the count of a live object and takes effect. *)
Lemma count_ok l n s s' t th th' i p c c' a :
  race_ok l n s -> s.(st_threads) !! t = Some th -> action_of th = None -> action_of th' = Some a ->
  s.(st_data) !! i = Some p -> count_of s p = c -> c <> 0 -> 0 <= c' <= c + 1 ->
  effect (counts s) a = (if c' =? 0 then delete i (counts s) else <[i := c']> (counts s)) ->
  s' = goto t th' (set_lock s'.(st_lock) (act a (set_count p c' s))) ->
  s'.(st_lock) = (if holds_lock th' then Some t else if holds_lock th then None else s.(st_lock)) ->
  (holds_lock th = false -> holds_lock th' = false) ->
  knows s' th' -> (c' = 0 -> exists m, th' = FgRemove i m p) -> race_ok l (n + 1) s'.
Proof.
  intros [Hs Ht Hc] Hth Ha Ha' Hp Hcp Hnz Hc' Hef Es Elk Hnl Hk Hz0.
  destruct (so_data n s Hs _ _ Hp) as (o & Ho & Hoi).
  assert (o.(ob_refcount) = c) as Hoc by (unfold count_of in Hcp; by rewrite Ho in Hcp).
  pose proof (so_counts n s Hs _ _ Ho) as Hb.
  assert (forall q, count_of s' q = if decide (q = p) then c' else count_of s q) as Ec.
  { intros q. rewrite Es. rewrite <- (count_set_count p c' s q o) by done. done. }
  split.
  - eapply (store_same (n + 1) (n + 1) (set_count p c' s)); [apply (store_count n s i); [done|done|lia]|lia|by rewrite Es..].
  - eapply (threads_step s s' t th th'); try done.
    + by rewrite Es.
    + left. split; [done|]. rewrite Ha'. by rewrite Es.
    + intros Hh Hh'. rewrite Hnl in Hh' by done. done.
    + split_and!; [|by rewrite Es|].
      * intros q x Hx. rewrite Es. cbn. destruct (decide (q = p)) as [->|Hne].
        -- rewrite lookup_alter_eq, Hx. cbn. eauto.
        -- rewrite lookup_alter_ne by done. eauto.
      * intros _. split; [by rewrite Es|]. intros j q Hq Hcq. rewrite Ec. destruct (decide (q = p)) as [->|]; [congruence|done].
    + intros j q. rewrite Ec. rewrite Es at 1. cbn. intros Hq. destruct (decide (q = p)) as [->|Hne].
      * intros Hz. left. destruct (so_data n s Hs _ _ Hq) as (o' & Ho' & Hj). assert (j = i) as -> by congruence. by apply Hz0.
      * intros Hz. right. destruct (holds_lock th) eqn:Hh; [|done]. by destruct (locked_live s t th j q Ht Hth Hh Ha Hq).
  - transitivity (counts (set_count p c' s)); [by rewrite Es|]. rewrite (counts_count n s i) by done.
    rewrite <- Hef, Hc, Es. cbn. by rewrite foldl_app.
Qed.

Lemma hand_out_effect n s i p o :
  store_ok n s -> s.(st_data) !! i = Some p -> s.(st_heap) !! p = Some o -> o.(ob_refcount) <> 0 -> n + 3 <= U64_MAX ->
  o.(ob_inode) = i /\ effect (counts s) (Looked_up i) = <[i := o.(ob_refcount) + 1]> (counts s) /\
  Z.min U64_MAX (o.(ob_refcount) + 1) = o.(ob_refcount) + 1.
Proof.
  intros Hs Hd Ho Hnz Hn. pose proof (so_counts n s Hs _ _ Ho). destruct (so_data n s Hs _ _ Hd) as (o' & Ho' & Hi).
  split; [congruence|]. assert (Z.min U64_MAX (o.(ob_refcount) + 1) = o.(ob_refcount) + 1) as Hm by lia. split; [|done].
  cbn. unfold hand_out. rewrite (counts_lookup n s i p o) by done. by rewrite Hm.
Qed.

Lemma lookup_step_ok l n s t th s' :
  race_ok l n s -> s.(st_threads) !! t = Some th -> 0 <= n -> n + 4 <= U64_MAX ->
  lookup_step t th s = Some s' -> race_ok l (n + 1) s'.
Proof.
  intros Hr Hth H0 Hn. pose proof Hr as [Hs Ht Hc]. pose proof (to_knows s Ht t th Hth) as Hk.
  destruct th as [k|k p|k p curr|k|k| | | | | | | |]; cbn [lookup_step]; try done.
  - case_bool_decide as Hl; [|done]. intros [= <-].
    eapply (move_ok l n s _ t (LkSearch k)); try done; cbn; try (by destruct (get_alt s k)).
    unfold get_alt. destruct (s.(st_by_id) !! k) as [i|] eqn:Hi; [|done].
    destruct (s.(st_data) !! i) as [p|] eqn:Hp; [|done]. cbn. destruct (so_data n s Hs _ _ Hp) as (o & Ho & Hoi).
    exists o. split; [done|]. eapply (so_inj n s Hs _ _ i); [|done]. rewrite <- Hoi. by eapply (so_ids n s Hs).
  - intros [= <-]. destruct (Z.eqb_spec (count_of s p) 0) as [Hz|Hz];
      eapply (move_ok l n s _ t (LkFound k p)); try done; done.
  - destruct Hk as (Hnz & o & Ho & Hid). unfold count_of, inode_of. rewrite Ho.
    destruct (Z.eqb_spec (ob_refcount o) curr) as [Hcu|Hcu]; intros [= <-]; [|eapply (move_ok l n s _ t (LkLoaded k p curr)); try done; done].
    subst curr. pose proof (so_live n s Hs _ _ Ho Hnz) as Hd.
    destruct (hand_out_effect n s _ p o Hs Hd Ho Hnz ltac:(lia)) as (_ & Hef & Hm). rewrite Hm.
    pose proof (so_counts n s Hs _ _ Ho).
    eapply (count_ok l n s _ t (LkLoaded k p (ob_refcount o)) (LkDone k (ob_inode o)) (ob_inode o) p (ob_refcount o) (ob_refcount o + 1)); try done.
    + unfold count_of. by rewrite Ho.
    + lia.
    + rewrite Hef. by rewrite (proj2 (Z.eqb_neq _ _)) by lia.
    + cbn. rewrite <- Hid. by eapply (so_ids n s Hs).
    + lia.
  - case_bool_decide as Hl; [|done]. intros [= <-]. eapply (move_ok l n s _ t (LkInsert k)); try done; done.
  - destruct (get_alt s k) as [p|] eqn:Hg.
    + unfold get_alt in Hg. destruct (s.(st_by_id) !! k) as [i|] eqn:Hi; [|done].
      pose proof (locked_live s t _ i p Ht Hth eq_refl eq_refl Hg) as Hnz.
      destruct (so_data n s Hs _ _ Hg) as (o & Ho & Hoi). unfold count_of, inode_of in *. rewrite Ho in *. intros [= <-].
      destruct (hand_out_effect n s i p o Hs Hg Ho Hnz ltac:(lia)) as (_ & Hef & _). pose proof (so_counts n s Hs _ _ Ho).
      rewrite wrap_small by (unfold in_u, U64_MAX in *; lia).
      eapply (count_ok l n s _ t (LkLocked k) (LkDone k (ob_inode o)) i p (ob_refcount o) (ob_refcount o + 1)); try done.
      * unfold count_of. by rewrite Ho.
      * lia.
      * rewrite Hoi, Hef. by rewrite (proj2 (Z.eqb_neq _ _)) by lia.
      * cbn. by rewrite Hoi.
      * lia.
    + pose proof (insert_new_ok n s k Hs Hg H0 ltac:(lia)) as Hin.
      destruct (insert_new k s) as [s1 [i|]]; destruct Hin as (Hs1 & Hf & El & Eth & Etr & Hz & Hr1); intros [= <-].
      * destruct Hr1 as [Hki Hcs]. split; [by eapply store_same|..].
        -- eapply (threads_step s _ t (LkLocked k) (LkDone k i)); try done; cbn; rewrite ?Eth, ?Etr; try done.
           ++ by left.
           ++ intros j p Hp Hcz. destruct (Hz j p Hp Hcz) as [Hp' Hcz'].
              by destruct (locked_live s t _ j p Ht Hth eq_refl eq_refl Hp').
        -- cbn. change (counts s1 = foldl effect l (s1.(st_trace) ++ [Looked_up i])). rewrite Hcs, Etr, foldl_app, <- Hc. done.
      * split; [by eapply store_same|..].
        -- eapply (threads_step s _ t (LkLocked k) (LkFailed k)); try done; cbn; rewrite ?Eth, ?Etr; try done.
           ++ left. by rewrite app_nil_r.
           ++ intros j p Hp Hcz. destruct (Hz j p Hp Hcz) as [Hp' Hcz'].
              by destruct (locked_live s t _ j p Ht Hth eq_refl eq_refl Hp').
        -- cbn. change (counts s1 = foldl effect l s1.(st_trace)). by rewrite Hr1, Etr.
Qed.

(** The object whose count has dropped to zero leaves the map. *)
Lemma remove_ok l n s t i m p :
  race_ok l n s -> s.(st_threads) !! t = Some (FgRemove i m p) ->
  race_ok l (n + 1) (goto t (FgDone i m) (set_lock None
    (MkState s.(st_heap) (delete i s.(st_data)) s.(st_by_id) s.(st_next_inode) s.(st_next_object) s.(st_lock)
       s.(st_threads) s.(st_trace)))).
Proof.
  intros [Hs Ht Hc] Hth. pose proof (to_knows s Ht t _ Hth) as [Hp Hz]. pose proof Hs as [Hd Hl Hids Hinj Hnx Hin Hfr Hcn].
  assert (s.(st_lock) = Some t) as Hlk by by apply (to_lock s Ht t _ Hth). split.
  - split; cbn; try done; try lia.
    + intros j q [_ Hj]%lookup_delete_Some. by apply Hd.
    + intros q o Ho Hnz. pose proof (Hl _ _ Ho Hnz) as Hq. apply lookup_delete_Some. split; [|done].
      intros ->. assert (q = p) as -> by congruence. unfold count_of in Hz. rewrite Ho in Hz. done.
    + intros q o Ho. specialize (Hcn _ _ Ho). lia.
  - eapply (threads_step s _ t (FgRemove i m p) (FgDone i m)); try done; cbn.
    + by right.
    + split_and!; [|done|done]. intros q o Ho. by exists o.
    + intros j q [Hne Hj]%lookup_delete_Some. change (count_of s q = 0 -> (exists n0, FgDone i m = FgRemove j n0 q) \/
        true = false /\ s.(st_data) !! j = Some q /\ count_of s q = 0). intros Hcq.
      destruct (to_zero s Ht j q Hj Hcq) as (u & m' & Hu & Hrm). assert (u = t) as -> by congruence.
      rewrite Hth in Hrm. injection Hrm as -> _ _. done.
  - cbn. rewrite <- Hc. apply map_eq. intros j. unfold counts. rewrite !lookup_omap. cbn [st_data goto set_lock].
    destruct (decide (i = j)) as [<-|Hne].
    + rewrite lookup_delete_eq, Hp. cbn. by rewrite Hz.
    + by rewrite lookup_delete_ne.
Qed.

Lemma forget_step_ok l n s t th s' :
  race_ok l n s -> s.(st_threads) !! t = Some th -> forget_step t th s = Some s' -> race_ok l (n + 1) s'.
Proof.
  intros Hr Hth. pose proof Hr as [Hs Ht Hc]. pose proof (to_knows s Ht t th Hth) as Hk.
  assert (holds_lock th = true -> s.(st_lock) = Some t) as Hlk by apply (to_lock s Ht t th Hth).
  destruct th as [| | | | | | |i m|i m|i m p|i m p curr|i m p|]; cbn [forget_step]; try done.
  - case_bool_decide as Hl; [|done]. intros [= <-]. eapply (move_ok l n s _ t (FgStart i m)); try done; done.
  - destruct (Z.eqb_spec i ROOT_ID) as [->|Hroot]; [|destruct (s.(st_data) !! i) as [p|] eqn:Hp]; intros [= <-].
    + eapply (place_ok l n s _ t (FgLocked ROOT_ID m) (FgDone ROOT_ID m)); done.
    + eapply (move_ok l n s _ t (FgLocked i m) (FgFound i m p)); try done; by apply Hlk.
    + eapply (place_ok l n s _ t (FgLocked i m) (FgDone i m)); try done. cbn. unfold take_back.
      rewrite (proj2 (Z.eqb_neq _ _)) by done. unfold counts. by rewrite lookup_omap, Hp.
  - intros [= <-]. eapply (move_ok l n s _ t (FgFound i m p)); try done; try done; by apply Hlk.
  - destruct Hk as (Hm & Hroot & Hp). destruct (Z.eqb_spec (count_of s p) curr) as [<-|Hne];
      [|intros [= <-]; eapply (move_ok l n s _ t (FgLoaded i m p curr)); try done; try done; by apply Hlk].
    pose proof (locked_live s t _ i p Ht Hth eq_refl eq_refl Hp) as Hnz.
    destruct (so_data n s Hs _ _ Hp) as (o & Ho & Hoi). pose proof (so_counts n s Hs _ _ Ho) as Hb.
    assert (count_of s p = o.(ob_refcount)) as Hco by by unfold count_of; rewrite Ho.
    assert (effect (counts s) (Forgot i m) =
      if saturating_sub (count_of s p) m =? 0 then delete i (counts s)
      else <[i := saturating_sub (count_of s p) m]> (counts s)) as Hef.
    { cbn. unfold take_back, saturating_sub. rewrite (proj2 (Z.eqb_neq i _)) by done.
      rewrite (counts_lookup n s i p o), Hco by congruence. destruct (Z.leb_spec (ob_refcount o) m).
      - by rewrite Z.max_l by lia.
      - rewrite Z.max_r by lia. by rewrite (proj2 (Z.eqb_neq _ _)) by lia. }
    assert (0 <= saturating_sub (count_of s p) m <= count_of s p + 1) as Hsat by (unfold saturating_sub; lia).
    destruct (Z.eqb_spec (saturating_sub (count_of s p) m) 0) as [Hz|Hz]; intros [= <-].
    + eapply (count_ok l n s _ t (FgLoaded i m p (count_of s p)) (FgRemove i m p) i p (count_of s p) _ (Forgot i m));
        try done; [by rewrite Hz in *|by apply Hlk| |by eauto].
      split; [done|]. change (count_of (set_count p (saturating_sub (count_of s p) m) s) p = 0).
      by rewrite (count_set_count p _ s p o), decide_True.
    + eapply (count_ok l n s _ t (FgLoaded i m p (count_of s p)) (FgDone i m) i p (count_of s p) _ (Forgot i m));
        try done; [by rewrite Hef, (proj2 (Z.eqb_neq _ _) Hz)|..].
  - intros [= <-]. by apply (remove_ok l n s t i m p).
Qed.

Lemma step_ok l n s t : race_ok l n s -> 0 <= n -> n + 4 <= U64_MAX -> race_ok l (n + 1) (step s t).
Proof.
  intros Hr H0 Hn. assert (race_ok l (n + 1) s) as Hsame.
  { destruct Hr. split; try done. eapply (store_same n); try done. lia. }
  unfold step. destruct (s.(st_threads) !! t) as [th|] eqn:Hth; [|done].
  destruct (lookup_step t th s) as [s'|] eqn:Hl; [by eapply lookup_step_ok|].
  destruct (forget_step t th s) as [s'|] eqn:Hf; [by eapply forget_step_ok|done].
Qed.

Lemma run_ok l n schedule s :
  race_ok l n s -> 0 <= n -> n + zlen schedule + 3 <= U64_MAX -> race_ok l (n + zlen schedule) (run schedule s).
Proof.
  revert n s. induction schedule as [|t schedule IH]; intros n s Hr H0 Hn; [by rewrite Z.add_0_r|].
  rewrite zlen_cons in *. pose proof (zlen_nonneg schedule). cbn.
  replace (n + (1 + zlen schedule)) with (n + 1 + zlen schedule) by lia. apply IH; [apply step_ok; [done|lia|lia]|lia|lia].
Qed.

Lemma start_ok root threads :
  map_Forall (fun _ th => idle th = true) threads -> race_ok {[ROOT_ID := 2]} 0 (start root threads).
Proof.
  intros Hidle. split.
  - split; cbn; try done; try lia.
    + intros i p [<- <-]%lookup_singleton_Some. rewrite lookup_singleton_eq. eauto.
    + by intros p o [<- <-]%lookup_singleton_Some _.
    + intros p o [<- <-]%lookup_singleton_Some. by rewrite lookup_singleton_eq.
    + intros k k' i [<- <-]%lookup_singleton_Some [<- _]%lookup_singleton_Some. done.
    + intros k i [<- <-]%lookup_singleton_Some. done.
    + intros p o [<- <-]%lookup_singleton_Some. done.
    + intros p o [<- <-]%lookup_singleton_Some. done.
  - split; cbn; try done.
    + intros i p [<- <-]%lookup_singleton_Some. by vm_compute.
    + intros t th Ht%Hidle. by destruct th.
    + intros t th Ht%Hidle. destruct th; try done. cbn in *. by apply Z.leb_le.
    + unfold actions. assert (forall l : list (Z * Thread), Forall (fun x => idle x.2 = true) l ->
        omap (fun x => action_of x.2) l = []) as Hnil.
      { induction 1 as [|x l Hx _ IH]; [done|]. cbn. rewrite IH. by destruct x as [t []]. }
      rewrite Hnil; [done|]. apply Forall_forall. intros [t th] Hin%elem_of_map_to_list. by apply (Hidle t).
  - by vm_compute.
Qed.

(** C6: racing lookups and forgets are linearizable.  Start any number of
    threads, each doing a lookup or a forget, and let them run in any
    interleaving.  The operations have then taken effect one after the other:
    every thread that is done appears exactly once in the trace, and the counts
    of the inodes in the map are those of the sequential ledger after the
    trace.  A lookup's inode is the one number of its file.  When nobody holds
    the lock, every object in the map is live. *)
Theorem race_linearizable root threads schedule :
  map_Forall (fun _ th => idle th = true) threads -> zlen schedule + 3 <= U64_MAX ->
  let s := run schedule (start root threads) in
  s.(st_trace) ≡ₚ actions s.(st_threads) /\
  counts s = foldl effect {[ROOT_ID := 2]} s.(st_trace) /\
  (forall t k i, s.(st_threads) !! t = Some (LkDone k i) -> s.(st_by_id) !! k = Some i) /\
  (forall k k' i, s.(st_by_id) !! k = Some i -> s.(st_by_id) !! k' = Some i -> k = k') /\
  (s.(st_lock) = None -> forall i p, s.(st_data) !! i = Some p -> counts s !! i = Some (count_of s p)).
Proof.
  intros Hidle Hlen s. destruct (run_ok {[ROOT_ID := 2]} 0 schedule (start root threads)) as [Hs Ht Hc];
    [by apply start_ok|done|lia|]. fold s in Hs, Ht, Hc. split_and!; [apply Ht|done| |apply Hs|].
  - intros t k i Hth. apply (to_knows s Ht t _ Hth).
  - intros Hl i p Hp. unfold counts. rewrite lookup_omap, Hp. cbn.
    destruct (Z.eqb_spec (count_of s p) 0) as [Hz|]; [|done].
    destruct (to_zero s Ht i p Hp Hz) as (t & m & Hlk & _). congruence.
Qed.

(** Two lookups of one file and a forget of what the first of them handed out:
    the forget drops the object between the second lookup's load and its
    compare-exchange, which fails, so the file is entered again under its old
    number. *)
Definition example_root : InodeId := MkInodeId 1 1 1.
Definition example_file : InodeId := MkInodeId 7 1 1.
Definition example_threads : gmap Z Thread :=
  {[1 := LkSearch example_file; 2 := LkSearch example_file; 3 := FgStart 2 1]}.
Definition example_schedule : list Z := [1; 1; 1; 2; 2; 3; 3; 3; 3; 2; 2; 3; 2; 2; 2].

Lemma race_linearizable_witness :
  let s := run example_schedule (start example_root example_threads) in
  s.(st_trace) = [Looked_up 2; Forgot 2 1; Looked_up 2] /\
  s.(st_trace) ≡ₚ actions s.(st_threads) /\ counts s = foldl effect {[ROOT_ID := 2]} s.(st_trace).
Proof.
  split; [by vm_compute|].
  destruct (race_linearizable example_root example_threads example_schedule) as (H1 & H2 & _); [|by vm_compute|split; done].
  apply (bool_decide_unpack _). by vm_compute.
Defined.

(** No deadlock.  In every state that an interleaving reaches, if some
    thread has not finished then some thread can move. *)
Theorem race_no_deadlock root threads schedule :
  map_Forall (fun _ th => idle th = true) threads -> zlen schedule + 3 <= U64_MAX ->
  let s := run schedule (start root threads) in
  (exists t th, s.(st_threads) !! t = Some th /\ finished th = false) ->
  exists t th, s.(st_threads) !! t = Some th /\ finished th = false /\
    (is_Some (lookup_step t th s) \/ is_Some (forget_step t th s)).
Proof.
  intros Hidle Hlen s (t & th & Hth & Hf). destruct (run_ok {[ROOT_ID := 2]} 0 schedule (start root threads)) as [Hs Ht Hc];
    [by apply start_ok|done|lia|]. fold s in Hs, Ht, Hc.
  assert (forall t th, s.(st_threads) !! t = Some th -> finished th = false -> holds_lock th = true \/ s.(st_lock) = None ->
    is_Some (lookup_step t th s) \/ is_Some (forget_step t th s)) as Hmove.
  { intros u tu Hu Hfu Hor. destruct tu; try done; cbn;
      try (destruct Hor as [?|Hl]; [done|rewrite bool_decide_true by done]; by eauto);
      try (left; by repeat case_match; eauto); right; repeat case_match; by eauto. }
  destruct (s.(st_lock)) as [u|] eqn:Hl; [|by exists t, th; eauto].
  destruct (to_owner s Ht u Hl) as [tu Hu]. apply (to_lock s Ht u tu Hu) in Hl. exists u, tu.
  assert (finished tu = false) as Hfu by by destruct tu. eauto.
Qed.

Lemma race_no_deadlock_witness :
  let s := run [3] (start example_root example_threads) in
  exists t th, s.(st_threads) !! t = Some th /\ finished th = false /\
    (is_Some (lookup_step t th s) \/ is_Some (forget_step t th s)).
Proof.
  apply (race_no_deadlock example_root example_threads [3]); [|by vm_compute|].
  - apply (bool_decide_unpack _). by vm_compute.
  - exists 1, (LkSearch example_file). split; by vm_compute.
Defined.
End Race.
