(* ===== verification/PassthroughAccess.v ===== *)
(** * The access check and the records of a directory

    Two routines of the passthrough file system against reference definitions:
    ACCESS, which decides in user space, against the rule of access(2), and
    the parser of directory records against the list the host printed. *)

From stdpp Require Import gmap.
From S2P Require Import Prelude Std Lib Codec Abi AbiStruct FsTypes FileSystem Vfs ProgLogic Host HostLaws ToyHost.
From S2P Require Import InodeStore MountFds Passthrough PassthroughSync PassthroughProps PassthroughTable.
From S2P Require Import PassthroughRequests PassthroughDir PassthroughSession PassthroughClaims.

(** ** ACCESS *)

(** The permission bit of the one class the caller is in. *)
Definition class_bit (uid gid : Z) (st : stat64) (owner group other : Z) : bool :=
  has_flag st.(st_mode)
    (if st.(st_uid) =? uid then owner else if st.(st_gid) =? gid then group else other).

(** The rule of access(2): root may read and write anything, and execute what
    someone may execute. *)
Definition posix_access (uid gid : Z) (st : stat64) (mask : Z) : bool :=
  let mode := Z.land (signed 32 mask) 7 in
  (negb (has_flag mode R_OK) || (uid =? 0) || class_bit uid gid st 0x100 0x20 0x4) &&
  (negb (has_flag mode W_OK) || (uid =? 0) || class_bit uid gid st 0x80 0x10 0x2) &&
  (negb (has_flag mode X_OK) ||
   (if uid =? 0 then has_flag st.(st_mode) 0x49 else class_bit uid gid st 0x40 0x8 0x1)).

(** No class may do what a closer one may not. *)
Definition monotone_mode (m : Z) : bool :=
  implb (has_flag m 0x20) (has_flag m 0x100) && implb (has_flag m 0x4) (has_flag m 0x20) &&
  implb (has_flag m 0x10) (has_flag m 0x80) && implb (has_flag m 0x2) (has_flag m 0x10) &&
  implb (has_flag m 0x8) (has_flag m 0x40) && implb (has_flag m 0x1) (has_flag m 0x8).

Lemma exec_bits m : has_flag m 0x49 = has_flag m 0x40 || has_flag m 0x8 || has_flag m 0x1.
Proof.
  unfold has_flag. change 0x49 with (Z.lor (Z.lor 0x40 0x8) 0x1). rewrite !Z.land_lor_distr_r.
  destruct (Z.eqb_spec (Z.land m 0x40) 0) as [->|], (Z.eqb_spec (Z.land m 0x8) 0) as [->|], (Z.eqb_spec (Z.land m 0x1) 0) as [->|];
    cbn [negb orb]; try done; apply negb_true_iff, Z.eqb_neq; rewrite !Z.lor_eq_0_iff; tauto.
Qed.

(** What the code grants: some class the caller is in has the bit. *)
Definition any_class (uid gid : Z) (st : stat64) (owner group other : Z) : bool :=
  (st.(st_uid) =? uid) && has_flag st.(st_mode) owner || (st.(st_gid) =? gid) && has_flag st.(st_mode) group ||
  has_flag st.(st_mode) other.

Lemma class_any uid gid st owner group other :
  class_bit uid gid st owner group other = true -> any_class uid gid st owner group other = true.
Proof. unfold class_bit, any_class. destruct (st_uid st =? uid), (st_gid st =? gid); intros ->; cbn; by rewrite ?orb_true_r. Qed.

Lemma any_class_monotone uid gid st owner group other :
  implb (has_flag st.(st_mode) group) (has_flag st.(st_mode) owner) = true ->
  implb (has_flag st.(st_mode) other) (has_flag st.(st_mode) group) = true ->
  any_class uid gid st owner group other = class_bit uid gid st owner group other.
Proof.
  unfold class_bit, any_class. destruct (st_uid st =? uid), (st_gid st =? gid);
    by destruct (has_flag (st_mode st) owner), (has_flag (st_mode st) group), (has_flag (st_mode st) other).
Qed.

Lemma access_check_any uid gid st mask :
  let mode := Z.land (signed 32 mask) 7 in
  access_check uid gid st mask =
    if (negb (has_flag mode R_OK) || (uid =? 0) || any_class uid gid st 0x100 0x20 0x4) &&
       (negb (has_flag mode W_OK) || (uid =? 0) || any_class uid gid st 0x80 0x10 0x2) &&
       (negb (has_flag mode X_OK) || (uid =? 0) && has_flag st.(st_mode) 0x49 || any_class uid gid st 0x40 0x8 0x1)
    then Ok tt else Err (Os EACCES).
Proof.
  cbv zeta. unfold access_check. change (Z.lor R_OK (Z.lor W_OK X_OK)) with 7.
  generalize (Z.land (signed 32 mask) 7) as m. intros m. destruct (Z.eqb_spec m F_OK) as [->|_]; [done|].
  assert (forall o g t, (negb (st_uid st =? uid) || negb (has_flag (st_mode st) o)) &&
    ((negb (st_gid st =? gid) || negb (has_flag (st_mode st) g)) && negb (has_flag (st_mode st) t)) =
    negb (any_class uid gid st o g t)) as Hany.
  { intros o g t. unfold any_class. by rewrite !negb_orb, !negb_andb, andb_assoc. }
  rewrite <- !andb_assoc, !Hany.
  destruct (has_flag m R_OK), (has_flag m W_OK), (has_flag m X_OK), (uid =? 0), (any_class uid gid st 0x100 0x20 0x4),
    (any_class uid gid st 0x80 0x10 0x2), (any_class uid gid st 0x40 0x8 0x1); try done; by destruct (has_flag _ 0x49).
Qed.

(** ACCESS against the rule of access(2).  The check never refuses with
    anything but [EACCES] and never refuses what the rule allows; on a mode in
    which no class may do what a closer class may not, it allows exactly what
    the rule allows. *)
Theorem access_vs_posix uid gid st mask :
  (access_check uid gid st mask = Ok tt \/ access_check uid gid st mask = Err (Os EACCES)) /\
  (posix_access uid gid st mask = true -> access_check uid gid st mask = Ok tt) /\
  (monotone_mode st.(st_mode) = true ->
   access_check uid gid st mask = Ok tt -> posix_access uid gid st mask = true).
Proof.
  rewrite access_check_any. unfold posix_access. set (m := Z.land (signed 32 mask) 7).
  pose proof (class_any uid gid st 0x100 0x20 0x4) as Hr. pose proof (class_any uid gid st 0x80 0x10 0x2) as Hw.
  pose proof (class_any uid gid st 0x40 0x8 0x1) as Hx. split_and!.
  - case_match; auto.
  - rewrite !andb_true_iff, !orb_true_iff. intros [[Hr' Hw'] Hx'].
    enough (forall b : bool, b = true -> (if b then Ok tt else Err (Os EACCES)) = Ok tt) as Hif; [apply Hif|by intros [] ?].
    rewrite !andb_true_iff, !orb_true_iff, andb_true_iff. destruct (uid =? 0); tauto.
  - unfold monotone_mode. rewrite !andb_true_iff. intros [[[[[M1 M2] M3] M4] M5] M6].
    rewrite !any_class_monotone by done. intros Hif.
    assert (class_bit uid gid st 0x40 0x8 0x1 = true -> has_flag st.(st_mode) 0x49 = true) as Hany.
    { unfold class_bit. rewrite exec_bits. repeat case_match; intros ->; by rewrite ?orb_true_r. }
    destruct (_ && _) eqn:He in Hif; [|done]. revert He. rewrite !andb_true_iff, !orb_true_iff, andb_true_iff.
    destruct (uid =? 0); [tauto|]. intros [[? ?] [[?|[? _]]|?]]; [tauto|done|tauto].
Qed.

(** ** Directory records *)

(** A callback that takes every entry. *)
Definition collect : DirEntry -> prog (list DirEntry) io_error Z := fun d l => (l ++ [d], Ok 1).

Lemma scan_collect b records l :
  scan_records collect b records l =
    (l ++ map record_entry (filter (fun r => record_dot r = false) records), Ok tt).
Proof.
  revert b l. induction records as [|r records IH]; intros b l; cbn [scan_records]; [by rewrite app_nil_r|].
  rewrite filter_cons. destruct (record_dot r) eqn:Hd.
  - rewrite decide_False by done. apply IH.
  - rewrite decide_True by done. cbn [collect Z.eqb]. rewrite IH. cbn [map]. by rewrite <- app_assoc.
Qed.

(** The entries of the records that are to be reported, in order, and whether
    the first record is one of them. *)
Definition reported (records : list HostDirent) : list DirEntry :=
  map record_entry (filter (fun r => record_dot r = false) records).

Definition starts_reported (records : list HostDirent) : bool :=
  match records with [] => false | r :: _ => negb (record_dot r) end.

(** The callback takes the entries one after the other. *)
Inductive takes {S : Type} (add : DirEntry -> prog S io_error Z) : list DirEntry -> S -> S -> Prop :=
| takes_none s : takes add [] s s
| takes_next d ds s s1 s2 n : add d s = (s1, Ok n) -> n <> 0 -> takes add ds s1 s2 -> takes add (d :: ds) s s2.

(** How a scan ends: the callback took all of the entries, or there is one it did
    not take, and then it was not called again.  [loud]: an error for the first of
    the entries is reported. *)
Definition scanned {S : Type} (add : DirEntry -> prog S io_error Z) (entries : list DirEntry) (loud : bool) (s s' : S)
    (res : io_result unit) : Prop :=
  (takes add entries s s' /\ res = Ok tt) \/
  exists ds d rest s1 o, entries = ds ++ d :: rest /\ takes add ds s s1 /\ add d s1 = (s', o) /\
    match o with
    | Ok n => n = 0 /\ res = Ok tt
    | Err e => (ds = [] /\ loud = true /\ res = Err e) \/ ((ds <> [] \/ loud = false) /\ res = Ok tt)
    | Panic => res = Panic
    end.

Lemma scan_scanned {S : Type} (add : DirEntry -> prog S io_error Z) (b : bool) records s :
  let '(s', res) := scan_records add b records s in scanned add (reported records) (b && starts_reported records) s s' res.
Proof.
  revert b s. induction records as [|r records IH]; intros b s; cbn [scan_records]; [left; split; [constructor|done]|].
  unfold reported. cbn [starts_reported]. rewrite filter_cons. destruct (record_dot r) eqn:Hd.
  { rewrite decide_False, andb_false_r by done. exact (IH false s). }
  rewrite decide_True, andb_true_r by done. cbn [map]. fold (reported records). destruct (add (record_entry r) s) as [s1 res] eqn:Hadd.
  assert (forall o, o = res -> match o with Ok n => n = 0 | _ => True end ->
    scanned add (record_entry r :: reported records) b s s1 (match o with Ok _ => Ok tt | Err e => if b then Err e else Ok tt | Panic => Panic end)) as Hlast.
  { intros o -> Ho. right. exists [], (record_entry r), (reported records), s, res. split_and!; [done|constructor|done|].
    destruct res; [done| |done]. destruct b; [by left|right; split; [by right|done]]. }
  destruct res as [n|e|]; [|by apply (Hlast (Err e))|by apply (Hlast Panic)].
  destruct (Z.eqb_spec n 0) as [->|Hn]; [by apply (Hlast (Ok 0))|]. specialize (IH false s1). cbn [andb] in IH.
  destruct (scan_records add false records s1) as [s2 res]. destruct IH as [[Ht ->]|(ds & d & rest & s3 & o & Hl & Ht & Ho & Hres)].
  - left. split; [by econstructor|done].
  - right. exists (record_entry r :: ds), d, rest, s3, o. rewrite Hl. split_and!; [done|by econstructor|done|].
    destruct o; [done| |done]. right. split; [by left|]. by destruct Hres as [(_ & ? & _)|[_ ?]].
Qed.

(** C36: the parser of directory records.  On a buffer of well-formed records, the
    loop of READDIR, with the fuel of the model, ends and calls back on the
    entries of the records in their order, without ["."] and [".."], each with
    its inode, its offset, its type and its name up to the padding.  It goes on as
    long as the callback takes them, that is, answers with a number other than
    zero, and is over with success when they are all taken or one is answered with
    zero.  At an error of the callback it is over as well: the error is returned
    if the entry was that of the first record of the buffer, and otherwise the loop
    ends with success, also when the records before it were all skipped (where the
    comment in the source says that an error is signalled if no entry was stored).
    A callback that takes everything gets every entry. *)
Theorem readdir_delivers {S : Type} (add : DirEntry -> prog S io_error Z) records s :
  Forall (fun r => hde_ok r = true) records ->
  let buf := concat (map dirent_image records) in
  let '(s', res) := readdir_loop (Datatypes.S (length buf)) add (length buf) buf s in
  scanned add (reported records) (starts_reported records) s s' res /\
  readdir_loop (Datatypes.S (length buf)) collect (length buf) buf [] = (reported records, Ok tt).
Proof.
  intros Hok buf. assert (length records < Datatypes.S (length buf))%nat as Hf.
  { pose proof (records_length records Hok) as Hr. fold buf in Hr. unfold zlen in Hr. lia. }
  unfold buf in *. rewrite !readdir_loop_scan by done. rewrite Nat.eqb_refl, scan_collect.
  pose proof (scan_scanned add true records s) as Hs. by destruct (scan_records add true records s).
Qed.

Definition example_records : list HostDirent :=
  [MkHostDirent 1 1 4 [46] 4; MkHostDirent 9 2 8 [97; 98] 3; MkHostDirent 1 3 4 [46; 46] 3].

Lemma readdir_delivers_witness :
  let buf := concat (map dirent_image example_records) in
  readdir_loop (Datatypes.S (length buf)) collect (length buf) buf [] = ([MkDirEntry 9 2 8 [97; 98]], Ok tt).
Proof.
  pose proof (readdir_delivers collect example_records [] ltac:(by repeat constructor)) as H. cbv zeta in H |- *.
  destruct (readdir_loop _ _ _ _ []) as [s' res]. destruct H as [_ ->]. by vm_compute.
Defined.
