(* ===== verification/XattrMap.v ===== *)
(** * The extended attribute map ([src/passthrough/xattrmap.rs])

    A map is a list of rules that say how the names of extended attributes are
    translated between the client and the host.  The parser reads rules from a
    string, one character at a time: its state is the rest of the characters,
    and every loop of it takes at least one of them, so the length of the string
    is enough fuel.  A character is its Unicode scalar value.

    The theorems show that the maps the parser accepts are well typed and never
    make the translation panic, that the parser reads back what is printed in the
    documented syntax, and what the [map] rule does: names survive the way from
    the client to the host and back, and the client reaches no attribute of the
    host outside its part.

    The file is in the tree but no module of the crate declares it. *)

From S2P Require Import Prelude Std ProgLogic.

(** ** Errors *)

Inductive ErrorKind :=
| InvalidScope (got expected : bytes)
| InvalidType (got expected : bytes)
| InvalidDelimiter
| IncompleteRule
| MapRuleViolation
| NoRulesProvided
| UnterminatedMapping.

Record Error := mkError { xe_cause : ErrorKind; xe_rule : option Z }.

(** [impl From<ErrorKind> for Error]. *)
Definition Error_from (ek : ErrorKind) : Error := mkError ek None.

(** ** Scopes and types *)

Definition CLIENT : Z := 1.
Definition SERVER : Z := 2.

Definition Scope_from_bytes (b : bytes) : outcome ErrorKind Z :=
  if beq b (bs "all") then Ok (Z.lor CLIENT SERVER)
  else if beq b (bs "client") then Ok CLIENT
  else if beq b (bs "server") then Ok SERVER
  else Err (InvalidScope (from_utf8_lossy b) (bs "all, client, server")).

Inductive Type_ := Prefix | Okay | Bad | Unsupported | Map.

#[global] Instance Type_eq_dec : EqDecision Type_.
Proof. solve_decision. Defined.

Definition Type_from_bytes (b : bytes) : outcome ErrorKind Type_ :=
  if beq b (bs "prefix") then Ok Prefix
  else if beq b (bs "ok") then Ok Okay
  else if beq b (bs "bad") then Ok Bad
  else if beq b (bs "unsupported") then Ok Unsupported
  else if beq b (bs "map") then Ok Map
  else Err (InvalidType (from_utf8_lossy b) (bs "prefix, ok, bad, map")).

(** ** Rules *)

Record Rule := mkRule { ru_scope : Z; ru_type : Type_; ru_key : CStr; ru_prepend : CStr }.

(** [Rule::matches]: a scope that is both panics. *)
Definition Rule_matches {E} (r : Rule) (scope : Z) (xattr_name : bytes) : outcome E bool :=
  if negb (has_all r.(ru_scope) scope) then Ok false
  else if scope =? CLIENT then Ok (starts_with r.(ru_key) xattr_name)
  else if scope =? SERVER then Ok (starts_with r.(ru_prepend) xattr_name)
  else Panic.

(** The closure [next_token]: the characters up to the delimiter, which is taken
    too.  [*ch as u8] keeps the low eight bits of a character. *)
Fixpoint next_token_from (delim : Z) (tokens : list Z) : list Z * outcome ErrorKind bytes :=
  match tokens with
  | [] => ([], Err IncompleteRule)
  | ch :: tokens' =>
    if ch =? delim then (tokens', Ok [])
    else let '(rest, r) := next_token_from delim tokens' in (rest, outcome_map (cons (wrap 8 ch)) r)
  end.

Definition next_token (delim : Z) : prog (list Z) ErrorKind bytes := next_token_from delim.

(** [tokens.next()]. *)
Definition next_char : prog (list Z) ErrorKind (option Z) := fun tokens =>
  match tokens with
  | [] => ([], Ok None)
  | ch :: tokens' => (tokens', Ok (Some ch))
  end.

Definition Rule_from_tokens : prog (list Z) ErrorKind Rule :=
  delim ← next_char;
  delim ← lift (ok_or InvalidDelimiter delim);
  t ← next_token delim;
  type_ ← lift (Type_from_bytes t);
  match type_ with
  | Map =>
    k ← next_token delim;
    key ← lift (unwrap (CString_new k));
    p ← next_token delim;
    prepend ← lift (unwrap (CString_new p));
    mret (mkRule (Z.lor CLIENT SERVER) type_ key prepend)
  | Prefix | Okay | Bad | Unsupported =>
    s ← next_token delim;
    scope ← lift (Scope_from_bytes s);
    k ← next_token delim;
    key ← lift (unwrap (CString_new k));
    p ← next_token delim;
    prepend ← lift (unwrap (CString_new p));
    mret (mkRule scope type_ key prepend)
  end.

Definition expand_map_type {E} (rule : Rule) : outcome E (list Rule) :=
  if decide (rule.(ru_type) = Map) then
    let both := Z.lor CLIENT SERVER in
    let first := mkRule both Prefix rule.(ru_key) rule.(ru_prepend) in
    match rule.(ru_key) with
    | [] => Ok [first; mkRule both Bad [] []]
    | _ :: _ => Ok [first; mkRule both Bad rule.(ru_prepend) rule.(ru_key); mkRule both Okay [] []]
    end
  else Panic.

(** ** The map *)

Inductive AppliedRule := Pass (name : CStr) | Deny | NotSupported.

Record XattrMap := mkXattrMap { xm_rules : list Rule }.

(** [find_rule]: the first rule that matches. *)
Fixpoint find_rule_in (rules : list Rule) (scope : Z) (xattr_name : bytes) : outcome Error Rule :=
  match rules with
  | [] => Err (mkError UnterminatedMapping None)
  | r :: rules' =>
    m ← Rule_matches r scope xattr_name;
    if m : bool then Ok r else find_rule_in rules' scope xattr_name
  end.

Definition find_rule (m : XattrMap) (scope : Z) (xattr_name : bytes) : outcome Error Rule :=
  find_rule_in m.(xm_rules) scope xattr_name.

Definition map_client_xattr (m : XattrMap) (xattr_name : CStr) : outcome Error AppliedRule :=
  rule ← find_rule m CLIENT xattr_name;
  match rule.(ru_type) with
  | Okay => Ok (Pass xattr_name)
  | Bad => Ok Deny
  | Unsupported => Ok NotSupported
  | Prefix => concat ← unwrap (CString_new (rule.(ru_prepend) ++ xattr_name)); Ok (Pass concat)
  | Map => Panic
  end.

(** [&s[n..]], which panics when [n] is past the end. *)
Definition slice_from {E} (s : bytes) (n : nat) : outcome E bytes :=
  if (n <=? length s)%nat then Ok (drop n s) else Panic.

(** The loop of [map_server_xattrlist]. *)
Fixpoint filter_names (m : XattrMap) (unprocessed : list bytes) (filtered : bytes) : outcome Error bytes :=
  match unprocessed with
  | [] => Ok filtered
  | xattr_name :: rest =>
    rule ← find_rule m SERVER xattr_name;
    match rule.(ru_type) with
    | Bad | Unsupported => filter_names m rest filtered
    | Okay => filter_names m rest (filtered ++ xattr_name ++ [0])
    | Prefix =>
      processed ← slice_from xattr_name (length rule.(ru_prepend));
      filter_names m rest (filtered ++ processed ++ [0])
    | Map => Panic
    end
  end.

Definition map_server_xattrlist (m : XattrMap) (xattr_names : bytes) : outcome Error bytes :=
  let unprocessed := List.filter (fun b => match b with [] => false | _ => true end) (split_on 0 xattr_names) in
  filtered ← filter_names m unprocessed [];
  Ok (match filtered with [] => [0] | _ => filtered end).

(** ** Parsing *)

(** [char::is_ascii_whitespace], and [char::is_whitespace], which [str::trim]
    uses. *)
Definition is_ascii_whitespace (c : Z) : bool :=
  (c =? 9) || (c =? 10) || (c =? 12) || (c =? 13) || (c =? 32).

Definition is_whitespace (c : Z) : bool :=
  in_range 9 13 c || (c =? 32) || (c =? 133) || (c =? 160) || (c =? 0x1680) || in_range 0x2000 0x200a c ||
  (c =? 0x2028) || (c =? 0x2029) || (c =? 0x202f) || (c =? 0x205f) || (c =? 0x3000).

Fixpoint trim_start (s : list Z) : list Z :=
  match s with
  | [] => []
  | c :: s' => if is_whitespace c then trim_start s' else s
  end.

Definition trim (s : list Z) : list Z := reverse (trim_start (reverse (trim_start s))).

(** The loop of [try_from]. *)
Fixpoint parse_rules (fuel : nat) (rules : list Rule) : prog (list Z) Error (list Rule) := fun unparsed =>
  match fuel, unparsed with
  | _, [] => (unparsed, Ok rules)
  | O, _ => (unparsed, Panic)
  | S fuel', ch :: rest =>
    if is_ascii_whitespace ch then parse_rules fuel' rules rest
    else
      (rule ← prog_map_err (fun e => mkError e (Some (zlen rules + 1))) Rule_from_tokens;
       if decide (rule.(ru_type) = Map) then
         peek ← gets head;
         match peek with
         | Some _ => fail (mkError MapRuleViolation (Some (zlen rules + 1)))
         | None => expanded ← lift (expand_map_type rule); parse_rules fuel' (rules ++ expanded)
         end
       else parse_rules fuel' (rules ++ [rule])) unparsed
  end.

Definition XattrMap_try_from (input : list Z) : outcome Error XattrMap :=
  let trimmed := trim input in
  rules ← (parse_rules (length trimmed) [] trimmed).2;
  match rules with
  | [] => Err (Error_from NoRulesProvided)
  | _ => Ok (mkXattrMap rules)
  end.

(** * Properties *)

(** ** Types *)

(** A rule as the parser makes it: strings without nul and a scope. *)
Definition rule_read (r : Rule) : Prop :=
  (r.(ru_scope) = CLIENT \/ r.(ru_scope) = SERVER \/ r.(ru_scope) = Z.lor CLIENT SERVER) /\
  cstr_ok r.(ru_key) = true /\ cstr_ok r.(ru_prepend) = true.

Definition rule_ok (r : Rule) : Prop := rule_read r /\ r.(ru_type) <> Map.

(** "A collection of well-formed xattr translation rules." *)
Definition well_typed (m : XattrMap) : Prop := m.(xm_rules) <> [] /\ Forall rule_ok m.(xm_rules).

(** A character that does not become a nul byte. *)
Definition no_nul (c : Z) : Prop := wrap 8 c <> 0.

(** The rest of the characters, with fewer than [n] of them. *)
Definition left_of (n : nat) (toks : list Z) : Prop := Forall no_nul toks /\ (length toks < n)%nat.

Section tokens.
Context {B : Type} (delim : Z) (n : nat).
Implicit Types (Q : ErrorKind + B -> list Z -> Prop).

Lemma next_char_gives (k : Z -> prog (list Z) ErrorKind B) Q ch toks :
  gives (k ch) Q toks -> gives (c ← next_char; c ← lift (ok_or InvalidDelimiter c); k c) Q (ch :: toks).
Proof. done. Qed.

Lemma next_token_gives (k : bytes -> prog (list Z) ErrorKind B) Q toks :
  left_of n toks -> (forall b toks', left_of n toks' -> cstr_ok b = true -> gives (k b) Q toks') ->
  (forall toks', left_of n toks' -> Q (inl IncompleteRule) toks') -> gives (next_token delim ≫= k) Q toks.
Proof.
  intros Hl Hk He. eapply (gives_bind _ _ (fun r toks' => left_of n toks' /\
    match r with inr b => cstr_ok b = true | inl e => e = IncompleteRule end)).
  - clear Hk He. destruct Hl as [Hall Hn]. unfold gives, next_token, left_of. revert Hn.
    induction Hall as [|c toks Hc Hall IH]; intros Hn; [done|]. cbn in *.
    destruct (c =? delim); [split_and!; [done|lia|done]|].
    specialize (IH ltac:(lia)). destruct (next_token_from delim toks) as [rest [b|e|]]; [|done..].
    destruct IH as [? Hb]. split; [done|]. change (negb (0 =? wrap 8 c) && cstr_ok b = true). rewrite Hb, andb_true_r.
    apply negb_true_iff, Z.eqb_neq. by apply not_eq_sym.
  - intros b t [? ?]. by apply Hk.
  - intros e t [? ->]. by apply He.
Qed.

Lemma next_cstring_gives (k : CStr -> prog (list Z) ErrorKind B) Q toks :
  left_of n toks -> (forall b toks', left_of n toks' -> cstr_ok b = true -> gives (k b) Q toks') ->
  (forall toks', left_of n toks' -> Q (inl IncompleteRule) toks') ->
  gives (t ← next_token delim; b ← lift (unwrap (CString_new t)); k b) Q toks.
Proof.
  intros Hl Hk He. apply next_token_gives; [done| |done]. intros b t Ht Hb. unfold CString_new. rewrite Hb. by apply Hk.
Qed.
End tokens.

(** A rule takes its delimiter at least. *)
Lemma from_tokens_gives ch toks :
  Forall no_nul (ch :: toks) ->
  gives Rule_from_tokens (fun r toks' => left_of (length (ch :: toks)) toks' /\
    match r with inr rule => rule_read rule | inl e => e <> UnterminatedMapping end) (ch :: toks).
Proof.
  intros [_ Hall]%Forall_cons. assert (left_of (length (ch :: toks)) toks) as H0 by (split; [done|cbn; lia]).
  generalize dependent (length (ch :: toks)). intros n H0. unfold Rule_from_tokens.
  apply next_char_gives, (next_token_gives ch n); [done| |done]. intros b t1 H1 _.
  assert (forall scope type, scope = CLIENT \/ scope = SERVER \/ scope = Z.lor CLIENT SERVER -> forall t, left_of n t ->
    gives (k ← next_token ch; key ← lift (unwrap (CString_new k)); p ← next_token ch; prepend ← lift (unwrap (CString_new p));
      mret (mkRule scope type key prepend)) (fun r toks' => left_of n toks' /\
      match r with inr rule => rule_read rule | inl e => e <> UnterminatedMapping end) t) as Hpair.
  { intros scope type Hs t Ht. apply (next_cstring_gives ch n); [done| |done]. intros key t2 H2 Hk.
    apply (next_cstring_gives ch n); [done| |done]. intros prepend t3 H3 Hp. apply gives_mret. by split. }
  unfold Type_from_bytes. repeat case_match; try done; try (apply Hpair; auto; done);
    (apply (next_token_gives ch n); [done| |done]; intros s t2 Ht2 _; unfold Scope_from_bytes; repeat case_match; try done; apply Hpair; auto).
Qed.

Lemma expand_map_ok {E} r :
  rule_read r -> r.(ru_type) = Map -> exists rs, expand_map_type (E := E) r = Ok rs /\ rs <> [] /\ Forall rule_ok rs.
Proof.
  intros (Hs & Hk & Hp) Ht. unfold expand_map_type. rewrite decide_True by done.
  destruct r.(ru_key) eqn:E1; eexists; (split; [done|]); (split; [done|]);
    repeat (apply Forall_cons; split; [by split; [split_and!; auto|]|]); by apply Forall_nil.
Qed.

Lemma parse_rules_gives fuel rules toks :
  Forall no_nul toks -> (length toks <= fuel)%nat -> Forall rule_ok rules ->
  gives (parse_rules fuel rules) (fun r _ =>
    match r with inr rs => Forall rule_ok rs | inl e => e.(xe_cause) <> UnterminatedMapping end) toks.
Proof.
  revert rules toks. induction fuel as [|fuel IH]; intros rules [|ch toks] Hall Hlen Hrules; [done|cbn in Hlen; lia|done|].
  unfold gives. cbn [parse_rules]. destruct (is_ascii_whitespace ch).
  { apply IH; [by apply Forall_cons in Hall as [_ ?]|cbn in Hlen; lia|done]. }
  pose proof (from_tokens_gives ch toks Hall) as Hg. unfold gives in Hg.
  unfold mbind at 1, prog_mbind at 1, prog_bind at 1, prog_map_err. destruct (Rule_from_tokens _) as [toks' [rule|e|]]; [|apply Hg|done].
  destruct Hg as ([Hall' Hlen'] & Hread). cbn in Hlen, Hlen'. cbn -[parse_rules]. destruct (decide (rule.(ru_type) = Map)) as [Ht|Ht].
  - destruct toks' as [|c toks']; cbn; [|done]. destruct (expand_map_ok (E := Error) rule Hread Ht) as (rs & -> & _ & Hrs). cbn.
    apply IH; [done|cbn; lia|by apply Forall_app].
  - apply IH; [done|lia|]. apply Forall_app. split; [done|]. by apply Forall_singleton.
Qed.

Lemma trim_start_suffix s : exists a, s = a ++ trim_start s /\ Forall (fun c => is_whitespace c = true) a.
Proof.
  induction s as [|c s (a & IH & Ha)]; cbn; [by exists []|].
  destruct (is_whitespace c) eqn:Hc; [|by exists []]. exists (c :: a). rewrite <- app_comm_cons, <- IH. split; [done|by constructor].
Qed.

Lemma trim_infix s : exists a b, s = a ++ trim s ++ b.
Proof.
  destruct (trim_start_suffix s) as (a & Ha & _). destruct (trim_start_suffix (reverse (trim_start s))) as (b & Hb & _).
  exists a, (reverse b). unfold trim. by rewrite <- reverse_app, <- Hb, reverse_involutive.
Qed.

(** The first rule that matches, when there is one. *)
Lemma find_rule_in_spec rules scope name :
  scope = CLIENT \/ scope = SERVER ->
  match find_rule_in rules scope name with
  | Ok r => r ∈ rules /\ Rule_matches (E := Error) r scope name = Ok true
  | Err e => e = mkError UnterminatedMapping None /\ Forall (fun r => Rule_matches (E := Error) r scope name = Ok false) rules
  | Panic => False
  end.
Proof.
  intros Hs. induction rules as [|r rules IH]; cbn; [done|]. unfold mbind, outcome_mbind, outcome_bind.
  destruct (Rule_matches r scope name) as [[]|e|] eqn:Hm.
  - split; [apply elem_of_cons; by left|done].
  - destruct (find_rule_in _ _ _); [destruct IH; split; [by apply elem_of_cons; right|done]|destruct IH; split; [done|by constructor]|done].
  - unfold Rule_matches in Hm. by repeat case_match.
  - unfold Rule_matches in Hm. destruct Hs as [-> | ->]; cbn in Hm; by repeat case_match.
Qed.

Lemma matches_server r name :
  Rule_matches (E := Error) r SERVER name = Ok true -> starts_with r.(ru_prepend) name = true.
Proof. unfold Rule_matches. cbn. repeat case_match; congruence. Qed.

(** No rule of the map matches a name. *)
Definition unmatched (m : XattrMap) (scope : Z) (name : bytes) : Prop :=
  Forall (fun r => Rule_matches (E := Error) r scope name = Ok false) m.(xm_rules).

(** What becomes of the names of the host: the list grows by whole strings, and
    fails only when no rule matches one of the names. *)
Definition names_result (m : XattrMap) (names : list bytes) (filtered : bytes) (o : outcome Error bytes) : Prop :=
  match o with
  | Ok out => out = filtered \/ exists out', out = out' ++ [0]
  | Err e => e = mkError UnterminatedMapping None /\ exists name, name ∈ names /\ unmatched m SERVER name
  | Panic => False
  end.

Lemma filter_names_total m names filtered :
  well_typed m -> names_result m names filtered (filter_names m names filtered).
Proof.
  intros [_ Hok]. revert filtered. induction names as [|name names IH]; intros filtered; cbn; [by left|].
  assert (forall f, f = filtered \/ (exists b, f = b ++ [0]) -> names_result m (name :: names) filtered (filter_names m names f)) as IH'.
  { intros f Hf. specialize (IH f). unfold names_result in *. destruct (filter_names m names f); [| |done].
    - destruct IH as [->|?]; [done|by right].
    - destruct IH as (? & n & ? & ?). split; [done|]. exists n. by split; [right|]. }
  pose proof (find_rule_in_spec m.(xm_rules) SERVER name ltac:(by right)) as Hf. unfold find_rule, mbind, outcome_mbind, outcome_bind.
  destruct (find_rule_in _ _ _) as [r|e|]; [|destruct Hf; split; [done|exists name; by split; [left|]]|done].
  destruct Hf as [Hin Hm]. rewrite Forall_forall in Hok. destruct (Hok _ Hin) as [_ Ht].
  destruct r.(ru_type); [|apply IH'; right; exists (filtered ++ name); by rewrite (assoc_L (++))|apply IH'; by left..|done].
  apply matches_server, starts_with_spec in Hm as [t ->]. unfold slice_from. rewrite length_app.
  replace (length _ <=? _)%nat with true by (symmetry; apply Nat.leb_le; lia).
  apply IH'. right. exists (filtered ++ drop (length r.(ru_prepend)) (r.(ru_prepend) ++ t)). by rewrite (assoc_L (++)).
Qed.

Lemma client_total m name :
  well_typed m -> cstr_ok name = true ->
  match map_client_xattr m name with
  | Ok (Pass n) => cstr_ok n = true
  | Ok _ => True
  | Err e => e = mkError UnterminatedMapping None /\ unmatched m CLIENT name
  | Panic => False
  end.
Proof.
  intros [_ Hok] Hname. unfold map_client_xattr, find_rule.
  pose proof (find_rule_in_spec m.(xm_rules) CLIENT name ltac:(by left)) as Hf. unfold mbind, outcome_mbind, outcome_bind.
  destruct (find_rule_in _ _ _) as [r|e|]; [|done..]. rewrite Forall_forall in Hok.
  destruct Hf as [Hin _]. destruct (Hok _ Hin) as [(_ & _ & Hp) Ht].
  destruct r.(ru_type); try done. unfold CString_new. assert (cstr_ok (r.(ru_prepend) ++ name) = true) as E; [|by rewrite E].
  unfold cstr_ok in *. by rewrite forallb_app, Hp, Hname.
Qed.

(** C18: the maps that are accepted are well typed.  A string none of whose
    characters has a low byte of zero is either refused with an error or gives
    a map with at least one rule, whose rules have a scope and strings without
    nul and none of which is an unexpanded [map] rule.  Such a map translates
    every name a client sends to a string without nul or denies it, and makes a
    list of strings that end in nul of every list the host gives.  The only
    error left is that no rule matches a name, and nothing panics. *)
Theorem xattrmap_well_typed (input : list Z) :
  Forall no_nul input ->
  match XattrMap_try_from input with
  | Ok m => well_typed m /\
      (forall name, cstr_ok name = true ->
        match map_client_xattr m name with
        | Ok (Pass n) => cstr_ok n = true
        | Ok _ => True
        | Err e => e = mkError UnterminatedMapping None /\ unmatched m CLIENT name
        | Panic => False
        end) /\
      (forall names,
        match map_server_xattrlist m names with
        | Ok out => exists out', out = out' ++ [0]
        | Err e => e = mkError UnterminatedMapping None /\ exists name, name ∈ split_on 0 names /\ unmatched m SERVER name
        | Panic => False
        end)
  | Err e => e.(xe_cause) <> UnterminatedMapping
  | Panic => False
  end.
Proof.
  intros Hall. destruct (trim_infix input) as (a & b & E). rewrite E, !Forall_app in Hall. destruct Hall as (_ & Hall & _).
  pose proof (parse_rules_gives (length (trim input)) [] (trim input) Hall ltac:(done) ltac:(done)) as Hg. unfold gives in Hg.
  unfold XattrMap_try_from. cbv zeta. unfold mbind, outcome_mbind, outcome_bind.
  destruct (parse_rules _ _ _) as [toks [rules|e|]]; cbn [snd]; [|done..]. destruct rules as [|r rules]; [done|].
  assert (well_typed (mkXattrMap (r :: rules))) as Hw by done. split_and!; [done|intros; by apply client_total|].
  intros names. unfold map_server_xattrlist. cbv zeta.
  pose proof (filter_names_total (mkXattrMap (r :: rules)) (List.filter (fun b => match b with [] => false | _ => true end) (split_on 0 names)) [] Hw) as Hf.
  unfold names_result in Hf. unfold mbind, outcome_mbind, outcome_bind. destruct (filter_names _ _ _) as [out|e|]; [| |done].
  - destruct Hf as [->|[out' ->]]; [by exists []|]. exists out'. by destruct out'.
  - destruct Hf as (-> & name & Hn & Hu). split; [done|]. exists name. split; [|done].
    apply list_elem_of_In in Hn. apply filter_In in Hn as [? _]. by apply list_elem_of_In.
Qed.

Lemma xattrmap_well_typed_witness :
  exists m, XattrMap_try_from (bs ":bad:all:::") = Ok m /\ well_typed m.
Proof.
  pose proof (xattrmap_well_typed (bs ":bad:all:::")) as H. specialize (H ltac:(repeat constructor; discriminate)).
  destruct (XattrMap_try_from _) as [m|e|] eqn:E; [exists m; split; [reflexivity|apply H]|vm_compute in E; discriminate E..].
Defined.

(** ** The documented syntax *)

Definition type_token (t : Type_) : bytes :=
  match t with
  | Prefix => bs "prefix" | Okay => bs "ok" | Bad => bs "bad" | Unsupported => bs "unsupported" | Map => bs "map"
  end.

Definition scope_token (s : Z) : bytes :=
  if s =? CLIENT then bs "client" else if s =? SERVER then bs "server" else bs "all".

(** [:type:scope:key:prepend:] and [:map:key:prepend:]. *)
Definition fields (r : Rule) : list bytes :=
  match r.(ru_type) with
  | Map => [type_token Map; r.(ru_key); r.(ru_prepend)]
  | t => [type_token t; scope_token r.(ru_scope); r.(ru_key); r.(ru_prepend)]
  end.

Definition print_rule (delim : Z) (r : Rule) : list Z :=
  delim :: concat (map (fun f => f ++ [delim]) (fields r)).

(** A rule in a text: the white space in front, the delimiter, the rule. *)
Record Line := mkLine { ln_space : list Z; ln_delim : Z; ln_rule : Rule }.

Definition print_lines (lines : list Line) : list Z :=
  concat (map (fun l => l.(ln_space) ++ print_rule l.(ln_delim) l.(ln_rule)) lines).

(** The delimiter is none of the characters of the fields nor white space, and
    the strings are bytes without nul. *)
Definition printable (l : Line) : Prop :=
  Forall (fun c => is_ascii_whitespace c = true) l.(ln_space) /\
  is_whitespace l.(ln_delim) = false /\
  Forall (fun f => (l.(ln_delim) ∉ f) /\ Forall (fun c => 0 < c < 256) f) (fields l.(ln_rule)) /\
  (l.(ln_rule).(ru_scope) = Z.lor CLIENT SERVER \/
   l.(ln_rule).(ru_type) <> Map /\ (l.(ln_rule).(ru_scope) = CLIENT \/ l.(ln_rule).(ru_scope) = SERVER)).

#[global] Instance printable_decision l : Decision (printable l).
Proof. unfold printable. apply _. Defined.

(** The rules a rule stands for.  [:map:K:P:] is short for
    [:prefix:all:K:P: :bad:all:P:K: :ok:all:::], and [:map::P:] for
    [:prefix:all::P: :bad:all:::]. *)
Definition meaning (r : Rule) : list Rule :=
  match r with
  | mkRule _ Map [] P => [mkRule 3 Prefix [] P; mkRule 3 Bad [] []]
  | mkRule _ Map K P => [mkRule 3 Prefix K P; mkRule 3 Bad P K; mkRule 3 Okay [] []]
  | _ => [r]
  end.

Lemma expand_meaning {E} r : r.(ru_type) = Map -> expand_map_type (E := E) r = Ok (meaning r).
Proof. destruct r as [s t k p]. cbn. intros ->. by destruct k. Qed.

Lemma meaning_other r : r.(ru_type) <> Map -> meaning r = [r].
Proof. destruct r as [s t k p]. by destruct t. Qed.

Lemma ascii_whitespace c : is_ascii_whitespace c = true -> is_whitespace c = true.
Proof.
  intros H. unfold is_ascii_whitespace in H. rewrite !orb_true_iff, !Z.eqb_eq in H. destruct H as [[[[->| ->]| ->]| ->]| ->]; reflexivity.
Qed.

Lemma trim_start_app a body x :
  Forall (fun c => is_whitespace c = true) a -> head body = Some x -> is_whitespace x = false -> trim_start (a ++ body) = body.
Proof.
  intros Ha Hx Hw. induction Ha as [|c a Hc Ha IH]; cbn; [|by rewrite Hc].
  destruct body as [|y body]; [done|]. injection Hx as ->. cbn. by rewrite Hw.
Qed.

Lemma trim_exact a body b x y :
  Forall (fun c => is_whitespace c = true) a -> Forall (fun c => is_whitespace c = true) b ->
  head body = Some x -> is_whitespace x = false -> last body = Some y -> is_whitespace y = false ->
  trim (a ++ body ++ b) = body.
Proof.
  intros Ha Hb Hx Hwx Hy Hwy. unfold trim. rewrite (trim_start_app a (body ++ b) x); [|done|destruct body; [done|exact Hx]|done].
  rewrite reverse_app, (trim_start_app (reverse b) (reverse body) y); [apply reverse_involutive|by apply Forall_reverse| |done].
  by rewrite head_reverse.
Qed.

Lemma next_token_print {B} d f rest (k : bytes -> prog (list Z) ErrorKind B) :
  d ∉ f -> Forall (fun c => 0 < c < 256) f -> (next_token d ≫= k) ((f ++ [d]) ++ rest) = k f rest.
Proof.
  intros Hd Hf. apply prog_bind_ok. rewrite <- (assoc_L (++)). unfold next_token. cbn.
  induction Hf as [|c f Hc Hf IH]; cbn; [by rewrite Z.eqb_refl|].
  apply not_elem_of_cons in Hd as [Hne Hd]. rewrite (proj2 (Z.eqb_neq c d)) by congruence. rewrite (IH Hd). cbn.
  rewrite wrap_small by (unfold in_u; lia). done.
Qed.

Lemma next_cstring_print {B} d f rest (k : CStr -> prog (list Z) ErrorKind B) :
  d ∉ f -> Forall (fun c => 0 < c < 256) f ->
  (t ← next_token d; b ← lift (unwrap (CString_new t)); k b) ((f ++ [d]) ++ rest) = k f rest.
Proof.
  intros Hd Hf. rewrite next_token_print by done. unfold CString_new. assert (cstr_ok f = true) as ->; [|done].
  apply forallb_forall. intros c Hc%list_elem_of_In. rewrite Forall_forall in Hf. specialize (Hf _ Hc).
  apply negb_true_iff, Z.eqb_neq. lia.
Qed.

Lemma type_token_read t : Type_from_bytes (type_token t) = Ok t.
Proof. by destruct t. Qed.

Lemma scope_token_read s : s = Z.lor CLIENT SERVER \/ s = CLIENT \/ s = SERVER -> Scope_from_bytes (scope_token s) = Ok s.
Proof. by intros [->|[->| ->]]. Qed.

Lemma from_tokens_print l rest :
  printable l -> Rule_from_tokens (print_rule l.(ln_delim) l.(ln_rule) ++ rest) = (rest, Ok l.(ln_rule)).
Proof.
  destruct l as [sp d [scope t k p]]. intros (_ & _ & Hf & Hs). cbn in Hf, Hs. unfold print_rule, Rule_from_tokens. cbn [ln_delim ln_rule].
  rewrite <- app_comm_cons, (prog_bind_ok next_char _ (d :: _) _ (Some d) eq_refl). cbn [ok_or].
  rewrite (prog_bind_ok (lift (Ok d)) _ _ _ d eq_refl).
  assert (t <> Map -> Scope_from_bytes (scope_token scope) = Ok scope) as Hsc by (intros; apply scope_token_read; naive_solver).
  destruct t; cbn [fields ru_type ru_key ru_prepend ru_scope] in *;
    repeat (apply Forall_cons in Hf as [[? ?] Hf]); cbn [map concat]; rewrite app_nil_r, <- !(assoc_L (++) (_ ++ [d])), next_token_print by done;
    rewrite type_token_read, (prog_bind_ok (lift (Ok _)) _ _ _ _ eq_refl).
  5: { rewrite !next_cstring_print by done. destruct Hs as [->|[? _]]; done. }
  all: rewrite next_token_print by done; rewrite Hsc, (prog_bind_ok (lift (Ok _)) _ _ _ _ eq_refl) by done; by rewrite !next_cstring_print.
Qed.

Lemma parse_spaces sp rest fuel rules :
  Forall (fun c => is_ascii_whitespace c = true) sp -> (length (sp ++ rest) <= fuel)%nat ->
  exists fuel', (length rest <= fuel')%nat /\ parse_rules fuel rules (sp ++ rest) = parse_rules fuel' rules rest.
Proof.
  intros Hsp. revert fuel. induction Hsp as [|c sp Hc Hsp IH]; intros fuel Hlen; [by exists fuel|].
  cbn in Hlen. destruct fuel as [|fuel]; [lia|]. cbn. rewrite Hc. apply IH. lia.
Qed.

Lemma parse_line l rest fuel rules :
  printable l -> (l.(ln_rule).(ru_type) = Map -> rest = []) -> (length (print_rule l.(ln_delim) l.(ln_rule) ++ rest) <= fuel)%nat ->
  exists fuel', (length rest <= fuel')%nat /\
    parse_rules fuel rules (print_rule l.(ln_delim) l.(ln_rule) ++ rest) = parse_rules fuel' (rules ++ meaning l.(ln_rule)) rest.
Proof.
  intros Hp Hlast Hlen. pose proof (from_tokens_print l rest Hp) as Hr. destruct Hp as (_ & Hd & _).
  unfold print_rule in *. rewrite <- app_comm_cons in *. cbn [length] in Hlen. rewrite length_app in Hlen.
  destruct fuel as [|fuel]; [lia|]. exists fuel. split; [lia|]. cbn [parse_rules].
  assert (is_ascii_whitespace l.(ln_delim) = false) as ->.
  { destruct (is_ascii_whitespace _) eqn:E; [|done]. apply ascii_whitespace in E. congruence. }
  unfold mbind at 1, prog_mbind at 1, prog_bind at 1, prog_map_err. rewrite Hr. cbn -[parse_rules].
  destruct (decide (l.(ln_rule).(ru_type) = Map)) as [Ht|Ht]; [|by rewrite meaning_other]. rewrite (Hlast Ht).
  cbn -[parse_rules expand_map_type]. by rewrite expand_meaning.
Qed.

Lemma parse_lines lines rules fuel :
  Forall printable lines -> Forall (fun l => l.(ln_rule).(ru_type) <> Map) (removelast lines) ->
  (length (print_lines lines) <= fuel)%nat ->
  parse_rules fuel rules (print_lines lines) = ([], Ok (rules ++ concat (map (fun l => meaning l.(ln_rule)) lines))).
Proof.
  intros Hp. revert rules fuel. induction Hp as [|l lines Hl Hp IH]; intros rules fuel Hmap Hlen.
  { cbn. rewrite app_nil_r. by destruct fuel. }
  unfold print_lines in *. cbn [map concat] in *. rewrite <- (assoc_L (++)) in *.
  destruct (parse_spaces l.(ln_space) (print_rule l.(ln_delim) l.(ln_rule) ++ concat (map (fun l => l.(ln_space) ++ print_rule l.(ln_delim) l.(ln_rule)) lines))
    fuel rules) as (f1 & Hf1 & ->); [apply Hl|done|].
  destruct (parse_line l (concat (map (fun l => l.(ln_space) ++ print_rule l.(ln_delim) l.(ln_rule)) lines)) f1 rules) as (f2 & Hf2 & ->); [done| |done|].
  { intros Ht. destruct lines; [done|]. cbn in Hmap. by apply Forall_cons in Hmap as [? _]. }
  rewrite IH; [by rewrite (assoc_L (++))| |done]. destruct lines; [done|]. cbn in Hmap. by apply Forall_cons in Hmap as [_ ?].
Qed.

Lemma print_rule_last d r : last (print_rule d r) = Some d.
Proof. unfold print_rule, fields. destruct r.(ru_type); cbn [map concat]; rewrite app_nil_r, ?(assoc_L (++)), app_comm_cons; apply last_snoc. Qed.

Lemma print_lines_last lines :
  Forall printable lines -> lines <> [] -> exists d, last (print_lines lines) = Some d /\ is_whitespace d = false.
Proof.
  intros Hp Hne. destruct (exists_last Hne) as (ls & l & ->). apply Forall_app in Hp as [_ [Hl _]%Forall_cons].
  exists l.(ln_delim). unfold print_lines. rewrite map_app, concat_app. cbn. rewrite app_nil_r, !last_app, print_rule_last. split; [done|apply Hl].
Qed.

Lemma parse_print (leading : list Z) (lines : list Line) (trailing : list Z) :
  lines <> [] -> Forall (fun c => is_whitespace c = true) leading -> Forall printable lines -> Forall (fun l => l.(ln_rule).(ru_type) <> Map) (removelast lines) ->
  Forall (fun c => is_whitespace c = true) trailing ->
  XattrMap_try_from (leading ++ print_lines lines ++ trailing) = Ok (mkXattrMap (concat (map (fun l => meaning l.(ln_rule)) lines))).
Proof.
  intros Hne Hle Hp Hmap Htr. unfold XattrMap_try_from. cbv zeta.
  destruct lines as [|[sp d r] lines]; [done|]. apply Forall_cons in Hp as [(Hsp & Hd & Hf & Hs) Hp]. cbn [ln_space ln_delim ln_rule] in *.
  set (l' := mkLine [] d r). assert (print_lines (mkLine sp d r :: lines) = sp ++ print_lines (l' :: lines)) as E.
  { unfold print_lines. cbn. by rewrite <- (assoc_L (++)). }
  assert (Forall printable (l' :: lines)) as Hp' by (by constructor). destruct (print_lines_last _ Hp' ltac:(done)) as (y & Hy & Hwy).
  rewrite E, <- (assoc_L (++) sp), (assoc_L (++) leading), (trim_exact (leading ++ sp) _ trailing d y);
    [|apply Forall_app; split; [done|eapply Forall_impl; [exact Hsp|apply ascii_whitespace]]|done..].
  rewrite parse_lines; [|done| |done].
  - cbn. unfold mbind, outcome_mbind, outcome_bind. assert (meaning r <> []) as Hm; [|by destruct (meaning r)].
    destruct r as [? t k ?]. by destruct t, k.
  - destruct lines; [done|]. cbn in *. apply Forall_cons in Hmap as [? ?]. by constructor.
Qed.

(** C19: what is printed in the documented syntax is read back.  Take rules
    that are each printed between delimiters of their own, which occur in none of
    the fields and are no white space, with ASCII white space before each of
    them and any white space at the two ends of the text.  Parsing the text
    gives these rules in order.  The last rule may be a [map] rule: in place of
    [:map:K:P:] there are then three rules, [prefix all K P], [bad all P K] and
    [ok all], and for an empty [K] two, [prefix all] with [P] and [bad all].
    This is not the single rule [:prefix:all:K:P:] that the documentation of the
    module says it is equivalent to. *)
Theorem xattrmap_roundtrip (leading : list Z) (lines : list Line) (trailing : list Z) :
  lines <> [] -> Forall (fun c => is_whitespace c = true) leading -> Forall printable lines -> Forall (fun l => l.(ln_rule).(ru_type) <> Map) (removelast lines) ->
  Forall (fun c => is_whitespace c = true) trailing ->
  XattrMap_try_from (leading ++ print_lines lines ++ trailing) = Ok (mkXattrMap (concat (map (fun l => meaning l.(ln_rule)) lines))).
Proof. apply parse_print. Qed.

Lemma xattrmap_roundtrip_witness :
  XattrMap_try_from (bs " /bad/server//trusted./ :map:trusted.:user.virtiofs.: ")
  = Ok (mkXattrMap [mkRule SERVER Bad [] (bs "trusted."); mkRule 3 Prefix (bs "trusted.") (bs "user.virtiofs.");
                    mkRule 3 Bad (bs "user.virtiofs.") (bs "trusted."); mkRule 3 Okay [] []]).
Proof.
  apply (xattrmap_roundtrip [] [mkLine [32] 47 (mkRule SERVER Bad [] (bs "trusted."));
                             mkLine [32] 58 (mkRule 3 Map (bs "trusted.") (bs "user.virtiofs."))] [32]).
  - done.
  - constructor.
  - apply (bool_decide_unpack _). vm_compute. exact Logic.I.
  - by repeat constructor.
  - by repeat constructor.
Defined.

(** ** The [map] rule *)

(** A list of names as [listxattr] gives it. *)
Definition names_list (names : list bytes) : bytes := concat (map (fun n => n ++ [0]) names).

Section map_rule.
Variables (K P : bytes).

(** What [:map:K:P:] means: a name that starts with [K] is kept on the host
    under the prefix [P]; other names are those of the host, except for the ones
    that start with [P] themselves. *)
Definition to_host (n : bytes) : AppliedRule :=
  if starts_with K n then Pass (P ++ n) else if starts_with P n then Deny else Pass n.

Definition to_client (h : bytes) : option bytes :=
  if starts_with P h then Some (drop (length P) h) else if starts_with K h then None else Some h.

Definition map_of : XattrMap := mkXattrMap (meaning (mkRule (Z.lor CLIENT SERVER) Map K P)).

Lemma to_client_host n h : to_host n = Pass h -> to_client h = Some n.
Proof.
  unfold to_host, to_client. destruct (starts_with K n) eqn:HK; [|destruct (starts_with P n) eqn:HP; [done|]]; intros [= <-].
  - by rewrite starts_with_app, drop_app_length.
  - by rewrite HP, HK.
Qed.

Lemma map_of_rules :
  map_of = mkXattrMap (mkRule 3 Prefix K P ::
    match K with [] => [mkRule 3 Bad [] []] | _ => [mkRule 3 Bad P K; mkRule 3 Okay [] []] end).
Proof. unfold map_of, meaning. by destruct K. Qed.

Lemma find_both t k p rules scope n :
  scope = CLIENT \/ scope = SERVER ->
  find_rule_in (mkRule 3 t k p :: rules) scope n =
  if starts_with (if scope =? CLIENT then k else p) n then Ok (mkRule 3 t k p) else find_rule_in rules scope n.
Proof. by intros [-> | ->]. Qed.

Lemma map_of_client n : cstr_ok P = true -> cstr_ok n = true -> map_client_xattr map_of n = Ok (to_host n).
Proof.
  intros HP Hn. unfold map_client_xattr, find_rule, to_host. rewrite map_of_rules. cbn [xm_rules].
  rewrite find_both by (by left). cbn [Z.eqb CLIENT Pos.eqb]. destruct (starts_with K n) eqn:EK.
  - cbn -[CString_new]. unfold CString_new. assert (cstr_ok (P ++ n) = true) as ->; [|done]. unfold cstr_ok in *. by rewrite forallb_app, HP, Hn.
  - destruct K as [|c K']; [done|]. rewrite find_both by (by left). cbn [Z.eqb CLIENT Pos.eqb]. by destruct (starts_with P n).
Qed.

Lemma map_of_server h :
  exists r, find_rule map_of SERVER h = Ok r /\
    match r.(ru_type) with
    | Prefix => r.(ru_prepend) = P /\ starts_with P h = true
    | Bad => to_client h = None
    | Okay => to_client h = Some h
    | _ => False
    end.
Proof.
  unfold find_rule, to_client. rewrite map_of_rules. cbn [xm_rules].
  rewrite find_both by (by right). cbn [Z.eqb CLIENT SERVER Pos.eqb]. destruct (starts_with P h) eqn:EP; [by eexists|].
  destruct K as [|c K']; [by eexists|]. rewrite find_both by (by right). cbn [Z.eqb CLIENT SERVER Pos.eqb].
  by destruct (starts_with (c :: K') h); eexists.
Qed.

Lemma map_of_names names filtered :
  filter_names map_of names filtered = Ok (filtered ++ names_list (omap to_client names)).
Proof.
  revert filtered. induction names as [|h names IH]; intros filtered; [cbn; by rewrite app_nil_r|].
  assert (forall c, filter_names map_of names (filtered ++ c ++ [0]) = Ok (filtered ++ names_list (c :: omap to_client names))) as IH'
    by (intros c; rewrite IH; unfold names_list; cbn; by rewrite <- !(assoc_L (++))).
  cbn [filter_names omap list_omap]. destruct (map_of_server h) as (r & -> & Hr). cbn -[filter_names slice_from].
  destruct r.(ru_type); [|by rewrite Hr|by rewrite Hr, IH|done..]. destruct Hr as [-> EP]. unfold to_client at 1. rewrite EP.
  apply starts_with_spec in EP as [t ->]. unfold slice_from. rewrite length_app.
  replace (length P <=? length P + length t)%nat with true by (symmetry; apply Nat.leb_le; lia). apply IH'.
Qed.
End map_rule.

Lemma split_names hs :
  Forall (fun h => cstr_ok h = true) hs ->
  List.filter (fun b => match b with [] => false | _ => true end) (split_on 0 (names_list hs)) =
  List.filter (fun b => match b with [] => false | _ => true end) hs.
Proof.
  unfold names_list. induction 1 as [|h hs Hh Hall IH]; [done|]. cbn [map concat]. rewrite <- (assoc_L (++)). cbn [app].
  rewrite split_on_app; [cbn; by rewrite IH|]. unfold cstr_ok in Hh. apply forallb_forall. intros c Hc.
  rewrite Z.eqb_sym. by apply (proj1 (forallb_forall _ _) Hh).
Qed.

(** C37: The [map] rule keeps the names of the client and of the host apart.
    Let [K] and [P] be strings of nonzero bytes without the delimiter, and names
    be without nul bytes.  The map of [:map:K:P:] gives names that start with [K] the prefix [P] on the
    host and denies names that start with [P] otherwise; a list of the host
    loses the prefix [P], and the names that start with [K] without it are
    hidden.  So every name a client gets through comes back unchanged in a list,
    different names of the client are different attributes of the host, and the
    client reaches no attribute of the host that starts with [K] and not with
    [P].  (The documentation of the module says that the rule is the same as
    [:prefix:all:K:P:] alone.) *)
Theorem map_rule_isolates (delim : Z) (K P : bytes) :
  let rule := mkRule (Z.lor CLIENT SERVER) Map K P in
  printable (mkLine [] delim rule) ->
  exists m, XattrMap_try_from (print_rule delim rule) = Ok m /\
    (forall n, cstr_ok n = true -> map_client_xattr m n = Ok (to_host K P n)) /\
    (forall hs, Forall (fun h => h <> [] /\ cstr_ok h = true) hs ->
      let out := names_list (omap (to_client K P) hs) in
      map_server_xattrlist m (names_list hs) = Ok (match out with [] => [0] | _ => out end)) /\
    (forall n h, cstr_ok n = true -> map_client_xattr m n = Ok (Pass h) ->
      map_server_xattrlist m (names_list [h]) = Ok (n ++ [0]) /\
      (starts_with P h = true \/ starts_with K h = false)).
Proof.
  intros rule Hp. exists (map_of K P). pose proof Hp as (_ & _ & Hf & _). cbn in Hf.
  apply Forall_cons in Hf as [_ [_ [[_ HP] _]%Forall_cons]%Forall_cons].
  assert (cstr_ok P = true) as HPok.
  { apply forallb_forall. intros c Hc%list_elem_of_In. rewrite Forall_forall in HP. specialize (HP _ Hc). apply negb_true_iff, Z.eqb_neq. lia. }
  assert (forall hs, Forall (fun h => h <> [] /\ cstr_ok h = true) hs ->
    let out := names_list (omap (to_client K P) hs) in
    map_server_xattrlist (map_of K P) (names_list hs) = Ok (match out with [] => [0] | _ => out end)) as Hserver.
  { intros hs Hhs. unfold map_server_xattrlist. cbv zeta. rewrite split_names by (eapply Forall_impl; [exact Hhs|by intros h [_ ?]]).
    replace (List.filter _ hs) with hs; [by rewrite map_of_names|]. symmetry.
    induction Hhs as [|h hs [Hh _] Hhs IH]; [done|]. cbn. destruct h; [done|]. by rewrite IH. }
  split_and!; [|intros; by apply map_of_client|done|].
  - pose proof (parse_print [] [mkLine [] delim rule] [] ltac:(done) ltac:(constructor) ltac:(by apply Forall_singleton) ltac:(done) ltac:(done)) as Hl.
    unfold print_lines in Hl. cbn [map concat ln_space ln_delim ln_rule app] in Hl. by rewrite !app_nil_r in Hl.
  - intros n h Hn Hc. rewrite map_of_client in Hc by done. injection Hc as Hc. pose proof (to_client_host _ _ _ _ Hc) as Hback. split.
    + destruct h as [|c h].
      * assert (n = []) as -> by (unfold to_client in Hback; destruct P, K; by inversion Hback). done.
      * rewrite Hserver; [cbn; rewrite Hback; cbn; rewrite app_nil_r; by destruct n|].
        apply Forall_singleton. split; [done|]. unfold to_host in Hc. repeat case_match; inversion Hc; subst; [|done].
        unfold cstr_ok in *. by rewrite forallb_app, HPok, Hn.
    + unfold to_host in Hc. destruct (starts_with K n) eqn:E; [|destruct (starts_with P n); [done|]]; injection Hc as <-; [left; apply starts_with_app|by right].
Qed.

Lemma map_rule_isolates_witness :
  exists m, XattrMap_try_from (bs ":map:trusted.:user.vm.:") = Ok m /\
    map_client_xattr m (bs "trusted.a") = Ok (Pass (bs "user.vm.trusted.a")) /\
    map_client_xattr m (bs "user.vm.a") = Ok Deny /\
    map_server_xattrlist m (names_list [bs "user.vm.trusted.a"]) = Ok (bs "trusted.a" ++ [0]).
Proof.
  destruct (map_rule_isolates 58 (bs "trusted.") (bs "user.vm.")) as (m & Hm & Hc & _ & Hb).
  { apply (bool_decide_unpack _). vm_compute. exact Logic.I. }
  exists m. split_and!; [exact Hm|apply Hc; reflexivity..|]. apply Hb; [reflexivity|]. apply Hc. reflexivity.
Defined.
