(* ===== verification/VirtioFs.v ===== *)
(** * The virtiofs transport ([src/transport/virtiofs/mod.rs])

    A request is a chain of descriptors in the memory of a guest: the reader
    takes the request from the readable ones, and [VirtioFsWriter] puts the reply
    into the writable ones.  Descriptor chains and guest memory are those of
    virtio-queue and vm-memory, interfaces here: a chain gives its readable and its
    writable descriptors, and the memory finds the region of a guest address and
    makes a slice of host memory out of a part of it.

    The state of the writer's operations is the writer and the host's memory with
    the record of the ranges that were marked dirty.

    The theorems show that a reply in two parts arrives in the guest as one
    message at the addresses of the chain, that nothing else of the memory
    changes, that every byte written is marked dirty, and that copying from a
    file ends with the file's bytes in place. *)

From S2P Require Import Prelude Std Codec Lib Transport TransportProps ProgLogic Instances.

(** ** Guest memory and descriptor chains *)

(** [virtio_queue::Descriptor]: a guest address and a length. *)
Record Descriptor := mkDescriptor { ds_addr : Z; ds_len : Z }.

(** [DescriptorChain::readable] and [writable]. *)
Class DescriptorChain (C : Type) : Type := {
  dc_readable : C -> list Descriptor;
  dc_writable : C -> list Descriptor;
}.
#[global] Hint Mode DescriptorChain ! : typeclass_instances.

(** [GuestMemory] and [GuestMemoryRegion]. *)
Class GuestMemory (V : Type) : Type := {
  gm_region : Type;
  gm_find_region : Z -> option gm_region;
  gm_start_addr : gm_region -> Z;
  gm_get_slice : gm_region -> Z -> Z -> option V;
}.
#[global] Hint Mode GuestMemory ! : typeclass_instances.

(** The host's memory behind the slices, and what was marked dirty. *)
Record Memory := mkMemory { m_bytes : Z -> Z; m_dirty : list (Z * Z) }.

(** Writing [data] to the addresses in order. *)
Fixpoint put (addrs : list Z) (data : bytes) (mem : Z -> Z) : Z -> Z :=
  match addrs, data with
  | a :: addrs', b :: data' => put addrs' data' (fun x => if x =? a then b else mem x)
  | _, _ => mem
  end.

(** [bitmap().mark_dirty]. *)
Definition mark (ptr len : Z) (m : Memory) : Memory := mkMemory m.(m_bytes) (m.(m_dirty) ++ [(ptr, len)]).

Section chain.
Context {V : Type} `{GM : GuestMemory V}.

(** The loop shared by [Reader::from_descriptor_chain] and
    [VirtioFsWriter::new]. *)
Fixpoint chain_slices (descs : list Descriptor) (total_len : Z) : outcome TransportError (list V) :=
  match descs with
  | [] => Ok []
  | desc :: descs' =>
    total_len ← ok_or DescriptorChainOverflow (checked_add total_len desc.(ds_len));
    region ← ok_or FindMemoryRegion (gm_find_region desc.(ds_addr));
    offset ← unwrap (checked_sub desc.(ds_addr) (gm_start_addr region));
    slice ← ok_or GuestMemoryError (gm_get_slice region offset desc.(ds_len));
    rest ← chain_slices descs' total_len;
    Ok (slice :: rest)
  end.

Definition from_descriptor_chain {C} `{DescriptorChain C} (desc_chain : C) : outcome TransportError (Reader V) :=
  buffers ← chain_slices (dc_readable desc_chain) 0;
  Ok (MkReader (MkIoBuffers buffers 0)).
End chain.

(** ** [VirtioFsWriter] *)

Record VirtioFsWriter (V : Type) : Type := mkVirtioFsWriter { vw_buffers : IoBuffers V }.
Arguments mkVirtioFsWriter {V}.
Arguments vw_buffers {V}.

Section writer.
Context {V : Type} `{VS : VolatileSlice V}.

Definition VirtioFsWriter_new `{GM : !GuestMemory V} {C} `{DescriptorChain C} (desc_chain : C)
  : outcome TransportError (VirtioFsWriter V) :=
  buffers ← chain_slices (dc_writable desc_chain) 0;
  Ok (mkVirtioFsWriter (MkIoBuffers buffers 0)).

Definition vw_available_bytes (w : VirtioFsWriter V) : Z := IoBuffers_available_bytes w.(vw_buffers).
Definition vw_bytes_written (w : VirtioFsWriter V) : Z := w.(vw_buffers).(bytes_consumed).

Definition vw_split_at (offset : Z) : prog (VirtioFsWriter V) TransportError (VirtioFsWriter V) := fun w =>
  let '(b, o) := IoBuffers_split_at offset w.(vw_buffers) in (mkVirtioFsWriter b, outcome_map mkVirtioFsWriter o).

Definition vw_check_available_space (w : VirtioFsWriter V) (len1 len2 len3 : Z) : io_result unit :=
  len ← ok_or (Simple InvalidData) (checked_add len1 len2);
  len ← ok_or (Simple InvalidData) (checked_add len len3);
  if vw_available_bytes w <? len then Err (Simple InvalidData) else Ok tt.

(** The operations work on the writer, the memory and a state of the file that
    is the source. *)
Section ops.
Context {F : Type}.
Abbreviation vprog := (prog (VirtioFsWriter V * (Memory * F)) io_error).

(** [IoBuffers::consume_for_write] on the writer's buffers. *)
Definition consume_for_write (count : Z) (f : list FileVolatileSlice -> prog (Memory * F) io_error Z) : vprog Z :=
  fun '(w, x) =>
    let '((b, x'), o) := consume (Some (fun ptr len x => (mark ptr len x.1, x.2))) count f (w.(vw_buffers), x) in
    ((mkVirtioFsWriter b, x'), o).

(** The closure of [write]: copy to one slice after the other. *)
Fixpoint copy_in (bufs : list FileVolatileSlice) (rem : bytes) (mem : Z -> Z) : (Z -> Z) * Z :=
  match bufs with
  | [] => (mem, 0)
  | buf :: bufs' =>
    let copy_len := Z.min (zlen rem) buf.(fvs_size) in
    let mem' := put (seqZ buf.(fvs_addr) copy_len) (take (Z.to_nat copy_len) rem) mem in
    let '(mem'', total) := copy_in bufs' (drop (Z.to_nat copy_len) rem) mem' in
    (mem'', copy_len + total)
  end.

(** [io::Write::write]. *)
Definition vw_write (buf : bytes) : vprog Z :=
  _ ← (fun s => (s, vw_check_available_space s.1 (zlen buf) 0 0));
  consume_for_write (zlen buf) (fun bufs x =>
    let '(mem, total) := copy_in bufs buf x.1.(m_bytes) in
    ((mkMemory mem x.1.(m_dirty), x.2), Ok total)).

(** The loop of [write_vectored] over the slices that are not empty. *)
Fixpoint vw_write_each (bufs : list bytes) (count : Z) : vprog Z :=
  match bufs with
  | [] => mret count
  | buf :: bufs' => n ← vw_write buf; vw_write_each bufs' (wrap 64 (count + n))
  end.

Definition vw_write_vectored (bufs : list bytes) : vprog Z :=
  _ ← (fun s => (s, vw_check_available_space s.1 (foldl (fun acc x => wrap 64 (acc + zlen x)) 0 bufs) 0 0));
  vw_write_each (List.filter (fun b => negb (beq b [])) bufs) 0.

Definition vw_flush : vprog unit := mret tt.

(** [io::Write::write_all] of the standard library: a round writes everything or
    fails, so that a round per byte is more than enough. *)
Fixpoint vw_write_all_loop (fuel : nat) (data : bytes) : vprog unit :=
  match data with
  | [] => mret tt
  | _ =>
    match fuel with
    | O => fail (Simple WriteZero)
    | S fuel' =>
      r ← catch (vw_write data);
      match r with
      | inr n => if n =? 0 then fail (Simple WriteZero) else vw_write_all_loop fuel' (drop (Z.to_nat n) data)
      | inl e => match error_kind e with Interrupted => vw_write_all_loop fuel' data | _ => fail e end
      end
    end
  end.

Definition vw_write_all (data : bytes) : vprog unit := vw_write_all_loop (length data) data.

Definition vw_write_obj {T} `{ByteValued T} (val : T) : vprog unit := vw_write_all (as_slice val).

(** [write_from] and [write_from_at]: [read_vectored] is the file's
    [read_vectored_volatile] (resp. [read_vectored_at_volatile] at [off]). *)
Definition vw_write_from (read_vectored : list FileVolatileSlice -> prog (Memory * F) io_error Z) (count : Z) : vprog Z :=
  _ ← (fun s => (s, vw_check_available_space s.1 count 0 0));
  consume_for_write count read_vectored.

Definition vw_write_from_at (read_vectored_at : Z -> list FileVolatileSlice -> prog (Memory * F) io_error Z) (count off : Z) : vprog Z :=
  _ ← (fun s => (s, vw_check_available_space s.1 count 0 0));
  consume_for_write count (read_vectored_at off).

(** A round of [write_all_from]. *)
Definition write_all_from_round (read_vectored : list FileVolatileSlice -> prog (Memory * F) io_error Z) (count : Z)
  : vprog (Z + unit) :=
  if 0 <? count then
    r ← catch (vw_write_from read_vectored count);
    match r with
    | inr n =>
      if n =? 0 then fail (Simple WriteZero)
      else mret (inl (wrap 64 (count - n)))
    | inl e => match error_kind e with Interrupted => mret (inl count) | _ => fail e end
    end
  else mret (inr tt).

Definition vw_write_all_from (read_vectored : list FileVolatileSlice -> prog (Memory * F) io_error Z) (count : Z) : vprog unit :=
  _ ← (fun s => (s, vw_check_available_space s.1 count 0 0));
  loop (write_all_from_round read_vectored) count.

(** [commit]: the bytes are in the guest already. *)
Definition vw_commit (other : option (VirtioFsWriter V)) : vprog Z := mret 0.
End ops.
End writer.

(** * Properties *)

(** ** Memory *)

Section put_facts.
Implicit Types (mem : Z -> Z).

Lemma put_nil addrs mem : put addrs [] mem = mem.
Proof. by destruct addrs. Qed.

Lemma put_app a1 a2 d1 d2 mem : length a1 = length d1 -> put (a1 ++ a2) (d1 ++ d2) mem = put a2 d2 (put a1 d1 mem).
Proof. revert d1 mem. induction a1 as [|a a1 IH]; intros [|d d1] mem Hl; [done..|]. apply IH. by injection Hl. Qed.

Lemma put_short a1 a2 data mem : (length data <= length a1)%nat -> put (a1 ++ a2) data mem = put a1 data mem.
Proof.
  revert data mem. induction a1 as [|a a1 IH]; intros [|d data] mem Hl; cbn in *; [by rewrite put_nil|lia|done|]. apply IH. lia.
Qed.

Lemma put_other addrs data mem a : a ∉ addrs -> put addrs data mem a = mem a.
Proof.
  revert data mem. induction addrs as [|x addrs IH]; intros [|d data] mem Ha; [done..|]. apply not_elem_of_cons in Ha as [Hx Ha].
  cbn. rewrite IH by done. by rewrite (proj2 (Z.eqb_neq _ _)).
Qed.

Lemma put_read addrs data mem :
  NoDup addrs -> (length data <= length addrs)%nat -> map (put addrs data mem) (take (length data) addrs) = data.
Proof.
  intros Hnd. revert data mem. induction Hnd as [|x addrs Hx Hnd IH]; intros [|d data] mem Hl; cbn in *; [done|lia|done|].
  f_equal; [|apply IH; lia]. rewrite put_other by done. by rewrite Z.eqb_refl.
Qed.

(** The second part of some addresses is written before the first. *)
Lemma put_two addrs head body mem :
  (length head + length body <= length addrs)%nat ->
  let mem' := put (take (length head) addrs) head (put (drop (length head) addrs) body mem) in
  let written := take (length (head ++ body)) addrs in
  (NoDup addrs -> map mem' written = head ++ body) /\ (forall a, a ∉ written -> mem' a = mem a).
Proof.
  intros Hfit mem' written. set (a1 := take (length head) addrs) in *. set (a2 := drop (length head) addrs) in *.
  assert (length a1 = length head /\ (length body <= length a2)%nat) as [Hl1 Hl2] by (unfold a1, a2; rewrite length_take, length_drop; lia).
  assert (written = a1 ++ take (length body) a2) as Hwr by (unfold written, a1, a2; by rewrite length_app, take_take_drop).
  split.
  - intros Hnd. rewrite <- (take_drop (length head) addrs) in Hnd. apply NoDup_app in Hnd as (Hn1 & Hdisj & Hn2).
    rewrite Hwr, map_app. f_equal.
    + pose proof (put_read a1 head (put a2 body mem) Hn1 ltac:(lia)) as E. by rewrite take_ge in E by lia.
    + etrans; [|exact (put_read a2 body mem Hn2 Hl2)]. apply map_ext_in. intros a Ha%list_elem_of_In. apply put_other.
      intros Ha'. apply (Hdisj a Ha'). apply elem_of_take in Ha as (i & Hi & _). by eapply list_elem_of_lookup_2.
  - intros a Ha. rewrite Hwr in Ha. apply not_elem_of_app in Ha as [Ha1 Ha2]. unfold mem'. rewrite put_other by done.
    rewrite <- (take_drop (length body) a2), put_short by (rewrite length_take; lia). by apply put_other.
Qed.
End put_facts.

(** The addresses of the ranges in the record. *)
Definition dirty_addrs (l : list (Z * Z)) : list Z := concat (map (fun r => seqZ r.1 r.2) l).

Lemma copy_in_spec bufs data mem :
  Forall (fun s => 0 <= s.(fvs_size)) bufs ->
  copy_in bufs data mem = (put (fflat bufs) data mem, Z.min (zlen data) (zlen (fflat bufs))).
Proof.
  intros Hpos. revert data mem. induction Hpos as [|s bufs Hs Hpos IH]; intros data mem.
  { cbn. pose proof (zlen_nonneg data). rewrite Z.min_r by done. done. }
  assert (length (seqZ s.(fvs_addr) s.(fvs_size)) = Z.to_nat s.(fvs_size)) as Hlen by apply length_seqZ.
  cbn [copy_in]. rewrite IH. unfold fflat. cbn [map concat]. fold (fflat bufs). unfold fspan. rewrite zlen_app.
  assert (zlen (seqZ s.(fvs_addr) s.(fvs_size)) = s.(fvs_size)) as Hz by (unfold zlen; rewrite Hlen; lia).
  destruct (Z.le_gt_cases s.(fvs_size) (zlen data)) as [Hle|Hgt].
  - rewrite Z.min_r by done. rewrite <- put_app by (rewrite Hlen, length_take; unfold zlen in Hle; lia).
    rewrite take_drop. f_equal. unfold zlen in *. rewrite length_drop. lia.
  - rewrite Z.min_l by lia. unfold zlen in *. rewrite drop_ge, take_ge, put_nil by lia. cbn [length].
    rewrite put_short by (rewrite Hlen; lia). f_equal; [|lia].
    replace s.(fvs_size) with (Z.of_nat (length data) + (s.(fvs_size) - Z.of_nat (length data))) by lia.
    rewrite seqZ_app by lia. symmetry. apply put_short. rewrite length_seqZ. lia.
Qed.

(** ** Consuming the buffers of a writer *)

Section writer_facts.
Context {V : Type} {VS : VolatileSlice V} {VO : VolatileSliceOk V}.
Implicit Types (w : VirtioFsWriter V).

(** The addresses that are left to write. *)
Definition space w : list Z := flat w.(vw_buffers).(buffers).
Definition vw_ok w : Prop := buffers_ok w.(vw_buffers).

Lemma available_space w : vw_ok w -> vw_available_bytes w = zlen (space w).
Proof. apply available_bytes_flat. Qed.

Lemma check_space_spec w n :
  vw_ok w -> 0 <= n -> vw_check_available_space w n 0 0 = if zlen (space w) <? n then Err (Simple InvalidData) else Ok tt.
Proof.
  intros Hok Hn. pose proof Hok as [? Hle]. fold (space w) in Hle. unfold vw_check_available_space. rewrite available_space by done. unfold checked_add.
  destruct (Z.leb_spec (n + 0) U64_MAX) as [Hu|Hu]; cbn.
  - destruct (Z.leb_spec (n + 0 + 0) U64_MAX); [|lia]. cbn. by rewrite !Z.add_0_r.
  - destruct (Z.ltb_spec (zlen (space w)) n); [done|lia].
Qed.

Lemma mark_all {F} (ls : list V) (m : Memory) (x : F) :
  foldl (fun y v => (mark (vs_ptr v) (vs_len v) y.1, y.2)) (m, x) ls =
  (mkMemory m.(m_bytes) (m.(m_dirty) ++ map (fun v => (vs_ptr v, vs_len v)) ls), x).
Proof.
  revert m. induction ls as [|v ls IH]; intros m; cbn; [rewrite app_nil_r; by destruct m|].
  rewrite IH. cbn. by rewrite <- (assoc_L (++)).
Qed.

(** What a closure did that took [n] bytes is recorded, and the writer goes on
    behind them. *)
Lemma consume_for_write_spec {F} w (m : Memory) (x : F) count f bufs m1 x1 n :
  vw_ok w -> 0 < count <= zlen (space w) -> allocate_file_volatile_slice w.(vw_buffers) count = Ok bufs ->
  f bufs (m, x) = ((m1, x1), Ok n) -> 0 <= n <= count ->
  exists w' rs, consume_for_write count f (w, (m, x)) = ((w', (mkMemory m1.(m_bytes) (m1.(m_dirty) ++ rs), x1)), Ok n) /\
    vw_ok w' /\ space w' = drop (Z.to_nat n) (space w) /\ dirty_addrs rs = take (Z.to_nat n) (space w) /\
    vw_bytes_written w' = vw_bytes_written w + n.
Proof.
  intros [Hb0 Hb] Hc Hal Hf Hn. unfold space in *. unfold consume_for_write, consume. rewrite Hal.
  destruct (allocate_spec w.(vw_buffers) count ltac:(lia)) as (bufs' & Hal' & Hflat). rewrite Hal in Hal'. injection Hal' as <-.
  destruct bufs as [|s bufs]; [exfalso; destruct (flat _); [unfold zlen in Hc; cbn in Hc; lia|]; destruct (Z.to_nat count) eqn:E; [lia|done]|].
  rewrite Hf. unfold mark_dirty. destruct (local_bufs_spec w.(vw_buffers).(buffers) n ltac:(lia)) as (ls & -> & Hls). cbn [outcome_map].
  destruct (mark_used_spec w.(vw_buffers) n ltac:(lia) ltac:(lia)) as (bs' & -> & Hdrop).
  exists (mkVirtioFsWriter (MkIoBuffers bs' (w.(vw_buffers).(bytes_consumed) + n))), (map (fun v => (vs_ptr v, vs_len v)) ls).
  split_and!; [|split; cbn [vw_buffers buffers bytes_consumed]; [lia|rewrite Hdrop; unfold zlen in *; rewrite length_drop; lia]|done| |done].
  - by rewrite mark_all.
  - rewrite <- Hls. unfold dirty_addrs, flat. rewrite map_map. done.
Qed.
(** A write takes all of the data or none of it. *)
Lemma vw_write_spec {F} w (m : Memory) (x : F) data :
  vw_ok w ->
  if zlen (space w) <? zlen data then vw_write data (w, (m, x)) = ((w, (m, x)), Err (Simple InvalidData))
  else exists w' rs,
    vw_write data (w, (m, x)) = ((w', (mkMemory (put (space w) data m.(m_bytes)) (m.(m_dirty) ++ rs), x)), Ok (zlen data)) /\
    vw_ok w' /\ space w' = drop (length data) (space w) /\ dirty_addrs rs = take (length data) (space w) /\
    vw_bytes_written w' = vw_bytes_written w + zlen data.
Proof.
  intros Hok. unfold vw_write, mbind, prog_mbind, prog_bind. cbn [fst]. pose proof (zlen_nonneg data) as H0.
  rewrite check_space_spec by done. destruct (Z.ltb_spec (zlen (space w)) (zlen data)) as [Hlt|Hge]; [done|].
  destruct data as [|b data].
  { exists w, []. change (zlen (A := Z) []) with 0. unfold consume_for_write, consume, allocate_file_volatile_slice.
    assert (local_bufs w.(vw_buffers).(buffers) 0 = Ok []) as -> by (by destruct w.(vw_buffers).(buffers)).
    rewrite put_nil, app_nil_r, Z.add_0_r. cbn [length]. rewrite drop_0, take_0. destruct w as [b], m. done. }
  destruct (allocate_spec w.(vw_buffers) (zlen (b :: data)) H0) as (bufs & Hal & Hflat).
  fold (space w) in Hflat. unfold zlen in Hflat at 1. rewrite Nat2Z.id in Hflat.
  assert (zlen (fflat bufs) = zlen (b :: data)) as Hl by (rewrite Hflat; unfold zlen in *; rewrite length_take; lia).
  edestruct (consume_for_write_spec w m x (zlen (b :: data)) (fun bufs x0 =>
     let '(mem, total) := copy_in bufs (b :: data) x0.1.(m_bytes) in ((mkMemory mem x0.1.(m_dirty), x0.2), Ok total))
    bufs (mkMemory (put (space w) (b :: data) m.(m_bytes)) m.(m_dirty)) x (zlen (b :: data)))
    as (w' & rs & Hw & Hok' & Hsp & Hd & Hn); [done|rewrite zlen_cons in *; pose proof (zlen_nonneg data); lia|done| |lia|].
  - cbn [fst snd]. rewrite copy_in_spec by (by eapply allocated_sizes). rewrite Hl, Z.min_id, Hflat.
    rewrite <- (take_drop (length (b :: data)) (space w)) at 2.
    by rewrite put_short by (rewrite length_take; unfold zlen in Hge; lia).
  - exists w', rs. unfold zlen in Hsp, Hd. rewrite Nat2Z.id in Hsp, Hd. done.
Qed.

Lemma vw_write_all_spec {F} w (m : Memory) (x : F) data :
  vw_ok w -> zlen data <= zlen (space w) ->
  exists w' rs,
    vw_write_all data (w, (m, x)) = ((w', (mkMemory (put (space w) data m.(m_bytes)) (m.(m_dirty) ++ rs), x)), Ok tt) /\
    vw_ok w' /\ space w' = drop (length data) (space w) /\ dirty_addrs rs = take (length data) (space w) /\
    vw_bytes_written w' = vw_bytes_written w + zlen data.
Proof.
  intros Hok Hle. destruct data as [|b data].
  { exists w, []. unfold vw_write_all. cbn [vw_write_all_loop length]. rewrite put_nil, app_nil_r, drop_0, take_0, Z.add_0_r. by destruct m. }
  pose proof (vw_write_spec w m x (b :: data) Hok) as Hw. rewrite (proj2 (Z.ltb_ge _ _)) in Hw by lia.
  destruct Hw as (w' & rs & Hw & Hrest). exists w', rs. split; [|done].
  unfold vw_write_all. cbn [length vw_write_all_loop]. unfold mbind, prog_mbind, prog_bind, catch. rewrite Hw. cbv beta iota zeta.
  rewrite (proj2 (Z.eqb_neq _ _)) by (rewrite zlen_cons; pose proof (zlen_nonneg data); lia).
  unfold zlen. rewrite Nat2Z.id, drop_all. by destruct (length data).
Qed.

(** The slices of [write_vectored], one after the other. *)
Lemma total_length (bufs : list bytes) n :
  0 <= n -> n + zlen (concat bufs) < 2 ^ 64 -> foldl (fun acc x => wrap 64 (acc + zlen x)) n bufs = n + zlen (concat bufs).
Proof.
  revert n. induction bufs as [|b bufs IH]; intros n Hn Hlt; cbn [foldl concat] in *; [by rewrite Z.add_0_r|].
  rewrite zlen_app in *. pose proof (zlen_nonneg b). pose proof (zlen_nonneg (concat bufs)).
  rewrite wrap_small by (unfold in_u; lia). rewrite IH; lia.
Qed.

Lemma concat_filter (bufs : list bytes) : concat (List.filter (fun b => negb (beq b [])) bufs) = concat bufs.
Proof. induction bufs as [|[|c b] bufs IH]; cbn; [done|done|]. by rewrite IH. Qed.

Lemma vw_write_each_spec {F} bufs w (m : Memory) (x : F) count :
  vw_ok w -> zlen (concat bufs) <= zlen (space w) -> 0 <= count -> count + zlen (concat bufs) < 2 ^ 64 ->
  exists w' rs,
    vw_write_each bufs count (w, (m, x)) =
      ((w', (mkMemory (put (space w) (concat bufs) m.(m_bytes)) (m.(m_dirty) ++ rs), x)), Ok (count + zlen (concat bufs))) /\
    dirty_addrs rs = take (length (concat bufs)) (space w).
Proof.
  revert w m count. induction bufs as [|b bufs IH]; intros w m count Hok Hfit Hc Hlt; cbn [vw_write_each concat] in *.
  { exists w, []. rewrite put_nil, app_nil_r, Z.add_0_r. by destruct m. }
  rewrite zlen_app in *. pose proof (zlen_nonneg b). pose proof (zlen_nonneg (concat bufs)).
  pose proof (vw_write_spec w m x b Hok) as Hw. rewrite (proj2 (Z.ltb_ge _ _)) in Hw by lia.
  destruct Hw as (w1 & r1 & Hw & Hok1 & Hs1 & Hd1 & _). unfold mbind, prog_mbind, prog_bind. rewrite Hw. rewrite wrap_small by (unfold in_u; lia).
  destruct (IH w1 (mkMemory (put (space w) b m.(m_bytes)) (m.(m_dirty) ++ r1)) (count + zlen b)) as (w2 & r2 & -> & Hd2);
    [done|rewrite Hs1; unfold zlen in *; rewrite length_drop; lia|lia|lia|].
  exists w2, (r1 ++ r2). cbn [m_bytes m_dirty]. rewrite Hs1, <- (assoc_L (++)), <- Z.add_assoc. split.
  - do 3 f_equal. rewrite <- (take_drop (length b) (space w)) at 3.
    rewrite put_app by (rewrite length_take; unfold zlen in *; lia). do 2 f_equal.
    rewrite <- (take_drop (length b) (space w)) at 1. apply put_short. rewrite length_take. unfold zlen in *. lia.
  - unfold dirty_addrs in *. rewrite map_app, concat_app, Hd1, Hd2, Hs1, length_app. apply take_take_drop.
Qed.

Lemma vw_write_vectored_spec {F} bufs w (m : Memory) (x : F) :
  vw_ok w -> zlen (concat bufs) < 2 ^ 64 ->
  if zlen (space w) <? zlen (concat bufs) then vw_write_vectored bufs (w, (m, x)) = ((w, (m, x)), Err (Simple InvalidData))
  else exists w' rs,
    vw_write_vectored bufs (w, (m, x)) =
      ((w', (mkMemory (put (space w) (concat bufs) m.(m_bytes)) (m.(m_dirty) ++ rs), x)), Ok (zlen (concat bufs))) /\
    dirty_addrs rs = take (length (concat bufs)) (space w).
Proof.
  intros Hok Hlt. pose proof (zlen_nonneg (concat bufs)).
  assert (vw_write_vectored bufs (w, (m, x)) = if zlen (space w) <? zlen (concat bufs) then ((w, (m, x)), Err (Simple InvalidData))
    else vw_write_each (List.filter (fun b => negb (beq b [])) bufs) 0 (w, (m, x))) as ->.
  { unfold vw_write_vectored, mbind, prog_mbind, prog_bind. cbn [fst]. rewrite total_length, Z.add_0_l, check_space_spec by (done || lia).
    by destruct (_ <? _). }
  destruct (Z.ltb_spec (zlen (space w)) (zlen (concat bufs))); [done|]. rewrite <- concat_filter in *.
  by apply (vw_write_each_spec _ w m x 0).
Qed.
End writer_facts.

(** ** Guest memory *)

(** What vm-memory documents: the region that is found holds the address, and a
    slice of a region is the host memory of that part of the guest.  [gm_host] is
    where a guest address is on the host. *)
Class GuestMemoryOk (V : Type) `{GM : GuestMemory V} `{VS : VolatileSlice V} : Type := {
  gm_host : Z -> Z;
  gm_region_start : forall a (r : gm_region (V := V)), gm_find_region a = Some r -> gm_start_addr r <= a;
  gm_slice_at : forall (r : gm_region (V := V)) off len (v : V), 0 <= off -> 0 <= len ->
    gm_get_slice r off len = Some v -> span v = map gm_host (seqZ (gm_start_addr r + off) len);
}.

(** The guest addresses of a list of descriptors. *)
Definition guest_addrs (descs : list Descriptor) : list Z := concat (map (fun d => seqZ d.(ds_addr) d.(ds_len)) descs).

Definition descs_ok (descs : list Descriptor) : Prop := Forall (fun d => 0 <= d.(ds_len)) descs.

Lemma chain_slices_spec {V} `{GuestMemoryOk V} `{!VolatileSliceOk V} descs total :
  descs_ok descs -> 0 <= total ->
  match chain_slices (V := V) descs total with
  | Ok bufs => flat bufs = map gm_host (guest_addrs descs) /\ total + zlen (guest_addrs descs) <= Z.max total U64_MAX
  | Err e => e = DescriptorChainOverflow \/ e = FindMemoryRegion \/ e = GuestMemoryError
  | Panic => False
  end.
Proof.
  intros Hds. revert total. induction Hds as [|d descs Hd Hds IH]; intros total Ht; cbn [chain_slices].
  { split; [done|]. unfold guest_addrs, zlen. cbn. lia. }
  unfold checked_add. destruct (Z.leb_spec (total + d.(ds_len)) U64_MAX) as [Hle|]; [|by left]. cbn.
  destruct (gm_find_region d.(ds_addr)) as [r|] eqn:Hr; [|by right; left]. cbn. pose proof (gm_region_start _ _ Hr) as Hstart.
  unfold checked_sub. destruct (Z.leb_spec (gm_start_addr r) d.(ds_addr)); [|lia]. cbn.
  destruct (gm_get_slice r _ _) as [v|] eqn:Hv; [|by right; right]. cbn. specialize (IH (total + d.(ds_len)) ltac:(lia)).
  destruct (chain_slices descs _) as [bufs|e|]; cbn; [|done..]. destruct IH as [Hflat Hlen].
  apply gm_slice_at in Hv; [|lia|done]. rewrite Zplus_minus in Hv. unfold flat, guest_addrs in *. cbn [map concat].
  rewrite map_app, Hv, Hflat. split; [done|]. rewrite zlen_app. unfold zlen at 1. rewrite length_seqZ. lia.
Qed.

Lemma vw_split_spec {V} `{VolatileSliceOk V} (w : VirtioFsWriter V) off :
  vw_ok w -> 0 <= off <= zlen (space w) ->
  exists w1 w2, vw_split_at off w = (w1, Ok w2) /\ vw_ok w1 /\ vw_ok w2 /\
    space w1 = take (Z.to_nat off) (space w) /\ space w2 = drop (Z.to_nat off) (space w).
Proof.
  intros [Hb0 Hb] Hoff. unfold vw_split_at, space in *.
  destruct (split_at_in_bounds w.(vw_buffers) off Hoff) as (b1 & b2 & -> & H1 & H2 & Hc1 & Hc2).
  exists (mkVirtioFsWriter b1), (mkVirtioFsWriter b2). unfold vw_ok, buffers_ok. cbn [vw_buffers]. rewrite H1, H2, Hc1, Hc2.
  unfold zlen in *. rewrite length_take, length_drop. split_and!; [done|lia..|done|done].
Qed.

(** ** Claims *)

(** C20: replies over virtiofs.  Whatever chain a driver offers, making the
    writer ends: with one of three errors, or with a writer for the bytes of the
    writable descriptors in order.  A reply is written the way the server does
    it, with the writer split behind the header and the body written first.
    When it fits, no byte of the memory has changed but those of the first
    descriptors that are as long as the reply, exactly these were marked dirty,
    and, provided the descriptors of the chain do not overlap in the memory,
    they hold the header and behind it the body.  The same holds of slices that
    are written with one call of [write_vectored].  A write that does not fit,
    of one or of several slices, fails and leaves the memory alone. *)
Theorem virtio_reply_delivered {V C F : Type} `{GuestMemoryOk V} `{!VolatileSliceOk V} `{DescriptorChain C} (chain : C) :
  descs_ok (dc_writable chain) ->
  let addrs := map gm_host (guest_addrs (dc_writable chain)) in
  match VirtioFsWriter_new (V := V) chain with
  | Panic => False
  | Err e => e = DescriptorChainOverflow \/ e = FindMemoryRegion \/ e = GuestMemoryError
  | Ok w =>
    vw_available_bytes w = zlen addrs /\
    (forall (m : Memory) (x : F) data, zlen addrs < zlen data ->
      vw_write data (w, (m, x)) = ((w, (m, x)), Err (Simple InvalidData))) /\
    (forall (m : Memory) (x : F) bufs, zlen addrs < zlen (concat bufs) < 2 ^ 64 ->
      vw_write_vectored bufs (w, (m, x)) = ((w, (m, x)), Err (Simple InvalidData))) /\
    (forall (m : Memory) (x : F) bufs, zlen (concat bufs) <= zlen addrs ->
      let written := take (length (concat bufs)) addrs in
      exists w' m' ranges,
        vw_write_vectored bufs (w, (m, x)) = ((w', (m', x)), Ok (zlen (concat bufs))) /\
        (NoDup addrs -> map m'.(m_bytes) written = concat bufs) /\
        (forall a, a ∉ written -> m'.(m_bytes) a = m.(m_bytes) a) /\
        m'.(m_dirty) = m.(m_dirty) ++ ranges /\ dirty_addrs ranges = written) /\
    forall (m : Memory) (x : F) head body, zlen head + zlen body <= zlen addrs ->
      let written := take (length (head ++ body)) addrs in
      exists w1 w2 w1' w2' m1 m2 ranges,
        vw_split_at (zlen head) w = (w1, Ok w2) /\
        vw_write_all body (w2, (m, x)) = ((w2', (m1, x)), Ok tt) /\
        vw_write_all head (w1, (m1, x)) = ((w1', (m2, x)), Ok tt) /\
        vw_commit (Some w2') (w1', (m2, x)) = ((w1', (m2, x)), Ok 0) /\
        (NoDup addrs -> map m2.(m_bytes) written = head ++ body) /\
        (forall a, a ∉ written -> m2.(m_bytes) a = m.(m_bytes) a) /\
        m2.(m_dirty) = m.(m_dirty) ++ ranges /\ dirty_addrs ranges ≡ₚ written
  end.
Proof.
  intros Hds addrs. pose proof (chain_slices_spec (V := V) (dc_writable chain) 0 Hds ltac:(done)) as Hc. unfold VirtioFsWriter_new, mbind, outcome_mbind, outcome_bind.
  destruct (chain_slices _ 0) as [bufs|e|]; [|done..]. destruct Hc as [Hflat Hlen]. fold addrs in Hflat.
  set (w := mkVirtioFsWriter (MkIoBuffers bufs 0)). assert (space w = addrs) as Hsp by done.
  assert (vw_ok w) as Hok by (split; cbn [w vw_buffers buffers bytes_consumed]; [done|]; rewrite Hflat; unfold addrs, zlen in *;
    rewrite length_map; unfold U64_MAX in *; lia).
  split; [by rewrite available_space, Hsp|]. split.
  { intros m x data Hlt. pose proof (vw_write_spec w m x data Hok) as Hw. rewrite Hsp, (proj2 (Z.ltb_lt _ _)) in Hw by done. exact Hw. }
  split; [|split].
  { intros m x bufs' [Hlt H64]. pose proof (vw_write_vectored_spec bufs' w m x Hok H64) as Hw.
    rewrite Hsp, (proj2 (Z.ltb_lt _ _)) in Hw by done. exact Hw. }
  { intros m x bufs' Hfit. assert (zlen addrs < 2 ^ 64) by (unfold addrs, zlen in *; rewrite length_map; unfold U64_MAX in *; lia).
    pose proof (vw_write_vectored_spec bufs' w m x Hok ltac:(lia)) as Hw. rewrite Hsp, (proj2 (Z.ltb_ge _ _)) in Hw by lia.
    destruct Hw as (w' & rs & Hw & Hd). eexists w', _, rs. split; [exact Hw|]. cbn [m_bytes m_dirty]. split_and!; [|..|done|done].
    - intros Hnd. apply put_read; [done|]. unfold zlen in Hfit. lia.
    - intros a Ha. rewrite <- (take_drop (length (concat bufs')) addrs), put_short; [by apply put_other|].
      rewrite length_take. unfold zlen in Hfit. lia. }
  intros m x head body Hfit. unfold zlen in Hfit.
  destruct (vw_split_spec w (zlen head) Hok ltac:(rewrite Hsp; unfold zlen; lia)) as (w1 & w2 & Hsplit & Hok1 & Hok2 & Hs1 & Hs2).
  rewrite Hsp in Hs1, Hs2. unfold zlen in Hs1, Hs2. rewrite Nat2Z.id in Hs1, Hs2.
  destruct (vw_write_all_spec w2 m x body Hok2) as (w2' & r2 & Hw2 & _ & _ & Hd2 & _); [rewrite Hs2; unfold zlen; rewrite length_drop; lia|].
  set (m1 := mkMemory (put (space w2) body (m_bytes m)) (m_dirty m ++ r2)) in *.
  destruct (vw_write_all_spec w1 m1 x head Hok1) as (w1' & r1 & Hw1 & _ & _ & Hd1 & _); [rewrite Hs1; unfold zlen; rewrite length_take; lia|].
  destruct (put_two addrs head body m.(m_bytes) ltac:(lia)) as [Hread Hother].
  eexists w1, w2, w1', w2', m1, _, (r2 ++ r1). split_and!; [exact Hsplit|exact Hw2|exact Hw1|done|..]; cbn [m1 m_bytes m_dirty].
  - by rewrite Hs1, Hs2.
  - by rewrite Hs1, Hs2.
  - by rewrite <- (assoc_L (++)).
  - unfold dirty_addrs in *. rewrite map_app, concat_app, Hd1, Hd2, Hs1, Hs2, length_app, <- take_take_drop.
    rewrite (take_ge (take _ _)) by (rewrite length_take; lia). apply Permutation_app_comm.
Qed.

(** A file to copy from: it has bytes, gives at least one of them whenever it is
    asked for some, and is interrupted a bounded number of times. *)
Record source_ok {F : Type} (content : F -> bytes) (patience : F -> Z)
    (read : list FileVolatileSlice -> prog (Memory * F) io_error Z) : Prop := {
  so_patience : forall x, 0 <= patience x;
  so_read : forall bufs m x, content x <> [] -> fflat bufs <> [] ->
    (exists n x', read bufs (m, x) =
        ((mkMemory (put (fflat bufs) (take (Z.to_nat n) (content x)) m.(m_bytes)) m.(m_dirty), x'), Ok n) /\
      1 <= n <= zlen (fflat bufs) /\ n <= zlen (content x) /\
      content x' = drop (Z.to_nat n) (content x) /\ patience x' <= patience x) \/
    (exists e x', read bufs (m, x) = ((m, x'), Err e) /\ error_kind e = Interrupted /\
      content x' = content x /\ patience x' < patience x);
}.

Section copying.
Context {V F : Type} {VS : VolatileSlice V} {VO : VolatileSliceOk V}.
Context (content : F -> bytes) (patience : F -> Z) (read : list FileVolatileSlice -> prog (Memory * F) io_error Z).
Context (Hsource : source_ok content patience read).
Implicit Types (w : VirtioFsWriter V) (m : Memory) (x : F).

(** [k] bytes were copied between two states. *)
Definition copied (k : nat) (s s' : VirtioFsWriter V * (Memory * F)) : Prop :=
  let '(w, (m, x)) := s in let '(w', (m', x')) := s' in
  vw_ok w' /\ space w' = drop k (space w) /\ content x' = drop k (content x) /\
  m'.(m_bytes) = put (space w) (take k (content x)) m.(m_bytes) /\
  exists rs, m'.(m_dirty) = m.(m_dirty) ++ rs /\ dirty_addrs rs = take k (space w).

Lemma write_from_round w m x count :
  vw_ok w -> 0 < count <= zlen (space w) -> count <= zlen (content x) ->
  (exists n s', vw_write_from read count (w, (m, x)) = (s', Ok n) /\ 1 <= n <= count /\
     copied (Z.to_nat n) (w, (m, x)) s' /\ patience s'.2.2 <= patience x) \/
  (exists e x', vw_write_from read count (w, (m, x)) = ((w, (m, x')), Err e) /\ error_kind e = Interrupted /\
     content x' = content x /\ patience x' < patience x).
Proof.
  intros Hok Hc Hx. unfold vw_write_from, mbind, prog_mbind, prog_bind. cbn [fst]. rewrite check_space_spec by (done || lia).
  rewrite (proj2 (Z.ltb_ge _ _)) by lia. destruct (allocate_spec w.(vw_buffers) count ltac:(lia)) as (bufs & Hal & Hflat).
  fold (space w) in Hflat. assert (zlen (fflat bufs) = count) as Hl by (rewrite Hflat; unfold zlen in *; rewrite length_take; lia).
  assert (fflat bufs <> []) as Hne by (intros E; rewrite E in Hl; unfold zlen in Hl; cbn in Hl; lia).
  destruct (so_read _ _ _ Hsource bufs m x) as [(n & x' & Hread & Hn & Hnx & Hcx & Hp)|(e & x' & Hread & He & Hcx & Hp)];
    [intros E; rewrite E in Hx; unfold zlen in Hx; cbn in Hx; lia|done|left|right].
  - edestruct (consume_for_write_spec w m x count read bufs) as (w' & rs & Hw & Hok' & Hsp & Hd & _); [done..|lia|].
    rewrite Hl in Hn. exists n. eexists. split; [exact Hw|]. split; [done|]. split; [|done]. cbn [copied m_bytes m_dirty].
    split_and!; [done..| |by exists rs].
    transitivity (put (take (Z.to_nat count) (space w) ++ drop (Z.to_nat count) (space w)) (take (Z.to_nat n) (content x)) m.(m_bytes));
      [|by rewrite take_drop].
    rewrite Hflat, put_short; [done|]. rewrite !length_take. unfold zlen in *. lia.
  - exists e, x'. split; [|done]. unfold consume_for_write, consume. rewrite Hal.
    destruct bufs as [|b bufs]; [done|]. rewrite Hread. by destruct w.
Qed.

Lemma copied_trans j k s s1 s2 :
  (k <= length (content s1.2.2))%nat -> (j + k <= length (space s.1))%nat -> (j <= length (content s.2.2))%nat ->
  copied j s s1 -> copied k s1 s2 -> copied (j + k) s s2.
Proof.
  destruct s as [w [m x]], s1 as [w1 [m1 x1]], s2 as [w2 [m2 x2]]. cbn. intros Hk Hjk Hj (_ & Hs1 & Hx1 & Hm1 & r1 & Hd1 & Ha1) (Hok2 & Hs2 & Hx2 & Hm2 & r2 & Hd2 & Ha2).
  rewrite Hs1, Hx1 in *. rewrite drop_drop in Hs2, Hx2. split_and!; [done..| |].
  - rewrite Hm2, Hm1. rewrite <- (take_drop j (space w)) at 3. rewrite <- take_take_drop, put_app by (rewrite !length_take; lia).
    f_equal. rewrite <- (take_drop j (space w)) at 1. apply put_short. rewrite !length_take. lia.
  - exists (r1 ++ r2). rewrite Hd2, Hd1, <- (assoc_L (++)). split; [done|].
    unfold dirty_addrs in *. rewrite map_app, concat_app, Ha1, Ha2. apply take_take_drop.
Qed.

(** The state of the loop of [write_all_from]: [count - c] bytes are copied. *)
Lemma write_all_from_ends w m x count :
  vw_ok w -> 0 <= count <= zlen (space w) -> count <= zlen (content x) -> patience x + count < 2 ^ 64 ->
  ends (vw_write_all_from read count) (fun _ s' => copied (Z.to_nat count) (w, (m, x)) s') (w, (m, x)).
Proof.
  intros Hok Hc Hx Hp. unfold vw_write_all_from.
  eapply (ends_bind _ _ (fun _ s => s = (w, (m, x)))).
  { unfold ends. cbn [fst]. rewrite check_space_spec by (done || lia). by rewrite (proj2 (Z.ltb_ge _ _)) by lia. }
  intros _ s ->. eapply (ends_loop
    (fun c s => 0 <= c <= count /\ copied (Z.to_nat (count - c)) (w, (m, x)) s)
    (fun c s => patience s.2.2 + c)).
  - intros c s [? _]. pose proof (so_patience _ _ _ Hsource s.2.2). lia.
  - intros c [w1 [m1 x1]] [Hc1 Hcop]. unfold write_all_from_round. destruct (Z.ltb_spec 0 c) as [Hpos|Hz].
    + pose proof Hcop as (Hok1 & Hs1 & Hx1 & _).
      assert (zlen (space w1) = zlen (space w) - (count - c) /\ zlen (content x1) = zlen (content x) - (count - c)) as [Hl1 Hl2]
        by (rewrite Hs1, Hx1; unfold zlen in *; rewrite !length_drop; lia).
      destruct (write_from_round w1 m1 x1 c Hok1 ltac:(lia) ltac:(lia)) as [(n & s' & Hw & Hn & Hcop' & Hp')|(e & x' & Hw & He & Hx' & Hp')].
      * unfold ends, mbind, prog_mbind, prog_bind, catch. rewrite Hw. cbv beta iota zeta. rewrite (proj2 (Z.eqb_neq n 0)) by lia.
        rewrite wrap_small by (pose proof (so_patience _ _ _ Hsource x); unfold in_u; lia). cbn -[copied]. split; [split; [lia|]|lia].
        replace (Z.to_nat (count - (c - n))) with (Z.to_nat (count - c) + Z.to_nat n)%nat by lia.
        eapply copied_trans; [..|exact Hcop|exact Hcop']; cbn [fst snd]; unfold zlen in *; lia.
      * unfold ends, mbind, prog_mbind, prog_bind, catch. rewrite Hw. cbv beta iota zeta. rewrite He. cbn. split; [split; [done|]|lia].
        cbn in Hcop. by rewrite Hx'.
    + apply ends_mret. replace (Z.to_nat count) with (Z.to_nat (count - c)) by lia. done.
  - split; [lia|]. rewrite Z.sub_diag. cbn. rewrite !drop_0, take_0, put_nil. split_and!; [done..|]. exists []. by rewrite app_nil_r.
  - cbn. lia.
Qed.
End copying.

(** C21: copying from a file to the guest.  [write_all_from] of no more bytes than
    the file has and the descriptors hold ends with success, however the file
    cuts them into pieces and however often it is interrupted: the next bytes of
    the file are in the memory at the addresses of the chain, exactly these are
    marked dirty, and the writer and the file are just behind them. *)
Theorem virtio_copies_file {V F : Type} `{VolatileSliceOk V} (content : F -> bytes) (patience : F -> Z)
    (read : list FileVolatileSlice -> prog (Memory * F) io_error Z) (w : VirtioFsWriter V) (m : Memory) (x : F) (count : Z) :
  source_ok content patience read -> vw_ok w ->
  0 <= count <= zlen (space w) -> count <= zlen (content x) -> patience x + count < 2 ^ 64 ->
  exists w' m' x' ranges, vw_write_all_from read count (w, (m, x)) = ((w', (m', x')), Ok tt) /\
    space w' = drop (Z.to_nat count) (space w) /\ content x' = drop (Z.to_nat count) (content x) /\
    m'.(m_bytes) = put (space w) (take (Z.to_nat count) (content x)) m.(m_bytes) /\
    m'.(m_dirty) = m.(m_dirty) ++ ranges /\ dirty_addrs ranges = take (Z.to_nat count) (space w).
Proof.
  intros Hs Hok Hc Hx Hp. pose proof (write_all_from_ends content patience read Hs w m x count Hok Hc Hx Hp) as He. unfold ends in He.
  destruct (vw_write_all_from read count (w, (m, x))) as [[w' [m' x']] [[]|e|]]; [|done..].
  destruct He as (_ & Hsp & Hcx & Hm & rs & Hd & Ha). by exists w', m', x', rs.
Qed.

(** ** A small guest *)

(** One region of 256 bytes at [0x1000], which is at [0x6000] on the host. *)
#[global] Instance example_guest : GuestMemory RawSlice := {|
  gm_region := unit;
  gm_find_region a := if (0x1000 <=? a) && (a <? 0x1100) then Some tt else None;
  gm_start_addr _ := 0x1000;
  gm_get_slice _ off len :=
    if (0 <=? off) && (0 <=? len) && (off + len <=? 0x100) then Some (MkRawSlice (0x6000 + off) (Z.to_nat len)) else None;
|}.

#[global] Instance example_guest_ok : GuestMemoryOk RawSlice.
Proof.
  refine {| gm_host := Z.add 0x5000 |}.
  - intros a r H. cbn in *. case_match; [|done]. zify_bool. lia.
  - intros r off len v Ho Hl H. cbn in *. case_match; [|done]. injection H as <-. unfold span. cbn.
    rewrite Z2Nat.id by done. change (map (Z.add 20480)) with (fmap (M := list) (Z.add 20480)). rewrite fmap_add_seqZ. f_equal. lia.
Defined.

(** A chain as its two lists of descriptors. *)
#[global] Instance example_chain : DescriptorChain (list Descriptor * list Descriptor) := {|
  dc_readable c := c.1;
  dc_writable c := c.2;
|}.

Lemma virtio_reply_delivered_witness :
  exists w : VirtioFsWriter RawSlice,
    VirtioFsWriter_new (@nil Descriptor, [mkDescriptor 0x1010 3; mkDescriptor 0x1020 4]) = Ok w /\
    exists w1 w2 w1' w2' m1 m2,
      vw_split_at 2 w = (w1, Ok w2) /\
      vw_write_all [3; 4; 5] (w2, (mkMemory (fun _ => 0) [], tt)) = ((w2', (m1, tt)), Ok tt) /\
      vw_write_all [1; 2] (w1, (m1, tt)) = ((w1', (m2, tt)), Ok tt) /\
      map m2.(m_bytes) [0x6010; 0x6011; 0x6012; 0x6020; 0x6021] = [1; 2; 3; 4; 5].
Proof.
  assert (descs_ok [mkDescriptor 0x1010 3; mkDescriptor 0x1020 4]) as Hds by (repeat (apply Forall_cons_2; [cbn; lia|]); apply Forall_nil_2).
  pose proof (virtio_reply_delivered (V := RawSlice) (F := unit) (@nil Descriptor, [mkDescriptor 0x1010 3; mkDescriptor 0x1020 4]) Hds) as H.
  cbv zeta in H.
  destruct (VirtioFsWriter_new _) as [w|e|] eqn:Hw; [|vm_compute in Hw; discriminate Hw..].
  destruct H as (_ & _ & _ & _ & H). destruct (H (mkMemory (fun _ => 0) []) tt [1; 2] [3; 4; 5]) as (w1 & w2 & w1' & w2' & m1 & m2 & rs & H1 & H2 & H3 & _ & H4 & _);
    [by vm_compute|].
  exists w. split; [reflexivity|]. exists w1, w2, w1', w2', m1, m2. split_and!; [exact H1|exact H2|exact H3|].
  apply H4. apply (bool_decide_unpack _). vm_compute. exact Logic.I.
Defined.

(** A file that is interrupted some times and then gives a byte at a time. *)
Definition slow_read (bufs : list FileVolatileSlice) : prog (Memory * (bytes * nat)) io_error Z := fun '(m, (content, k)) =>
  match k with
  | S k' => ((m, (content, k')), Err (Os EINTR))
  | O => ((mkMemory (put (fflat bufs) (take 1 content) m.(m_bytes)) m.(m_dirty), (drop 1 content, O)), Ok 1)
  end.

Lemma slow_source : source_ok fst (fun x => Z.of_nat x.2) slow_read.
Proof.
  split; [intros [? ?]; cbn; lia|]. intros bufs m [content [|k]] Hc Hb; cbn in *; [left|right].
  - exists 1, (drop 1 content, O). cbn. unfold zlen. destruct content, (fflat bufs); [done..|]. cbn. split_and!; (done || lia).
  - exists (Os EINTR), (content, k). cbn. split_and!; (done || lia).
Qed.

Lemma virtio_copies_file_witness :
  exists s', vw_write_all_from slow_read 3 (mkVirtioFsWriter (MkIoBuffers [MkRawSlice 10 2; MkRawSlice 20 2] 0),
    (mkMemory (fun _ => 0) [], ([7; 8; 9], 2%nat))) = (s', Ok tt) /\ map s'.2.1.(m_bytes) [10; 11; 20; 21] = [7; 8; 9; 0].
Proof.
  destruct (virtio_copies_file fst (fun x => Z.of_nat x.2) slow_read (mkVirtioFsWriter (MkIoBuffers [MkRawSlice 10 2; MkRawSlice 20 2] 0))
    (mkMemory (fun _ => 0) []) ([7; 8; 9], 2%nat) 3 slow_source) as (w' & m' & x' & rs & Hw & _ & _ & Hm & _);
    [by vm_compute|by vm_compute|by vm_compute|by vm_compute|].
  eexists. split; [exact Hw|]. cbn [fst snd]. rewrite Hm. by vm_compute.
Defined.
