(* ===== verification/ServerAsync.v ===== *)
(** * The asynchronous server ([src/api/server/async_io.rs])

    With the feature [async-io] the server has a second entrance,
    [async_handle_message], whose handlers await the file system and the writer
    for ten kinds of requests and call the synchronous handlers for the others.
    A future runs here from its start to its end: requests that wait for each
    other's locks are not interleaved.

    The file holds the asynchronous operations of the reply writer
    ([src/transport/fusedev/mod.rs], [src/transport/mod.rs]), the trait
    [AsyncFileSystem] as an interface, and the server.  The theorems compare it
    with the synchronous server: the same requests give the same replies and the
    same file system, and they show the one place where it does not, which is
    that an error reply on a writer that was not split is followed by a second
    message. *)

From S2P Require Import Prelude Std Codec Abi AbiStruct Lib FsTypes FileSystem Transport FuseDev FuseDevProps Server Instances ServerClaims.

(** ** The writer *)

Section writer.
Context {DEV : FuseDevice}.
Abbreviation wprog := (prog (FuseDevWriter * Dev) io_error).

(** [pwrite] and [writev] on the device, with the writer's account. *)
Definition async_send (data : bytes) : wprog Z :=
  x ← do_write data;
  _ ← modify (fun s => (account_written x s.1, s.2));
  mret x.

Definition FuseDevWriter_async_write (data : bytes) : wprog Z :=
  _ ← (fun s => (s, check_available_space s.1 (zlen data)));
  buffered ← gets (fun s => s.1.(fw_buffered));
  if (buffered : bool) then
    _ ← modify (fun s => (extend_from_slice data s.1, s.2));
    mret (zlen data)
  else async_send data.

Definition FuseDevWriter_async_write2 (data data2 : bytes) : wprog Z :=
  let len := zlen data + zlen data2 in
  _ ← (fun s => (s, check_available_space s.1 len));
  buffered ← gets (fun s => s.1.(fw_buffered));
  if (buffered : bool) then
    _ ← modify (fun s => (extend_from_slice data2 (extend_from_slice data s.1), s.2));
    mret len
  else async_send (data ++ data2).

Definition FuseDevWriter_async_write3 (data data2 data3 : bytes) : wprog Z :=
  let len := zlen data + zlen data2 + zlen data3 in
  _ ← (fun s => (s, check_available_space s.1 len));
  buffered ← gets (fun s => s.1.(fw_buffered));
  if (buffered : bool) then
    _ ← modify (fun s => (extend_from_slice data3 (extend_from_slice data2 (extend_from_slice data s.1)), s.2));
    mret len
  else async_send (data ++ data2 ++ data3).

(** A round writes everything or fails, so a round per byte is enough. *)
Fixpoint async_write_all_loop (fuel : nat) (buf : bytes) : wprog unit :=
  match buf with
  | [] => mret tt
  | _ =>
    match fuel with
    | O => fail (Simple WriteZero)
    | S fuel' => fun s =>
      match FuseDevWriter_async_write buf s with
      | (s', Ok n) =>
        if n =? 0 then (s', Err (Simple WriteZero))
        else async_write_all_loop fuel' (drop (Z.to_nat n) buf) s'
      | (s', Err e) =>
        match error_kind e with
        | Interrupted => async_write_all_loop fuel' buf s'
        | _ => (s', Err e)
        end
      | (s', Panic) => (s', Panic)
      end
    end
  end.

Definition FuseDevWriter_async_write_all (buf : bytes) : wprog unit := async_write_all_loop (length buf) buf.

(** [async_write_from_at]: the bytes the file gives go to the start of the
    buffer, and the account moves on by their number. *)
Definition FuseDevWriter_async_write_from_at {X} (read_at : Z -> prog X io_error bytes) (count : Z)
  : prog (X * (FuseDevWriter * Dev)) io_error Z := fun '(x, (w, d)) =>
  match check_available_space w count with
  | Err e => ((x, (w, d)), Err e)
  | Panic => ((x, (w, d)), Panic)
  | Ok _ =>
    match read_at count x with
    | (x', Err e) => ((x', (w, d)), Err e)
    | (x', Panic) => ((x', (w, d)), Panic)
    | (x', Ok data) =>
      let w' := account_written (zlen data) (MkFuseDevWriter w.(fw_buffered) (data ++ drop (length data) w.(fw_mem)) w.(fw_len)) in
      if w.(fw_buffered) then ((x', (w', d)), Ok (zlen data))
      else let '(s', o) := do_write (take (length data) w'.(fw_mem)) (w', d) in ((x', s'), o)
    end
  end.

(** [async_commit]: unlike [commit] it sends whatever the account says, split
    or not. *)
Definition FuseDevWriter_async_commit (other : bytes) : wprog Z := fun s =>
  let b := fw_slice s.1 in
  match b, other with
  | [], [] => (s, Ok 0)
  | _, _ => do_write (b ++ other) s
  end.

Abbreviation Wprog := (prog (Writer * Dev) io_error).

Definition Writer_async_write (data : bytes) : Wprog Z :=
  on_fusedev (FuseDevWriter_async_write data) (Err (Os EINVAL)).

Definition Writer_async_write2 (data data2 : bytes) : Wprog Z :=
  on_fusedev (FuseDevWriter_async_write2 data data2) (Err (Os EINVAL)).

Definition Writer_async_write3 (data data2 data3 : bytes) : Wprog Z :=
  on_fusedev (FuseDevWriter_async_write3 data data2 data3) (Err (Os EINVAL)).

Definition Writer_async_write_all (buf : bytes) : Wprog unit :=
  on_fusedev (FuseDevWriter_async_write_all buf) (Err (Os EINVAL)).

Definition Writer_async_commit (other : option Writer) : Wprog Z :=
  on_fusedev (FuseDevWriter_async_commit
                (match other with Some (WFuseDev w) => fw_slice w | _ => [] end)) (Err (Os EINVAL)).
End writer.

(** What [AsyncZcWriter] does with a piece of data from the file system. *)
Definition azc_write (w : Writer) (data : bytes) : Writer :=
  match w with
  | WFuseDev fw =>
    WFuseDev (account_written (zlen data) (MkFuseDevWriter fw.(fw_buffered) (data ++ drop (length data) fw.(fw_mem)) fw.(fw_len)))
  | WNoop => WNoop
  end.

(** ** [AsyncFileSystem]

    [async_read] gives the pieces of data it passed to [async_write_from];
    [async_open] and [async_create] have no backing id. *)
Class AsyncFileSystem (F : Type) : Type := {
  fs_async_lookup : forall (ctx : Context) (parent : Z) (name : CStr), prog F io_error Entry;
  fs_async_getattr : forall (ctx : Context) (inode : Z) (handle : option Z), prog F io_error (stat64 * Duration);
  fs_async_setattr : forall (ctx : Context) (inode : Z) (attr : stat64) (handle : option Z) (valid : Z),
    prog F io_error (stat64 * Duration);
  fs_async_open : forall (ctx : Context) (inode flags fuse_flags : Z), prog F io_error (option Z * Z);
  fs_async_create : forall (ctx : Context) (parent : Z) (name : CStr) (args : CreateIn),
    prog F io_error (Entry * option Z * Z);
  fs_async_read : forall (ctx : Context) (inode handle available size offset : Z)
    (lock_owner : option Z) (flags : Z), F -> F * (list bytes * io_result Z);
  fs_async_write : forall (ctx : Context) (inode handle : Z) (data : bytes) (size offset : Z)
    (lock_owner : option Z) (delayed_write : bool) (flags fuse_flags : Z), prog F io_error Z;
  fs_async_fsync : forall (ctx : Context) (inode : Z) (datasync : bool) (handle : Z), prog F io_error unit;
  fs_async_fallocate : forall (ctx : Context) (inode handle mode offset length : Z), prog F io_error unit;
  fs_async_fsyncdir : forall (ctx : Context) (inode : Z) (datasync : bool) (handle : Z), prog F io_error unit;
}.
#[global] Hint Mode AsyncFileSystem ! : typeclass_instances.

(** ** The server *)

Section server.
Context {F V : Type} {FS : FileSystem F} {AFS : AsyncFileSystem F} {VS : VolatileSlice V} {DEV : FuseDevice}.
Context (mem : Z -> Z) (pagesize : Z).

Abbreviation srv := (prog (world F V) Error).

Definition async_reply_ok (out data : option bytes) : srv Z :=
  let data2 := default [] out in
  let data3 := default [] data in
  let len := size_of OutHeader + zlen data2 + zlen data3 in
  u ← unique;
  let header := as_slice (out_header len 0 u) in
  _ ← match data2, data3 with
      | [], [] => on_writer EncodeMessage (Writer_async_write header)
      | [], _ => on_writer EncodeMessage (Writer_async_write2 header data3)
      | _, [] => on_writer EncodeMessage (Writer_async_write2 header data2)
      | _, _ => on_writer EncodeMessage (Writer_async_write3 header data2 data3)
      end;
  gets (fun s => Writer_bytes_written s.(w_ctx).(sc_w)).

(** [async_do_reply_error]; the flag only selects the log level. *)
Definition async_do_reply_error (err : io_error) (internal_err : bool) : srv Z :=
  u ← unique;
  let header := out_header (size_of OutHeader) (- errno_of err) u in
  _ ← on_writer EncodeMessage (Writer_async_write_all (as_slice header));
  _ ← on_writer EncodeMessage (Writer_async_commit None);
  gets (fun s => Writer_bytes_written s.(w_ctx).(sc_w)).

Definition async_reply_error (err : io_error) : srv Z := async_do_reply_error err false.
Definition async_reply_error_explicit (err : io_error) : srv Z := async_do_reply_error err true.

Definition async_reply_unit (_ : unit) : srv Z := async_reply_ok None None.

Definition async_reply_struct {T} `{ByteValued T} (out : T) : srv Z := async_reply_ok (Some (as_slice out)) None.

Definition async_handle_attr_result (m : prog F io_error (stat64 * Duration)) : srv Z :=
  fs_match m (fun '(st, timeout) => async_reply_struct (AttrOut_of st timeout)) async_reply_error.

(** The error reply to a name that is no string; its outcome is ignored. *)
Definition async_name_of (buf : bytes) : srv CStr :=
  match bytes_to_cstr buf with
  | Ok name => mret name
  | Err e => fun s =>
    let '(s', o) := async_reply_error (Os EINVAL) s in
    (s', match o with Panic => Panic | _ => Err e end)
  | Panic => lift Panic
  end.

Definition async_lookup : srv Z :=
  buf ← get_message_body mem 0;
  name ← async_name_of buf;
  version ← gets (fun s => s.(w_srv).(sv_vers));
  ctx ← get_context;
  parent ← nodeid;
  fs_match (fs_async_lookup ctx parent name)
    (fun entry =>
       if (version.(v_minor) <? KERNEL_MINOR_VERSION_LOOKUP_NEGATIVE_ENTRY_ZERO)
          && (entry.(en_inode) =? 0)
       then async_reply_error (Os ENOENT)
       else async_reply_struct (EntryOut_from entry))
    async_reply_error.

Definition async_getattr : srv Z :=
  i ← r_read_obj mem GetattrIn;
  let handle := if has_flag i.(ga_flags) GETATTR_FH then Some i.(ga_fh) else None in
  ctx ← get_context;
  inode ← nodeid;
  async_handle_attr_result (fs_async_getattr ctx inode handle).

Definition async_setattr : srv Z :=
  setattr_in ← r_read_obj mem SetattrIn;
  let handle := if has_flag setattr_in.(sa_valid) FATTR_FH then Some setattr_in.(sa_fh) else None in
  let valid := from_bits_truncate SetattrValid_all setattr_in.(sa_valid) in
  let st := stat64_from_SetattrIn setattr_in in
  ctx ← get_context;
  inode ← nodeid;
  async_handle_attr_result (fs_async_setattr ctx inode st handle valid).

Definition async_open : srv Z :=
  i ← r_read_obj mem OpenIn;
  ctx ← get_context;
  inode ← nodeid;
  fs_match (fs_async_open ctx inode i.(oi_flags) i.(oi_fuse_flags))
    (fun '(handle, opts) => async_reply_struct (OpenOut_of handle opts None))
    async_reply_error.

(** The header in front of the data in [w2]. *)
Definition async_reply_split (w2 : Writer) (count : Z) : srv Z :=
  u ← unique;
  let out := out_header (size_of OutHeader + count) 0 u in
  _ ← on_writer EncodeMessage (Writer_async_write_all (as_slice out));
  _ ← on_writer EncodeMessage (Writer_async_commit (Some w2));
  mret out.(oh_len).

Definition async_read_reply (i : ReadIn) (owner : option Z) (ctx : Context) (inode : Z) (data_writer : Writer)
  : srv Z := fun s =>
  let '(f', (pieces, res)) :=
    fs_async_read ctx inode i.(rd_fh) (Writer_available_bytes data_writer) i.(rd_size) i.(rd_offset)
                  owner i.(rd_flags) s.(w_srv).(sv_fs) in
  let s' := set_fs f' s in
  match res with
  | Ok count => async_reply_split (foldl azc_write data_writer pieces) count s'
  | Err e => async_reply_error_explicit e s'
  | Panic => (s', Panic)
  end.

Definition async_read : srv Z :=
  i ← r_read_obj mem ReadIn;
  let owner := if has_flag i.(rd_read_flags) READ_LOCKOWNER then Some i.(rd_lock_owner) else None in
  data_writer ← split_header;
  ctx ← get_context;
  inode ← nodeid;
  async_read_reply i owner ctx inode data_writer.

Definition async_write : srv Z :=
  i ← r_read_obj mem WriteIn;
  if MAX_BUFFER_SIZE <? i.(wi_size) then async_reply_error_explicit (Os ENOMEM)
  else
    let owner := if has_flag i.(wi_fuse_flags) WRITE_LOCKOWNER then Some i.(wi_lock_owner) else None in
    let delayed_write := has_flag i.(wi_fuse_flags) WRITE_CACHE in
    data_reader ← take_reader;
    ctx ← get_context;
    inode ← nodeid;
    fs_match (fs_async_write ctx inode i.(wi_fh) (reader_bytes mem data_reader) i.(wi_size) i.(wi_offset) owner
                             delayed_write i.(wi_flags) i.(wi_fuse_flags))
      (fun count => async_reply_struct {| wo_size := wrap 32 count; wo_padding := 0 |})
      async_reply_error_explicit.

Definition async_fsync : srv Z :=
  i ← r_read_obj mem FsyncIn;
  let datasync := has_flag i.(fs_fsync_flags) 0x1 in
  ctx ← get_context;
  inode ← nodeid;
  fs_match (fs_async_fsync ctx inode datasync i.(fs_fh)) async_reply_unit async_reply_error.

Definition async_fsyncdir : srv Z :=
  i ← r_read_obj mem FsyncIn;
  let datasync := has_flag i.(fs_fsync_flags) 0x1 in
  ctx ← get_context;
  inode ← nodeid;
  fs_match (fs_async_fsyncdir ctx inode datasync i.(fs_fh)) async_reply_unit async_reply_error.

Definition async_create : srv Z :=
  args ← r_read_obj mem CreateIn;
  buf ← get_message_body mem (size_of CreateIn);
  name ← async_name_of buf;
  ctx ← get_context;
  parent ← nodeid;
  fs_match (fs_async_create ctx parent name args)
    (fun '(entry, handle, opts) =>
       async_reply_ok (Some (as_slice (create_entry_out entry))) (Some (as_slice (OpenOut_of handle opts None))))
    async_reply_error.

Definition async_fallocate : srv Z :=
  i ← r_read_obj mem FallocateIn;
  ctx ← get_context;
  inode ← nodeid;
  fs_match (fs_async_fallocate ctx inode i.(fa_fh) i.(fa_mode) i.(fa_offset) i.(fa_length))
    async_reply_unit async_reply_error.

Definition async_dispatch (opcode : Z) : srv Z :=
  let is_op op := opcode =? Opcode_value op in
  if is_op OpLookup then async_lookup
  else if is_op OpForget then forget mem
  else if is_op OpGetattr then async_getattr
  else if is_op OpSetattr then async_setattr
  else if is_op OpReadlink then readlink
  else if is_op OpSymlink then symlink mem
  else if is_op OpMknod then mknod mem
  else if is_op OpMkdir then mkdir mem
  else if is_op OpUnlink then unlink mem
  else if is_op OpRmdir then rmdir mem
  else if is_op OpRename then rename mem
  else if is_op OpLink then link mem
  else if is_op OpOpen then async_open
  else if is_op OpRead then async_read
  else if is_op OpWrite then async_write
  else if is_op OpStatfs then statfs
  else if is_op OpRelease then release mem
  else if is_op OpFsync then async_fsync
  else if is_op OpSetxattr then setxattr mem
  else if is_op OpGetxattr then getxattr mem
  else if is_op OpListxattr then listxattr mem
  else if is_op OpRemovexattr then removexattr mem
  else if is_op OpFlush then flush mem
  else if is_op OpInit then init mem pagesize
  else if is_op OpOpendir then opendir mem
  else if is_op OpReaddir then readdir mem
  else if is_op OpReleasedir then releasedir mem
  else if is_op OpFsyncdir then async_fsyncdir
  else if is_op OpGetlk then getlk mem
  else if is_op OpSetlk then setlk mem
  else if is_op OpSetlkw then setlkw mem
  else if is_op OpAccess then access mem
  else if is_op OpCreate then async_create
  else if is_op OpBmap then bmap mem
  else if is_op OpIoctl then ioctl mem
  else if is_op OpPoll then poll mem
  else if is_op OpNotifyReply then notify_reply
  else if is_op OpBatchForget then batch_forget mem
  else if is_op OpFallocate then async_fallocate
  else if is_op OpReaddirplus then readdirplus mem
  else if is_op OpRename2 then rename2 mem
  else if is_op OpLseek then lseek mem
  else if is_op OpInterrupt then _ ← interrupt; mret 0
  else if is_op OpDestroy then _ ← destroy; mret 0
  else async_reply_error (Os ENOSYS).

(** The checks of [async_handle_message]: the ids of the context are not
    remapped here. *)
Definition async_handle_request : srv Z :=
  in_header ← get_header;
  available ← gets (fun s => Writer_available_bytes s.(w_ctx).(sc_w));
  if (MAX_BUFFER_SIZE + BUFFER_HEADER_SIZE <? in_header.(ih_len)) || (available <? size_of OutHeader)
  then async_do_reply_error (Os ENOMEM) true
  else async_dispatch in_header.(ih_opcode).

Definition async_handle_message (r : Reader V) (w : Writer) : prog (Server F * Dev) Error Z :=
  fun '(srv, dev) =>
    match read_obj mem InHeader r with
    | (r', Ok in_header) =>
      let '(s', o) := async_handle_request (MkWorld srv (SrvContext_new in_header r' w) dev) in
      ((s'.(w_srv), s'.(w_dev)), o)
    | (_, Err e) => ((srv, dev), Err (DecodeMessage e))
    | (_, Panic) => ((srv, dev), Panic)
    end.
End server.

(** * Properties *)

(** Two outcomes that are the same but for the error. *)
Definition alike {E A} (o1 o2 : outcome E A) : Prop :=
  match o1, o2 with
  | Ok a, Ok b => a = b
  | Err _, Err _ | Panic, Panic => True
  | _, _ => False
  end.

(** ** The writers *)

Section writer_facts.
Context {DEV : FuseDevice}.

Lemma async_write2_eq d1 d2 s :
  d1 <> [] -> d2 <> [] -> FuseDevWriter_async_write2 d1 d2 s = FuseDevWriter_write_vectored [d1; d2] s.
Proof.
  intros H1 H2. destruct s as [w d]. unfold FuseDevWriter_async_write2, FuseDevWriter_write_vectored, mbind, prog_mbind, prog_bind. cbn [foldl fst].
  rewrite Z.add_0_l. destruct (check_available_space w _); [|done..]. unfold gets. cbn [fst]. destruct (fw_buffered w); [|cbn [concat]; by rewrite app_nil_r].
  unfold extend_all. cbn [List.filter]. rewrite !(proj2 (beq_false _ _)) by done. cbn. by rewrite Z.add_0_l.
Qed.

Lemma async_write3_eq d1 d2 d3 s :
  d1 <> [] -> d2 <> [] -> d3 <> [] -> FuseDevWriter_async_write3 d1 d2 d3 s = FuseDevWriter_write_vectored [d1; d2; d3] s.
Proof.
  intros H1 H2 H3. destruct s as [w d]. unfold FuseDevWriter_async_write3, FuseDevWriter_write_vectored, mbind, prog_mbind, prog_bind. cbn [foldl fst].
  rewrite Z.add_0_l. destruct (check_available_space w _); [|done..]. unfold gets. cbn [fst]. destruct (fw_buffered w); [|cbn [concat]; by rewrite app_nil_r].
  unfold extend_all. cbn [List.filter]. rewrite !(proj2 (beq_false _ _)) by done. cbn. by rewrite Z.add_0_l.
Qed.

Lemma async_commit_buffered w d other :
  w.(fw_buffered) = true ->
  (FuseDevWriter_async_commit other (w, d)).1 = (FuseDevWriter_commit other (w, d)).1 /\
  alike (FuseDevWriter_commit other (w, d)).2 (FuseDevWriter_async_commit other (w, d)).2.
Proof.
  intros Hb. unfold FuseDevWriter_async_commit, FuseDevWriter_commit. cbn [fst]. rewrite Hb. cbn [negb].
  assert (forall m, (do_write m (w, d)).1 = (let '(s', o) := on_dev (dev_write m) (w, d) in (s', map_err Os o)).1 /\
    alike (let '(s', o) := on_dev (dev_write m) (w, d) in (s', map_err Os o)).2 (do_write m (w, d)).2) as Hs.
  { intros m. unfold do_write, on_dev, dev_write. by destruct (dev_answer d m). }
  destruct (fw_slice w), other; (done || apply Hs).
Qed.
End writer_facts.

Lemma out_header_nonempty len error u : as_slice (out_header len error u) <> [].
Proof. done. Qed.

Section server_facts.
Context {F V : Type} {FS : FileSystem F} {AFS : AsyncFileSystem F} {VS : VolatileSlice V} {DEV : FuseDevice}.
Context (mem : Z -> Z) (pagesize : Z).
Implicit Types (s : world F V).

Lemma async_reply_ok_eq out data s : async_reply_ok out data s = reply_ok out data s.
Proof.
  unfold async_reply_ok, reply_ok, mbind, prog_mbind, prog_bind, unique, gets. cbv beta iota zeta.
  pose proof (out_header_nonempty (size_of OutHeader + zlen (default [] out) + zlen (default [] data)) 0 (ih_unique (sc_in_header (w_ctx s)))) as Hh.
  destruct (default [] out) as [|a l], (default [] data) as [|b k]; [done|..]; unfold on_writer, Writer_write_vectored, on_fusedev, Writer_async_write2, Writer_async_write3, on_fusedev;
    destruct (sc_w (w_ctx s)); (done || by rewrite ?async_write2_eq, ?async_write3_eq by done).
Qed.

(** ** Comparing two servers

    Both start in one state, with a reply writer that was not split yet. *)

Definition unsent (s : world F V) : Prop :=
  exists fw, s.(w_ctx).(sc_w) = WFuseDev fw /\ fresh fw /\ size_of OutHeader <= fw_capacity fw.

(** What the reply buffer holds from before. *)
Definition leftover (s : world F V) : bytes :=
  match s.(w_ctx).(sc_w) with WFuseDev fw => take (Z.to_nat (size_of OutHeader)) fw.(fw_mem) | WNoop => [] end.

Definition error_message (e : io_error) (u : Z) : bytes := as_slice (out_header (size_of OutHeader) (- errno_of e) u).

(** The second run does what the first does, or both answer with an error
    and the second sends the leftovers after it. *)
Definition follows {A} (s : world F V) (r1 r2 : world F V * outcome Error A) : Prop :=
  r1.1.(w_srv) = r2.1.(w_srv) /\
  (r1.1.(w_dev) = r2.1.(w_dev) /\ alike r1.2 r2.2 \/
   exists e u, r1.1.(w_dev) = s.(w_dev) ++ [error_message e u] /\
     r2.1.(w_dev) = s.(w_dev) ++ [error_message e u; leftover s] /\ r1.2 <> Panic /\
     (r2.2 = r1.2 \/
      (exists c, dev_answer (s.(w_dev) ++ [error_message e u]) (leftover s) = inl c) /\ r2.2 = Err (EncodeMessage (Simple Other)))).

Lemma follows_refl {A} s (r : world F V * outcome Error A) : follows s r r.
Proof. split; [done|]. left. by destruct r.2. Qed.

Lemma follows_eq {A} s (r1 r2 : world F V * outcome Error A) : r2 = r1 -> follows s r1 r2.
Proof. intros ->. apply follows_refl. Qed.

(** Steps that touch neither the writer nor the device. *)
Definition untouched {A} (m : prog (world F V) Error A) : Prop :=
  forall s, (m s).1.(w_ctx).(sc_w) = s.(w_ctx).(sc_w) /\ (m s).1.(w_dev) = s.(w_dev).

Lemma follows_from {A} s s' (r1 r2 : world F V * outcome Error A) :
  s'.(w_ctx).(sc_w) = s.(w_ctx).(sc_w) -> s'.(w_dev) = s.(w_dev) -> follows s' r1 r2 -> follows s r1 r2.
Proof. intros Hw Hd. unfold follows, leftover. by rewrite Hw, Hd. Qed.

Lemma follows_bind {A B} (m : prog (world F V) Error A) (k1 k2 : A -> prog (world F V) Error B) s :
  untouched m -> unsent s -> (forall a s', m s = (s', Ok a) -> unsent s' -> follows s' (k1 a s') (k2 a s')) -> follows s ((m ≫= k1) s) ((m ≫= k2) s).
Proof.
  intros Hm Hs Hk. destruct (Hm s) as [Hw Hd]. unfold mbind, prog_mbind, prog_bind.
  destruct (m s) as [s' [a|e|]]; cbn in Hw, Hd; [|apply follows_refl..].
  apply (follows_from s s'); [done..|]. apply Hk; [done|]. unfold unsent. by rewrite Hw.
Qed.

Lemma follows_fs_match {A B} (m1 m2 : prog F io_error A) (ok1 ok2 : A -> prog (world F V) Error B) err1 err2 s :
  (forall f, m2 f = m1 f) -> unsent s ->
  (forall a s', unsent s' -> follows s' (ok1 a s') (ok2 a s')) -> (forall e s', unsent s' -> follows s' (err1 e s') (err2 e s')) ->
  follows s (fs_match m1 ok1 err1 s) (fs_match m2 ok2 err2 s).
Proof.
  intros Hm Hs Hok Herr. unfold fs_match. rewrite Hm. destruct (m1 _) as [f' [a|e|]]; [| |apply follows_refl];
    (apply (follows_from s (set_fs f' s)); [done..|]); [by apply Hok|by apply Herr].
Qed.

Lemma untouched_gets {A} (f : world F V -> A) : untouched (gets f).
Proof. done. Qed.

Lemma untouched_on_reader {A} (m : prog (Reader V) io_error A) : untouched (on_reader m).
Proof. intros s. unfold on_reader. by destruct (m _). Qed.

Lemma untouched_bind {A B} (m : prog (world F V) Error A) (k : A -> prog (world F V) Error B) :
  untouched m -> (forall a, untouched (k a)) -> untouched (m ≫= k).
Proof.
  intros Hm Hk s. destruct (Hm s) as [Hw Hd]. unfold mbind, prog_mbind, prog_bind. destruct (m s) as [s' [a|e|]]; cbn in *; [|done..].
  destruct (Hk a s') as [Hw' Hd']. by rewrite Hw', Hd'.
Qed.

Lemma untouched_body n : untouched (get_message_body mem n).
Proof.
  apply untouched_bind; [apply untouched_gets|]. intros h. apply untouched_bind; [|intros; apply untouched_on_reader]. intros s. done.
Qed.

(** An error reply: the message, and the leftovers after it. *)
Lemma follows_error `{!FuseDeviceOk} e b b' s : unsent s -> follows s (do_reply_error e b s) (async_do_reply_error e b' s).
Proof.
  intros (fw & Hw & Hf & Hcap). pose proof Hf as [Hb Hl]. unfold follows, leftover. rewrite Hw.
  unfold do_reply_error, async_do_reply_error, mbind, prog_mbind, prog_bind, unique, gets. cbv beta iota zeta.
  unfold on_writer. rewrite Hw. unfold Writer_write_all, Writer_async_write_all, on_fusedev.
  change (@FuseDevWriter_async_write_all DEV) with (@FuseDevWriter_write_all DEV).
  fold (error_message e (ih_unique (sc_in_header (w_ctx s)))). set (msg := error_message e _).
  assert (zlen msg = size_of OutHeader) as Hlen by done.
  rewrite write_all_fresh by done. rewrite (proj2 (Z.ltb_ge _ _)) by lia.
  destruct (dev_answer (w_dev s) msg) as [c|n] eqn:Ha; [cbn; split; [done|]; by left|]. apply dev_answer_whole in Ha as ->.
  cbn [map_err]. unfold Writer_commit, Writer_async_commit, on_fusedev. cbn [w_ctx w_dev sc_w].
  unfold FuseDevWriter_commit, FuseDevWriter_async_commit. cbn [fst].
  assert (fw_slice (account_written (zlen msg) fw) = take (Z.to_nat (size_of OutHeader)) fw.(fw_mem)) as Hslice
    by (unfold fw_slice, account_written; cbn [fw_len fw_mem]; by rewrite Hl, Z.add_0_l, Hlen).
  rewrite Hslice, app_nil_r. set (rest := take _ fw.(fw_mem)).
  assert (rest <> []) as Hne.
  { intros E. apply (f_equal zlen) in E. unfold rest, zlen in E. rewrite length_take in E. unfold fw_capacity, zlen in Hcap. cbn in E.
    change (size_of OutHeader) with 16 in *. lia. }
  destruct rest as [|x l]; [done|]. unfold do_write, on_dev, dev_write. cbn [map_err].
  destruct (dev_answer (w_dev s ++ [msg]) (x :: l)) as [c|n] eqn:Ha2; cbn -[error_message]; rewrite Hb; cbn -[error_message];
    (split; [done|]; right; exists e, (ih_unique (sc_in_header (w_ctx s))); fold msg; (split; [reflexivity|]); (split; [rewrite <- app_assoc; reflexivity|]); (split; [discriminate|])).
  - right. split; [by exists c|done].
  - by left.
Qed.

Lemma follows_name `{!FuseDeviceOk} {B} buf (k1 k2 : CStr -> prog (world F V) Error B) s :
  unsent s -> (forall name s', unsent s' -> follows s' (k1 name s') (k2 name s')) ->
  follows s ((name_of buf ≫= k1) s) ((async_name_of buf ≫= k2) s).
Proof.
  intros Hs Hk. unfold name_of, async_name_of. destruct (bytes_to_cstr buf) as [name|e|]; [by apply Hk| |apply follows_refl].
  pose proof (follows_error (Os EINVAL) true false s Hs) as He. unfold mbind, prog_mbind, prog_bind, reply_error_explicit, async_reply_error.
  destruct (do_reply_error (Os EINVAL) true s) as [s1 o1], (async_do_reply_error (Os EINVAL) false s) as [s2 o2].
  destruct He as [Hsrv [[Hdev Ho]|(e' & u & H1 & H2 & H3 & H4)]]; cbn in *.
  - destruct o1, o2; try done; (split; [done|]; by left).
  - destruct o1; [..|done]; destruct o2; try done; (split; [done|]); right; exists e', u; (split; [done|]); (split; [done|]);
      (split; [done|]); try (by left); destruct H4 as [?|[? ?]]; done.
Qed.

(** ** Replies in two parts *)

(** The end of a reply: the header, then both parts are sent. *)
Definition send_parts {A} (header : bytes) (other : option Writer) (a : world F V -> A) : prog (world F V) Error A :=
  _ ← on_writer EncodeMessage (Writer_write_all header);
  _ ← on_writer EncodeMessage (Writer_commit other);
  gets a.

Definition async_send_parts {A} (header : bytes) (other : option Writer) (a : world F V -> A) : prog (world F V) Error A :=
  _ ← on_writer EncodeMessage (Writer_async_write_all header);
  _ ← on_writer EncodeMessage (Writer_async_commit other);
  gets a.

Lemma follows_parts {A} header other (a : world F V -> A) s fw :
  s.(w_ctx).(sc_w) = WFuseDev fw -> fw.(fw_buffered) = true -> writer_ok fw ->
  forall s0, follows s0 (send_parts header other a s) (async_send_parts header other a s).
Proof.
  intros Hw Hb Hok s0. unfold send_parts, async_send_parts, mbind, prog_mbind, prog_bind, on_writer. rewrite Hw.
  unfold Writer_write_all, Writer_async_write_all, on_fusedev. change (@FuseDevWriter_async_write_all DEV) with (@FuseDevWriter_write_all DEV).
  rewrite write_all_buffered by done. destruct (FuseDevWriter_available_bytes fw <? zlen header); [apply follows_refl|].
  cbn [map_err w_ctx w_dev sc_w]. unfold Writer_commit, Writer_async_commit, on_fusedev.
  set (o := match other with Some (WFuseDev w) => fw_slice w | _ => [] end).
  destruct (async_commit_buffered (extend_from_slice header fw) (w_dev s) o Hb) as [Hst Hres].
  destruct (FuseDevWriter_async_commit o _) as [[w1 d1] r1], (FuseDevWriter_commit o _) as [[w2 d2] r2]. cbn in Hst, Hres.
  injection Hst as -> ->. destruct r1, r2; try done; cbn; (split; [done|]; by left).
Qed.
End server_facts.

(** ** File systems whose asynchronous methods do what the others do *)

Class AsyncAgrees (F : Type) `{FileSystem F} `{!AsyncFileSystem F} : Prop := {
  ag_remap : forall (f : F) ctx, fs_id_remap (f, ctx) = ((f, ctx), Ok tt);
  ag_lookup : forall ctx parent name (f : F), fs_async_lookup ctx parent name f = fs_op (op_lookup ctx parent name) f;
  ag_getattr : forall ctx inode handle (f : F), fs_async_getattr ctx inode handle f = fs_op (op_getattr ctx inode handle) f;
  ag_setattr : forall ctx inode attr handle valid (f : F),
    fs_async_setattr ctx inode attr handle valid f = fs_op (op_setattr ctx inode attr handle valid) f;
  ag_open : forall ctx inode flags fuse_flags (f : F),
    fs_op (op_open ctx inode flags fuse_flags) f =
    let '(f', o) := fs_async_open ctx inode flags fuse_flags f in (f', outcome_map (fun '(h, opts) => (h, opts, None)) o);
  ag_create : forall ctx parent name args (f : F),
    fs_op (op_create ctx parent name args) f =
    let '(f', o) := fs_async_create ctx parent name args f in (f', outcome_map (fun '(e, h, opts) => (e, h, opts, None)) o);
  ag_read : forall ctx inode handle available size offset lock_owner flags (f : F),
    let '(f', (data, res)) := fs_read ctx inode handle available size offset lock_owner flags f in
    exists pieces, fs_async_read ctx inode handle available size offset lock_owner flags f = (f', (pieces, res)) /\
      (pieces = [data] \/ data = [] /\ pieces = []);
  ag_write : forall ctx inode handle data size offset lock_owner delayed flags fuse_flags (f : F),
    fs_async_write ctx inode handle data size offset lock_owner delayed flags fuse_flags f =
    fs_write ctx inode handle data size offset lock_owner delayed flags fuse_flags f;
  ag_fsync : forall ctx inode datasync handle (f : F), fs_async_fsync ctx inode datasync handle f = fs_op (op_fsync ctx inode datasync handle) f;
  ag_fallocate : forall ctx inode handle mode offset length (f : F),
    fs_async_fallocate ctx inode handle mode offset length f = fs_op (op_fallocate ctx inode handle mode offset length) f;
  ag_fsyncdir : forall ctx inode datasync handle (f : F),
    fs_async_fsyncdir ctx inode datasync handle f = fs_op (op_fsyncdir ctx inode datasync handle) f;
}.

Section handlers.
Context {F V : Type} {FS : FileSystem F} {AFS : AsyncFileSystem F} {AG : AsyncAgrees F}.
Context {VS : VolatileSlice V} {DEV : FuseDevice} {DOK : FuseDeviceOk}.
Context (mem : Z -> Z) (pagesize : Z).
Implicit Types (s : world F V).

(** One step: a part both servers share, a name, a call of the file system, or
    the reply. *)
Ltac follow :=
  cbv beta zeta;
  lazymatch goal with
  | |- follows _ ((name_of _ ≫= _) _) _ => apply follows_name; [assumption|intros ? ? ?]
  | |- follows _ ((_ ≫= _) _) _ =>
      apply follows_bind; [first [apply untouched_gets|apply untouched_on_reader|apply untouched_body]|assumption|intros ? ? _ ?]
  | |- follows _ (fs_match _ _ _ _) _ =>
      apply follows_fs_match; [intros ?; first [apply ag_lookup|apply ag_getattr|apply ag_setattr|apply ag_write
        |apply ag_fsync|apply ag_fallocate|apply ag_fsyncdir]|assumption|intros ? ? ?..]
  | |- follows _ (reply_error _ _) _ =>
      unfold reply_error, async_reply_error, async_reply_error_explicit; refine (follows_error _ _ _ _ _); assumption
  | |- follows _ (reply_struct _ _) _ => refine (follows_eq _ _ _ (async_reply_ok_eq _ _ _))
  | |- follows _ (reply_unit _ _) _ => refine (follows_eq _ _ _ (async_reply_ok_eq _ _ _))
  | |- follows _ (reply_ok _ _ _) _ => refine (follows_eq _ _ _ (async_reply_ok_eq _ _ _))
  end.

Lemma follows_lookup s : unsent s -> follows s (lookup mem s) (async_lookup mem s).
Proof. intros Hs. unfold lookup, async_lookup. repeat follow. case_match; follow. Qed.

Lemma follows_getattr s : unsent s -> follows s (getattr mem s) (async_getattr mem s).
Proof. intros Hs. unfold getattr, async_getattr, handle_attr_result, async_handle_attr_result. repeat follow. case_match; follow. Qed.

Lemma follows_setattr s : unsent s -> follows s (setattr mem s) (async_setattr mem s).
Proof. intros Hs. unfold setattr, async_setattr, handle_attr_result, async_handle_attr_result. repeat follow. case_match; follow. Qed.

Lemma follows_fsync s : unsent s -> follows s (fsync mem s) (async_fsync mem s).
Proof. intros Hs. unfold fsync, async_fsync. repeat follow. Qed.

Lemma follows_fsyncdir s : unsent s -> follows s (fsyncdir mem s) (async_fsyncdir mem s).
Proof. intros Hs. unfold fsyncdir, async_fsyncdir. repeat follow. Qed.

Lemma follows_fallocate s : unsent s -> follows s (fallocate mem s) (async_fallocate mem s).
Proof. intros Hs. unfold fallocate, async_fallocate. repeat follow. Qed.

Lemma follows_open s : unsent s -> follows s (open mem s) (async_open mem s).
Proof.
  intros Hs. unfold open, async_open. repeat follow. unfold fs_match. rewrite ag_open.
  destruct (fs_async_open _ _ _ _ _) as [f' [[h opts]|e|]]; cbn [outcome_map]; [| |apply follows_refl];
    (eapply (follows_from _ (set_fs f' _)); [done..|]); follow.
Qed.

Lemma follows_create s : unsent s -> follows s (create mem s) (async_create mem s).
Proof.
  intros Hs. unfold create, async_create. repeat follow. unfold fs_match. rewrite ag_create.
  destruct (fs_async_create _ _ _ _ _) as [f' [[[en h] opts]|e|]]; cbn [outcome_map]; [| |apply follows_refl];
    (eapply (follows_from _ (set_fs f' _)); [done..|]); follow.
Qed.

(** A WRITE that the asynchronous server does not refuse for its size. *)
Definition small_write s : Prop :=
  match r_read_obj mem WriteIn s with (_, Ok i) => i.(wi_size) <= MAX_BUFFER_SIZE | _ => True end.

Lemma follows_write s : unsent s -> small_write s -> follows s (write mem s) (async_write mem s).
Proof.
  intros Hs Hsmall. unfold write, async_write, small_write in *. apply follows_bind; [apply untouched_on_reader|done|].
  intros i s' E Hs'. rewrite E in Hsmall. rewrite (proj2 (Z.ltb_ge _ _)) by lia. cbv zeta. apply follows_bind; [by intros s0|done|].
  intros r s1 _ Hs1. repeat follow.
Qed.

(** The pieces a file system gives are where the synchronous one puts them. *)
Lemma azc_write_fresh fw data : fw.(fw_len) = 0 -> azc_write (WFuseDev fw) data = zc_append data (WFuseDev fw).
Proof.
  intros Hl. unfold azc_write, zc_append, extend_from_slice, account_written, fw_store. cbn [fw_buffered fw_mem fw_len].
  rewrite Hl, Z.add_0_l. unfold zlen. by rewrite Nat2Z.id.
Qed.

Lemma follows_read s : unsent s -> follows s (read mem s) (async_read mem s).
Proof.
  intros Hs. unfold read, async_read. follow. destruct H as (fw & Hw & [Hb Hl] & Hcap). cbv zeta.
  set (w1 := MkFuseDevWriter true (take (Z.to_nat (size_of OutHeader)) fw.(fw_mem)) 0).
  set (w2 := MkFuseDevWriter true (drop (Z.to_nat (size_of OutHeader)) fw.(fw_mem)) 0).
  assert (split_header s' = (set_writer (WFuseDev w1) s', Ok (WFuseDev w2))) as Hsplit.
  { unfold split_header, Writer_split_at. rewrite Hw, split_fresh by done. by rewrite (proj2 (Z.ltb_ge _ _)) by done. }
  rewrite !(prog_bind_ok _ _ _ _ _ Hsplit). set (s1 := set_writer (WFuseDev w1) s').
  unfold get_context, nodeid. rewrite !(prog_bind_ok (gets _) _ s1 s1 _ eq_refl). unfold read_reply, async_read_reply.
  pose proof (ag_read (sc_context (w_ctx s1)) (ih_nodeid (sc_in_header (w_ctx s1))) (rd_fh a) (Writer_available_bytes (WFuseDev w2)) (rd_size a)
    (rd_offset a) (if has_flag (rd_read_flags a) READ_LOCKOWNER then Some (rd_lock_owner a) else None) (rd_flags a) (sv_fs (w_srv s1))) as Hread.
  destruct (fs_read _ _ _ _ _ _ _ _ _) as [f' [data res]]. destruct Hread as (pieces & -> & Hp).
  assert (writer_ok w1) as Hok by (split; cbn; [done|apply zlen_nonneg]).
  destruct res as [count|e|]; [| |apply follows_refl].
  - assert (foldl azc_write (WFuseDev w2) pieces = zc_append data (WFuseDev w2)) as ->.
    { destruct Hp as [->|[-> ->]]; [by apply azc_write_fresh|]. cbn. rewrite extend_nil; [done|]. split; cbn; [done|apply zlen_nonneg]. }
    exact (follows_parts _ _ (fun _ => oh_len (out_header (size_of OutHeader + count) 0 (ih_unique (sc_in_header (w_ctx s1))))) (set_fs f' s1) w1 eq_refl eq_refl Hok s').
  - exact (follows_parts _ None (fun s => Writer_bytes_written s.(w_ctx).(sc_w)) (set_fs f' s1) w1 eq_refl eq_refl Hok s').
Qed.

Lemma follows_dispatch opcode s :
  unsent s -> (opcode = Opcode_value OpWrite -> small_write s) -> follows s (dispatch mem pagesize opcode s) (async_dispatch mem pagesize opcode s).
Proof.
  intros Hs Hsmall. unfold dispatch, async_dispatch.
  repeat lazymatch goal with
  | |- follows _ ((if ?b then _ else _) _) ((if ?b then _ else _) _) => destruct b eqn:?
  end;
  first [apply follows_lookup|apply follows_getattr|apply follows_setattr|apply follows_open|apply follows_read|apply follows_fsync
    |apply follows_fsyncdir|apply follows_create|apply follows_fallocate|apply follows_refl|idtac]; try assumption.
  - apply follows_write; [done|]. apply Hsmall. by apply Z.eqb_eq.
  - unfold reply_error, async_reply_error. by apply follows_error.
Qed.
End handlers.

(** C11: the asynchronous server is the synchronous one.  Over a file system
    whose asynchronous methods do what the synchronous ones do and that maps no
    ids, both servers take a request whose length is within the limit and which
    is no WRITE of more than 1 MiB from the same state to the same file system.
    They send the same messages and both succeed or both fail, with one exception:
    where the synchronous server answers with an error on the writer it was
    given, the asynchronous one sends the first 16 bytes the reply buffer had
    before as a second message, and fails when the device refuses that. *)
Theorem async_server_equivalent {F V : Type} `{FS : FileSystem F} `{AFS : !AsyncFileSystem F} `{AG : !AsyncAgrees F}
    `{VS : VolatileSlice V} `{DOK : FuseDeviceOk} (mem : Z -> Z) (pagesize : Z) (r : Reader V) (fw : FuseDevWriter)
    (srv : Server F) (dev : Dev) :
  fresh fw -> size_of OutHeader <= fw_capacity fw ->
  (forall r' h, read_obj mem InHeader r = (r', Ok h) ->
    h.(ih_len) <= MAX_BUFFER_SIZE + BUFFER_HEADER_SIZE /\
    (h.(ih_opcode) = Opcode_value OpWrite ->
     match read_obj mem WriteIn r' with (_, Ok i) => i.(wi_size) <= MAX_BUFFER_SIZE | _ => True end)) ->
  let '((srv1, dev1), o1) := handle_message mem pagesize r (WFuseDev fw) (srv, dev) in
  let '((srv2, dev2), o2) := async_handle_message mem pagesize r (WFuseDev fw) (srv, dev) in
  let stray := take (Z.to_nat (size_of OutHeader)) fw.(fw_mem) in
  srv1 = srv2 /\
  (dev1 = dev2 /\ alike o1 o2 \/
   exists e u, dev1 = dev ++ [error_message e u] /\ dev2 = dev ++ [error_message e u; stray] /\ o1 <> Panic /\
     (o2 = o1 \/ (exists c, dev_answer (dev ++ [error_message e u]) stray = inl c) /\ o2 = Err (EncodeMessage (Simple Other)))).
Proof.
  intros Hf Hcap Hreq. unfold handle_message, async_handle_message.
  destruct (read_obj mem InHeader r) as [r' [h|e|]]; [|split; [done|]; by left..].
  destruct (Hreq r' h eq_refl) as [Hlen Hw]. set (s := MkWorld srv (SrvContext_new h r' (WFuseDev fw)) dev).
  assert (unsent s) as Hs by (by exists fw).
  assert (handle_request mem pagesize s = dispatch mem pagesize (ih_opcode h) s) as ->.
  { unfold handle_request, mbind, prog_mbind, prog_bind, id_remap. cbn [w_srv w_ctx s]. rewrite ag_remap.
    cbn -[dispatch MAX_BUFFER_SIZE BUFFER_HEADER_SIZE]. rewrite (proj2 (Z.ltb_ge _ _)) by done. unfold s. by destruct srv. }
  assert (async_handle_request mem pagesize s = async_dispatch mem pagesize (ih_opcode h) s) as ->.
  { unfold async_handle_request, get_header. rewrite !(prog_bind_ok (gets _) _ s s _ eq_refl).
    destruct Hf as [_ Hl]. unfold s at 1 2. cbn [w_ctx sc_in_header sc_w SrvContext_new Writer_available_bytes].
    unfold FuseDevWriter_available_bytes. rewrite Hl, Z.sub_0_r, !(proj2 (Z.ltb_ge _ _)) by done. done. }
  assert (ih_opcode h = Opcode_value OpWrite -> small_write mem s) as Hsmall.
  { intros E. specialize (Hw E). unfold small_write, r_read_obj, on_reader. cbn [w_ctx sc_r s SrvContext_new].
    by destruct (read_obj mem WriteIn r') as [? []]. }
  pose proof (follows_dispatch mem pagesize (ih_opcode h) s Hs Hsmall) as Hd.
  destruct (dispatch mem pagesize (ih_opcode h) s) as [s1 o1], (async_dispatch mem pagesize (ih_opcode h) s) as [s2 o2]. exact Hd.
Qed.

(** The file system of default methods, asynchronously. *)
#[global] Instance NullFs_async : AsyncFileSystem NullFs := {|
  fs_async_lookup ctx parent name := fs_op (op_lookup ctx parent name);
  fs_async_getattr ctx inode handle := fs_op (op_getattr ctx inode handle);
  fs_async_setattr ctx inode attr handle valid := fs_op (op_setattr ctx inode attr handle valid);
  fs_async_open ctx inode flags fuse_flags := mret (None, empty_flags);
  fs_async_create ctx parent name args := fail (Os ENOSYS);
  fs_async_read ctx inode handle available size offset lock_owner flags f := (f, ([], Err (Os ENOSYS)));
  fs_async_write := default_write;
  fs_async_fsync ctx inode datasync handle := fs_op (op_fsync ctx inode datasync handle);
  fs_async_fallocate ctx inode handle mode offset length := fs_op (op_fallocate ctx inode handle mode offset length);
  fs_async_fsyncdir ctx inode datasync handle := fs_op (op_fsyncdir ctx inode datasync handle);
|}.

#[global] Instance NullFs_agrees : AsyncAgrees NullFs.
Proof. split; try done. intros. cbn. exists []. auto. Qed.

(** A LOOKUP that fails: one message from one server, two from the other. *)
Lemma async_server_equivalent_witness :
  let run (serve : forall (mem : Z -> Z) (pagesize : Z) (r : Reader RawSlice) (w : Writer), prog (Server NullFs * Dev) Error Z) :=
    (serve (mem_of example_request) 4096 (reader_of example_request) (WFuseDev example_writer) (Server_new MkNullFs, [])).1.2 in
  length (run (handle_message (DEV := accepting_device))) = 1%nat /\
  exists msg, run (handle_message (DEV := accepting_device)) = [msg] /\
    run (async_handle_message (DEV := accepting_device)) = [msg; repeat 0 16].
Proof.
  pose proof (async_server_equivalent (DOK := accepting_device_ok) (mem_of example_request) 4096 (reader_of example_request) example_writer
    (Server_new MkNullFs) [] ltac:(done) ltac:(done)) as Heq.
  cbv zeta. split; [vm_compute; reflexivity|].
  destruct (handle_message _ _ _ _ _) as [[srv1 dev1] o1] eqn:E1, (async_handle_message _ _ _ _ _) as [[srv2 dev2] o2] eqn:E2.
  destruct Heq as (_ & [[Hdev _]|(e & u & H1 & H2 & _)]).
  - intros r' h Hh. vm_compute in Hh. injection Hh as <- <-. split; [by vm_compute|intros Hop; vm_compute in Hop; discriminate Hop].
  - exfalso. vm_compute in E1, E2. injection E1 as <- <- <-. injection E2 as <- <- <-. discriminate Hdev.
  - cbn [fst snd]. rewrite H1, H2. by eexists.
Defined.
