(* ===== verification/VfsAsync.v ===== *)
(** * [impl AsyncFileSystem for Vfs] ([src/api/vfs/async_io.rs])

    The asynchronous methods of the union file system find the file system of an
    inode and await the same method there; the pseudo file system has only
    synchronous ones.  The theorem compares them with the methods of
    [src/api/vfs/sync_io.rs]. *)

From S2P Require Import Prelude Std Lib Codec Abi AbiStruct FsTypes FileSystem PseudoFs Vfs VfsFs VfsClaims ServerAsync.

Section vfs_async.
Context {B : Type} {BE : BackendFileSystem B} {AB : AsyncFileSystem B} {CK : Clock}.

Abbreviation vprog := (prog (Vfs B) io_error).

(** A call on the backend at an index. *)
Definition on_backend {A} (idx : Z) (m : prog B io_error A) : vprog A := fun v =>
  match v.(superblocks) !! idx with
  | Some b => let '(b', o) := m b in (with_superblocks (<[idx := b']> v.(superblocks)) v, o)
  | None => (v, Panic)
  end.

Definition vfs_async_lookup (ctx : Context) (parent : Z) (name : CStr) : vprog Entry :=
  if contains SLASH_ASCII (to_bytes_with_nul name) then fail (Os EINVAL)
  else with_real parent (fun e idata =>
    match e with
    | PseudoLeft => fun v => (v, lookup_pseudo v idata name)
    | BackRight idx =>
      entry ← on_backend idx (fs_async_lookup ctx (VfsInode_ino idata) name);
      converted idata entry
    end).

Definition vfs_async_getattr (ctx : Context) (inode : Z) (handle : option Z) : vprog (stat64 * Duration) :=
  with_real inode (fun e idata =>
    match e with
    | PseudoLeft => on_fs e (op_getattr ctx (VfsInode_ino idata) handle)
    | BackRight idx => on_backend idx (fs_async_getattr ctx (VfsInode_ino idata) handle)
    end).

Definition vfs_async_setattr (ctx : Context) (inode : Z) (attr : stat64) (handle : option Z) (valid : Z)
    : vprog (stat64 * Duration) :=
  with_real inode (fun e idata =>
    match e with
    | PseudoLeft => on_fs e (op_setattr ctx (VfsInode_ino idata) attr handle valid)
    | BackRight idx => on_backend idx (fs_async_setattr ctx (VfsInode_ino idata) attr handle valid)
    end).

Definition vfs_async_open (ctx : Context) (inode flags fuse_flags : Z) : vprog (option Z * Z) := fun v =>
  if v.(opts).(no_open) then (v, Err (Os ENOSYS))
  else with_real inode (fun e idata =>
    match e with
    | PseudoLeft =>
      r ← on_fs e (op_open ctx (VfsInode_ino idata) flags fuse_flags);
      let '(a, b, _) := r in mret (a, b)
    | BackRight idx =>
      r ← on_backend idx (fs_async_open ctx (VfsInode_ino idata) flags fuse_flags);
      let '(h, opt) := r in mret (h, opt)
    end) v.

Definition vfs_async_create (ctx : Context) (parent : Z) (name : CStr) (args : CreateIn)
    : vprog (Entry * option Z * Z) :=
  validated name (with_real parent (fun e idata =>
    match e with
    | PseudoLeft =>
      r ← on_fs e (op_create ctx (VfsInode_ino idata) name args);
      let '(a, b, c, _) := r in mret (a, b, c)
    | BackRight idx =>
      r ← on_backend idx (fs_async_create ctx (VfsInode_ino idata) name args);
      let '(a, b, c) := r in
      a' ← converted idata a;
      mret (a', b, c)
    end)).

Definition vfs_async_read (ctx : Context) (inode handle available size offset : Z) (lock_owner : option Z)
    (flags : Z) (v : Vfs B) : Vfs B * (list bytes * io_result Z) :=
  match get_real_rootfs v inode with
  | Ok (PseudoLeft, _) => (v, ([], Err (Os ENOSYS)))
  | Ok (BackRight idx, idata) =>
    match v.(superblocks) !! idx with
    | Some b =>
      let '(b', res) := fs_async_read ctx (VfsInode_ino idata) handle available size offset lock_owner flags b in
      (with_superblocks (<[idx := b']> v.(superblocks)) v, res)
    | None => (v, ([], Panic))
    end
  | Err e => (v, ([], Err e))
  | Panic => (v, ([], Panic))
  end.

Definition vfs_async_write (ctx : Context) (inode handle : Z) (data : bytes) (size offset : Z)
    (lock_owner : option Z) (delayed_write : bool) (flags fuse_flags : Z) : vprog Z :=
  with_real inode (fun e idata =>
    match e with
    | PseudoLeft => fail (Os ENOSYS)
    | BackRight idx =>
      on_backend idx (fs_async_write ctx (VfsInode_ino idata) handle data size offset lock_owner delayed_write flags fuse_flags)
    end).

Definition vfs_async_fsync (ctx : Context) (inode : Z) (datasync : bool) (handle : Z) : vprog unit :=
  with_real inode (fun e idata =>
    match e with
    | PseudoLeft => on_fs e (op_fsync ctx (VfsInode_ino idata) datasync handle)
    | BackRight idx => on_backend idx (fs_async_fsync ctx (VfsInode_ino idata) datasync handle)
    end).

Definition vfs_async_fallocate (ctx : Context) (inode handle mode offset length : Z) : vprog unit :=
  with_real inode (fun e idata =>
    match e with
    | PseudoLeft => on_fs e (op_fallocate ctx (VfsInode_ino idata) handle mode offset length)
    | BackRight idx => on_backend idx (fs_async_fallocate ctx (VfsInode_ino idata) handle mode offset length)
    end).

Definition vfs_async_fsyncdir (ctx : Context) (inode : Z) (datasync : bool) (handle : Z) : vprog unit :=
  with_real inode (fun e idata =>
    match e with
    | PseudoLeft => on_fs e (op_fsyncdir ctx (VfsInode_ino idata) datasync handle)
    | BackRight idx => on_backend idx (fs_async_fsyncdir ctx (VfsInode_ino idata) datasync handle)
    end).
End vfs_async.

(** * Properties *)

Section vfs_async_facts.
Context {B : Type} {BE : BackendFileSystem B} {AB : AsyncFileSystem B} {AG : AsyncAgrees B} {CK : Clock}.
Implicit Types (v : Vfs B).

(** The attributes of a backend's inode as the synchronous methods give them. *)
Definition seen_attr v (inode : Z) (st : stat64) : stat64 :=
  match get_real_rootfs v inode with
  | Ok (BackRight _, idata) => remap_attr_id v true (set_ino idata st)
  | _ => st
  end.

Lemma on_backend_eq {A : Set} idx (m : prog B io_error A) (op : FsOp A) v :
  (forall b, m b = fs_op op b) -> on_backend idx m v = on_fs (BackRight idx) op v.
Proof. intros Hm. unfold on_backend, on_fs. destruct (superblocks v !! idx); [by rewrite Hm|done]. Qed.

Lemma on_backend_map {A C : Set} idx (m : prog B io_error A) (op : FsOp C) (f : A -> C) v :
  (forall b, fs_op op b = let '(b', o) := m b in (b', outcome_map f o)) ->
  on_fs (BackRight idx) op v = let '(v', o) := on_backend idx m v in (v', outcome_map f o).
Proof.
  intros Hm. unfold on_backend, on_fs. destruct (superblocks v !! idx); [|done]. rewrite Hm. by destruct (m _).
Qed.

(** A method that only forwards. *)
Lemma forward_async {A : Set} inode (m : Z -> prog B io_error A) (op : Z -> FsOp A) v :
  (forall i b, m i b = fs_op (op i) b) ->
  with_real inode (fun e idata => match e with
    | PseudoLeft => on_fs e (op (VfsInode_ino idata))
    | BackRight idx => on_backend idx (m (VfsInode_ino idata)) end) v = forward inode op v.
Proof.
  intros Hm. unfold forward, with_real. destruct (get_real_rootfs v inode) as [[[|idx] idata]|e|]; [done| |done..].
  by apply on_backend_eq.
Qed.
End vfs_async_facts.

(** C24: the asynchronous methods of the union file system.  Over backends whose
    asynchronous methods do what the synchronous ones do, they do what the
    methods of [sync_io.rs] do: the state and the result are the same for LOOKUP,
    OPEN, CREATE, READ, WRITE, FSYNC, FSYNCDIR and FALLOCATE.  The attributes
    that GETATTR gives, and without an id mapping SETATTR, are those of the
    backend: they lack the inode number of the union file system and the mapped
    owner that the synchronous methods put in. *)
Theorem vfs_async_agrees {B : Type} `{BE : BackendFileSystem B} `{AB : !AsyncFileSystem B} `{AG : !AsyncAgrees B} `{CK : Clock} (v : Vfs B) :
  (forall ctx parent name, vfs_async_lookup ctx parent name v = vfs_lookup ctx parent name v) /\
  (forall ctx inode flags fuse_flags, vfs_open ctx inode flags fuse_flags v =
    let '(v', o) := vfs_async_open ctx inode flags fuse_flags v in (v', outcome_map (fun '(h, opt) => (h, opt, None)) o)) /\
  (forall ctx parent name args, vfs_create ctx parent name args v =
    let '(v', o) := vfs_async_create ctx parent name args v in (v', outcome_map (fun '(e, h, opt) => (e, h, opt, None)) o)) /\
  (forall ctx inode handle available size offset owner flags,
    let '(v', (data, res)) := vfs_read ctx inode handle available size offset owner flags v in
    exists pieces, vfs_async_read ctx inode handle available size offset owner flags v = (v', (pieces, res)) /\
      (pieces = [data] \/ data = [] /\ pieces = [])) /\
  (forall ctx inode handle data size offset owner delayed flags fuse_flags,
    vfs_async_write ctx inode handle data size offset owner delayed flags fuse_flags v =
    vfs_write ctx inode handle data size offset owner delayed flags fuse_flags v) /\
  (forall ctx inode datasync handle, vfs_async_fsync ctx inode datasync handle v = vfs_fsync ctx inode datasync handle v) /\
  (forall ctx inode datasync handle, vfs_async_fsyncdir ctx inode datasync handle v = vfs_fsyncdir ctx inode datasync handle v) /\
  (forall ctx inode handle mode offset length,
    vfs_async_fallocate ctx inode handle mode offset length v = vfs_fallocate ctx inode handle mode offset length v) /\
  (forall ctx inode handle, vfs_getattr ctx inode handle v =
    let '(v', o) := vfs_async_getattr ctx inode handle v in (v', outcome_map (fun '(st, d) => (seen_attr v inode st, d)) o)) /\
  (v.(id_mapping) = None -> forall ctx inode attr handle valid, vfs_setattr ctx inode attr handle valid v =
    let '(v', o) := vfs_async_setattr ctx inode attr handle valid v in (v', outcome_map (fun '(st, d) => (seen_attr v inode st, d)) o)).
Proof.
  split_and!.
  - intros ctx parent name. unfold vfs_async_lookup, vfs_lookup. case_match; [done|]. unfold with_real.
    destruct (get_real_rootfs v parent) as [[[|idx] idata]|e|]; [done| |done..].
    unfold mbind, prog_mbind, prog_bind. by rewrite (on_backend_eq idx _ (op_lookup ctx (VfsInode_ino idata) name)) by (intros; apply ag_lookup).
  - intros ctx inode flags fuse_flags. unfold vfs_async_open, vfs_open. case_match; [done|]. unfold forward, with_real.
    destruct (get_real_rootfs v inode) as [[[|idx] idata]|e|]; [done| |done..].
    rewrite (on_backend_map idx (fs_async_open ctx (VfsInode_ino idata) flags fuse_flags) _ (fun '(h, opt) => (h, opt, None))) by (intros; apply ag_open).
    unfold mbind, prog_mbind, prog_bind. by destruct (on_backend idx _ v) as [v' [[h opt]|e|]].
  - intros ctx parent name args. unfold vfs_async_create, vfs_create, validated. destruct (validate_path_component name); [|done..]. unfold with_real.
    destruct (get_real_rootfs v parent) as [[[|idx] idata]|e|]; [done| |done..]. unfold mbind, prog_mbind, prog_bind.
    rewrite (on_backend_map idx (fs_async_create ctx (VfsInode_ino idata) name args) _ (fun '(e, h, opt) => (e, h, opt, None))) by (intros; apply ag_create).
    destruct (on_backend idx _ v) as [v' [[[e h] opt]|e|]]; cbn; [|done..]. unfold converted. by destruct (convert_entry v' _ _ _).
  - intros ctx inode handle available size offset owner flags. unfold vfs_async_read, vfs_read.
    destruct (get_real_rootfs v inode) as [[[|idx] idata]|e|]; [cbn; exists []; destruct v; auto| |eauto..].
    destruct (superblocks v !! idx) as [b|]; [|eauto].
    pose proof (ag_read ctx (VfsInode_ino idata) handle available size offset owner flags b) as Hr.
    destruct (fs_read _ _ _ _ _ _ _ _ _) as [b' [data res]]. destruct Hr as (pieces & -> & Hp). eauto.
  - intros. unfold vfs_async_write, vfs_write, with_real. destruct (get_real_rootfs v inode) as [[[|idx] idata]|e|]; [by destruct v| |done..].
    unfold on_backend. destruct (superblocks v !! idx); [by rewrite ag_write|done].
  - intros. apply (forward_async inode (fun i => fs_async_fsync ctx i datasync handle) (fun i => op_fsync ctx i datasync handle)). intros. apply ag_fsync.
  - intros. apply (forward_async inode (fun i => fs_async_fsyncdir ctx i datasync handle) (fun i => op_fsyncdir ctx i datasync handle)). intros. apply ag_fsyncdir.
  - intros. apply (forward_async inode (fun i => fs_async_fallocate ctx i handle mode offset length)
      (fun i => op_fallocate ctx i handle mode offset length)). intros. apply ag_fallocate.
  - intros ctx inode handle. unfold vfs_async_getattr, vfs_getattr, with_real, seen_attr.
    destruct (get_real_rootfs v inode) as [[[|idx] idata]|e|]; [by destruct (on_fs _ _ v) as [v' [[st d]|e|]]| |done..].
    unfold mbind, prog_mbind, prog_bind. rewrite (on_backend_eq idx _ (op_getattr ctx (VfsInode_ino idata) handle)) by (intros; apply ag_getattr).
    unfold on_fs, external_attr. destruct (superblocks v !! idx); [|done]. by destruct (fs_op _ _) as [b' [[st d]|e|]].
  - intros Hid ctx inode attr handle valid. unfold vfs_async_setattr, vfs_setattr, with_real, seen_attr.
    destruct (get_real_rootfs v inode) as [[[|idx] idata]|e|]; [by destruct (on_fs _ _ v) as [v' [[st d]|e|]]| |done..].
    unfold mbind, prog_mbind, prog_bind. rewrite (on_backend_eq idx _ (op_setattr ctx (VfsInode_ino idata) attr handle valid)) by (intros; apply ag_setattr).
    unfold remap_attr_id at 1. rewrite Hid. unfold on_fs, external_attr. destruct (superblocks v !! idx); [|done].
    by destruct (fs_op _ _) as [b' [[st d]|e|]].
Qed.

(** ** An example *)

#[global] Instance ToyFs_async : AsyncFileSystem ToyFs := {|
  fs_async_lookup ctx parent name := fs_op (op_lookup ctx parent name);
  fs_async_getattr ctx inode handle := fs_op (op_getattr ctx inode handle);
  fs_async_setattr ctx inode attr handle valid := fs_op (op_setattr ctx inode attr handle valid);
  fs_async_open ctx inode flags fuse_flags := mret (None, empty_flags);
  fs_async_create ctx parent name args := fail (Os ENOSYS);
  fs_async_read ctx inode handle available size offset lock_owner flags f := (f, ([], Err (Os ENOSYS)));
  fs_async_write := default_write;
  fs_async_fsync ctx inode datasync handle := fs_op (op_fsync ctx inode datasync handle);
  fs_async_fallocate ctx inode handle mode offset length := fs_op (op_fallocate ctx inode handle mode offset length);
  fs_async_fsyncdir ctx inode datasync handle := fs_op (op_fsyncdir ctx inode datasync handle);
|}.

#[global] Instance ToyFs_agrees : AsyncAgrees ToyFs.
Proof. split; try done. intros. cbn. exists []. auto. Qed.

#[local] Instance async_clock : Clock := {| now_secs := 1700000000 |}.

(** GETATTR of the root of the backend at index 1: the number of the union
    file system from one method, the backend's from the other. *)
Lemma vfs_async_agrees_witness :
  let inode := 0x100000000000001 in
  exists st, (vfs_async_getattr (MkContext 0 0 1) inode None example_vfs).2 = Ok (st, Duration_default) /\ st.(st_ino) = 1 /\
    (vfs_getattr (MkContext 0 0 1) inode None example_vfs).2 = Ok (seen_attr example_vfs inode st, Duration_default) /\
    (seen_attr example_vfs inode st).(st_ino) = inode.
Proof.
  destruct (vfs_async_agrees example_vfs) as (_ & _ & _ & _ & _ & _ & _ & _ & Hget & _).
  cbv zeta. rewrite Hget. eexists. split; [vm_compute; reflexivity|]. split_and!; vm_compute; reflexivity.
Defined.
