(* ===== verification/FileVolatile.v ===== *)
(** * File I/O on volatile buffers ([src/common/file_buf.rs], [file_traits.rs], [async_file.rs])

    [FileReadWriteVolatile] reads and writes files through slices of memory; its
    default methods repeat and choose calls of the required ones, and [File]
    makes each a system call.  The asynchronous half works on [FileVolatileBuf],
    on a file of tokio or of tokio-uring, and gives a list of buffers to the
    kernel four at a time.

    The system calls and tokio-uring's file are an interface over a state [X];
    [errno] is what [Error::last_os_error] reads.  The operations of a [join!]
    run one after the other in any order the scheduler chooses.

    The theorems show that what [write_all_at_volatile] wrote
    [read_exact_at_volatile] reads back, however the kernel cuts the transfer, and
    that the vectored asynchronous reads and writes move the bytes they count, in
    whatever order the batches complete and wherever a call falls short. *)

From S2P Require Import Prelude Std Codec Lib Transport TransportProps ProgLogic VirtioFs.

(** ** [FileVolatileSlice] *)

(** [file_buf::Error], the errors of the crate's own. *)
Inductive BufError : Set :=
| OutOfBounds (addr : Z)
| Overflow (base offset : Z).

Definition fvs_is_empty (s : FileVolatileSlice) : bool := s.(fvs_size) =? 0.

(** [FileVolatileSlice::offset]. *)
Definition fvs_offset (s : FileVolatileSlice) (count : Z) : outcome BufError FileVolatileSlice :=
  new_addr ← ok_or (Overflow s.(fvs_addr) count) (checked_add s.(fvs_addr) count);
  new_size ← ok_or (OutOfBounds new_addr) (checked_sub s.(fvs_size) count);
  Ok (from_raw_ptr new_addr new_size).

(** [slice.offset(n).unwrap()]. *)
Definition fvs_offset_unwrap (s : FileVolatileSlice) (count : Z) : io_result FileVolatileSlice :=
  match fvs_offset s count with Ok s' => Ok s' | _ => Panic end.

(** ** [FileVolatileBuf] *)

Record FileVolatileBuf : Set := mkFileVolatileBuf { fvb_addr : Z; fvb_size : Z; fvb_cap : Z }.

Definition borrow_as_buf (s : FileVolatileSlice) (inited : bool) : FileVolatileBuf :=
  let size := if inited then s.(fvs_size) else 0 in
  mkFileVolatileBuf s.(fvs_addr) size s.(fvs_size).

(** [FileVolatileBuf::new], on the pointer and the length of the slice. *)
Definition FileVolatileBuf_new (ptr len : Z) : FileVolatileBuf := mkFileVolatileBuf ptr 0 len.

Definition new_with_data (ptr len size : Z) : io_result FileVolatileBuf :=
  if size <=? len then Ok (mkFileVolatileBuf ptr size len) else Panic.

Definition FileVolatileBuf_from_raw_ptr (addr size cap : Z) : io_result FileVolatileBuf :=
  if size <=? cap then Ok (mkFileVolatileBuf addr size cap) else Panic.

(** [libc::iovec], and [IoSlice], which has its layout. *)
Record iovec : Set := mk_iovec { iov_base : Z; iov_len : Z }.

Definition io_slice (b : FileVolatileBuf) : iovec := mk_iovec b.(fvb_addr) b.(fvb_size).

Definition io_slice_mut (b : FileVolatileBuf) : iovec :=
  mk_iovec (b.(fvb_addr) + b.(fvb_size)) (wrap 64 (b.(fvb_cap) - b.(fvb_size))).

Definition set_size (size : Z) (b : FileVolatileBuf) : FileVolatileBuf :=
  if size <=? b.(fvb_cap) then mkFileVolatileBuf b.(fvb_addr) size b.(fvb_cap) else b.

(** [IoBuf::bytes_total]. *)
Definition bytes_total (b : FileVolatileBuf) : Z := b.(fvb_cap).

(** ** System calls

    A call gives its return value; the vectored ones get the array and the
    count that is passed as a [c_int]. *)

Class FileIo (X : Type) : Type := {
  sys_read : Z -> iovec -> X -> X * Z;
  sys_write : Z -> iovec -> X -> X * Z;
  sys_readv : Z -> list iovec -> Z -> X -> X * Z;
  sys_writev : Z -> list iovec -> Z -> X -> X * Z;
  sys_pread64 : Z -> iovec -> Z -> X -> X * Z;
  sys_pwrite64 : Z -> iovec -> Z -> X -> X * Z;
  sys_preadv64 : Z -> list iovec -> Z -> Z -> X -> X * Z;
  sys_pwritev64 : Z -> list iovec -> Z -> Z -> X -> X * Z;
  errno : X -> Z;
}.
#[global] Hint Mode FileIo ! : typeclass_instances.

Section sync.
Context {X : Type}.

(** ** [FileReadWriteVolatile]

    The methods an implementation has to give, and the vectored ones it may
    leave to the default. *)

Record FileReadWriteVolatile : Type := {
  read_volatile : FileVolatileSlice -> prog X io_error Z;
  write_volatile : FileVolatileSlice -> prog X io_error Z;
  read_at_volatile : FileVolatileSlice -> Z -> prog X io_error Z;
  write_at_volatile : FileVolatileSlice -> Z -> prog X io_error Z;
  read_vectored_volatile : list FileVolatileSlice -> prog X io_error Z;
  write_vectored_volatile : list FileVolatileSlice -> prog X io_error Z;
  read_vectored_at_volatile : list FileVolatileSlice -> Z -> prog X io_error Z;
  write_vectored_at_volatile : list FileVolatileSlice -> Z -> prog X io_error Z;
}.

(** The default of [read_vectored_volatile] (and of [write_vectored_volatile]
    with the other call): the first slice that is not empty. *)
Definition default_vectored_volatile (one : FileVolatileSlice -> prog X io_error Z) (bufs : list FileVolatileSlice)
  : prog X io_error Z :=
  match List.find (fun b => negb (fvs_is_empty b)) bufs with Some b => one b | None => mret 0 end.

(** The default of [read_vectored_at_volatile] and [write_vectored_at_volatile]:
    the first slice. *)
Definition default_vectored_at_volatile (one : FileVolatileSlice -> Z -> prog X io_error Z)
    (bufs : list FileVolatileSlice) (offset : Z) : prog X io_error Z :=
  match bufs with slice :: _ => one slice offset | [] => mret 0 end.

(** A round of [read_exact_volatile] and [write_all_volatile]: [none] is the
    error of a call that moved nothing. *)
Definition exact_round (one : FileVolatileSlice -> prog X io_error Z) (none : ErrorKind) (slice : FileVolatileSlice)
  : prog X io_error (FileVolatileSlice + unit) :=
  if fvs_is_empty slice then mret (inr tt)
  else
    n ← one slice;
    if n =? 0 then fail (Simple none)
    else slice ← lift (fvs_offset_unwrap slice n); mret (inl slice).

Definition read_exact_volatile (f : FileReadWriteVolatile) (slice : FileVolatileSlice) : prog X io_error unit :=
  loop (exact_round f.(read_volatile) UnexpectedEof) slice.

Definition write_all_volatile (f : FileReadWriteVolatile) (slice : FileVolatileSlice) : prog X io_error unit :=
  loop (exact_round f.(write_volatile) WriteZero) slice.

(** A round of [read_exact_at_volatile] and [write_all_at_volatile], which also
    repeats a call that was interrupted. *)
Definition exact_at_round (one : FileVolatileSlice -> Z -> prog X io_error Z) (none : ErrorKind)
    (s : FileVolatileSlice * Z) : prog X io_error (FileVolatileSlice * Z + unit) :=
  let '(slice, offset) := s in
  if fvs_is_empty slice then mret (inr tt)
  else
    r ← catch (one slice offset);
    match r with
    | inr n =>
      if n =? 0 then fail (Simple none)
      else
        slice ← lift (fvs_offset_unwrap slice n);
        offset ← lift (unwrap (checked_add offset n));
        mret (inl (slice, offset))
    | inl e => match error_kind e with Interrupted => mret (inl (slice, offset)) | _ => fail e end
    end.

Definition read_exact_at_volatile (f : FileReadWriteVolatile) (slice : FileVolatileSlice) (offset : Z) : prog X io_error unit :=
  loop (exact_at_round f.(read_at_volatile) UnexpectedEof) (slice, offset).

Definition write_all_at_volatile (f : FileReadWriteVolatile) (slice : FileVolatileSlice) (offset : Z) : prog X io_error unit :=
  loop (exact_at_round f.(write_at_volatile) WriteZero) (slice, offset).

(** ** [volatile_impl!(File)] *)

Context {IO : FileIo X}.

(** [if ret >= 0 { Ok(ret as usize) } else { Err(Error::last_os_error()) }] *)
Definition ret_usize (call : X -> X * Z) : prog X io_error Z := fun x =>
  let '(x', ret) := call x in
  if 0 <=? ret then (x', Ok ret) else (x', Err (Os (errno x'))).

Definition iov_of (s : FileVolatileSlice) : iovec := mk_iovec s.(fvs_addr) s.(fvs_size).

(** The body of the vectored methods around their system call. *)
Definition vectored_call (call : list iovec -> Z -> X -> X * Z) (bufs : list FileVolatileSlice) : prog X io_error Z :=
  let iovecs := map iov_of bufs in
  match iovecs with
  | [] => mret 0
  | _ => ret_usize (call iovecs (signed 32 (zlen iovecs)))
  end.

Definition File_volatile (fd : Z) : FileReadWriteVolatile := {|
  read_volatile slice := ret_usize (sys_read fd (iov_of slice));
  write_volatile slice := ret_usize (sys_write fd (iov_of slice));
  read_at_volatile slice offset := ret_usize (sys_pread64 fd (iov_of slice) (signed 64 offset));
  write_at_volatile slice offset := ret_usize (sys_pwrite64 fd (iov_of slice) (signed 64 offset));
  read_vectored_volatile := vectored_call (sys_readv fd);
  write_vectored_volatile := vectored_call (sys_writev fd);
  read_vectored_at_volatile bufs offset :=
    vectored_call (fun iovs cnt => sys_preadv64 fd iovs cnt (signed 64 offset)) bufs;
  write_vectored_at_volatile bufs offset :=
    vectored_call (fun iovs cnt => sys_pwritev64 fd iovs cnt (signed 64 offset)) bufs;
|}.
End sync.
Arguments FileReadWriteVolatile : clear implicits.

(** ** Asynchronous files *)

(** The answer of an asynchronous call: the result and the buffers back. *)
Abbreviation answer B := ((io_error + Z) * B)%type.

(** [tokio_uring::fs::File]. *)
Class UringIo (X : Type) : Type := {
  uring_read_at : Z -> FileVolatileBuf -> Z -> prog X io_error (answer FileVolatileBuf);
  uring_write_at : Z -> FileVolatileBuf -> Z -> prog X io_error (answer FileVolatileBuf);
  uring_readv_at : Z -> list FileVolatileBuf -> Z -> prog X io_error (answer (list FileVolatileBuf));
  uring_writev_at : Z -> list FileVolatileBuf -> Z -> prog X io_error (answer (list FileVolatileBuf));
}.
#[global] Hint Mode UringIo ! : typeclass_instances.

(** [async_file::File], by the descriptor. *)
Inductive AsyncFile : Set :=
| Tokio (fd : Z)
| Uring (fd : Z).

(** The loop of [preadv] that gives the bytes read to the buffers, and what is
    left of them. *)
Fixpoint fill (bufs : list FileVolatileBuf) (count : Z) : list FileVolatileBuf * Z :=
  match bufs with
  | [] => ([], count)
  | buf :: bufs' =>
    let cnt := Z.min count (wrap 64 (buf.(fvb_cap) - buf.(fvb_size))) in
    let buf := set_size (buf.(fvb_size) + cnt) buf in
    let count := count - cnt in
    if count =? 0 then (buf :: bufs', 0)
    else let '(rest, count) := fill bufs' count in (buf :: rest, count)
  end.

Section async.
Context {X : Type} {IO : FileIo X} {UIO : UringIo X}.

(** The loop of [preadv] and [pwritev]: repeat the call while it is interrupted. *)
Definition retry_round (call : X -> X * Z) (_ : unit) : prog X io_error (unit + Z) :=
  r ← catch (ret_usize call);
  match r with
  | inr res => mret (inr res)
  | inl e => match error_kind e with Interrupted => mret (inl tt) | _ => fail e end
  end.

Definition preadv (fd : Z) (bufs : list FileVolatileBuf) (offset : Z) : prog X io_error (answer (list FileVolatileBuf)) :=
  let iov := map io_slice_mut bufs in
  r ← catch (loop (retry_round (sys_preadv64 fd iov (signed 32 (zlen iov)) (signed 64 offset))) tt);
  match r with
  | inl e => mret (inl e, bufs)
  | inr res =>
    let '(bufs', count) := fill bufs res in
    if count =? 0 then mret (inr res, bufs') else lift Panic
  end.

Definition pwritev (fd : Z) (bufs : list FileVolatileBuf) (offset : Z) : prog X io_error (answer (list FileVolatileBuf)) :=
  let iov := map io_slice bufs in
  r ← catch (loop (retry_round (sys_pwritev64 fd iov (signed 32 (zlen iov)) (signed 64 offset))) tt);
  mret (r, bufs).

(** [bufs[0]] of the one-element array. *)
Definition first_buf (r : answer (list FileVolatileBuf)) : prog X io_error (answer FileVolatileBuf) :=
  buf ← lift (unwrap (head r.2)); mret (r.1, buf).

Definition async_read_at (f : AsyncFile) (buf : FileVolatileBuf) (offset : Z) : prog X io_error (answer FileVolatileBuf) :=
  match f with
  | Tokio fd => r ← preadv fd [buf] offset; first_buf r
  | Uring fd => uring_read_at fd buf offset
  end.

Definition async_readv_at (f : AsyncFile) (bufs : list FileVolatileBuf) (offset : Z) : prog X io_error (answer (list FileVolatileBuf)) :=
  match f with
  | Tokio fd => preadv fd bufs offset
  | Uring fd => uring_readv_at fd bufs offset
  end.

Definition async_write_at (f : AsyncFile) (buf : FileVolatileBuf) (offset : Z) : prog X io_error (answer FileVolatileBuf) :=
  match f with
  | Tokio fd => r ← pwritev fd [buf] offset; first_buf r
  | Uring fd => uring_write_at fd buf offset
  end.

Definition async_writev_at (f : AsyncFile) (bufs : list FileVolatileBuf) (offset : Z) : prog X io_error (answer (list FileVolatileBuf)) :=
  match f with
  | Tokio fd => pwritev fd bufs offset
  | Uring fd => uring_writev_at fd bufs offset
  end.

(** ** [AsyncFileReadWriteVolatile] for [File] *)

Definition async_read_at_volatile := async_read_at.
Definition async_write_at_volatile := async_write_at.
End async.

(** [join!] of operations: they run in the order [sched] gives for their number,
    and the results come back in the order of the operations. *)
Section join.
Context {X R : Type} (sched : nat -> list nat).

Fixpoint run_in (order : list nat) (ops : list (prog X io_error R)) : prog X io_error (list (nat * R)) :=
  match order with
  | [] => mret []
  | i :: order' =>
    match ops !! i with
    | Some op => r ← op; rs ← run_in order' ops; mret ((i, r) :: rs)
    | None => lift Panic
    end
  end.

(** The result of operation [i]. *)
Fixpoint result_of (rs : list (nat * R)) (i : nat) : option R :=
  match rs with
  | [] => None
  | (j, r) :: rs' => if (i =? j)%nat then Some r else result_of rs' i
  end.

Definition join (ops : list (prog X io_error R)) : prog X io_error (list R) :=
  rs ← run_in (sched (length ops)) ops;
  lift (unwrap (mapM (result_of rs) (seq 0 (length ops)))).
End join.

Section vectored.
Context {X : Type} {IO : FileIo X} {UIO : UringIo X} (sched : nat -> list nat).

(** The futures of a batch, each at the offset behind the buffers before it. *)
Fixpoint batch (op : FileVolatileBuf -> Z -> prog X io_error (answer FileVolatileBuf)) (bufs : list FileVolatileBuf) (offset : Z)
  : list (prog X io_error (answer FileVolatileBuf)) :=
  match bufs with
  | [] => []
  | buf :: bufs' => op buf offset :: batch op bufs' (wrap 64 (offset + bytes_total buf))
  end.

(** [offset] behind a batch. *)
Fixpoint advance (bufs : list FileVolatileBuf) (offset : Z) : Z :=
  match bufs with
  | [] => offset
  | buf :: bufs' => advance bufs' (wrap 64 (offset + bytes_total buf))
  end.

(** The [match]es on the results of a batch: the first error or short transfer
    is the answer ([inl]); else the count and the buffers so far. *)
Fixpoint settle (rs : list (answer FileVolatileBuf)) (pos : nat) (count : Z) (bufs : list FileVolatileBuf)
  : answer (list FileVolatileBuf) + Z * list FileVolatileBuf :=
  match rs with
  | [] => inr (count, bufs)
  | (inl e, _) :: _ => inl (inl e, bufs)
  | (inr cnt, buf) :: rs' =>
    let count := wrap 64 (count + cnt) in
    let bufs := <[pos := buf]> bufs in
    if cnt <? bytes_total buf then inl (inr count, bufs) else settle rs' (S pos) count bufs
  end.

(** The common body of [async_read_vectored_at_volatile] and
    [async_write_vectored_at_volatile]; [op] is the call on one buffer.  A round
    of the loop, on [(pos, offset, count, bufs)]. *)
Definition quad_round (op : FileVolatileBuf -> Z -> prog X io_error (answer FileVolatileBuf))
    (s : nat * Z * Z * list FileVolatileBuf)
  : prog X io_error (nat * Z * Z * list FileVolatileBuf + (answer (list FileVolatileBuf) + nat * Z * Z * list FileVolatileBuf)) :=
  let '(pos, offset, count, bufs) := s in
  if (4 <=? length bufs - pos)%nat then
    let four := take 4 (drop pos bufs) in
    rs ← join sched (batch op four offset);
    match settle rs pos count bufs with
    | inl r => mret (inr (inl r))
    | inr (count, bufs) => mret (inl ((pos + 4)%nat, advance four offset, count, bufs))
    end
  else mret (inr (inr s)).

Definition vectored_at (op : FileVolatileBuf -> Z -> prog X io_error (answer FileVolatileBuf))
    (bufs : list FileVolatileBuf) (offset : Z) : prog X io_error (answer (list FileVolatileBuf)) :=
  match bufs with
  | [] => mret (inr 0, bufs)
  | [buf] => r ← op buf offset; mret (r.1, [r.2])
  | _ =>
    r ← loop (quad_round op) (0%nat, offset, 0, bufs);
    match r with
    | inl r => mret r
    | inr (pos, offset, count, bufs) =>
      match drop pos bufs with
      | [] => mret (inr count, bufs)
      | rest =>
        rs ← join sched (batch op rest offset);
        match settle rs pos count bufs with
        | inl r => mret r
        | inr (count, bufs) => mret (inr count, bufs)
        end
      end
    end
  end.

Definition async_read_vectored_at_volatile (f : AsyncFile) : list FileVolatileBuf -> Z -> prog X io_error (answer (list FileVolatileBuf)) :=
  vectored_at (async_read_at_volatile f).

Definition async_write_vectored_at_volatile (f : AsyncFile) : list FileVolatileBuf -> Z -> prog X io_error (answer (list FileVolatileBuf)) :=
  vectored_at (async_write_at_volatile f).
End vectored.

(** * Properties *)

(** ** Stores *)

(** [m'] is [m] with the values of [pairs] at their places. *)
Definition stored (pairs : list (Z * Z)) (m m' : Z -> Z) : Prop :=
  (forall a b, (a, b) ∈ pairs -> m' a = b) /\ (forall a, a ∉ pairs.*1 -> m' a = m a).

Lemma stored_nil m : stored [] m m.
Proof. split; [|done]. intros a b H. by apply elem_of_nil in H. Qed.

Lemma stored_app p1 p2 m m1 m2 :
  NoDup (p1 ++ p2).*1 -> stored p1 m m1 -> stored p2 m1 m2 -> stored (p1 ++ p2) m m2.
Proof.
  rewrite fmap_app. intros (_ & Hd & _)%NoDup_app [H1 H1'] [H2 H2']. split.
  - intros a b [H|H]%elem_of_app; [|by apply H2]. rewrite H2'; [by apply H1|]. apply Hd, list_elem_of_fmap. by exists (a, b).
  - intros a. rewrite fmap_app, not_elem_of_app. intros [Ha Ha']. by rewrite H2', H1'.
Qed.

Lemma stored_perm p p' m m' : p ≡ₚ p' -> stored p m m' -> stored p' m m'.
Proof. intros Hp [H H']. split; [intros a b; rewrite <- Hp; apply H|intros a; rewrite <- Hp; apply H']. Qed.

(** [put] stores the data at the addresses. *)
Lemma put_stored addrs data m : NoDup addrs -> stored (zip addrs data) m (put addrs data m).
Proof.
  revert data m. induction addrs as [|a addrs IH]; intros data m Hnd; [apply stored_nil|].
  destruct data as [|b data]; [apply stored_nil|]. apply NoDup_cons in Hnd as [Ha Hnd].
  destruct (IH data (fun x => if x =? a then b else m x) Hnd) as [H H']. cbn. split.
  - intros a' b' [[= -> ->]|Hin]%elem_of_cons; [|by apply H]. rewrite put_other by done. by rewrite Z.eqb_refl.
  - intros a' [Hne Hni]%not_elem_of_cons. rewrite H' by done. by rewrite (proj2 (Z.eqb_neq _ _)).
Qed.

(** Two stores of the same values agree. *)
Lemma stored_det p m m1 m2 a : stored p m m1 -> stored p m m2 -> m1 a = m2 a.
Proof.
  intros [H1 H1'] [H2 H2']. destruct (decide (a ∈ p.*1)) as [Hin|Hn]; [|by rewrite H1', H2'].
  apply list_elem_of_fmap in Hin as ([a' b] & -> & Hin). cbn. by rewrite (H1 a' b Hin), (H2 a' b Hin).
Qed.

(** ** Batches *)

(** The buffers with their offsets. *)
Fixpoint jobs (bufs : list FileVolatileBuf) (offset : Z) : list (FileVolatileBuf * Z) :=
  match bufs with
  | [] => []
  | buf :: bufs' => (buf, offset) :: jobs bufs' (offset + buf.(fvb_cap))
  end.

Definition caps (bufs : list FileVolatileBuf) : Z := foldr (fun b n => b.(fvb_cap) + n) 0 bufs.

Lemma caps_app bs cs : caps (bs ++ cs) = caps bs + caps cs.
Proof. induction bs as [|b bs IH]; [done|]. cbn. fold (caps bs) (caps (bs ++ cs)). lia. Qed.

Lemma jobs_app bs cs off : jobs (bs ++ cs) off = jobs bs off ++ jobs cs (off + caps bs).
Proof.
  revert off. induction bs as [|b bs IH]; intros off; cbn; [by rewrite Z.add_0_r|]. rewrite IH. cbn. fold (caps bs).
  do 3 f_equal. lia.
Qed.

Lemma jobs_fst bs off : (jobs bs off).*1 = bs.
Proof. revert off. induction bs as [|b bs IH]; intros off; [done|]. cbn. by rewrite IH. Qed.

Lemma jobs_length bs off : length (jobs bs off) = length bs.
Proof. by rewrite <- (length_fmap fst), jobs_fst. Qed.

Definition caps_ok (bufs : list FileVolatileBuf) : Prop := Forall (fun b => 0 <= b.(fvb_cap)) bufs.

Lemma caps_nonneg bs : caps_ok bs -> 0 <= caps bs.
Proof. induction 1 as [|b bs Hb _ IH]; [done|]. cbn. fold (caps bs). lia. Qed.

Lemma advance_caps bs off : caps_ok bs -> 0 <= off -> off + caps bs < 2 ^ 64 -> advance bs off = off + caps bs.
Proof.
  intros H. revert off. induction H as [|b bs Hb Hbs IH]; intros off Ho Hs; cbn in *; [lia|]. fold (caps bs) in *.
  pose proof (caps_nonneg bs Hbs). unfold wrap, bytes_total. rewrite Z.mod_small by lia. rewrite IH; lia.
Qed.

Lemma batch_jobs {X} (op : FileVolatileBuf -> Z -> prog X io_error (answer FileVolatileBuf)) bs off :
  caps_ok bs -> 0 <= off -> off + caps bs < 2 ^ 64 -> batch op bs off = map (fun j => op j.1 j.2) (jobs bs off).
Proof.
  intros H. revert off. induction H as [|b bs Hb Hbs IH]; intros off Ho Hs; [done|]. cbn in *. fold (caps bs) in *.
  pose proof (caps_nonneg bs Hbs). unfold wrap, bytes_total. rewrite Z.mod_small by lia. rewrite IH by lia. done.
Qed.

Section generic.
Context {X K : Type} (sched : nat -> list nat) (op : FileVolatileBuf -> Z -> prog X io_error (answer FileVolatileBuf)).
Context (keep : X -> K) (view : X -> Z -> Z) (len : X -> Z).
Context (good : FileVolatileBuf -> Prop) (pairs : K -> FileVolatileBuf -> Z -> list (Z * Z)).

(** What one call does: [keep] is what it leaves alone, [pairs] what it could
    store in [view], of which it stores the first [n] and at least one; [len]
    may grow up to the end of the call's range. *)
Record op_ok : Prop := {
  op_run : forall x b o, good b -> 0 <= o -> o + b.(fvb_cap) < 2 ^ 63 ->
    exists n b' x', op b o x = (x', Ok (inr n, b')) /\ b'.(fvb_cap) = b.(fvb_cap) /\
      0 <= n <= zlen (pairs (keep x) b o) /\ (n = 0 -> pairs (keep x) b o = []) /\
      keep x' = keep x /\ stored (take (Z.to_nat n) (pairs (keep x) b o)) (view x) (view x') /\
      len x <= len x' <= Z.max (len x) (o + b.(fvb_cap)) /\ (0 < n -> o + n <= len x');
  op_good : forall b, good b -> 0 <= b.(fvb_cap);
  op_pairs : forall k b o, good b -> zlen (pairs k b o) <= b.(fvb_cap);
  op_end : forall k b o b' o', good b -> 0 < b.(fvb_cap) -> 0 <= o -> pairs k b o = [] -> o <= o' -> pairs k b' o' = [];
}.

(** A call, and the count and the buffer it returned. *)
Abbreviation job := (FileVolatileBuf * Z)%type.
Abbreviation run := (job * (Z * FileVolatileBuf))%type.

Definition reply (r : Z * FileVolatileBuf) : answer FileVolatileBuf := (inr r.1, r.2).
Definition run_ok (k : K) (r : run) : Prop :=
  r.2.2.(fvb_cap) = r.1.1.(fvb_cap) /\ 0 <= r.2.1 <= zlen (pairs k r.1.1 r.1.2) /\ (r.2.1 = 0 -> pairs k r.1.1 r.1.2 = []).

(** What the calls store, and what they could. *)
Definition got (k : K) (rs : list run) : list (Z * Z) := concat (map (fun r => take (Z.to_nat r.2.1) (pairs k r.1.1 r.1.2)) rs).
Definition wanted (k : K) (js : list job) : list (Z * Z) := concat (map (fun j => pairs k j.1 j.2) js).

Lemma got_app k rs rs' : got k (rs ++ rs') = got k rs ++ got k rs'.
Proof. unfold got. by rewrite map_app, concat_app. Qed.

Lemma wanted_app k js js' : wanted k (js ++ js') = wanted k js ++ wanted k js'.
Proof. unfold wanted. by rewrite map_app, concat_app. Qed.

Lemma got_wanted k rs : got k rs `sublist_of` wanted k rs.*1.
Proof. induction rs as [|r rs IH]; [done|]. unfold got, wanted in *. cbn. apply sublist_app; [apply sublist_take|exact IH]. Qed.

Lemma got_nodup k rs : NoDup (wanted k rs.*1).*1 -> NoDup (got k rs).*1.
Proof. intros H. eapply sublist_NoDup; [exact H|]. apply fmap_sublist, got_wanted. Qed.

Section calls.
Context (B : Z).

(** The calls [rs] have been made. *)
Definition moved (rs : list run) (x x' : X) : Prop :=
  keep x' = keep x /\ Forall (run_ok (keep x)) rs /\ stored (got (keep x) rs) (view x) (view x') /\
  len x <= len x' <= Z.max (len x) B /\ Forall (fun r => 0 < r.2.1 -> r.1.2 + r.2.1 <= len x') rs.

Definition job_ok (j : job) : Prop := good j.1 /\ 0 <= j.2 /\ j.2 + j.1.(fvb_cap) < 2 ^ 63 /\ j.2 + j.1.(fvb_cap) <= B.

Lemma moved_nil x : moved [] x x.
Proof. split_and!; [done|constructor|apply stored_nil|lia|lia|constructor]. Qed.

Lemma moved_app rs rs' x x1 x2 :
  NoDup (wanted (keep x) (rs ++ rs').*1).*1 -> moved rs x x1 -> moved rs' x1 x2 -> moved (rs ++ rs') x x2.
Proof.
  intros Hnd%got_nodup (Hk1 & Hr1 & Hs1 & Hl1 & He1) (Hk2 & Hr2 & Hs2 & Hl2 & He2). rewrite Hk1 in *. rewrite got_app in *.
  split_and!; [by rewrite Hk2|by apply Forall_app|rewrite got_app; by eapply stored_app|lia|lia|].
  apply Forall_app. split; [|done]. eapply Forall_impl; [exact He1|]. intros r Hr Hpos. specialize (Hr Hpos). lia.
Qed.

Lemma moved_perm rs rs' x x' : rs ≡ₚ rs' -> moved rs x x' -> moved rs' x x'.
Proof.
  intros Hp (Hk & Hr & Hs & Hl & He). split_and!; [done|by rewrite <- Hp| |lia|lia|by rewrite <- Hp].
  eapply stored_perm; [|exact Hs]. unfold got. by rewrite Hp.
Qed.

Context (Hop : op_ok).

Lemma call_moved j x :
  job_ok j -> exists r x', op j.1 j.2 x = (x', Ok (reply r)) /\ moved [(j, r)] x x'.
Proof.
  intros (Hg & Ho & Hc & HB). destruct (op_run Hop x j.1 j.2 Hg Ho Hc) as (n & b' & x' & Hrun & Hcap & Hn & Hz & Hk & Hs & Hl & He).
  exists (n, b'), x'. split; [exact Hrun|]. split_and!; [done|by apply Forall_singleton| |lia|lia|by apply Forall_singleton].
  unfold got. cbn. by rewrite app_nil_r.
Qed.

Definition no_job : job := (mkFileVolatileBuf 0 0 0, 0).

Lemma run_in_ends order js x :
  Forall (fun i => (i < length js)%nat) order -> NoDup order -> Forall job_ok js ->
  NoDup (wanted (keep x) (map (fun i => nth i js no_job) order)).*1 ->
  exists g x', run_in order (map (fun j => op j.1 j.2) js) x = (x', Ok (map (fun i => (i, reply (g i))) order)) /\
    moved (map (fun i => (nth i js no_job, g i)) order) x x'.
Proof.
  intros Hi Hno Hjs. revert x. induction Hi as [|i order Hi Hord IH]; intros x Hnd.
  { exists (fun _ => (0, no_job.1)), x. split; [done|apply moved_nil]. }
  apply NoDup_cons in Hno as [Hni Hno].
  destruct (lookup_lt_is_Some_2 js i Hi) as [j Hj]. cbn [run_in map] in *. rewrite list_lookup_fmap, Hj. cbn [fmap option_fmap option_map].
  pose proof (nth_lookup_Some js i no_job j Hj) as Hnth. rewrite Hnth in Hnd.
  destruct (call_moved j x (proj1 (Forall_forall _ _) Hjs j (list_elem_of_lookup_2 _ _ _ Hj))) as (r & x1 & Hrun & Hm1).
  pose proof Hm1 as [Hk1 _]. destruct (IH Hno x1) as (g & x2 & Hr2 & Hm2).
  { rewrite Hk1. unfold wanted in Hnd. cbn in Hnd. rewrite fmap_app in Hnd. by apply NoDup_app in Hnd as (_ & _ & ?). }
  set (g' := fun m => if (m =? i)%nat then r else g m).
  assert (forall {A} (h : nat -> Z * FileVolatileBuf -> A), map (fun m => h m (g' m)) order = map (fun m => h m (g m)) order) as Hg.
  { intros A h. apply map_ext_in. intros m Hm%list_elem_of_In. unfold g'. destruct (Nat.eqb_spec m i) as [->|]; [done|done]. }
  exists g', x2. rewrite (Hg _ (fun m r => (m, reply r))), (Hg _ (fun m r => (nth m js no_job, r))), Hnth.
  assert (g' i = r) as -> by (unfold g'; by rewrite Nat.eqb_refl). split.
  - unfold mbind, prog_mbind, prog_bind. by rewrite Hrun, Hr2.
  - apply (moved_app [(j, r)] _ x x1); [|done|done]. rewrite fmap_app. cbn [fmap list_fmap fst app].
    replace (map _ order).*1 with (map (fun m => nth m js no_job) order); [exact Hnd|].
    clear. induction order as [|m order IH]; [done|]. cbn. by rewrite IH.
Qed.

Lemma result_of_map {R} (g : nat -> R) order i : i ∈ order -> result_of (map (fun i => (i, g i)) order) i = Some (g i).
Proof.
  induction order as [|j order IH]; [by intros ?%elem_of_nil|]. cbn. intros H. destruct (Nat.eqb_spec i j) as [->|Hne]; [done|].
  apply IH. by apply elem_of_cons in H as [?|?].
Qed.

Lemma map_nth_seq {A} (d : A) (l : list A) : map (fun i => nth i l d) (seq 0 (length l)) = l.
Proof. induction l as [|a l IH]; [done|]. cbn. f_equal. by rewrite <- seq_shift, map_map. Qed.

Lemma mapM_result_of {R} (g : nat -> R) order ks :
  order ≡ₚ ks -> mapM (result_of (map (fun i => (i, g i)) order)) ks = Some (map g ks).
Proof.
  intros Hp. apply mapM_Some, Forall2_fmap_r, Forall_Forall2_diag, Forall_forall. intros i Hi. apply result_of_map. by rewrite Hp.
Qed.

Definition sched_ok : Prop := forall n, sched n ≡ₚ seq 0 n.

(** The calls of a batch in any order. *)
Lemma join_ends js x :
  sched_ok -> Forall job_ok js -> NoDup (wanted (keep x) js).*1 ->
  exists rs x', join sched (map (fun j => op j.1 j.2) js) x = (x', Ok (map reply rs.*2)) /\ rs.*1 = js /\ moved rs x x'.
Proof.
  intros Hs Hjs Hnd. specialize (Hs (length js)).
  destruct (run_in_ends (sched (length js)) js x) as (g & x' & Hr & Hm).
  - rewrite Hs. apply Forall_forall. intros i [_ Hi]%elem_of_seq. done.
  - rewrite Hs. apply NoDup_seq.
  - done.
  - eapply NoDup_Permutation_proper; [|exact Hnd]. unfold wanted. rewrite Hs. by rewrite map_nth_seq.
  - exists (map (fun i => (nth i js no_job, g i)) (seq 0 (length js))), x'.
    assert (forall l, (map (fun i => (nth i js no_job, g i)) l).*2 = map g l /\
      (map (fun i => (nth i js no_job, g i)) l).*1 = map (fun i => nth i js no_job) l) as H.
    { induction l as [|i l [IH1 IH2]]; [done|]. cbn. by rewrite IH1, IH2. }
    destruct (H (seq 0 (length js))) as [-> ->]. split_and!; [|apply map_nth_seq|eapply moved_perm; [|exact Hm]; by rewrite Hs].
    unfold join, mbind, prog_mbind, prog_bind. rewrite length_map, Hr. cbn.
    rewrite (mapM_result_of (fun i => reply (g i)) _ _ Hs). cbn. by rewrite map_map.
Qed.

Lemma jobs_ok bs off : Forall good bs -> 0 <= off -> off + caps bs < 2 ^ 63 -> off + caps bs <= B -> Forall job_ok (jobs bs off).
Proof.
  intros H. revert off. induction H as [|b bs Hb Hbs IH]; intros off Ho Hs HB; [by apply Forall_nil_2|]. cbn in *. fold (caps bs) in *.
  pose proof (op_good Hop b Hb). pose proof (caps_nonneg bs ltac:(eapply Forall_impl; [exact Hbs|apply (op_good Hop)])).
  apply Forall_cons_2; [split_and!; cbn; (done || lia)|]. apply IH; lia.
Qed.

(** The count that is returned: of the calls up to the first that falls short. *)
Fixpoint honest (rs : list run) : Z :=
  match rs with
  | [] => 0
  | r :: rs' => if r.2.1 <? r.1.1.(fvb_cap) then r.2.1 else r.2.1 + honest rs'
  end.

Definition full (rs : list run) : bool := forallb (fun r => r.2.1 =? r.1.1.(fvb_cap)) rs.

Lemma run_range k r : run_ok k r -> good r.1.1 -> 0 <= r.2.1 <= r.1.1.(fvb_cap).
Proof. intros (_ & Hn & _) Hg. pose proof (op_pairs Hop k _ r.1.2 Hg). lia. Qed.

Lemma settle_spec k pre rs post count :
  Forall (run_ok k) rs -> Forall good rs.*1.*1 -> 0 <= count -> count + caps rs.*1.*1 < 2 ^ 64 ->
  exists bs, length bs = length rs /\
  settle (map reply rs.*2) (length pre) count (pre ++ rs.*1.*1 ++ post) =
  if full rs then inr (count + honest rs, pre ++ bs ++ post) else inl (inr (count + honest rs), pre ++ bs ++ post).
Proof.
  intros H. revert pre count. induction H as [|r rs Hr Hrs IH]; intros pre count Hg Hc Hs.
  { exists []. cbn. by rewrite Z.add_0_r. }
  cbn in Hg, Hs. fold (caps rs.*1.*1) in Hs. apply Forall_cons in Hg as [Hb Hg]. pose proof (run_range k r Hr Hb) as Hn. destruct Hr as (Hcap & _).
  pose proof (caps_nonneg rs.*1.*1 ltac:(eapply Forall_impl; [exact Hg|apply (op_good Hop)])) as Hcaps.
  cbn [fmap list_fmap map reply settle fst snd honest]. unfold bytes_total, wrap. rewrite Hcap, Z.mod_small by lia.
  rewrite insert_app_r_alt, Nat.sub_diag by lia. cbn [insert list_insert app].
  unfold full. cbn [forallb]. destruct (Z.ltb_spec r.2.1 r.1.1.(fvb_cap)) as [Hlt|Hge].
  - exists (r.2.2 :: rs.*1.*1). rewrite (proj2 (Z.eqb_neq _ _)) by lia. cbn. by rewrite !length_fmap.
  - rewrite (proj2 (Z.eqb_eq _ _)) by lia. cbn [andb].
    destruct (IH (pre ++ [r.2.2]) (count + r.2.1) Hg ltac:(lia) ltac:(lia)) as (bs & Hl & E).
    rewrite length_app, Nat.add_1_r, <- !(assoc_L (++)) in E. cbn [app length] in E. exists (r.2.2 :: bs). split; [cbn; by rewrite Hl|].
    rewrite E, <- Z.add_assoc. done.
Qed.

Lemma honest_full rs : full rs = true -> honest rs = caps rs.*1.*1.
Proof.
  induction rs as [|r rs IH]; [done|]. cbn. intros [E%Z.eqb_eq ?]%andb_true_iff. fold (caps rs.*1.*1). rewrite IH by done.
  rewrite (proj2 (Z.ltb_ge _ _)) by lia. lia.
Qed.

(** The bytes that are counted have been moved. *)
Lemma honest_got k rs :
  Forall (run_ok k) rs -> Forall good rs.*1.*1 ->
  0 <= honest rs <= zlen (wanted k rs.*1) /\ take (Z.to_nat (honest rs)) (wanted k rs.*1) ⊆ got k rs.
Proof.
  induction 1 as [|r rs Hr Hrs IH]; [intros _; split; [unfold zlen; cbn; lia|done]|]. cbn [fmap list_fmap]. intros [Hb Hg]%Forall_cons.
  destruct (IH Hg) as [Hh Hsub]. pose proof (run_range k r Hr Hb) as Hn. destruct Hr as (_ & Hp & _).
  change (got k (r :: rs)) with (take (Z.to_nat r.2.1) (pairs k r.1.1 r.1.2) ++ got k rs).
  change (wanted k (r.1 :: rs.*1)) with (pairs k r.1.1 r.1.2 ++ wanted k rs.*1). rewrite zlen_app. cbn [honest].
  pose proof (op_pairs Hop k r.1.1 r.1.2 Hb). destruct (Z.ltb_spec r.2.1 r.1.1.(fvb_cap)) as [Hlt|Hge].
  - split; [lia|]. rewrite take_app_le by (unfold zlen in *; lia). set_solver.
  - split; [lia|]. rewrite Z2Nat.inj_add, (take_ge (pairs _ _ _)) by (unfold zlen in *; lia).
    rewrite take_app_ge by (unfold zlen in *; lia).
    replace (Z.to_nat r.2.1 + Z.to_nat (honest rs) - length (pairs k r.1.1 r.1.2))%nat with (Z.to_nat (honest rs)) by (unfold zlen in *; lia).
    set_solver.
Qed.

Lemma honest_len bs off rs l :
  rs.*1 = jobs bs off -> Forall good bs -> Forall (fun r => 0 < r.2.1 -> r.1.2 + r.2.1 <= l) rs ->
  (forall k, Forall (run_ok k) rs -> 0 < honest rs -> off + honest rs <= l).
Proof.
  revert off rs. induction bs as [|b bs IH]; intros off [|r rs] E Hg Hl k Hok Hpos; try done.
  cbn in E. injection E as E1 E2. apply Forall_cons in Hg as [Hb Hg]. apply Forall_cons in Hl as [Hr Hl]. apply Forall_cons in Hok as [Hro Hok].
  assert (Forall good rs.*1.*1) as Hg' by by rewrite E2, jobs_fst.
  destruct (honest_got k rs Hok Hg') as [[Hh _] _].
  assert (good r.1.1) as Hrb by by rewrite E1. pose proof (run_range k r Hro Hrb) as Hn. cbn [honest] in *. rewrite E1 in *. cbn in *.
  destruct (Z.ltb_spec r.2.1 b.(fvb_cap)); [by apply Hr|]. destruct (decide (honest rs = 0)) as [E0|];
    [specialize (Hr ltac:(lia)); lia|].
  pose proof (IH (off + b.(fvb_cap)) rs E2 Hg Hl k Hok ltac:(lia)). lia.
Qed.

Lemma none_behind k b off l o :
  good b -> 0 < b.(fvb_cap) -> 0 <= off -> pairs k b off = [] -> off <= o -> Forall good l -> wanted k (jobs l o) = [].
Proof.
  intros Hb Hc Ho Hz Hoo Hl. revert o Hoo. induction Hl as [|c l Hg Hl IH]; intros o Hoo; [done|]. unfold wanted. cbn.
  rewrite (op_end Hop k b off c o) by done. apply IH. pose proof (op_good Hop c Hg). lia.
Qed.

(** Nothing is counted only when nothing can be moved. *)
Lemma honest_zero k bs rest off rs :
  rs.*1 = jobs bs off -> Forall good (bs ++ rest) -> 0 <= off -> Forall (run_ok k) rs -> full rs = false \/ rest = [] ->
  honest rs = 0 -> wanted k (jobs (bs ++ rest) off) = [].
Proof.
  revert off rs. induction bs as [|b bs IH]; intros off rs E Hg Ho Hok Hend Hz.
  { cbn in E. apply fmap_nil_inv in E as ->. by destruct Hend as [| ->]. }
  destruct rs as [|r rs]; [done|]. cbn in E. injection E as E1 E2. cbn in Hg. apply Forall_cons in Hg as [Hb Hg]. apply Forall_cons in Hok as [Hro Hok].
  assert (good r.1.1) as Hrb by by rewrite E1. pose proof (run_range k r Hro Hrb) as Hn. destruct Hro as (_ & Hp & Hnone).
  pose proof (op_pairs Hop k r.1.1 r.1.2 Hrb). cbn [honest] in Hz. rewrite E1 in *. cbn [fst snd] in *. unfold wanted. cbn.
  fold (wanted k (jobs (bs ++ rest) (off + b.(fvb_cap)))).
  assert (Forall good rs.*1.*1) as Hg' by (rewrite E2, jobs_fst; by apply Forall_app in Hg as [? _]).
  destruct (honest_got k rs Hok Hg') as [[Hh _] _].
  destruct (Z.ltb_spec r.2.1 b.(fvb_cap)) as [Hlt|Hge].
  - rewrite (Hnone Hz). apply (none_behind k b off); [done|lia|done|auto|lia|done].
  - rewrite (zlen_nil_inv (pairs k b off)) by lia. cbn. apply (IH _ rs E2 Hg); [lia|done| |lia].
    destruct Hend as [Hf|]; [left|by right]. unfold full in Hf. cbn in Hf. rewrite E1 in Hf. cbn in Hf.
    by rewrite (proj2 (Z.eqb_eq r.2.1 _)) in Hf by lia.
Qed.

Lemma honest_app rs rs' : full rs = true -> honest (rs ++ rs') = honest rs + honest rs'.
Proof.
  induction rs as [|r rs IH]; [done|]. cbn. intros [E%Z.eqb_eq ?]%andb_true_iff. rewrite IH by done.
  rewrite (proj2 (Z.ltb_ge _ _)) by lia. lia.
Qed.

Lemma full_app rs rs' : full (rs ++ rs') = full rs && full rs'.
Proof. apply forallb_app. Qed.

Section vector.
Context (Hsched : sched_ok) (bufs : list FileVolatileBuf) (off : Z) (x : X).
Context (Hgood : Forall good bufs) (Hoff : 0 <= off) (Hfit : off + caps bufs < 2 ^ 63) (HB : off + caps bufs <= B).
Context (Hnd : NoDup (wanted (keep x) (jobs bufs off)).*1).

(** The first buffers [pre] are done, in full. *)
Definition upto (pre : list FileVolatileBuf) (s : nat * Z * Z * list FileVolatileBuf) (x' : X) : Prop :=
  exists rest bs rs, bufs = pre ++ rest /\ length bs = length pre /\
    s = (length pre, off + caps pre, caps pre, bs ++ rest) /\ rs.*1 = jobs pre off /\ full rs = true /\ moved rs x x'.

(** Some of the buffers are done: all, or one fell short. *)
Definition finished (r : answer (list FileVolatileBuf)) (x' : X) : Prop :=
  exists pre rest bs rs, bufs = pre ++ rest /\ r = (inr (honest rs), bs) /\ length bs = length bufs /\
    rs.*1 = jobs pre off /\ (full rs = false \/ rest = []) /\ moved rs x x'.

Lemma chunk_ends pre bs post done rs x1 :
  bufs = pre ++ bs ++ post -> length done = length pre -> rs.*1 = jobs pre off -> full rs = true -> moved rs x x1 ->
  exists ans x2, join sched (batch op bs (off + caps pre)) x1 = (x2, Ok ans) /\
    match settle ans (length pre) (caps pre) (done ++ bs ++ post) with
    | inl r => finished r x2
    | inr (count, cur') => upto (pre ++ bs) (length (pre ++ bs), advance bs (off + caps pre), count, cur') x2
    end.
Proof.
  intros Hb Hdone Hrs Hf Hm. pose proof Hm as [Hk _]. pose proof Hgood as Hg. rewrite Hb in Hg.
  apply Forall_app in Hg as [Hgp Hgr]. pose proof Hgr as [Hgb Hgs]%Forall_app.
  assert (forall l, Forall good l -> caps_ok l) as Hcap by (intros l H; eapply Forall_impl; [exact H|apply (op_good Hop)]).
  pose proof (caps_nonneg pre (Hcap _ Hgp)). pose proof (caps_nonneg bs (Hcap _ Hgb)). pose proof (caps_nonneg post (Hcap _ Hgs)).
  pose proof Hfit as Hfit'. pose proof HB as HB'. rewrite Hb, !caps_app in Hfit', HB'.
  rewrite batch_jobs, advance_caps by (try apply Hcap; (done || lia)).
  assert (jobs bufs off = jobs pre off ++ jobs bs (off + caps pre) ++ jobs post (off + caps pre + caps bs)) as Hjs by (by rewrite Hb, !jobs_app).
  assert (NoDup (wanted (keep x) (jobs pre off ++ jobs bs (off + caps pre))).*1) as Hnd2.
  { pose proof Hnd as H'. rewrite Hjs, (assoc_L (++)), wanted_app, fmap_app in H'. by apply NoDup_app in H' as (? & _). }
  destruct (join_ends (jobs bs (off + caps pre)) x1 Hsched) as (rs2 & x2 & Hj & Hrs2 & Hm2).
  { apply jobs_ok; [done|lia|lia|lia]. }
  { rewrite Hk. rewrite wanted_app, fmap_app in Hnd2. by apply NoDup_app in Hnd2 as (_ & _ & ?). }
  eexists _, x2. split; [exact Hj|].
  assert ((rs ++ rs2).*1 = jobs (pre ++ bs) off) as Hrs12 by by rewrite fmap_app, Hrs, Hrs2, jobs_app.
  assert (moved (rs ++ rs2) x x2) as Hm12 by (eapply moved_app; [rewrite Hrs12, jobs_app; exact Hnd2|exact Hm|exact Hm2]).
  assert (rs2.*1.*1 = bs) as Ebs by by rewrite Hrs2, jobs_fst.
  assert (length rs2 = length bs) as Hlen by by rewrite <- Ebs, !length_fmap.
  pose proof (honest_full rs Hf) as Hh. rewrite Hrs, jobs_fst in Hh.
  destruct (settle_spec (keep x1) done rs2 post (caps pre)) as (bs' & Hl' & E); [apply Hm2|by rewrite Ebs|lia|rewrite Ebs; lia|].
  rewrite Ebs, Hdone in E. rewrite E. destruct (full rs2) eqn:Hf2.
  - pose proof (honest_full rs2 Hf2) as Hh2. rewrite Ebs in Hh2. exists post, (done ++ bs'), (rs ++ rs2).
    rewrite <- !(assoc_L (++)), caps_app, !length_app, full_app, Hf, Hf2. split_and!; try done; [lia|]. rewrite Hh2. do 3 f_equal. lia.
  - exists (pre ++ bs), post, (done ++ bs' ++ post), (rs ++ rs2). rewrite <- (assoc_L (++)), honest_app, full_app, Hf, Hf2, Hh by done.
    split_and!; try done; [rewrite Hb, !length_app; lia|by left].
Qed.

Lemma upto_finished pre s x' : upto pre s x' -> length bufs = length pre -> finished (inr s.1.2, s.2) x'.
Proof.
  intros (rest & bs & rs & Hb & Hl & -> & Hrs & Hf & Hm) Hlen.
  assert (rest = []) as -> by (apply length_zero_iff_nil; rewrite Hb, length_app in Hlen; lia).
  pose proof (honest_full rs Hf) as Hh. rewrite Hrs, jobs_fst in Hh.
  exists pre, [], bs, rs. cbn. rewrite Hh, !app_nil_r. rewrite app_nil_r in Hb. split_and!; [done|done|lia|done|by right|done].
Qed.

Lemma quads_ends :
  zlen bufs < 2 ^ 64 ->
  ends (loop (quad_round sched op) (0%nat, off, 0, bufs)) (fun r x' =>
    match r with inl a => finished a x' | inr s => exists pre, upto pre s x' end) x.
Proof.
  intros Hl. eapply (ends_loop (fun s x' => exists pre, upto pre s x') (fun s _ => zlen bufs - Z.of_nat s.1.1.1)).
  - intros s x' (pre & rest & bs & rs & Hb & _ & -> & _). cbn. rewrite Hb. unfold zlen. rewrite length_app. lia.
  - intros s x' (pre & rest & bs & rs & Hb & Hlb & -> & Hrs & Hf & Hm). unfold quad_round.
    destruct (Nat.leb_spec 4 (length (bs ++ rest) - length pre)) as [H4|H4].
    + rewrite drop_app_length' by done. rewrite length_app, Hlb in H4.
      destruct (chunk_ends pre (take 4 rest) (drop 4 rest) bs rs x') as (ans & x2 & Hj & Hr); [by rewrite take_drop|done..|].
      rewrite take_drop in Hr. unfold ends, mbind, prog_mbind, prog_bind. rewrite Hj. destruct (settle _ _ _ _) as [r|[count cur]]; [exact Hr|].
      cbn. rewrite length_app, length_take_le in Hr by lia. split; [by eexists|lia].
    + apply ends_mret. by exists pre, rest, bs, rs.
  - exists [], bufs, [], []. cbn. rewrite Z.add_0_r. split_and!; try done. apply moved_nil.
  - cbn. lia.
Qed.

Lemma many_ends b b' l :
  bufs = b :: b' :: l -> zlen bufs < 2 ^ 64 -> ends (vectored_at sched op bufs off) finished x.
Proof.
  intros Hb Hl. pose proof (quads_ends Hl) as Hq. unfold vectored_at. rewrite Hb at 1.
  eapply ends_bind; [exact Hq|]. intros [r|[[[pos o] count] cur]] x1 Hr; [by apply ends_mret|].
  destruct Hr as (pre & Hu). pose proof Hu as (rest & bs & rs & Hbr & Hlb & [= -> -> -> ->] & Hrs & Hf & Hm). destruct rest as [|c rest].
  - rewrite drop_ge by (rewrite length_app; cbn; lia). apply ends_mret. apply (upto_finished pre _ _ Hu). by rewrite Hbr, app_nil_r.
  - rewrite drop_app_length' by done.
    destruct (chunk_ends pre (c :: rest) [] bs rs x1) as (ans & x2 & Hj & Hr); [by rewrite app_nil_r|done..|].
    rewrite app_nil_r in Hr. unfold ends, mbind, prog_mbind, prog_bind. rewrite Hj. destruct (settle _ _ _ _) as [r|[count cur]]; [exact Hr|].
    apply (upto_finished _ _ _ Hr). by rewrite Hbr.
Qed.

End vector.

Lemma vectored_finished bufs off x :
  sched_ok -> Forall good bufs -> 0 <= off -> off + caps bufs < 2 ^ 63 -> off + caps bufs <= B ->
  NoDup (wanted (keep x) (jobs bufs off)).*1 -> zlen bufs < 2 ^ 64 ->
  ends (vectored_at sched op bufs off) (finished bufs off x) x.
Proof.
  intros Hs Hg Ho Hfit HB Hnd Hl. destruct bufs as [|b [|b' bs]]; [..|by eapply many_ends].
  - apply ends_mret. exists [], [], [], []. split_and!; try done; [by right|apply moved_nil].
  - destruct (call_moved (b, off) x) as (r & x1 & Hrun & Hm).
    { apply Forall_cons in Hg as [Hg _]. cbn in Hfit, HB. rewrite Z.add_0_r in Hfit, HB. by split_and!. }
    unfold ends, vectored_at, mbind, prog_mbind, prog_bind. cbn in Hrun. rewrite Hrun.
    exists [b], [], [r.2], [((b, off), r)]. split_and!; try done; [|by right].
    cbn. rewrite Z.add_0_r. by destruct (_ <? _).
Qed.
End calls.

(** What a vectored call counts it moved, and it moves nothing else than what it
    was to move; it counts nothing only when there is nothing to move. *)
Lemma vectored_ends bufs off x :
  op_ok -> sched_ok -> Forall good bufs -> 0 <= off -> off + caps bufs < 2 ^ 63 ->
  NoDup (wanted (keep x) (jobs bufs off)).*1 -> zlen bufs < 2 ^ 64 ->
  exists n bufs' ps x', vectored_at sched op bufs off x = (x', Ok (inr n, bufs')) /\
    let all := wanted (keep x) (jobs bufs off) in
    0 <= n <= zlen all /\ (n = 0 -> all = []) /\ keep x' = keep x /\
    stored ps (view x) (view x') /\ take (Z.to_nat n) all ⊆ ps /\ ps `sublist_of` all /\
    len x <= len x' <= Z.max (len x) (off + caps bufs) /\ (0 < n -> off + n <= len x').
Proof.
  intros Hop Hs Hg Ho Hfit Hnd Hl. pose proof (vectored_finished (off + caps bufs) Hop bufs off x Hs Hg Ho Hfit ltac:(lia) Hnd Hl) as He.
  unfold ends in He. destruct (vectored_at sched op bufs off x) as [x' [r|e|]]; [|done..].
  destruct He as (pre & rest & bs & rs & Hb & -> & _ & Hrs & Hend & Hk & Hok & Hst & Hlen & Hfar).
  pose proof Hg as Hg'. rewrite Hb in Hg'. apply Forall_app in Hg' as [Hgp Hgr].
  destruct (honest_got Hop (keep x) rs Hok) as [Hh Hsub]; [by rewrite Hrs, jobs_fst|]. rewrite Hrs in Hh, Hsub.
  assert (wanted (keep x) (jobs bufs off) = wanted (keep x) (jobs pre off) ++ wanted (keep x) (jobs rest (off + caps pre))) as Hw
    by by rewrite Hb, jobs_app, wanted_app.
  exists (honest rs), bs, (got (keep x) rs), x'. split; [done|]. cbv zeta. split_and!; try done; try lia.
  - rewrite Hw, zlen_app. pose proof (zlen_nonneg (wanted (keep x) (jobs rest (off + caps pre)))). lia.
  - intros Hz. rewrite Hb. eapply honest_zero; try done. by rewrite <- Hb.
  - rewrite Hw, take_app_le by (unfold zlen in Hh; lia). exact Hsub.
  - rewrite Hw. apply sublist_inserts_r. rewrite <- Hrs. apply got_wanted.
  - intros Hpos. by eapply honest_len.
Qed.
End generic.

(** ** Regular files *)

(** What [pwrite] does to a file: the gap before the data is zeros. *)
Definition pwrite_bytes (off : Z) (data content : bytes) : bytes :=
  match data with
  | [] => content
  | _ =>
    take (Z.to_nat off) (content ++ replicate (Z.to_nat off - length content) 0) ++ data ++
    drop (Z.to_nat off + length data) content
  end.

Definition byte_at (c : bytes) (i : Z) : Z := if i <? 0 then 0 else nth (Z.to_nat i) c 0.

(** How many bytes a read of [n] bytes at [off] gives. *)
Definition readable (c : bytes) (n off : Z) : Z := Z.min n (Z.max 0 (zlen c - off)).

(** The kernel and io-uring on a regular file: positioned calls move some of
    the bytes, and none only when there are none to move; a system call may be
    interrupted before it did anything, a bounded number of times.  [mem] is the
    memory and [content] the file. *)
Record regular_file {X} `{FileIo X} `{UringIo X} (fd : Z) (mem : X -> Z -> Z) (content : X -> bytes) (patience : X -> Z) : Prop := {
  rf_patience : forall x, 0 <= patience x < 2 ^ 64;
  rf_preadv : forall base len off x, 0 <= len -> 0 <= off ->
    (exists n x', sys_preadv64 fd [mk_iovec base len] 1 off x = (x', n) /\
      0 <= n <= readable (content x) len off /\ (n = 0 -> readable (content x) len off = 0) /\
      content x' = content x /\ mem x' = put (seqZ base len) (take (Z.to_nat n) (drop (Z.to_nat off) (content x))) (mem x)) \/
    (exists x', sys_preadv64 fd [mk_iovec base len] 1 off x = (x', -1) /\ errno x' = EINTR /\
      content x' = content x /\ mem x' = mem x /\ patience x' < patience x);
  rf_pwritev : forall base len off x, 0 <= len -> 0 <= off ->
    (exists n x', sys_pwritev64 fd [mk_iovec base len] 1 off x = (x', n) /\ 0 <= n <= len /\ (n = 0 -> len = 0) /\
      content x' = pwrite_bytes off (map (mem x) (seqZ base n)) (content x) /\ mem x' = mem x) \/
    (exists x', sys_pwritev64 fd [mk_iovec base len] 1 off x = (x', -1) /\ errno x' = EINTR /\
      content x' = content x /\ mem x' = mem x /\ patience x' < patience x);
  rf_uring_read : forall base cap off x, 0 <= cap -> 0 <= off ->
    exists n x', uring_read_at fd (mkFileVolatileBuf base 0 cap) off x = (x', Ok (inr n, mkFileVolatileBuf base n cap)) /\
      0 <= n <= readable (content x) cap off /\ (n = 0 -> readable (content x) cap off = 0) /\
      content x' = content x /\ mem x' = put (seqZ base cap) (take (Z.to_nat n) (drop (Z.to_nat off) (content x))) (mem x);
  rf_uring_write : forall base cap off x, 0 <= cap -> 0 <= off ->
    exists n x', uring_write_at fd (mkFileVolatileBuf base cap cap) off x = (x', Ok (inr n, mkFileVolatileBuf base cap cap)) /\
      0 <= n <= cap /\ (n = 0 -> cap = 0) /\
      content x' = pwrite_bytes off (map (mem x) (seqZ base n)) (content x) /\ mem x' = mem x;
}.

Definition raw_fd (f : AsyncFile) : Z := match f with Tokio fd | Uring fd => fd end.

(** A buffer to read into, and one that is full of data to write. *)
Definition empty_buf (b : FileVolatileBuf) : Prop := b.(fvb_size) = 0 /\ 0 <= b.(fvb_cap) < 2 ^ 63.
Definition full_buf (b : FileVolatileBuf) : Prop := b.(fvb_size) = b.(fvb_cap) /\ 0 <= b.(fvb_cap).

Definition buf_span (b : FileVolatileBuf) : list Z := seqZ b.(fvb_addr) b.(fvb_cap).
Definition buf_addrs (bufs : list FileVolatileBuf) : list Z := concat (map buf_span bufs).

Lemma readable_range c n off : 0 <= n -> 0 <= readable c n off <= n.
Proof. unfold readable. lia. Qed.

Lemma signed_off off : 0 <= off < 2 ^ 63 -> signed 64 off = off.
Proof. intros H. unfold signed, wrap. cbv zeta. rewrite Z.mod_small by lia. change (64 - 1) with 63. by rewrite (proj2 (Z.ltb_lt _ _)) by lia. Qed.

Lemma pwrite_length off data c :
  0 <= off -> zlen (pwrite_bytes off data c) = Z.max (if zlen data =? 0 then 0 else off + zlen data) (zlen c).
Proof.
  intros Ho. unfold zlen, pwrite_bytes. destruct data as [|d data]; [change (Z.of_nat (length []) =? 0) with true; cbv iota; lia|].
  rewrite (proj2 (Z.eqb_neq _ _)) by (cbn; lia). rewrite !length_app, length_take, length_app, length_replicate, length_drop. cbn [length]. lia.
Qed.

Lemma elem_of_zip_seqZ off (data : bytes) a b :
  (a, b) ∈ zip (seqZ off (zlen data)) data <-> off <= a /\ data !! Z.to_nat (a - off) = Some b.
Proof.
  rewrite list_elem_of_lookup. setoid_rewrite lookup_zip_with_Some. split.
  - intros (i & a' & b' & [= -> ->] & Ha & Hb). apply lookup_seqZ in Ha as [-> Hi]. split; [lia|]. by replace (Z.to_nat (off + Z.of_nat i - off)) with i by lia.
  - intros [Ha Hb]. exists (Z.to_nat (a - off)), a, b. split_and!; [done| |done]. apply lookup_seqZ.
    apply lookup_lt_Some in Hb. unfold zlen. lia.
Qed.

Lemma pwrite_stored off data c :
  0 <= off -> stored (zip (seqZ off (zlen data)) data) (byte_at c) (byte_at (pwrite_bytes off data c)).
Proof.
  intros Ho. destruct data as [|d data']; [apply stored_nil|]. set (data := d :: data') in *. split.
  - intros a b [Ha Hb]%elem_of_zip_seqZ. unfold byte_at. rewrite (proj2 (Z.ltb_ge _ _)) by lia. apply nth_lookup_Some.
    unfold pwrite_bytes, data. fold data. rewrite lookup_app_r; rewrite length_take, length_app, length_replicate; [|lia].
    replace (Z.to_nat a - _)%nat with (Z.to_nat (a - off)) by lia. by apply lookup_app_l_Some.
  - intros a Ha. rewrite fst_zip in Ha by (unfold zlen; rewrite length_seqZ; lia). rewrite elem_of_seqZ in Ha. unfold byte_at.
    destruct (Z.ltb_spec a 0); [done|]. rewrite !nth_lookup. unfold pwrite_bytes, data. fold data. unfold zlen in Ha.
    destruct (decide (a < off)) as [Hlt|Hge].
    + rewrite lookup_app_l by (rewrite length_take, length_app, length_replicate; lia). rewrite lookup_take_lt by lia.
      destruct (decide (Z.to_nat a < length c)%nat) as [Hc|Hc]; [by rewrite lookup_app_l|].
      rewrite lookup_app_r, lookup_replicate_2, (lookup_ge_None_2 c) by lia. done.
    + rewrite lookup_app_r; rewrite length_take, length_app, length_replicate; [|lia]. rewrite lookup_app_r, lookup_drop by lia.
      do 2 f_equal. lia.
Qed.

Lemma zip_app_drop {A B} (a1 a2 : list A) (d : list B) : zip (a1 ++ a2) d = zip a1 d ++ zip a2 (drop (length a1) d).
Proof.
  revert d. induction a1 as [|a a1 IH]; intros d; [by rewrite drop_0|]. destruct d as [|b d]; cbn; [by destruct a2|]. by rewrite IH.
Qed.

Section regular.
Context {X : Type} {IO : FileIo X} {UIO : UringIo X} (fd : Z) (mem : X -> Z -> Z) (content : X -> bytes) (patience : X -> Z).
Context (RF : regular_file fd mem content patience).

(** A call that is repeated while it is interrupted. *)
Lemma retry_ends (call : X -> X * Z) (Q : Z -> X -> X -> Prop) x :
  (forall x, 0 <= patience x < 2 ^ 64) ->
  (forall x x1 n x', content x1 = content x -> mem x1 = mem x -> Q n x1 x' -> Q n x x') ->
  (forall x, (exists n x', call x = (x', n) /\ 0 <= n /\ Q n x x') \/
    (exists x', call x = (x', -1) /\ errno x' = EINTR /\ content x' = content x /\ mem x' = mem x /\ patience x' < patience x)) ->
  ends (loop (retry_round call) tt) (fun n x' => Q n x x') x.
Proof.
  intros Hp HQ Hcall. eapply (ends_loop (fun _ x' => content x' = content x /\ mem x' = mem x) (fun _ x' => patience x')).
  - intros _ x' _. apply Hp.
  - intros [] x1 [Hc Hm]. unfold ends, retry_round, mbind, prog_mbind, prog_bind, catch, ret_usize.
    destruct (Hcall x1) as [(n & x' & -> & Hn & Hq)|(x' & -> & He & Hc' & Hm' & Hlt)].
    + rewrite (proj2 (Z.leb_le _ _)) by done. cbn. by eapply HQ.
    + cbn. rewrite He. cbn. split; [split; congruence|done].
  - done.
  - apply Hp.
Qed.

Lemma ends_run {A} (m : prog X io_error A) Q x : ends m Q x -> exists a x', m x = (x', Ok a) /\ Q a x'.
Proof. unfold ends. destruct (m x) as [x' [a|e|]]; [|done..]. intros H. by exists a, x'. Qed.

Lemma read_run f b off x :
  raw_fd f = fd -> empty_buf b -> 0 <= off < 2 ^ 63 ->
  exists n x', async_read_at f b off x = (x', Ok (inr n, mkFileVolatileBuf b.(fvb_addr) n b.(fvb_cap))) /\
    0 <= n <= readable (content x) b.(fvb_cap) off /\ (n = 0 -> readable (content x) b.(fvb_cap) off = 0) /\
    content x' = content x /\ mem x' = put (buf_span b) (take (Z.to_nat n) (drop (Z.to_nat off) (content x))) (mem x).
Proof.
  intros Hfd [Hs Hc] Ho. destruct b as [addr size cap]. cbn in *. subst size.
  destruct f as [fd'|fd']; cbn in Hfd; subst fd'; [|apply (rf_uring_read _ _ _ _ RF addr cap off x); lia].
  unfold async_read_at, preadv. cbn [map io_slice_mut fvb_addr fvb_size fvb_cap]. unfold io_slice_mut, wrap. cbn [fvb_addr fvb_size fvb_cap].
  rewrite Z.add_0_r, Z.sub_0_r, Z.mod_small, signed_off by lia. change (signed 32 (zlen [mk_iovec addr cap])) with 1.
  destruct (ends_run _ _ _ (retry_ends (sys_preadv64 fd [mk_iovec addr cap] 1 off)
    (fun n x x' => 0 <= n <= readable (content x) cap off /\ (n = 0 -> readable (content x) cap off = 0) /\ content x' = content x /\
       mem x' = put (seqZ addr cap) (take (Z.to_nat n) (drop (Z.to_nat off) (content x))) (mem x)) x (rf_patience _ _ _ _ RF)
    ltac:(intros ? ? ? ? E1 E2; cbv beta; by rewrite E1, E2)
    ltac:(intros y; destruct (rf_preadv _ _ _ _ RF addr cap off y) as [(n & y' & Hy & ? & ?)|?];
      [lia|lia|left; exists n, y'; split; [exact Hy|]; split; [lia|done]|by right])))
    as (n & x' & Hl & Hn & Hz & Hcx & Hmx).
  exists n, x'. split; [|done]. pose proof (readable_range (content x) cap off ltac:(lia)) as Hr.
  unfold mbind, prog_mbind, prog_bind, catch. rewrite Hl. cbn [fill fvb_cap fvb_size]. unfold wrap.
  rewrite Z.sub_0_r, Z.mod_small by lia. rewrite Z.min_l, Z.sub_diag, Z.add_0_l by lia.
  unfold set_size. cbn [fvb_cap fvb_addr]. by rewrite (proj2 (Z.leb_le _ _)) by lia.
Qed.

Lemma write_run f b off x :
  raw_fd f = fd -> full_buf b -> 0 <= off < 2 ^ 63 ->
  exists n x', async_write_at f b off x = (x', Ok (inr n, b)) /\ 0 <= n <= b.(fvb_cap) /\ (n = 0 -> b.(fvb_cap) = 0) /\
    content x' = pwrite_bytes off (map (mem x) (seqZ b.(fvb_addr) n)) (content x) /\ mem x' = mem x.
Proof.
  intros Hfd [Hs Hc] Ho. destruct b as [addr size cap]. cbn in *. subst size.
  destruct f as [fd'|fd']; cbn in Hfd; subst fd'; [|apply (rf_uring_write _ _ _ _ RF addr cap off x); lia].
  unfold async_write_at, pwritev. cbn [map]. unfold io_slice. cbn [fvb_addr fvb_size fvb_cap].
  rewrite signed_off by lia. change (signed 32 (zlen [mk_iovec addr cap])) with 1.
  destruct (ends_run _ _ _ (retry_ends (sys_pwritev64 fd [mk_iovec addr cap] 1 off)
    (fun n x x' => 0 <= n <= cap /\ (n = 0 -> cap = 0) /\
       content x' = pwrite_bytes off (map (mem x) (seqZ addr n)) (content x) /\ mem x' = mem x)
    x (rf_patience _ _ _ _ RF)
    ltac:(intros ? ? ? ? E1 E2; cbv beta; by rewrite E1, E2)
    ltac:(intros y; destruct (rf_pwritev _ _ _ _ RF addr cap off y) as [(n & y' & Hy & ? & ?)|?];
      [lia|lia|left; exists n, y'; split; [exact Hy|]; split; [lia|done]|by right])))
    as (n & x' & Hl & Hn & Hz & Hcx & Hmx).
  exists n, x'. split; [|done]. unfold mbind, prog_mbind, prog_bind, catch. by rewrite Hl.
Qed.

(** ** One call for each buffer *)

Definition read_pairs (k : bytes) (b : FileVolatileBuf) (o : Z) : list (Z * Z) := zip (buf_span b) (drop (Z.to_nat o) k).

Lemma take_zip {A B} n (l : list A) (k : list B) : take n (zip l k) = zip l (take n k).
Proof. revert l k. induction n as [|n IH]; intros [|a l] [|b k]; [done..|]. cbn. by rewrite IH. Qed.

Lemma read_pairs_length k b o : 0 <= b.(fvb_cap) -> 0 <= o -> zlen (read_pairs k b o) = readable k b.(fvb_cap) o.
Proof.
  intros Hb Ho. unfold read_pairs, buf_span, readable, zlen. rewrite length_zip_with, length_seqZ, length_drop. lia.
Qed.

Lemma read_op_ok f :
  raw_fd f = fd -> op_ok (async_read_at f) content mem (fun x => zlen (content x)) empty_buf read_pairs.
Proof.
  intros Hf. split.
  - intros x b o Hb Ho Hc. pose proof Hb as [_ Hcap].
    destruct (read_run f b o x Hf Hb ltac:(lia)) as (n & x' & Hr & Hn & Hz & Hcx & Hmx). eexists n, _, x'. split; [exact Hr|].
    pose proof (read_pairs_length (content x) b o ltac:(lia) Ho) as Hl. rewrite Hl, Hcx. split_and!; try done; try lia.
    + intros E. apply zlen_nil_inv. rewrite Hl. auto.
    + rewrite Hmx. unfold read_pairs. rewrite take_zip. apply put_stored, NoDup_seqZ.
    + unfold readable in Hn. lia.
  - intros b [_ ?]. lia.
  - intros k b o [_ Hb]. unfold read_pairs, buf_span, zlen. rewrite length_zip_with, length_seqZ. lia.
  - intros k b o b' o' [_ Hb] Hpos Ho Hz Hle. apply (f_equal length) in Hz. unfold read_pairs, buf_span in *.
    rewrite length_zip_with, length_seqZ, length_drop in Hz. cbn in Hz. rewrite drop_ge by lia. by destruct (seqZ _ _).
Qed.

Definition write_pairs (m : Z -> Z) (b : FileVolatileBuf) (o : Z) : list (Z * Z) := zip (seqZ o b.(fvb_cap)) (map m (buf_span b)).

Lemma write_pairs_length m b o : 0 <= b.(fvb_cap) -> zlen (write_pairs m b o) = b.(fvb_cap).
Proof. intros Hb. unfold write_pairs, buf_span, zlen. rewrite length_zip_with, length_map, !length_seqZ. lia. Qed.

Lemma take_seqZ o n c : 0 <= n <= c -> take (Z.to_nat n) (seqZ o c) = seqZ o n.
Proof.
  intros Hn. replace c with (n + (c - n)) by lia. rewrite seqZ_app by lia. apply take_app_length'. by rewrite length_seqZ.
Qed.

Lemma take_write_pairs m b o n :
  0 <= n <= b.(fvb_cap) -> take (Z.to_nat n) (write_pairs m b o) = zip (seqZ o n) (map m (seqZ b.(fvb_addr) n)).
Proof.
  intros Hn. unfold write_pairs, buf_span. rewrite take_zip, firstn_map, take_seqZ by done.
  replace b.(fvb_cap) with (n + (b.(fvb_cap) - n)) by lia. rewrite seqZ_app, zip_app_drop by lia.
  rewrite (drop_ge (map _ _)) by (by rewrite length_map, !length_seqZ). by rewrite zip_with_nil_r, app_nil_r.
Qed.

Lemma write_op_ok f :
  raw_fd f = fd -> op_ok (async_write_at f) mem (fun x => byte_at (content x)) (fun x => zlen (content x)) full_buf write_pairs.
Proof.
  intros Hf. split.
  - intros x b o Hb Ho Hc. pose proof Hb as [_ Hcap].
    destruct (write_run f b o x Hf Hb ltac:(lia)) as (n & x' & Hr & Hn & Hz & Hcx & Hmx). exists n, b, x'. split; [exact Hr|].
    pose proof (write_pairs_length (mem x) b o Hcap) as Hl.
    assert (zlen (map (mem x) (seqZ b.(fvb_addr) n)) = n) as Hd by (unfold zlen; rewrite length_map, length_seqZ; lia).
    pose proof (pwrite_length o (map (mem x) (seqZ b.(fvb_addr) n)) (content x) Ho) as Hlen. rewrite <- Hcx, Hd in Hlen.
    pose proof (zlen_nonneg (content x)). rewrite Hl. split_and!; try done.
    + lia.
    + lia.
    + intros E. apply zlen_nil_inv. rewrite Hl. auto.
    + rewrite take_write_pairs, Hcx by done. rewrite <- Hd at 1. by apply pwrite_stored.
    + lia.
    + destruct (Z.eqb_spec n 0); lia.
    + destruct (Z.eqb_spec n 0); lia.
  - by intros b [_ ?].
  - intros k b o [_ Hb]. by rewrite write_pairs_length.
  - intros k b o b' o' [_ Hb] Hpos Ho Hz. pose proof (write_pairs_length k b o Hb) as E. rewrite Hz in E. cbn in E. unfold zlen in E. cbn in E. lia.
Qed.
End regular.

(** ** All calls together *)

Lemma NoDup_zip_fst {A B} (l : list A) (d : list B) : NoDup l -> NoDup (zip l d).*1.
Proof.
  intros H. revert d. induction H as [|a l Ha _ IH]; intros d; [apply NoDup_nil_2|]. destruct d as [|b d]; [apply NoDup_nil_2|].
  cbn. apply NoDup_cons_2; [|apply IH]. intros ([a' b'] & -> & Hin)%list_elem_of_fmap. by apply elem_of_zip_l in Hin.
Qed.

Lemma read_wanted k bufs off :
  Forall empty_buf bufs -> 0 <= off -> wanted read_pairs k (jobs bufs off) = zip (buf_addrs bufs) (drop (Z.to_nat off) k).
Proof.
  intros H. revert off. induction H as [|b bufs [_ Hb] _ IH]; intros off Ho; [done|]. cbn. fold (wanted read_pairs k (jobs bufs (off + b.(fvb_cap)))).
  unfold buf_addrs. cbn. rewrite zip_app_drop, IH, drop_drop by lia. unfold read_pairs, buf_span at 4. cbn. f_equal. f_equal. f_equal.
  rewrite length_seqZ. lia.
Qed.

Definition buf_data (m : Z -> Z) (bufs : list FileVolatileBuf) : bytes := map m (buf_addrs bufs).

Lemma buf_addrs_zlen bufs : caps_ok bufs -> zlen (buf_addrs bufs) = caps bufs.
Proof.
  unfold zlen. induction 1 as [|b bufs Hb _ IH]; [done|]. unfold buf_addrs. cbn. fold (caps bufs).
  rewrite length_app. fold (buf_addrs bufs). unfold buf_span. rewrite length_seqZ. lia.
Qed.

Lemma write_wanted m bufs off :
  Forall full_buf bufs -> wanted write_pairs m (jobs bufs off) = zip (seqZ off (caps bufs)) (buf_data m bufs).
Proof.
  intros H. revert off. induction H as [|b bufs [_ Hb] Hbs IH]; intros off; [done|]. cbn. fold (wanted write_pairs m (jobs bufs (off + b.(fvb_cap)))).
  fold (caps bufs). rewrite IH. pose proof (caps_nonneg bufs ltac:(eapply Forall_impl; [exact Hbs|by intros ? [? ?]])).
  rewrite seqZ_app by lia. unfold buf_data, buf_addrs. cbn. rewrite map_app, zip_with_app; [done|].
  unfold buf_span. by rewrite length_map, !length_seqZ.
Qed.

Lemma bytes_ext (c c' : bytes) : zlen c = zlen c' -> (forall i, byte_at c i = byte_at c' i) -> c = c'.
Proof.
  intros Hl H. apply (nth_ext _ _ 0 0); [unfold zlen in Hl; lia|]. intros n _. specialize (H (Z.of_nat n)). unfold byte_at in H.
  rewrite (proj2 (Z.ltb_ge _ _)) in H by lia. by rewrite Nat2Z.id in H.
Qed.

(** ** Whole transfers *)

(** The kernel on a file that answers positioned calls with some of the bytes:
    a write takes at least one, a read gives none only at the end of the file. *)
Record positioned_file {X} `{FileIo X} (fd : Z) (mem : X -> Z -> Z) (content : X -> bytes) (patience : X -> Z) : Prop := {
  pf_patience : forall x, 0 <= patience x;
  pf_pread : forall base len off x, 0 < len -> 0 <= off ->
    (exists n x', sys_pread64 fd (mk_iovec base len) off x = (x', n) /\ 0 <= n <= readable (content x) len off /\
      (n = 0 -> readable (content x) len off = 0) /\ content x' = content x /\ patience x' <= patience x /\
      mem x' = put (seqZ base len) (take (Z.to_nat n) (drop (Z.to_nat off) (content x))) (mem x)) \/
    (exists x', sys_pread64 fd (mk_iovec base len) off x = (x', -1) /\ errno x' = EINTR /\
      content x' = content x /\ mem x' = mem x /\ patience x' < patience x);
  pf_pwrite : forall base len off x, 0 < len -> 0 <= off ->
    (exists n x', sys_pwrite64 fd (mk_iovec base len) off x = (x', n) /\ 1 <= n <= len /\
      content x' = pwrite_bytes off (map (mem x) (seqZ base n)) (content x) /\ mem x' = mem x /\ patience x' <= patience x) \/
    (exists x', sys_pwrite64 fd (mk_iovec base len) off x = (x', -1) /\ errno x' = EINTR /\
      content x' = content x /\ mem x' = mem x /\ patience x' < patience x);
}.

Lemma pwrite_drop off d c :
  0 <= off -> drop (Z.to_nat off) (pwrite_bytes off d c) = d ++ drop (Z.to_nat off + length d) c.
Proof.
  intros Ho. destruct d as [|b d]; [cbn; by rewrite Nat.add_0_r|]. unfold pwrite_bytes. apply drop_app_length'.
  rewrite length_take, length_app, length_replicate. lia.
Qed.

(** Two writes one after the other are one. *)
Lemma pwrite_app off d1 d2 c :
  0 <= off -> pwrite_bytes (off + zlen d1) d2 (pwrite_bytes off d1 c) = pwrite_bytes off (d1 ++ d2) c.
Proof.
  intros Ho. assert (zlen (d1 ++ d2) = zlen d1 + zlen d2) as Hl by (unfold zlen; rewrite length_app; lia).
  assert (0 <= zlen d1 /\ 0 <= zlen d2 /\ 0 <= zlen c) as (? & ? & ?) by (unfold zlen; lia). apply bytes_ext.
  - rewrite !pwrite_length, Hl by lia. repeat case_match; zify_bool; lia.
  - intros i. eapply stored_det; [|by apply pwrite_stored].
    rewrite Hl, seqZ_app, zip_with_app by (done || (rewrite length_seqZ; unfold zlen; lia)). eapply stored_app; [|apply (pwrite_stored off d1 c Ho)|apply pwrite_stored; lia].
    rewrite <- zip_with_app, <- seqZ_app by (done || (rewrite length_seqZ; unfold zlen; lia)). apply NoDup_zip_fst, NoDup_seqZ.
Qed.

Lemma put_more addr size k n (d : bytes) m :
  0 <= k -> 0 <= n -> k + n <= size -> k + n <= zlen d ->
  put (seqZ (addr + k) (size - k)) (take (Z.to_nat n) (drop (Z.to_nat k) d)) (put (seqZ addr size) (take (Z.to_nat k) d) m) =
  put (seqZ addr size) (take (Z.to_nat (k + n)) d) m.
Proof.
  intros Hk Hn Hs Hd. unfold zlen in Hd. replace size with (k + (size - k)) at 2 3 by lia. rewrite seqZ_app by lia.
  rewrite put_short by (rewrite length_take, length_seqZ; lia).
  rewrite Z2Nat.inj_add, <- take_take_drop, put_app by (rewrite ?length_take, ?length_seqZ; lia). done.
Qed.

Lemma put_clip addrs (d : bytes) k m : (Nat.min (length addrs) (length d) <= k)%nat -> put addrs (take k d) m = put addrs d m.
Proof.
  revert d k m. induction addrs as [|a addrs IH]; intros [|b d] [|k] m Hk; cbn in *; try done; [lia|]. apply IH. lia.
Qed.

Section transfer.
Context {X : Type} {IO : FileIo X} (fd : Z) (mem : X -> Z -> Z) (content : X -> bytes) (patience : X -> Z).
Context (PF : positioned_file fd mem content patience).

(** What is left of a slice after [k] bytes. *)
Lemma fvs_offset_run s n :
  0 <= n <= s.(fvs_size) -> 0 <= s.(fvs_addr) -> s.(fvs_addr) + s.(fvs_size) < 2 ^ 64 ->
  fvs_offset_unwrap s n = Ok (from_raw_ptr (s.(fvs_addr) + n) (s.(fvs_size) - n)).
Proof.
  intros Hn Ha Hs. unfold fvs_offset_unwrap, fvs_offset, checked_add, checked_sub, U64_MAX.
  rewrite (proj2 (Z.leb_le (s.(fvs_addr) + n) _)) by lia. cbn. by rewrite (proj2 (Z.leb_le n _)) by lia.
Qed.

(** A slice of the address space, and the file positions it goes to. *)
Definition slice_ok (s : FileVolatileSlice) (off : Z) : Prop :=
  0 <= s.(fvs_size) /\ 0 <= s.(fvs_addr) /\ s.(fvs_addr) + s.(fvs_size) < 2 ^ 64 /\ 0 <= off /\ off + s.(fvs_size) < 2 ^ 63.

(** The loop's variables after [k] bytes. *)
Definition rest_of (s : FileVolatileSlice) (off k : Z) : FileVolatileSlice * Z :=
  (from_raw_ptr (s.(fvs_addr) + k) (s.(fvs_size) - k), off + k).

(** A round whose call moved [n] bytes goes on behind them. *)
Lemma round_step (one : FileVolatileSlice -> Z -> prog X io_error Z) none s off k n x x' Q :
  slice_ok s off -> 0 <= k -> 0 < n -> k + n <= s.(fvs_size) ->
  one (rest_of s off k).1 (rest_of s off k).2 x = (x', Ok n) ->
  Q (inr (inl (rest_of s off (k + n)))) x' -> gives (exact_at_round one none (rest_of s off k)) Q x.
Proof.
  intros (Hs & Ha & Has & Ho & Hos) Hk Hn Hkn Hone HQ. unfold rest_of in *. unfold exact_at_round, fvs_is_empty. cbn [fst snd] in *. cbn [fvs_size from_raw_ptr].
  rewrite (proj2 (Z.eqb_neq _ _)) by lia. unfold gives, mbind, prog_mbind, prog_bind, catch. rewrite Hone. cbv beta iota zeta.
  rewrite (proj2 (Z.eqb_neq n 0)) by lia. rewrite fvs_offset_run by (cbn; lia). cbn [lift].
  unfold checked_add, U64_MAX. rewrite (proj2 (Z.leb_le _ _)) by lia. cbn. by rewrite <- !Z.add_assoc, <- Z.sub_add_distr.
Qed.

(** A round that is interrupted starts again. *)
Lemma round_interrupted (one : FileVolatileSlice -> Z -> prog X io_error Z) none r e x x' Q :
  r.1.(fvs_size) <> 0 -> one r.1 r.2 x = (x', Err e) -> error_kind e = Interrupted ->
  Q (inr (inl r)) x' -> gives (exact_at_round one none r) Q x.
Proof.
  intros Hs Hone He HQ. destruct r as [slice off]. unfold exact_at_round, fvs_is_empty. cbn [fst snd] in *. rewrite (proj2 (Z.eqb_neq _ _)) by done.
  unfold gives, mbind, prog_mbind, prog_bind, catch. rewrite Hone. cbv beta iota zeta. by rewrite He.
Qed.

(** A round whose call moved nothing fails. *)
Lemma round_none (one : FileVolatileSlice -> Z -> prog X io_error Z) none r x x' Q :
  r.1.(fvs_size) <> 0 -> one r.1 r.2 x = (x', Ok 0) -> Q (inl (Simple none)) x' -> gives (exact_at_round one none r) Q x.
Proof.
  intros Hs Hone HQ. destruct r as [slice off]. unfold exact_at_round, fvs_is_empty. cbn [fst snd] in *. rewrite (proj2 (Z.eqb_neq _ _)) by done.
  unfold gives, mbind, prog_mbind, prog_bind, catch. by rewrite Hone.
Qed.

Lemma round_done (one : FileVolatileSlice -> Z -> prog X io_error Z) none s off Q x :
  Q (inr (inr tt)) x -> gives (exact_at_round one none (rest_of s off s.(fvs_size))) Q x.
Proof. intros HQ. unfold rest_of, exact_at_round, fvs_is_empty. cbn. by rewrite Z.sub_diag. Qed.

Lemma write_all_gives s off x :
  slice_ok s off -> patience x + s.(fvs_size) < 2 ^ 64 ->
  gives (write_all_at_volatile (File_volatile fd) s off) (fun r x' => r = inr tt /\
    content x' = pwrite_bytes off (load (mem x) s) (content x) /\ mem x' = mem x /\ patience x' <= patience x) x.
Proof.
  intros Hok Hp. pose proof Hok as (Hs & Ha & Has & Ho & Hos).
  eapply (gives_loop (fun v x' => exists k, 0 <= k <= s.(fvs_size) /\ v = rest_of s off k /\
      content x' = pwrite_bytes off (map (mem x) (seqZ s.(fvs_addr) k)) (content x) /\ mem x' = mem x /\ patience x' <= patience x)
    (fun v x' => patience x' + v.1.(fvs_size))).
  - intros v x' (k & Hk & -> & _). pose proof (pf_patience _ _ _ _ PF x'). cbn. lia.
  - intros v x1 (k & Hk & -> & Hc & Hm & Hp1). destruct (decide (k = s.(fvs_size))) as [->|Hne]; [apply round_done; split_and!; done|].
    destruct (pf_pwrite _ _ _ _ PF (s.(fvs_addr) + k) (s.(fvs_size) - k) (off + k) x1 ltac:(lia) ltac:(lia))
      as [(n & x' & Hw & Hn & Hc' & Hm' & Hp')|(x' & Hw & He & Hc' & Hm' & Hp')].
    + eapply (round_step _ _ s off k n x1 x'); [done|lia|lia|lia| |].
      { cbn. unfold iov_of, ret_usize. cbn. rewrite signed_off by lia. rewrite Hw. by rewrite (proj2 (Z.leb_le _ _)) by lia. }
      split; [|cbn; lia]. exists (k + n). split_and!; [lia|lia|done| |congruence|lia].
      rewrite Hc', Hc, Hm. rewrite seqZ_app, map_app, <- pwrite_app by lia. unfold zlen. rewrite length_map, length_seqZ. do 2 f_equal. lia.
    + eapply (round_interrupted _ _ _ (Os (errno x')) x1 x'); [cbn; lia| |by rewrite He|].
      { cbn. unfold iov_of, ret_usize. cbn. rewrite signed_off by lia. by rewrite Hw. }
      split; [|cbn; lia]. exists k. split_and!; [lia|lia|done|congruence|congruence|lia].
  - exists 0. unfold rest_of. rewrite !Z.add_0_r, Z.sub_0_r. split_and!; [lia|lia|by destruct s|done|done|done].
  - cbn. lia.
Qed.

Lemma read_exact_gives s off x :
  slice_ok s off -> patience x + s.(fvs_size) < 2 ^ 64 ->
  let n := readable (content x) s.(fvs_size) off in
  gives (read_exact_at_volatile (File_volatile fd) s off) (fun r x' =>
    r = (if n =? s.(fvs_size) then inr tt else inl (Simple UnexpectedEof)) /\
    content x' = content x /\ mem x' = put (seqZ s.(fvs_addr) s.(fvs_size)) (drop (Z.to_nat off) (content x)) (mem x)) x.
Proof.
  intros Hok Hp n0. pose proof Hok as (Hs & Ha & Has & Ho & Hos). set (d := drop (Z.to_nat off) (content x)).
  assert (zlen d = Z.max 0 (zlen (content x) - off)) as Hd by (unfold d, zlen; rewrite length_drop; lia).
  assert (n0 = Z.min s.(fvs_size) (zlen d)) as Hn0 by (by rewrite Hd).
  pose proof (eq_refl : d = drop (Z.to_nat off) (content x)) as Hdd. clearbody d n0.
  eapply (gives_loop (fun v x' => exists k, 0 <= k <= n0 /\ v = rest_of s off k /\ content x' = content x /\
      mem x' = put (seqZ s.(fvs_addr) s.(fvs_size)) (take (Z.to_nat k) d) (mem x) /\ patience x' <= patience x)
    (fun v x' => patience x' + v.1.(fvs_size))).
  - intros v x' (k & Hk & -> & _). pose proof (pf_patience _ _ _ _ PF x'). cbn. lia.
  - intros v x1 (k & Hk & -> & Hc & Hm & Hp1).
    assert (k = n0 -> mem x1 = put (seqZ s.(fvs_addr) s.(fvs_size)) d (mem x)) as Hend.
    { intros ->. rewrite Hm. apply put_clip. rewrite length_seqZ. unfold zlen in Hn0. lia. }
    destruct (decide (k = s.(fvs_size))) as [->|Hne].
    { apply round_done. rewrite (proj2 (Z.eqb_eq n0 _)) by lia. split_and!; [done..|apply Hend; lia]. }
    assert (forall l, readable (content x1) l (off + k) = Z.min l (zlen d - k)) as Hrd.
    { intros l. rewrite Hc. unfold readable. lia. }
    destruct (pf_pread _ _ _ _ PF (s.(fvs_addr) + k) (s.(fvs_size) - k) (off + k) x1 ltac:(lia) ltac:(lia))
      as [(n & x' & Hw & Hn & Hz & Hc' & Hp' & Hm')|(x' & Hw & He & Hc' & Hm' & Hp')].
    + rewrite Hrd in Hn, Hz. rewrite Hc in Hm'. replace (drop (Z.to_nat (off + k)) (content x)) with (drop (Z.to_nat k) d) in Hm'
        by (rewrite Hdd, drop_drop; f_equal; lia).
      assert (read_at_volatile (File_volatile fd) (rest_of s off k).1 (rest_of s off k).2 x1 = (x', Ok n)) as Hr.
      { cbn. unfold iov_of, ret_usize. cbn. rewrite signed_off by lia. rewrite Hw. by rewrite (proj2 (Z.leb_le _ _)) by lia. }
      destruct (decide (n = 0)) as [->|Hn0'].
      * specialize (Hz eq_refl). eapply (round_none _ _ _ x1 x'); [cbn; lia|exact Hr|]. rewrite (proj2 (Z.eqb_neq n0 _)) by lia.
        split_and!; [done|congruence|]. rewrite Hm'. change (Z.to_nat 0) with 0%nat. rewrite take_0, put_nil. apply Hend. lia.
      * eapply (round_step _ _ s off k n x1 x'); [done|lia|lia|lia|exact Hr|]. split; [|cbn; lia].
        exists (k + n). split_and!; [lia|lia|done|congruence| |lia]. rewrite Hm', Hm. apply put_more; lia.
    + eapply (round_interrupted _ _ _ (Os (errno x')) x1 x'); [cbn; lia| |by rewrite He|].
      { cbn. unfold iov_of, ret_usize. cbn. rewrite signed_off by lia. by rewrite Hw. }
      split; [|cbn; lia]. exists k. split_and!; [lia|lia|done|congruence|congruence|lia].
  - exists 0. unfold rest_of. rewrite !Z.add_0_r, Z.sub_0_r, take_0, put_nil. split_and!; [lia|lia|by destruct s|done|done|done].
  - cbn. lia.
Qed.
End transfer.
(** C23: writing a slice to a file and reading it back.  However the kernel cuts
    and interrupts the calls, [write_all_at_volatile] ends with all bytes of the
    slice in the file at the offset and nothing else changed, and
    [read_exact_at_volatile] at the same offset then ends with these bytes in its
    slice, the rest of the memory and the file as they were. *)
Theorem volatile_write_read_roundtrip {X} `{FileIo X} fd mem content patience src dst off (x : X) :
  positioned_file fd mem content patience -> slice_ok src off -> slice_ok dst off -> dst.(fvs_size) = src.(fvs_size) ->
  patience x + src.(fvs_size) < 2 ^ 64 ->
  exists x1 x2,
    write_all_at_volatile (File_volatile fd) src off x = (x1, Ok tt) /\
    content x1 = pwrite_bytes off (load (mem x) src) (content x) /\ mem x1 = mem x /\
    read_exact_at_volatile (File_volatile fd) dst off x1 = (x2, Ok tt) /\
    content x2 = content x1 /\ load (mem x2) dst = load (mem x) src /\
    (forall a, a ∉ fspan dst -> mem x2 a = mem x a).
Proof.
  intros PF Hsrc Hdst Hsize Hp. pose proof (write_all_gives fd mem content patience PF src off x Hsrc Hp) as Hw. unfold gives in Hw.
  destruct (write_all_at_volatile _ _ _ _) as [x1 [[]|e|]]; [|by destruct Hw|done]. destruct Hw as (_ & Hc1 & Hm1 & Hp1).
  pose proof (read_exact_gives fd mem content patience PF dst off x1 Hdst ltac:(lia)) as Hr. unfold gives in Hr.
  destruct Hsrc as (Hs & _ & _ & Ho & _). pose proof Hdst as (Hs' & _).
  assert (zlen (load (mem x) src) = dst.(fvs_size)) as Hl by (unfold load, zlen; rewrite length_map, length_seqZ; lia).
  assert (readable (content x1) dst.(fvs_size) off = dst.(fvs_size)) as Hrd.
  { unfold readable. rewrite Hc1, pwrite_length, Hl by done. destruct (Z.eqb_spec dst.(fvs_size) 0); lia. }
  rewrite Hrd, Z.eqb_refl, Hc1, pwrite_drop in Hr by done.
  assert (length (seqZ dst.(fvs_addr) dst.(fvs_size)) = length (load (mem x) src)) as Hlen by (rewrite length_seqZ; unfold zlen in Hl; lia).
  destruct (read_exact_at_volatile _ _ _ _) as [x2 [[]|e|]] eqn:Er; [|by destruct Hr|done]. destruct Hr as (_ & Hc2 & Hm2).
  rewrite <- (put_clip _ _ (length (load (mem x) src))), take_app_length in Hm2 by lia.
  exists x1, x2. split_and!; [done|done|done|exact Er|congruence| |].
  - rewrite Hm2. pose proof (put_read (seqZ dst.(fvs_addr) dst.(fvs_size)) (load (mem x) src) (mem x1) (NoDup_seqZ _ _) ltac:(lia)) as E.
    by rewrite take_ge in E by lia.
  - intros a Ha. rewrite Hm2, put_other by done. by rewrite Hm1.
Qed.

(** [v'] is [v] with some of [all] stored, the first [n] among them. *)
Definition stored_some (all : list (Z * Z)) (n : Z) (v v' : Z -> Z) : Prop :=
  (forall a b, (a, b) ∈ take (Z.to_nat n) all -> v' a = b) /\ (forall a, v' a = v a \/ (a, v' a) ∈ all).

Lemma stored_none all v : stored_some all 0 v v.
Proof. split; [intros a b Hab; by apply elem_of_nil in Hab|by left]. Qed.

Lemma stored_between ps all n v v' :
  stored ps v v' -> take (Z.to_nat n) all ⊆ ps -> ps `sublist_of` all -> stored_some all n v v'.
Proof.
  intros [Hin Hout] Hsub Hall. split; [intros a b Hab; by apply Hin, Hsub|]. intros a.
  destruct (decide (a ∈ ps.*1)) as [([a' b] & -> & Hp)%list_elem_of_fmap|Hn]; [right|left; by apply Hout].
  cbn. rewrite (Hin _ _ Hp). by eapply elem_of_submseteq; [|apply sublist_submseteq].
Qed.

(** The first [n] values are there. *)
Lemma stored_front addrs (data : bytes) n v v' :
  stored_some (zip addrs data) n v v' -> 0 <= n <= zlen addrs -> n <= zlen data ->
  map v' (take (Z.to_nat n) addrs) = take (Z.to_nat n) data.
Proof.
  intros [Hin _] Ha Hd. assert (forall (l : list Z) (d : bytes), length l = length d -> (forall a b, (a, b) ∈ zip l d -> v' a = b) -> map v' l = d) as H.
  { induction l as [|a l IH]; intros [|b d] Hl Hz; try done. cbn. f_equal; [apply Hz; left|]. apply IH; [by injection Hl|].
    intros a' b' ?. apply Hz. by right. }
  unfold zlen in *. apply H; [rewrite !length_take; lia|]. intros a b Hab. apply Hin. rewrite take_zip.
  rewrite <- (take_drop (Z.to_nat n) addrs), zip_app_drop. by apply elem_of_app; left.
Qed.

(** Reading into many buffers.  [async_read_vectored_at_volatile] on a regular
    file, with empty buffers that do not overlap, in whatever order the reads of a
    batch complete: the bytes it counts are those of the file from the offset
    on, in the buffers one after the other; what is behind them in the buffers is
    as it was or the bytes that belong there, since a read of a batch that fell
    short does not undo those behind it; nothing else changes. *)
Lemma async_read_vectored_moves {X} `{FileIo X} `{UringIo X} sched f mem content patience bufs off (x : X) :
  sched_ok sched -> regular_file (raw_fd f) mem content patience ->
  Forall empty_buf bufs -> NoDup (buf_addrs bufs) -> zlen bufs < 2 ^ 64 -> 0 <= off -> off + caps bufs < 2 ^ 63 ->
  exists n bufs' x', async_read_vectored_at_volatile sched f bufs off x = (x', Ok (inr n, bufs')) /\
    0 <= n <= readable (content x) (caps bufs) off /\ (n = 0 -> readable (content x) (caps bufs) off = 0) /\ content x' = content x /\
    stored_some (zip (buf_addrs bufs) (drop (Z.to_nat off) (content x))) n (mem x) (mem x').
Proof.
  intros Hs HR Hb Hnd Hl Ho Hfit.
  destruct (vectored_ends sched _ _ _ _ _ _ bufs off x (read_op_ok _ mem content patience HR f eq_refl) Hs Hb Ho Hfit)
    as (n & bufs' & ps & x' & Hr & Hn & Hz & Hk & Hst & Hfront & Hall & _); [rewrite read_wanted by done; by apply NoDup_zip_fst|done|].
  rewrite read_wanted in * by done.
  assert (zlen (zip (buf_addrs bufs) (drop (Z.to_nat off) (content x))) = readable (content x) (caps bufs) off) as Hlen.
  { pose proof (buf_addrs_zlen bufs ltac:(eapply Forall_impl; [exact Hb|intros ? [? ?]; lia])) as E. unfold readable, zlen in *.
    rewrite length_zip_with, length_drop. lia. }
  exists n, bufs', x'. rewrite <- Hlen. split_and!; [exact Hr|lia|lia| |done|by eapply stored_between].
  intros E. by rewrite (Hz E).
Qed.

(** Writing from many buffers.  [async_write_vectored_at_volatile] on a regular
    file, with buffers full of data, in whatever order the writes of a batch
    complete: the bytes it counts are in the file from the offset on; behind
    them, up to the length of the data, the file has what it had or the bytes that
    belong there; nothing else changes. *)
Lemma async_write_vectored_moves {X} `{FileIo X} `{UringIo X} sched f mem content patience bufs off (x : X) :
  sched_ok sched -> regular_file (raw_fd f) mem content patience ->
  Forall full_buf bufs -> zlen bufs < 2 ^ 64 -> 0 <= off -> off + caps bufs < 2 ^ 63 ->
  exists n bufs' x', async_write_vectored_at_volatile sched f bufs off x = (x', Ok (inr n, bufs')) /\
    0 <= n <= caps bufs /\ (n = 0 -> caps bufs = 0) /\ mem x' = mem x /\
    stored_some (zip (seqZ off (caps bufs)) (buf_data (mem x) bufs)) n (byte_at (content x)) (byte_at (content x')) /\
    zlen (content x) <= zlen (content x') <= Z.max (zlen (content x)) (off + caps bufs) /\ (0 < n -> off + n <= zlen (content x')).
Proof.
  intros Hs HR Hb Hl Ho Hfit.
  destruct (vectored_ends sched _ _ _ _ _ _ bufs off x (write_op_ok _ mem content patience HR f eq_refl) Hs Hb Ho Hfit)
    as (n & bufs' & ps & x' & Hr & Hn & Hz & Hk & Hst & Hfront & Hall & Hlen & Hfar);
    [rewrite write_wanted by done; apply NoDup_zip_fst, NoDup_seqZ|done|].
  rewrite write_wanted in * by done. assert (caps_ok bufs) as Hc by (eapply Forall_impl; [exact Hb|by intros ? [? ?]]).
  pose proof (caps_nonneg bufs Hc). assert (zlen (zip (seqZ off (caps bufs)) (buf_data (mem x) bufs)) = caps bufs) as E.
  { pose proof (buf_addrs_zlen bufs Hc) as E. unfold buf_data, zlen in *. rewrite length_zip_with, length_map, length_seqZ. lia. }
  rewrite E in Hn. exists n, bufs', x'. split_and!; [exact Hr|lia|lia| |done| |lia|lia|done].
  - intros E0. by rewrite <- E, (Hz E0).
  - by eapply stored_between.
Qed.

(** ** A small file

    The memory, the content of the only file, and how often the next calls are
    interrupted.  A positioned call moves at most two bytes, a vectored one at most
    three. *)
Record ToyFile := mkToyFile { tf_mem : Z -> Z; tf_content : bytes; tf_intr : nat; tf_errno : Z }.

Definition toy_call (call : ToyFile -> ToyFile * Z) (x : ToyFile) : ToyFile * Z :=
  match x.(tf_intr) with
  | S k => (mkToyFile x.(tf_mem) x.(tf_content) (Nat.min k 7) EINTR, -1)
  | O => call x
  end.

Definition toy_read (base len n off : Z) (x : ToyFile) : ToyFile * Z :=
  let n := readable x.(tf_content) n off in
  (mkToyFile (put (seqZ base len) (take (Z.to_nat n) (drop (Z.to_nat off) x.(tf_content))) x.(tf_mem)) x.(tf_content) 0 0, n).

Definition toy_write (base n off : Z) (x : ToyFile) : ToyFile * Z :=
  (mkToyFile x.(tf_mem) (pwrite_bytes off (map x.(tf_mem) (seqZ base n)) x.(tf_content)) 0 0, n).

Definition toy_all (call : iovec -> ToyFile -> ToyFile * Z) (iovs : list iovec) (x : ToyFile) : ToyFile * Z :=
  match iovs with [v] => toy_call (call v) x | _ => (x, -1) end.

#[global] Instance toy_file_io : FileIo ToyFile := {|
  sys_read _ _ x := (x, -1);
  sys_write _ _ x := (x, -1);
  sys_readv _ _ _ x := (x, -1);
  sys_writev _ _ _ x := (x, -1);
  sys_pread64 _ v off := toy_call (toy_read v.(iov_base) v.(iov_len) (Z.min 2 v.(iov_len)) off);
  sys_pwrite64 _ v off := toy_call (toy_write v.(iov_base) (Z.min 2 v.(iov_len)) off);
  sys_preadv64 _ vs _ off := toy_all (fun v => toy_read v.(iov_base) v.(iov_len) (Z.min 3 v.(iov_len)) off) vs;
  sys_pwritev64 _ vs _ off := toy_all (fun v => toy_write v.(iov_base) (Z.min 3 v.(iov_len)) off) vs;
  errno := tf_errno;
|}.

#[global] Instance toy_uring_io : UringIo ToyFile := {|
  uring_read_at _ b off x :=
    let '(x', n) := toy_read b.(fvb_addr) b.(fvb_cap) (Z.min 3 b.(fvb_cap)) off x in
    (x', Ok (inr n, mkFileVolatileBuf b.(fvb_addr) n b.(fvb_cap)));
  uring_write_at _ b off x := let '(x', n) := toy_write b.(fvb_addr) (Z.min 3 b.(fvb_size)) off x in (x', Ok (inr n, b));
  uring_readv_at _ bufs off x := (x, Ok (inl (Os EIO), bufs));
  uring_writev_at _ bufs off x := (x, Ok (inl (Os EIO), bufs));
|}.

Definition toy_patience (x : ToyFile) : Z := Z.min 8 (Z.of_nat x.(tf_intr)).

(** A call does its work or is interrupted. *)
Lemma toy_call_cases call x :
  (toy_call call x = call x) \/
  (exists x', toy_call call x = (x', -1) /\ x'.(tf_errno) = EINTR /\ x'.(tf_content) = x.(tf_content) /\
    x'.(tf_mem) = x.(tf_mem) /\ toy_patience x' < toy_patience x).
Proof.
  unfold toy_call, toy_patience. destruct (x.(tf_intr)) as [|k]; [by left|]. right. eexists. split_and!; [done..|]. cbn [tf_intr]. lia.
Qed.

Lemma toy_regular fd : regular_file fd tf_mem tf_content toy_patience.
Proof.
  split.
  - intros x. unfold toy_patience. lia.
  - intros base len off x Hl Ho. cbn. destruct (toy_call_cases (toy_read base len (Z.min 3 len) off) x) as [->|?]; [left|by right].
    eexists _, _. split; [done|]. cbn. unfold readable. split_and!; [lia|lia|lia|done|done].
  - intros base len off x Hl Ho. cbn. destruct (toy_call_cases (toy_write base (Z.min 3 len) off) x) as [->|?]; [left|by right].
    eexists _, _. split; [done|]. cbn. split_and!; [lia|lia|lia|done|done].
  - intros base cap off x Hc Ho. eexists _, _. split; [done|]. cbn. unfold readable. split_and!; [lia|lia|lia|done|done].
  - intros base cap off x Hc Ho. eexists _, _. split; [done|]. cbn. split_and!; [lia|lia|lia|done|done].
Qed.

Lemma toy_positioned fd : positioned_file fd tf_mem tf_content toy_patience.
Proof.
  split.
  - intros x. unfold toy_patience. lia.
  - intros base len off x Hl Ho. cbn. destruct (toy_call_cases (toy_read base len (Z.min 2 len) off) x) as [->|?]; [left|by right].
    eexists _, _. split; [done|]. cbn. unfold toy_patience, readable. cbn [tf_intr]. split_and!; [lia|lia|lia|done|lia|done].
  - intros base len off x Hl Ho. cbn. destruct (toy_call_cases (toy_write base (Z.min 2 len) off) x) as [->|?]; [left|by right].
    eexists _, _. split; [done|]. unfold toy_patience. cbn [tf_intr tf_content tf_mem]. split_and!; [lia|lia|done|done|lia].
Qed.

(** The last operation of a batch completes first. *)
Definition backwards (n : nat) : list nat := reverse (seq 0 n).

Lemma backwards_ok : sched_ok backwards.
Proof. intros n. apply reverse_Permutation. Qed.

Definition toy_start : ToyFile := mkToyFile (fun a => a mod 256) [1; 2; 3; 4; 5; 6; 7; 8; 9] 3 0.

Lemma volatile_write_read_roundtrip_witness :
  exists x1 x2,
    write_all_at_volatile (File_volatile 3) (from_raw_ptr 50 5) 7 toy_start = (x1, Ok tt) /\
    read_exact_at_volatile (File_volatile 3) (from_raw_ptr 80 5) 7 x1 = (x2, Ok tt) /\
    x1.(tf_content) = [1; 2; 3; 4; 5; 6; 7; 50; 51; 52; 53; 54] /\ load x2.(tf_mem) (from_raw_ptr 80 5) = [50; 51; 52; 53; 54].
Proof.
  destruct (volatile_write_read_roundtrip 3 tf_mem tf_content toy_patience (from_raw_ptr 50 5) (from_raw_ptr 80 5) 7 toy_start)
    as (x1 & x2 & Hw & Hc & _ & Hr & _ & Hl & _); [apply toy_positioned|by vm_compute|by vm_compute|done|by vm_compute|].
  exists x1, x2. split_and!; [exact Hw|exact Hr|by rewrite Hc; vm_compute|by rewrite Hl; vm_compute].
Defined.
