(* ===== verification/Session.v ===== *)
(** * The fuse session on Linux ([src/transport/fusedev/linux_session.rs])

    [FuseSession] mounts the file system, itself or through the helper
    fusermount, holds the connection with the kernel and unmounts;
    [FuseChannel] waits on the connection for the next request.

    The host is an interface over a state [X]: system calls of nix give an
    errno, those of the standard library an [io::Error].  A file or socket is its
    descriptor, and dropping it closes the descriptor.  A [SessionFailure] carries
    the constant part of its message.

    The theorems show that on every path, the failing ones included, the
    descriptors that are open are the ones the session and its channels hold and no others; that
    the options given to fusermount are read by it as the ones intended; and that
    a channel hands over the requests of the kernel in order, each once and
    whole, and stops when it is told to. *)

From stdpp Require Import gmap.
From S2P Require Import Prelude Std Codec Lib Transport TransportProps FuseDev ProgLogic Host Instances.

(** ** Constants *)

Definition FUSE_DEVICE : bytes := bs "/dev/fuse".
Definition FUSE_FSTYPE : bytes := bs "fuse".
Definition FUSERMOUNT_BIN : bytes := bs "fusermount3".
Definition EXIT_FUSE_EVENT : Z := 0.
Definition FUSE_DEV_EVENT : Z := 1.
Definition FUSE_KERN_BUF_PAGES : Z := 256.
Definition FUSE_HEADER_SIZE : Z := 0x1000.
Definition ENODEV : Z := 19.
Definition POLLERR : Z := 8.
Definition MNT_DETACH : Z := 2.
Definition O_NONBLOCK : Z := 0x800.

Definition MS_RDONLY : Z := 1.
Definition MS_NOSUID : Z := 2.
Definition MS_NODEV : Z := 4.
Definition MS_NOEXEC : Z := 8.
Definition MS_SYNCHRONOUS : Z := 16.
Definition MS_NOATIME : Z := 1024.

(** ** The host *)

(** [mio::event::Event]. *)
Record Event : Set := mkEvent { ev_token : Z; ev_readable : bool; ev_error : bool }.

(** [std::process::Command], with the environment it adds. *)
Record Command : Set := mkCommand { cmd_program : bytes; cmd_args : list bytes; cmd_env : list (bytes * bytes) }.

Class SessionHost (X : Type) : Type := {
  h_pagesize : Z;
  h_canonicalize : bytes -> prog X io_error bytes;
  h_is_dir : bytes -> X -> bool;
  h_open_rw : bytes -> prog X io_error Z;
  h_close : Z -> X -> X;
  h_dup : Z -> prog X io_error Z;
  h_mode : bytes -> prog X io_error Z;
  h_getuid : X -> Z;
  h_getgid : X -> Z;
  h_mount : bytes -> bytes -> bytes -> Z -> bytes -> prog X Z unit;
  h_umount2 : bytes -> Z -> prog X Z unit;
  h_setfl : Z -> Z -> prog X Z unit;
  h_setfd : Z -> Z -> prog X Z unit;
  h_clone : Z -> Z -> prog X Z unit;
  h_socketpair : prog X io_error (Z * Z);
  h_spawn : Command -> prog X io_error Z;
  h_wait : Z -> prog X io_error (option Z);
  h_status : Command -> prog X io_error (option Z);
  h_recv_with_fd : Z -> prog X Z (Z * option Z);
  h_poll : Z -> prog X Z (option Z);
  h_poll_new : prog X io_error Z;
  h_waker_new : Z -> Z -> prog X io_error Z;
  h_epoll_add : Z -> Z -> Z -> prog X Z unit;
  h_wake : Z -> prog X io_error unit;
  h_epoll_wait : Z -> prog X io_error (list Event);
  h_read : Z -> Z -> prog X Z bytes;
}.
#[global] Hint Mode SessionHost ! : typeclass_instances.

(** ** Options *)

(** [{:o}] of a u32. *)
Fixpoint oct_digits (fuel : nat) (n : Z) : bytes :=
  match fuel with
  | O => []
  | S f => if n <? 8 then [48 + n] else oct_digits f (n / 8) ++ [48 + n mod 8]
  end.

(** [{}] of an integer of at most 64 bits. *)
Definition fmt (n : Z) : bytes := if n <? 0 then 45 :: dec_digits 20 (- n) else dec_digits 20 n.

Definition COMMA : Z := 44.

(** [join] with a comma between. *)
Fixpoint join_comma (l : list bytes) : bytes :=
  match l with
  | [] => []
  | [a] => a
  | a :: l' => a ++ COMMA :: join_comma l'
  end.

Definition msflags_to_string (flags : Z) : bytes :=
  join_comma (map (fun '(flag, (neg, pos)) => if has_all flags flag then pos else neg)
    [(MS_RDONLY, (bs "rw", bs "ro"));
     (MS_NOSUID, (bs "suid", bs "nosuid"));
     (MS_NODEV, (bs "dev", bs "nodev"));
     (MS_NOEXEC, (bs "exec", bs "noexec"));
     (MS_SYNCHRONOUS, (bs "async", bs "sync"));
     (MS_NOATIME, (bs "atime", bs "noatime"))]).

(** The [opts] of [fuse_kern_mount]. *)
Definition kern_opts (fd rootmode user_id group_id max_read : Z) (allow_other : bool) : bytes :=
  bs "default_permissions,fd=" ++ fmt fd ++ bs ",rootmode=" ++ oct_digits 11 rootmode ++
  bs ",user_id=" ++ fmt user_id ++ bs ",group_id=" ++ fmt group_id ++ bs ",max_read=" ++ fmt max_read ++
  (if allow_other then bs ",allow_other" else []).

(** The [opts] of [fuse_fusermount_mount]. *)
Definition fusermount_opts (fsname opts : bytes) (flags : Z) (subtype : bytes) (auto_unmount : bool) : bytes :=
  join_comma ([bs "fsname=" ++ fsname; opts; msflags_to_string flags] ++
    (match subtype with [] => [] | _ => [bs "subtype=" ++ subtype] end) ++
    (if auto_unmount then [bs "auto_unmount"] else [])).

(** The command of [fuse_fusermount_mount]. *)
Definition mount_command (target_mntns : option Z) (fusermount opts mountpoint : bytes) (commfd : Z) : Command :=
  let args := [bs "-o"; opts; bs "--"; mountpoint] in
  let env := [(bs "_FUSE_COMMFD", fmt commfd)] in
  match target_mntns with
  | Some pid => mkCommand (bs "nsenter") ([bs "-t"; fmt pid; bs "-m"; fusermount] ++ args) env
  | None => mkCommand fusermount args env
  end.

Definition umount_command (fusermount mountpoint : bytes) : Command :=
  mkCommand fusermount [bs "--unmount"; bs "--quiet"; bs "--lazy"; bs "--"; mountpoint] [].

(** ** [FuseSession] *)

Record FuseSession : Type := mkFuseSession {
  mountpoint : bytes;
  fsname : bytes;
  subtype : bytes;
  file : option Z;
  keep_alive : option Z;
  bufsize : Z;
  readonly : bool;
  wakers : list Z;
  auto_unmount : bool;
  allow_other : bool;
  target_mntns : option Z;
  fusermount : bytes;
}.

Definition with_file (f : option Z) (s : FuseSession) : FuseSession :=
  mkFuseSession s.(mountpoint) s.(fsname) s.(subtype) f s.(keep_alive) s.(bufsize) s.(readonly) s.(wakers) s.(auto_unmount)
    s.(allow_other) s.(target_mntns) s.(fusermount).
Definition with_keep_alive (k : option Z) (s : FuseSession) : FuseSession :=
  mkFuseSession s.(mountpoint) s.(fsname) s.(subtype) s.(file) k s.(bufsize) s.(readonly) s.(wakers) s.(auto_unmount)
    s.(allow_other) s.(target_mntns) s.(fusermount).
Definition with_wakers (l : list Z) (s : FuseSession) : FuseSession :=
  mkFuseSession s.(mountpoint) s.(fsname) s.(subtype) s.(file) s.(keep_alive) s.(bufsize) s.(readonly) l s.(auto_unmount)
    s.(allow_other) s.(target_mntns) s.(fusermount).
Definition set_target_mntns (pid : option Z) (s : FuseSession) : FuseSession :=
  mkFuseSession s.(mountpoint) s.(fsname) s.(subtype) s.(file) s.(keep_alive) s.(bufsize) s.(readonly) s.(wakers) s.(auto_unmount)
    s.(allow_other) pid s.(fusermount).
Definition set_fusermount (bin : bytes) (s : FuseSession) : FuseSession :=
  mkFuseSession s.(mountpoint) s.(fsname) s.(subtype) s.(file) s.(keep_alive) s.(bufsize) s.(readonly) s.(wakers) s.(auto_unmount)
    s.(allow_other) s.(target_mntns) bin.
Definition set_allow_other (allow : bool) (s : FuseSession) : FuseSession :=
  mkFuseSession s.(mountpoint) s.(fsname) s.(subtype) s.(file) s.(keep_alive) s.(bufsize) s.(readonly) s.(wakers) s.(auto_unmount)
    allow s.(target_mntns) s.(fusermount).

(** [FuseChannel]: the file, the epoll instance, the waker, and the buffer
    that requests are read into and replies are written to. *)
Record FuseChannel : Type := mkFuseChannel { ch_file : Z; ch_poll : Z; ch_waker : Z; ch_buf : bytes }.

Section session.
Context {X : Type} {HOST : SessionHost X}.
Abbreviation hprog := (prog X TransportError).
Abbreviation sprog := (prog (FuseSession * X) TransportError).

(** [map_err(|e| SessionFailure(..))] *)
Definition sess {E A} (msg : bytes) (m : prog X E A) : hprog A := prog_map_err (fun _ => SessionFailure msg) m.
(** [map_err(IoError)] *)
Definition io {A} (m : prog X io_error A) : hprog A := prog_map_err IoError m.
(** [unwrap()] *)
Definition or_panic {E A} (m : prog X E A) : hprog A := fun x =>
  match m x with (x', Ok a) => (x', Ok a) | (x', _) => (x', Panic) end.

(** The result as a value, to match on. *)
Definition attempt {E A} (m : prog X E A) : hprog (E + A) := fun x =>
  match m x with (x', Ok a) => (x', Ok (inr a)) | (x', Err e) => (x', Ok (inl e)) | (x', Panic) => (x', Panic) end.

(** A file or socket goes out of scope. *)
Definition h_drop (fd : Z) : hprog unit := modify (h_close fd).
Definition h_drop_opt (fd : option Z) : hprog unit := match fd with Some fd => h_drop fd | None => mret tt end.

Definition max_read : Z := FUSE_KERN_BUF_PAGES * h_pagesize (X := X) + FUSE_HEADER_SIZE.

Definition new_with_autounmount (mp name sub : bytes) (ro auto : bool) : hprog FuseSession :=
  dest ← sess (bs "invalid mountpoint") (h_canonicalize mp);
  d ← gets (h_is_dir dest);
  if (d : bool) then
    mret (mkFuseSession dest name sub None None max_read ro [] auto true None FUSERMOUNT_BIN)
  else fail (SessionFailure (bs "not a directory")).

Definition FuseSession_new (mp name sub : bytes) (ro : bool) : hprog FuseSession := new_with_autounmount mp name sub ro false.

(** What happens while the sending socket is held: fusermount is started and,
    unless it stays to unmount, waited for. *)
Definition run_fusermount (send : Z) (cmd : Command) (auto : bool) : hprog unit :=
  _ ← sess (bs "Failed to remove close-on-exec flag") (h_setfd send 0);
  proc ← io (h_spawn cmd);
  if auto then mret tt
  else
    code ← io (h_wait proc);
    match code with
    | Some c => if c =? 0 then mret tt else fail (SessionFailure (bs "Unexpected exit code when running fusermount"))
    | None => fail (SessionFailure (bs "Unexpected exit code when running fusermount"))
    end.

(** The file descriptor fusermount sends back. *)
Definition recv_file (recv : Z) (auto : bool) : hprog (Z * option Z) :=
  r ← sess (bs "Unexpected error when receiving fuse file descriptor from fusermount") (h_recv_with_fd recv);
  match r with
  | (_, Some fd) => if auto then mret (fd, Some recv) else _ ← h_drop recv; mret (fd, None)
  | (_, None) => fail (SessionFailure (bs "fusermount did not send a file descriptor"))
  end.

Definition fuse_fusermount_mount (mp name sub opts : bytes) (flags : Z) (auto : bool) (mntns : option Z) (bin : bytes)
  : hprog (Z * option Z) :=
  let opts := fusermount_opts name opts flags sub auto in
  '(send, recv) ← or_panic h_socketpair;
  or_drop (
    _ ← or_drop (run_fusermount send (mount_command mntns bin opts mp send) auto) (h_drop send);
    _ ← h_drop send;
    recv_file recv auto)
  (h_drop recv).

(** [fuse_kern_mount] once [/dev/fuse] is open; the file is given back when it
    is the connection, and dropped else. *)
Definition kern_mount_with (fd : Z) (mp name sub : bytes) (flags : Z) (auto other : bool) (mntns : option Z) (bin : bytes)
  : hprog (Z * option Z) :=
  mode ← sess (bs "stat") (h_mode mp);
  uid ← gets h_getuid;
  gid ← gets h_getgid;
  let opts := kern_opts fd (Z.land mode S_IFMT) uid gid max_read other in
  let fstype := FUSE_FSTYPE ++ match sub with [] => [] | _ => 46 :: sub end in
  let by_helper :=
    r ← fuse_fusermount_mount mp name sub opts flags auto mntns bin;
    _ ← h_drop fd;
    mret r in
  if auto || bool_decide (mntns <> None) then by_helper
  else
    r ← attempt (h_mount name mp fstype flags opts);
    match r with
    | inr _ => mret (fd, None)
    | inl e => if e =? EPERM then by_helper else fail (SessionFailure (bs "failed to mount"))
    end.

Definition fuse_kern_mount (mp name sub : bytes) (flags : Z) (auto other : bool) (mntns : option Z) (bin : bytes)
  : hprog (Z * option Z) :=
  fd ← sess (bs "open /dev/fuse") (h_open_rw FUSE_DEVICE);
  or_drop (kern_mount_with fd mp name sub flags auto other mntns bin) (h_drop fd).

Definition fuse_fusermount_umount (mp bin : bytes) : hprog unit :=
  code ← io (h_status (umount_command bin mp));
  match code with
  | Some c => if c =? 0 then mret tt else fail (SessionFailure (bs "Unexpected exit code when unmounting via running fusermount"))
  | None => fail (SessionFailure (bs "Unexpected exit code when unmounting via running fusermount"))
  end.

(** [fuse_kern_umount] after the [poll]: the file is dropped first. *)
Definition kern_umount_now (mp : bytes) (fd : Z) (bin : bytes) : hprog unit :=
  _ ← h_drop fd;
  r ← attempt (h_umount2 mp MNT_DETACH);
  match r with
  | inr _ => mret tt
  | inl e => if e =? EPERM then fuse_fusermount_umount mp bin else fail (SessionFailure (bs "failed to umount"))
  end.

Definition fuse_kern_umount (mp : bytes) (fd : Z) (bin : bytes) : hprog unit :=
  r ← attempt (h_poll fd);
  match r with
  | inr (Some event) => if event =? POLLERR then h_drop fd else kern_umount_now mp fd bin
  | _ => kern_umount_now mp fd bin
  end.

(** [self.file = ..] and [self.keep_alive = ..] drop what was there. *)
Definition put_file (f : option Z) : sprog unit :=
  s ← gets fst; _ ← on_snd (h_drop_opt s.(file)); modify (fun w => (with_file f w.1, w.2)).
Definition put_keep_alive (k : option Z) : sprog unit :=
  s ← gets fst; _ ← on_snd (h_drop_opt s.(keep_alive)); modify (fun w => (with_keep_alive k w.1, w.2)).

Definition set_fuse_file (fd : Z) : sprog unit := put_file (Some fd).

Definition mount_flags (s : FuseSession) : Z :=
  let flags := Z.lor (Z.lor MS_NOSUID MS_NODEV) MS_NOATIME in
  if s.(readonly) then Z.lor flags MS_RDONLY else flags.

Definition mount : sprog unit :=
  s ← gets fst;
  '(fd, socket) ← on_snd (fuse_kern_mount s.(mountpoint) s.(fsname) s.(subtype) (mount_flags s) s.(auto_unmount) s.(allow_other)
    s.(target_mntns) s.(fusermount));
  _ ← on_snd (or_drop (sess (bs "set fd nonblocking") (h_setfl fd O_NONBLOCK)) (_ ← h_drop fd; h_drop_opt socket));
  _ ← put_file (Some fd);
  put_keep_alive socket.

Definition umount : sprog unit :=
  s ← gets fst;
  _ ← modify (fun w => (with_file None (with_keep_alive None w.1), w.2));
  match s.(keep_alive), s.(file) with
  | None, Some fd =>
    match to_str s.(mountpoint) with
    | Ok mp => on_snd (fuse_kern_umount mp fd s.(fusermount))
    | _ => _ ← on_snd (h_drop fd); fail (SessionFailure (bs "invalid mountpoint"))
    end
  | k, f => _ ← on_snd (h_drop_opt k); on_snd (h_drop_opt f)
  end.

(** An [Arc<Waker>] goes out of scope: the waker is closed when no other
    reference to it is left. *)
Definition drop_waker (others : list Z) (waker : Z) : hprog unit :=
  if bool_decide (waker ∈ others) then mret tt else h_drop waker.

(** The references of a session; [others] are those of the channels. *)
Fixpoint drop_wakers (others l : list Z) : hprog unit :=
  match l with
  | [] => mret tt
  | waker :: l' => _ ← drop_waker (l' ++ others) waker; drop_wakers others l'
  end.

(** A session goes out of scope: [Drop for FuseSession], and then its fields. *)
Definition FuseSession_drop (others : list Z) : sprog unit :=
  r ← catch umount;
  s ← gets fst;
  _ ← put_file None;
  _ ← put_keep_alive None;
  _ ← on_snd (drop_wakers others s.(wakers));
  modify (fun w => (with_wakers [] w.1, w.2)).

Definition clone_fuse_file : sprog Z :=
  s ← gets fst;
  match s.(file) with
  | None => fail (SessionFailure (bs "fuse session file doesn't exist"))
  | Some old_fd =>
    cloned ← on_snd (sess (bs "open /dev/fuse") (h_open_rw FUSE_DEVICE));
    _ ← on_snd (or_drop (sess (bs "failed to clone fuse file") (h_clone cloned old_fd)) (h_drop cloned));
    mret cloned
  end.

(** ** [FuseChannel] *)

Definition FuseChannel_new (fd bufsize : Z) : hprog FuseChannel :=
  or_drop (
    poll ← sess (bs "epoll create") h_poll_new;
    or_drop (
      waker ← sess (bs "epoll register session fd") (h_waker_new poll EXIT_FUSE_EVENT);
      or_drop (
        _ ← sess (bs "epoll register channel fd") (h_epoll_add poll fd FUSE_DEV_EVENT);
        mret (mkFuseChannel fd poll waker (repeat 0 (Z.to_nat bufsize))))
      (h_drop waker))
    (h_drop poll))
  (h_drop fd).

(** A channel goes out of scope; [others] are the references of the session, if
    there still is one, and of other channels. *)
Definition FuseChannel_drop (others : list Z) (ch : FuseChannel) : hprog unit :=
  _ ← h_drop ch.(ch_file);
  _ ← h_drop ch.(ch_poll);
  drop_waker others ch.(ch_waker).

Definition add_waker (waker : Z) : sprog unit := modify (fun w => (with_wakers (w.1.(wakers) ++ [waker]) w.1, w.2)).

Definition new_channel : sprog FuseChannel :=
  s ← gets fst;
  match s.(file) with
  | Some fd =>
    fd ← on_snd (sess (bs "dup fd") (h_dup fd));
    channel ← on_snd (FuseChannel_new fd s.(bufsize));
    _ ← add_waker channel.(ch_waker);
    mret channel
  | None => fail (SessionFailure (bs "invalid fuse session"))
  end.

(** [with_writer]: [f] gets a writer on the session's file. *)
Definition with_writer (f : Z -> FuseDevWriter -> X -> X) : sprog unit := fun w =>
  match w.1.(file) with
  | Some fd => ((w.1, f fd (FuseDevWriter_new (repeat 0 (Z.to_nat w.1.(bufsize)))) w.2), Ok tt)
  | None => (w, Ok tt)
  end.

Fixpoint wake_all (l : list Z) : hprog unit :=
  match l with
  | [] => mret tt
  | w :: l' => _ ← sess (bs "wake channel") (h_wake w); wake_all l'
  end.

Definition wake : sprog unit := s ← gets fst; on_snd (wake_all s.(wakers)).

(** The [for] over the events: [need_exit] and [fusereq_available]. *)
Fixpoint scan_events (events : list Event) (need_exit fusereq_available : bool) : outcome TransportError (bool * bool) :=
  match events with
  | [] => Ok (need_exit, fusereq_available)
  | ev :: events' =>
    if ev.(ev_readable) then
      if ev.(ev_token) =? EXIT_FUSE_EVENT then scan_events events' true fusereq_available
      else if ev.(ev_token) =? FUSE_DEV_EVENT then scan_events events' need_exit true
      else Err (SessionFailure (bs "unexpected epoll event"))
    else if ev.(ev_error) then Err (SessionFailure (bs "epoll error"))
    else Panic
  end.

(** The bytes [read] puts at the start of the buffer. *)
Definition read_into (data buf : bytes) : bytes := data ++ drop (length data) buf.

(** A round of the loop of [get_request]; the variable is [need_exit]. *)
Definition request_round (need_exit : bool)
  : prog (FuseChannel * X) TransportError (bool + option (Reader RawSlice * FuseDevWriter)) :=
  ch ← gets fst;
  r ← on_snd (attempt (h_epoll_wait ch.(ch_poll)));
  match r with
  | inl e => match error_kind e with Interrupted => mret (inl need_exit) | _ => fail (SessionFailure (bs "epoll wait")) end
  | inr events =>
    '(need_exit, fusereq_available) ← lift (scan_events events need_exit false);
    if (need_exit : bool) then mret (inr None)
    else if (fusereq_available : bool) then
      r ← on_snd (attempt (h_read ch.(ch_file) (zlen ch.(ch_buf))));
      match r with
      | inr data =>
        let buf := read_into data ch.(ch_buf) in
        _ ← modify (fun w => (mkFuseChannel ch.(ch_file) ch.(ch_poll) ch.(ch_waker) buf, w.2));
        if zlen data <=? zlen ch.(ch_buf) then mret (inr (Some (reader_of data, FuseDevWriter_new buf))) else lift Panic
      | inl e =>
        if (e =? ENOENT) || (e =? EAGAIN) || (e =? EINTR) then mret (inl need_exit)
        else if e =? ENODEV then mret (inr None)
        else fail (SessionFailure (bs "read new request"))
      end
    else mret (inl need_exit)
  end.

Definition get_request : prog (FuseChannel * X) TransportError (option (Reader RawSlice * FuseDevWriter)) :=
  loop request_round false.
End session.

(** * Properties *)

(** ** Options *)

Definition comma_free (l : bytes) : bool := forallb (fun c => negb (c =? COMMA)) l.

Lemma split_join_comma l :
  l <> [] -> Forall (fun o => comma_free o = true) l -> split_on COMMA (join_comma l) = l.
Proof.
  intros Hne H. induction H as [|a l Ha Hl IH]; [done|]. destruct l as [|b l]; [by apply split_on_none|].
  change (join_comma (a :: b :: l)) with (a ++ COMMA :: join_comma (b :: l)). rewrite split_on_app by done. by rewrite IH.
Qed.

Lemma join_comma_app l k : l <> [] -> k <> [] -> join_comma (l ++ k) = join_comma l ++ COMMA :: join_comma k.
Proof.
  induction l as [|a l IH]; [done|]. intros _ Hk. destruct l as [|b l].
  - destruct k as [|c k]; [done|]. done.
  - change (join_comma ((a :: b :: l) ++ k)) with (a ++ COMMA :: join_comma ((b :: l) ++ k)). rewrite IH by done.
    change (join_comma (a :: b :: l)) with (a ++ COMMA :: join_comma (b :: l)). by rewrite <- (assoc_L (++)).
Qed.

Lemma join_comma_concat ls : Forall (fun l => l <> []) ls -> join_comma (map join_comma ls) = join_comma (concat ls).
Proof.
  induction 1 as [|l ls Hl Hls IH]; [done|]. destruct ls as [|k ls]; [cbn; by rewrite app_nil_r|].
  change (join_comma (map join_comma (l :: k :: ls))) with (join_comma l ++ COMMA :: join_comma (map join_comma (k :: ls))).
  rewrite IH. change (concat (l :: k :: ls)) with (l ++ concat (k :: ls)). rewrite join_comma_app; [done|done|].
  apply Forall_cons in Hls as [Hk _]. by destruct k.
Qed.

Lemma comma_free_app l k : comma_free (l ++ k) = comma_free l && comma_free k.
Proof. apply forallb_app. Qed.

Lemma digits_comma_free b (digits : nat -> Z -> bytes) :
  0 < b <= 10 ->
  (forall f n, digits (S f) n = if n <? b then [48 + n] else digits f (n / b) ++ [48 + n mod b]) -> (forall n, digits O n = []) ->
  forall fuel n, 0 <= n -> comma_free (digits fuel n) = true.
Proof.
  intros Hb HS HO. induction fuel as [|f IH]; intros n Hn; [by rewrite HO|]. rewrite HS. pose proof (Z.mod_pos_bound n b ltac:(lia)).
  destruct (Z.ltb_spec n b); [|rewrite comma_free_app, IH by (apply Z.div_pos; lia)]; cbn -[Z.add Z.eqb Z.modulo]; unfold COMMA;
    by rewrite (proj2 (Z.eqb_neq _ _)) by lia.
Qed.

Lemma fmt_comma_free n : comma_free (fmt n) = true.
Proof.
  assert (forall fuel n, 0 <= n -> comma_free (dec_digits fuel n) = true) as H by (by apply (digits_comma_free 10)).
  unfold fmt. destruct (Z.ltb_spec n 0); [|by apply H]. cbn -[dec_digits]. apply H. lia.
Qed.

Lemma oct_comma_free n : 0 <= n -> comma_free (oct_digits 11 n) = true.
Proof. by apply (digits_comma_free 8). Qed.

(** The options of the mount, one by one. *)
Definition kern_options (fd rootmode uid gid max_read : Z) (other : bool) : list bytes :=
  [bs "default_permissions"; bs "fd=" ++ fmt fd; bs "rootmode=" ++ oct_digits 11 rootmode; bs "user_id=" ++ fmt uid;
   bs "group_id=" ++ fmt gid; bs "max_read=" ++ fmt max_read] ++ (if other then [bs "allow_other"] else []).

Definition flag_options (flags : Z) : list bytes :=
  [if has_all flags MS_RDONLY then bs "ro" else bs "rw"; if has_all flags MS_NOSUID then bs "nosuid" else bs "suid";
   if has_all flags MS_NODEV then bs "nodev" else bs "dev"; if has_all flags MS_NOEXEC then bs "noexec" else bs "exec";
   if has_all flags MS_SYNCHRONOUS then bs "sync" else bs "async"; if has_all flags MS_NOATIME then bs "noatime" else bs "atime"].

Lemma kern_opts_join fd rootmode uid gid max_read other :
  kern_opts fd rootmode uid gid max_read other = join_comma (kern_options fd rootmode uid gid max_read other).
Proof. unfold kern_opts, kern_options. destruct other; cbn -[fmt oct_digits]; by rewrite ?app_nil_r. Qed.

Lemma kern_options_comma_free fd rootmode uid gid max_read other :
  0 <= rootmode -> Forall (fun o => comma_free o = true) (kern_options fd rootmode uid gid max_read other).
Proof.
  intros Hm. unfold kern_options. apply Forall_app. split; [|destruct other; [by apply Forall_singleton|apply Forall_nil_2]].
  repeat (apply Forall_cons_2; [rewrite ?comma_free_app, ?fmt_comma_free, ?oct_comma_free by done; done|]). apply Forall_nil_2.
Qed.

Lemma flag_options_comma_free flags : Forall (fun o => comma_free o = true) (flag_options flags).
Proof. unfold flag_options. repeat (apply Forall_cons_2; [by destruct (has_all _ _)|]). apply Forall_nil_2. Qed.

(** The options of fusermount.  What the crate passes after [-o] is, split at
    the commas, the list of the options meant: the name, the options of the
    kernel with the descriptor, the root's type, the owner and the largest read,
    one of each pair of mount flags, the subtype and [auto_unmount]; provided the
    names have no comma. *)
Theorem fusermount_options_split name sub fd rootmode uid gid max_read other flags auto :
  comma_free name = true -> comma_free sub = true -> 0 <= rootmode ->
  split_on COMMA (fusermount_opts name (kern_opts fd rootmode uid gid max_read other) flags sub auto) =
    [bs "fsname=" ++ name] ++ kern_options fd rootmode uid gid max_read other ++ flag_options flags ++
    (match sub with [] => [] | _ => [bs "subtype=" ++ sub] end) ++ (if auto then [bs "auto_unmount"] else []).
Proof.
  intros Hn Hs Hm. set (tail := (match sub with [] => [] | _ => [bs "subtype=" ++ sub] end) ++ (if auto then [bs "auto_unmount"] else [])).
  set (ls := [[bs "fsname=" ++ name]; kern_options fd rootmode uid gid max_read other; flag_options flags] ++ map (fun o => [o]) tail).
  assert (fusermount_opts name (kern_opts fd rootmode uid gid max_read other) flags sub auto = join_comma (map join_comma ls)) as ->.
  { unfold fusermount_opts, ls. fold tail. rewrite map_app, map_map, map_id. cbn [map]. by rewrite kern_opts_join. }
  assert (concat (map (fun o : bytes => [o]) tail) = tail) as Ht by (induction tail as [|o tail IH]; [done|]; cbn; by rewrite IH).
  rewrite join_comma_concat.
  - replace (concat ls) with ([bs "fsname=" ++ name] ++ kern_options fd rootmode uid gid max_read other ++ flag_options flags ++ tail)
      by (unfold ls; rewrite concat_app, Ht; cbn [concat]; by rewrite <- !(assoc_L (++)), app_nil_l).
    apply split_join_comma; [done|]. apply Forall_app; split; [|apply Forall_app; split; [|apply Forall_app; split; [|apply Forall_app; split]]].
    + apply Forall_singleton. by rewrite comma_free_app, Hn.
    + by apply kern_options_comma_free.
    + apply flag_options_comma_free.
    + destruct sub; [apply Forall_nil_2|]. apply Forall_singleton. by rewrite comma_free_app, Hs.
    + destruct auto; [by apply Forall_singleton|apply Forall_nil_2].
  - unfold ls. apply Forall_app. split; [by repeat (apply Forall_cons_2; [done|])|]. apply Forall_fmap, Forall_true. done.
Qed.

Lemma fusermount_options_split_witness :
  split_on COMMA (fusermount_opts (bs "pass") (kern_opts 7 S_IFDIR 0 1000 1052672 true) (Z.lor MS_NOSUID MS_RDONLY) (bs "x") true) =
  [bs "fsname=pass"; bs "default_permissions"; bs "fd=7"; bs "rootmode=40000"; bs "user_id=0"; bs "group_id=1000"; bs "max_read=1052672";
   bs "allow_other"; bs "ro"; bs "nosuid"; bs "dev"; bs "exec"; bs "async"; bs "atime"; bs "subtype=x"; bs "auto_unmount"].
Proof.
  etrans; [apply (fusermount_options_split (bs "pass") (bs "x") 7 S_IFDIR 0 1000 1052672 true (Z.lor MS_NOSUID MS_RDONLY) true);
    [reflexivity|reflexivity|by vm_compute]|by vm_compute].
Defined.


(** ** Descriptors *)

(** The accounts a kernel keeps: a call that gives a descriptor opens one that
    was not open, [close] closes it, and the others open and close nothing. *)
Definition quiet {X E A} (fds : X -> list Z) (m : prog X E A) : Prop := forall x, fds (m x).1 = fds x.

Definition opens {X E} (fds : X -> list Z) (m : prog X E Z) : Prop := forall x,
  match m x with
  | (x', Ok fd) => fds x' = fd :: fds x /\ fd ∉ fds x
  | (x', _) => fds x' = fds x
  end.

Record accounts {X} `{SessionHost X} (fds : X -> list Z) : Prop := {
  ac_close : forall fd x l, fds x ≡ₚ fd :: l -> fds (h_close fd x) ≡ₚ l;
  ac_open : forall path, opens fds (h_open_rw path);
  ac_dup : forall fd, opens fds (h_dup fd);
  ac_poll_new : opens fds h_poll_new;
  ac_waker_new : forall poll token, opens fds (h_waker_new poll token);
  ac_socketpair : forall x,
    match h_socketpair x with
    | (x', Ok (s, r)) => fds x' = s :: r :: fds x /\ (s ∉ r :: fds x) /\ r ∉ fds x
    | (x', _) => fds x' = fds x
    end;
  ac_recv : forall sock x,
    match h_recv_with_fd sock x with
    | (x', Ok (_, Some fd)) => fds x' = fd :: fds x /\ fd ∉ fds x
    | (x', _) => fds x' = fds x
    end;
  ac_mode : forall path, quiet fds (h_mode path);
  ac_mount : forall a b c d e, quiet fds (h_mount a b c d e);
  ac_umount2 : forall a b, quiet fds (h_umount2 a b);
  ac_setfl : forall a b, quiet fds (h_setfl a b);
  ac_setfd : forall a b, quiet fds (h_setfd a b);
  ac_clone : forall a b, quiet fds (h_clone a b);
  ac_spawn : forall c, quiet fds (h_spawn c);
  ac_wait : forall p, quiet fds (h_wait p);
  ac_status : forall c, quiet fds (h_status c);
  ac_poll : forall fd, quiet fds (h_poll fd);
  ac_epoll_add : forall a b c, quiet fds (h_epoll_add a b c);
}.

Section descriptors.
Context {X : Type} {HOST : SessionHost X} (fds : X -> list Z) (AC : accounts fds).

(** The open descriptors, each once. *)
Definition open_are (x : X) (l : list Z) : Prop := fds x ≡ₚ l /\ NoDup l.

#[local] Instance open_are_perm x : Proper ((≡ₚ) ==> iff) (open_are x).
Proof. intros l k Hl. unfold open_are. by rewrite Hl. Qed.

Lemma open_same x x' l : fds x' = fds x -> open_are x l -> open_are x' l.
Proof. unfold open_are. by intros ->. Qed.

Lemma open_more x x' fd l : fds x' = fd :: fds x /\ fd ∉ fds x -> open_are x l -> open_are x' (fd :: l).
Proof. unfold open_are. intros [-> Hfd] [Hl Hn]. rewrite Hl in Hfd. rewrite Hl. split; [done|by constructor]. Qed.

Lemma open_less x fd l : open_are x (fd :: l) -> open_are (h_close fd x) l.
Proof. intros [Hl [_ Hn]%NoDup_cons]. split; [by apply (ac_close _ AC)|done]. Qed.

(** [owns H m Q F]: run with the descriptors [H], [m] ends with [Q a] on a
    result [a] and with [F] on an error; other descriptors stay as they are. *)
Definition owns {E A} (H : list Z) (m : prog X E A) (Q : A -> list Z) (F : list Z) : Prop := forall x base,
  open_are x (H ++ base) ->
  match m x with
  | (x', Ok a) => open_are x' (Q a ++ base)
  | (x', Err _) => open_are x' (F ++ base)
  | (_, Panic) => True
  end.

Lemma owns_bind {E A B} H (m : prog X E A) (k : A -> prog X E B) Q R F :
  owns H m Q F -> (forall a, owns (Q a) (k a) R F) -> owns H (m ≫= k) R F.
Proof.
  intros Hm Hk x base Hx. specialize (Hm x base Hx). unfold mbind, prog_mbind, prog_bind.
  destruct (m x) as [x' [a|e|]]; [|done..]. by apply Hk.
Qed.

Lemma owns_mret {E A} (a : A) Q F : owns (Q a) (mret a : prog X E A) Q F.
Proof. intros x base Hx. done. Qed.

Lemma owns_fail {E A} H (e : E) (Q : A -> list Z) : owns H (fail e) Q H.
Proof. intros x base Hx. done. Qed.

Lemma owns_gets {E A} H (f : X -> A) F : owns (E := E) H (gets f) (fun _ => H) F.
Proof. intros x base Hx. done. Qed.

Lemma owns_quiet {E A} H (m : prog X E A) : quiet fds m -> owns H m (fun _ => H) H.
Proof. intros Hq x base Hx. specialize (Hq x). destruct (m x) as [x' [a|e|]]; cbn in Hq; [|..|done]; by apply (open_same x). Qed.

Lemma owns_opens {E} H (m : prog X E Z) : opens fds m -> owns H m (fun fd => fd :: H) H.
Proof.
  intros Ho x base Hx. specialize (Ho x). destruct (m x) as [x' [fd|e|]]; [|by apply (open_same x)|done].
  by apply (open_more x).
Qed.

Lemma owns_drop H fd F : owns (fd :: H) (h_drop fd) (fun _ => H) F.
Proof. intros x base Hx. cbn. by apply open_less. Qed.

Lemma owns_map_err {E E' A} H (f : E -> E') (m : prog X E A) Q F : owns H m Q F -> owns H (prog_map_err f m) Q F.
Proof. intros Hm x base Hx. specialize (Hm x base Hx). unfold prog_map_err. by destruct (m x) as [x' [a|e|]]. Qed.

Lemma owns_or_drop {E A} H (m : prog X E A) clean Q F F' :
  owns H m Q F -> owns F clean (fun _ => F') F' -> owns H (or_drop m clean) Q F'.
Proof.
  intros Hm Hc x base Hx. specialize (Hm x base Hx). unfold or_drop, catch, mbind, prog_mbind, prog_bind.
  destruct (m x) as [x' [a|e|]]; [done| |done]. specialize (Hc x' base Hm).
  destruct (clean x') as [x2 [[]|e'|]]; done.
Qed.

(** An order of the descriptors is as good as another. *)
Lemma owns_perm {E A} H H' (m : prog X E A) Q Q' F F' :
  H ≡ₚ H' -> (forall a, Q a ≡ₚ Q' a) -> F ≡ₚ F' -> owns H m Q F -> owns H' m Q' F'.
Proof.
  intros HH HQ HF Hm x base. rewrite <- HH. intros Hx. specialize (Hm x base Hx).
  destruct (m x) as [x' [a|e|]]; [by rewrite <- HQ|by rewrite <- HF|done].
Qed.

(** Descriptors that a program does not use stay. *)
Lemma owns_frame {E A} H K (m : prog X E A) Q F : owns H m Q F -> owns (H ++ K) m (fun a => Q a ++ K) (F ++ K).
Proof.
  intros Hm x base Hx. rewrite <- (assoc_L (++)) in Hx. specialize (Hm x (K ++ base) Hx).
  destruct (m x) as [x' [a|e|]]; by rewrite <- ?(assoc_L (++)).
Qed.

Definition olist (o : option Z) : list Z := match o with Some fd => [fd] | None => [] end.

Lemma owns_attempt {E A} H (m : prog X E A) : quiet fds m -> owns H (attempt m) (fun _ => H) H.
Proof.
  intros Hq x base Hx. specialize (Hq x). unfold attempt. destruct (m x) as [x' [a|e|]]; cbn in Hq; [|..|done];
    by apply (open_same x).
Qed.

Lemma owns_drop_opt H o F : owns (olist o ++ H) (h_drop_opt o) (fun _ => H) F.
Proof. destruct o as [fd|]; [apply owns_drop|]. by intros x base Hx. Qed.

Lemma owns_run_fusermount H send cmd auto : owns H (run_fusermount send cmd auto) (fun _ => H) H.
Proof.
  unfold run_fusermount. eapply owns_bind; [apply owns_map_err, owns_quiet, (ac_setfd _ AC)|intros ?].
  eapply owns_bind; [apply owns_map_err, owns_quiet, (ac_spawn _ AC)|intros proc]. destruct auto; [apply (owns_mret _ (fun _ => H))|].
  eapply owns_bind; [apply owns_map_err, owns_quiet, (ac_wait _ AC)|intros [c|]]; [|apply owns_fail].
  destruct (c =? 0); [apply (owns_mret _ (fun _ => H))|apply owns_fail].
Qed.

Lemma owns_recv_file recv auto : owns [recv] (recv_file recv auto) (fun r => r.1 :: olist r.2) [recv].
Proof.
  unfold recv_file. eapply (owns_bind _ _ _ (fun r => olist r.2 ++ [recv])).
  - apply owns_map_err. intros x base Hx. pose proof (ac_recv _ AC recv x) as Hr.
    destruct (h_recv_with_fd recv x) as [x' [[n [fd|]]|e|]]; [|by apply (open_same x)..|done]. by apply (open_more x).
  - intros [n [fd|]]; [|apply owns_fail]. destruct auto.
    + apply (owns_mret (fd, Some recv) (fun r => r.1 :: olist r.2)).
    + eapply (owns_bind _ _ _ (fun _ => [fd])); [|intros ?; apply (owns_mret (fd, None) (fun r => r.1 :: olist r.2))].
      eapply owns_perm; [| | |apply (owns_drop [fd] recv [recv])]; [cbn; apply perm_swap|done|done].
Qed.

(** What a mount gives: the connection, and the socket that keeps the helper. *)
Definition conn (r : Z * option Z) : list Z := r.1 :: olist r.2.

Lemma owns_socketpair : owns [] (or_panic (h_socketpair (X := X))) (fun p => [p.1; p.2]) [].
Proof.
  intros x base Hx. pose proof (ac_socketpair _ AC x) as Hs. unfold or_panic.
  destruct (h_socketpair x) as [x' [[s r]|e|]]; [|done..]. destruct Hs as (Hf & Hs & Hr), Hx as [Hp Hn].
  unfold open_are. rewrite Hf. cbn in *. rewrite Hp in *. split; [done|]. by repeat constructor.
Qed.

Lemma owns_fusermount mp name sub opts flags auto mntns bin :
  owns [] (fuse_fusermount_mount mp name sub opts flags auto mntns bin) conn [].
Proof.
  unfold fuse_fusermount_mount. eapply owns_bind; [apply owns_socketpair|intros [send recv]]. cbn [fst snd].
  apply (owns_or_drop _ _ _ _ [recv]); [|apply (owns_drop [])].
  eapply (owns_bind _ _ _ (fun _ => [send; recv])).
  - apply (owns_or_drop _ _ _ _ [send; recv]); [apply owns_run_fusermount|apply (owns_drop [recv])].
  - intros ?. eapply (owns_bind _ _ _ (fun _ => [recv])); [apply owns_drop|intros ?; apply owns_recv_file].
Qed.

Lemma owns_kern_mount_with fd mp name sub flags auto other mntns bin :
  owns [fd] (kern_mount_with fd mp name sub flags auto other mntns bin) conn [fd].
Proof.
  unfold kern_mount_with. eapply owns_bind; [apply owns_map_err, owns_quiet, (ac_mode _ AC)|intros mode].
  eapply owns_bind; [apply owns_gets|intros uid]. eapply owns_bind; [apply owns_gets|intros gid]. cbv zeta.
  assert (forall opts, owns [fd] (r ← fuse_fusermount_mount mp name sub opts flags auto mntns bin; _ ← h_drop fd; mret r) conn [fd]) as Hhelp.
  { intros opts. eapply (owns_bind _ _ _ (fun r => conn r ++ [fd])); [apply (owns_frame [] [fd] _ conn []), owns_fusermount|intros r].
    eapply (owns_bind _ _ _ (fun _ => conn r)); [|intros ?; apply (owns_mret _ conn)].
    eapply owns_perm; [| | |apply (owns_drop (conn r) fd [fd])]; [apply Permutation_cons_append|done|done]. }
  case_match; [apply Hhelp|]. eapply owns_bind; [apply owns_attempt, (ac_mount _ AC)|intros [e|?]].
  - destruct (e =? EPERM); [apply Hhelp|apply owns_fail].
  - apply (owns_mret (fd, None) conn).
Qed.

Lemma owns_kern_mount mp name sub flags auto other mntns bin :
  owns [] (fuse_kern_mount mp name sub flags auto other mntns bin) conn [].
Proof.
  unfold fuse_kern_mount. eapply owns_bind; [apply owns_map_err, (owns_opens []), (ac_open _ AC)|intros fd].
  eapply owns_or_drop; [apply owns_kern_mount_with|apply (owns_drop [])].
Qed.

Lemma owns_kern_umount mp fd bin : owns [fd] (fuse_kern_umount mp fd bin) (fun _ => []) [].
Proof.
  assert (owns [fd] (kern_umount_now mp fd bin) (fun _ => []) []) as Hnow.
  { unfold kern_umount_now. eapply owns_bind; [apply owns_drop|intros ?].
    eapply owns_bind; [apply owns_attempt, (ac_umount2 _ AC)|intros [e|?]]; [|apply (owns_mret tt (fun _ => []))].
    destruct (e =? EPERM); [|apply owns_fail]. unfold fuse_fusermount_umount.
    eapply owns_bind; [apply owns_map_err, owns_quiet, (ac_status _ AC)|intros [c|]]; [|apply owns_fail].
    destruct (c =? 0); [apply (owns_mret tt (fun _ => []))|apply owns_fail]. }
  unfold fuse_kern_umount. intros x base Hx. pose proof (owns_attempt [fd] (h_poll fd) (ac_poll _ AC fd) x base Hx) as Hp.
  unfold mbind, prog_mbind, prog_bind. destruct (attempt (h_poll fd) x) as [x' [r|e|]] eqn:Ha; [| |done].
  - destruct r as [e|[ev|]]; [by apply Hnow| |by apply Hnow].
    destruct (ev =? POLLERR); [by apply (owns_drop [] fd [])|by apply Hnow].
  - unfold attempt in Ha. by destruct (h_poll fd x) as [? [?|?|]].
Qed.


(** The descriptors of a session and of its channels: the connection, the
    socket to fusermount, a waker for every channel that was made, and the
    file and the epoll instance of the channels that are left.  These and [base]
    are the open ones; each channel shares its waker with the session. *)
Definition own (s : FuseSession) : list Z := olist s.(file) ++ olist s.(keep_alive).
Definition ends_of (chs : list FuseChannel) : list Z := chs ≫= fun ch => [ch.(ch_file); ch.(ch_poll)].
Definition held (s : FuseSession) (chs : list FuseChannel) : list Z := own s ++ s.(wakers) ++ ends_of chs.

Definition balanced (base : list Z) (chs : list FuseChannel) (w : FuseSession * X) : Prop :=
  open_are w.2 (held w.1 chs ++ base) /\ NoDup (map ch_waker chs) /\ Forall (fun ch => ch.(ch_waker) ∈ w.1.(wakers)) chs.

(** A program on the host, run beside the session. *)
Lemma owns_on_snd {E A} H (m : prog X E A) Q F s x base :
  owns H m Q F -> open_are x (H ++ base) ->
  match on_snd m (s, x) with
  | ((s', x'), Ok a) => s' = s /\ open_are x' (Q a ++ base)
  | ((s', x'), Err _) => s' = (s : FuseSession) /\ open_are x' (F ++ base)
  | (_, Panic) => True
  end.
Proof. intros Hm Hx. specialize (Hm x base Hx). unfold on_snd. cbn. by destruct (m x) as [x' [a|e|]]. Qed.

Lemma drop_opt_run o l x : open_are x (olist o ++ l) -> exists x', h_drop_opt o x = (x', Ok tt) /\ open_are x' l.
Proof. destruct o as [fd|]; intros Hx; eexists; (split; [done|]); [by apply open_less|done]. Qed.

(** A field that is replaced is closed. *)
Lemma put_file_run f s x l :
  open_are x (own s ++ olist f ++ l) ->
  exists x', put_file f (s, x) = ((with_file f s, x'), Ok tt) /\ open_are x' (own (with_file f s) ++ l).
Proof.
  unfold own. rewrite <- !(assoc_L (++)). intros Hx. destruct (drop_opt_run _ _ _ Hx) as (x' & Hd & Hx').
  exists x'. unfold put_file, mbind, prog_mbind, prog_bind, on_snd. cbn [gets fst snd]. rewrite Hd. split; [done|].
  change (open_are x' (olist f ++ olist s.(keep_alive) ++ l)). by rewrite Permutation_app_swap_app.
Qed.

Lemma put_keep_alive_run k s x l :
  open_are x (own s ++ olist k ++ l) ->
  exists x', put_keep_alive k (s, x) = ((with_keep_alive k s, x'), Ok tt) /\ open_are x' (own (with_keep_alive k s) ++ l).
Proof.
  unfold own. rewrite <- !(assoc_L (++)), Permutation_app_swap_app. intros Hx. destruct (drop_opt_run _ _ _ Hx) as (x' & Hd & Hx').
  exists x'. unfold put_keep_alive, mbind, prog_mbind, prog_bind, on_snd. cbn [gets fst snd]. rewrite Hd. split; [done|].
  exact Hx'.
Qed.

(** Only the connection and the socket change. *)
Lemma balanced_own base chs w w' :
  balanced base chs w -> w'.1.(wakers) = w.1.(wakers) ->
  open_are w'.2 (own w'.1 ++ w.1.(wakers) ++ ends_of chs ++ base) -> balanced base chs w'.
Proof. intros (_ & Hn & Hw) E Hx. unfold balanced, held. rewrite E. by rewrite <- !(assoc_L (++)). Qed.

(** All but what a program on the host uses. *)
Lemma balanced_open base chs s x : balanced base chs (s, x) -> open_are x (own s ++ s.(wakers) ++ ends_of chs ++ base).
Proof. intros [Hx _]. unfold held in Hx. by rewrite <- !(assoc_L (++)) in Hx. Qed.

Lemma mount_keeps base chs w :
  balanced base chs w -> match mount w with (w', Panic) => True | (w', _) => balanced base chs w' end.
Proof.
  destruct w as [s x]. intros Hb. pose proof (balanced_open _ _ _ _ Hb) as Hx. set (rest := s.(wakers) ++ ends_of chs ++ base) in *.
  unfold mount, mbind, prog_mbind, prog_bind. cbn [gets fst snd].
  pose proof (owns_on_snd [] _ _ _ s x (own s ++ rest) (owns_kern_mount s.(mountpoint) s.(fsname) s.(subtype) (mount_flags s)
    s.(auto_unmount) s.(allow_other) s.(target_mntns) s.(fusermount)) Hx) as Hm.
  destruct (on_snd _ (s, x)) as [[s1 x1] [[fd sock]|e|]]; [|by destruct Hm as [-> ?]; apply (balanced_own _ _ _ _ Hb)|done].
  destruct Hm as [-> Hx1].
  assert (owns (conn (fd, sock)) (or_drop (sess (bs "set fd nonblocking") (h_setfl fd O_NONBLOCK)) (_ ← h_drop fd; h_drop_opt sock))
    (fun _ => conn (fd, sock)) []) as Hfl.
  { eapply owns_or_drop; [apply owns_map_err, owns_quiet, (ac_setfl _ AC)|]. eapply owns_bind; [apply owns_drop|intros ?].
    cbn. rewrite <- (app_nil_r (olist sock)). apply owns_drop_opt. }
  pose proof (owns_on_snd _ _ _ _ s x1 (own s ++ rest) Hfl Hx1) as Hm.
  destruct (on_snd _ (s, x1)) as [[s2 x2] [?|e|]]; [|by destruct Hm as [-> ?]; apply (balanced_own _ _ _ _ Hb)|done].
  destruct Hm as [-> Hx2]. rewrite (Permutation_app_swap_app (conn (fd, sock))) in Hx2.
  destruct (put_file_run (Some fd) s x2 (olist sock ++ rest)) as (x3 & Hp & Hx3); [exact Hx2|].
  rewrite Hp. destruct (put_keep_alive_run sock (with_file (Some fd) s) x3 rest Hx3) as (x4 & Hk & Hx4). rewrite Hk.
  by apply (balanced_own _ _ _ _ Hb).
Qed.

(** Unmounting, whatever else is open. *)
Lemma umount_run s x l :
  open_are x (own s ++ l) ->
  match umount (s, x) with
  | (_, Panic) => True
  | (w', _) => w'.1 = with_file None (with_keep_alive None s) /\ open_are w'.2 l
  end.
Proof.
  intros Hb. unfold own in Hb. unfold umount, mbind, prog_mbind, prog_bind. cbn [gets modify fst snd].
  set (s' := with_file None (with_keep_alive None s)).
  assert (forall k f, olist s.(keep_alive) = olist k -> olist s.(file) = olist f ->
    exists x', (_ ← on_snd (h_drop_opt k); on_snd (h_drop_opt f)) (s', x) = ((s', x'), Ok tt) /\ open_are x' l) as Hdrop.
  { intros k f Ek Ef. rewrite Ek, Ef, <- (assoc_L (++)), Permutation_app_swap_app in Hb. destruct (drop_opt_run _ _ _ Hb) as (x1 & H1 & Hx1).
    destruct (drop_opt_run _ _ _ Hx1) as (x2 & H2 & Hx2). exists x2. split; [|done].
    unfold mbind, prog_mbind, prog_bind, on_snd. cbn [fst snd]. rewrite H1. cbn [fst snd]. by rewrite H2. }
  unfold mbind, prog_mbind, prog_bind in Hdrop.
  destruct (s.(keep_alive)) as [k|]; [by destruct (Hdrop (Some k) (s.(file)) eq_refl eq_refl) as (x' & -> & Hx')|].
  destruct (s.(file)) as [fd|]; [|by destruct (Hdrop None None eq_refl eq_refl) as (x' & -> & Hx')]. clear Hdrop. cbn in Hb.
  destruct (to_str s.(mountpoint)) as [mp|e|]; [|by cbn; split; [|apply open_less]..].
  pose proof (owns_on_snd [fd] _ _ _ s' x l (owns_kern_umount mp fd s.(fusermount)) Hb) as Hm.
  destruct (on_snd _ (s', x)) as [[s1 x1] [?|e|]]; [|..|done]; by destruct Hm as [-> ?].
Qed.

Lemma umount_keeps base chs w :
  balanced base chs w ->
  match umount w with (_, Panic) => True | (w', _) => own w'.1 = [] /\ balanced base chs w' end.
Proof.
  destruct w as [s x]. intros Hb. pose proof (umount_run _ _ _ (balanced_open _ _ _ _ Hb)) as Hu.
  assert (forall w', w'.1 = with_file None (with_keep_alive None s) /\ open_are w'.2 (s.(wakers) ++ ends_of chs ++ base) ->
    own w'.1 = [] /\ balanced base chs w') as Hd.
  { intros w' [E Hx]. split; [by rewrite E|]. apply (balanced_own _ _ _ _ Hb); by rewrite E. }
  destruct (umount (s, x)) as [w' [?|e|]]; auto.
Qed.

(** The wakers go, but for those a channel still refers to. *)
Lemma drop_wakers_run others l rest x :
  open_are x (l ++ rest) -> exists x', drop_wakers others l x = (x', Ok tt) /\ open_are x' (filter (.∈ others) l ++ rest).
Proof.
  revert rest x. induction l as [|k l IH]; intros rest x Hx; [by eexists|]. cbn [drop_wakers]. unfold drop_waker, mbind, prog_mbind, prog_bind.
  assert (k ∉ l) as Hk by (destruct Hx as [_ [Hk _]%NoDup_cons]; set_solver).
  case_bool_decide as Hin.
  - destruct (IH (k :: rest) x) as (x' & E & Hx'); [by rewrite <- Permutation_middle|]. exists x'. split; [exact E|].
    rewrite filter_cons_True by set_solver. by rewrite <- Permutation_middle in Hx'.
  - destruct (IH rest (h_close k x)) as (x' & E & Hx'); [by apply open_less|]. exists x'. split; [exact E|].
    rewrite filter_cons_False by set_solver. done.
Qed.

(** What is left of channels without a session. *)
Definition left_of (chs : list FuseChannel) : list Z := chs ≫= fun ch => [ch.(ch_file); ch.(ch_poll); ch.(ch_waker)].

Lemma left_of_perm chs : left_of chs ≡ₚ map ch_waker chs ++ ends_of chs.
Proof.
  induction chs as [|ch chs IH]; [done|]. change (left_of (ch :: chs)) with ([ch.(ch_file); ch.(ch_poll); ch.(ch_waker)] ++ left_of chs).
  change (ends_of (ch :: chs)) with ([ch.(ch_file); ch.(ch_poll)] ++ ends_of chs). rewrite IH. cbn. solve_Permutation.
Qed.

Lemma channel_wakers base chs w :
  balanced base chs w -> filter (.∈ map ch_waker chs) w.1.(wakers) ≡ₚ map ch_waker chs.
Proof.
  intros ([_ Hn] & Hc & Hw). assert (NoDup w.1.(wakers)) by (unfold held in Hn; rewrite !NoDup_app in Hn; naive_solver).
  apply NoDup_Permutation; [by apply NoDup_filter|done|]. intros k. rewrite list_elem_of_filter, list_elem_of_fmap.
  rewrite Forall_forall in Hw. naive_solver.
Qed.

Lemma drop_session_run base chs w :
  balanced base chs w ->
  match FuseSession_drop (map ch_waker chs) w with
  | (_, Panic) => True
  | (w', o) => o = Ok tt /\ open_are w'.2 (left_of chs ++ base)
  end.
Proof.
  destruct w as [s x]. intros Hb. pose proof (channel_wakers _ _ _ Hb) as Hf. cbn in Hf.
  pose proof (umount_run _ _ _ (balanced_open _ _ _ _ Hb)) as Hu. unfold FuseSession_drop, catch, mbind, prog_mbind, prog_bind.
  assert (forall w', w'.1 = with_file None (with_keep_alive None s) /\ open_are w'.2 (s.(wakers) ++ ends_of chs ++ base) ->
    exists x2, drop_wakers (map ch_waker chs) s.(wakers) w'.2 = (x2, Ok tt) /\ open_are x2 (left_of chs ++ base)) as Hd.
  { intros w' [_ Hx]. destruct (drop_wakers_run (map ch_waker chs) _ _ _ Hx) as (x2 & E & Hx2). exists x2. split; [exact E|].
    by rewrite left_of_perm, <- Hf, <- (assoc_L (++)). }
  destruct (umount (s, x)) as [[s1 x1] [?|e|]]; [|..|done]; destruct (Hd _ Hu) as (x2 & E & Hx2);
    destruct Hu as [E1 _]; cbn in E1, E; subst s1; unfold put_file, put_keep_alive, on_snd, mbind, prog_mbind, prog_bind;
    cbn; rewrite E; done.
Qed.

Lemma drop_channel_last ch x l :
  open_are x (left_of [ch] ++ l) -> exists x', FuseChannel_drop [] ch x = (x', Ok tt) /\ open_are x' l.
Proof. intros Hx. eexists. split; [reflexivity|]. by do 3 apply open_less. Qed.

Lemma drop_channel_keeps base ch chs s x :
  balanced base (ch :: chs) (s, x) ->
  exists x', FuseChannel_drop s.(wakers) ch x = (x', Ok tt) /\ balanced base chs (s, x').
Proof.
  intros (Hx & Hn & Hw). apply Forall_cons in Hw as [Hc Hw]. apply NoDup_cons in Hn as [_ Hn].
  eexists. split; [unfold FuseChannel_drop, drop_waker; cbn; by rewrite bool_decide_true|]. split_and!; [|done|done].
  cbn [fst snd]. do 2 apply open_less. cbn [fst snd] in Hx. unfold held in *.
  change (ends_of (ch :: chs)) with ([ch.(ch_file); ch.(ch_poll)] ++ ends_of chs) in Hx.
  assert (own s ++ s.(wakers) ++ ([ch.(ch_file); ch.(ch_poll)] ++ ends_of chs)
    ≡ₚ [ch.(ch_poll); ch.(ch_file)] ++ own s ++ s.(wakers) ++ ends_of chs) as E by solve_Permutation.
  rewrite E in Hx. cbn in Hx. by rewrite perm_swap in Hx.
Qed.

Lemma owns_channel fd size : owns [fd] (FuseChannel_new fd size) (fun ch => [ch.(ch_file); ch.(ch_poll); ch.(ch_waker)]) [].
Proof.
  unfold FuseChannel_new. apply (owns_or_drop _ _ _ _ [fd]); [|apply (owns_drop [])].
  eapply owns_bind; [apply owns_map_err, owns_opens, (ac_poll_new _ AC)|intros poll].
  apply (owns_or_drop _ _ _ _ [poll; fd]); [|apply (owns_drop [fd])].
  eapply owns_bind; [apply owns_map_err, owns_opens, (ac_waker_new _ AC)|intros waker].
  apply (owns_or_drop _ _ _ _ [waker; poll; fd]); [|apply (owns_drop [poll; fd])].
  eapply owns_bind; [apply owns_map_err, owns_quiet, (ac_epoll_add _ AC)|intros ?].
  intros x base Hx. cbn. replace [fd; poll; waker] with (rev [waker; poll; fd]) by done. cbn in Hx.
  rewrite (perm_swap poll waker) in Hx. rewrite (perm_swap poll fd). by rewrite (perm_swap fd waker) in Hx.
Qed.

Lemma umount_again (w : FuseSession * X) : own w.1 = [] -> umount w = (w, Ok tt).
Proof.
  destruct w as [[mp name sub f k size ro wk auto other mntns bin] x]. unfold own. cbn. destruct f as [|], k as [|]; done.
Qed.

Lemma new_channel_keeps base chs w :
  balanced base chs w ->
  match new_channel w with
  | (w', Ok ch) => balanced base (ch :: chs) w' /\ w'.1.(wakers) = w.1.(wakers) ++ [ch.(ch_waker)]
  | (w', Err _) => balanced base chs w'
  | (_, Panic) => True
  end.
Proof.
  destruct w as [s x]. intros Hb. pose proof (balanced_open _ _ _ _ Hb) as Hx. set (rest := own s ++ _) in Hx.
  unfold new_channel, mbind, prog_mbind, prog_bind. cbn [gets fst snd]. destruct (s.(file)) as [fd|] eqn:Ef; [|done].
  pose proof (owns_on_snd [] (sess (bs "dup fd") (h_dup fd)) (fun fd => [fd]) [] s x rest
    ltac:(apply owns_map_err, owns_opens, (ac_dup _ AC)) Hx) as Hm.
  destruct (on_snd _ (s, x)) as [[s1 x1] [fd'|e|]]; [|by destruct Hm as [-> ?]; apply (balanced_own _ _ _ _ Hb)|done].
  destruct Hm as [-> Hx1].
  pose proof (owns_on_snd _ _ _ _ s x1 rest (owns_channel fd' s.(bufsize)) Hx1) as Hm.
  destruct (on_snd _ (s, x1)) as [[s2 x2] [ch|e|]]; [|by destruct Hm as [-> ?]; apply (balanced_own _ _ _ _ Hb)|done].
  destruct Hm as [-> Hx2]. cbn -[app]. split; [|done]. destruct Hb as (_ & Hn & Hw).
  assert (ch.(ch_waker) ∉ s.(wakers)) as Hfresh.
  { destruct Hx2 as [_ (_ & Hd & _)%NoDup_app]. intros Hin. apply (Hd ch.(ch_waker)); [by do 2 right; left|].
    unfold rest. rewrite !elem_of_app. auto. }
  split_and!; cbn [fst snd].
  - assert (held (with_wakers (s.(wakers) ++ [ch.(ch_waker)]) s) (ch :: chs) ++ base
      ≡ₚ [ch.(ch_file); ch.(ch_poll); ch.(ch_waker)] ++ rest) as ->; [|done].
    unfold held, rest. change (own (with_wakers _ _)) with (own s). change (wakers (with_wakers ?l _)) with l.
    change (ends_of (ch :: chs)) with ([ch.(ch_file); ch.(ch_poll)] ++ ends_of chs). solve_Permutation.
  - apply NoDup_cons. split; [|done]. intros (c & E & Hc)%list_elem_of_fmap. rewrite Forall_forall in Hw.
    apply Hfresh. rewrite E. by apply Hw.
  - change (wakers (with_wakers ?l _)) with l. apply Forall_cons. split; [set_solver|].
    eapply Forall_impl; [exact Hw|]. cbn. set_solver.
Qed.

Lemma clone_keeps base chs w :
  balanced base chs w ->
  match clone_fuse_file w with
  | (w', Ok fd) => balanced (fd :: base) chs w'
  | (w', Err _) => balanced base chs w'
  | (_, Panic) => True
  end.
Proof.
  destruct w as [s x]. intros Hb. pose proof (balanced_open _ _ _ _ Hb) as Hx. set (rest := own s ++ _) in Hx.
  unfold clone_fuse_file, mbind, prog_mbind, prog_bind. cbn [gets fst snd].
  destruct (s.(file)) as [old|] eqn:Ef; [|done].
  pose proof (owns_on_snd [] (sess (bs "open /dev/fuse") (h_open_rw FUSE_DEVICE)) (fun fd => [fd]) [] s x rest
    ltac:(apply owns_map_err, owns_opens, (ac_open _ AC)) Hx) as Hm.
  destruct (on_snd _ (s, x)) as [[s1 x1] [fd|e|]]; [|by destruct Hm as [-> ?]; apply (balanced_own _ _ _ _ Hb)|done].
  destruct Hm as [-> Hx1].
  pose proof (owns_on_snd [fd] (or_drop (sess (bs "failed to clone fuse file") (h_clone fd old)) (h_drop fd)) (fun _ => [fd]) [] s x1 rest
    ltac:(eapply owns_or_drop; [apply owns_map_err, owns_quiet, (ac_clone _ AC)|apply owns_drop]) Hx1) as Hm.
  destruct (on_snd _ (s, x1)) as [[s2 x2] [?|e|]]; [|by destruct Hm as [-> ?]; apply (balanced_own _ _ _ _ Hb)|done].
  destruct Hm as [-> Hx2]. cbn. destruct Hb as (_ & Hn & Hw). split_and!; [|done|done]. cbn [fst snd].
  assert (held s chs ++ fd :: base ≡ₚ [fd] ++ rest) as ->; [|done]. unfold held, rest. solve_Permutation.
Qed.
End descriptors.

(** C12: no descriptor is lost.  Account for the connection, the socket to
    fusermount, the wakers, which the session shares with its channels, and the
    file and the epoll instance of each channel.  If the open descriptors are
    these and some others, this stays so through mounting (directly, through
    fusermount, or first one and then the other), cloning the connection and
    making a channel, on success and on every error; a clone comes with its
    descriptor.  Unmounting, successful or not, closes the connection and the
    socket, and unmounting again does nothing.  The wakers stay: a session keeps
    the waker of every channel it made, also after the channel was dropped,
    until the session itself is dropped.  That closes all that is the session's
    and leaves to each channel its three descriptors, which go with it. *)
Theorem session_descriptors {X} `{SessionHost X} fds base chs (w : FuseSession * X) :
  accounts fds -> balanced fds base chs w ->
  match mount w with (w', Panic) => True | (w', _) => balanced fds base chs w' end /\
  match clone_fuse_file w with
  | (w', Ok fd) => balanced fds (fd :: base) chs w' | (w', Err _) => balanced fds base chs w' | (_, Panic) => True
  end /\
  match new_channel w with
  | (w', Ok ch) => balanced fds base (ch :: chs) w' /\ w'.1.(wakers) = w.1.(wakers) ++ [ch.(ch_waker)]
  | (w', Err _) => balanced fds base chs w' | (_, Panic) => True
  end /\
  (forall ch chs', chs = ch :: chs' ->
    exists x', FuseChannel_drop w.1.(wakers) ch w.2 = (x', Ok tt) /\ balanced fds base chs' (w.1, x')) /\
  match umount w with
  | (w', Panic) => True
  | (w', _) => w'.1.(file) = None /\ w'.1.(keep_alive) = None /\ balanced fds base chs w' /\ umount w' = (w', Ok tt)
  end /\
  match FuseSession_drop (map ch_waker chs) w with
  | (_, Panic) => True
  | (w', o) => o = Ok tt /\ fds w'.2 ≡ₚ left_of chs ++ base /\
    forall ch, chs = [ch] -> exists x'', FuseChannel_drop [] ch w'.2 = (x'', Ok tt) /\ fds x'' ≡ₚ base
  end.
Proof.
  intros AC Hb. split_and!.
  - by apply mount_keeps.
  - by apply clone_keeps.
  - by apply new_channel_keeps.
  - intros ch chs' ->. destruct w. by apply drop_channel_keeps.
  - pose proof (umount_keeps fds AC base chs w Hb) as Hu.
    destruct (umount w) as [w' [?|e|]]; [|..|done]; destruct Hu as [Ho Hu]; pose proof (umount_again w' Ho);
      unfold own in Ho; by destruct (w'.1.(file)), (w'.1.(keep_alive)).
  - pose proof (drop_session_run fds AC base chs w Hb) as Hd.
    destruct (FuseSession_drop _ w) as [w' [?|e|]]; [|by destruct Hd|done]. destruct Hd as [-> Hd].
    split_and!; [done|apply Hd|]. intros ch ->. destruct (drop_channel_last fds AC ch w'.2 base Hd) as (x'' & E & [Hx _]).
    by exists x''.
Qed.

(** ** Requests *)

Definition has_event (token : Z) (events : list Event) : bool := existsb (fun ev => ev.(ev_token) =? token) events.

(** The kernel's end of the connection: the requests that wait, whether the
    channel was woken to stop since its last poll, and whether the file system is
    unmounted.  A poll reports what is ready: the device as long as it is, with an
    error when the file system is unmounted; the waker, which mio registers
    edge-triggered, once for a wake.  A read takes the first request, or finds that
    the file system was unmounted meanwhile.  Both may be interrupted, a bounded
    number of times. *)
Record connection {X} `{SessionHost X} (fd poll : Z) (pending : X -> list bytes) (stop gone : X -> bool) (patience : X -> Z) : Prop := {
  cn_patience : forall x, 0 <= patience x;
  cn_poll : forall x, stop x = true \/ gone x = true \/ pending x <> [] ->
    exists x' o, h_epoll_wait poll x = (x', o) /\ pending x' = pending x /\ gone x' = gone x /\
      match o with
      | Ok events =>
        patience x' <= patience x /\ stop x' = false /\
        Forall (fun ev => ev = mkEvent EXIT_FUSE_EVENT true false \/ ev = mkEvent FUSE_DEV_EVENT (negb (gone x)) (gone x)) events /\
        has_event EXIT_FUSE_EVENT events = stop x /\
        has_event FUSE_DEV_EVENT events = gone x || negb (bool_decide (pending x = []))
      | Err e => error_kind e = Interrupted /\ stop x' = stop x /\ patience x' < patience x
      | Panic => False
      end;
  cn_read : forall x n r rest, pending x = r :: rest -> gone x = false -> zlen r <= n ->
    exists x' o, h_read fd n x = (x', o) /\ stop x' = stop x /\
      match o with
      | Ok data => data = r /\ pending x' = rest /\ gone x' = gone x
      | Err e =>
        (e = ENOENT \/ e = EAGAIN \/ e = EINTR) /\ pending x' = pending x /\ gone x' = gone x /\ patience x' < patience x \/
        e = ENODEV /\ gone x' = true
      | Panic => False
      end;
}.

Lemma scan_ok events a b :
  Forall (fun ev => ev = mkEvent EXIT_FUSE_EVENT true false \/ ev = mkEvent FUSE_DEV_EVENT true false) events ->
  scan_events events a b = Ok (a || has_event EXIT_FUSE_EVENT events, b || has_event FUSE_DEV_EVENT events).
Proof.
  intros H. revert a b. induction H as [|ev events Hev _ IH]; intros a b; [cbn; by rewrite !orb_false_r|].
  destruct Hev as [->| ->]; cbn; rewrite IH; cbn; by rewrite ?orb_true_r.
Qed.

Lemma scan_gone events a b :
  Forall (fun ev => ev = mkEvent EXIT_FUSE_EVENT true false \/ ev = mkEvent FUSE_DEV_EVENT false true) events ->
  has_event FUSE_DEV_EVENT events = true -> scan_events events a b = Err (SessionFailure (bs "epoll error")).
Proof.
  intros H. revert a b. induction H as [|ev events Hev _ IH]; intros a b Hd; [done|]. destruct Hev as [->| ->]; [|done]. cbn. by apply IH.
Qed.

Section requests.
Context {X : Type} {HOST : SessionHost X} (pending : X -> list bytes) (stop gone : X -> bool) (patience : X -> Z).
Context (ch : FuseChannel) (CN : connection ch.(ch_file) ch.(ch_poll) pending stop gone patience).

(** The answer to a call of [get_request] in the state [x]. *)
Definition answered (x : X) (r : TransportError + option (Reader RawSlice * FuseDevWriter)) (w : FuseChannel * X) : Prop :=
  stop w.2 = false /\
  if gone x then r = inl (SessionFailure (bs "epoll error")) /\ w.1 = ch /\ pending w.2 = pending x
  else if stop x then r = inr None /\ w.1 = ch /\ pending w.2 = pending x
  else match pending x with
  | [] => False
  | req :: rest =>
    let buf := read_into req ch.(ch_buf) in
    r = inr (Some (reader_of req, FuseDevWriter_new buf)) /\ pending w.2 = rest /\ gone w.2 = false /\
      w.1 = mkFuseChannel ch.(ch_file) ch.(ch_poll) ch.(ch_waker) buf \/
    r = inr None /\ gone w.2 = true /\ w.1 = ch
  end.

Lemma round_gives x :
  stop x = true \/ gone x = true \/ pending x <> [] -> Forall (fun r => zlen r <= zlen ch.(ch_buf)) (pending x) ->
  gives (request_round false) (fun r w =>
    match r with
    | inr (inl e) => e = false /\ w.1 = ch /\ pending w.2 = pending x /\ stop w.2 = stop x /\ gone w.2 = gone x /\ patience w.2 < patience x
    | inr (inr a) => answered x (inr a) w
    | inl e => answered x (inl e) w
    end) (ch, x).
Proof.
  intros Hready Hfit. destruct (cn_poll _ _ _ _ _ _ CN x Hready) as (x1 & o & Hpoll & Hp & Hg & Ho).
  unfold gives, request_round, mbind, prog_mbind, prog_bind, on_snd, attempt. cbn [gets fst snd]. rewrite Hpoll.
  destruct o as [events|e|]; [|destruct Ho as (-> & Hs & Hlt); cbn; split_and!; done|done].
  destruct Ho as (Hpt & Hs & Hev & Hex & Hdev). unfold answered. destruct (gone x) eqn:Hgx.
  { cbn. rewrite scan_gone by done. cbn. done. }
  cbn in Hev. rewrite scan_ok by done. cbn [lift orb]. rewrite Hex, Hdev. cbn [orb]. destruct (stop x) eqn:Hsx; [cbn; done|].
  destruct (pending x) as [|req rest] eqn:Hpx; [by destruct Hready as [|[|]]|]. rewrite bool_decide_false by done. cbn [negb fst snd].
  apply Forall_cons in Hfit as [Hfit _].
  destruct (cn_read _ _ _ _ _ _ CN x1 (zlen ch.(ch_buf)) req rest Hp Hg Hfit) as (x2 & o & Hread & Hs2 & Ho). rewrite Hread.
  rewrite Hs in Hs2. destruct o as [data|e|]; [| |done].
  - destruct Ho as (-> & Hp2 & Hg2). cbn. rewrite (proj2 (Z.leb_le _ _)) by done. cbn. rewrite Hg in Hg2. split; [done|by left].
  - destruct Ho as [(He & Hp2 & Hg2 & Hlt)|[-> Hg2]]; [|cbn; split; [done|by right]].
    cbn. destruct He as [->|[->| ->]]; cbn; split_and!; try done; try congruence; lia.
Qed.

Lemma get_request_gives x :
  stop x = true \/ gone x = true \/ pending x <> [] -> Forall (fun r => zlen r <= zlen ch.(ch_buf)) (pending x) -> patience x < 2 ^ 64 ->
  gives get_request (answered x) (ch, x).
Proof.
  intros Hready Hfit Hp. eapply (gives_loop (fun ne w => ne = false /\ w.1 = ch /\ pending w.2 = pending x /\ stop w.2 = stop x /\ gone w.2 = gone x)
    (fun _ w => patience w.2)).
  - intros ne w _. apply (cn_patience _ _ _ _ _ _ CN).
  - intros ne [c x1] (-> & Hc & Hp1 & Hs1 & Hg1). cbn in *. subst c.
    eapply gives_mono; [apply round_gives; [by rewrite Hp1, Hs1, Hg1|by rewrite Hp1]|]. unfold answered.
    rewrite Hp1, Hs1, Hg1. intros [e|[ne|a]] w Hr; [done| |done]. destruct Hr as (-> & ? & ? & ? & ? & ?). split_and!; congruence.
  - done.
  - done.
Qed.
End requests.


(** ** A small host *)

Record ToySession := mkToySession { ts_pending : list bytes; ts_stop : bool; ts_gone : bool; ts_intr : nat; ts_fds : list Z }.

Definition toy_fds (l : list Z) (x : ToySession) : ToySession :=
  mkToySession x.(ts_pending) x.(ts_stop) x.(ts_gone) x.(ts_intr) l.
Definition toy_next (l : list Z) : Z := foldr Z.max (-1) l + 1.
Definition toy_open {E} : prog ToySession E Z := fun x =>
  (toy_fds (toy_next x.(ts_fds) :: x.(ts_fds)) x, Ok (toy_next x.(ts_fds))).

(** Closing takes out the first occurrence. *)
Fixpoint toy_remove (fd : Z) (l : list Z) : list Z :=
  match l with [] => [] | a :: l' => if a =? fd then l' else a :: toy_remove fd l' end.

(** A host where mounting needs fusermount. *)
#[global] Instance toy_session_host : SessionHost ToySession := {|
  h_pagesize := 4096;
  h_canonicalize path := mret path;
  h_is_dir _ _ := true;
  h_open_rw _ := toy_open;
  h_close fd x := toy_fds (toy_remove fd x.(ts_fds)) x;
  h_dup _ := toy_open;
  h_mode _ := mret 0x41ed;
  h_getuid _ := 1000;
  h_getgid _ := 1000;
  h_mount _ _ _ _ _ := fail EPERM;
  h_umount2 _ _ := fail EPERM;
  h_setfl _ _ := mret tt;
  h_setfd _ _ := mret tt;
  h_clone _ _ := fail EINVAL;
  h_socketpair := a ← toy_open; b ← toy_open; mret (b, a);
  h_spawn _ := mret 77;
  h_wait _ := mret (Some 0);
  h_status _ := mret (Some 0);
  h_recv_with_fd _ := fd ← toy_open; mret (1, Some fd);
  h_poll _ := mret (Some 0);
  h_poll_new := toy_open;
  h_waker_new _ _ := toy_open;
  h_epoll_add _ _ _ := mret tt;
  h_wake _ := mret tt;
  h_epoll_wait _ x :=
    match x.(ts_intr) with
    | S k => (mkToySession x.(ts_pending) x.(ts_stop) x.(ts_gone) k x.(ts_fds), Err (Os EINTR))
    | O => (mkToySession x.(ts_pending) false x.(ts_gone) O x.(ts_fds),
            Ok ((match x.(ts_pending), x.(ts_gone) with [], false => [] | _, g => [mkEvent FUSE_DEV_EVENT (negb g) g] end) ++
                   (if x.(ts_stop) then [mkEvent EXIT_FUSE_EVENT true false] else [])))
    end;
  h_read _ _ x :=
    match x.(ts_pending) with
    | r :: rest => (mkToySession rest x.(ts_stop) x.(ts_gone) x.(ts_intr) x.(ts_fds), Ok r)
    | [] => (x, Err ENODEV)
    end;
|}.

Lemma toy_remove_perm fd l k : l ≡ₚ fd :: k -> toy_remove fd l ≡ₚ k.
Proof.
  intros Hp. assert (fd ∈ l) as Hin by (rewrite Hp; apply list_elem_of_here). apply (Permutation_cons_inv (a := fd)). rewrite <- Hp. clear Hp.
  induction l as [|a l IH]; [by apply elem_of_nil in Hin|]. cbn. destruct (Z.eqb_spec a fd) as [->|Hne]; [done|].
  apply elem_of_cons in Hin as [->|Hin]; [done|]. rewrite perm_swap. by rewrite IH.
Qed.

Lemma toy_next_fresh l : toy_next l ∉ l.
Proof.
  assert (forall a, a ∈ l -> a <= foldr Z.max (-1) l) as H; [|intros Hin%H; unfold toy_next in Hin; lia].
  induction l as [|b l IH]; intros a; [by intros ?%elem_of_nil|]. intros [->|Ha]%elem_of_cons; cbn; [lia|]. specialize (IH a Ha). lia.
Qed.

Lemma toy_accounts : accounts ts_fds.
Proof.
  split; try (intros; done); try (intros; intros x; cbn; split; [done|apply toy_next_fresh]).
  - intros fd x l Hx. by apply toy_remove_perm.
  - intros x. cbn. split_and!; [done|apply toy_next_fresh..].
  - intros sock x. cbn. split; [done|apply toy_next_fresh].
Qed.

Lemma toy_connection fd poll : connection fd poll ts_pending ts_stop ts_gone (fun x => Z.of_nat x.(ts_intr)).
Proof.
  split.
  - intros x. lia.
  - intros [p s g [|k] fds] _; cbn; eexists _, _; (split; [done|]); cbn; [|split_and!; (done || lia)].
    destruct p as [|r p], g, s; split_and!; try (done || lia); repeat (apply Forall_cons_2; [by (left + right)|]); apply Forall_nil_2.
  - intros [p s g k fds] n r rest Hp Hg Hn. cbn in *. subst p. eexists _, _. split; [done|]. cbn. split_and!; done.
Qed.

Definition toy_session (f k : option Z) (auto : bool) : FuseSession :=
  mkFuseSession (bs "/mnt") (bs "pass") [] f k 8 false [] auto true None FUSERMOUNT_BIN.

Definition toy_mounted : FuseSession * ToySession :=
  (mount (toy_session None None true, mkToySession [] false false 0 [0; 1; 2])).1.
Definition toy_served : FuseSession * ToySession := (new_channel toy_mounted).1.

(** Mount, make a channel and drop the session: the channel's descriptors are left. *)
Lemma session_descriptors_witness :
  own toy_mounted.1 = [5; 4] /\ toy_served.1.(wakers) = [8] /\
  let ch := mkFuseChannel 6 7 8 (repeat 0 8) in
  balanced ts_fds [0; 1; 2] [ch] toy_served /\ exists w, FuseSession_drop [8] toy_served = (w, Ok tt) /\ w.2.(ts_fds) ≡ₚ [6; 7; 8; 0; 1; 2].
Proof.
  pose proof (session_descriptors ts_fds [0; 1; 2] [] (toy_session None None true, mkToySession [] false false 0 [0; 1; 2]) toy_accounts
    ltac:(split_and!; [split; [done|]|constructor..]; by apply (bool_decide_unpack (NoDup [0; 1; 2])))) as (Hm & _).
  change (balanced ts_fds [0; 1; 2] [] toy_mounted) in Hm.
  pose proof (session_descriptors ts_fds [0; 1; 2] [] toy_mounted toy_accounts Hm) as (_ & _ & [Hc _] & _).
  change (balanced ts_fds [0; 1; 2] [mkFuseChannel 6 7 8 (repeat 0 8)] toy_served) in Hc.
  split; [by vm_compute|]. split; [by vm_compute|]. intros ch. split; [exact Hc|].
  pose proof (session_descriptors ts_fds [0; 1; 2] _ toy_served toy_accounts Hc) as (_ & _ & _ & _ & _ & Hd).
  change (map ch_waker _) with [8] in Hd. assert (exists w, FuseSession_drop [8] toy_served = (w, Ok tt)) as [w E]
    by (eexists; vm_compute; reflexivity).
  rewrite E in Hd. destruct Hd as (_ & Hd & _). exists w. split; [exact E|exact Hd].
Defined.

