(* ===== verification/Mpmc.v ===== *)
(** * The channel between tasks ([src/common/mpmc.rs])

    [Channel]: a queue of requests, a flag that it is closed, and tokio's
    [Notify].  Senders, receivers and closers run concurrently: each of their
    atomic actions is a step, and a state has the position of every call.

    [Notify] is an interface: a future that was enabled waits until it is
    notified; [notify_one] wakes one that waits, or the next to come; a future
    that is dropped with a notification of [notify_one] unused passes it on.

    The theorem shows that no wake-up is lost: a receiver sleeps only while the
    queue is empty or someone else is on the way to it, and not once the channel
    has been closed. *)

From stdpp Require Import gmap sets.
From S2P Require Import Prelude.

(** ** [tokio::sync::Notify]

    Futures are named by the receivers that own them.  [n_enable] is [enable]
    on a new future, [n_complete] the end of its [await], and [n_drop] its
    drop. *)

Class Notify (N : Type) : Type := {
  n_new : N;
  n_enable : nat -> N -> N;
  n_notify_one : N -> N;
  n_notify_waiters : N -> N;
  n_ready : N -> nat -> bool;
  n_complete : nat -> N -> N;
  n_drop : nat -> N -> N;
}.
#[global] Hint Mode Notify ! : typeclass_instances.

(** ** The channel *)

(** Where a call of [recv] is: before [enable], before [try_recv], before the
    test of [closed], at the [await], or returned.  [r_again]: it is in a round
    after the first. *)
Inductive RPc : Set := REnable | RTry | RClosed | RAwait | RReturned.
Record Receiver : Set := mkReceiver { r_pc : RPc; r_again : bool }.

(** Where a call of [send] is: before the test of [closed], before the
    [push_back], before [notify_one], or returned. *)
Inductive Sender (T : Type) : Type := SClosed (msg : T) | SPush (msg : T) | SNotify | SReturned.
Arguments SClosed {T}.
Arguments SPush {T}.
Arguments SNotify {T}.
Arguments SReturned {T}.

(** Where a call of [close] is. *)
Inductive Closer : Set := CStore | CNotify | CReturned.

Record Channel (N T : Type) : Type := mkChannel {
  closed : bool;
  notifier : N;
  requests : list T;
  receivers : list Receiver;
  senders : list (Sender T);
  closers : list Closer;
}.
Arguments mkChannel {N T}.
Arguments closed {N T}.
Arguments notifier {N T}.
Arguments requests {N T}.
Arguments receivers {N T}.
Arguments senders {N T}.
Arguments closers {N T}.

Section channel.
Context {N T : Type} `{NT : Notify N}.
Implicit Types (c : Channel N T) (i : nat).

Definition Channel_new : Channel N T := mkChannel false n_new [] [] [] [].

Definition set_receiver i (r : Receiver) c : Channel N T :=
  mkChannel c.(closed) c.(notifier) c.(requests) (<[i := r]> c.(receivers)) c.(senders) c.(closers).
Definition set_sender i (s : Sender T) c : Channel N T :=
  mkChannel c.(closed) c.(notifier) c.(requests) c.(receivers) (<[i := s]> c.(senders)) c.(closers).
Definition set_closer i (k : Closer) c : Channel N T :=
  mkChannel c.(closed) c.(notifier) c.(requests) c.(receivers) c.(senders) (<[i := k]> c.(closers)).
Definition set_notifier (n : N) c : Channel N T :=
  mkChannel c.(closed) n c.(requests) c.(receivers) c.(senders) c.(closers).
Definition set_requests (l : list T) c : Channel N T :=
  mkChannel c.(closed) c.(notifier) l c.(receivers) c.(senders) c.(closers).
Definition set_closed c : Channel N T :=
  mkChannel true c.(notifier) c.(requests) c.(receivers) c.(senders) c.(closers).

(** [pop_front]. *)
Definition try_recv c : option T * Channel N T :=
  match c.(requests) with
  | [] => (None, c)
  | msg :: rest => (Some msg, set_requests rest c)
  end.

(** The next action of the sender [i]. *)
Definition send_step i c : option (Channel N T) :=
  match c.(senders) !! i with
  | Some (SClosed msg) => Some (set_sender i (if c.(closed) then SReturned else SPush msg) c)
  | Some (SPush msg) => Some (set_sender i SNotify (set_requests (c.(requests) ++ [msg]) c))
  | Some SNotify => Some (set_sender i SReturned (set_notifier (n_notify_one c.(notifier)) c))
  | _ => None
  end.

(** The next action of the receiver [i]. *)
Definition recv_step i c : option (Channel N T) :=
  match c.(receivers) !! i with
  | Some (mkReceiver REnable again) =>
    Some (set_receiver i (mkReceiver RTry again) (set_notifier (n_enable i c.(notifier)) c))
  | Some (mkReceiver RTry again) =>
    match try_recv c with
    | (Some _, c') => Some (set_receiver i (mkReceiver RReturned again) (set_notifier (n_drop i c'.(notifier)) c'))
    | (None, c') => Some (set_receiver i (mkReceiver RClosed again) c')
    end
  | Some (mkReceiver RClosed again) =>
    if c.(closed) then Some (set_receiver i (mkReceiver RReturned again) (set_notifier (n_drop i c.(notifier)) c))
    else Some (set_receiver i (mkReceiver RAwait again) c)
  | Some (mkReceiver RAwait again) =>
    if n_ready c.(notifier) i
    then Some (set_receiver i (mkReceiver REnable true) (set_notifier (n_complete i c.(notifier)) c))
    else None
  | _ => None
  end.

(** The next action of the closer [i]. *)
Definition close_step i c : option (Channel N T) :=
  match c.(closers) !! i with
  | Some CStore => Some (set_closer i CNotify (set_closed c))
  | Some CNotify => Some (set_closer i CReturned (set_notifier (n_notify_waiters c.(notifier)) c))
  | _ => None
  end.

Definition flush_pending_prefetch_requests (f : T -> bool) c : Channel N T :=
  set_requests (List.filter (fun t => negb (f t)) c.(requests)) c.

Definition notify_waiters c : Channel N T := set_notifier (n_notify_waiters c.(notifier)) c.

(** A step of the system: an action of a call, a new call, or one of the
    operations that are a single action. *)
Inductive step : Channel N T -> Channel N T -> Prop :=
| step_send i c c' : send_step i c = Some c' -> step c c'
| step_recv i c c' : recv_step i c = Some c' -> step c c'
| step_close i c c' : close_step i c = Some c' -> step c c'
| call_send msg c :
    step c (mkChannel c.(closed) c.(notifier) c.(requests) c.(receivers) (c.(senders) ++ [SClosed msg]) c.(closers))
| call_recv c :
    step c (mkChannel c.(closed) c.(notifier) c.(requests) (c.(receivers) ++ [mkReceiver REnable false]) c.(senders) c.(closers))
| call_close c :
    step c (mkChannel c.(closed) c.(notifier) c.(requests) c.(receivers) c.(senders) (c.(closers) ++ [CStore]))
| call_try_recv c : step c (try_recv c).2
| call_flush f c : step c (flush_pending_prefetch_requests f c)
| call_notify_waiters c : step c (notify_waiters c).

Definition reachable : Channel N T -> Prop := rtc step Channel_new.
End channel.

(** * Properties *)

(** What [Notify] promises.  [waiting] are the enabled futures without a
    notification; [granted] those [notify_one] chose and whose notification is
    unused. *)
Definition grants (waiting granted waiting' granted' : gset nat) (ready ready' : nat -> bool) : Prop :=
  (waiting = ∅ /\ waiting' = ∅ /\ granted' = granted /\ forall j, ready' j = ready j) \/
  (exists i, i ∈ waiting /\ waiting' = waiting ∖ {[i]} /\ granted' = {[i]} ∪ granted /\
    ready' i = true /\ forall j, j <> i -> ready' j = ready j).

Class NotifyOk (N : Type) `{Notify N} : Type := {
  waiting : N -> gset nat;
  granted : N -> gset nat;
  no_new : waiting n_new = ∅ /\ granted n_new = ∅;
  no_ready : forall n i, i ∈ waiting n -> n_ready n i = false;
  no_granted : forall n i, i ∈ granted n -> n_ready n i = true;
  no_enable : forall n i, i ∉ waiting n -> i ∉ granted n ->
    granted (n_enable i n) = granted n /\ (forall j, j <> i -> n_ready (n_enable i n) j = n_ready n j) /\
    ((waiting (n_enable i n) = {[i]} ∪ waiting n) \/ (waiting (n_enable i n) = waiting n /\ n_ready (n_enable i n) i = true));
  no_notify_one : forall n,
    grants (waiting n) (granted n) (waiting (n_notify_one n)) (granted (n_notify_one n)) (n_ready n) (n_ready (n_notify_one n));
  no_notify_waiters : forall n,
    waiting (n_notify_waiters n) = ∅ /\ granted (n_notify_waiters n) = granted n /\
    forall j, n_ready (n_notify_waiters n) j = bool_decide (j ∈ waiting n) || n_ready n j;
  no_complete : forall n i, n_ready n i = true ->
    waiting (n_complete i n) = waiting n /\ granted (n_complete i n) = granted n ∖ {[i]} /\
    forall j, j <> i -> n_ready (n_complete i n) j = n_ready n j;
  no_drop : forall n i,
    let w := waiting n ∖ {[i]} in let g := granted n ∖ {[i]} in let n' := n_drop i n in
    if bool_decide (i ∈ granted n) then
      exists r, (forall j, j <> i -> r j = n_ready n j) /\ grants w g (waiting n') (granted n') r (n_ready n')
    else waiting n' = w /\ granted n' = g /\ forall j, j <> i -> n_ready n' j = n_ready n j;
}.

Section no_lost_wakeup.
Context {N T : Type} `{NT : NotifyOk N}.
Implicit Types (c : Channel N T) (i : nat) (n : N).

(** The receiver looked at the queue and found it empty. *)
Definition past_check (r : Receiver) : bool := match r.(r_pc) with RClosed | RAwait => true | _ => false end.
(** Its future is enabled. *)
Definition enabled (r : Receiver) : bool := match r.(r_pc) with RTry | RClosed | RAwait => true | _ => false end.
(** It was woken and will look again. *)
Definition woken (r : Receiver) : nat := match r.(r_pc) with REnable | RTry => Nat.b2n r.(r_again) | _ => 0 end.
(** It owes a notification. *)
Definition owes (s : Sender T) : nat := match s with SNotify => 1 | _ => 0 end.

Definition credit c : nat := (list_sum (map owes c.(senders)) + list_sum (map woken c.(receivers)) + size (granted c.(notifier)))%nat.

(** Enabled futures wait or are ready, and there are no others. *)
Definition shape (rs : list Receiver) n : Prop :=
  (forall i r, rs !! i = Some r ->
    if enabled r then i ∈ waiting n \/ n_ready n i = true else (i ∉ waiting n) /\ (i ∉ granted n)) /\
  (forall i, i ∈ waiting n \/ i ∈ granted n -> (i < length rs)%nat).

(** Every message that came since a sleeper looked has someone coming for it. *)
Definition credited c : Prop := forall i r,
  c.(receivers) !! i = Some r -> past_check r = true -> i ∈ waiting c.(notifier) -> (length c.(requests) <= credit c)%nat.

(** A closed channel wakes the sleepers. *)
Definition wakes (closed : bool) (ks : list Closer) (rs : list Receiver) n : Prop :=
  closed = true -> CNotify ∈ ks \/ forall i r, rs !! i = Some r -> r.(r_pc) = RAwait -> n_ready n i = true.

Definition inv c : Prop :=
  shape c.(receivers) c.(notifier) /\ credited c /\ wakes c.(closed) c.(closers) c.(receivers) c.(notifier).

Lemma list_sum_insert {A} (f : A -> nat) (l : list A) i x y :
  l !! i = Some x -> (list_sum (map f (<[i := y]> l)) + f x = list_sum (map f l) + f y)%nat.
Proof.
  revert i. induction l as [|a l IH]; intros [|i] Hl; [done..| |].
  - injection Hl as ->. cbn. lia.
  - specialize (IH i Hl). change (<[S i := y]> (a :: l)) with (a :: <[i := y]> l). cbn [map list_sum] in *. unfold list_sum in *. cbn [foldr] in *. lia.
Qed.

#[local] Arguments list_sum : simpl never.

(** Except for [i], futures stay enabled and are only woken. *)
Definition adv (skip : gset nat) n n' : Prop := forall j, j ∉ skip ->
  (j ∈ waiting n' -> j ∈ waiting n) /\ (j ∈ waiting n -> j ∈ waiting n' \/ n_ready n' j = true) /\
  (n_ready n j = true -> n_ready n' j = true) /\ (j ∈ granted n' -> j ∈ granted n \/ j ∈ waiting n).

Lemma shape_adv rs n n' : adv ∅ n n' -> shape rs n -> shape rs n'.
Proof.
  intros Ha [He Ho]. split.
  - intros i r Hr. specialize (He i r Hr). destruct (Ha i) as (H1 & H2 & H3 & H4); [set_solver|]. destruct (enabled r); naive_solver.
  - intros i Hi. apply Ho. destruct (Ha i) as (H1 & H2 & H3 & H4); [set_solver|]. naive_solver.
Qed.

Lemma shape_update rs n n' i r r' :
  rs !! i = Some r -> adv {[i]} n n' ->
  (if enabled r' then i ∈ waiting n' \/ n_ready n' i = true else (i ∉ waiting n') /\ (i ∉ granted n')) ->
  shape rs n -> shape (<[i := r']> rs) n'.
Proof.
  intros Hi Ha Hp [He Ho]. apply lookup_lt_Some in Hi as Hlt. split.
  - intros j s Hj. destruct (decide (j = i)) as [->|Hne].
    + rewrite list_lookup_insert_eq in Hj by done. by injection Hj as <-.
    + rewrite list_lookup_insert_ne in Hj by done. specialize (He j s Hj). destruct (Ha j) as (H1 & H2 & H3 & H4); [set_solver|].
      destruct (enabled s); naive_solver.
  - intros j Hj. rewrite length_insert. destruct (decide (j = i)) as [->|Hne]; [done|]. apply Ho.
    destruct (Ha j) as (H1 & H2 & H3 & H4); [set_solver|]. naive_solver.
Qed.

Lemma wakes_update closed ks rs n n' i r r' :
  rs !! i = Some r -> adv {[i]} n n' -> r'.(r_pc) <> RAwait -> wakes closed ks rs n -> wakes closed ks (<[i := r']> rs) n'.
Proof.
  intros Hi Ha Hp Hw Hc. destruct (Hw Hc) as [?|Hr]; [by left|right]. intros j s Hj Hs. destruct (decide (j = i)) as [->|Hne].
  - rewrite list_lookup_insert_eq in Hj by (by eapply lookup_lt_Some). by injection Hj as <-.
  - rewrite list_lookup_insert_ne in Hj by done. destruct (Ha j) as (_ & _ & H3 & _); [set_solver|]. by eapply H3, Hr.
Qed.

(** A sleeper after an action of [i] was one before. *)
Lemma sleeper_before (rs : list Receiver) n n' i r' j s :
  adv {[i]} n n' -> past_check r' = false -> <[i := r']> rs !! j = Some s -> past_check s = true -> j ∈ waiting n' ->
  rs !! j = Some s /\ j ∈ waiting n.
Proof.
  intros Ha Hp Hj Hs Hw. destruct (decide (j = i)) as [->|Hne].
  - destruct (decide (i < length rs)%nat) as [Hlt|Hge]; [rewrite list_lookup_insert_eq in Hj by done; congruence|].
    rewrite list_insert_ge in Hj by lia. apply lookup_lt_Some in Hj. lia.
  - rewrite list_lookup_insert_ne in Hj by done. split; [done|]. destruct (Ha j) as (H1 & _); [set_solver|]. auto.
Qed.

Lemma size_remove (g : gset nat) i : (size g <= size (g ∖ {[i]}) + 1)%nat.
Proof.
  rewrite <- (size_singleton (C := gset nat) i), Nat.add_comm, <- size_union by set_solver. apply subseteq_size. intros j Hj.
  destruct (decide (j = i)); set_solver.
Qed.

Lemma size_add (g : gset nat) i : i ∉ g -> size ({[i]} ∪ g) = S (size g).
Proof. intros Hi. rewrite size_union by set_solver. by rewrite size_singleton. Qed.

(** [notify_one] makes a sleeper's account good for one. *)
Lemma grants_adv skip w g n n' r :
  (forall j, j ∉ skip -> (j ∈ w <-> j ∈ waiting n) /\ (j ∈ g <-> j ∈ granted n) /\ r j = n_ready n j) -> (forall j, j ∈ w -> j ∉ skip) ->
  grants w g (waiting n') (granted n') r (n_ready n') ->
  adv skip n n' /\ (waiting n' = ∅ \/ exists i, i ∈ waiting n /\ granted n' = {[i]} ∪ g).
Proof.
  intros Hs Hskip [(Hw & Hw' & Hg & Hr)|(i & Hi & Hw' & Hg & Hri & Hr)].
  - split; [|by left]. intros j Hj. destruct (Hs j Hj) as (H1 & H2 & H3). rewrite Hw', Hg, Hr, H3.
    split_and!; [set_solver|intros Hj'; rewrite <- H1, Hw in Hj'; set_solver|done|naive_solver].
  - split.
    + intros j Hj. destruct (Hs j Hj) as (H1 & H2 & H3). rewrite Hw', Hg. destruct (decide (j = i)) as [->|Hne].
      * split_and!; [set_solver|by right|done|naive_solver].
      * rewrite Hr, H3 by done. split_and!; [set_solver|set_solver|done|set_solver].
    + right. exists i. split; [|done]. apply Hs; [|done]. by apply Hskip.
Qed.

Lemma waiting_not_granted n i : i ∈ waiting n -> i ∉ granted n.
Proof. intros Hw Hg. apply no_ready in Hw. apply no_granted in Hg. congruence. Qed.

Lemma notify_one_adv n :
  adv ∅ n (n_notify_one n) /\ (waiting (n_notify_one n) = ∅ \/ size (granted (n_notify_one n)) = S (size (granted n))).
Proof.
  destruct (grants_adv ∅ (waiting n) (granted n) n (n_notify_one n) (n_ready n)) as [Ha Hg]; [done|set_solver|apply no_notify_one|].
  split; [done|]. destruct Hg as [?|(i & Hi & Hg)]; [by left|right]. rewrite Hg. by apply size_add, waiting_not_granted.
Qed.

Lemma drop_adv n i :
  adv {[i]} n (n_drop i n) /\ (i ∉ waiting (n_drop i n)) /\ (i ∉ granted (n_drop i n)) /\
  (waiting (n_drop i n) = ∅ \/ size (granted (n_drop i n)) = size (granted n)).
Proof.
  pose proof (no_drop n i) as Hd. cbv zeta in Hd. case_bool_decide as Hg.
  - destruct Hd as (r & Hr & Hd). pose proof Hd as Hd'.
    apply (grants_adv {[i]} _ _ n) in Hd as [Ha Hs]; [|set_solver|set_solver].
    split; [done|]. destruct Hd' as [(Hw & Hw' & Hg' & _)|(k & Hk & Hw' & Hg' & _)].
    + rewrite Hw', Hg'. split_and!; [set_solver|set_solver|by left].
    + rewrite Hw', Hg'. split_and!; [set_solver|set_solver|right]. rewrite size_add.
      * pose proof (size_remove (granted n) i). rewrite <- (size_add (granted n ∖ {[i]}) i) by set_solver. f_equal.
        apply set_eq. intros j. destruct (decide (j = i)); set_solver.
      * intros Hin. apply (waiting_not_granted n k); set_solver.
  - destruct Hd as (Hw & Hg' & Hr). rewrite Hw, Hg'. split.
    + intros j Hj. rewrite Hw, Hg', Hr by set_solver. set_solver.
    + split_and!; [set_solver|set_solver|right]. f_equal. set_solver.
Qed.

Lemma adv_refl skip n : adv skip n n.
Proof. intros j _. naive_solver. Qed.

Lemma wakes_adv closed ks rs n n' : adv ∅ n n' -> wakes closed ks rs n -> wakes closed ks rs n'.
Proof.
  intros Ha Hw Hc. destruct (Hw Hc) as [?|Hr]; [by left|right]. intros i r Hi Hp. destruct (Ha i) as (_ & _ & H3 & _); [set_solver|]. by eapply H3, Hr.
Qed.

Lemma send_inv i c c' : send_step i c = Some c' -> inv c -> inv c'.
Proof.
  unfold send_step. destruct (c.(senders) !! i) as [[msg|msg| |]|] eqn:Hs; [| | |done..]; intros [= <-] (Hsh & Hcr & Hw).
  - split_and!; [done| |done]. intros j r Hj Hp Hwj. specialize (Hcr j r Hj Hp Hwj). unfold credit in *. cbn in *.
    pose proof (list_sum_insert owes _ i _ (if c.(closed) then SReturned else SPush msg) Hs). destruct (c.(closed)); cbn in *; lia.
  - split_and!; [done| |done]. intros j r Hj Hp Hwj. specialize (Hcr j r Hj Hp Hwj). unfold credit in *. cbn in *.
    pose proof (list_sum_insert owes _ i _ SNotify Hs). rewrite length_app. cbn in *. lia.
  - destruct (notify_one_adv c.(notifier)) as [Ha Hg]. split_and!; [by eapply shape_adv| |by eapply wakes_adv].
    intros j r Hj Hp Hwj. cbn in *. destruct Hg as [Hg|Hg]; [set_solver|].
    destruct (Ha j) as (H1 & _); [set_solver|]. specialize (Hcr j r Hj Hp (H1 Hwj)). unfold credit in *. cbn in *. rewrite Hg.
    pose proof (list_sum_insert owes _ i _ SReturned Hs). cbn in *. lia.
Qed.

(** The receiver [i] returns, and takes [k] messages with it. *)
Lemma return_inv i c r k rest :
  c.(receivers) !! i = Some r -> (woken r <= k)%nat -> length c.(requests) = (k + length rest)%nat -> inv c ->
  inv (set_receiver i (mkReceiver RReturned r.(r_again)) (set_notifier (n_drop i c.(notifier)) (set_requests rest c))).
Proof.
  intros Hr Hk Hl (Hsh & Hcr & Hw). destruct (drop_adv c.(notifier) i) as (Ha & Hnw & Hng & Hsz).
  split_and!; [by eapply shape_update| |by eapply wakes_update].
  intros j s Hj Hp Hwj. cbn in *. destruct Hsz as [Hsz|Hsz]; [set_solver|].
  destruct (sleeper_before _ _ _ _ (mkReceiver RReturned r.(r_again)) _ _ Ha eq_refl Hj Hp Hwj) as [Hj' Hwj'].
  specialize (Hcr j s Hj' Hp Hwj'). unfold credit in *. cbn in *. rewrite Hsz.
  pose proof (list_sum_insert woken _ i _ (mkReceiver RReturned r.(r_again)) Hr). cbn in *. lia.
Qed.

Lemma recv_inv i c c' : recv_step i c = Some c' -> inv c -> inv c'.
Proof.
  unfold recv_step. destruct (c.(receivers) !! i) as [[pc again]|] eqn:Hr; [|done].
  destruct pc; [..|done]; intros Hstep Hinv; pose proof Hinv as (Hsh & Hcr & Hw); pose proof (proj1 Hsh i _ Hr) as He; cbn in He.
  - injection Hstep as <-. destruct He as [Hnw Hng]. destruct (no_enable c.(notifier) i Hnw Hng) as (Hg & Hrd & Hor).
    assert (adv {[i]} c.(notifier) (n_enable i c.(notifier))) as Ha.
    { intros j Hj. rewrite Hg, Hrd by set_solver. destruct Hor as [->|[-> _]]; set_solver. }
    split_and!; [|..|by eapply wakes_update].
    + eapply shape_update; [done|done| |done]. cbn. destruct Hor as [->|[_ ?]]; [left; set_solver|by right].
    + intros j s Hj Hp Hwj. cbn in *. destruct (sleeper_before _ _ _ _ (mkReceiver RTry again) _ _ Ha eq_refl Hj Hp Hwj) as [Hj' Hwj'].
      specialize (Hcr j s Hj' Hp Hwj'). unfold credit in *. cbn in *. rewrite Hg.
      pose proof (list_sum_insert woken _ i _ (mkReceiver RTry again) Hr). cbn in *. lia.
  - unfold try_recv in Hstep. destruct (c.(requests)) as [|msg rest] eqn:Hq; injection Hstep as <-.
    + split_and!; [|intros j s Hj Hp Hwj; cbn; rewrite Hq; cbn; lia|by eapply wakes_update; [..|apply adv_refl| |]].
      by eapply shape_update; [..|apply adv_refl| |].
    + apply (return_inv i c (mkReceiver RTry again) 1 rest); [done|cbn; by destruct again; cbn; lia|by rewrite Hq|done].
  - destruct (c.(closed)) eqn:Hc; injection Hstep as <-.
    + apply (return_inv i c (mkReceiver RClosed again) 0 c.(requests)) in Hinv; [|done|done|done]. by destruct c.
    + split_and!; [by eapply shape_update; [..|apply adv_refl| |]| |by intros ?; cbn in *; congruence].
      intros j s Hj Hp Hwj. cbn in *. assert (exists s', c.(receivers) !! j = Some s' /\ past_check s' = true) as (s' & Hj' & Hp').
      { destruct (decide (j = i)) as [->|Hne]; [by eexists|]. rewrite list_lookup_insert_ne in Hj by done. by exists s. }
      specialize (Hcr j s' Hj' Hp' Hwj). unfold credit in *. cbn in *.
      pose proof (list_sum_insert woken _ i _ (mkReceiver RAwait again) Hr). cbn in *. lia.
  - destruct (n_ready c.(notifier) i) eqn:Hrd; [|done]. injection Hstep as <-.
    destruct (no_complete c.(notifier) i Hrd) as (Hwt & Hg & Hro).
    assert (i ∉ waiting c.(notifier)) as Hniw by (intros Hin%no_ready; congruence).
    assert (adv {[i]} c.(notifier) (n_complete i c.(notifier))) as Ha by (intros j Hj; rewrite Hwt, Hg, Hro by set_solver; set_solver).
    split_and!; [|..|by eapply wakes_update].
    + eapply shape_update; [done|done| |done]. cbn. rewrite Hwt, Hg. set_solver.
    + intros j s Hj Hp Hwj. cbn in *. destruct (sleeper_before _ _ _ _ (mkReceiver REnable true) _ _ Ha eq_refl Hj Hp Hwj) as [Hj' Hwj'].
      specialize (Hcr j s Hj' Hp Hwj'). unfold credit in *. cbn in *. rewrite Hg. pose proof (size_remove (granted c.(notifier)) i).
      pose proof (list_sum_insert woken _ i _ (mkReceiver REnable true) Hr). cbn in *. lia.
Qed.

Lemma notify_waiters_adv n : adv ∅ n (n_notify_waiters n).
Proof.
  intros j _. destruct (no_notify_waiters n) as (Hw & Hg & Hr). rewrite Hw, Hg, Hr. split_and!; [set_solver| |by intros ->; rewrite orb_true_r|by left].
  intros Hj. right. by rewrite bool_decide_true.
Qed.

Lemma woken_all c : shape c.(receivers) c.(notifier) -> forall ks, wakes c.(closed) ks c.(receivers) (n_notify_waiters c.(notifier)).
Proof.
  intros [He _] ks _. right. intros i r Hi Hp. specialize (He i r Hi). unfold enabled in He. rewrite Hp in He.
  destruct (no_notify_waiters c.(notifier)) as (_ & _ & ->). destruct He as [Hin| ->]; [by rewrite bool_decide_true|apply orb_true_r].
Qed.

Lemma close_inv i c c' : close_step i c = Some c' -> inv c -> inv c'.
Proof.
  unfold close_step. destruct (c.(closers) !! i) as [[]|] eqn:Hk; [| |done..]; intros [= <-] (Hsh & Hcr & Hw).
  - split_and!; [done|done|]. intros _. left. apply list_elem_of_lookup. exists i. apply list_lookup_insert_eq. by eapply lookup_lt_Some.
  - split_and!; [by eapply shape_adv; [apply notify_waiters_adv|]| |by apply (woken_all c Hsh)].
    intros j r Hj Hp Hwj. cbn in Hwj. destruct (no_notify_waiters c.(notifier)) as (Hnw & _). set_solver.
Qed.

Lemma fewer_inv l c : (length l <= length c.(requests))%nat -> inv c -> inv (set_requests l c).
Proof.
  intros Hl (Hsh & Hcr & Hw). split_and!; [done| |done]. intros j r Hj Hp Hwj. specialize (Hcr j r Hj Hp Hwj). unfold credit in *. cbn in *. lia.
Qed.

Lemma call_recv_inv c : inv c ->
  inv (mkChannel c.(closed) c.(notifier) c.(requests) (c.(receivers) ++ [mkReceiver REnable false]) c.(senders) c.(closers)).
Proof.
  intros ([He Ho] & Hcr & Hw). assert (forall j r, (c.(receivers) ++ [mkReceiver REnable false]) !! j = Some r ->
    c.(receivers) !! j = Some r \/ (j = length c.(receivers) /\ r = mkReceiver REnable false)) as Hl.
  { intros j r [?|[Hj Hr]]%lookup_app_Some; [by left|right]. apply list_lookup_singleton_Some in Hr as [? ->]. split; [lia|done]. }
  split_and!; [split| |]; cbn.
  - intros j r [Hj|[-> ->]]%Hl; [by apply He|]. cbn. split; intros Hin; [pose proof (Ho _ (or_introl Hin))|pose proof (Ho _ (or_intror Hin))]; lia.
  - intros j Hj. rewrite length_app. cbn. specialize (Ho j Hj). lia.
  - intros j r Hj Hp Hwj. cbn in *. apply Hl in Hj as [Hj|[-> ->]]; [|done]. specialize (Hcr j r Hj Hp Hwj). unfold credit in *. cbn in *.
    rewrite map_app, list_sum_app. lia.
  - intros Hc. destruct (Hw Hc) as [?|Hr]; [by left|right]. intros j r [Hj|[-> ->]]%Hl Hp; [by eapply Hr|done].
Qed.

Lemma step_inv c c' : step c c' -> inv c -> inv c'.
Proof.
  destruct 1 as [i c c' Hs|i c c' Hs|i c c' Hs|msg c|c|c|c|f c|c]; intros Hinv.
  - by eapply send_inv.
  - by eapply recv_inv.
  - by eapply close_inv.
  - destruct Hinv as (Hsh & Hcr & Hw). split_and!; [done| |done]. intros j r Hj Hp Hwj. specialize (Hcr j r Hj Hp Hwj).
    unfold credit in *. cbn in *. rewrite map_app, list_sum_app. lia.
  - by apply call_recv_inv.
  - destruct Hinv as (Hsh & Hcr & Hw). split_and!; [done|done|]. intros Hc. destruct (Hw Hc); [left; cbn; set_solver|by right].
  - unfold try_recv. destruct (c.(requests)) as [|msg rest] eqn:Hq; [done|]. apply fewer_inv; [rewrite Hq; cbn; lia|done].
  - apply fewer_inv; [|done]. apply List.filter_length_le.
  - destruct Hinv as (Hsh & Hcr & Hw). split_and!; [by eapply shape_adv; [apply notify_waiters_adv|]| |by apply (woken_all c Hsh)].
    intros j r Hj Hp Hwj. cbn in Hwj. destruct (no_notify_waiters c.(notifier)) as (Hnw & _). set_solver.
Qed.

Lemma reachable_inv c : reachable c -> inv c.
Proof.
  intros Hr. unfold reachable in Hr. apply (rtc_ind_r inv Channel_new) in Hr; [done| |intros ? ? _ Hs Hi; by eapply step_inv].
  destruct (no_new (N := N)) as [Hw Hg]. split_and!; [split|..]; cbn; [done|rewrite Hw, Hg; set_solver|by intros ? ? ?|done].
Qed.

(** The receiver [j] is on its way to the queue. *)
Definition coming c (j : nat) : Prop := exists r, c.(receivers) !! j = Some r /\
  match r.(r_pc) with REnable | RTry => True | RClosed | RAwait => n_ready c.(notifier) j = true | RReturned => False end.

Lemma list_sum_pos {A} (f : A -> nat) l : (0 < list_sum (map f l))%nat -> exists i x, l !! i = Some x /\ (0 < f x)%nat.
Proof.
  induction l as [|a l IH]; [intros Hp; unfold list_sum in Hp; cbn in Hp; lia|]. change (list_sum (map f (a :: l))) with (f a + list_sum (map f l))%nat. intros Hp.
  destruct (decide (0 < f a)%nat) as [Ha|Ha]; [by exists 0%nat, a|]. destruct IH as (i & x & ? & ?); [lia|]. by exists (S i), x.
Qed.

Lemma credit_coming c : inv c -> (0 < credit c)%nat -> (exists k, c.(senders) !! k = Some SNotify) \/ exists j, coming c j.
Proof.
  intros ([He Ho] & _) Hp. unfold credit in Hp.
  destruct (decide (0 < list_sum (map owes c.(senders)))%nat) as [Hs|Hs].
  { left. destruct (list_sum_pos _ _ Hs) as (k & x & Hk & Hx). exists k. by destruct x; cbn in Hx; try lia. }
  right. destruct (decide (0 < list_sum (map woken c.(receivers)))%nat) as [Hr|Hr].
  - destruct (list_sum_pos _ _ Hr) as (j & r & Hj & Hw). exists j, r. split; [done|]. unfold woken in Hw. destruct (r.(r_pc)); (done || lia).
  - destruct (set_choose_or_empty (granted c.(notifier))) as [[j Hj]|Hemp].
    2:{ assert (size (granted c.(notifier)) = 0%nat) by (by apply size_empty_iff). lia. }
    destruct (lookup_lt_is_Some_2 c.(receivers) j (Ho j (or_intror Hj))) as [r Hjr]. exists j, r. split; [done|].
    specialize (He j r Hjr). apply no_granted in Hj as Hrd. unfold enabled in He. destruct (r.(r_pc)); try done. by destruct He.
Qed.
End no_lost_wakeup.

(** C14: no wake-up is lost.  In every state the calls of [send], [recv] and
    [close] can reach, in any interleaving of their actions: while a receiver
    sleeps at its [await] and a request is in the queue, a sender has yet to call
    [notify_one], or another receiver is awake and looks at the queue before it
    sleeps; and while it sleeps and the channel is closed, a closer has yet to
    call [notify_waiters]. *)
Theorem mpmc_no_lost_wakeup {N T} `{NotifyOk N} (c : Channel N T) i r :
  reachable c -> c.(receivers) !! i = Some r -> r.(r_pc) = RAwait -> n_ready c.(notifier) i = false ->
  (c.(requests) <> [] -> (exists k, c.(senders) !! k = Some SNotify) \/ exists j, coming c j) /\
  (c.(closed) = true -> exists k, c.(closers) !! k = Some CNotify).
Proof.
  intros Hc Hi Hp Hr. apply reachable_inv in Hc as Hinv. pose proof Hinv as ([He _] & Hcr & Hw).
  assert (i ∈ waiting c.(notifier)) as Hwi by (specialize (He i r Hi); unfold enabled in He; rewrite Hp in He; destruct He; [done|congruence]).
  split.
  - intros Hq. apply credit_coming; [done|]. specialize (Hcr i r Hi ltac:(unfold past_check; by rewrite Hp) Hwi).
    destruct (c.(requests)); [done|]. cbn in Hcr. lia.
  - intros Hcl. destruct (Hw Hcl) as [Hk|Hall]; [by apply list_elem_of_lookup|]. rewrite (Hall i r Hi Hp) in Hr. done.
Qed.

(** ** A notifier *)

Inductive ToyFuture : Set := TWaiting | TGranted | TDone.
#[global] Instance ToyFuture_eq_dec : EqDecision ToyFuture.
Proof. solve_decision. Defined.

Record ToyNotify := mkToyNotify { tn_permit : bool; tn_futures : gmap nat ToyFuture }.

Definition toy_waiting (m : gmap nat ToyFuture) : gset nat := dom (filter (fun x => x.2 = TWaiting) m).
Definition toy_granted (m : gmap nat ToyFuture) : gset nat := dom (filter (fun x => x.2 = TGranted) m).

Definition toy_one (n : ToyNotify) : ToyNotify :=
  match elements (toy_waiting n.(tn_futures)) with
  | i :: _ => mkToyNotify n.(tn_permit) (<[i := TGranted]> n.(tn_futures))
  | [] => mkToyNotify true n.(tn_futures)
  end.

#[global] Instance toy_notify : Notify ToyNotify := {|
  n_new := mkToyNotify false ∅;
  n_enable i n := mkToyNotify false (<[i := if n.(tn_permit) then TDone else TWaiting]> n.(tn_futures));
  n_notify_one := toy_one;
  n_notify_waiters n := mkToyNotify n.(tn_permit) ((fun s => match s with TWaiting => TDone | _ => s end) <$> n.(tn_futures));
  n_ready n i := match n.(tn_futures) !! i with Some TGranted | Some TDone => true | _ => false end;
  n_complete i n := mkToyNotify n.(tn_permit) (delete i n.(tn_futures));
  n_drop i n :=
    let n' := mkToyNotify n.(tn_permit) (delete i n.(tn_futures)) in
    match n.(tn_futures) !! i with Some TGranted => toy_one n' | _ => n' end;
|}.

Lemma elem_of_toy_waiting m i : i ∈ toy_waiting m <-> m !! i = Some TWaiting.
Proof. unfold toy_waiting. rewrite elem_of_dom. split; [intros [s Hs]|intros Hs]; [|exists TWaiting]; rewrite map_lookup_filter_Some in *; naive_solver. Qed.

Lemma elem_of_toy_granted m i : i ∈ toy_granted m <-> m !! i = Some TGranted.
Proof. unfold toy_granted. rewrite elem_of_dom. split; [intros [s Hs]|intros Hs]; [|exists TGranted]; rewrite map_lookup_filter_Some in *; naive_solver. Qed.

Lemma toy_one_grants n :
  grants (toy_waiting n.(tn_futures)) (toy_granted n.(tn_futures)) (toy_waiting (toy_one n).(tn_futures))
    (toy_granted (toy_one n).(tn_futures)) (n_ready n) (n_ready (toy_one n)).
Proof.
  unfold toy_one. destruct (elements (toy_waiting n.(tn_futures))) as [|i l] eqn:He.
  - left. apply elements_empty_inv in He. split_and!; [set_solver|set_solver|done|done].
  - right. exists i. assert (i ∈ toy_waiting n.(tn_futures)) as Hi by (apply elem_of_elements; rewrite He; apply list_elem_of_here).
    apply elem_of_toy_waiting in Hi as Hl. cbn. split_and!; [done|..|by rewrite lookup_insert_eq|].
    + apply set_eq. intros j. rewrite elem_of_difference, elem_of_singleton, !elem_of_toy_waiting.
      destruct (decide (j = i)) as [->|]; [rewrite lookup_insert_eq|rewrite lookup_insert_ne by done]; naive_solver.
    + apply set_eq. intros j. rewrite elem_of_union, elem_of_singleton, !elem_of_toy_granted.
      destruct (decide (j = i)) as [->|]; [rewrite lookup_insert_eq|rewrite lookup_insert_ne by done]; naive_solver.
    + intros j Hj. by rewrite lookup_insert_ne.
Qed.

(** A set of futures after the map changed at one of them. *)
Lemma toy_delete m i :
  toy_waiting (delete i m) = toy_waiting m ∖ {[i]} /\ toy_granted (delete i m) = toy_granted m ∖ {[i]}.
Proof.
  split; apply set_eq; intros j; rewrite elem_of_difference, elem_of_singleton, ?elem_of_toy_waiting, ?elem_of_toy_granted, lookup_delete_Some;
    naive_solver.
Qed.

#[global] Instance toy_notify_ok : NotifyOk ToyNotify.
Proof.
  refine {| waiting n := toy_waiting n.(tn_futures); granted n := toy_granted n.(tn_futures) |}.
  - by vm_compute.
  - intros n i Hi%elem_of_toy_waiting. cbn. by rewrite Hi.
  - intros n i Hi%elem_of_toy_granted. cbn. by rewrite Hi.
  - intros n i Hw Hg. rewrite elem_of_toy_waiting in Hw. rewrite elem_of_toy_granted in Hg. cbn. split_and!.
    + apply set_eq. intros j. rewrite !elem_of_toy_granted. destruct (decide (j = i)) as [->|]; [rewrite lookup_insert_eq|by rewrite lookup_insert_ne].
      by destruct (n.(tn_permit)).
    + intros j Hj. by rewrite lookup_insert_ne.
    + destruct (n.(tn_permit)); [right; split; [|by rewrite lookup_insert_eq]|left]; apply set_eq; intros j;
        rewrite ?elem_of_union, ?elem_of_singleton, !elem_of_toy_waiting;
        (destruct (decide (j = i)) as [->|]; [rewrite lookup_insert_eq|rewrite lookup_insert_ne by done]); naive_solver.
  - intros n. apply toy_one_grants.
  - intros n. cbn. split_and!.
    + apply set_eq. intros j. rewrite elem_of_toy_waiting, lookup_fmap. destruct (n.(tn_futures) !! j) as [[]|]; set_solver.
    + apply set_eq. intros j. rewrite !elem_of_toy_granted, lookup_fmap. by destruct (n.(tn_futures) !! j) as [[]|].
    + intros j. rewrite lookup_fmap. case_bool_decide as Hj; rewrite elem_of_toy_waiting in Hj; [by rewrite Hj|].
      by destruct (n.(tn_futures) !! j) as [[]|].
  - intros n i Hr. destruct (toy_delete n.(tn_futures) i) as [Hw Hg]. cbn in *. rewrite Hw, Hg. split_and!; [|done|].
    + apply set_eq. intros j. rewrite elem_of_difference, elem_of_singleton, elem_of_toy_waiting. destruct (decide (j = i)) as [->|]; [|naive_solver].
      destruct (n.(tn_futures) !! i) as [[]|]; naive_solver.
    + intros j Hj. by rewrite lookup_delete_ne.
  - intros n i. destruct (toy_delete n.(tn_futures) i) as [Hw Hg]. cbv zeta.
    rewrite <- Hw, <- Hg. cbn. case_bool_decide as Hi; rewrite elem_of_toy_granted in Hi; [rewrite Hi|].
    + exists (n_ready (mkToyNotify n.(tn_permit) (delete i n.(tn_futures)))). split; [intros j Hj; cbn; by rewrite lookup_delete_ne|].
      exact (toy_one_grants (mkToyNotify n.(tn_permit) (delete i n.(tn_futures)))).
    + assert (forall A (a b : A), match n.(tn_futures) !! i with Some TGranted => a | _ => b end = b) as Hm
        by (intros; by destruct (n.(tn_futures) !! i) as [[]|]).
      rewrite Hm. cbn. split_and!; [done|done|]. intros j Hj. by rewrite lookup_delete_ne.
Defined.

(** A receiver sleeps and a message was pushed. *)
Definition toy_channel : Channel ToyNotify Z :=
  mkChannel false (mkToyNotify false (<[0%nat := TWaiting]> ∅)) [5] [mkReceiver RAwait false] [SNotify] [].

Lemma toy_channel_reachable : reachable toy_channel.
Proof.
  unfold reachable. eapply rtc_l; [apply call_recv|]. do 3 (eapply rtc_l; [apply (step_recv 0); vm_compute; reflexivity|]).
  eapply rtc_l; [apply (call_send 5)|]. do 2 (eapply rtc_l; [apply (step_send 0); vm_compute; reflexivity|]). vm_compute. apply rtc_refl.
Qed.

Lemma mpmc_no_lost_wakeup_witness :
  (exists k, toy_channel.(senders) !! k = Some SNotify) \/ exists j, coming toy_channel j.
Proof. apply (mpmc_no_lost_wakeup toy_channel 0 (mkReceiver RAwait false) toy_channel_reachable eq_refl eq_refl eq_refl). done. Defined.
