(* ===== verification/Dax.v ===== *)
(** * Mappings of the DAX window

    The handlers SETUPMAPPING and REMOVEMAPPING of [src/api/server/sync_io.rs],
    their file system methods in the union and the passthrough file system, and
    [FsCacheReqHandler] of [src/transport/fs_cache_req_handler.rs], which asks the
    monitor of the guest to map parts of files.

    The two handlers are written over an interface, what a handler uses of the
    request it serves.  A request of the transport fusedev implements it with the
    definitions of the file [Server]; a request of virtiofs, the transport
    that has a handler for mappings, is a [VirtioCall] here and replies with a
    [VirtioFsWriter] into the memory of the guest.

    The methods of the file system get the handler with the call; here the
    state of the file system contains it.  The message of vhost has a fixed number
    of slots, and sending it is an operation of the vhost crate: both are
    arguments.

    The theorem follows a REMOVEMAPPING request of a guest to the messages the
    monitor gets and back to the reply in the memory of the guest. *)

From S2P Require Import Prelude Std Codec Abi AbiStruct Lib FsTypes FileSystem.
From S2P Require Import Transport TransportProps FuseDev Instances Server ServerProps ServerWire ServerWireProps.
From S2P Require Import ProgLogic PseudoFs Vfs VfsFs VfsAsync Host Passthrough PassthroughSync ServerClaims ToyHost PassthroughClaims VirtioFs.

Definition MAPPING_WRITE : Z := 1.
Definition MAPPING_READ : Z := 2.

(** The two methods of [FileSystem] (feature [virtiofs]). *)
Class DaxFileSystem (F : Type) : Type := {
  fs_setupmapping : Context -> Z -> Z -> Z -> Z -> Z -> Z -> prog F io_error unit;
  fs_removemapping : Context -> Z -> list RemovemappingOne -> prog F io_error unit;
}.
#[global] Hint Mode DaxFileSystem ! : typeclass_instances.

(** ** The server *)

(** What the handlers use of the request they serve: [S] is the request with the
    server and its transport, [F] the file system. *)
Class Serving (S F : Type) : Type := {
  on_request : forall (T : Type) `{ByteValued T}, prog S Error T;
  on_context : prog S Error Context;
  on_nodeid : prog S Error Z;
  on_fs : forall {A}, prog F io_error A -> (A -> prog S Error Z) -> (io_error -> prog S Error Z) -> prog S Error Z;
  reply_with : option bytes -> option bytes -> prog S Error Z;
  reply_failure : io_error -> bool -> prog S Error Z;
}.
#[global] Hint Mode Serving ! - : typeclass_instances.

Section handlers.
Context {S F : Type} {SV : Serving S F} {DX : DaxFileSystem F}.

(** [vu_req]: whether the transport gave a handler. *)
Definition setupmapping (vu_req : bool) : prog S Error Z :=
  if vu_req then
    i ← on_request SetupmappingIn;
    ctx ← on_context;
    inode ← on_nodeid;
    on_fs (fs_setupmapping ctx inode i.(sm_fh) i.(sm_foffset) i.(sm_len) i.(sm_flags) i.(sm_moffset))
      (fun _ => reply_with None None) (fun e => reply_failure e false)
  else reply_failure (Os EINVAL) true.

Fixpoint read_mappings (n : nat) : prog S Error (list RemovemappingOne) :=
  match n with
  | O => mret []
  | Datatypes.S n' =>
    one ← on_request RemovemappingOne;
    rest ← read_mappings n';
    mret (one :: rest)
  end.

Definition removemapping (vu_req : bool) : prog S Error Z :=
  if vu_req then
    i ← on_request RemovemappingIn;
    match checked_mul i.(rm_count) (size_of RemovemappingOne) with
    | None => reply_failure (Os EOVERFLOW) true
    | Some size =>
      if MAX_BUFFER_SIZE <? size then reply_failure (Os ENOMEM) true
      else
        requests ← read_mappings (Z.to_nat i.(rm_count));
        ctx ← on_context;
        inode ← on_nodeid;
        on_fs (fs_removemapping ctx inode requests) (fun _ => reply_with None None) (fun e => reply_failure e false)
    end
  else reply_failure (Os EINVAL) true.
End handlers.

(** Requests of the transport fusedev. *)
Section fusedev.
Context {F V : Type} {FS : FileSystem F} {DX : DaxFileSystem F} {VS : VolatileSlice V} {DEV : FuseDevice}.
Context (mem : Z -> Z) (pagesize : Z).

Definition fusedev_serving : Serving (world F V) F := {|
  on_request T _ := r_read_obj mem T;
  on_context := get_context;
  on_nodeid := nodeid;
  on_fs A := fs_match;
  reply_with := reply_ok;
  reply_failure := do_reply_error;
|}.

(** The dispatch of [handle_message] with the feature. *)
Definition dax_dispatch (vu_req : bool) (opcode : Z) : prog (world F V) Error Z :=
  if opcode =? Opcode_value OpSetupMapping then setupmapping (SV := fusedev_serving) vu_req
  else if opcode =? Opcode_value OpRemoveMapping then removemapping (SV := fusedev_serving) vu_req
  else dispatch mem pagesize opcode.
End fusedev.

(** Requests of the transport virtiofs: the [SrvContext] with a
    [VirtioFsWriter], the server, and the memory the slices of both point to. *)
Record VirtioCall (F V : Type) : Type := mkVirtioCall {
  vc_srv : Server F;
  vc_in_header : InHeader;
  vc_context : Context;
  vc_r : Reader V;
  vc_w : VirtioFsWriter V;
  vc_mem : Memory;
}.
Arguments mkVirtioCall {F V}.
Arguments vc_srv {F V}.
Arguments vc_in_header {F V}.
Arguments vc_context {F V}.
Arguments vc_r {F V}.
Arguments vc_w {F V}.
Arguments vc_mem {F V}.

Section virtiofs.
Context {F V : Type} {VS : VolatileSlice V}.
Abbreviation vsrv := (prog (VirtioCall F V) Error).

Definition vc_set_r (r : Reader V) (c : VirtioCall F V) : VirtioCall F V :=
  mkVirtioCall c.(vc_srv) c.(vc_in_header) c.(vc_context) r c.(vc_w) c.(vc_mem).
Definition vc_set_fs (f : F) (c : VirtioCall F V) : VirtioCall F V :=
  mkVirtioCall (MkServer f c.(vc_srv).(sv_vers)) c.(vc_in_header) c.(vc_context) c.(vc_r) c.(vc_w) c.(vc_mem).
Definition vc_set_w (w : VirtioFsWriter V) (m : Memory) (c : VirtioCall F V) : VirtioCall F V :=
  mkVirtioCall c.(vc_srv) c.(vc_in_header) c.(vc_context) c.(vc_r) w m.

Definition vc_read_obj (T : Type) `{ByteValued T} : vsrv T := fun c =>
  let '(r', o) := read_obj c.(vc_mem).(m_bytes) T c.(vc_r) in (vc_set_r r' c, map_err DecodeMessage o).

Definition vc_on_writer {A} (m : prog (VirtioFsWriter V * (Memory * unit)) io_error A) : vsrv A := fun c =>
  let '((w', (m', _)), o) := m (c.(vc_w), (c.(vc_mem), tt)) in (vc_set_w w' m' c, map_err EncodeMessage o).

Definition vc_fs_match {A} (m : prog F io_error A) (ok : A -> vsrv Z) (err : io_error -> vsrv Z) : vsrv Z := fun c =>
  let '(f', o) := m c.(vc_srv).(sv_fs) in
  match o with
  | Ok a => ok a (vc_set_fs f' c)
  | Err e => err e (vc_set_fs f' c)
  | Panic => (vc_set_fs f' c, Panic)
  end.

Definition vc_unique : vsrv Z := gets (fun c => c.(vc_in_header).(ih_unique)).
Definition vc_bytes_written : vsrv Z := gets (fun c => vw_bytes_written c.(vc_w)).

Definition vc_reply_ok (out data : option bytes) : vsrv Z :=
  let data2 := default [] out in
  let data3 := default [] data in
  let len := size_of OutHeader + zlen data2 + zlen data3 in
  u ← vc_unique;
  let header := as_slice (out_header len 0 u) in
  _ ← match data2, data3 with
      | [], [] => vc_on_writer (vw_write header)
      | [], _ => vc_on_writer (vw_write_vectored [header; data3])
      | _, [] => vc_on_writer (vw_write_vectored [header; data2])
      | _, _ => vc_on_writer (vw_write_vectored [header; data2; data3])
      end;
  vc_bytes_written.

Definition vc_do_reply_error (err : io_error) (explicit : bool) : vsrv Z :=
  u ← vc_unique;
  let header := out_header (size_of OutHeader) (- errno_of err) u in
  _ ← vc_on_writer (vw_write_all (as_slice header));
  _ ← vc_on_writer (vw_commit None);
  vc_bytes_written.

#[global] Instance virtio_serving : Serving (VirtioCall F V) F := {|
  on_request T _ := vc_read_obj T;
  on_context := gets vc_context;
  on_nodeid := gets (fun c => c.(vc_in_header).(ih_nodeid));
  on_fs A := vc_fs_match;
  reply_with := vc_reply_ok;
  reply_failure := vc_do_reply_error;
|}.
End virtiofs.

(** ** The union file system *)

Section vfs.
Context {B : Type} {BE : BackendFileSystem B} {DB : DaxFileSystem B}.

(** The pseudo file system has the default methods. *)
Definition on_dax {A} (inode : Z) (m : Z -> prog B io_error A) : prog (Vfs B) io_error A :=
  with_real inode (fun e idata =>
    match e with
    | PseudoLeft => fail (Os ENOSYS)
    | BackRight idx => on_backend idx (m (VfsInode_ino idata))
    end).

Definition vfs_setupmapping (ctx : Context) (inode handle foffset len flags moffset : Z) : prog (Vfs B) io_error unit :=
  on_dax inode (fun ino => fs_setupmapping ctx ino handle foffset len flags moffset).

Definition vfs_removemapping (ctx : Context) (inode : Z) (requests : list RemovemappingOne) : prog (Vfs B) io_error unit :=
  on_dax inode (fun ino => fs_removemapping ctx ino requests).
End vfs.

(** ** The handler and the passthrough file system *)

(** [FsCacheReqHandler] on a state [D]. *)
Class FsCacheReqHandler (D : Type) : Type := {
  req_map : Z -> Z -> Z -> Z -> Z -> prog D io_error unit;
  req_unmap : list RemovemappingOne -> prog D io_error unit;
}.
#[global] Hint Mode FsCacheReqHandler ! : typeclass_instances.

Section passthrough.
Context {H D : Type} {HOST : Host H} {RH : FsCacheReqHandler D}.

Definition pt_setupmapping (inode foffset len flags moffset : Z) : prog ((PassthroughFs * H) * D) io_error unit :=
  let open_flags := if has_flag flags MAPPING_WRITE then O_RDWR else O_RDONLY in
  fs ← gets (fun s => s.1.1);
  file ← on_fst (on_snd (open_inode fs inode open_flags));
  on_snd (req_map foffset moffset len flags file).

Definition pt_removemapping (requests : list RemovemappingOne) : prog ((PassthroughFs * H) * D) io_error unit :=
  on_snd (req_unmap requests).

#[global] Instance PassthroughFs_dax : DaxFileSystem ((PassthroughFs * H) * D) := {|
  fs_setupmapping _ inode _ foffset len flags moffset := pt_setupmapping inode foffset len flags moffset;
  fs_removemapping _ _ requests := pt_removemapping requests;
|}.
End passthrough.

(** [VhostUserFSSlaveMsg]: the slots, each with the flags, the offset in the
    file, the offset in the window and the length. *)
Record Slot : Set := mkSlot { sl_flags : Z; sl_fd_offset : Z; sl_cache_offset : Z; sl_len : Z }.
Definition slot_default : Slot := mkSlot 0 0 0 0.

(** [chunks(n)]; a round takes at least one element. *)
Fixpoint chunks_loop {A} (fuel n : nat) (l : list A) : list (list A) :=
  match fuel, l with
  | S fuel', _ :: _ => take n l :: chunks_loop fuel' n (drop n l)
  | _, _ => []
  end.
Definition chunks {A} (n : nat) (l : list A) : list (list A) := chunks_loop (length l) n l.

Section slave.
Context {D : Type} (entries : nat) (MAP_R MAP_W : Z).
Context (fs_slave_map : list Slot -> Z -> prog D io_error unit) (fs_slave_unmap : list Slot -> prog D io_error unit).

Definition slave_map (foffset moffset len flags fd : Z) : prog D io_error unit :=
  let f := if has_flag flags MAPPING_WRITE then Z.lor MAP_W MAP_R else MAP_R in
  fs_slave_map (<[0%nat := mkSlot f foffset moffset len]> (repeat slot_default entries)) fd.

(** The message of a chunk. *)
Definition unmap_msg (chunk : list RemovemappingOne) : list Slot :=
  map (fun req => mkSlot 0 0 req.(rmo_moffset) req.(rmo_len)) chunk ++ repeat slot_default (entries - length chunk).

Fixpoint unmap_each (l : list (list RemovemappingOne)) : prog D io_error unit :=
  match l with
  | [] => mret tt
  | chunk :: l' => _ ← fs_slave_unmap (unmap_msg chunk); unmap_each l'
  end.

Definition slave_unmap (requests : list RemovemappingOne) : prog D io_error unit := unmap_each (chunks entries requests).

(** [impl FsCacheReqHandler for SlaveFsCacheReq]. *)
Definition SlaveFsCacheReq : FsCacheReqHandler D := {| req_map := slave_map; req_unmap := slave_unmap |}.
End slave.

(** * Properties *)

(** ** Requests of a guest *)

Section requests.
Context {F V : Type} {VS : VolatileSlice V} {VO : VolatileSliceOk V}.
Implicit Types (c : VirtioCall F V).

Definition mapping_ok (r : RemovemappingOne) : Prop := in_u 64 r.(rmo_moffset) /\ in_u 64 r.(rmo_len).

(** The bytes of the request that were not read yet. *)
Definition pending c (l : bytes) : Prop := reader_ok c.(vc_r) /\ content c.(vc_mem).(m_bytes) c.(vc_r) = l.

Lemma vc_reads {T} `{ByteValuedOk T} (x : T) c l :
  struct_ok x = true -> pending c (as_slice x ++ l) ->
  exists r', vc_read_obj T c = (vc_set_r r' c, Ok x) /\ pending (vc_set_r r' c) l.
Proof.
  intros Hx [Hr Hl]. destruct (read_obj_spec c.(vc_mem).(m_bytes) T _ Hr) as (r' & Hr' & Hcont & Hread).
  pose proof (as_slice_length x) as Hlen. exists r'. unfold vc_read_obj. rewrite Hread, Hl.
  rewrite (proj2 (Z.leb_le _ _)) by (rewrite zlen_app, Hlen; pose proof (zlen_nonneg l); lia).
  rewrite take_Z_len by done. rewrite <- (app_nil_r (as_slice x)), from_as_slice by done.
  split; [done|]. split; [done|]. cbn. by rewrite Hcont, Hl, drop_Z_len.
Qed.

Lemma vc_reads_mappings reqs c l :
  Forall mapping_ok reqs -> pending c (concat (map as_slice reqs) ++ l) ->
  exists r', read_mappings (length reqs) c = (vc_set_r r' c, Ok reqs).
Proof.
  intros Hr. revert c. induction Hr as [|r reqs [Ho Hl] Hr IH]; intros c Hc.
  { exists c.(vc_r). by destruct c. }
  destruct r as [off len]. cbn [map concat rmo_moffset rmo_len] in *. rewrite <- (assoc_L (++)) in Hc.
  assert (struct_ok (MkRemovemappingOne off len) = true) as Hs by (clear -Ho Hl; solve_struct_ok).
  destruct (vc_reads _ c _ Hs Hc) as (r1 & H1 & Hc1). destruct (IH _ Hc1) as (r2 & H2).
  exists r2. cbn [length read_mappings]. unfold mbind, prog_mbind, prog_bind at 1. cbn [on_request virtio_serving]. rewrite H1.
  unfold prog_bind. by rewrite H2.
Qed.

(** The call ended with a reply that has no payload: the file system is [f'],
    the reply is in the memory of the guest at the first addresses of the
    writable descriptors, and only that part of the memory changed and was marked
    dirty. *)
Definition replied c (res : VirtioCall F V * outcome Error Z) (f' : F) (err : Z) : Prop :=
  let msg := reply_msg c.(vc_in_header).(ih_unique) err [] in
  let written := take (length msg) (space c.(vc_w)) in
  res.2 = Ok (vw_bytes_written c.(vc_w) + zlen msg) /\
  res.1.(vc_srv) = MkServer f' c.(vc_srv).(sv_vers) /\
  (NoDup (space c.(vc_w)) -> map res.1.(vc_mem).(m_bytes) written = msg) /\
  (forall a, a ∉ written -> res.1.(vc_mem).(m_bytes) a = c.(vc_mem).(m_bytes) a) /\
  exists ranges, res.1.(vc_mem).(m_dirty) = c.(vc_mem).(m_dirty) ++ ranges /\ dirty_addrs ranges = written.

Lemma reply_msg_empty u e : reply_msg u e [] = as_slice (out_header (size_of OutHeader) e u).
Proof. unfold reply_msg. by rewrite app_nil_r, Z.add_0_r. Qed.

(** Writing the message is the whole of a reply. *)
Lemma written_replied c (m : prog (VirtioCall F V) Error Z) w' rs err :
  let msg := reply_msg c.(vc_in_header).(ih_unique) err [] in
  zlen msg <= zlen (space c.(vc_w)) -> vw_bytes_written w' = vw_bytes_written c.(vc_w) + zlen msg ->
  dirty_addrs rs = take (length msg) (space c.(vc_w)) ->
  m c = (vc_set_w w' (mkMemory (put (space c.(vc_w)) msg c.(vc_mem).(m_bytes)) (c.(vc_mem).(m_dirty) ++ rs)) c, Ok (vw_bytes_written w')) ->
  replied c (m c) c.(vc_srv).(sv_fs) err.
Proof.
  intros msg Hfit Hn Hd ->. unfold replied. fold msg. cbn [fst snd vc_set_w vc_srv vc_mem m_bytes m_dirty]. rewrite Hn.
  split_and!; [done|by destruct c.(vc_srv)| | |by exists rs].
  - intros Hnd. apply put_read; [done|]. unfold zlen in Hfit. lia.
  - intros a Ha. rewrite <- (take_drop (length msg) (space c.(vc_w))), put_short; [by apply put_other|].
    unfold zlen in Hfit. rewrite length_take. lia.
Qed.

Lemma replies_ok c :
  vw_ok c.(vc_w) -> size_of OutHeader <= zlen (space c.(vc_w)) -> replied c (vc_reply_ok None None c) c.(vc_srv).(sv_fs) 0.
Proof.
  intros Hok Hroom. pose proof (vw_write_spec c.(vc_w) c.(vc_mem) tt (reply_msg c.(vc_in_header).(ih_unique) 0 []) Hok) as H.
  assert (zlen (reply_msg c.(vc_in_header).(ih_unique) 0 []) = size_of OutHeader) as Hl by (rewrite reply_msg_empty; apply as_slice_length).
  rewrite Hl, (proj2 (Z.ltb_ge _ _)) in H by done. destruct H as (w' & rs & Hw & _ & _ & Hd & Hn).
  eapply written_replied; [by rewrite Hl|by rewrite Hn, Hl|exact Hd|]. rewrite reply_msg_empty in *.
  unfold vc_reply_ok, mbind, prog_mbind, prog_bind, vc_on_writer. cbn [default vc_unique gets]. change (size_of OutHeader + zlen [] + zlen []) with (size_of OutHeader).
  by rewrite Hw.
Qed.

Lemma replies_error c e explicit :
  vw_ok c.(vc_w) -> size_of OutHeader <= zlen (space c.(vc_w)) ->
  replied c (vc_do_reply_error e explicit c) c.(vc_srv).(sv_fs) (- errno_of e).
Proof.
  intros Hok Hroom. set (msg := reply_msg c.(vc_in_header).(ih_unique) (- errno_of e) []).
  assert (zlen msg = size_of OutHeader) as Hl by (unfold msg; rewrite reply_msg_empty; apply as_slice_length).
  destruct (vw_write_all_spec c.(vc_w) c.(vc_mem) tt msg Hok ltac:(by rewrite Hl)) as (w' & rs & Hw & _ & _ & Hd & Hn).
  eapply written_replied; [fold msg; by rewrite Hl|exact Hn|exact Hd|]. fold msg. unfold msg in Hw at 1. rewrite reply_msg_empty in Hw.
  unfold vc_do_reply_error, mbind, prog_mbind, prog_bind, vc_on_writer. cbn [vc_unique gets]. rewrite Hw. done.
Qed.

(** The handler, up to the answer of the file system. *)
Lemma removemapping_serves {DX : DaxFileSystem F} c f' reqs l res :
  vw_ok c.(vc_w) -> size_of OutHeader <= zlen (space c.(vc_w)) -> Forall mapping_ok reqs ->
  zlen reqs * size_of RemovemappingOne <= MAX_BUFFER_SIZE ->
  pending c (as_slice (MkRemovemappingIn (zlen reqs)) ++ concat (map as_slice reqs) ++ l) ->
  fs_removemapping c.(vc_context) c.(vc_in_header).(ih_nodeid) reqs c.(vc_srv).(sv_fs) = (f', res) -> res <> Panic ->
  replied c (removemapping true c) f' (match res with Err e => - errno_of e | _ => 0 end).
Proof.
  intros Hok Hroom Hr Hsize Hc Hfs Hres. change (size_of RemovemappingOne) with 16 in *. change MAX_BUFFER_SIZE with 1048576 in *.
  pose proof (zlen_nonneg reqs) as Hlen. assert (struct_ok (MkRemovemappingIn (zlen reqs)) = true) as Hs by (clear -Hsize Hlen; solve_struct_ok).
  destruct (vc_reads _ c _ Hs Hc) as (r1 & H1 & Hc1).
  destruct (vc_reads_mappings reqs _ l Hr Hc1) as (r2 & H2). set (c2 := vc_set_fs f' (vc_set_r r2 c)).
  assert (removemapping true c = match res with Ok _ => vc_reply_ok None None c2 | Err e => vc_do_reply_error e false c2 | Panic => (c2, Panic) end) as ->.
  { unfold removemapping, mbind, prog_mbind, prog_bind at 1. cbn [on_request virtio_serving]. rewrite H1. cbn [rm_count].
    unfold checked_mul, U64_MAX. change (size_of RemovemappingOne) with 16. rewrite (proj2 (Z.leb_le _ _)) by lia. rewrite (proj2 (Z.ltb_ge _ _)) by (change MAX_BUFFER_SIZE with 1048576; lia).
    unfold zlen. rewrite Nat2Z.id. unfold prog_bind at 1. rewrite H2. unfold prog_bind. cbn [on_context on_nodeid on_fs virtio_serving gets].
    unfold vc_fs_match. cbn [vc_set_r vc_context vc_in_header vc_srv]. rewrite Hfs. by destruct res. }
  destruct res as [[]|e|]; [|exact (replies_error c2 e false Hok Hroom)|done]. exact (replies_ok c2 Hok Hroom).
Qed.

(** A request that is refused before its entries are read. *)
Lemma removemapping_refuses {DX : DaxFileSystem F} c count l :
  vw_ok c.(vc_w) -> size_of OutHeader <= zlen (space c.(vc_w)) -> in_u 32 count ->
  pending c (as_slice (MkRemovemappingIn count) ++ l) -> MAX_BUFFER_SIZE < count * size_of RemovemappingOne ->
  replied c (removemapping true c) c.(vc_srv).(sv_fs) (- ENOMEM).
Proof.
  intros Hok Hroom Hn Hc Hbig. change (size_of RemovemappingOne) with 16 in *. change MAX_BUFFER_SIZE with 1048576 in *. unfold in_u in Hn.
  assert (struct_ok (MkRemovemappingIn count) = true) as Hs by (clear -Hn; solve_struct_ok).
  destruct (vc_reads _ c _ Hs Hc) as (r1 & H1 & _).
  assert (removemapping true c = vc_do_reply_error (Os ENOMEM) true (vc_set_r r1 c)) as ->.
  { unfold removemapping, mbind, prog_mbind, prog_bind at 1. cbn [on_request virtio_serving]. rewrite H1. cbn [rm_count].
    unfold checked_mul, U64_MAX. change (size_of RemovemappingOne) with 16. rewrite (proj2 (Z.leb_le _ _)) by lia. by rewrite (proj2 (Z.ltb_lt _ _)) by (change MAX_BUFFER_SIZE with 1048576; lia). }
  exact (replies_error (vc_set_r r1 c) (Os ENOMEM) true Hok Hroom).
Qed.
End requests.

(** ** Messages to the monitor *)

Lemma chunks_concat {A} n (l : list A) : (0 < n)%nat -> concat (chunks n l) = l.
Proof.
  intros Hn. unfold chunks. assert (forall fuel (l : list A), (length l <= fuel)%nat -> concat (chunks_loop fuel n l) = l) as H; [|by apply H].
  clear l. induction fuel as [|fuel IH]; intros [|a l] Hl; [done|cbn in Hl; lia|done|]. cbn [chunks_loop concat].
  rewrite IH, take_drop; [done|]. rewrite length_drop. cbn in *. lia.
Qed.

Lemma chunks_bound {A} n (l : list A) : (0 < n)%nat -> Forall (fun c => (1 <= length c <= n)%nat) (chunks n l).
Proof.
  intros Hn.
  unfold chunks. generalize (length l) as fuel. intros fuel. revert l.
  induction fuel as [|fuel IH]; intros [|a l]; cbn [chunks_loop]; try apply Forall_nil_2. apply Forall_cons_2; [rewrite length_take; cbn [length]; lia|apply IH].
Qed.

(** A message with the entries of a chunk in its first slots. *)
Definition carries (entries : nat) (chunk : list RemovemappingOne) (msg : list Slot) : Prop :=
  length msg = entries /\
  forall i slot, msg !! i = Some slot ->
    slot = match chunk !! i with Some r => mkSlot 0 0 r.(rmo_moffset) r.(rmo_len) | None => mkSlot 0 0 0 0 end.

Lemma unmap_msg_carries n chunk : (length chunk <= n)%nat -> carries n chunk (unmap_msg n chunk).
Proof.
  intros Hl. unfold unmap_msg. split; [rewrite length_app, length_map, repeat_length; lia|]. intros i slot Hi.
  apply lookup_app_Some in Hi as [Hi|[Hge Hi]].
  - apply list_lookup_fmap_Some in Hi as (r & -> & Hr). by rewrite Hr.
  - rewrite length_map in Hge. rewrite lookup_ge_None_2 by done. apply list_elem_of_lookup_2, list_elem_of_In, repeat_spec in Hi. done.
Qed.

(** The monitor takes the messages one after the other. *)
Inductive accepts {D} (fs_slave_unmap : list Slot -> prog D io_error unit) : list (list Slot) -> D -> D -> Prop :=
| accepts_none d : accepts fs_slave_unmap [] d d
| accepts_next msg msgs d d1 d2 :
    fs_slave_unmap msg d = (d1, Ok tt) -> accepts fs_slave_unmap msgs d1 d2 -> accepts fs_slave_unmap (msg :: msgs) d d2.

(** It takes them all, or refuses one and is asked no more. *)
Definition told {D} (fs_slave_unmap : list Slot -> prog D io_error unit) (msgs : list (list Slot)) (d d' : D) (res : io_result unit) : Prop :=
  (res = Ok tt /\ accepts fs_slave_unmap msgs d d') \/
  (exists e taken msg rest d1, res = Err e /\ msgs = taken ++ msg :: rest /\ accepts fs_slave_unmap taken d d1 /\ fs_slave_unmap msg d1 = (d', Err e)).

Lemma unmap_each_told {D} n (slave_unmap : list Slot -> prog D io_error unit) cs d :
  (forall msg d, (slave_unmap msg d).2 <> Panic) ->
  let '(d', res) := unmap_each n slave_unmap cs d in res <> Panic /\ told slave_unmap (map (unmap_msg n) cs) d d' res.
Proof.
  intros Hm. revert d. induction cs as [|c cs IH]; intros d; [split; [done|]; left; split; [done|constructor]|].
  cbn [unmap_each map]. unfold mbind, prog_mbind, prog_bind. pose proof (Hm (unmap_msg n c) d) as Hp.
  destruct (slave_unmap (unmap_msg n c) d) as [d1 [[]|e|]] eqn:E; [|split; [done|]|done].
  - specialize (IH d1). destruct (unmap_each n slave_unmap cs d1) as [d2 res]. destruct IH as [Hres [[-> Ha]|(e & taken & msg & rest & d3 & -> & Hl & Ha & He)]];
      (split; [done|]); [left; split; [done|by econstructor]|].
    right. exists e, (unmap_msg n c :: taken), msg, rest, d3. rewrite Hl. split_and!; [done..|by econstructor|done].
  - right. exists e, [], (unmap_msg n c), (map (unmap_msg n) cs), d. split_and!; [done..|constructor|done].
Qed.

(** C25: REMOVEMAPPING reaches the monitor.  A guest sends the request over
    virtiofs, with room for a reply header in its writable descriptors, to a server
    over the passthrough file system and the vhost handler.  The entries of the
    request are cut, in their order and with none left out, into chunks of at most
    the number of slots of a message, and for each there is one message with the
    entries of the chunk in its first slots and nothing in the others.  The monitor
    gets the messages in order; if it takes them all, the reply says success, and
    if it refuses one, no more are sent and the reply has its error.  A request
    with more entries than fit in [MAX_BUFFER_SIZE] is answered with ENOMEM, and
    one that comes without a handler with EINVAL, and the monitor gets nothing.
    In every case the reply, with the number of the request, is in the memory of
    the guest at the front of the descriptors (if these do not overlap), exactly
    its bytes are marked dirty, and the rest of the memory and the passthrough file
    system do not change. *)
Theorem removemapping_reaches_monitor {H D V} `{Host H} `{VO : VolatileSliceOk V}
    entries MAP_R MAP_W fs_slave_map (fs_slave_unmap : list Slot -> prog D io_error unit)
    (c : VirtioCall ((PassthroughFs * H) * D) V) (fs : PassthroughFs * H) d count body :
  (0 < entries)%nat -> (forall msg d, (fs_slave_unmap msg d).2 <> Panic) ->
  c.(vc_srv).(sv_fs) = (fs, d) -> vw_ok c.(vc_w) -> size_of OutHeader <= zlen (space c.(vc_w)) ->
  in_u 32 count -> pending c (as_slice (MkRemovemappingIn count) ++ body) ->
  let handler := SlaveFsCacheReq entries MAP_R MAP_W fs_slave_map fs_slave_unmap in
  let run vu_req := removemapping (DX := PassthroughFs_dax (RH := handler)) vu_req c in
  replied c (run false) (fs, d) (- EINVAL) /\
  (MAX_BUFFER_SIZE < count * size_of RemovemappingOne -> replied c (run true) (fs, d) (- ENOMEM)) /\
  (forall reqs rest, body = concat (map as_slice reqs) ++ rest -> zlen reqs = count -> Forall mapping_ok reqs ->
    count * size_of RemovemappingOne <= MAX_BUFFER_SIZE ->
    exists cs msgs d' res, concat cs = reqs /\ Forall (fun chunk => (1 <= length chunk <= entries)%nat) cs /\ Forall2 (carries entries) cs msgs /\
      told fs_slave_unmap msgs d d' res /\
      replied c (run true) (fs, d') (match res with Err e => - errno_of e | _ => 0 end)).
Proof.
  intros Hn Hm Hfs Hok Hroom Hcount Hc handler run. split_and!.
  - rewrite <- Hfs. exact (replies_error c (Os EINVAL) true Hok Hroom).
  - intros Hbig. rewrite <- Hfs. by eapply removemapping_refuses.
  - intros reqs rest -> <- Hr Hsize. pose proof (unmap_each_told entries fs_slave_unmap (chunks entries reqs) d Hm) as Ht.
    destruct (unmap_each entries fs_slave_unmap (chunks entries reqs) d) as [d' res] eqn:E. destruct Ht as [Hres Ht].
    exists (chunks entries reqs), (map (unmap_msg entries) (chunks entries reqs)), d', res. pose proof (chunks_bound entries reqs Hn) as Hb.
    split_and!; [by apply chunks_concat|exact Hb| |exact Ht|].
    + apply Forall2_fmap_r, Forall_Forall2_diag. eapply Forall_impl; [exact Hb|]. intros chunk [_ Hl]. by apply unmap_msg_carries.
    + eapply removemapping_serves; [exact Hok|exact Hroom|exact Hr|exact Hsize|exact Hc| |exact Hres]. rewrite Hfs.
      exact (on_snd_ok _ _ _ _ _ E).
Qed.

(** A monitor that keeps the messages and refuses the third, and a request with
    three entries in two chunks. *)
Definition toy_unmap (msg : list Slot) : prog (list (list Slot)) io_error unit := fun d =>
  if (length d <? 2)%nat then (d ++ [msg], Ok tt) else (d, Err (Os EINVAL)).

Definition toy_mappings : list RemovemappingOne := [MkRemovemappingOne 0 4096; MkRemovemappingOne 8192 0; MkRemovemappingOne 12288 8192].

Definition toy_removal : VirtioCall ((PassthroughFs * ToyHost) * list (list Slot)) RawSlice :=
  let body := as_slice (MkRemovemappingIn (zlen toy_mappings)) ++ concat (map as_slice toy_mappings) in
  mkVirtioCall (MkServer (toy_fs, []) (MkServerVersion KERNEL_VERSION KERNEL_MINOR_VERSION)) zeroed (MkContext 0 0 1)
    (reader_of body) (mkVirtioFsWriter (MkIoBuffers [MkRawSlice 1000 10; MkRawSlice 2000 10] 0)) (mkMemory (mem_of body) []).

Lemma removemapping_reaches_monitor_witness :
  let handler := SlaveFsCacheReq 2 1 2 (fun _ _ => mret tt) toy_unmap in
  exists cs msgs d' res, concat cs = toy_mappings /\ Forall2 (carries 2) cs msgs /\ told toy_unmap msgs [] d' res /\
    replied toy_removal (removemapping (DX := PassthroughFs_dax (RH := handler)) true toy_removal) (toy_fs, d')
      (match res with Err e => - errno_of e | _ => 0 end).
Proof.
  intros handler.
  destruct (removemapping_reaches_monitor 2 1 2 (fun _ _ => mret tt) toy_unmap toy_removal toy_fs [] 3 (concat (map as_slice toy_mappings)))
    as (_ & _ & Hrun).
  - lia.
  - intros msg d. unfold toy_unmap. by destruct (_ <? _)%nat.
  - reflexivity.
  - by vm_compute.
  - by vm_compute.
  - by vm_compute.
  - split; [apply example_reader_ok; by vm_compute|by vm_compute].
  - destruct (Hrun toy_mappings []) as (cs & msgs & d' & res & Hcs & _ & Hmsgs & Ht & Hrep);
      [by rewrite app_nil_r|reflexivity|repeat (apply Forall_cons_2; [by vm_compute|]); apply Forall_nil_2|by vm_compute|].
    by exists cs, msgs, d', res.
Defined.
