(* ===== verification/AsyncTransfer.v ===== *)
(** * Asynchronous transfers between requests and files

    The asynchronous half of [IoBuffers] and [Reader] ([src/transport/mod.rs]) and of
    [VirtioFsWriter] ([src/transport/virtiofs/mod.rs]): the bytes of a WRITE request
    go from the buffers of the request to a file, and those of a READ from a file
    to the memory of the guest, without a copy in between.

    The file's vectored operations are arguments; the theorem takes those of
    [async_file::File] on a regular file.  [mark] is [mark_dirty] of the bitmap of
    a slice.

    The theorem shows that the transfers count no byte they did not move, also
    when the kernel moves fewer bytes than it was asked to, and that what a
    request wrote a later one reads. *)

From S2P Require Import Prelude Std Codec Lib Transport TransportProps Instances ProgLogic VirtioFs FileVolatile.

Section operations.
Context {V : Type} `{VS : VolatileSlice V}.

Definition prepare_io_buf (b : IoBuffers V) (count : Z) : io_result (list FileVolatileBuf) :=
  ls ← local_bufs b.(buffers) count;
  mapM (fun v => FileVolatileBuf_from_raw_ptr (vs_ptr v) (vs_len v) (vs_len v)) ls.

Definition prepare_mut_io_buf (b : IoBuffers V) (count : Z) : io_result (list FileVolatileBuf) :=
  ls ← local_bufs b.(buffers) count;
  mapM (fun v => FileVolatileBuf_from_raw_ptr (vs_ptr v) 0 (vs_len v)) ls.

(** [Vec<FileVolatileBuf>] and an offset to the count and the buffers. *)
Abbreviation vectored X := (list FileVolatileBuf -> Z -> prog X io_error (answer (list FileVolatileBuf))).

Definition async_read_to_at {X} (write_vectored_at : vectored X) (count off : Z) : prog (Reader V * X) io_error Z :=
  bufs ← (fun s => (s, prepare_io_buf s.1.(r_buffers) count));
  match bufs with
  | [] => mret 0
  | _ =>
    r ← on_snd (write_vectored_at bufs off);
    match r.1 with
    | inr cnt =>
      _ ← on_fst (fun rd => let '(b, o) := mark_used cnt rd.(r_buffers) in (MkReader b, o));
      mret cnt
    | inl e => fail e
    end
  end.

(** ** [VirtioFsWriter] *)

Definition vw_async_write_from_at {X} (mark : Z -> Z -> X -> X) (read_vectored_at : vectored X) (count off : Z)
  : prog (VirtioFsWriter V * X) io_error Z :=
  _ ← (fun s => (s, vw_check_available_space s.1 count 0 0));
  bufs ← (fun s => (s, prepare_mut_io_buf s.1.(vw_buffers) count));
  match bufs with
  | [] => mret 0
  | _ =>
    r ← on_snd (read_vectored_at bufs off);
    match r.1 with
    | inr cnt =>
      _ ← (fun s => match mark_dirty mark s.1.(vw_buffers) cnt s.2 with
                    | Ok x => ((s.1, x), Ok tt) | Err e => (s, Err e) | Panic => (s, Panic) end);
      _ ← on_fst (fun w => let '(b, o) := mark_used cnt w.(vw_buffers) in (mkVirtioFsWriter b, o));
      mret cnt
    | inl e => fail e
    end
  end.

Section replies.
Context {F : Type}.
Abbreviation vprog := (prog (VirtioFsWriter V * (Memory * F)) io_error).

Definition vw_async_write (data : bytes) : vprog Z := vw_write data.

Definition vw_async_write2 (data data2 : bytes) : vprog Z :=
  _ ← (fun s => (s, vw_check_available_space s.1 (zlen data) (zlen data2) 0));
  cnt ← vw_write data;
  n ← vw_write data2;
  mret (cnt + n).

Definition vw_async_write3 (data data2 data3 : bytes) : vprog Z :=
  _ ← (fun s => (s, vw_check_available_space s.1 (zlen data) (zlen data2) (zlen data3)));
  cnt ← vw_write data;
  n ← vw_write data2;
  n' ← vw_write data3;
  mret (cnt + n + n').

Definition vw_async_write_all (buf : bytes) : vprog unit := vw_write_all buf.

Definition vw_async_commit (other : option (VirtioFsWriter V)) : vprog Z := vw_commit other.
End replies.
End operations.

(** * Properties *)

(** ** Replies in pieces *)

Section replies_facts.
Context {V : Type} {VS : VolatileSlice V} {VO : VolatileSliceOk V} {F : Type}.
Implicit Types (w : VirtioFsWriter V) (s : VirtioFsWriter V * (Memory * F)).

(** [s'] is [s] after [data] went to the front of the space. *)
Definition wrote (data : bytes) s s' : Prop :=
  vw_ok s'.1 /\ space s'.1 = drop (length data) (space s.1) /\ s'.2.2 = s.2.2 /\
  s'.2.1.(m_bytes) = put (space s.1) data s.2.1.(m_bytes) /\
  exists rs, s'.2.1.(m_dirty) = s.2.1.(m_dirty) ++ rs /\ dirty_addrs rs = take (length data) (space s.1).

Lemma wrote_app d1 d2 s s1 s2 :
  zlen d1 + zlen d2 <= zlen (space s.1) -> wrote d1 s s1 -> wrote d2 s1 s2 -> wrote (d1 ++ d2) s s2.
Proof.
  intros Hfit (_ & Hs1 & Hx1 & Hm1 & r1 & Hd1 & Ha1) (Hok & Hs2 & Hx2 & Hm2 & r2 & Hd2 & Ha2). unfold zlen in Hfit. split_and!.
  - done.
  - by rewrite Hs2, Hs1, drop_drop, length_app.
  - by rewrite Hx2.
  - rewrite Hm2, Hm1, Hs1. rewrite <- (take_drop (length d1) (space s.1)) at 3. rewrite put_app by (rewrite length_take; lia). f_equal.
    rewrite <- (take_drop (length d1) (space s.1)) at 1. apply put_short. rewrite length_take. lia.
  - exists (r1 ++ r2). split; [by rewrite Hd2, Hd1, (assoc_L (++))|].
    unfold dirty_addrs in *. rewrite map_app, concat_app, Ha1, Ha2, Hs1, length_app. apply take_take_drop.
Qed.

Lemma write_wrote data s :
  vw_ok s.1 -> zlen data <= zlen (space s.1) -> exists s', vw_write data s = (s', Ok (zlen data)) /\ wrote data s s'.
Proof.
  destruct s as [w [m x]]. intros Hok Hle. pose proof (vw_write_spec w m x data Hok) as H. rewrite (proj2 (Z.ltb_ge _ _)) in H by done.
  destruct H as (w' & rs & Hw & Hok' & Hsp & Hd & _). eexists. split; [exact Hw|]. split_and!; [done..|]. by exists rs.
Qed.

Lemma check_space3 w n1 n2 n3 :
  vw_ok w -> 0 <= n1 -> 0 <= n2 -> 0 <= n3 ->
  vw_check_available_space w n1 n2 n3 = if zlen (space w) <? n1 + n2 + n3 then Err (Simple InvalidData) else Ok tt.
Proof.
  intros Hok H1 H2 H3. pose proof Hok as [? Hle]. fold (space w) in Hle. unfold vw_check_available_space. rewrite available_space by done.
  unfold checked_add. destruct (Z.leb_spec (n1 + n2) U64_MAX); cbn; [destruct (Z.leb_spec (n1 + n2 + n3) U64_MAX); cbn; [done|]|];
    destruct (Z.ltb_spec (zlen (space w)) (n1 + n2 + n3)); (done || lia).
Qed.

Lemma wrote_left data s s' : zlen data <= zlen (space s.1) -> wrote data s s' -> zlen (space s'.1) = zlen (space s.1) - zlen data.
Proof. intros Hle (_ & -> & _). unfold zlen in *. rewrite length_drop. lia. Qed.

Lemma write_two d1 d2 s :
  vw_ok s.1 -> zlen d1 + zlen d2 <= zlen (space s.1) ->
  exists s1 s2, vw_write d1 s = (s1, Ok (zlen d1)) /\ vw_write d2 s1 = (s2, Ok (zlen d2)) /\ wrote (d1 ++ d2) s s2.
Proof.
  intros Hok Hle. pose proof (zlen_nonneg d2). destruct (write_wrote d1 s Hok ltac:(lia)) as (s1 & Hw1 & Hs1).
  pose proof (wrote_left d1 s s1 ltac:(lia) Hs1). destruct (write_wrote d2 s1 (proj1 Hs1) ltac:(lia)) as (s2 & Hw2 & Hs2).
  exists s1, s2. split_and!; [done..|]. by eapply wrote_app.
Qed.

(** A reply in two or three pieces is the reply in one, or nothing is written. *)
Lemma vw_async_write2_as_one d1 d2 s :
  vw_ok s.1 ->
  if zlen (space s.1) <? zlen (d1 ++ d2) then vw_async_write2 d1 d2 s = (s, Err (Simple InvalidData))
  else exists s', vw_async_write2 d1 d2 s = (s', Ok (zlen (d1 ++ d2))) /\ wrote (d1 ++ d2) s s'.
Proof.
  intros Hok. pose proof (zlen_nonneg d1). pose proof (zlen_nonneg d2).
  unfold vw_async_write2, mbind, prog_mbind, prog_bind. rewrite check_space3, zlen_app, Z.add_0_r by done.
  destruct (Z.ltb_spec (zlen (space s.1)) (zlen d1 + zlen d2)) as [|Hge]; [done|].
  destruct (write_two d1 d2 s Hok ltac:(lia)) as (s1 & s2 & -> & -> & Hs). by exists s2.
Qed.

Lemma vw_async_write3_as_one d1 d2 d3 s :
  vw_ok s.1 ->
  if zlen (space s.1) <? zlen ((d1 ++ d2) ++ d3) then vw_async_write3 d1 d2 d3 s = (s, Err (Simple InvalidData))
  else exists s', vw_async_write3 d1 d2 d3 s = (s', Ok (zlen ((d1 ++ d2) ++ d3))) /\ wrote ((d1 ++ d2) ++ d3) s s'.
Proof.
  intros Hok. pose proof (zlen_nonneg d1). pose proof (zlen_nonneg d2). pose proof (zlen_nonneg d3).
  unfold vw_async_write3, mbind, prog_mbind, prog_bind. rewrite check_space3, !zlen_app by done.
  destruct (Z.ltb_spec (zlen (space s.1)) (zlen d1 + zlen d2 + zlen d3)) as [|Hge]; [done|].
  destruct (write_two d1 d2 s Hok ltac:(lia)) as (s1 & s2 & -> & -> & Hs2).
  pose proof (wrote_left (d1 ++ d2) s s2 ltac:(rewrite zlen_app; lia) Hs2) as L. rewrite zlen_app in L.
  destruct (write_wrote d3 s2 (proj1 Hs2) ltac:(lia)) as (s3 & -> & Hs3). exists s3. split; [done|].
  eapply wrote_app; [rewrite zlen_app; lia|done..].
Qed.
End replies_facts.

(** ** Files *)

Section transfers.
Context {V : Type} {VS : VolatileSlice V} {VO : VolatileSliceOk V}.
Context {X : Type} `{FI : FileIo X} `{UI : UringIo X} (sched : nat -> list nat) (f : AsyncFile).
Context (mem : X -> Z -> Z) (content : X -> bytes) (patience : X -> Z).
Hypothesis Hsched : sched_ok sched.
Hypothesis Hfile : regular_file (raw_fd f) mem content patience.

Definition as_buf (full : bool) (v : V) : FileVolatileBuf := mkFileVolatileBuf (vs_ptr v) (if full then vs_len v else 0) (vs_len v).

Lemma mapM_bufs (full : bool) (ls : list V) :
  mapM (fun v : V => FileVolatileBuf_from_raw_ptr (vs_ptr v) (if full then vs_len v else 0) (vs_len v)) ls = Ok (map (as_buf full) ls).
Proof.
  induction ls as [|v ls IH]; [done|]. cbn [mapM map]. rewrite IH. unfold FileVolatileBuf_from_raw_ptr. pose proof (vs_len_nonneg v).
  by rewrite (proj2 (Z.leb_le _ _)) by (destruct full; lia).
Qed.

Lemma as_buf_addrs (full : bool) (ls : list V) : buf_addrs (map (as_buf full) ls) = flat ls.
Proof. unfold buf_addrs, flat. by rewrite map_map. Qed.

Lemma as_buf_caps (full : bool) (ls : list V) : caps (map (as_buf full) ls) = zlen (flat ls).
Proof. induction ls as [|v ls IH]; [done|]. rewrite zlen_flat_cons, <- IH. done. Qed.

Lemma local_bufs_length (bufs : list V) n ls : local_bufs bufs n = Ok ls -> (length ls <= length bufs)%nat.
Proof.
  revert n ls. induction bufs as [|v bufs IH]; intros n ls; cbn; [by intros [= <-]|]. destruct (n =? 0); [intros [= <-]; cbn; lia|].
  unfold mbind, outcome_mbind, outcome_bind. destruct (if n <? vs_len v then _ else _) as [v'|e|]; [|done..].
  destruct (local_bufs bufs _) as [ls'|e|] eqn:E; [|done..]. intros [= <-]. apply IH in E. cbn. lia.
Qed.

(** The buffers for [count] bytes. *)
Lemma prepared (full : bool) (b : IoBuffers V) count :
  0 <= count -> zlen b.(buffers) < 2 ^ 64 ->
  exists ls, (if full then prepare_io_buf b count else prepare_mut_io_buf b count) = Ok (map (as_buf full) ls) /\
    flat ls = take (Z.to_nat count) (flat b.(buffers)) /\ zlen (map (as_buf full) ls) < 2 ^ 64.
Proof.
  intros Hc Hb. destruct (local_bufs_spec b.(buffers) count Hc) as (ls & Hls & Hflat). exists ls.
  apply local_bufs_length in Hls as Hlen. unfold prepare_io_buf, prepare_mut_io_buf, mbind, outcome_mbind, outcome_bind. rewrite Hls.
  split; [destruct full; apply (mapM_bufs true) || apply (mapM_bufs false)|]. split; [done|]. unfold zlen in *. rewrite length_map. lia.
Qed.

(** WRITE: the bytes of the request that are counted are in the file. *)
Lemma async_read_to_at_writes (r : Reader V) x count off :
  buffers_ok r.(r_buffers) -> zlen r.(r_buffers).(buffers) < 2 ^ 64 -> 0 <= count -> 0 <= off -> off + count < 2 ^ 63 ->
  let data := map (mem x) (take (Z.to_nat count) (flat r.(r_buffers).(buffers))) in
  exists n r' x', async_read_to_at (async_write_vectored_at_volatile sched f) count off (r, x) = ((r', x'), Ok n) /\
    0 <= n <= zlen data /\ (n = 0 -> data = []) /\ mem x' = mem x /\
    stored_some (zip (seqZ off (zlen data)) data) n (byte_at (content x)) (byte_at (content x')) /\
    zlen (content x) <= zlen (content x') <= Z.max (zlen (content x)) (off + zlen data) /\ (0 < n -> off + n <= zlen (content x')) /\
    flat r'.(r_buffers).(buffers) = drop (Z.to_nat n) (flat r.(r_buffers).(buffers)).
Proof.
  intros [Hb0 Hb] Hn Hc Ho Hfit data. destruct (prepared true r.(r_buffers) count Hc Hn) as (ls & Hp & Hflat & Hl).
  assert (zlen data = zlen (flat ls)) as Hd by (unfold data, zlen; by rewrite length_map, Hflat).
  assert (zlen (flat ls) <= count /\ zlen (flat ls) <= zlen (flat r.(r_buffers).(buffers))) as [Hd1 Hd2]
    by (rewrite Hflat; unfold zlen; rewrite length_take; lia).
  unfold async_read_to_at, mbind, prog_mbind, prog_bind. cbn [fst]. rewrite Hp. pose proof (as_buf_caps true ls) as Hcap.
  pose proof (as_buf_addrs true ls) as Had. destruct (map (as_buf true) ls) as [|b0 bs] eqn:Ebufs.
  { destruct ls; [|done]. cbn in Hd, Hflat. assert (data = []) as E by (unfold data; by rewrite <- Hflat). exists 0, r, x. rewrite E.
    pose proof (zlen_nonneg (content x)). split_and!; try done; try lia; apply stored_none. }
  destruct (async_write_vectored_moves sched f mem content patience (b0 :: bs) off x Hsched Hfile)
    as (n & bufs' & x' & Hrun & Hrange & Hz & Hmx & Hst & Hlen & Hfar).
  { rewrite <- Ebufs. apply Forall_fmap, Forall_true. intros v. split; [done|apply vs_len_nonneg]. }
  { done. } { done. } { lia. }
  assert (buf_data (mem x) (b0 :: bs) = data) as Edata by (unfold buf_data, data; by rewrite Had, Hflat).
  rewrite Hcap, <- Hd in *. rewrite Edata in Hst.
  rewrite (on_snd_ok _ _ _ _ _ Hrun). cbn [fst]. unfold on_fst. cbn [fst snd].
  destruct (mark_used_spec r.(r_buffers) n ltac:(lia) ltac:(lia)) as (used & -> & Hdrop).
  eexists n, _, x'. split; [done|]. split_and!; try done; try lia. intros E. by apply zlen_nil_inv, Hz.
Qed.

Lemma NoDup_front (n : nat) (l : list Z) : NoDup l -> NoDup (take n l).
Proof. rewrite <- (take_drop n l) at 1. by intros (? & _)%NoDup_app. Qed.

(** The record of the ranges that were marked, beside the host of the file. *)
Definition note (ptr len : Z) (s : X * list (Z * Z)) : X * list (Z * Z) := (s.1, s.2 ++ [(ptr, len)]).

Lemma note_all (ls : list V) x d :
  foldl (fun y v => note (vs_ptr v) (vs_len v) y) (x, d) ls = (x, d ++ map (fun v => (vs_ptr v, vs_len v)) ls).
Proof. revert d. induction ls as [|v ls IH]; intros d; cbn; [by rewrite app_nil_r|]. unfold note at 2. cbn. by rewrite IH, <- (assoc_L (++)). Qed.

(** READ: the bytes that are counted are at the front of the writer's space. *)
Lemma async_write_from_at_reads (w : VirtioFsWriter V) x d count off :
  vw_ok w -> NoDup (space w) -> zlen w.(vw_buffers).(buffers) < 2 ^ 64 -> 0 <= count <= zlen (space w) -> 0 <= off -> off + count < 2 ^ 63 ->
  exists n w' x' rs,
    vw_async_write_from_at note (fun bufs o => on_fst (async_read_vectored_at_volatile sched f bufs o)) count off (w, (x, d)) =
      ((w', (x', d ++ rs)), Ok n) /\
    0 <= n <= readable (content x) count off /\ (n = 0 -> readable (content x) count off = 0) /\ content x' = content x /\
    stored_some (zip (take (Z.to_nat count) (space w)) (drop (Z.to_nat off) (content x))) n (mem x) (mem x') /\
    space w' = drop (Z.to_nat n) (space w) /\ dirty_addrs rs = take (Z.to_nat n) (space w).
Proof.
  intros Hok Hnd Hl Hc Ho Hfit. pose proof Hok as [Hb0 Hb]. fold (space w) in Hb.
  pose proof (readable_range (content x) count off (proj1 Hc)) as Hrange.
  destruct (prepared false w.(vw_buffers) count ltac:(lia) Hl) as (ls & Hp & Hflat & Hlen). fold (space w) in Hflat.
  assert (zlen (flat ls) = count) as Hz by (rewrite Hflat; unfold zlen in *; rewrite length_take; lia).
  unfold vw_async_write_from_at, mbind, prog_mbind, prog_bind. cbn [fst]. rewrite check_space_spec, (proj2 (Z.ltb_ge _ _)) by (done || lia).
  cbn [fst]. rewrite Hp. pose proof (as_buf_caps false ls) as Hcap. pose proof (as_buf_addrs false ls) as Had.
  destruct (map (as_buf false) ls) as [|b0 bs] eqn:Ebufs.
  { destruct ls; [|done]. assert (count = 0) as -> by (unfold zlen in Hz; cbn in Hz; lia). rewrite <- Hflat. exists 0, w, x, [].
    rewrite app_nil_r, drop_0, take_0. unfold readable. split_and!; try done; try lia; apply stored_none. }
  destruct (async_read_vectored_moves sched f mem content patience (b0 :: bs) off x Hsched Hfile) as (n & bufs' & x' & Hrun & Hn & Hnz & Hcx & Hst).
  { rewrite <- Ebufs. apply Forall_fmap, List.Forall_forall. intros v Hv. split; [done|]. split; [apply vs_len_nonneg|]. cbn.
    assert (vs_len v <= zlen (flat ls)); [|lia]. apply in_split in Hv as (l1 & l2 & ->). unfold flat. rewrite map_app, concat_app.
    cbn. rewrite !zlen_app, zlen_span. pose proof (zlen_nonneg (concat (map span l1))). pose proof (zlen_nonneg (concat (map span l2))). lia. }
  { rewrite Had, Hflat. by apply NoDup_front. }
  { done. } { done. } { lia. }
  rewrite Hcap, Hz in Hn, Hnz. rewrite Had, Hflat in Hst. unfold on_snd, on_fst. cbn [fst snd]. rewrite Hrun. cbn [fst snd].
  unfold mark_dirty. destruct (local_bufs_spec w.(vw_buffers).(buffers) n ltac:(lia)) as (ls' & -> & Hls'). cbn [outcome_map]. rewrite note_all. cbn [fst snd].
  destruct (mark_used_spec w.(vw_buffers) n ltac:(lia) ltac:(lia)) as (used & -> & Hdrop).
  eexists n, _, x', _. split; [done|]. split_and!; try done; try lia. unfold dirty_addrs, space. rewrite map_map, <- Hls'. done.
Qed.

(** What is in the file at an offset. *)
Lemma bytes_at (c : bytes) off n :
  0 <= off -> 0 <= n -> (0 < n -> off + n <= zlen c) -> map (byte_at c) (seqZ off n) = take (Z.to_nat n) (drop (Z.to_nat off) c).
Proof.
  intros Ho Hn Hc. apply list_eq. intros i. rewrite list_lookup_fmap.
  destruct (decide (i < Z.to_nat n)%nat) as [Hi|Hi]; [|by rewrite !lookup_ge_None_2 by (rewrite ?length_seqZ, ?length_take; lia)].
  rewrite lookup_seqZ_lt, lookup_take_lt, lookup_drop by lia. cbn. unfold byte_at. rewrite (proj2 (Z.ltb_ge _ _)) by lia.
  replace (Z.to_nat (off + Z.of_nat i)) with (Z.to_nat off + i)%nat by lia.
  destruct (lookup_lt_is_Some_2 c (Z.to_nat off + i)) as [b Hb]; [unfold zlen in Hc; lia|]. by rewrite (nth_lookup_Some _ _ _ _ Hb), Hb.
Qed.
End transfers.

(** C22: file data goes between requests and files.  The kernel may move fewer
    bytes than a call asks for, but at least one when there is one to move, and
    the calls of a batch complete in any order.  The file is a regular one, the
    offsets are below 2^63, and the writable descriptors of the READ do not overlap
    and have room for the data.  An asynchronous WRITE of the first
    [count] bytes of a request, or all it has, returns a number [n] of bytes, none
    only if there are none: the first [n] bytes are in the file at the offset, the
    reader is behind them, and the memory does not change.  The rest of the file
    is as it was, except that a batch does not stop at a call that fell short, so
    that behind the first [n] bytes some of the others may have been written, each
    in its place.  A READ of [n] bytes at the same offset into the memory of a
    guest then returns [m] of them, none only if [n] is 0: the first [m] of the
    bytes are at the front of the writable descriptors, exactly these are marked
    dirty and the writer is behind them; nothing else of the memory changes but
    space for the [n] bytes, which may hold more of them, and nothing of the
    file. *)
Theorem async_write_then_read {V X} `{VolatileSliceOk V} `{FileIo X} `{UringIo X} sched f mem content patience
    (r : Reader V) (w : VirtioFsWriter V) (x : X) (d : list (Z * Z)) count off :
  sched_ok sched -> regular_file (raw_fd f) mem content patience ->
  buffers_ok r.(r_buffers) -> zlen r.(r_buffers).(buffers) < 2 ^ 64 -> 0 <= count -> 0 <= off -> off + count < 2 ^ 63 ->
  let data := map (mem x) (take (Z.to_nat count) (flat r.(r_buffers).(buffers))) in
  vw_ok w -> NoDup (space w) -> zlen w.(vw_buffers).(buffers) < 2 ^ 64 -> zlen data <= zlen (space w) ->
  exists n r' x1 m w' x2 rs,
    async_read_to_at (async_write_vectored_at_volatile sched f) count off (r, x) = ((r', x1), Ok n) /\
    0 <= n <= zlen data /\ (n = 0 -> data = []) /\
    take (Z.to_nat n) (drop (Z.to_nat off) (content x1)) = take (Z.to_nat n) data /\
    (forall i, byte_at (content x1) i = byte_at (content x) i \/ (i, byte_at (content x1) i) ∈ zip (seqZ off (zlen data)) data) /\
    zlen (content x) <= zlen (content x1) <= Z.max (zlen (content x)) (off + zlen data) /\
    mem x1 = mem x /\ flat r'.(r_buffers).(buffers) = drop (Z.to_nat n) (flat r.(r_buffers).(buffers)) /\
    vw_async_write_from_at note (fun bufs o => on_fst (async_read_vectored_at_volatile sched f bufs o)) n off (w, (x1, d)) =
      ((w', (x2, d ++ rs)), Ok m) /\
    0 <= m <= n /\ (m = 0 -> n = 0) /\
    map (mem x2) (take (Z.to_nat m) (space w)) = take (Z.to_nat m) data /\ content x2 = content x1 /\
    (forall a, mem x2 a = mem x a \/ (a, mem x2 a) ∈ zip (space w) (take (Z.to_nat n) data)) /\
    space w' = drop (Z.to_nat m) (space w) /\ dirty_addrs rs = take (Z.to_nat m) (space w).
Proof.
  intros Hs Hf Hr Hrl Hc Ho Hfit data Hw Hnd Hwl Hd. assert (zlen data <= count) as Hdc by (unfold data, zlen; rewrite length_map, length_take; lia).
  destruct (async_read_to_at_writes sched f mem content patience Hs Hf r x count off Hr Hrl Hc Ho Hfit)
    as (n & r' & x1 & Hrun1 & Hn & Hz & Hm1 & [Hin Hout] & Hlen & Hfar & Hdrop). fold data in Hn, Hz, Hin, Hout, Hlen.
  assert (take (Z.to_nat n) (drop (Z.to_nat off) (content x1)) = take (Z.to_nat n) data) as Hfront.
  { rewrite <- bytes_at by (done || lia). rewrite <- (take_seqZ off n (zlen data)) by done.
    apply (stored_front _ _ n (byte_at (content x))); [done|unfold zlen in *; rewrite length_seqZ; lia|lia]. }
  destruct (async_write_from_at_reads sched f mem content patience Hs Hf w x1 d n off Hw Hnd Hwl ltac:(lia) Ho ltac:(lia))
    as (m & w' & x2 & rs & Hrun2 & Hm & Hmz & Hc2 & Hst & Hsp & Hdirty).
  assert (readable (content x1) n off = n) as Hrd by (unfold readable; destruct (decide (n = 0)); lia). rewrite Hrd in Hm, Hmz.
  assert (zip (take (Z.to_nat n) (space w)) (drop (Z.to_nat off) (content x1)) = zip (space w) (take (Z.to_nat n) data)) as Ezip.
  { rewrite <- Hfront, <- take_zip. rewrite <- (take_drop (Z.to_nat n) (space w)) at 2. rewrite zip_app_drop, take_app_length'; [done|].
    rewrite length_zip_with, !length_take, length_drop. unfold zlen in *. lia. }
  exists n, r', x1, m, w', x2, rs. rewrite Ezip in Hst. split_and!; try done; try lia.
  - rewrite (stored_front _ _ _ _ _ Hst); [|lia|unfold zlen in *; rewrite length_take; lia]. rewrite take_take. f_equal. lia.
  - intros a. rewrite <- Hm1. apply Hst.
Qed.

(** Three bytes a call at most: of five bytes in slices of three and four the
    WRITE moves all, and the READ into slices of one and seven moves four. *)
Lemma async_write_then_read_witness :
  let r := MkReader (MkIoBuffers [MkRawSlice 50 3; MkRawSlice 60 4] 0) in
  let w := mkVirtioFsWriter (MkIoBuffers [MkRawSlice 100 1; MkRawSlice 110 7] 0) in
  exists r' x1 w' x2 rs,
    async_read_to_at (async_write_vectored_at_volatile backwards (Tokio 3)) 5 7 (r, toy_start) = ((r', x1), Ok 5) /\
    take 5 (drop 7 x1.(tf_content)) = [50; 51; 52; 60; 61] /\
    vw_async_write_from_at note (fun bufs o => on_fst (async_read_vectored_at_volatile backwards (Tokio 3) bufs o)) 5 7 (w, (x1, [])) =
      ((w', (x2, rs)), Ok 4) /\ dirty_addrs rs = [100; 110; 111; 112] /\
    map x2.(tf_mem) [100; 110; 111; 112] = [50; 51; 52; 60].
Proof.
  intros r w.
  destruct (async_write_then_read backwards (Tokio 3) tf_mem tf_content toy_patience r w toy_start [] 5 7 backwards_ok (toy_regular 3))
    as (n & r' & x1 & m & w' & x2 & rs & H1 & _ & _ & Hc & _ & _ & _ & _ & H2 & _ & _ & Hd & _ & _ & _ & Hrs);
    [by vm_compute|by vm_compute|by vm_compute|by vm_compute|by vm_compute|by vm_compute|
     apply (bool_decide_unpack _); vm_compute; exact Logic.I|by vm_compute|by vm_compute|].
  assert (n = 5) as -> by (apply (f_equal snd) in H1; vm_compute in H1; by injection H1).
  assert (x1 = (async_read_to_at (async_write_vectored_at_volatile backwards (Tokio 3)) 5 7 (r, toy_start)).1.2) as Ex by by rewrite H1.
  assert (m = 4) as -> by (apply (f_equal snd) in H2; rewrite Ex in H2; vm_compute in H2; by injection H2).
  exists r', x1, w', x2, rs. split_and!; [exact H1|exact Hc|exact H2|exact Hrs|exact Hd].
Defined.
